(* ===== verification/_CoqProject ===== *)
-Q . S2P
Prelude.v
Float64.v
Models.v
AuctionTypes.v
Cell.v
Zones.v
Scheduler.v
Placement.v
ScheduleProps.v
Batch.v
AuctionRunner.v
AuctionExamples.v
GoStd.v
NetIP.v
Actions.v
Egress.v
Executor.v
Ports.v
StoreNode.v
ContainerStore.v
ContainerLifecycle.v
NodeLocks.v
Depot.v
CellRep.v
RepDepot.v
ExecutorExamples.v
RepExamples.v
Reaper.v
OperationQueue.v
Routes.v
RoutingTable.v
RoutingProps.v
RoutingExamples.v
RouteHandler.v
RouteSync.v
RouteExamples.v
RunRequest.v
Processors.v
Generator.v
ProcessorProps.v
HarmonizerProps.v
HarmonizerExamples.v
Steps.v
StepProps.v
StepResults.v
Transformer.v
TransformerProps.v
StepExamples.v
Hashes.v
FileCache.v
FileCacheProps.v
FileCacheRuns.v
ReplacedEntries.v
Downloader.v
CachedDownloader.v
CachedDownloaderProps.v
FetchProps.v
FetchRuns.v
CacheState.v
LogStream.v
LogStreamer.v
WorkPool.v
Throttler.v
DependencyManager.v
DependencyProps.v
GardenHealth.v
GoStrings.v
Regexp.v
Fingerprint.v
SshAuth.v
SshProxy.v
LocalDriver.v
VolumeProps.v
Volman.v
ContainerMetrics.v
Scp.v
ScpTrace.v
ScpProps.v
ScpCopies.v
