(* ===== verification/Prelude.v ===== *)
(** * Verification of Diego

    A model of Diego, Cloud Foundry's container runtime (code.cloudfoundry.org
    under src/src): the auctioneer, the cells it schedules to, from the rep down
    to the store of containers with what runs in them, their downloads, logs,
    metrics and volumes, the access to them by SSH, and the route emitter, with
    the theorems that make them correct.

    ** The program

    The BBS (the database, not part of this repository) desires long running
    processes (LRPs) and tasks.  It asks the auctioneer to start them.  The
    auctioneer collects start requests in a batch, fetches the state of every cell
    from the cell's rep, places each job on a cell by an auction, and sends each
    cell the work it won.  The rep of a cell allocates containers with its
    executor and hands back the work that failed.  The executor keeps every
    container in a store, takes it through its life with the help of garden, and
    accounts for the cell's resources.  What a container runs is a tree of steps
    that the transformer builds from its actions and checks; its dependencies are
    downloaded through a cache, its output is cut into messages and sent as logs,
    its volumes are mounted by the volume manager through drivers, its usage is
    reported.  Health checks of garden, a reaper and a pruner run beside the
    store.  Users reach a container through the SSH proxy, which authenticates
    them, and copy files with scp.  Events of the executor and a regular bulk
    sync make the rep push operations into a queue that runs one operation per
    container at a time; an operation compares a container with what the BBS
    wants, claims and runs it, reports it, evacuates it or deletes it.  The route
    emitter follows the BBS by events and bulk syncs, keeps tables of routes and
    of the endpoints of running instances, and tells the routers what changes.

    ** The files

    - [Prelude]: integers at their width, results, the order in which Go ranges
      over a map and the result of an unstable sort as classes with laws,
      [sort.SliceStable], sums, folds, deduplication, the hint databases [ints]
      and [diego].
    - [Float64]: the floating point arithmetic of scores, on the standard
      library's [SpecFloat].
    - [GoStd]: [strconv] and JSON lists of strings.
    - [Models]: bbs/models/scheduling_types.go, rootfs_providers.go and
      auctioneer_types.go: resources, constraints, jobs, the state of a cell with
      its matching, scoring and bookkeeping.
    - [AuctionTypes]: auction/auctiontypes/types.go.
    - [Cell], [Zones], [Scheduler]: auction/auctionrunner/cell.go,
      zone_builder.go, zone_sorter.go, sortable_auctions.go, scheduler.go.
      Cells are shared by pointer in Go; here they live in a heap and zones hold
      references.  [Placement] has the theorems on one placement, [ScheduleProps]
      those on a whole request.
    - [Batch], [AuctionRunner]: batch.go, auction_runner.go, the delegate and the
      handlers of the auctioneer.  The runner is a step relation over a program
      counter; requests are posted between its steps.
    - [Executor], [Ports], [StoreNode], [ContainerStore]: executor/resources.go,
      client.go, errors.go and executor/depot/containerstore: containers and their
      states, the ports of the container proxy, the operations of a node, and the
      store.  The store is a step relation in which clients' calls, the nodes'
      processes and the goroutines that wait for a node's lock interleave.
      [ContainerLifecycle] has the states a container goes through, [NodeLocks]
      the operation lock.
    - [Depot]: executor/depot/depot.go, the executor's client.
    - [Actions]: bbs/models: actions, checks, image layers and what they are
      converted to.  [NetIP]: addresses and networks of Go's net package.
      [Egress]: bbs/models/security_groups.go and the conversion of egress rules
      in executor/depot/containerstore/helpers.go.
    - [CellRep]: rep/resources.go, parts of rep/conversion_helpers.go, and
      rep/auctioncellrep.  The rep is proved against an interface of the executor
      ([ExecClient] with [ExecContract]); [RepDepot] discharges it with the depot,
      and in turn discharges with the rep the contract on which the scheduler
      relies ([RepContract]).
    - [OperationQueue]: operationq/queue.go, the queue's loop and its goroutines
      as a step relation.
    - [RunRequest]: the rest of rep/conversion_helpers.go, run requests from
      desired LRPs and tasks.
    - [Processors]: rep/generator/operation.go and rep/generator/internal.  An
      operation is a program, a tree of calls of the BBS and the executor with a
      continuation for every answer; [runs] relates it to the sequences of calls
      and answers it can go through, [exec] runs it in a given world.
      [ProcessorProps] has the theorems on every run.
    - [Generator]: rep/generator/generator.go, rep/harmonizer and rep/evacuation.
      The bulker, the event consumer and the queue interleave in a step relation.
      [HarmonizerProps] has the theorems on bulk syncs.
    - [Routes]: route-emitter/routingtable/endpoint.go, registry_message.go and
      messages_to_emit.go, with the BBS models they read.  [RoutingTable]:
      routingtable.go, one table with its three configurations.  [RoutingProps]
      has the theorems on the table and the routers that follow it.
    - [RouteHandler], [RouteSync]: route-emitter/routehandlers, watcher, emitter
      and unregistration, and the theorem on bulk syncs.
    - [Reaper]: containerreaper.go and registrypruner.go of the container store,
      interleaved with the store's own steps.
    - [Steps]: executor/depot/steps and ifrit, running steps as a transition
      system; [StepProps] and [StepResults] have what steps promise.
      [Transformer], [TransformerProps]: executor/depot/transformer and what the
      step of a container guarantees.
    - [Hashes]: hash functions and cacheddownloader/hash_validator.go.
      [FileCache], with [FileCacheProps], [FileCacheRuns] and
      [ReplacedEntries]: file_cache.go.
      [Downloader], [CachedDownloader], [CacheState]: downloader.go and
      cached_downloader.go, fetches in any interleaving and the saved state, with
      the theorems of [CachedDownloaderProps], [FetchProps] and [FetchRuns].
    - [DependencyManager], [DependencyProps]: dependencymanager.go of the
      container store, on top of the fetches of the cached downloader.
    - [LogStream], [LogStreamer]: executor/depot/log_streamer.
    - [WorkPool], [Throttler]: workpool.
    - [GardenHealth]: executor/gardenhealth, the checker as a program and the
      runner as a step relation.
    - [ContainerMetrics]: executor/containermetrics.
    - [GoStrings], [Regexp]: Go's strings, paths, numbers in texts and regular
      expressions.  [Fingerprint], [SshAuth], [SshProxy]: diego-ssh/helpers,
      diego-ssh/authenticators and diego-ssh/proxy.
    - [LocalDriver], [VolumeProps], [Volman]: localdriver and volman, the
      driver's invariant for any clients and the manager on top of it.
    - [Scp], [ScpTrace], [ScpProps], [ScpCopies]: diego-ssh/scp.  A side of the
      protocol is a program over what it has read so far; a conversation lists
      the bytes it reads and writes, and sides with dual conversations complete
      them together.
    - [AuctionExamples], [ExecutorExamples], [RepExamples], [RoutingExamples],
      [RouteExamples], [HarmonizerExamples], [StepExamples]: concrete clusters and runs, at which
      the theorems are applied, and behaviours that only a concrete run shows.

    ** What is proved

    - Nothing is lost: with reps that hand back only work they were given,
      scheduling never panics and returns every requested job once, as successful
      or failed ([Schedule_conservation]); so does a cluster
      whose cells run the rep and executor modelled here, with nothing assumed of
      their answers ([cluster_conserves_work], from [rep_keeps_contract]); and the
      runner accounts for every job it accepted ([runner_accounts_for_jobs]) and
      always gets on with them ([runner_progress]).
    - Nothing is overcommitted: auctions leave every cell within its capacity
      ([auctions_within_capacity], [runner_within_capacity]), the store's
      resources add up in every reachable state ([store_resources_add_up],
      [allocated_resources_exact]), allocation grants exactly what fits
      ([AllocateContainers_spec]), the rep's memory check is enough for the
      executor ([lrps_never_lack_memory]), and a limit on starting containers is
      kept ([inflight_limit]).
    - Placement is right: a job goes to a compatible cell with the best score in
      the right zone, or fails for a reason that holds
      ([scheduleLRPAuction_placement], [scheduleLRPAuction_failure],
      [scheduleTaskAuction_placement]); the order of auctions, the building of
      zones, the draining of the batch ([auction_order], [build_zones_complete],
      [build_zones_normalised], [FetchStateAndBuildZones_returns],
      [DedupeAndDrain_spec]).
    - Containers live as they should: states only advance
      ([container_lifecycle]), creating, running and exiting have one of a few
      outcomes ([node_Create_outcome], [run_container_outcome],
      [exit_completes]), ports are mapped as promised ([created_ports]), a
      container is reported as the LRP it was allocated for
      ([lrp_reported_as_requested]), and an advertised root file system resolves
      ([matched_rootfs_resolves]).  Garden lets out
      exactly the traffic the egress rules allow, when their numbers fit
      ([egress_exact]).
    - Cells do what the BBS wants: whatever is answered, an operation of the rep
      runs a container only with leave of the BBS ([run_only_granted]), deletes
      one only for a reason ([delete_only_settled]), reports and removes every
      completed one ([completed_container_settled]), and empties an evacuating
      cell ([evacuation_moves_on]), always under the names the work was desired
      under ([allocated_lrp_named]).  A run request has every image layer once
      ([run_request_layers]) and is well typed ([run_request_well_typed]).
    - Nothing waits for ever: operations of one container never overlap and the
      newest is never dropped ([queue_serialises]), the queue drains
      ([queue_drains]), a bulk sync has the operation of every guid
      ([bulk_operations]) and each has its turn ([bulk_sync_covers]).
    - Routers know what runs: a router that is sent the messages of the table's
      operations, those of one operation in any order, has exactly the
      registrations of what is in the table ([routers_follow_table], from
      [diff_tracks_entry] and [Swap_merges]), and a bulk sync of fresh domains makes the table right
      whatever it was ([Sync_converges]).
    - What runs in a container can be trusted: it can always be stopped,
      uploads and monitor actions apart, which wait for others without reading
      signals ([container_stops]), and is ready only when it is healthy
      ([container_ready_when_healthy]).
    - Downloads are right and nothing leaks: what is in use stays in the cache
      ([in_use_stays]), room is made by evicting the oldest, no more than
      needed ([makeRoom_spec]), a
      fetch returns the current version ([fetch_returns_current]), one fetch for
      each key runs ([one_fetch_per_key]), checksums are exact
      ([checksum_exact]), a saved cache is recovered ([state_recovered]), and the
      dependencies of a container are accounted for and released, replaced ones
      too ([dependencies_accounted], [dependencies_released]).
    - The cell looks after itself: every log line is delivered, or dropped by
      the limits ([log_lines_delivered], [log_limits]), every work runs once
      ([pool_runs_all], [throttler_runs_all]), health follows the checks
      ([health_follows_checks], [healthcheck_outcome]), the reaper spares living
      containers ([reaper_spares]), CPU spikes are reported exactly
      ([spikes_exact]), and a volume stays while a container has it
      ([container_volumes]).
    - SSH reaches the right container: only users with access are connected, to
      the instance they asked for and its host key ([ssh_access]); files are
      copied completely and exactly ([scp_copies]).
    - Where the code does something else than it means to, a theorem shows it:
      [update_deadlock], [destroy_race], [failed_create_leaks_cache_keys],
      [reaped_container_runs_again], [exit_completes_twice],
      [unlimited_lrp_turned_away], [negative_index_wraps],
      [error_depends_on_range_order], [index_zero_after_tasks],
      [lost_domain_never_fresh], [stale_run], [route_back_run],
      [task_never_run], [timeout_step_blocks], [invalid_checks_panic],
      [replaced_directory_deleted_in_use], [uncacheable_directory_leaks],
      [reaper_completes_live_container], [opaque_token_panics], [index_wraps],
      [removed_in_use], [failed_unmount_counts], [escaping_name],
      [purge_leaves_mounts], [rediscovery_forgets], [updated_driver_lost],
      [spikes_untagged], [unreadable_aborts], [old_time_refused],
      [foreign_work_panics], [monitor_ignored], [wide_range_lost],
      [wide_type_truncated].

    ** Bounds and parameters

    Definitions run on fuel where the recursion is not structural, each on enough
    of it: the reader of JSON lists in [GoStd], the cutting of log messages and
    the receiver of secure copies on the length of their input (the receiver is
    proved never to run out), the eviction of the file cache on the number of its
    entries, the printing of numbers on their binary length.  The retry loop of the zone builder counts
    its own attempts, and the scan of proxy ports its candidates.  The order of a
    map's range (for the route emitter chosen anew for every statement that
    ranges), the order in which workers finish, unstable sorts, URL parsing, JSON
    of string lists, of routes and of mount configurations, the hash of a message,
    the ECR helper, the clock and the generator of guids are parameters, some with
    laws that the standard library documents; every theorem holds for all of them,
    and the example files instantiate them.  What the BBS and the executor answer
    to an operation of the rep is unconstrained.  The store's requests are
    for amounts that are not negative.  A process is taken to be noticed as ready
    before it is noticed as gone.  Operations of the volume driver and calls of the
    log rate limiter, which the code does not synchronise, are taken one after the
    other.

    ** What is not modelled

    Logging, certificates, HTTP, garden and the operating system: their answers
    are arguments of the operations that use them.  The tickers of the rep's and
    the route emitter's loops are choices of the step relations.  Of the SSH
    proxy the copying of channels between two connections, of secure copy the
    parsing of the command line; the SSH daemon with its terminals and port
    forwarding; the credential manager and the files of the proxy's
    configuration; the uploader; the wiring, configuration and command lines of
    the processes; the app lifecycles, cfdot and the other small programs, which
    are file, process and network I/O; the acceptance suites and simulations. *)
From Stdlib Require Import ZArith Lia Sorted.
From stdpp Require Export base tactics option list gmap strings pretty sorting.

(** ** Integers at their width

    Go's fixed-width integers wrap around; [int] is 64 bits wide on the
    platforms Diego runs on. *)

Definition wrap_signed (bits z : Z) : Z :=
  ((z + 2 ^ (bits - 1)) mod 2 ^ bits - 2 ^ (bits - 1))%Z.
Definition wrap_unsigned (bits z : Z) : Z := (z mod 2 ^ bits)%Z.

Definition i32 : Z -> Z := wrap_signed 32.
Definition i64 : Z -> Z := wrap_signed 64.
Definition u16 : Z -> Z := wrap_unsigned 16.
Definition u64 : Z -> Z := wrap_unsigned 64.

Definition in_i32 (z : Z) : Prop := (- 2 ^ 31 <= z < 2 ^ 31)%Z.
Definition in_i64 (z : Z) : Prop := (- 2 ^ 63 <= z < 2 ^ 63)%Z.

(** Saturation to a 64-bit range, as [time.Time.Sub] does. *)
Definition sat64 (z : Z) : Z := (Z.max (- 2 ^ 63) (Z.min z (2 ^ 63 - 1)))%Z.

Lemma i32_id z : in_i32 z -> i32 z = z.
Proof.
  unfold in_i32, i32, wrap_signed. intros H.
  rewrite Z.mod_small; lia.
Qed.

Lemma i64_id z : in_i64 z -> i64 z = z.
Proof.
  unfold in_i64, i64, wrap_signed. intros H.
  rewrite Z.mod_small; lia.
Qed.

Lemma i32_range z : in_i32 (i32 z).
Proof.
  unfold in_i32, i32, wrap_signed.
  pose proof (Z.mod_pos_bound (z + 2 ^ (32 - 1)) (2 ^ 32)). lia.
Qed.

Lemma i64_range z : in_i64 (i64 z).
Proof.
  unfold in_i64, i64, wrap_signed.
  pose proof (Z.mod_pos_bound (z + 2 ^ (64 - 1)) (2 ^ 64)). lia.
Qed.

#[global] Instance in_i32_dec z : Decision (in_i32 z).
Proof. unfold in_i32. apply _. Defined.
#[global] Instance in_i64_dec z : Decision (in_i64 z).
Proof. unfold in_i64. apply _. Defined.

Create HintDb ints.
Create HintDb diego.
#[export] Hint Resolve i32_range i64_range : ints.

(** Removes the wrap-around of sums and differences that stay in range. *)
Ltac unwrap :=
  repeat match goal with
  | |- context [i32 ?z] => rewrite (i32_id z) by (unfold in_i32, in_i64 in *; lia)
  | |- context [i64 ?z] => rewrite (i64_id z) by (unfold in_i32, in_i64 in *; lia)
  | H : context [i32 ?z] |- _ => rewrite (i32_id z) in H by (unfold in_i32, in_i64 in *; lia)
  | H : context [i64 ?z] |- _ => rewrite (i64_id z) in H by (unfold in_i32, in_i64 in *; lia)
  end.

(** ** Fallible computations

    A Go function returning [(T, error)] returns [Ok t] here when the error is
    nil and [Err e] when it is not. *)

Inductive result (E A : Type) : Type :=
| Ok (a : A)
| Err (e : E).
Arguments Ok {E A} a.
Arguments Err {E A} e.

Definition result_bind {E A B} (r : result E A) (k : A -> result E B) : result E B :=
  match r with Ok a => k a | Err e => Err e end.

Declare Scope go_scope.
Delimit Scope go_scope with go.
Notation "'let?' x := c 'in' k" := (result_bind c (fun x => k))
  (at level 10, x pattern, c at level 100, k at level 200) : go_scope.

Definition is_ok {E A} (r : result E A) : bool :=
  match r with Ok _ => true | Err _ => false end.

(** ** Maps

    [range] over a Go map visits the entries in an order the language leaves
    open and that may differ from one statement to the next.  A [MapRange]
    chooses an order for the [t]-th range statement; the theorems hold for
    every one of them. *)

Class MapRange (K : Type) `{Countable K} := {
  range_over : forall {V : Type}, nat -> gmap K V -> list (K * V);
  range_over_perm : forall (V : Type) (t : nat) (m : gmap K V),
    range_over t m ≡ₚ map_to_list m }.

Definition canonical_range (K : Type) `{Countable K} : MapRange K :=
  {| range_over := fun V _ m => map_to_list m;
     range_over_perm := fun V _ m => reflexivity _ |}.

(** Where loops that range over maps are nested or repeated, a range statement
    is named by its position: a path of numbers, innermost first. *)
Class RangeAt (K : Type) `{Countable K} := {
  range_at : forall {V : Type}, list nat -> gmap K V -> list (K * V);
  range_at_perm : forall (V : Type) (t : list nat) (m : gmap K V),
    range_at t m ≡ₚ map_to_list m }.

Definition canonical_range_at (K : Type) `{Countable K} : RangeAt K :=
  {| range_at := fun V _ m => map_to_list m;
     range_at_perm := fun V _ m => reflexivity _ |}.

Lemma NoDup_fmap_same {A B} (f : A -> B) (l : list A) x y :
  NoDup (f <$> l) -> x ∈ l -> y ∈ l -> f x = f y -> x = y.
Proof.
  induction l as [|a l IH]; [by intros _ []%not_elem_of_nil|].
  rewrite fmap_cons, NoDup_cons, !elem_of_cons. intros [Ha Hnd] [->|Hx] [->|Hy] Hf; [done|..].
  - destruct Ha. rewrite Hf. by apply list_elem_of_fmap_2.
  - destruct Ha. rewrite <- Hf. by apply list_elem_of_fmap_2.
  - by apply IH.
Qed.

Section range_at_facts.
Context {K V : Type} `{RangeAt K}.

Lemma elem_of_range t (m : gmap K V) k v : (k, v) ∈ range_at t m <-> m !! k = Some v.
Proof. rewrite range_at_perm. apply elem_of_map_to_list. Qed.

Lemma range_at_empty t : range_at t (∅ : gmap K V) = [].
Proof.
  pose proof (range_at_perm V t ∅) as Hp. rewrite map_to_list_empty in Hp. symmetry in Hp.
  by apply Permutation_nil in Hp.
Qed.
End range_at_facts.

(** ** Sorting

    [sort.Sort] leaves the slice a permutation of itself in which no element is
    less than one before it, and promises nothing about equal elements. *)

Class GoSort {A : Type} (less : A -> A -> bool) := {
  go_sort : list A -> list A;
  go_sort_perm : forall l, go_sort l ≡ₚ l;
  go_sort_sorted : forall l, StronglySorted (fun a b => less b a = false) (go_sort l) }.
Arguments go_sort {A} less {_} l.

Section merge_go_sort.
Context {A : Type} (less : A -> A -> bool).
Context (less_trans : forall a b c, less b a = false -> less c b = false -> less c a = false).
Context (less_total : forall a b, less b a = false \/ less a b = false).

Definition merge_go_sort : GoSort less.
Proof.
  refine {| go_sort := merge_sort (fun a b => less b a = false)
                         (H := fun a b => decide (less b a = false)) |}.
  - intros l. apply merge_sort_Permutation.
  - intros l. apply StronglySorted_merge_sort.
    + intros a b c. apply less_trans.
    + intros a b. apply less_total.
Defined.
End merge_go_sort.

(** [sort.SliceStable] is deterministic: an insertion sort that never moves an
    element past an equal one. *)
Section stable_sort.
Context {A : Type} (less : A -> A -> bool).

Fixpoint stable_insert (x : A) (l : list A) : list A :=
  match l with
  | [] => [x]
  | y :: l' => if less y x then y :: stable_insert x l' else x :: y :: l'
  end.

Fixpoint stable_sort (l : list A) : list A :=
  match l with
  | [] => []
  | x :: l' => stable_insert x (stable_sort l')
  end.

Lemma stable_insert_perm x l : stable_insert x l ≡ₚ x :: l.
Proof.
  induction l as [|y l IH]; simpl; [done|].
  destruct (less y x); [|done]. rewrite IH. apply Permutation_swap.
Qed.

Lemma stable_sort_perm l : stable_sort l ≡ₚ l.
Proof.
  induction l as [|x l IH]; simpl; [done|].
  by rewrite stable_insert_perm, IH.
Qed.
End stable_sort.

(** ** Generic lemmas *)

Lemma omap_Permutation {A B} (f : A -> option B) (l k : list A) :
  l ≡ₚ k -> omap f l ≡ₚ omap f k.
Proof.
  induction 1; simpl; repeat case_match; eauto using Permutation.
Qed.

Lemma NoDup_fmap_perm {A B} (f : A -> B) (l k : list A) :
  l ≡ₚ k -> NoDup (f <$> l) -> NoDup (f <$> k).
Proof. by intros ->. Qed.

(** *** The concatenation of the lists a map holds *)
Section map_concat.
Context {K A : Type} `{Countable K}.
Implicit Types m : gmap K (list A).

Definition map_concat m : list A := mjoin (snd <$> map_to_list m).

Lemma map_concat_empty : map_concat ∅ = [].
Proof. unfold map_concat. by rewrite map_to_list_empty. Qed.

Lemma map_concat_insert_None m k l :
  m !! k = None -> map_concat (<[k:=l]> m) ≡ₚ l ++ map_concat m.
Proof. intros Hk. unfold map_concat. by rewrite map_to_list_insert. Qed.

Lemma map_concat_lookup m k :
  map_concat m ≡ₚ default [] (m !! k) ++ map_concat (delete k m).
Proof.
  destruct (m !! k) as [l|] eqn:E; simpl.
  - rewrite <-(insert_id m k l) at 1 by done. rewrite <-insert_delete_eq.
    rewrite map_concat_insert_None by apply lookup_delete_eq. done.
  - by rewrite delete_id.
Qed.

Lemma map_concat_insert m k l :
  map_concat (<[k:=l]> m) ≡ₚ l ++ map_concat (delete k m).
Proof.
  rewrite <-insert_delete_eq. apply map_concat_insert_None, lookup_delete_eq.
Qed.

Lemma elem_of_map_concat m x :
  x ∈ map_concat m <-> exists k l, m !! k = Some l /\ x ∈ l.
Proof.
  unfold map_concat. rewrite list_elem_of_join. split.
  - intros (l & Hx & Hl). apply list_elem_of_fmap in Hl as ([k l'] & -> & Hkl).
    apply elem_of_map_to_list in Hkl. eauto.
  - intros (k & l & Hk & Hx). exists l. split; [done|].
    apply list_elem_of_fmap. exists (k, l). by rewrite elem_of_map_to_list.
Qed.
End map_concat.

Lemma elem_of_foldl_omap_snoc {A B} (f : A -> option B) l x :
  omap f (l ++ [x]) = omap f l ++ option_list (f x).
Proof. rewrite omap_app. simpl. by destruct (f x). Qed.

Lemma list_filter_all {A} (P : A -> Prop) `{!forall x, Decision (P x)} (l : list A) :
  (forall x, x ∈ l -> P x) -> filter P l = l.
Proof.
  induction l as [|x l IH]; intros Hl; [done|]. rewrite filter_cons.
  rewrite decide_True by (apply Hl; set_solver). f_equal. apply IH. set_solver.
Qed.

Lemma list_filter_none {A} (P : A -> Prop) `{!forall x, Decision (P x)} (l : list A) :
  (forall x, x ∈ l -> ~ P x) -> filter P l = [].
Proof.
  induction l as [|x l IH]; intros Hl; [done|]. rewrite filter_cons.
  rewrite decide_False by (apply Hl; set_solver). apply IH. set_solver.
Qed.

Lemma omap_ext_elem {A B} (f g : A -> option B) (l : list A) :
  (forall x, x ∈ l -> f x = g x) -> omap f l = omap g l.
Proof.
  induction l as [|x l IH]; intros Hl; [done|]. csimpl.
  rewrite (Hl x) by set_solver. rewrite IH by set_solver. done.
Qed.

Lemma Forall_bind_nil {A B} (f : A -> list B) (l : list A) :
  (forall x, x ∈ l -> f x = []) -> l ≫= f = [].
Proof.
  induction l as [|x l IH]; intros Hl; [done|]. csimpl.
  rewrite Hl by set_solver. apply IH. set_solver.
Qed.

(** *** Sums and folds *)

Definition sumZ {A} (f : A -> Z) (l : list A) : Z := foldr (fun x n => f x + n)%Z 0%Z l.

Lemma sumZ_app {A} (f : A -> Z) l k : sumZ f (l ++ k) = (sumZ f l + sumZ f k)%Z.
Proof. induction l as [|x l IH]; simpl; lia. Qed.

Lemma sumZ_perm {A} (f : A -> Z) l k : l ≡ₚ k -> sumZ f l = sumZ f k.
Proof. induction 1; simpl; lia. Qed.

Lemma sumZ_nonneg {A} (f : A -> Z) l : (forall x, x ∈ l -> (0 <= f x)%Z) -> (0 <= sumZ f l)%Z.
Proof.
  induction l as [|x l IH]; simpl; [lia|]. intros Hl.
  pose proof (Hl x ltac:(set_solver)). assert (0 <= sumZ f l)%Z; [|lia]. apply IH. set_solver.
Qed.

Lemma sumZ_elem_le {A} (f : A -> Z) l x :
  (forall y, y ∈ l -> (0 <= f y)%Z) -> x ∈ l -> (f x <= sumZ f l)%Z.
Proof.
  intros Hl (l1 & l2 & ->)%list_elem_of_split. rewrite sumZ_app. simpl.
  assert (0 <= sumZ f l1 /\ 0 <= sumZ f l2)%Z; [|lia].
  split; apply sumZ_nonneg; intros y Hy; apply Hl, elem_of_app; [by left|right]. apply elem_of_cons. by right.
Qed.

Lemma foldl_inv {A B} (P : A -> Prop) (f : A -> B -> A) l a :
  P a -> (forall a b, P a -> P (f a b)) -> P (foldl f a l).
Proof. intros Ha Hf. revert a Ha. induction l as [|b l IH]; simpl; auto. Qed.

(** *** Removing duplicates

    The loop that keeps the first element with each key, with a map of the keys
    that are present. *)
Section dedupe.
Context {A K : Type} `{Countable K} (id : A -> K).

Definition dedupe_step (st : gmap K bool * list A) (a : A) : gmap K bool * list A :=
  let '(present, deduped) := st in
  if default false (present !! id a) then (present, deduped)
  else (<[id a := true]> present, deduped ++ [a]).

Definition dedupe (l : list A) : list A := (foldl dedupe_step (∅, []) l).2.

(** The first of each group of elements with one key. *)
Fixpoint firsts (seen : gset K) (l : list A) : list A :=
  match l with
  | [] => []
  | a :: l' => if decide (id a ∈ seen) then firsts seen l' else a :: firsts ({[id a]} ∪ seen) l'
  end.

Lemma dedupe_fold l present deduped seen :
  (forall i, default false (present !! i) = true <-> i ∈ seen) ->
  (foldl dedupe_step (present, deduped) l).2 = deduped ++ firsts seen l.
Proof.
  revert present deduped seen. induction l as [|a l IH]; intros present deduped seen Hp; csimpl.
  - by rewrite app_nil_r.
  - destruct (default false (present !! id a)) eqn:E.
    + rewrite decide_True by (by apply Hp). by apply IH.
    + rewrite decide_False by (intros Hin%Hp; congruence).
      rewrite (IH _ _ ({[id a]} ∪ seen)); [by rewrite <-app_assoc|].
      intros i. rewrite elem_of_union, elem_of_singleton, <-Hp. rewrite lookup_insert.
      case_decide as D; [subst; naive_solver|naive_solver].
Qed.

Lemma dedupe_firsts l : dedupe l = firsts ∅ l.
Proof. unfold dedupe. by rewrite (dedupe_fold l ∅ [] ∅). Qed.

Lemma elem_of_firsts a seen l :
  a ∈ firsts seen l -> a ∈ l /\ id a ∉ seen.
Proof.
  revert seen. induction l as [|b l IH]; intros seen; csimpl; [by intros ?%elem_of_nil|].
  case_decide as D.
  - intros [? ?]%IH. set_solver.
  - rewrite elem_of_cons. intros [->|[Hin Hn]%IH]; [set_solver|]. set_solver.
Qed.

Lemma firsts_ids i seen l : i ∈ id <$> firsts seen l <-> i ∈ id <$> l /\ i ∉ seen.
Proof.
  revert seen. induction l as [|b l IH]; intros seen; csimpl; [set_solver|].
  destruct (decide (id b ∈ seen)) as [D|D]; csimpl; rewrite ?elem_of_cons, IH; [set_solver|].
  destruct (decide (i = id b)); set_solver.
Qed.

Lemma firsts_nodup seen l : NoDup (id <$> firsts seen l).
Proof.
  revert seen. induction l as [|b l IH]; intros seen; csimpl; [constructor|].
  case_decide; [apply IH|]. csimpl. constructor; [|apply IH]. rewrite firsts_ids. set_solver.
Qed.

Lemma firsts_sublist seen l : firsts seen l `sublist_of` l.
Proof.
  revert seen. induction l as [|b l IH]; intros seen; csimpl; [constructor|].
  case_decide; [by apply sublist_cons|]. by apply sublist_skip.
Qed.
End dedupe.

(** *** Strings *)

Lemma string_app_assoc (a b c : string) : (a +:+ b) +:+ c = a +:+ (b +:+ c).
Proof. induction a as [|x a IH]; [done|]. change (String x ((a +:+ b) +:+ c) = String x (a +:+ (b +:+ c))). by rewrite IH. Qed.

(** *** Concurrent completion

    Workers of a pool finish in some order; each runs its body to the end under
    the lock, so an interleaving is a permutation of the submitted bodies. *)
Class WorkOrder := {
  finish_order : forall {A : Type}, nat -> list A -> list A;
  finish_order_perm : forall (A : Type) (t : nat) (l : list A), finish_order t l ≡ₚ l }.

Definition submission_order : WorkOrder :=
  {| finish_order := fun A _ l => l; finish_order_perm := fun A _ l => reflexivity _ |}.
