(* ===== verification/Float64.v ===== *)
(** * IEEE 754 binary64 arithmetic

    Go's [float64] on the executable specification of IEEE arithmetic that the
    standard library provides ([SpecFloat]): 53 bits of precision, rounding to
    nearest even.  [float64(i)] of an integer is [of_int i].  The auction only
    needs one law of the arithmetic itself, that [<] is transitive. *)
From Stdlib Require Import ZArith Lia SpecFloat.
From S2P Require Import Prelude.

Abbreviation float64 := spec_float (only parsing).

Definition of_int (z : Z) : float64 := binary_normalize 53 1024 z 0 false.
Definition fadd : float64 -> float64 -> float64 := SFadd 53 1024.
Definition fsub : float64 -> float64 -> float64 := SFsub 53 1024.
Definition fmul : float64 -> float64 -> float64 := SFmul 53 1024.
Definition fdiv : float64 -> float64 -> float64 := SFdiv 53 1024.
Definition flt : float64 -> float64 -> bool := SFltb.

(** The literal [1e20] is exactly representable. *)
Definition f1e20 : float64 := of_int (10 ^ 20).

(** [uint64(x)] for an [x] whose integral part fits. *)
Definition to_u64 (x : float64) : Z :=
  match x with
  | S754_finite s m e =>
      let v := if (0 <=? e)%Z then (Zpos m * 2 ^ e)%Z else (Zpos m / 2 ^ (- e))%Z in
      u64 (if s then (- v)%Z else v)
  | _ => 0%Z
  end.

Example to_u64_trunc : to_u64 (fdiv (of_int 17) (of_int 2)) = 8%Z.
Proof. reflexivity. Qed.

Definition is_nan (x : float64) : bool :=
  match x with S754_nan => true | _ => false end.

Example of_int_third : fdiv (of_int 1) (of_int 3) = S754_finite false 6004799503160661 (-54).
Proof. reflexivity. Qed.

(** Zero divided by zero is NaN, and NaN is below nothing. *)
Example zero_by_zero : fdiv (of_int 0) (of_int 0) = S754_nan.
Proof. reflexivity. Qed.

Lemma flt_nan_l x : flt S754_nan x = false.
Proof. reflexivity. Qed.

Lemma flt_nan_r x : flt x S754_nan = false.
Proof. by destruct x. Qed.

Lemma flt_irrefl x : flt x x = false.
Proof.
  destruct x as [[]|[]| |[] m e]; try reflexivity.
  all: unfold flt, SFltb; simpl; rewrite Z.compare_refl;
    change (PosDef.Pos.compare_cont Eq m m) with (Pos.compare m m);
    by rewrite Pos.compare_refl.
Qed.

Lemma flt_trans x y z : flt x y = true -> flt y z = true -> flt x z = true.
Proof.
  unfold flt, SFltb.
  destruct x as [[]|[]| |[] m1 e1], y as [[]|[]| |[] m2 e2], z as [[]|[]| |[] m3 e3];
    simpl; try done;
    change PosDef.Pos.compare_cont with Pos.compare_cont;
    change (Pos.compare_cont Eq) with Pos.compare.
  all: destruct (Z.compare_spec e1 e2), (Z.compare_spec e2 e3), (Z.compare_spec e1 e3);
    try done; try lia; subst.
  all: destruct (Pos.compare_spec m1 m2), (Pos.compare_spec m2 m3), (Pos.compare_spec m1 m3);
    simpl; try done; try lia.
Qed.

Lemma flt_asym x y : flt x y = true -> flt y x = false.
Proof.
  intros H1. destruct (flt y x) eqn:H2; [|done].
  pose proof (flt_trans _ _ _ H1 H2) as H. by rewrite flt_irrefl in H.
Qed.
