(* ===== verification/Models.v ===== *)
(** * Scheduling types of the BBS models

    The types the auctioneer and the cells exchange:
    [bbs/models/scheduling_types.go], [rootfs_providers.go] and the start
    requests of [auctioneer_types.go].  A method [T.M] of the source is the
    definition [T_M]; fields carry a prefix naming their struct. *)
From Stdlib Require Import ZArith Lia Ascii.
From Stdlib Require String.
From S2P Require Import Prelude Float64.

(** ** URLs

    [net/url.Parse] is an argument of the development: a partial function to
    the four components the code reads.  Nothing is assumed about it. *)

Record URL := mkURL {
  url_Scheme : string;
  url_Opaque : string;
  url_Path : string;
  url_RawQuery : string }.

Class UrlParser := url_Parse : string -> option URL.

(** A parser of the opaque form [scheme:opaque] that root filesystems take,
    used where a concrete parser is wanted. *)
Fixpoint cut_colon (s : string) : option (string * string) :=
  match s with
  | "" => None
  | String ":"%char s' => Some ("", s')
  | String c s' => (fun p => (String c p.1, p.2)) <$> cut_colon s'
  end.
Definition opaque_url : UrlParser := fun s =>
  match cut_colon s with
  | Some (sch, opq) => Some (mkURL sch opq "" "")
  | None => Some (mkURL "" "" s "")
  end.

(** ** Resources *)

Record Resource := mkResource {
  r_MemoryMB : Z;   (* int32 *)
  r_DiskMB : Z;     (* int32 *)
  r_MaxPids : Z     (* int32 *) }.

Definition Resource_Valid (r : Resource) : bool :=
  (0 <=? r_DiskMB r)%Z && (0 <=? r_MemoryMB r)%Z.

Record Resources := mkResources {
  rs_MemoryMB : Z;    (* int32 *)
  rs_DiskMB : Z;      (* int32 *)
  rs_Containers : Z   (* int *) }.

Definition Resources_Subtract (r : Resources) (res : Resource) : Resources :=
  {| rs_MemoryMB := i32 (rs_MemoryMB r - r_MemoryMB res);
     rs_DiskMB := i32 (rs_DiskMB r - r_DiskMB res);
     rs_Containers := i64 (rs_Containers r - 1) |}.

Definition Resources_ComputeScore (r total : Resources) : float64 :=
  let fractionUsedMemory :=
    fsub (of_int 1) (fdiv (of_int (rs_MemoryMB r)) (of_int (rs_MemoryMB total))) in
  let fractionUsedDisk :=
    fsub (of_int 1) (fdiv (of_int (rs_DiskMB r)) (of_int (rs_DiskMB total))) in
  let fractionUsedContainers :=
    fsub (of_int 1) (fdiv (of_int (rs_Containers r)) (of_int (rs_Containers total))) in
  fdiv (fadd (fadd fractionUsedMemory fractionUsedDisk) fractionUsedContainers) (of_int 3).

(** ** Placement constraints, LRPs, tasks and work *)

Record PlacementConstraint := mkPC {
  pc_PlacementTags : list string;
  pc_VolumeDrivers : list string;
  pc_RootFs : string }.

Definition PlacementConstraint_Valid (p : PlacementConstraint) : bool :=
  negb (bool_decide (pc_RootFs p = "")).

Record ActualLRPKey := mkActualLRPKey {
  key_ProcessGuid : string;
  key_Index : Z;   (* int32 *)
  key_Domain : string }.

Record SchedulingLRP := mkSchedulingLRP {
  lrp_InstanceGUID : string;
  lrp_Key : ActualLRPKey;
  lrp_PC : PlacementConstraint;
  lrp_Res : Resource;
  lrp_State : string }.

Definition NewSchedulingLRP (instanceGUID : string) (key : ActualLRPKey)
    (res : Resource) (pc : PlacementConstraint) : SchedulingLRP :=
  mkSchedulingLRP instanceGUID key pc res "".

(** [fmt.Sprintf("%s.%d", lrp.ProcessGuid, lrp.Index)] *)
Definition SchedulingLRP_Identifier (lrp : SchedulingLRP) : string :=
  key_ProcessGuid (lrp_Key lrp) +:+ "." +:+ pretty (key_Index (lrp_Key lrp)).

Definition SchedulingLRP_Copy (lrp : SchedulingLRP) : SchedulingLRP :=
  NewSchedulingLRP (lrp_InstanceGUID lrp) (lrp_Key lrp) (lrp_Res lrp) (lrp_PC lrp).

Inductive Task_State :=
| Task_Invalid | Task_Pending | Task_Running | Task_Completed | Task_Resolving.

Record SchedulingTask := mkSchedulingTask {
  task_TaskGuid : string;
  task_Domain : string;
  task_PC : PlacementConstraint;
  task_Res : Resource;
  task_State : Task_State;
  task_Failed : bool }.

Definition NewSchedulingTask (guid domain : string) (res : Resource)
    (pc : PlacementConstraint) : SchedulingTask :=
  mkSchedulingTask guid domain pc res Task_Invalid false.

Definition SchedulingTask_Identifier (task : SchedulingTask) : string := task_TaskGuid task.
Definition SchedulingTask_Copy (task : SchedulingTask) : SchedulingTask := task.

Record Work := mkWork {
  work_LRPs : list SchedulingLRP;
  work_Tasks : list SchedulingTask;
  work_CellID : string }.

(** The zero value [models.Work{}]. *)
Definition emptyWork : Work := mkWork [] [] "".

(** ** Root filesystems *)

Inductive RootFSProvider :=
| ArbitraryRootFSProvider
| FixedSetRootFSProvider (FixedSet : gset string).

Definition RootFSProvider_Match (p : RootFSProvider) (rootfs : URL) : bool :=
  match p with
  | ArbitraryRootFSProvider => true
  | FixedSetRootFSProvider set => bool_decide (url_Opaque rootfs ∈ set)
  end.

Definition RootFSProviders_Match (p : gmap string RootFSProvider) (rootFS : URL) : bool :=
  match p !! url_Scheme rootFS with
  | None => false
  | Some provider => RootFSProvider_Match provider rootFS
  end.

(** ** Cell state *)

Record CellState := mkCellState {
  cs_RepURL : string;
  cs_CellID : string;
  cs_CellIndex : Z;
  cs_RootFSProviders : gmap string RootFSProvider;
  cs_AvailableResources : Resources;
  cs_TotalResources : Resources;
  cs_LRPs : list SchedulingLRP;
  cs_Tasks : list SchedulingTask;
  cs_StartingContainerCount : Z;
  cs_Zone : string;
  cs_Evacuating : bool;
  cs_VolumeDrivers : list string;
  cs_PlacementTags : list string;
  cs_OptionalPlacementTags : list string;
  cs_ProxyMemoryAllocationMB : Z }.

Definition CellState_AddLRP (c : CellState) (lrp : SchedulingLRP) : CellState :=
  {| cs_RepURL := cs_RepURL c; cs_CellID := cs_CellID c; cs_CellIndex := cs_CellIndex c;
     cs_RootFSProviders := cs_RootFSProviders c;
     cs_AvailableResources := Resources_Subtract (cs_AvailableResources c) (lrp_Res lrp);
     cs_TotalResources := cs_TotalResources c;
     cs_LRPs := cs_LRPs c ++ [lrp];
     cs_Tasks := cs_Tasks c;
     cs_StartingContainerCount := i64 (cs_StartingContainerCount c + 1);
     cs_Zone := cs_Zone c; cs_Evacuating := cs_Evacuating c;
     cs_VolumeDrivers := cs_VolumeDrivers c; cs_PlacementTags := cs_PlacementTags c;
     cs_OptionalPlacementTags := cs_OptionalPlacementTags c;
     cs_ProxyMemoryAllocationMB := cs_ProxyMemoryAllocationMB c |}.

Definition CellState_AddTask (c : CellState) (task : SchedulingTask) : CellState :=
  {| cs_RepURL := cs_RepURL c; cs_CellID := cs_CellID c; cs_CellIndex := cs_CellIndex c;
     cs_RootFSProviders := cs_RootFSProviders c;
     cs_AvailableResources := Resources_Subtract (cs_AvailableResources c) (task_Res task);
     cs_TotalResources := cs_TotalResources c;
     cs_LRPs := cs_LRPs c;
     cs_Tasks := cs_Tasks c ++ [task];
     cs_StartingContainerCount := i64 (cs_StartingContainerCount c + 1);
     cs_Zone := cs_Zone c; cs_Evacuating := cs_Evacuating c;
     cs_VolumeDrivers := cs_VolumeDrivers c; cs_PlacementTags := cs_PlacementTags c;
     cs_OptionalPlacementTags := cs_OptionalPlacementTags c;
     cs_ProxyMemoryAllocationMB := cs_ProxyMemoryAllocationMB c |}.

Record InsufficientResourcesError := mkInsufficient { Problems : gset string }.

(** [strings.Join] *)
Fixpoint strings_Join (l : list string) (sep : string) : string :=
  match l with
  | [] => ""
  | [s] => s
  | s :: l' => s +:+ sep +:+ strings_Join l' sep
  end.

Definition InsufficientResourcesError_Error (i : InsufficientResourcesError) : string :=
  if bool_decide (size (Problems i) = 0) then "insufficient resources"
  else "insufficient resources: " +:+
       strings_Join (stable_sort String.ltb (elements (Problems i))) ", ".

(** The error value of [ResourceMatch]: [None] is nil. *)
Definition CellState_ResourceMatch (c : CellState) (res : Resource)
    : option InsufficientResourcesError :=
  let problems : gset string := ∅ in
  let problems :=
    if (rs_DiskMB (cs_AvailableResources c) <? r_DiskMB res)%Z
    then {["disk"]} ∪ problems else problems in
  let problems :=
    if (rs_MemoryMB (cs_AvailableResources c) <? r_MemoryMB res)%Z
    then {["memory"]} ∪ problems else problems in
  let problems :=
    if (rs_Containers (cs_AvailableResources c) <? 1)%Z
    then {["containers"]} ∪ problems else problems in
  if bool_decide (size problems = 0) then None else Some (mkInsufficient problems).

Definition CellState_ComputeScore (c : CellState) (res : Resource)
    (startingContainerWeight : float64) : float64 :=
  let remainingResources := Resources_Subtract (cs_AvailableResources c) res in
  let startingContainerScore :=
    fmul (of_int (cs_StartingContainerCount c)) startingContainerWeight in
  fadd (Resources_ComputeScore remainingResources (cs_TotalResources c)) startingContainerScore.

Definition CellState_MatchRootFS `{UrlParser} (c : CellState) (rootfs : string) : bool :=
  match url_Parse rootfs with
  | None => false
  | Some rootFSURL => RootFSProviders_Match (cs_RootFSProviders c) rootFSURL
  end.

Fixpoint driver_found (requestedDriver : string) (drivers : list string) : bool :=
  match drivers with
  | [] => false
  | actualDriver :: rest =>
      if bool_decide (requestedDriver = actualDriver) then true
      else driver_found requestedDriver rest
  end.

Definition CellState_MatchVolumeDrivers (c : CellState) (volumeDrivers : list string) : bool :=
  (fix loop (l : list string) : bool :=
     match l with
     | [] => true
     | requestedDriver :: l' =>
         if driver_found requestedDriver (cs_VolumeDrivers c) then loop l' else false
     end) volumeDrivers.

Definition toPlacementSet (slice : list string) : gset string := list_to_set slice.
Definition placementTagSet_union (set other : gset string) : gset string := set ∪ other.
Definition placementTagSet_isSubset (set other : gset string) : bool :=
  bool_decide (set ⊆ other).

Definition CellState_MatchPlacementTags (c : CellState) (desiredPlacementTags : list string) : bool :=
  let desiredTags := toPlacementSet desiredPlacementTags in
  let optionalTags := toPlacementSet (cs_OptionalPlacementTags c) in
  let requiredTags := toPlacementSet (cs_PlacementTags c) in
  let allTags := placementTagSet_union requiredTags optionalTags in
  placementTagSet_isSubset requiredTags desiredTags && placementTagSet_isSubset desiredTags allTags.

(** ** Start requests *)

Record LRPStartRequest := mkLRPStartRequest {
  start_ProcessGuid : string;
  start_Domain : string;
  start_Indices : list Z;   (* []int *)
  start_PC : PlacementConstraint;
  start_Res : Resource }.

Record TaskStartRequest := mkTaskStartRequest { start_Task : SchedulingTask }.

(** [None] is a nil error; otherwise the error's message. *)
Definition LRPStartRequest_Validate (s : LRPStartRequest) : option string :=
  if bool_decide (start_ProcessGuid s = "") then Some "process guid is empty"
  else if bool_decide (start_Domain s = "") then Some "domain is empty"
  else if bool_decide (length (start_Indices s) = 0) then Some "indices must not be empty"
  else if negb (Resource_Valid (start_Res s)) then Some "resources cannot be less than 0"
  else if negb (PlacementConstraint_Valid (start_PC s))
       then Some "placement constraint cannot be empty"
  else None.

Definition TaskStartRequest_Validate (t : TaskStartRequest) : option string :=
  if bool_decide (task_TaskGuid (start_Task t) = "") then Some "task guid is empty"
  else if negb (Resource_Valid (task_Res (start_Task t)))
       then Some "resources cannot be less than zero"
  else if negb (PlacementConstraint_Valid (task_PC (start_Task t)))
       then Some "placement constraint cannot be empty"
  else None.

(** ** Lemmas *)

(** Which problems a failed resource match names. *)
Definition problem_disk (c : CellState) (res : Resource) : bool :=
  (rs_DiskMB (cs_AvailableResources c) <? r_DiskMB res)%Z.
Definition problem_memory (c : CellState) (res : Resource) : bool :=
  (rs_MemoryMB (cs_AvailableResources c) <? r_MemoryMB res)%Z.
Definition problem_containers (c : CellState) : bool :=
  (rs_Containers (cs_AvailableResources c) <? 1)%Z.

(** The cell can take the resource: disk, memory and a container slot. *)
Definition fits (c : CellState) (res : Resource) : Prop :=
  (r_DiskMB res <= rs_DiskMB (cs_AvailableResources c))%Z /\
  (r_MemoryMB res <= rs_MemoryMB (cs_AvailableResources c))%Z /\
  (1 <= rs_Containers (cs_AvailableResources c))%Z.

#[global] Instance fits_dec c res : Decision (fits c res).
Proof. unfold fits. apply _. Defined.

(** The set [ResourceMatch] builds. *)
Definition match_problems (c : CellState) (res : Resource) : gset string :=
  (if problem_containers c then {["containers"]} else ∅) ∪
  ((if problem_memory c res then {["memory"]} else ∅) ∪
   (if problem_disk c res then {["disk"]} else ∅)).

Lemma ResourceMatch_alt c res :
  CellState_ResourceMatch c res =
  if bool_decide (match_problems c res = ∅) then None
  else Some (mkInsufficient (match_problems c res)).
Proof.
  transitivity (if bool_decide (size (match_problems c res) = 0) then None
                else Some (mkInsufficient (match_problems c res))).
  - unfold CellState_ResourceMatch, match_problems,
      problem_disk, problem_memory, problem_containers.
    assert (forall (b : bool) (x : string) (X : gset string),
              (if b then {[x]} ∪ X else X) = (if b then {[x]} else (∅ : gset string)) ∪ X) as E.
    { intros [] x X; [reflexivity|]. by rewrite union_empty_l_L. }
    rewrite !E, !union_empty_r_L. reflexivity.
  - rewrite (bool_decide_ext _ (match_problems c res = ∅)); [reflexivity|].
    rewrite size_empty_iff. apply leibniz_equiv_iff.
Qed.

Lemma elem_of_match_problems c res p :
  p ∈ match_problems c res <->
    (p = "disk" /\ problem_disk c res = true) \/
    (p = "memory" /\ problem_memory c res = true) \/
    (p = "containers" /\ problem_containers c = true).
Proof.
  unfold match_problems. rewrite !elem_of_union.
  destruct (problem_containers c), (problem_memory c res), (problem_disk c res);
    rewrite ?elem_of_singleton, ?elem_of_empty; intuition congruence.
Qed.

Lemma match_problems_empty c res : match_problems c res = ∅ <-> fits c res.
Proof.
  assert (fits c res <-> problem_disk c res = false /\ problem_memory c res = false /\
            problem_containers c = false) as ->.
  { unfold fits, problem_disk, problem_memory, problem_containers. rewrite !Z.ltb_ge. lia. }
  split.
  - intros He.
    assert (forall p, p ∉ match_problems c res) as Hn by (rewrite He; intros p; apply not_elem_of_empty).
    setoid_rewrite elem_of_match_problems in Hn.
    repeat split; apply not_true_iff_false; naive_solver.
  - intros (Hd & Hm & Hc). apply elem_of_equiv_empty_L. intros p Hp.
    apply elem_of_match_problems in Hp. naive_solver congruence.
Qed.

Lemma ResourceMatch_nil c res : CellState_ResourceMatch c res = None <-> fits c res.
Proof. rewrite ResourceMatch_alt, <-match_problems_empty. by case_bool_decide. Qed.

Lemma ResourceMatch_problems c res e :
  CellState_ResourceMatch c res = Some e -> ~ fits c res /\ Problems e = match_problems c res.
Proof.
  rewrite ResourceMatch_alt, <-match_problems_empty. case_bool_decide; naive_solver.
Qed.

Lemma driver_found_spec d l : driver_found d l = true <-> d ∈ l.
Proof.
  induction l as [|x l IH]; simpl; [set_solver|].
  case_bool_decide; set_solver.
Qed.

Lemma MatchVolumeDrivers_spec c drivers :
  CellState_MatchVolumeDrivers c drivers = true <-> drivers ⊆ cs_VolumeDrivers c.
Proof.
  unfold CellState_MatchVolumeDrivers.
  induction drivers as [|d l IH]; simpl; [set_solver|].
  destruct (driver_found d (cs_VolumeDrivers c)) eqn:E.
  - apply driver_found_spec in E. rewrite IH. set_solver.
  - split; [done|]. intros Hsub. rewrite <-not_true_iff_false in E.
    rewrite driver_found_spec in E. set_solver.
Qed.

Lemma MatchPlacementTags_spec c tags :
  CellState_MatchPlacementTags c tags = true <->
  cs_PlacementTags c ⊆ tags /\ tags ⊆ cs_PlacementTags c ++ cs_OptionalPlacementTags c.
Proof.
  unfold CellState_MatchPlacementTags, placementTagSet_isSubset, placementTagSet_union,
    toPlacementSet.
  rewrite andb_true_iff, !bool_decide_eq_true. set_solver.
Qed.

(** Taking a resource that fits keeps every counter in range. *)
Definition resources_ok (r : Resources) : Prop :=
  (0 <= rs_MemoryMB r < 2 ^ 31)%Z /\ (0 <= rs_DiskMB r < 2 ^ 31)%Z /\
  (0 <= rs_Containers r < 2 ^ 63)%Z.

Lemma Subtract_fits c res :
  Resource_Valid res = true -> resources_ok (cs_AvailableResources c) -> fits c res ->
  Resources_Subtract (cs_AvailableResources c) res =
    {| rs_MemoryMB := rs_MemoryMB (cs_AvailableResources c) - r_MemoryMB res;
       rs_DiskMB := rs_DiskMB (cs_AvailableResources c) - r_DiskMB res;
       rs_Containers := rs_Containers (cs_AvailableResources c) - 1 |}%Z /\
  resources_ok (Resources_Subtract (cs_AvailableResources c) res).
Proof.
  unfold Resource_Valid, resources_ok, fits, Resources_Subtract.
  rewrite andb_true_iff, !Z.leb_le. intros [??] (?&?&?) (?&?&?).
  unwrap. simpl. split; [done|lia].
Qed.

(** *** Identifiers determine the process guid and the index. *)

Definition digit_or_sign (a : Ascii.ascii) : Prop := a <> "."%char.

Fixpoint string_Forall (P : Ascii.ascii -> Prop) (s : string) : Prop :=
  match s with
  | "" => True
  | String a s' => P a /\ string_Forall P s'
  end.

Lemma string_Forall_app P s t :
  string_Forall P (s +:+ t) <-> string_Forall P s /\ string_Forall P t.
Proof. induction s as [|a s IH]; simpl; [tauto|]. fold (String.append s t). rewrite IH. tauto. Qed.

Lemma pretty_N_go_no_dot x s :
  string_Forall digit_or_sign s -> string_Forall digit_or_sign (pretty_N_go x s).
Proof.
  revert s. induction (N.lt_wf_0 x) as [x _ IH]; intros s Hs.
  destruct (decide (x = 0)%N) as [->|Hx].
  - by rewrite pretty_N_go_0.
  - rewrite pretty_N_go_step by lia. apply IH; [apply N.div_lt; lia|].
    simpl. split; [|done]. unfold digit_or_sign, pretty_N_char. by repeat case_match.
Qed.

Lemma pretty_N_no_dot (n : N) : string_Forall digit_or_sign (pretty n).
Proof.
  unfold pretty, pretty_N. case_decide; [done|]. by apply pretty_N_go_no_dot.
Qed.

Lemma pretty_Z_no_dot (z : Z) : string_Forall digit_or_sign (pretty z).
Proof.
  destruct z; simpl; [done| |split; [done|]]; apply (pretty_N_no_dot (Npos _)).
Qed.

(** The text after the last dot is determined. *)
Lemma split_last_dot (p q s t : string) :
  string_Forall digit_or_sign s -> string_Forall digit_or_sign t ->
  p +:+ "." +:+ s = q +:+ "." +:+ t -> p = q /\ s = t.
Proof.
  intros Hs Ht. revert q. induction p as [|a p IH]; intros [|b q]; simpl; intros Heq.
  - by simplify_eq.
  - injection Heq as <- Heq. change ("" +:+ s) with s in Heq. subst s. apply string_Forall_app in Hs as [_ [Hd _]]. by destruct Hd.
  - injection Heq as -> Heq. change ("" +:+ t) with t in Heq. subst t. apply string_Forall_app in Ht as [_ [Hd _]]. by destruct Hd.
  - injection Heq as -> Heq. apply IH in Heq as [-> ->]. done.
Qed.

Lemma Identifier_inj a b :
  SchedulingLRP_Identifier a = SchedulingLRP_Identifier b <->
  key_ProcessGuid (lrp_Key a) = key_ProcessGuid (lrp_Key b) /\
  key_Index (lrp_Key a) = key_Index (lrp_Key b).
Proof.
  unfold SchedulingLRP_Identifier. split.
  - intros H. apply split_last_dot in H as [-> H]; try apply pretty_Z_no_dot.
    split; [done|]. by apply (inj pretty).
  - by intros [-> ->].
Qed.
