(* ===== verification/AuctionTypes.v ===== *)
(** * Auction types

    [auction/auctiontypes/types.go]: the placement errors and their messages,
    the auction records, requests and results. *)
From Stdlib Require Import ZArith Lia Ascii.
From S2P Require Import Prelude Float64 Models.

(** ** Errors *)

Inductive AuctionError :=
| ErrorCellMismatch
| ErrorVolumeDriverMismatch
| PlacementTagMismatchError (tags : list string)
| ErrorInsufficientResources (e : InsufficientResourcesError)
| ErrorCellCommunication
| ErrorExceededInflightCreation.

(** A double quote character. *)
Definition quote : string := String (ascii_of_nat 34) "".
Definition quoted (s : string) : string := quote +:+ s +:+ quote.

Definition PlacementTagMismatchError_Error (tags : list string) : string :=
  match tags with
  | [] => "found no compatible cell with no placement tags"
  | [t] => "found no compatible cell with placement tag " +:+ quoted t
  | t0 :: _ =>
      let count := length tags - 1 in
      let lastTag := List.nth count tags t0 in
      "found no compatible cell with placement tags " +:+
      strings_Join (quoted <$> take count tags) ", " +:+ " and " +:+ quoted lastTag
  end.

Definition AuctionError_Error (e : AuctionError) : string :=
  match e with
  | ErrorCellMismatch => "found no compatible cell for required rootfs"
  | ErrorVolumeDriverMismatch => "found no compatible cell with required volume drivers"
  | PlacementTagMismatchError tags => PlacementTagMismatchError_Error tags
  | ErrorInsufficientResources e => InsufficientResourcesError_Error e
  | ErrorCellCommunication => "unable to communicate to compatible cells"
  | ErrorExceededInflightCreation =>
      "waiting to start instance: reached in-flight start limit"
  end.

Definition isPlacementTagMismatch (e : AuctionError) : bool :=
  match e with PlacementTagMismatchError _ => true | _ => false end.

Example tag_error_three :
  PlacementTagMismatchError_Error ["a"; "b"; "c"] =
  "found no compatible cell with placement tags " +:+ quoted "a" +:+ ", " +:+ quoted "b"
    +:+ " and " +:+ quoted "c".
Proof. reflexivity. Qed.

(** ** Auctions *)

(** Times are nanoseconds since the epoch. *)
Record AuctionRecord := mkAuctionRecord {
  rec_Winner : string;
  rec_Attempts : Z;
  rec_QueueTime : Z;
  rec_WaitDuration : Z;
  rec_PlacementError : string }.

Definition NewAuctionRecord (now : Z) : AuctionRecord :=
  mkAuctionRecord "" 0 now 0 "".

Record LRPAuction := mkLRPAuction { la_LRP : SchedulingLRP; la_Rec : AuctionRecord }.
Record TaskAuction := mkTaskAuction { ta_Task : SchedulingTask; ta_Rec : AuctionRecord }.

Definition NewLRPAuction (lrp : SchedulingLRP) (now : Z) : LRPAuction :=
  mkLRPAuction lrp (NewAuctionRecord now).
Definition NewTaskAuction (task : SchedulingTask) (now : Z) : TaskAuction :=
  mkTaskAuction task (NewAuctionRecord now).

Definition LRPAuction_Copy (a : LRPAuction) : LRPAuction :=
  mkLRPAuction (SchedulingLRP_Copy (la_LRP a)) (la_Rec a).
Definition TaskAuction_Copy (a : TaskAuction) : TaskAuction :=
  mkTaskAuction (SchedulingTask_Copy (ta_Task a)) (ta_Rec a).

(** Identifiers are promoted from the embedded LRP or task. *)
Definition la_id (a : LRPAuction) : string := SchedulingLRP_Identifier (la_LRP a).
Definition ta_id (a : TaskAuction) : string := SchedulingTask_Identifier (ta_Task a).

Record AuctionRequest := mkAuctionRequest {
  req_LRPs : list LRPAuction;
  req_Tasks : list TaskAuction }.

Record AuctionResults := mkAuctionResults {
  res_SuccessfulLRPs : list LRPAuction;
  res_SuccessfulTasks : list TaskAuction;
  res_FailedLRPs : list LRPAuction;
  res_FailedTasks : list TaskAuction }.

(** Assignments to one field of the embedded record. *)
Definition with_PlacementError (r : AuctionRecord) (e : string) : AuctionRecord :=
  mkAuctionRecord (rec_Winner r) (rec_Attempts r) (rec_QueueTime r) (rec_WaitDuration r) e.
Definition with_Winner (r : AuctionRecord) (w : string) : AuctionRecord :=
  mkAuctionRecord w (rec_Attempts r) (rec_QueueTime r) (rec_WaitDuration r) (rec_PlacementError r).
Definition incr_Attempts (r : AuctionRecord) : AuctionRecord :=
  mkAuctionRecord (rec_Winner r) (i64 (rec_Attempts r + 1)) (rec_QueueTime r)
    (rec_WaitDuration r) (rec_PlacementError r).
Definition with_WaitDuration (r : AuctionRecord) (d : Z) : AuctionRecord :=
  mkAuctionRecord (rec_Winner r) (rec_Attempts r) (rec_QueueTime r) d (rec_PlacementError r).

Definition la_fail (a : LRPAuction) (e : AuctionError) : LRPAuction :=
  mkLRPAuction (la_LRP a) (with_PlacementError (la_Rec a) (AuctionError_Error e)).
Definition ta_fail (a : TaskAuction) (e : AuctionError) : TaskAuction :=
  mkTaskAuction (ta_Task a) (with_PlacementError (ta_Rec a) (AuctionError_Error e)).

Lemma la_id_copy a : la_id (LRPAuction_Copy a) = la_id a.
Proof. reflexivity. Qed.
