(* ===== verification/Cell.v ===== *)
(** * Cells as the auctioneer sees them

    [auction/auctionrunner/cell.go]: a cell's last known state, the work
    reserved on it, scoring, reservation and commit. *)
From Stdlib Require Import ZArith Lia.
From S2P Require Import Prelude Float64 Models AuctionTypes.

(** The rep client of a cell, [models.RepClient].  [client_State i] is the
    answer to the [i]-th request for the state. *)
Record RepClient := mkRepClient {
  client_State : nat -> result string CellState;
  client_Perform : Work -> result string Work }.

Definition LocalityOffset : Z := 1000.

Record Cell := mkCell {
  cell_Guid : string;
  cell_client : RepClient;
  cell_state : CellState;
  cell_Index : Z;
  cell_workToCommit : Work }.

Definition NewCell (guid : string) (client : RepClient) (state : CellState) : Cell :=
  mkCell guid client state (cs_CellIndex state) (mkWork [] [] guid).

Definition Cell_StartingContainerCount (c : Cell) : Z :=
  cs_StartingContainerCount (cell_state c).
Definition Cell_MatchRootFS `{UrlParser} (c : Cell) (rootFS : string) : bool :=
  CellState_MatchRootFS (cell_state c) rootFS.
Definition Cell_MatchVolumeDrivers (c : Cell) (volumeDrivers : list string) : bool :=
  CellState_MatchVolumeDrivers (cell_state c) volumeDrivers.
Definition Cell_MatchPlacementTags (c : Cell) (placementTags : list string) : bool :=
  CellState_MatchPlacementTags (cell_state c) placementTags.

(** The instances of a process among LRPs. *)
Definition count_process (processGuid : string) (lrps : list SchedulingLRP) : Z :=
  foldl (fun n lrp =>
           if bool_decide (key_ProcessGuid (lrp_Key lrp) = processGuid) then i64 (n + 1) else n)
        0%Z lrps.

(** The LRP's resource with the cell's proxy overhead added. *)
Definition proxied (c : CellState) (res : Resource) : Resource :=
  {| r_MemoryMB := i32 (r_MemoryMB res + i32 (cs_ProxyMemoryAllocationMB c));
     r_DiskMB := r_DiskMB res;
     r_MaxPids := r_MaxPids res |}.

Definition Cell_ScoreForLRP (c : Cell) (lrp : SchedulingLRP)
    (startingContainerWeight binPackFirstFitWeight : float64)
    : result InsufficientResourcesError float64 :=
  let proxiedLRP := proxied (cell_state c) (lrp_Res lrp) in
  match CellState_ResourceMatch (cell_state c) proxiedLRP with
  | Some err => Err err
  | None =>
      let numberOfInstancesWithMatchingProcessGuid :=
        count_process (key_ProcessGuid (lrp_Key lrp)) (cs_LRPs (cell_state c)) in
      let localityScore := i64 (LocalityOffset * numberOfInstancesWithMatchingProcessGuid) in
      let resourceScore :=
        CellState_ComputeScore (cell_state c) proxiedLRP startingContainerWeight in
      let indexScore := fmul (of_int (cell_Index c)) binPackFirstFitWeight in
      Ok (fadd (fadd resourceScore (of_int localityScore)) indexScore)
  end.

Definition Cell_ScoreForTask (c : Cell) (task : SchedulingTask)
    (startingContainerWeight : float64) : result InsufficientResourcesError float64 :=
  match CellState_ResourceMatch (cell_state c) (task_Res task) with
  | Some err => Err err
  | None =>
      let localityScore := i64 (LocalityOffset * Z.of_nat (length (cs_Tasks (cell_state c)))) in
      let resourceScore :=
        CellState_ComputeScore (cell_state c) (task_Res task) startingContainerWeight in
      Ok (fadd resourceScore (of_int localityScore))
  end.

Definition Cell_ReserveLRP (c : Cell) (lrp : SchedulingLRP)
    : result InsufficientResourcesError Cell :=
  match CellState_ResourceMatch (cell_state c) (lrp_Res lrp) with
  | Some err => Err err
  | None =>
      Ok {| cell_Guid := cell_Guid c; cell_client := cell_client c;
            cell_state := CellState_AddLRP (cell_state c) lrp;
            cell_Index := cell_Index c;
            cell_workToCommit :=
              mkWork (work_LRPs (cell_workToCommit c) ++ [lrp])
                     (work_Tasks (cell_workToCommit c))
                     (work_CellID (cell_workToCommit c)) |}
  end.

Definition Cell_ReserveTask (c : Cell) (task : SchedulingTask)
    : result InsufficientResourcesError Cell :=
  match CellState_ResourceMatch (cell_state c) (task_Res task) with
  | Some err => Err err
  | None =>
      Ok {| cell_Guid := cell_Guid c; cell_client := cell_client c;
            cell_state := CellState_AddTask (cell_state c) task;
            cell_Index := cell_Index c;
            cell_workToCommit :=
              mkWork (work_LRPs (cell_workToCommit c))
                     (work_Tasks (cell_workToCommit c) ++ [task])
                     (work_CellID (cell_workToCommit c)) |}
  end.

(** A failed request may have been performed in part, so none of its work is
    reported back. *)
Definition Cell_Commit (c : Cell) : Work :=
  if bool_decide (length (work_LRPs (cell_workToCommit c)) = 0) &&
     bool_decide (length (work_Tasks (cell_workToCommit c)) = 0)
  then emptyWork
  else match client_Perform (cell_client c) (cell_workToCommit c) with
       | Err _ => emptyWork
       | Ok failedWork => failedWork
       end.

(** ** Lemmas *)

(** The cell passes the placement constraint. *)
Definition cell_matches `{UrlParser} (pc : PlacementConstraint) (c : Cell) : bool :=
  Cell_MatchRootFS c (pc_RootFs pc) &&
  Cell_MatchVolumeDrivers c (pc_VolumeDrivers pc) &&
  Cell_MatchPlacementTags c (pc_PlacementTags pc).

Lemma ScoreForLRP_err c lrp w b e :
  Cell_ScoreForLRP c lrp w b = Err e <->
  CellState_ResourceMatch (cell_state c) (proxied (cell_state c) (lrp_Res lrp)) = Some e.
Proof. unfold Cell_ScoreForLRP. destruct (CellState_ResourceMatch _ _); intuition congruence. Qed.

Lemma ScoreForLRP_ok_fits c lrp w b s :
  Cell_ScoreForLRP c lrp w b = Ok s -> fits (cell_state c) (proxied (cell_state c) (lrp_Res lrp)).
Proof.
  unfold Cell_ScoreForLRP. rewrite <-ResourceMatch_nil.
  destruct (CellState_ResourceMatch _ _); intuition congruence.
Qed.

Lemma ScoreForTask_err c task w e :
  Cell_ScoreForTask c task w = Err e <->
  CellState_ResourceMatch (cell_state c) (task_Res task) = Some e.
Proof. unfold Cell_ScoreForTask. destruct (CellState_ResourceMatch _ _); intuition congruence. Qed.

Lemma ScoreForTask_ok_fits c task w s :
  Cell_ScoreForTask c task w = Ok s -> fits (cell_state c) (task_Res task).
Proof.
  unfold Cell_ScoreForTask. rewrite <-ResourceMatch_nil.
  destruct (CellState_ResourceMatch _ _); intuition congruence.
Qed.
