(* ===== verification/Zones.v ===== *)
(** * Zones

    [Zone] and its filter ([scheduler.go]), [zone_sorter.go] and
    [zone_builder.go].  A [*Cell] is a reference into a heap of cells: the same
    cell is reached through the scheduler's zones, through the filtered zones
    and through the winner variable, and reserving work updates it in place. *)
From Stdlib Require Import ZArith Lia.
From S2P Require Import Prelude Float64 Models AuctionTypes Cell.

Abbreviation CellRef := nat.
Abbreviation Heap := (gmap nat Cell).

(** The cells a slice of pointers denotes. *)
Definition deref (h : Heap) (z : list CellRef) : list (CellRef * Cell) :=
  omap (fun r => pair r <$> h !! r) z.

(** ** Filtering a zone by a placement constraint *)

Section filter.
Context `{UrlParser}.

Definition filterCells_step (pc : PlacementConstraint)
    (st : list CellRef * option AuctionError) (rc : CellRef * Cell)
    : list CellRef * option AuctionError :=
  let '(cells, err) := st in
  let '(r, cell) := rc in
  if Cell_MatchRootFS cell (pc_RootFs pc) then
    let err := match err with
               | Some ErrorCellMismatch => Some ErrorVolumeDriverMismatch
               | _ => err end in
    if Cell_MatchVolumeDrivers cell (pc_VolumeDrivers pc) then
      let err := match err with
                 | Some ErrorVolumeDriverMismatch =>
                     Some (PlacementTagMismatchError (pc_PlacementTags pc))
                 | _ => err end in
      if Cell_MatchPlacementTags cell (pc_PlacementTags pc)
      then (cells ++ [r], None)
      else (cells, err)
    else (cells, err)
  else (cells, err).

Definition filterCells (h : Heap) (z : list CellRef) (pc : PlacementConstraint)
    : list CellRef * option AuctionError :=
  foldl (filterCells_step pc) ([], Some ErrorCellMismatch) (deref h z).

(** ** Zones by number of instances *)

Record lrpByZone := mkLrpByZone { lz_zone : list CellRef; lz_instances : Z }.

Definition lrpByZone_Less (a b : lrpByZone) : bool := (lz_instances a <? lz_instances b)%Z.

(** The inner two loops of [accumulateZonesByInstances]. *)
Definition zone_instances (h : Heap) (processGuid : string) (z : list CellRef) : Z :=
  foldl (fun n rc =>
    foldl (fun n lrp =>
             if bool_decide (key_ProcessGuid (lrp_Key lrp) = processGuid) then i64 (n + 1) else n)
          n (cs_LRPs (cell_state (rc.2 : Cell))))
    0%Z (deref h z).

Definition accumulateZonesByInstances (h : Heap) (zones : list (string * list CellRef))
    (processGuid : string) : list lrpByZone :=
  (fun kz => mkLrpByZone kz.2 (zone_instances h processGuid kz.2)) <$> zones.

Definition sortZonesByInstances `{!GoSort lrpByZone_Less} (zones : list lrpByZone)
    : list lrpByZone := go_sort lrpByZone_Less zones.

(** How a zone's error replaces the error collected so far. *)
Definition merge_zone_error (zoneError : option AuctionError) (err : AuctionError)
    : option AuctionError :=
  match zoneError with
  | Some (PlacementTagMismatchError _) => Some err
  | Some ErrorVolumeDriverMismatch =>
      if isPlacementTagMismatch err then Some err else zoneError
  | Some ErrorCellMismatch => Some err
  | None => Some err
  | _ => zoneError
  end.

Definition filterZones_step (h : Heap) (pc : PlacementConstraint)
    (st : list lrpByZone * option AuctionError) (lrpZone : lrpByZone)
    : list lrpByZone * option AuctionError :=
  let '(filteredZones, zoneError) := st in
  match filterCells h (lz_zone lrpZone) pc with
  | (_, Some err) => (filteredZones, merge_zone_error zoneError err)
  | (cells, None) => (filteredZones ++ [mkLrpByZone cells (lz_instances lrpZone)], zoneError)
  end.

(** [filterZones] returns [(nil, zoneError)] when no zone is left; the error is
    nil only when there was no zone at all. *)
Definition filterZones (h : Heap) (zones : list lrpByZone) (pc : PlacementConstraint)
    : list lrpByZone * option AuctionError :=
  let '(filteredZones, zoneError) := foldl (filterZones_step h pc) ([], None) zones in
  match filteredZones with
  | [] => ([], zoneError)
  | _ => (filteredZones, None)
  end.
End filter.

(** ** Building the zones from the cells' states *)

Record Zones := mkZones { zs_zones : gmap string (list CellRef); zs_heap : Heap }.
Definition emptyZones : Zones := mkZones ∅ ∅.

(** Whether a fetched state is kept. *)
Definition accepts (guid : string) (state : CellState) : bool :=
  negb (cs_Evacuating state) &&
  negb (negb (bool_decide (cs_CellID state = "")) && negb (bool_decide (cs_CellID state = guid))).

Definition add_cell (zs : Zones) (cell : Cell) : Zones :=
  let zone := cs_Zone (cell_state cell) in
  let r := fresh (dom (zs_heap zs)) in
  mkZones (<[zone := default [] (zs_zones zs !! zone) ++ [r]]> (zs_zones zs))
          (<[r := cell]> (zs_heap zs)).

(** The body of the goroutine of one client; the workers append under a lock,
    so any interleaving is some order of whole bodies. *)
Definition fetch_cell (i : nat) (zs : Zones) (client : string * RepClient) : Zones :=
  let '(guid, c) := client in
  match client_State c i with
  | Err _ => zs
  | Ok state =>
      if accepts guid state then add_cell zs (NewCell guid c state) else zs
  end.

Definition Zone_Less (a b : CellRef * Cell) : bool :=
  (cs_CellIndex (cell_state a.2) <? cs_CellIndex (cell_state b.2))%Z.

Definition with_Index (c : Cell) (i : Z) : Cell :=
  mkCell (cell_Guid c) (cell_client c) (cell_state c) i (cell_workToCommit c).

Definition assign_indices (h : Heap) (zone : list CellRef) : Heap :=
  foldl (fun h (p : Z * CellRef) => alter (fun c => with_Index c p.1) p.2 h) h
        (zip (Z.of_nat <$> seq 0 (length zone)) zone).

Definition normalise_zone `{!GoSort Zone_Less} (zs : Zones) (kz : string * list CellRef) : Zones :=
  let '(k, zone) := kz in
  let sorted := fst <$> go_sort Zone_Less (deref (zs_heap zs) zone) in
  mkZones (<[k := sorted]> (zs_zones zs)) (assign_indices (zs_heap zs) sorted).

Section build.
Context `{!MapRange string} `{!GoSort Zone_Less}.

Definition normaliseCellIndices (t : nat) (zs : Zones) : Zones :=
  foldl normalise_zone zs (range_over t (zs_zones zs)).

Definition MinBinPackFirstFitWeight : float64 := of_int 0.
Definition isBinPackFirstFitWeightProvided (binPackFirstFitWeight : float64) : bool :=
  flt MinBinPackFirstFitWeight binPackFirstFitWeight.

(** The [i]-th attempt. *)
Definition fetchStateAndBuildZones (clients : gmap string RepClient)
    (binPackFirstFitWeight : float64) (i : nat) : Zones :=
  let zs := foldl (fetch_cell i) emptyZones (range_over i clients) in
  if isBinPackFirstFitWeightProvided binPackFirstFitWeight
  then normaliseCellIndices i zs else zs.

(** [for i := 0; ; i++]: the loop leaves at the first non-empty answer or at
    [i = 3].  [fuel] bounds the iterations left. *)
Fixpoint fetch_loop (clients : gmap string RepClient) (binPackFirstFitWeight : float64)
    (fuel i : nat) : option Zones :=
  match fuel with
  | O => None
  | S fuel =>
      let zs := fetchStateAndBuildZones clients binPackFirstFitWeight i in
      if bool_decide (size (zs_zones zs) <> 0) then Some zs
      else if bool_decide (i = 3) then Some zs
      else fetch_loop clients binPackFirstFitWeight fuel (S i)
  end.

Definition FetchStateAndBuildZones (clients : gmap string RepClient)
    (binPackFirstFitWeight : float64) : option Zones :=
  fetch_loop clients binPackFirstFitWeight 4 0.
End build.

(** Sorting algorithms that meet the contract of [sort.Sort] for these orders. *)
Definition lrpByZone_sort : GoSort lrpByZone_Less.
Proof. apply merge_go_sort; unfold lrpByZone_Less; intros; lia. Defined.
Definition Zone_sort : GoSort Zone_Less.
Proof. apply merge_go_sort; unfold Zone_Less; intros; lia. Defined.

(** ** Filtering: which cells are kept and which error is reported *)

Section filter_lemmas.
Context `{UrlParser}.

Definition rootfs_ok (pc : PlacementConstraint) (c : Cell) : bool :=
  Cell_MatchRootFS c (pc_RootFs pc).
Definition drivers_ok (pc : PlacementConstraint) (c : Cell) : bool :=
  rootfs_ok pc c && Cell_MatchVolumeDrivers c (pc_VolumeDrivers pc).

(** The most specific reason why none of the cells is compatible. *)
Definition mismatch_error (pc : PlacementConstraint) (cells : list Cell) : option AuctionError :=
  if existsb (cell_matches pc) cells then None
  else if existsb (drivers_ok pc) cells
       then Some (PlacementTagMismatchError (pc_PlacementTags pc))
  else if existsb (rootfs_ok pc) cells then Some ErrorVolumeDriverMismatch
  else Some ErrorCellMismatch.

Lemma filterCells_fold pc (l : list (CellRef * Cell)) :
  foldl (filterCells_step pc) ([], Some ErrorCellMismatch) l =
  (fst <$> filter (fun rc => cell_matches pc rc.2 = true) l, mismatch_error pc (snd <$> l)).
Proof.
  induction l as [|[r c] l IH] using rev_ind; [done|].
  rewrite foldl_app, IH, filter_app, !fmap_app. simpl.
  unfold mismatch_error. rewrite !existsb_app. simpl. rewrite !orb_false_r.
  rewrite filter_cons, filter_nil. simpl.
  unfold cell_matches, drivers_ok, rootfs_ok.
  destruct (Cell_MatchRootFS c _), (Cell_MatchVolumeDrivers c _), (Cell_MatchPlacementTags c _);
    simpl; rewrite ?app_nil_r, ?orb_true_r, ?orb_false_r; repeat case_match; simpl in *; congruence.
Qed.

Lemma filterCells_spec h z pc :
  filterCells h z pc =
  (fst <$> filter (fun rc => cell_matches pc rc.2 = true) (deref h z),
   mismatch_error pc (snd <$> deref h z)).
Proof. apply filterCells_fold. Qed.
End filter_lemmas.

Section filterZones_lemmas.
Context `{UrlParser}.

Definition zone_has_match (h : Heap) (pc : PlacementConstraint) (lz : lrpByZone) : Prop :=
  existsb (cell_matches pc) (snd <$> deref h (lz_zone lz)) = true.
#[global] Instance zone_has_match_dec h pc lz : Decision (zone_has_match h pc lz).
Proof. unfold zone_has_match. apply _. Defined.

(** The zone cut down to its compatible cells. *)
Definition restrict_zone (h : Heap) (pc : PlacementConstraint) (lz : lrpByZone) : lrpByZone :=
  mkLrpByZone (fst <$> filter (fun rc => cell_matches pc rc.2 = true) (deref h (lz_zone lz)))
              (lz_instances lz).

Definition zone_error (h : Heap) (pc : PlacementConstraint) (lz : lrpByZone) : option AuctionError :=
  mismatch_error pc (snd <$> deref h (lz_zone lz)).

Lemma zone_error_None h pc lz : zone_error h pc lz = None <-> zone_has_match h pc lz.
Proof. unfold zone_error, mismatch_error, zone_has_match. by repeat case_match. Qed.

Lemma filterZones_fold h pc (l : list lrpByZone) :
  foldl (filterZones_step h pc) ([], None) l =
  (restrict_zone h pc <$> filter (zone_has_match h pc) l,
   foldl (fun ze e => merge_zone_error ze e) None (omap (zone_error h pc) l)).
Proof.
  induction l as [|lz l IH] using rev_ind; [done|].
  rewrite foldl_app, IH, filter_app, fmap_app, elem_of_foldl_omap_snoc, foldl_app. simpl.
  rewrite filterCells_spec. fold (zone_error h pc lz). rewrite filter_cons, filter_nil.
  destruct (zone_error h pc lz) as [e|] eqn:E; case_decide as D; simpl;
    rewrite ?app_nil_r; try done;
    rewrite <-zone_error_None in D; congruence.
Qed.

Lemma filterZones_spec h zones pc :
  filterZones h zones pc =
  match restrict_zone h pc <$> filter (zone_has_match h pc) zones with
  | [] => ([], foldl (fun ze e => merge_zone_error ze e) None (omap (zone_error h pc) zones))
  | kept => (kept, None)
  end.
Proof.
  unfold filterZones. rewrite filterZones_fold. by destruct (_ <$> filter _ _).
Qed.

Lemma merge_zone_error_in ze e :
  merge_zone_error ze e = Some e \/ (merge_zone_error ze e = ze /\ is_Some ze).
Proof. destruct ze as [[]|]; simpl; eauto. destruct e; simpl; eauto. Qed.

Lemma merge_errors_in l e0 ze :
  foldl (fun ze e => merge_zone_error ze e) ze l = Some e0 -> ze = Some e0 \/ e0 ∈ l.
Proof.
  revert ze. induction l as [|e l IH]; simpl; intros ze Hf; [by left|].
  apply IH in Hf as [Hf|Hf]; [|set_solver].
  destruct (merge_zone_error_in ze e) as [Heq|[Heq _]]; rewrite Heq in Hf; [|by left].
  simplify_eq. set_solver.
Qed.

Lemma merge_errors_Some l ze :
  is_Some ze \/ l <> [] -> is_Some (foldl (fun ze e => merge_zone_error ze e) ze l).
Proof.
  revert ze. induction l as [|e l IH]; simpl; intros ze Hs; [naive_solver|].
  apply IH. left. destruct (merge_zone_error_in ze e) as [->|[-> ?]]; done.
Qed.
End filterZones_lemmas.

(** ** The zones the builder makes *)

Definition zone_refs (zs : Zones) : list CellRef := map_concat (zs_zones zs).
Definition zone_cells (zs : Zones) : list Cell := omap (fun r => zs_heap zs !! r) (zone_refs zs).

(** Every reference in the zones is live and appears once, in the zone its
    cell names. *)
Record wf_zones (zs : Zones) : Prop := {
  wf_nodup : NoDup (zone_refs zs);
  wf_live : forall r, r ∈ zone_refs zs -> is_Some (zs_heap zs !! r);
  wf_home : forall k z r c, zs_zones zs !! k = Some z -> r ∈ z -> zs_heap zs !! r = Some c ->
    cs_Zone (cell_state c) = k }.

(** The cell a client contributes at the [i]-th attempt. *)
Definition accepted_cell (i : nat) (client : string * RepClient) : option Cell :=
  match client_State client.2 i with
  | Ok state => if accepts client.1 state then Some (NewCell client.1 client.2 state) else None
  | Err _ => None
  end.

Lemma fetch_cell_alt i zs client :
  fetch_cell i zs client =
  match accepted_cell i client with Some cell => add_cell zs cell | None => zs end.
Proof.
  destruct client as [guid c]. unfold fetch_cell, accepted_cell. simpl.
  destruct (client_State c i) as [st|]; [|done]. by destruct (accepts guid st).
Qed.

(** [add_cell] with the reference it allocates made explicit. *)
Definition add_cell_at (zs : Zones) (r : CellRef) (cell : Cell) : Zones :=
  let zone := cs_Zone (cell_state cell) in
  mkZones (<[zone := default [] (zs_zones zs !! zone) ++ [r]]> (zs_zones zs))
          (<[r := cell]> (zs_heap zs)).

Lemma zone_refs_add_at zs r c : zone_refs (add_cell_at zs r c) ≡ₚ r :: zone_refs zs.
Proof.
  unfold zone_refs, add_cell_at. simpl. rewrite map_concat_insert.
  rewrite (map_concat_lookup (zs_zones zs) (cs_Zone (cell_state c))).
  solve_Permutation.
Qed.

Lemma omap_lookup_insert_fresh (h : Heap) r c (l : list CellRef) :
  r ∉ l -> omap (fun r' => <[r:=c]> h !! r') l = omap (fun r' => h !! r') l.
Proof.
  induction l as [|x l IH]; intros Hr; csimpl; [done|].
  apply not_elem_of_cons in Hr as [Hx Hr].
  rewrite lookup_insert_ne by done. by rewrite IH.
Qed.

Section add_cell_at.
Context (zs : Zones) (r0 : CellRef) (c : Cell).
Context (Hwf : wf_zones zs) (Hr0 : r0 ∉ dom (zs_heap zs)).

Lemma fresh_not_in_zones : r0 ∉ zone_refs zs.
Proof. intros Hin%(wf_live _ Hwf)%elem_of_dom. done. Qed.

Lemma zone_cells_add_at : zone_cells (add_cell_at zs r0 c) ≡ₚ c :: zone_cells zs.
Proof.
  unfold zone_cells. rewrite (omap_Permutation _ _ _ (zone_refs_add_at zs r0 c)). csimpl.
  rewrite lookup_insert_eq. by rewrite omap_lookup_insert_fresh by apply fresh_not_in_zones.
Qed.

Lemma fresh_not_in_zone k z r : zs_zones zs !! k = Some z -> r ∈ z -> r <> r0.
Proof. intros Hz Hr ->. apply fresh_not_in_zones, elem_of_map_concat. eauto. Qed.

Lemma add_cell_at_wf : wf_zones (add_cell_at zs r0 c).
Proof.
  split.
  - rewrite zone_refs_add_at. constructor; [apply fresh_not_in_zones | apply Hwf].
  - intros r. rewrite zone_refs_add_at. simpl. intros [->|Hr]%elem_of_cons.
    + rewrite lookup_insert_eq. eauto.
    + rewrite lookup_insert_ne; [by apply Hwf|]. intros <-. by apply fresh_not_in_zones.
  - intros k z r c'. simpl. destruct (decide (k = cs_Zone (cell_state c))) as [->|Hk].
    + rewrite lookup_insert_eq. intros [= <-]. rewrite elem_of_app, list_elem_of_singleton.
      intros [Hr| ->]; [|rewrite lookup_insert_eq; by intros [= <-]].
      destruct (zs_zones zs !! cs_Zone (cell_state c)) as [z|] eqn:Ez; simpl in Hr; [|set_solver].
      pose proof (fresh_not_in_zone _ _ _ Ez Hr).
      rewrite lookup_insert_ne by done. by apply (wf_home _ Hwf _ z).
    + rewrite lookup_insert_ne by done. intros Hz Hr.
      pose proof (fresh_not_in_zone _ _ _ Hz Hr).
      rewrite lookup_insert_ne by done. by apply (wf_home _ Hwf _ z).
Qed.
End add_cell_at.

Lemma zone_cells_add zs c : wf_zones zs -> zone_cells (add_cell zs c) ≡ₚ c :: zone_cells zs.
Proof. intros Hwf. apply zone_cells_add_at; [done|]. apply is_fresh. Qed.

Lemma add_cell_wf zs c : wf_zones zs -> wf_zones (add_cell zs c).
Proof. intros Hwf. apply add_cell_at_wf; [done|]. apply is_fresh. Qed.

Lemma emptyZones_wf : wf_zones emptyZones.
Proof.
  split; unfold zone_refs; simpl; rewrite ?map_concat_empty.
  - constructor.
  - set_solver.
  - intros k z r c. by rewrite lookup_empty.
Qed.

Lemma fetch_fold_spec i clients zs :
  wf_zones zs ->
  let zs' := foldl (fetch_cell i) zs clients in
  wf_zones zs' /\ zone_cells zs' ≡ₚ omap (accepted_cell i) clients ++ zone_cells zs.
Proof.
  revert zs. induction clients as [|cl l IH]; intros zs Hwf; csimpl; [done|].
  rewrite fetch_cell_alt. destruct (accepted_cell i cl) as [c|].
  - destruct (IH (add_cell zs c)) as [Hwf' Hp]; [by apply add_cell_wf|].
    split; [done|]. rewrite Hp, zone_cells_add by done. solve_Permutation.
  - by apply IH.
Qed.

(** ** Normalised indices *)

Lemma wf_disjoint zs k k' z z' r :
  wf_zones zs -> k <> k' -> zs_zones zs !! k = Some z -> zs_zones zs !! k' = Some z' ->
  r ∈ z -> r ∉ z'.
Proof.
  intros Hwf Hk Hz Hz' Hr Hr'. pose proof (wf_nodup _ Hwf) as Hnd.
  unfold zone_refs in Hnd. rewrite (map_concat_lookup _ k), Hz in Hnd. simpl in Hnd.
  apply NoDup_app in Hnd as (_ & Hdis & _). apply (Hdis r Hr), elem_of_map_concat.
  exists k', z'. by rewrite lookup_delete_ne.
Qed.

Lemma wf_zone_nodup zs k z : wf_zones zs -> zs_zones zs !! k = Some z -> NoDup z.
Proof.
  intros Hwf Hz. pose proof (wf_nodup _ Hwf) as Hnd.
  unfold zone_refs in Hnd. rewrite (map_concat_lookup _ k), Hz in Hnd. simpl in Hnd.
  by apply NoDup_app in Hnd as (? & _).
Qed.

Lemma deref_refs h z : (forall r, r ∈ z -> is_Some (h !! r)) -> fst <$> deref h z = z.
Proof.
  unfold deref. induction z as [|r z IH]; intros Hl; csimpl; [done|].
  destruct (Hl r) as [c Hc]; [set_solver|]. rewrite Hc. csimpl. rewrite IH; [done|]. set_solver.
Qed.

Lemma elem_of_deref h z r c : (r, c) ∈ deref h z <-> r ∈ z /\ h !! r = Some c.
Proof.
  unfold deref. rewrite list_elem_of_omap. split.
  - intros (r' & Hr' & Heq). destruct (h !! r') eqn:E; simplify_eq/=. done.
  - intros [Hr Hc]. exists r. by rewrite Hc.
Qed.

Lemma assign_lookup n (h : Heap) (zone : list CellRef) :
  NoDup zone ->
  let h' := foldl (fun (h : Heap) (p : Z * CellRef) => alter (fun c => with_Index c p.1) p.2 h) h
              (zip (Z.of_nat <$> seq n (length zone)) zone) in
  (forall i r, zone !! i = Some r -> h' !! r = (fun c => with_Index c (Z.of_nat (n + i))) <$> h !! r) /\
  (forall r, r ∉ zone -> h' !! r = h !! r).
Proof.
  revert n h. induction zone as [|x zone IH]; intros n h Hnd; csimpl; [done|].
  apply NoDup_cons in Hnd as [Hx Hnd].
  destruct (IH (S n) (alter (fun c => with_Index c (Z.of_nat n)) x h) Hnd) as [IH1 IH2].
  split.
  - intros [|i] r Hr; simpl in Hr.
    + simplify_eq. rewrite IH2 by done. rewrite Nat.add_0_r. by rewrite lookup_alter_eq.
    + rewrite (IH1 i r Hr). assert (x <> r).
      { intros ->. apply Hx. eapply list_elem_of_lookup_2; eauto. }
      rewrite lookup_alter_ne by done. by rewrite Nat.add_succ_r.
  - intros r Hr. apply not_elem_of_cons in Hr as [? ?].
    rewrite IH2 by done. by rewrite lookup_alter_ne.
Qed.

Definition erase_index (c : Cell) : Cell := with_Index c 0.

(** The zone is sorted by the cells' own indices and its [i]-th cell has
    index [i]. *)
Definition zone_normal (zs : Zones) (k : string) : Prop :=
  forall z, zs_zones zs !! k = Some z ->
    StronglySorted (fun a b => Zone_Less b a = false) (deref (zs_heap zs) z) /\
    forall i r, z !! i = Some r ->
      exists c, zs_heap zs !! r = Some c /\ cell_Index c = Z.of_nat i.

Section normalise.
Context `{!GoSort Zone_Less}.
Context (zs : Zones) (k : string) (zone : list CellRef).
Context (Hwf : wf_zones zs) (Hk : zs_zones zs !! k = Some zone).

Definition sorted_zone : list CellRef := fst <$> go_sort Zone_Less (deref (zs_heap zs) zone).

Lemma zone_live r : r ∈ zone -> is_Some (zs_heap zs !! r).
Proof. intros Hr. apply (wf_live _ Hwf), elem_of_map_concat. eauto. Qed.

Lemma sorted_zone_perm : sorted_zone ≡ₚ zone.
Proof. unfold sorted_zone. rewrite go_sort_perm, deref_refs; [done|]. apply zone_live. Qed.

Lemma sorted_zone_nodup : NoDup sorted_zone.
Proof. rewrite sorted_zone_perm. by apply (wf_zone_nodup zs k). Qed.

Lemma assign_in i r :
  sorted_zone !! i = Some r ->
  assign_indices (zs_heap zs) sorted_zone !! r =
  (fun c => with_Index c (Z.of_nat i)) <$> zs_heap zs !! r.
Proof. apply (assign_lookup 0 (zs_heap zs) sorted_zone sorted_zone_nodup). Qed.

Lemma assign_out r : r ∉ zone -> assign_indices (zs_heap zs) sorted_zone !! r = zs_heap zs !! r.
Proof.
  rewrite <-sorted_zone_perm.
  apply (assign_lookup 0 (zs_heap zs) sorted_zone sorted_zone_nodup).
Qed.

Lemma assign_erase r :
  erase_index <$> assign_indices (zs_heap zs) sorted_zone !! r = erase_index <$> zs_heap zs !! r.
Proof.
  destruct (decide (r ∈ sorted_zone)) as [Hin|Hout].
  - apply list_elem_of_lookup in Hin as [i Hi]. rewrite (assign_in i r Hi).
    by destruct (zs_heap zs !! r).
  - rewrite assign_out; [done|]. by rewrite <-sorted_zone_perm.
Qed.

Lemma normalise_refs : zone_refs (normalise_zone zs (k, zone)) ≡ₚ zone_refs zs.
Proof.
  unfold zone_refs. simpl. rewrite map_concat_insert, (map_concat_lookup (zs_zones zs) k), Hk.
  simpl. fold sorted_zone. by rewrite sorted_zone_perm.
Qed.

Lemma normalise_cells :
  erase_index <$> zone_cells (normalise_zone zs (k, zone)) ≡ₚ erase_index <$> zone_cells zs.
Proof.
  unfold zone_cells. rewrite (omap_Permutation _ _ _ normalise_refs). simpl. fold sorted_zone.
  generalize (zone_refs zs). intros l. induction l as [|r l IH]; csimpl; [done|].
  pose proof (assign_erase r) as He.
  destruct (assign_indices (zs_heap zs) sorted_zone !! r), (zs_heap zs !! r); csimpl; try done.
  apply (inj Some) in He. by rewrite He, IH.
Qed.
End normalise.

Section normalise_wf.
Context `{!GoSort Zone_Less}.
Context (zs : Zones) (k : string) (zone : list CellRef).
Context (Hwf : wf_zones zs) (Hk : zs_zones zs !! k = Some zone).

Lemma normalise_heap_erase r c :
  zs_heap (normalise_zone zs (k, zone)) !! r = Some c ->
  exists c0, zs_heap zs !! r = Some c0 /\ erase_index c = erase_index c0.
Proof.
  simpl. fold (sorted_zone zs zone). intros Hc.
  pose proof (assign_erase zs k zone Hwf Hk r) as He. rewrite Hc in He. simpl in He.
  destruct (zs_heap zs !! r) as [c0|]; simplify_eq/=. exists c0. split; [done|].
  unfold erase_index, with_Index. congruence.
Qed.

Lemma erase_state c c0 : erase_index c = erase_index c0 -> cell_state c = cell_state c0.
Proof. destruct c, c0. by intros [= ????]. Qed.

Lemma normalise_wf : wf_zones (normalise_zone zs (k, zone)).
Proof.
  split.
  - rewrite (normalise_refs zs k zone Hwf Hk). apply Hwf.
  - intros r. rewrite (normalise_refs zs k zone Hwf Hk). intros Hr%(wf_live _ Hwf).
    pose proof (assign_erase zs k zone Hwf Hk r) as He. simpl. fold (sorted_zone zs zone).
    destruct Hr as [c Hc]. rewrite Hc in He. by destruct (assign_indices _ _ !! r).
  - intros k' z r c Hz Hr Hc. apply normalise_heap_erase in Hc as (c0 & Hc0 & He).
    rewrite (erase_state _ _ He). simpl in Hz. fold (sorted_zone zs zone) in Hz.
    destruct (decide (k = k')) as [<-|Hne].
    + rewrite lookup_insert_eq in Hz. simplify_eq.
      rewrite (sorted_zone_perm zs k zone Hwf Hk) in Hr. by apply (wf_home _ Hwf k zone r).
    + rewrite lookup_insert_ne in Hz by done. by apply (wf_home _ Hwf k' z r).
Qed.

(** A slice of the zones untouched by the normalisation reads the same. *)
Lemma normalise_other k' z :
  k <> k' -> zs_zones zs !! k' = Some z ->
  deref (zs_heap (normalise_zone zs (k, zone))) z = deref (zs_heap zs) z.
Proof.
  intros Hne Hz. simpl. fold (sorted_zone zs zone). unfold deref.
  apply list_omap_ext. apply Forall_Forall2_diag, Forall_forall. intros r Hr.
  rewrite (assign_out zs k zone Hwf Hk); [done|].
  apply (wf_disjoint zs k' k z zone r); auto.
Qed.

Lemma normalise_other_normal k' :
  k <> k' -> zone_normal zs k' -> zone_normal (normalise_zone zs (k, zone)) k'.
Proof.
  intros Hne Hn z Hz. simpl in Hz. rewrite lookup_insert_ne in Hz by done.
  destruct (Hn z Hz) as [Hs Hi]. rewrite (normalise_other k') by done. split; [done|].
  intros i r Hr. simpl. fold (sorted_zone zs zone). rewrite (assign_out zs k zone Hwf Hk); eauto.
  apply (wf_disjoint zs k' k z zone r); auto. by eapply list_elem_of_lookup_2.
Qed.

Lemma normalise_this_normal : zone_normal (normalise_zone zs (k, zone)) k.
Proof.
  intros z Hz. simpl in *. fold (sorted_zone zs zone) in *. rewrite lookup_insert_eq in Hz.
  simplify_eq. split.
  - pose proof (go_sort_sorted (deref (zs_heap zs) zone)) as Hs.
    set (l := go_sort Zone_Less (deref (zs_heap zs) zone)) in *.
    assert (forall r c, (r, c) ∈ l -> zs_heap zs !! r = Some c) as Hl.
    { intros r c. unfold l. rewrite go_sort_perm. by intros [_ ?]%elem_of_deref. }
    change (sorted_zone zs zone) with (fst <$> l).
    assert (forall r c, (r, c) ∈ l -> exists c', assign_indices (zs_heap zs) (fst <$> l) !! r = Some c' /\
              cell_state c' = cell_state c) as Hl'.
    { intros r c Hrc. pose proof (assign_erase zs k zone Hwf Hk r) as He.
      change (sorted_zone zs zone) with (fst <$> l) in He. rewrite (Hl r c Hrc) in He.
      destruct (assign_indices _ _ !! r) as [c'|]; simplify_eq/=.
      exists c'. split; [done|]. apply erase_state. unfold erase_index, with_Index. congruence. }
    generalize (assign_indices (zs_heap zs) (fst <$> l)) as h', Hl'. clear -Hs. intros h'.
    induction Hs as [|[r c] l Hs IH HF]; intros Hl; csimpl; [constructor|].
    destruct (Hl r c) as (c' & Hc' & Hst); [set_solver|]. unfold deref. csimpl. rewrite Hc'. csimpl.
    constructor; [apply IH; set_solver|].
    apply Forall_forall. intros [r2 c2] [Hin Hc2]%elem_of_deref.
    apply list_elem_of_fmap in Hin as ([r2' c2'] & -> & Hin). simpl in *.
    destruct (Hl r2' c2') as (c3 & Hc3 & Hst3); [set_solver|]. simplify_eq.
    rewrite Forall_forall in HF. specialize (HF _ Hin). unfold Zone_Less in *. simpl in *. congruence.
  - intros i r Hi. rewrite (assign_in zs k zone Hwf Hk i r Hi).
    destruct (zone_live zs k zone Hwf Hk r) as [c Hc].
    { rewrite <-(sorted_zone_perm zs k zone Hwf Hk). by eapply list_elem_of_lookup_2. }
    rewrite Hc. simpl. eauto.
Qed.
End normalise_wf.

Section build_lemmas.
Context `{!MapRange string} `{!GoSort Zone_Less}.

Lemma normalise_fold_spec (L : list (string * list CellRef)) zs :
  wf_zones zs -> NoDup L.*1 ->
  (forall k z, (k, z) ∈ L -> zs_zones zs !! k = Some z) ->
  let zs' := foldl normalise_zone zs L in
  wf_zones zs' /\
  erase_index <$> zone_cells zs' ≡ₚ erase_index <$> zone_cells zs /\
  (forall k, is_Some (zs_zones zs' !! k) <-> is_Some (zs_zones zs !! k)) /\
  (forall k, k ∈ L.*1 \/ zone_normal zs k -> zone_normal zs' k).
Proof.
  revert zs. induction L as [|[k zone] L IH]; intros zs Hwf Hnd HL; csimpl in *.
  { split_and!; [done..|]. intros k [Hk|?]; [set_solver|done]. }
  apply NoDup_cons in Hnd as [Hk Hnd].
  assert (zs_zones zs !! k = Some zone) as Hz by (apply HL; set_solver).
  destruct (IH (normalise_zone zs (k, zone))) as (IHwf & IHc & IHd & IHn).
  { by apply normalise_wf. }
  { done. }
  { intros k' z Hin. simpl. rewrite lookup_insert_ne; [apply HL; set_solver|].
    intros <-. apply Hk, list_elem_of_fmap. exists (k, z). done. }
  split_and!.
  - done.
  - rewrite IHc. by apply normalise_cells.
  - intros k'. rewrite IHd. simpl. rewrite lookup_insert. case_decide as Hd; [|done].
    rewrite <-Hd, Hz. done.
  - intros k' [[->|Hin]%elem_of_cons|Hn]; apply IHn.
    + right. by apply normalise_this_normal.
    + by left.
    + destruct (decide (k' ∈ L.*1)); [by left|right].
      destruct (decide (k = k')) as [<-|Hne]; [by apply normalise_this_normal|].
      by apply normalise_other_normal.
Qed.

Lemma normaliseCellIndices_spec t zs :
  wf_zones zs ->
  let zs' := normaliseCellIndices t zs in
  wf_zones zs' /\
  erase_index <$> zone_cells zs' ≡ₚ erase_index <$> zone_cells zs /\
  (forall k, is_Some (zs_zones zs' !! k) <-> is_Some (zs_zones zs !! k)) /\
  (forall k, zone_normal zs' k).
Proof.
  intros Hwf. destruct (normalise_fold_spec (range_over t (zs_zones zs)) zs) as (H1 & H2 & H3 & H4).
  - done.
  - eapply NoDup_fmap_perm; [symmetry; apply range_over_perm|]. apply NoDup_fst_map_to_list.
  - intros k z. rewrite range_over_perm. apply elem_of_map_to_list.
  - split_and!; [done..|]. intros k.
    destruct (zs_zones zs !! k) as [z|] eqn:Ek.
    + apply H4. left. apply list_elem_of_fmap. exists (k, z). split; [done|].
      rewrite range_over_perm. by apply elem_of_map_to_list.
    + intros z Hz. exfalso. assert (is_Some (zs_zones zs !! k)) as [? ?]; [|congruence].
      apply H3. unfold normaliseCellIndices in Hz. rewrite Hz. eauto.
Qed.

Lemma fetch_build_spec clients w i :
  let zs := fetchStateAndBuildZones clients w i in
  wf_zones zs /\
  erase_index <$> zone_cells zs ≡ₚ
    erase_index <$> omap (accepted_cell i) (map_to_list clients).
Proof.
  unfold fetchStateAndBuildZones.
  destruct (fetch_fold_spec i (range_over i clients) emptyZones emptyZones_wf) as [Hwf Hc].
  assert (zone_cells (foldl (fetch_cell i) emptyZones (range_over i clients)) ≡ₚ
          omap (accepted_cell i) (map_to_list clients)) as Hp.
  { rewrite Hc. unfold zone_cells, zone_refs. simpl. rewrite map_concat_empty. simpl.
    rewrite app_nil_r. apply omap_Permutation, range_over_perm. }
  destruct (isBinPackFirstFitWeightProvided w).
  - destruct (normaliseCellIndices_spec i _ Hwf) as (Hwf' & He & _).
    split; [done|]. by rewrite He, Hp.
  - split; [done|]. by rewrite Hp.
Qed.

(** whatever order the clients answer in, the zones of an attempt hold
    exactly one cell for each client that answered, is not evacuating and did
    not report another cell's id, each in the zone its state names; the cells
    differ from freshly made ones at most in their index. *)
Theorem build_zones_complete clients w i :
  let zs := fetchStateAndBuildZones clients w i in
  wf_zones zs /\
  erase_index <$> zone_cells zs ≡ₚ
    erase_index <$> omap (accepted_cell i) (map_to_list clients).
Proof. apply fetch_build_spec. Qed.

(** with a positive bin-pack weight every zone is sorted by the cells'
    indices and its cells are numbered 0, 1, 2, ... in that order. *)
Theorem build_zones_normalised clients w i k :
  isBinPackFirstFitWeightProvided w = true ->
  zone_normal (fetchStateAndBuildZones clients w i) k.
Proof.
  intros Hw. unfold fetchStateAndBuildZones. rewrite Hw.
  destruct (fetch_fold_spec i (range_over i clients) emptyZones emptyZones_wf) as [Hwf _].
  by apply normaliseCellIndices_spec.
Qed.

Lemma fetch_loop_spec clients w fuel i zs :
  fetch_loop clients w fuel i = Some zs ->
  i <= 3 ->
  exists j, i <= j <= 3 /\ zs = fetchStateAndBuildZones clients w j /\
    (forall j', i <= j' < j -> zs_zones (fetchStateAndBuildZones clients w j') = ∅) /\
    (zs_zones zs <> ∅ \/ j = 3).
Proof.
  revert i. induction fuel as [|fuel IH]; intros i; simpl; [done|].
  case_bool_decide as Hs.
  - intros [= <-] Hi. exists i. split_and!; try done; [lia|].
    left. intros He. rewrite He in Hs. by rewrite map_size_empty in Hs.
  - assert (zs_zones (fetchStateAndBuildZones clients w i) = ∅) as He
      by (apply map_size_empty_inv; destruct (size _); [done|by destruct Hs]).
    case_bool_decide as H3.
    + intros [= <-] _. subst i. exists 3. split_and!; try done; [|by right]. lia.
    + intros Hl Hi. apply IH in Hl as (j & Hj & -> & Hall & Hend); [|lia].
      exists j. split_and!; try done; [lia..|].
      intros j' Hj'. destruct (decide (j' = i)) as [->|]; [done|]. apply Hall. lia.
Qed.

Lemma FetchStateAndBuildZones_first clients w :
  exists zs j, FetchStateAndBuildZones clients w = Some zs /\
    zs = fetchStateAndBuildZones clients w j /\ j <= 3 /\
    (forall j', j' < j -> zs_zones (fetchStateAndBuildZones clients w j') = ∅) /\
    (zs_zones zs <> ∅ \/ j = 3).
Proof.
  unfold FetchStateAndBuildZones.
  destruct (fetch_loop clients w 4 0) as [zs|] eqn:E.
  - apply fetch_loop_spec in E as (j & Hj & Hz & Hall & Hend); [|lia].
    exists zs, j. split_and!; try done; [lia|]. intros j' Hj'. apply Hall. lia.
  - simpl in E. by repeat case_bool_decide.
Qed.

(** the retry loop always ends, after at most four attempts, with the
    zones of the first attempt that yields a cell, or with no zone when none of
    the four does. *)
Theorem FetchStateAndBuildZones_returns clients w :
  exists zs j, FetchStateAndBuildZones clients w = Some zs /\
    zs = fetchStateAndBuildZones clients w j /\ j <= 3 /\
    (forall j', j' < j -> zs_zones (fetchStateAndBuildZones clients w j') = ∅) /\
    (zs_zones zs <> ∅ \/ j = 3).
Proof. apply FetchStateAndBuildZones_first. Qed.
End build_lemmas.
