(* ===== verification/Scheduler.v ===== *)
(** * The scheduler

    [auction/auctionrunner/scheduler.go]: placing one LRP or task on the best
    cell, auctioning a whole request, committing the reserved work to the cells
    and collecting the results. *)
From Stdlib Require Import ZArith Lia Sorted.
From S2P Require Import Prelude Float64 Models AuctionTypes Cell Zones.

(** ** Ordering of the auctions ([sortable_auctions.go]) *)

Definition SortableLRPAuctions_Less (a b : LRPAuction) : bool :=
  let ia := key_Index (lrp_Key (la_LRP a)) in
  let ib := key_Index (lrp_Key (la_LRP b)) in
  if (ia =? ib)%Z
  then (r_MemoryMB (lrp_Res (la_LRP b)) <? r_MemoryMB (lrp_Res (la_LRP a)))%Z
  else (ia <? ib)%Z.

Definition SortableTaskAuctions_Less (a b : TaskAuction) : bool :=
  (r_MemoryMB (task_Res (ta_Task b)) <? r_MemoryMB (task_Res (ta_Task a)))%Z.

Definition splitLRPS (lrps : list LRPAuction) : list LRPAuction * list LRPAuction :=
  (fix loop (idx : nat) (l : list LRPAuction) : list LRPAuction * list LRPAuction :=
     match l with
     | [] => (take 0 lrps, drop 0 lrps)
     | lrp :: l' =>
         if (0 <? key_Index (lrp_Key (la_LRP lrp)))%Z
         then (take idx lrps, drop idx lrps)
         else loop (S idx) l'
     end) 0 lrps.

Definition LRPAuctions_sort : GoSort SortableLRPAuctions_Less.
Proof.
  apply merge_go_sort; unfold SortableLRPAuctions_Less.
  - intros a b c. repeat case_match; lia.
  - intros a b. repeat case_match; lia.
Defined.
Definition TaskAuctions_sort : GoSort SortableTaskAuctions_Less.
Proof. apply merge_go_sort; unfold SortableTaskAuctions_Less; intros; lia. Defined.

(** ** Placing one job *)

(** [problems] keeps only what also went wrong on this cell. *)
Definition removeNonApplicableProblems (problems : gset string)
    (ierr : InsufficientResourcesError) : gset string :=
  filter (fun problem => problem ∈ Problems ierr) problems.

Definition all_problems : gset string := {["disk"; "memory"; "containers"]}.

Record Scan := mkScan {
  scan_winner : option CellRef;
  scan_score : float64;
  scan_problems : gset string }.

Definition initial_scan : Scan := mkScan None f1e20 all_problems.

(** One iteration of the loop over the cells of a zone. *)
Definition scan_cell (score : Cell -> result InsufficientResourcesError float64)
    (st : Scan) (rc : CellRef * Cell) : Scan :=
  match score rc.2 with
  | Err err =>
      mkScan (scan_winner st) (scan_score st)
             (removeNonApplicableProblems (scan_problems st) err)
  | Ok s =>
      if flt s (scan_score st) then mkScan (Some rc.1) s (scan_problems st) else st
  end.

(** The loop over the sorted zones: a zone with as many instances as the next
    one is a tie, and the search goes on; otherwise the first zone with a winner
    ends it. *)
Fixpoint scan_zones (h : Heap) (score : Cell -> result InsufficientResourcesError float64)
    (zones : list lrpByZone) (st : Scan) : Scan :=
  match zones with
  | [] => st
  | lz :: rest =>
      let st := foldl (scan_cell score) st (deref h (lz_zone lz)) in
      let tie := match rest with
                 | next :: _ => (lz_instances lz =? lz_instances next)%Z
                 | [] => false
                 end in
      if tie then scan_zones h score rest st
      else match scan_winner st with
           | Some _ => st
           | None => scan_zones h score rest st
           end
  end.

Record Config := mkConfig {
  binPackFirstFitWeight : float64;
  startingContainerWeight : float64;
  startingContainerCountMaximum : Z   (* <= 0 means no limit *) }.

Definition exceededInflightContainerCreation (cfg : Config) (currentInflight : Z) : bool :=
  (0 <? startingContainerCountMaximum cfg)%Z &&
  (startingContainerCountMaximum cfg <=? currentInflight)%Z.

Section schedule.
Context `{UrlParser} `{!MapRange string} `{!GoSort lrpByZone_Less}.
Context (cfg : Config).

Definition scheduleLRPAuction (t : nat) (zs : Zones) (lrpAuction : LRPAuction)
    : result AuctionError (LRPAuction * Zones) :=
  let lrp := la_LRP lrpAuction in
  let zones := accumulateZonesByInstances (zs_heap zs) (range_over t (zs_zones zs))
                 (key_ProcessGuid (lrp_Key lrp)) in
  match filterZones (zs_heap zs) zones (lrp_PC lrp) with
  | (_, Some err) => Err err
  | (filteredZones, None) =>
      let sortedZones := sortZonesByInstances filteredZones in
      let st := scan_zones (zs_heap zs)
                  (fun cell => Cell_ScoreForLRP cell lrp (startingContainerWeight cfg)
                                 (binPackFirstFitWeight cfg))
                  sortedZones initial_scan in
      match scan_winner st with
      | None => Err (ErrorInsufficientResources (mkInsufficient (scan_problems st)))
      | Some r =>
          match zs_heap zs !! r with
          | None => Err (ErrorInsufficientResources (mkInsufficient (scan_problems st)))
          | Some winnerCell =>
              match Cell_ReserveLRP winnerCell lrp with
              | Err e => Err (ErrorInsufficientResources e)
              | Ok winnerCell' =>
                  let winningAuction := LRPAuction_Copy lrpAuction in
                  Ok (mkLRPAuction (la_LRP winningAuction)
                        (with_Winner (la_Rec winningAuction) (cell_Guid winnerCell)),
                      mkZones (zs_zones zs) (<[r := winnerCell']> (zs_heap zs)))
              end
          end
      end
  end.

(** The first loop of [scheduleTaskAuction]: the compatible cells zone by zone. *)
Definition filterTaskZones_step (h : Heap) (pc : PlacementConstraint)
    (st : list (list CellRef) * option AuctionError) (kz : string * list CellRef)
    : list (list CellRef) * option AuctionError :=
  let '(filteredZones, zoneError) := st in
  match filterCells h kz.2 pc with
  | (_, Some err) => (filteredZones, merge_zone_error zoneError err)
  | (cells, None) => (filteredZones ++ [cells], zoneError)
  end.

Definition scheduleTaskAuction (t : nat) (zs : Zones) (taskAuction : TaskAuction)
    : result (option AuctionError) (TaskAuction * Zones) :=
  let task := ta_Task taskAuction in
  let '(filteredZones, zoneError) :=
    foldl (filterTaskZones_step (zs_heap zs) (task_PC task)) ([], None)
          (range_over t (zs_zones zs)) in
  match filteredZones with
  | [] => Err zoneError
  | _ =>
      let st := foldl (fun st zone =>
                  foldl (scan_cell (fun cell => Cell_ScoreForTask cell task
                                                  (startingContainerWeight cfg)))
                        st (deref (zs_heap zs) zone))
                initial_scan filteredZones in
      match scan_winner st with
      | None => Err (Some (ErrorInsufficientResources (mkInsufficient (scan_problems st))))
      | Some r =>
          match zs_heap zs !! r with
          | None => Err (Some (ErrorInsufficientResources (mkInsufficient (scan_problems st))))
          | Some winnerCell =>
              match Cell_ReserveTask winnerCell task with
              | Err e => Err (Some (ErrorInsufficientResources e))
              | Ok winnerCell' =>
                  let winningAuction := TaskAuction_Copy taskAuction in
                  Ok (mkTaskAuction (ta_Task winningAuction)
                        (with_Winner (ta_Rec winningAuction) (cell_Guid winnerCell)),
                      mkZones (zs_zones zs) (<[r := winnerCell']> (zs_heap zs)))
              end
          end
      end
  end.
End schedule.

(** ** Auctioning a request *)

(** The local variables of [Schedule].  The lookups map an identifier to the
    auction its pointer leads to. *)
Record SchedState := mkSchedState {
  ss_zs : Zones;
  ss_successfulLRPs : gmap string LRPAuction;
  ss_lrpLookup : gmap string LRPAuction;
  ss_successfulTasks : gmap string TaskAuction;
  ss_taskLookup : gmap string TaskAuction;
  ss_failedLRPs : list LRPAuction;
  ss_failedTasks : list TaskAuction;
  ss_inflight : Z;
  ss_tick : nat   (* counts the range statements executed *) }.

Section auction.
Context `{UrlParser} `{!MapRange string} `{!GoSort lrpByZone_Less}.
Context `{!GoSort SortableLRPAuctions_Less} `{!GoSort SortableTaskAuctions_Less} `{!WorkOrder}.
Context (cfg : Config).

Definition lrp_failed (st : SchedState) (a : LRPAuction) : SchedState :=
  mkSchedState (ss_zs st) (ss_successfulLRPs st) (<[la_id a := a]> (ss_lrpLookup st))
    (ss_successfulTasks st) (ss_taskLookup st) (ss_failedLRPs st ++ [a]) (ss_failedTasks st)
    (ss_inflight st) (S (ss_tick st)).

(** One iteration of the closure [auctionLRP]. *)
Definition auctionLRP_step (st : SchedState) (lrpAuction : LRPAuction) : SchedState :=
  if exceededInflightContainerCreation cfg (ss_inflight st)
  then lrp_failed st (la_fail lrpAuction ErrorExceededInflightCreation)
  else match scheduleLRPAuction cfg (ss_tick st) (ss_zs st) lrpAuction with
       | Err err => lrp_failed st (la_fail lrpAuction err)
       | Ok (successfulStart, zs') =>
           mkSchedState zs' (<[la_id successfulStart := successfulStart]> (ss_successfulLRPs st))
             (<[la_id lrpAuction := lrpAuction]> (ss_lrpLookup st))
             (ss_successfulTasks st) (ss_taskLookup st) (ss_failedLRPs st) (ss_failedTasks st)
             (i64 (ss_inflight st + 1)) (S (ss_tick st))
       end.

Definition auctionLRP (st : SchedState) (lrpsToAuction : list LRPAuction) : SchedState :=
  foldl auctionLRP_step st lrpsToAuction.

Definition task_failed (st : SchedState) (a : TaskAuction) : SchedState :=
  mkSchedState (ss_zs st) (ss_successfulLRPs st) (ss_lrpLookup st)
    (ss_successfulTasks st) (<[ta_id a := a]> (ss_taskLookup st)) (ss_failedLRPs st)
    (ss_failedTasks st ++ [a]) (ss_inflight st) (S (ss_tick st)).

(** One iteration of the loop over the tasks; [None] is the panic of
    dereferencing the nil task that comes back with a nil error. *)
Definition auctionTask_step (st : SchedState) (taskAuction : TaskAuction) : option SchedState :=
  if exceededInflightContainerCreation cfg (ss_inflight st)
  then Some (task_failed st (ta_fail taskAuction ErrorExceededInflightCreation))
  else match scheduleTaskAuction cfg (ss_tick st) (ss_zs st) taskAuction with
       | Err (Some err) => Some (task_failed st (ta_fail taskAuction err))
       | Err None => None
       | Ok (successfulTask, zs') => Some (
           mkSchedState zs' (ss_successfulLRPs st) (ss_lrpLookup st)
             (<[ta_id successfulTask := successfulTask]> (ss_successfulTasks st))
             (<[ta_id taskAuction := taskAuction]> (ss_taskLookup st))
             (ss_failedLRPs st) (ss_failedTasks st)
             (i64 (ss_inflight st + 1)) (S (ss_tick st)))
       end.

Definition auctionTasks (st : SchedState) (tasks : list TaskAuction) : option SchedState :=
  foldl (fun ost a => st ← ost; auctionTask_step st a) (Some st) tasks.

(** [commitCells]: every cell commits in a worker of its own. *)
Definition commitCells (t : nat) (zs : Zones) : list Work :=
  finish_order t
    (z ← snd <$> range_over t (zs_zones zs); (fun rc => Cell_Commit rc.2) <$> deref (zs_heap zs) z).

(** Collecting the failed work; a lookup that misses dereferences nil. *)
Definition collect_failed_lrp (st : SchedState) (failedStart : SchedulingLRP) : option SchedState :=
  let identifier := SchedulingLRP_Identifier failedStart in
  a ← ss_lrpLookup st !! identifier;
  Some (mkSchedState (ss_zs st) (delete identifier (ss_successfulLRPs st)) (ss_lrpLookup st)
          (ss_successfulTasks st) (ss_taskLookup st) (ss_failedLRPs st ++ [a]) (ss_failedTasks st)
          (ss_inflight st) (ss_tick st)).

Definition collect_failed_task (st : SchedState) (failedTask : SchedulingTask) : option SchedState :=
  let identifier := SchedulingTask_Identifier failedTask in
  a ← ss_taskLookup st !! identifier;
  Some (mkSchedState (ss_zs st) (ss_successfulLRPs st) (ss_lrpLookup st)
          (delete identifier (ss_successfulTasks st)) (ss_taskLookup st) (ss_failedLRPs st)
          (ss_failedTasks st ++ [a]) (ss_inflight st) (ss_tick st)).

Definition collect_failed_work (st : SchedState) (failedWork : Work) : option SchedState :=
  st ← foldl (fun ost l => st ← ost; collect_failed_lrp st l) (Some st) (work_LRPs failedWork);
  foldl (fun ost t => st ← ost; collect_failed_task st t) (Some st) (work_Tasks failedWork).

Definition mark_failed_lrp (a : LRPAuction) : LRPAuction :=
  mkLRPAuction (la_LRP a) (incr_Attempts (la_Rec a)).
Definition mark_failed_task (a : TaskAuction) : TaskAuction :=
  mkTaskAuction (ta_Task a) (incr_Attempts (ta_Rec a)).
Definition mark_successful_lrp (now : Z) (a : LRPAuction) : LRPAuction :=
  mkLRPAuction (la_LRP a)
    (with_WaitDuration (incr_Attempts (la_Rec a)) (sat64 (now - rec_QueueTime (la_Rec a)))).
Definition mark_successful_task (now : Z) (a : TaskAuction) : TaskAuction :=
  mkTaskAuction (ta_Task a)
    (with_WaitDuration (incr_Attempts (ta_Rec a)) (sat64 (now - rec_QueueTime (ta_Rec a)))).

Definition markResults (now : Z) (results : AuctionResults) : AuctionResults :=
  {| res_SuccessfulLRPs := mark_successful_lrp now <$> res_SuccessfulLRPs results;
     res_SuccessfulTasks := mark_successful_task now <$> res_SuccessfulTasks results;
     res_FailedLRPs := mark_failed_lrp <$> res_FailedLRPs results;
     res_FailedTasks := mark_failed_task <$> res_FailedTasks results |}.

(** The containers already starting on the cells. *)
Definition initial_inflight (t : nat) (zs : Zones) : Z :=
  foldl (fun n kz =>
    foldl (fun n (rc : CellRef * Cell) => i64 (n + Cell_StartingContainerCount rc.2)) n
          (deref (zs_heap zs) kz.2))
    0%Z (range_over t (zs_zones zs)).

Definition initial_state (zs : Zones) : SchedState :=
  mkSchedState zs ∅ ∅ ∅ ∅ [] [] (initial_inflight 0 zs) 1.

(** Every auction is held; nothing has been committed yet. *)
Definition hold_auctions (zs : Zones) (auctionRequest : AuctionRequest) : option SchedState :=
  let lrps := go_sort SortableLRPAuctions_Less (req_LRPs auctionRequest) in
  let tasks := go_sort SortableTaskAuctions_Less (req_Tasks auctionRequest) in
  let '(lrpsBeforeTasks, lrpsAfterTasks) := splitLRPS lrps in
  let st := auctionLRP (initial_state zs) lrpsBeforeTasks in
  st ← auctionTasks st tasks;
  Some (auctionLRP st lrpsAfterTasks).

Definition Schedule (now : Z) (zs : Zones) (auctionRequest : AuctionRequest)
    : option AuctionResults :=
  if bool_decide (size (zs_zones zs) = 0)
  then Some (markResults now
         {| res_SuccessfulLRPs := []; res_SuccessfulTasks := [];
            res_FailedLRPs :=
              (fun a => la_fail a ErrorCellCommunication) <$> req_LRPs auctionRequest;
            res_FailedTasks :=
              (fun a => ta_fail a ErrorCellCommunication) <$> req_Tasks auctionRequest |})
  else
    st ← hold_auctions zs auctionRequest;
    st ← foldl (fun ost w => st ← ost; collect_failed_work st w) (Some st)
               (commitCells (ss_tick st) (ss_zs st));
    Some (markResults now
      {| res_SuccessfulLRPs := snd <$> range_over (S (ss_tick st)) (ss_successfulLRPs st);
         res_SuccessfulTasks := snd <$> range_over (S (S (ss_tick st))) (ss_successfulTasks st);
         res_FailedLRPs := ss_failedLRPs st;
         res_FailedTasks := ss_failedTasks st |}).
End auction.
