(* ===== verification/Placement.v ===== *)
(** * Where one job is placed

    What [scheduleLRPAuction] and [scheduleTaskAuction] decide: the winner is a
    compatible cell with room for the job, in a zone with the fewest instances
    among the zones that have such a cell, and no cell of such a zone scores
    better; and what the error says when there is no winner. *)
From Stdlib Require Import ZArith Lia Sorted.
From S2P Require Import Prelude Float64 Models AuctionTypes Cell Zones Scheduler.

(** ** Scanning cells *)

Section scan.
Context (score : Cell -> result InsufficientResourcesError float64).
Implicit Types L : list (CellRef * Cell).

Abbreviation scan := (foldl (scan_cell score)).

(** A cell that can win an auction: it has room and its score is below the
    initial bar of [1e20]. *)
Definition winnable (c : Cell) : Prop := exists s, score c = Ok s /\ flt s f1e20 = true.

Lemma elem_of_removeNonApplicable ps e p :
  p ∈ removeNonApplicableProblems ps e <-> p ∈ ps /\ p ∈ Problems e.
Proof. unfold removeNonApplicableProblems. rewrite elem_of_filter. tauto. Qed.

Lemma scan_problems_spec L st p :
  p ∈ scan_problems (scan st L) <->
  p ∈ scan_problems st /\ forall r c e, (r, c) ∈ L -> score c = Err e -> p ∈ Problems e.
Proof.
  induction L as [|[r c] L IH] using rev_ind; simpl.
  { split; [|tauto]. intros ?. split; [done|]. intros r c e Hin. by apply elem_of_nil in Hin. }
  rewrite foldl_app. simpl. unfold scan_cell at 1. simpl.
  assert ((forall r0 c0 e, (r0, c0) ∈ L ++ [(r, c)] -> score c0 = Err e -> p ∈ Problems e) <->
          (forall r0 c0 e, (r0, c0) ∈ L -> score c0 = Err e -> p ∈ Problems e) /\
          (forall e, score c = Err e -> p ∈ Problems e)) as ->.
  { setoid_rewrite elem_of_app. setoid_rewrite list_elem_of_singleton. naive_solver. }
  destruct (score c) as [s|e] eqn:E.
  - transitivity (p ∈ scan_problems (scan st L)); [by case_match|]. rewrite IH.
    intuition congruence.
  - simpl. rewrite elem_of_removeNonApplicable, IH. intuition (simplify_eq; eauto).
Qed.

(** No scanned cell beats the score reached, which never gets worse. *)
Lemma scan_best L st r c s :
  (r, c) ∈ L -> score c = Ok s -> flt s (scan_score (scan st L)) = false.
Proof.
  revert r c s. induction L as [|[r0 c0] L IH] using rev_ind; intros r c s Hin Hs.
  { by apply elem_of_nil in Hin. }
  rewrite foldl_app. simpl. unfold scan_cell at 1. simpl.
  apply elem_of_app in Hin as [Hin|Hin%list_elem_of_singleton].
  - specialize (IH r c s Hin Hs). destruct (score c0) as [s0|]; [|done].
    destruct (flt s0 _) eqn:E; [|done]. simpl.
    destruct (flt s s0) eqn:E2; [|done]. by rewrite (flt_trans _ _ _ E2 E) in IH.
  - simplify_eq. rewrite Hs.
    destruct (flt s (scan_score (scan st L))) eqn:E; simpl; [apply flt_irrefl|done].
Qed.

Lemma scan_from L st :
  (scan_winner (scan st L) = scan_winner st /\ scan_score (scan st L) = scan_score st) \/
  exists r c s, (r, c) ∈ L /\ score c = Ok s /\ flt s (scan_score st) = true /\
    scan_winner (scan st L) = Some r /\ scan_score (scan st L) = s.
Proof.
  induction L as [|[r0 c0] L IH] using rev_ind; [by left|].
  rewrite foldl_app. simpl. unfold scan_cell at 1 3 5 7. simpl.
  destruct (score c0) as [s0|e0] eqn:E0; simpl.
  - destruct (flt s0 (scan_score (scan st L))) eqn:E; simpl.
    + right. exists r0, c0, s0. split_and!; try done; [set_solver|].
      destruct IH as [[_ <-]|(r & c & s & _ & _ & Hlt & _ & Hs)]; [done|].
      subst s. by eapply flt_trans.
    + destruct IH as [?|(r & c & s & ? & ?)]; [by left|right]. exists r, c, s. set_solver.
  - destruct IH as [?|(r & c & s & ? & ?)]; [by left|right]. exists r, c, s. set_solver.
Qed.

Lemma scan_score_bound L st :
  scan_winner st = None -> scan_score st = f1e20 ->
  scan_winner (scan st L) = None -> forall r c, (r, c) ∈ L -> ~ winnable c.
Proof.
  intros Hn Hs Hw r c Hin (s & Hsc & Hlt).
  pose proof (scan_best L st r c s Hin Hsc) as Hb.
  destruct (scan_from L st) as [[_ Heq]|(?&?&?&?&?&?&?&?)]; [|congruence].
  rewrite Heq, Hs in Hb. congruence.
Qed.
End scan.

(** ** Scanning sorted zones *)

Definition cells_of (h : Heap) (zones : list lrpByZone) : list (CellRef * Cell) :=
  lz ← zones; deref h (lz_zone lz).

Lemma cells_of_cons h lz zones : cells_of h (lz :: zones) = deref h (lz_zone lz) ++ cells_of h zones.
Proof. done. Qed.

Lemma cells_of_app h zones zones' : cells_of h (zones ++ zones') = cells_of h zones ++ cells_of h zones'.
Proof. apply bind_app. Qed.

Lemma elem_of_cells_of h zones rc :
  rc ∈ cells_of h zones <-> exists lz, lz ∈ zones /\ rc ∈ deref h (lz_zone lz).
Proof. unfold cells_of. rewrite list_elem_of_bind. naive_solver. Qed.

Section scan_zones.
Context (h : Heap) (score : Cell -> result InsufficientResourcesError float64).

Abbreviation scan := (foldl (scan_cell score)).

(** The search reads a prefix of the zones.  It stops before the end only with a
    winner and where the number of instances changes, and at every earlier such
    place it had no winner yet. *)
Record stops_at (st : Scan) (pre post : list lrpByZone) : Prop := {
  stop_end : forall b post', post = b :: post' ->
    exists A a, pre = A ++ [a] /\ lz_instances a <> lz_instances b /\
      scan_winner (scan st (cells_of h pre)) <> None;
  stop_inside : forall A a b B, pre = A ++ a :: b :: B -> lz_instances a <> lz_instances b ->
    scan_winner (scan st (cells_of h (A ++ [a]))) = None }.

Lemma stops_at_cons st lz pre post :
  pre <> [] ->
  (forall b pre', pre = b :: pre' -> lz_instances lz <> lz_instances b ->
     scan_winner (scan st (deref h (lz_zone lz))) = None) ->
  stops_at (scan st (deref h (lz_zone lz))) pre post -> stops_at st (lz :: pre) post.
Proof.
  intros Hne Hb [Hend Hin]. split.
  - intros b post' ->. destruct (Hend b post') as (A & a & -> & Hi & Hw); [done|].
    exists (lz :: A), a. split_and!; try done. by rewrite cells_of_cons, foldl_app.
  - intros [|a0 A] a b B Heq Hi; injection Heq as -> ->.
    + change ([] ++ [a]) with [a]. rewrite cells_of_cons. simpl. rewrite app_nil_r. by eapply Hb.
    + change ((a0 :: A) ++ [a]) with (a0 :: (A ++ [a])). rewrite cells_of_cons, foldl_app.
      by eapply Hin.
Qed.

Lemma stops_at_last st lz post :
  (forall b post', post = b :: post' ->
     lz_instances lz <> lz_instances b /\ scan_winner (scan st (deref h (lz_zone lz))) <> None) ->
  stops_at st [lz] post.
Proof.
  intros Hp. split.
  - intros b post' ->. destruct (Hp b post') as [Hi Hw]; [done|].
    exists [], lz. rewrite cells_of_cons. simpl. rewrite app_nil_r. done.
  - intros A a b B Heq%(f_equal length). rewrite length_app in Heq. simpl in Heq. lia.
Qed.

Lemma scan_zones_prefix zones st :
  zones <> [] ->
  exists pre post, zones = pre ++ post /\ pre <> [] /\
    scan_zones h score zones st = scan st (cells_of h pre) /\ stops_at st pre post.
Proof.
  revert st. induction zones as [|lz rest IH]; intros st Hne; [done|]. simpl.
  set (st1 := scan st (deref h (lz_zone lz))).
  destruct rest as [|nx rest].
  - exists [lz], []. rewrite cells_of_cons. simpl. rewrite app_nil_r.
    split_and!; try done; [by case_match|]. by apply stops_at_last.
  - destruct (IH st1) as (pre & post & Heq & Hpre & Hres & Hst); [done|].
    assert (stops_at st (lz :: pre) post -> exists pre' post',
      lz :: nx :: rest = pre' ++ post' /\ pre' <> [] /\
      scan_zones h score (nx :: rest) st1 = scan st (cells_of h pre') /\ stops_at st pre' post') as Hgo.
    { intros Hs. exists (lz :: pre), post. rewrite Heq, <-Heq. rewrite cells_of_cons, foldl_app.
      split_and!; try done. by rewrite Heq. }
    destruct (Z.eqb_spec (lz_instances lz) (lz_instances nx)) as [Hi|Hi].
    + apply Hgo, stops_at_cons; try done.
      intros b pre' -> Hb. by simplify_list_eq.
    + destruct (scan_winner st1) eqn:Ew.
      * exists [lz], (nx :: rest). rewrite cells_of_cons. simpl. rewrite app_nil_r.
        split_and!; try done. apply stops_at_last. intros b post' [= <- <-].
        split; [done|]. fold st1. by rewrite Ew.
      * by apply Hgo, stops_at_cons.
Qed.
End scan_zones.

(** Zones in the order [sort.Sort] leaves them. *)
Abbreviation zones_sorted :=
  (StronglySorted (fun a b : lrpByZone => lrpByZone_Less b a = false)).

Lemma zones_sorted_app l k a b :
  zones_sorted (l ++ k) -> a ∈ l -> b ∈ k -> (lz_instances a <= lz_instances b)%Z.
Proof.
  intros Hs Ha Hb. pose proof (StronglySorted_app_1_elem_of _ _ _ _ _ Hs Ha Hb) as H.
  unfold lrpByZone_Less in H. by apply Z.ltb_ge in H.
Qed.

(** A sorted list splits at any number of instances. *)
Lemma zones_sorted_split l n :
  zones_sorted l ->
  exists A B, l = A ++ B /\ (forall x, x ∈ A -> lz_instances x < n)%Z /\
    (forall x, x ∈ B -> n <= lz_instances x)%Z.
Proof.
  induction l as [|x l IH]; intros Hs; [exists [], []; set_solver|].
  destruct (Z.lt_ge_cases (lz_instances x) n) as [Hx|Hx].
  - destruct IH as (A & B & -> & HA & HB); [by apply StronglySorted_inv in Hs as [? _]|].
    exists (x :: A), B. split_and!; [done| |done]. intros y [->|]%elem_of_cons; auto.
  - exists [], (x :: l). split_and!; [done|set_solver|].
    intros y [->|Hy]%elem_of_cons; [done|].
    pose proof (zones_sorted_app [x] l x y Hs ltac:(set_solver) Hy). lia.
Qed.

Section scan_sorted.
Context (h : Heap) (score : Cell -> result InsufficientResourcesError float64).
Context (zones : list lrpByZone) (Hsorted : zones_sorted zones).

(** The cell is in the zone. *)
Abbreviation in_zone r c lz := ((r, c) ∈ deref h (lz_zone lz)).

Lemma scan_zones_no_winner :
  scan_winner (scan_zones h score zones initial_scan) = None ->
  (forall lz r c, lz ∈ zones -> in_zone r c lz -> ~ winnable score c) /\
  (forall p, p ∈ scan_problems (scan_zones h score zones initial_scan) <->
     p ∈ all_problems /\
     forall lz r c e, lz ∈ zones -> in_zone r c lz -> score c = Err e -> p ∈ Problems e).
Proof.
  intros Hw. destruct (decide (zones = [])) as [->|Hne].
  { simpl. split; [set_solver|]. intros p. split; [|tauto]. intros ?. split; [done|].
    intros lz r c e Hlz. by apply elem_of_nil in Hlz. }
  destruct (scan_zones_prefix h score zones initial_scan Hne) as (pre & post & Heq & _ & Hres & Hst).
  destruct post as [|b post].
  - rewrite app_nil_r in Heq. subst pre. rewrite Hres in *. split.
    + intros lz r c Hlz Hin. eapply (scan_score_bound score); [| |exact Hw|]; try done.
      apply elem_of_cells_of. eauto.
    + intros p. rewrite scan_problems_spec. setoid_rewrite elem_of_cells_of. naive_solver.
  - destruct (stop_end _ _ _ _ _ Hst b post) as (? & ? & _ & _ & Hsome); [done|].
    by rewrite Hres in Hw.
Qed.

(** Zones with fewer instances than a zone read were read before it, without
    finding a winner. *)
Lemma scan_fewer_instances pre post lz lz' r' c' :
  zones = pre ++ post -> stops_at h score initial_scan pre post ->
  lz ∈ pre -> lz' ∈ zones -> in_zone r' c' lz' -> winnable score c' ->
  (lz_instances lz <= lz_instances lz')%Z.
Proof.
  intros Heq Hst Hlz Hlz' Hin' Hwin. rewrite Heq in Hsorted, Hlz'.
  destruct (Z.le_gt_cases (lz_instances lz) (lz_instances lz')) as [|Hlt']; [done|exfalso].
  rewrite elem_of_app in Hlz'.
  destruct Hlz' as [Hlz'|Hlz']; [|by pose proof (zones_sorted_app _ _ _ _ Hsorted Hlz Hlz'); lia].
  destruct (zones_sorted_split pre (lz_instances lz)) as (A & B & Hsplit & HA & HB).
  { by eapply StronglySorted_app_1_l. }
  assert (lz' ∈ A) as HlzA.
  { rewrite Hsplit, elem_of_app in Hlz'. destruct Hlz' as [|Hx%HB]; [done|lia]. }
  assert (lz ∈ B) as HlzB.
  { rewrite Hsplit, elem_of_app in Hlz. destruct Hlz as [Hx%HA|]; [lia|done]. }
  destruct A as [|a A _] using rev_ind; [set_solver|]. destruct B as [|b B]; [set_solver|].
  assert (scan_winner (foldl (scan_cell score) initial_scan (cells_of h (A ++ [a]))) = None) as Hn.
  { apply (stop_inside _ _ _ _ _ Hst A a b B); [by rewrite Hsplit, <-app_assoc|].
    specialize (HA a ltac:(set_solver)). specialize (HB b ltac:(set_solver)). lia. }
  eapply (scan_score_bound score); [| |exact Hn| |exact Hwin]; try done.
  apply elem_of_cells_of. eauto.
Qed.

(** Zones with as many instances as a zone read were all read. *)
Lemma scan_same_instances pre post lz lz' :
  zones = pre ++ post -> stops_at h score initial_scan pre post ->
  lz ∈ pre -> lz' ∈ zones -> lz_instances lz' = lz_instances lz -> lz' ∈ pre.
Proof.
  intros Heq Hst Hlz Hlz' Hi. rewrite Heq in Hsorted, Hlz'.
  rewrite elem_of_app in Hlz'. destruct Hlz' as [|Hlz']; [done|exfalso].
  destruct post as [|b post]; [set_solver|].
  destruct (stop_end _ _ _ _ _ Hst b post) as (A & a & -> & Hab & _); [done|].
  pose proof (zones_sorted_app _ _ a b Hsorted ltac:(set_solver) ltac:(set_solver)).
  assert (lz_instances b <= lz_instances lz')%Z.
  { change (b :: post) with ([b] ++ post) in Hsorted. rewrite app_assoc in Hsorted.
    apply elem_of_cons in Hlz' as [->|Hlz']; [done|].
    apply (zones_sorted_app _ _ _ _ Hsorted); set_solver. }
  assert (lz_instances lz <= lz_instances a)%Z; [|lia].
  apply elem_of_app in Hlz as [Hlz|Hlz%list_elem_of_singleton]; [|by subst].
  rewrite <-app_assoc in Hsorted. apply (zones_sorted_app _ _ _ _ Hsorted); set_solver.
Qed.

Lemma scan_zones_winner r :
  scan_winner (scan_zones h score zones initial_scan) = Some r ->
  exists lz c s, lz ∈ zones /\ in_zone r c lz /\ score c = Ok s /\ flt s f1e20 = true /\
    (forall lz' r' c', lz' ∈ zones -> in_zone r' c' lz' -> winnable score c' ->
       (lz_instances lz <= lz_instances lz')%Z) /\
    (forall lz' r' c' s', lz' ∈ zones -> lz_instances lz' = lz_instances lz ->
       in_zone r' c' lz' -> score c' = Ok s' -> flt s' s = false).
Proof.
  intros Hw. assert (zones <> []) as Hne by (intros Hz; rewrite Hz in Hw; done).
  destruct (scan_zones_prefix h score zones initial_scan Hne) as (pre & post & Heq & _ & Hres & Hst).
  rewrite Hres in Hw.
  destruct (scan_from score (cells_of h pre) initial_scan)
    as [[Hw' _]|(r' & c & s & Hin & Hsc & Hlt & Hw' & Hs)]; [by rewrite Hw' in Hw|].
  rewrite Hw' in Hw. simplify_eq Hw. intros ->.
  apply elem_of_cells_of in Hin as (lz & Hlz & Hin). exists lz, c, s.
  split_and!; try done; [set_solver| |].
  - intros. by eapply scan_fewer_instances.
  - intros lz' r' c' s' Hlz' Hi Hin' Hsc'. rewrite <-Hs. apply (scan_best _ _ _ r' c' s'); [|done].
    apply elem_of_cells_of. exists lz'. split; [|done]. by eapply scan_same_instances.
Qed.
End scan_sorted.

(** ** Placing an LRP *)

(** The cell [c], reached through [r], belongs to the zone [z] named [k]. *)
Definition in_zones (zs : Zones) (k : string) (z : list CellRef) (r : CellRef) (c : Cell) : Prop :=
  zs_zones zs !! k = Some z /\ r ∈ z /\ zs_heap zs !! r = Some c.

Section place_lrp.
Context `{UrlParser} `{!MapRange string} `{!GoSort lrpByZone_Less}.
Context (cfg : Config) (t : nat) (zs : Zones) (a : LRPAuction).

Abbreviation lrp := (la_LRP a).
Abbreviation h := (zs_heap zs).
Abbreviation guid := (key_ProcessGuid (lrp_Key lrp)).

Definition lrp_score (c : Cell) : result InsufficientResourcesError float64 :=
  Cell_ScoreForLRP c lrp (startingContainerWeight cfg) (binPackFirstFitWeight cfg).

Abbreviation zones := (accumulateZonesByInstances h (range_over t (zs_zones zs)) guid).

Lemma elem_of_zones lz :
  lz ∈ zones <-> exists k z, zs_zones zs !! k = Some z /\ lz = mkLrpByZone z (zone_instances h guid z).
Proof.
  unfold accumulateZonesByInstances. rewrite list_elem_of_fmap. split.
  - intros ([k z] & -> & Hin). rewrite range_over_perm, elem_of_map_to_list in Hin. eauto.
  - intros (k & z & Hk & ->). exists (k, z). rewrite range_over_perm, elem_of_map_to_list. done.
Qed.

Lemma elem_of_restricted lz r c :
  (r, c) ∈ deref h (lz_zone (restrict_zone h (lrp_PC lrp) lz)) <->
  (r, c) ∈ deref h (lz_zone lz) /\ cell_matches (lrp_PC lrp) c = true.
Proof.
  rewrite !elem_of_deref. unfold restrict_zone. simpl. rewrite list_elem_of_fmap. split.
  - intros [([r' c'] & -> & Hin) Hc]. apply list_elem_of_filter in Hin as [Hm Hin].
    apply elem_of_deref in Hin as [? ?]. simplify_eq/=. done.
  - intros [[Hr Hc] Hm]. split; [|done]. exists (r, c). split; [done|].
    apply list_elem_of_filter. by rewrite elem_of_deref.
Qed.

(** The zones searched, in the order they are searched. *)
Definition searched : list lrpByZone :=
  sortZonesByInstances (filterZones h zones (lrp_PC lrp)).1.

Lemma searched_sorted : zones_sorted searched.
Proof. apply go_sort_sorted. Qed.

Lemma elem_of_searched lz :
  lz ∈ searched <-> exists lz0, lz0 ∈ zones /\ zone_has_match h (lrp_PC lrp) lz0 /\
                      lz = restrict_zone h (lrp_PC lrp) lz0.
Proof.
  unfold searched, sortZonesByInstances. rewrite go_sort_perm, filterZones_spec.
  assert (lz ∈ restrict_zone h (lrp_PC lrp) <$> filter (zone_has_match h (lrp_PC lrp)) zones <->
          exists lz0, lz0 ∈ zones /\ zone_has_match h (lrp_PC lrp) lz0 /\
                      lz = restrict_zone h (lrp_PC lrp) lz0) as <-.
  { rewrite list_elem_of_fmap. setoid_rewrite list_elem_of_filter. naive_solver. }
  by destruct (restrict_zone h (lrp_PC lrp) <$> _).
Qed.

Lemma zone_has_match_elem lz r c :
  (r, c) ∈ deref h (lz_zone lz) -> cell_matches (lrp_PC lrp) c = true ->
  zone_has_match h (lrp_PC lrp) lz.
Proof.
  intros Hin Hm. apply existsb_exists. exists c. split; [|done].
  apply list_elem_of_In, list_elem_of_fmap. exists (r, c). done.
Qed.

(** A compatible cell of a zone is in exactly the searched zone made from it. *)
Lemma searched_cell k z r c :
  in_zones zs k z r c -> cell_matches (lrp_PC lrp) c = true ->
  exists lz, lz ∈ searched /\ (r, c) ∈ deref h (lz_zone lz) /\ lz_instances lz = zone_instances h guid z.
Proof.
  intros (Hk & Hr & Hc) Hm. set (lz0 := mkLrpByZone z (zone_instances h guid z)).
  assert ((r, c) ∈ deref h (lz_zone lz0)) as Hin by by apply elem_of_deref.
  exists (restrict_zone h (lrp_PC lrp) lz0). split_and!; [| |done].
  - apply elem_of_searched. exists lz0. split_and!; [|by eapply zone_has_match_elem|done].
    apply elem_of_zones. eauto.
  - by apply elem_of_restricted.
Qed.

Lemma searched_cell_inv lz r c :
  lz ∈ searched -> (r, c) ∈ deref h (lz_zone lz) ->
  exists k z, in_zones zs k z r c /\ cell_matches (lrp_PC lrp) c = true /\
    lz_instances lz = zone_instances h guid z.
Proof.
  intros (lz0 & (k & z & Hk & ->)%elem_of_zones & _ & ->)%elem_of_searched [Hin Hm]%elem_of_restricted.
  apply elem_of_deref in Hin as [Hr Hc]. exists k, z. done.
Qed.

Definition lrp_scan : Scan := scan_zones h lrp_score searched initial_scan.

Lemma scheduleLRPAuction_ok w zs' :
  scheduleLRPAuction cfg t zs a = Ok (w, zs') ->
  exists r c c', scan_winner lrp_scan = Some r /\ h !! r = Some c /\
    Cell_ReserveLRP c lrp = Ok c' /\
    w = mkLRPAuction (SchedulingLRP_Copy lrp) (with_Winner (la_Rec a) (cell_Guid c)) /\
    zs' = mkZones (zs_zones zs) (<[r := c']> h).
Proof.
  unfold scheduleLRPAuction, lrp_scan, searched, lrp_score.
  destruct (filterZones h zones (lrp_PC lrp)) as [fz [e|]]; [done|]. simpl.
  destruct (scan_winner _) as [r|]; [|done]. destruct (h !! r) as [c|] eqn:Hc; [|done].
  destruct (Cell_ReserveLRP c lrp) as [c'|] eqn:Hr; [|done].
  intros [= <- <-]. by exists r, c, c'.
Qed.

(** C20: A placed LRP went to a cell that satisfies its placement constraint and
    has room for it with the proxy overhead; no other zone with a compatible
    cell that could win has fewer instances of the process; no compatible cell
    of a zone with as few instances has a better score; and exactly that cell's
    record changes, by the reservation. *)
Theorem scheduleLRPAuction_placement w zs' :
  scheduleLRPAuction cfg t zs a = Ok (w, zs') ->
  exists k z r c c' s,
    in_zones zs k z r c /\ cell_matches (lrp_PC lrp) c = true /\
    fits (cell_state c) (proxied (cell_state c) (lrp_Res lrp)) /\ lrp_score c = Ok s /\
    Cell_ReserveLRP c lrp = Ok c' /\
    w = mkLRPAuction (SchedulingLRP_Copy lrp) (with_Winner (la_Rec a) (cell_Guid c)) /\
    zs' = mkZones (zs_zones zs) (<[r := c']> (zs_heap zs)) /\
    (forall k1 z1 r1 c1, in_zones zs k1 z1 r1 c1 -> cell_matches (lrp_PC lrp) c1 = true ->
       winnable lrp_score c1 -> (zone_instances h guid z <= zone_instances h guid z1)%Z) /\
    (forall k1 z1 r1 c1 s1, in_zones zs k1 z1 r1 c1 -> cell_matches (lrp_PC lrp) c1 = true ->
       zone_instances h guid z1 = zone_instances h guid z ->
       lrp_score c1 = Ok s1 -> flt s1 s = false).
Proof.
  intros (r & c & c' & Hw & Hc & Hres & -> & ->)%scheduleLRPAuction_ok.
  destruct (scan_zones_winner h lrp_score searched searched_sorted r Hw)
    as (lz & c0 & s & Hlz & Hin & Hs & _ & Hmin & Hbest).
  destruct (searched_cell_inv lz r c0 Hlz Hin) as (k & z & Hz & Hm & Hi).
  assert (c0 = c) as -> by (destruct Hz as (_ & _ & ?); congruence).
  exists k, z, r, c, c', s. split_and!; try done.
  - by eapply ScoreForLRP_ok_fits.
  - intros k1 z1 r1 c1 H1 Hm1 Hwin. destruct (searched_cell _ _ _ _ H1 Hm1) as (lz1 & ? & ? & <-).
    rewrite <-Hi. by eapply Hmin.
  - intros k1 z1 r1 c1 s1 H1 Hm1 Hi1 Hs1.
    destruct (searched_cell _ _ _ _ H1 Hm1) as (lz1 & ? & ? & Hi2).
    eapply (Hbest lz1 r1 c1 s1); try done. congruence.
Qed.

(** The proxy overhead of a cell is not negative and adding it does not leave
    the 32-bit range. *)
Definition proxy_in_range (c : Cell) : Prop :=
  (0 <= cs_ProxyMemoryAllocationMB (cell_state c))%Z /\
  (0 <= r_MemoryMB (lrp_Res lrp))%Z /\
  (r_MemoryMB (lrp_Res lrp) + cs_ProxyMemoryAllocationMB (cell_state c) < 2 ^ 31)%Z.

Lemma fits_proxied c :
  proxy_in_range c -> fits (cell_state c) (proxied (cell_state c) (lrp_Res lrp)) ->
  fits (cell_state c) (lrp_Res lrp).
Proof. unfold proxy_in_range, fits, proxied. simpl. intros. unwrap. lia. Qed.

Lemma lrp_scan_reserve r c :
  scan_winner lrp_scan = Some r -> h !! r = Some c -> proxy_in_range c ->
  exists c', Cell_ReserveLRP c lrp = Ok c'.
Proof.
  intros Hw Hc Hp.
  destruct (scan_zones_winner h lrp_score searched searched_sorted r Hw)
    as (lz & c0 & s & Hlz & Hin & Hs & _).
  apply elem_of_deref in Hin as [_ Hc0]. assert (c0 = c) as -> by congruence.
  apply ScoreForLRP_ok_fits, fits_proxied, ResourceMatch_nil in Hs; [|done].
  unfold Cell_ReserveLRP. rewrite Hs. eauto.
Qed.

Lemma lrp_scan_live r : scan_winner lrp_scan = Some r -> is_Some (h !! r).
Proof.
  intros Hw. destruct (scan_zones_winner h lrp_score searched searched_sorted r Hw)
    as (lz & c0 & s & Hlz & Hin & _). apply elem_of_deref in Hin as [_ Hc0]. eauto.
Qed.

(** The three ways to fail, of which the third does not occur. *)
Lemma scheduleLRPAuction_err e :
  (forall k z r c, in_zones zs k z r c -> proxy_in_range c) ->
  scheduleLRPAuction cfg t zs a = Err e ->
  (filterZones h zones (lrp_PC lrp)).2 = Some e \/
  (scan_winner lrp_scan = None /\
   e = ErrorInsufficientResources (mkInsufficient (scan_problems lrp_scan))).
Proof.
  intros Hsane. unfold scheduleLRPAuction.
  assert (lrp_scan = scan_zones h lrp_score
            (sortZonesByInstances (filterZones h zones (lrp_PC lrp)).1) initial_scan) as Hscan by done.
  destruct (filterZones h zones (lrp_PC lrp)) as [fz [e1|]] eqn:Hf; [intros [= ->]; by left|].
  simpl in Hscan. unfold lrp_score in Hscan at 1. rewrite <-Hscan.
  destruct (scan_winner lrp_scan) as [r|] eqn:Hw; [|intros [= <-]; by right].
  destruct (lrp_scan_live r Hw) as [c Hc]. rewrite Hc.
  destruct (scan_zones_winner h lrp_score searched searched_sorted r Hw)
    as (lz & c0 & s & Hlz & Hin & _).
  destruct (searched_cell_inv lz r c0 Hlz Hin) as (k & z & Hz & _).
  assert (c0 = c) as -> by (destruct Hz as (_ & _ & ?); congruence).
  by destruct (lrp_scan_reserve r c Hw Hc (Hsane _ _ _ _ Hz)) as [c' ->].
Qed.

Lemma filterZones_err e :
  (filterZones h zones (lrp_PC lrp)).2 = Some e ->
  (forall k z r c, in_zones zs k z r c -> cell_matches (lrp_PC lrp) c = false) /\
  exists k z, zs_zones zs !! k = Some z /\ mismatch_error (lrp_PC lrp) (snd <$> deref h z) = Some e.
Proof.
  rewrite filterZones_spec.
  destruct (restrict_zone h (lrp_PC lrp) <$> _) eqn:Hnil; [|done]. simpl. intros Hf.
  apply fmap_nil_inv in Hnil. split.
  - intros k z r c (Hk & Hr & Hc). apply not_true_iff_false. intros Hm.
    eapply (filter_nil_not_elem_of _ _ (mkLrpByZone z (zone_instances h guid z)) Hnil).
    + eapply (zone_has_match_elem _ r c); [|done]. by apply elem_of_deref.
    + apply elem_of_zones. eauto.
  - apply merge_errors_in in Hf as [?|Hf]; [done|].
    apply list_elem_of_omap in Hf as (lz & (k & z & Hk & ->)%elem_of_zones & Herr). by exists k, z.
Qed.

Lemma lrp_scan_none :
  scan_winner lrp_scan = None ->
  (forall k z r c, in_zones zs k z r c -> cell_matches (lrp_PC lrp) c = true ->
     ~ winnable lrp_score c) /\
  forall p, p ∈ scan_problems lrp_scan <-> p ∈ all_problems /\
    forall k z r c e, in_zones zs k z r c -> cell_matches (lrp_PC lrp) c = true ->
      lrp_score c = Err e -> p ∈ Problems e.
Proof.
  intros Hw. destruct (scan_zones_no_winner h lrp_score searched searched_sorted Hw) as [Hno Hps]. split.
  - intros k z r c Hz Hm. destruct (searched_cell _ _ _ _ Hz Hm) as (lz & ? & ? & _). by eapply Hno.
  - intros p. unfold lrp_scan. rewrite Hps. apply and_iff_compat_l. split.
    + intros Hall k z r c e Hz Hm He.
      destruct (searched_cell _ _ _ _ Hz Hm) as (lz & ? & ? & _). by eapply Hall.
    + intros Hall lz r c e Hlz Hin He.
      destruct (searched_cell_inv _ _ _ Hlz Hin) as (k & z & Hz & Hm & _). by eapply Hall.
Qed.

(** When the proxy overheads are in range, an LRP fails only if no
    compatible cell has both room for it and a score below the bar.  The error
    is a mismatch error of one of the zones when no cell is compatible, and else
    it lists exactly the problems that every compatible cell without room has. *)
Theorem scheduleLRPAuction_failure e :
  (forall k z r c, in_zones zs k z r c -> proxy_in_range c) ->
  scheduleLRPAuction cfg t zs a = Err e ->
  (forall k z r c, in_zones zs k z r c -> cell_matches (lrp_PC lrp) c = true ->
     ~ winnable lrp_score c) /\
  (((forall k z r c, in_zones zs k z r c -> cell_matches (lrp_PC lrp) c = false) /\
    exists k z, zs_zones zs !! k = Some z /\
      mismatch_error (lrp_PC lrp) (snd <$> deref h z) = Some e) \/
   exists ps, e = ErrorInsufficientResources (mkInsufficient ps) /\
     forall p, p ∈ ps <-> p ∈ all_problems /\
       forall k z r c e', in_zones zs k z r c -> cell_matches (lrp_PC lrp) c = true ->
         CellState_ResourceMatch (cell_state c) (proxied (cell_state c) (lrp_Res lrp)) = Some e' ->
         p ∈ Problems e').
Proof.
  intros Hsane He. destruct (scheduleLRPAuction_err e Hsane He) as [Hf|[Hw ->]].
  - destruct (filterZones_err e Hf) as [Hno Hk]. split; [|by left].
    intros k z r c Hz Hm. by rewrite (Hno k z r c Hz) in Hm.
  - destruct (lrp_scan_none Hw) as [Hno Hps]. split; [done|right].
    eexists. split; [done|]. intros p. rewrite Hps. by setoid_rewrite ScoreForLRP_err.
Qed.
End place_lrp.

(** ** Placing a task *)

Lemma foldl_concat {A B C} (f : A -> B -> A) (g : C -> list B) (l : list C) (a : A) :
  foldl (fun st z => foldl f st (g z)) a l = foldl f a (l ≫= g).
Proof. revert a. induction l as [|z l IH]; intros a; csimpl; [done|]. by rewrite foldl_app, IH. Qed.

Section place_task.
Context `{UrlParser} `{!MapRange string}.
Context (cfg : Config) (t : nat) (zs : Zones) (a : TaskAuction).

Abbreviation task := (ta_Task a).
Abbreviation h := (zs_heap zs).
Abbreviation pc := (task_PC (ta_Task a)).

Definition task_score (c : Cell) : result InsufficientResourcesError float64 :=
  Cell_ScoreForTask c task (startingContainerWeight cfg).

(** The compatible cells of a zone. *)
Definition compatible (z : list CellRef) : list (CellRef * Cell) :=
  filter (fun rc => cell_matches pc rc.2 = true) (deref h z).

Lemma mismatch_None_compatible z :
  mismatch_error pc (snd <$> deref h z) = None <-> compatible z <> [].
Proof.
  unfold mismatch_error, compatible. destruct (existsb _ _) eqn:E.
  - split; [|done]. intros _ Hnil. apply existsb_exists in E as (c & Hin & Hm).
    apply list_elem_of_In, list_elem_of_fmap in Hin as ([r c'] & -> & Hin).
    by apply (filter_nil_not_elem_of _ _ (r, c') Hnil).
  - split; [by repeat case_match|]. intros Hne. exfalso. apply Hne.
    destruct (filter _ _) as [|[r c] l] eqn:F; [done|].
    assert ((r, c) ∈ filter (fun rc => cell_matches pc rc.2 = true) (deref h z)) as Hin
      by (rewrite F; set_solver).
    apply list_elem_of_filter in Hin as [Hm Hin]. apply not_true_iff_false in E. destruct E.
    apply existsb_exists. exists c. split; [|done].
    apply list_elem_of_In, list_elem_of_fmap. by exists (r, c).
Qed.

Lemma filterTaskZones_fold (l : list (string * list CellRef)) :
  foldl (filterTaskZones_step h pc) ([], None) l =
  ((fun kz => fst <$> compatible kz.2) <$> filter (fun kz => compatible kz.2 <> []) l,
   foldl (fun ze e => merge_zone_error ze e) None
         (omap (fun kz => mismatch_error pc (snd <$> deref h kz.2)) l)).
Proof.
  induction l as [|kz l IH] using rev_ind; [done|].
  rewrite foldl_app, IH, filter_app, fmap_app, elem_of_foldl_omap_snoc, foldl_app. simpl.
  rewrite filterCells_spec. fold (compatible kz.2). rewrite filter_cons, filter_nil.
  pose proof (mismatch_None_compatible kz.2) as Hc.
  destruct (mismatch_error pc (snd <$> deref h kz.2)) as [e|]; case_decide as D; simpl;
    rewrite ?app_nil_r; try done; naive_solver.
Qed.

(** All compatible cells, zone by zone in the order of the range statement. *)
Definition candidates : list (CellRef * Cell) :=
  kz ← range_over t (zs_zones zs); compatible kz.2.

Lemma elem_of_candidates r c :
  (r, c) ∈ candidates <-> exists k z, in_zones zs k z r c /\ cell_matches pc c = true.
Proof.
  unfold candidates. rewrite list_elem_of_bind. split.
  - intros ([k z] & Hin & Hk). rewrite range_over_perm, elem_of_map_to_list in Hk.
    apply list_elem_of_filter in Hin as [Hm Hin]. apply elem_of_deref in Hin as [Hr Hc].
    exists k, z. done.
  - intros (k & z & (Hk & Hr & Hc) & Hm). exists (k, z).
    rewrite range_over_perm, elem_of_map_to_list. split; [|done].
    apply list_elem_of_filter. by rewrite elem_of_deref.
Qed.

Lemma deref_compatible z : deref h (fst <$> compatible z) = compatible z.
Proof.
  unfold compatible, deref. induction z as [|r z IH]; csimpl; [done|].
  destruct (h !! r) as [c|] eqn:Hc; csimpl; [|done].
  rewrite !filter_cons. case_decide; csimpl; [|done]. rewrite Hc. csimpl. by rewrite IH.
Qed.

Lemma bind_filter_nonempty (l : list (string * list CellRef)) :
  (((fun kz => fst <$> compatible kz.2) <$> filter (fun kz => compatible kz.2 <> []) l)
     ≫= deref h) = (kz ← l; compatible kz.2).
Proof.
  induction l as [|kz l IH]; csimpl; [done|]. rewrite filter_cons. case_decide as D; csimpl.
  - by rewrite IH, deref_compatible.
  - by rewrite IH, D.
Qed.

Definition task_scan : Scan := foldl (scan_cell task_score) initial_scan candidates.

Lemma scheduleTaskAuction_alt :
  scheduleTaskAuction cfg t zs a =
  if bool_decide (candidates = [])
  then Err (foldl (fun ze e => merge_zone_error ze e) None
              (omap (fun kz => mismatch_error pc (snd <$> deref h kz.2)) (range_over t (zs_zones zs))))
  else match r ← scan_winner task_scan; c ← h !! r; Some (r, c) with
       | None => Err (Some (ErrorInsufficientResources (mkInsufficient (scan_problems task_scan))))
       | Some (r, c) =>
           match Cell_ReserveTask c task with
           | Err e => Err (Some (ErrorInsufficientResources e))
           | Ok c' => Ok (mkTaskAuction task (with_Winner (ta_Rec a) (cell_Guid c)),
                          mkZones (zs_zones zs) (<[r := c']> h))
           end
       end.
Proof.
  unfold scheduleTaskAuction. rewrite filterTaskZones_fold.
  unfold task_scan, candidates, task_score. rewrite <-bind_filter_nonempty.
  set (fz := (fun kz => fst <$> compatible kz.2) <$> _).
  assert (Forall (fun z => deref h z <> []) fz) as Hne.
  { apply Forall_forall. intros z Hz. apply list_elem_of_fmap in Hz as (kz & -> & Hin).
    apply list_elem_of_filter in Hin as [? _]. by rewrite deref_compatible. }
  case_bool_decide as D.
  - destruct fz as [|z fz]; [done|]. apply Forall_cons in Hne as [Hne _]. csimpl in D.
    by apply app_eq_nil in D as [? _].
  - destruct fz as [|z fz]; [done|]. rewrite foldl_concat.
    destruct (scan_winner _) as [r|]; csimpl; [|done]. destruct (h !! r); csimpl; [|done]. done.
Qed.

Lemma scheduleTaskAuction_ok w zs' :
  scheduleTaskAuction cfg t zs a = Ok (w, zs') ->
  exists k z r c c' s,
    in_zones zs k z r c /\ cell_matches pc c = true /\
    fits (cell_state c) (task_Res task) /\ task_score c = Ok s /\
    Cell_ReserveTask c task = Ok c' /\
    w = mkTaskAuction task (with_Winner (ta_Rec a) (cell_Guid c)) /\
    zs' = mkZones (zs_zones zs) (<[r := c']> (zs_heap zs)) /\
    forall k1 z1 r1 c1 s1, in_zones zs k1 z1 r1 c1 -> cell_matches pc c1 = true ->
      task_score c1 = Ok s1 -> flt s1 s = false.
Proof.
  rewrite scheduleTaskAuction_alt. case_bool_decide as D; [done|].
  destruct (scan_winner task_scan) as [r|] eqn:Hw; csimpl; [|done].
  destruct (h !! r) as [c|] eqn:Hc; csimpl; [|done].
  destruct (Cell_ReserveTask c task) as [c'|] eqn:Hres; [|done]. intros [= <- <-].
  destruct (scan_from task_score candidates initial_scan)
    as [[Hw' _]|(r' & c0 & s & Hin & Hsc & _ & Hw' & Hs)];
    fold task_scan in Hw'; rewrite Hw' in Hw; [done|]. simplify_eq Hw. intros ->.
  destruct (proj1 (elem_of_candidates r c0) Hin) as (k & z & Hz & Hm).
  assert (c0 = c) as -> by (destruct Hz as (_ & _ & ?); congruence).
  exists k, z, r, c, c', s. split_and!; try done; [by eapply ScoreForTask_ok_fits|].
  intros k1 z1 r1 c1 s1 H1 Hm1 Hs1. rewrite <-Hs. eapply scan_best; [|done].
  apply elem_of_candidates. eauto.
Qed.

Lemma no_candidates_error :
  candidates = [] ->
  foldl (fun ze e => merge_zone_error ze e) None
    (omap (fun kz => mismatch_error pc (snd <$> deref h kz.2)) (range_over t (zs_zones zs))) = None ->
  zs_zones zs = ∅.
Proof.
  intros D Hnone. destruct (range_over t (zs_zones zs)) as [|kz l] eqn:El.
  { apply map_to_list_empty_iff. apply Permutation_nil. by rewrite <-El, range_over_perm. }
  exfalso. eapply is_Some_None. rewrite <-Hnone. apply merge_errors_Some. right. csimpl.
  assert (compatible kz.2 = []) as Hc.
  { unfold candidates in D. rewrite El in D. csimpl in D. by apply app_eq_nil in D as [? _]. }
  destruct (mismatch_error pc _) eqn:M; [done|]. by apply mismatch_None_compatible in M.
Qed.

Lemma task_scan_reserve r :
  scan_winner task_scan = Some r ->
  exists c c', h !! r = Some c /\ Cell_ReserveTask c task = Ok c'.
Proof.
  intros Hw. destruct (scan_from task_score candidates initial_scan)
    as [[Hw' _]|(r' & c0 & s & Hin & Hsc & _ & Hw' & _)];
    fold task_scan in Hw'; rewrite Hw' in Hw; [done|]. simplify_eq Hw. intros ->.
  destruct (proj1 (elem_of_candidates r c0) Hin) as (k & z & (_ & _ & Hc) & _).
  apply ScoreForTask_ok_fits, ResourceMatch_nil in Hsc.
  unfold Cell_ReserveTask. exists c0. rewrite Hsc. eauto.
Qed.

Lemma scheduleTaskAuction_err oe :
  scheduleTaskAuction cfg t zs a = Err oe ->
  (forall k z r c, in_zones zs k z r c -> cell_matches pc c = true -> ~ winnable task_score c) /\
  (oe = None -> zs_zones zs = ∅).
Proof.
  rewrite scheduleTaskAuction_alt. case_bool_decide as D; intros E.
  - injection E as <-. split; [|by apply no_candidates_error].
    intros k z r c Hz Hm. assert ((r, c) ∈ candidates) as Hin by (apply elem_of_candidates; eauto).
    rewrite D in Hin. by apply elem_of_nil in Hin.
  - destruct (scan_winner task_scan) as [r|] eqn:Hw; csimpl in E.
    + destruct (task_scan_reserve r Hw) as (c & c' & Hc & Hr).
      rewrite Hc in E. csimpl in E. by rewrite Hr in E.
    + injection E as <-. split; [|done]. intros k z r c Hz Hm.
      eapply (scan_score_bound task_score candidates initial_scan); [done|done|exact Hw|].
      apply elem_of_candidates. eauto.
Qed.

(** A task is placed exactly when some compatible cell has room for it and
    a score below the bar, and then on a compatible cell with room whose score no
    compatible cell of any zone beats; only that cell's record changes. *)
Theorem scheduleTaskAuction_placement :
  match scheduleTaskAuction cfg t zs a with
  | Ok (w, zs') =>
      exists k z r c c' s,
        in_zones zs k z r c /\ cell_matches pc c = true /\
        fits (cell_state c) (task_Res task) /\ task_score c = Ok s /\
        Cell_ReserveTask c task = Ok c' /\
        w = mkTaskAuction task (with_Winner (ta_Rec a) (cell_Guid c)) /\
        zs' = mkZones (zs_zones zs) (<[r := c']> (zs_heap zs)) /\
        forall k1 z1 r1 c1 s1, in_zones zs k1 z1 r1 c1 -> cell_matches pc c1 = true ->
          task_score c1 = Ok s1 -> flt s1 s = false
  | Err oe =>
      (forall k z r c, in_zones zs k z r c -> cell_matches pc c = true -> ~ winnable task_score c) /\
      (oe = None -> zs_zones zs = ∅)
  end.
Proof.
  destruct (scheduleTaskAuction cfg t zs a) as [[w zs']|oe] eqn:E.
  - by apply scheduleTaskAuction_ok.
  - by apply scheduleTaskAuction_err.
Qed.
End place_task.
