(* ===== verification/ScheduleProps.v ===== *)
(** * Scheduling a whole request

    Properties of [Schedule]: no job is lost or reported twice, no cell is
    promised more than it has, and the limit on starting containers holds. *)
From Stdlib Require Import ZArith Lia Sorted.
From S2P Require Import Prelude Float64 Models AuctionTypes Cell Zones Scheduler Placement.

(** ** The contract of a rep

    What the scheduler relies on from a cell: the work it hands back as failed
    is part of the work it was given, as long as no two tasks of it have the
    same guid. *)
Class RepContract (c : RepClient) : Prop := {
  perform_lrps : forall w f, client_Perform c w = Ok f -> work_LRPs f ⊆+ work_LRPs w;
  perform_tasks : forall w f, client_Perform c w = Ok f ->
    NoDup (SchedulingTask_Identifier <$> work_Tasks w) -> work_Tasks f ⊆+ work_Tasks w }.

Lemma Commit_submseteq c :
  RepContract (cell_client c) -> NoDup (SchedulingTask_Identifier <$> work_Tasks (cell_workToCommit c)) ->
  work_LRPs (Cell_Commit c) ⊆+ work_LRPs (cell_workToCommit c) /\
  work_Tasks (Cell_Commit c) ⊆+ work_Tasks (cell_workToCommit c).
Proof.
  intros Hc Hnd. unfold Cell_Commit. case_match; [split; apply submseteq_nil_l|].
  destruct (client_Perform _ _) as [f|] eqn:E; [|split; apply submseteq_nil_l].
  split; [by eapply perform_lrps | by eapply perform_tasks].
Qed.

(** ** Reservations as steps *)

Definition update_cell (zs : Zones) (r : CellRef) (c : Cell) : Zones :=
  mkZones (zs_zones zs) (<[r := c]> (zs_heap zs)).

(** A valid LRP or task is reserved on a cell of the zones. *)
Inductive reserve_step (zs : Zones) : Zones -> Prop :=
| reserve_lrp_step k z r c c' lrp :
    in_zones zs k z r c -> Resource_Valid (lrp_Res lrp) = true ->
    Cell_ReserveLRP c lrp = Ok c' -> reserve_step zs (update_cell zs r c')
| reserve_task_step k z r c c' task :
    in_zones zs k z r c -> Resource_Valid (task_Res task) = true ->
    Cell_ReserveTask c task = Ok c' -> reserve_step zs (update_cell zs r c').

Lemma ReserveLRP_ok c lrp c' :
  Cell_ReserveLRP c lrp = Ok c' ->
  fits (cell_state c) (lrp_Res lrp) /\
  cell_client c' = cell_client c /\ cell_Guid c' = cell_Guid c /\
  cell_state c' = CellState_AddLRP (cell_state c) lrp /\
  work_LRPs (cell_workToCommit c') = work_LRPs (cell_workToCommit c) ++ [lrp] /\
  work_Tasks (cell_workToCommit c') = work_Tasks (cell_workToCommit c).
Proof.
  unfold Cell_ReserveLRP. destruct (CellState_ResourceMatch _ _) eqn:E; [done|].
  apply ResourceMatch_nil in E. by intros [= <-].
Qed.

Lemma ReserveTask_ok c task c' :
  Cell_ReserveTask c task = Ok c' ->
  fits (cell_state c) (task_Res task) /\
  cell_client c' = cell_client c /\ cell_Guid c' = cell_Guid c /\
  cell_state c' = CellState_AddTask (cell_state c) task /\
  work_LRPs (cell_workToCommit c') = work_LRPs (cell_workToCommit c) /\
  work_Tasks (cell_workToCommit c') = work_Tasks (cell_workToCommit c) ++ [task].
Proof.
  unfold Cell_ReserveTask. destruct (CellState_ResourceMatch _ _) eqn:E; [done|].
  apply ResourceMatch_nil in E. by intros [= <-].
Qed.

(** *** Budgets *)

Definition reserved_memory (c : Cell) : Z :=
  (sumZ (fun l => r_MemoryMB (lrp_Res l)) (work_LRPs (cell_workToCommit c)) +
   sumZ (fun t => r_MemoryMB (task_Res t)) (work_Tasks (cell_workToCommit c)))%Z.
Definition reserved_disk (c : Cell) : Z :=
  (sumZ (fun l => r_DiskMB (lrp_Res l)) (work_LRPs (cell_workToCommit c)) +
   sumZ (fun t => r_DiskMB (task_Res t)) (work_Tasks (cell_workToCommit c)))%Z.
Definition reserved_containers (c : Cell) : Z :=
  (Z.of_nat (length (work_LRPs (cell_workToCommit c))) +
   Z.of_nat (length (work_Tasks (cell_workToCommit c))))%Z.

(** What the cell had before any reservation: what is left and what is reserved. *)
Definition budget (c : Cell) : Z * Z * Z :=
  ((rs_MemoryMB (cs_AvailableResources (cell_state c)) + reserved_memory c)%Z,
   (rs_DiskMB (cs_AvailableResources (cell_state c)) + reserved_disk c)%Z,
   (rs_Containers (cs_AvailableResources (cell_state c)) + reserved_containers c)%Z).

Definition capacity_ok (c : Cell) : Prop := resources_ok (cs_AvailableResources (cell_state c)).

Lemma ReserveLRP_budget c lrp c' :
  Resource_Valid (lrp_Res lrp) = true -> Cell_ReserveLRP c lrp = Ok c' -> capacity_ok c ->
  capacity_ok c' /\ budget c' = budget c.
Proof.
  unfold capacity_ok, budget, reserved_memory, reserved_disk, reserved_containers.
  intros Hv (Hf & _ & _ & -> & -> & ->)%ReserveLRP_ok Hok.
  change (cs_AvailableResources (CellState_AddLRP (cell_state c) lrp))
    with (Resources_Subtract (cs_AvailableResources (cell_state c)) (lrp_Res lrp)).
  destruct (Subtract_fits _ _ Hv Hok Hf) as [-> ?]. simpl in *.
  rewrite !sumZ_app, length_app. simpl. split; [done|]. f_equal; [f_equal|]; lia.
Qed.

Lemma ReserveTask_budget c task c' :
  Resource_Valid (task_Res task) = true -> Cell_ReserveTask c task = Ok c' -> capacity_ok c ->
  capacity_ok c' /\ budget c' = budget c.
Proof.
  unfold capacity_ok, budget, reserved_memory, reserved_disk, reserved_containers.
  intros Hv (Hf & _ & _ & -> & -> & ->)%ReserveTask_ok Hok.
  change (cs_AvailableResources (CellState_AddTask (cell_state c) task))
    with (Resources_Subtract (cs_AvailableResources (cell_state c)) (task_Res task)).
  destruct (Subtract_fits _ _ Hv Hok Hf) as [-> ?]. simpl in *.
  rewrite !sumZ_app, length_app. simpl. split; [done|]. f_equal; [f_equal|]; lia.
Qed.

(** Every cell keeps its budget and stays within capacity. *)
Definition within_budget (zs zs' : Zones) : Prop :=
  forall r c', zs_heap zs' !! r = Some c' ->
    exists c, zs_heap zs !! r = Some c /\ (capacity_ok c -> capacity_ok c' /\ budget c' = budget c).

Lemma within_budget_step zs zs1 zs2 : within_budget zs zs1 -> reserve_step zs1 zs2 -> within_budget zs zs2.
Proof.
  intros Hwb Hstep.
  assert (exists r c c', zs_heap zs1 !! r = Some c /\ zs2 = update_cell zs1 r c' /\
            (capacity_ok c -> capacity_ok c' /\ budget c' = budget c)) as (r & c & c' & Hc & -> & Hcc).
  { destruct Hstep as [k z r c c' lrp (_ & _ & Hc) Hv Hr|k z r c c' task (_ & _ & Hc) Hv Hr];
      exists r, c, c'; split_and!; try done; [by eapply ReserveLRP_budget|by eapply ReserveTask_budget]. }
  intros r' c''. simpl. rewrite lookup_insert. case_decide as D.
  - intros [= <-]. subst r'. destruct (Hwb r c Hc) as (c0 & Hc0 & H0). exists c0. split; [done|].
    intros Hok. destruct (H0 Hok) as [H1 H2]. destruct (Hcc H1). split; congruence.
  - apply Hwb.
Qed.

Lemma within_budget_rtc zs zs' : rtc reserve_step zs zs' -> within_budget zs zs'.
Proof.
  revert zs'. apply (rtc_ind_r (within_budget zs)).
  - intros r c Hc. eauto.
  - intros zs1 zs2 _ Hstep Hwb. by eapply within_budget_step.
Qed.

(** ** A ledger of jobs

    The scheduler keeps, for LRPs and for tasks alike, a map of the jobs placed,
    a lookup of the jobs seen and a list of the jobs failed.  [pay] is the part
    of a job that is conserved, [pid] its identifier. *)

Definition values {A} (m : gmap string A) : list A := snd <$> map_to_list m.
Definition keys {A} (m : gmap string A) : list string := fst <$> map_to_list m.

Lemma values_insert {A} (m : gmap string A) k v : m !! k = None -> values (<[k:=v]> m) ≡ₚ v :: values m.
Proof. intros Hk. unfold values. by rewrite map_to_list_insert. Qed.

Lemma keys_insert {A} (m : gmap string A) k v : m !! k = None -> keys (<[k:=v]> m) ≡ₚ k :: keys m.
Proof. intros Hk. unfold keys. by rewrite map_to_list_insert. Qed.

Lemma values_delete {A} (m : gmap string A) k v : m !! k = Some v -> values m ≡ₚ v :: values (delete k m).
Proof. intros Hk. unfold values. by rewrite <-(map_to_list_delete m k v). Qed.

Lemma keys_delete {A} (m : gmap string A) k v : m !! k = Some v -> keys m ≡ₚ k :: keys (delete k m).
Proof. intros Hk. unfold keys. by rewrite <-(map_to_list_delete m k v). Qed.

Lemma elem_of_keys {A} (m : gmap string A) k : k ∈ keys m <-> is_Some (m !! k).
Proof.
  unfold keys. rewrite list_elem_of_fmap. split.
  - intros ([k' v] & -> & Hin). apply elem_of_map_to_list in Hin. eauto.
  - intros [v Hv]. exists (k, v). by rewrite elem_of_map_to_list.
Qed.

Lemma keys_nodup {A} (m : gmap string A) : NoDup (keys m).
Proof. apply NoDup_fst_map_to_list. Qed.

Section ledger.
Context {A P : Type} (pay : A -> P) (pid : P -> string).

Definition aid (a : A) : string := pid (pay a).

Record balanced (succ lookup : gmap string A) (failed seen : list A) : Prop := {
  bal_perm : pay <$> (values succ ++ failed) ≡ₚ pay <$> seen;
  bal_key : forall id w, succ !! id = Some w ->
    aid w = id /\ exists a, lookup !! id = Some a /\ pay a = pay w }.

Context (succ lookup : gmap string A) (failed seen : list A).
Context (Hbal : balanced succ lookup failed seen).

Lemma balanced_in id w : succ !! id = Some w -> id ∈ aid <$> seen.
Proof.
  intros Hw. destruct (bal_key _ _ _ _ Hbal id w Hw) as [<- _].
  assert (pay w ∈ pay <$> seen) as (a & Ha & Hin)%list_elem_of_fmap.
  { rewrite <-(bal_perm _ _ _ _ Hbal). apply list_elem_of_fmap. exists w. split; [done|].
    apply elem_of_app. left. rewrite (values_delete _ _ _ Hw). set_solver. }
  apply list_elem_of_fmap. exists a. split; [|done]. unfold aid. by rewrite Ha.
Qed.

Lemma balanced_fresh a : aid a ∉ aid <$> seen -> succ !! aid a = None.
Proof.
  intros Hf. destruct (succ !! aid a) as [w|] eqn:E; [|done].
  by apply balanced_in in E.
Qed.

Lemma balanced_fail a a' :
  aid a ∉ aid <$> seen -> pay a' = pay a ->
  balanced succ (<[aid a := a']> lookup) (failed ++ [a']) (seen ++ [a]).
Proof.
  intros Hf Hp. pose proof (balanced_fresh a Hf) as Hn. split.
  - rewrite app_assoc, (fmap_app _ (values succ ++ failed)), (fmap_app _ seen).
    rewrite (bal_perm _ _ _ _ Hbal). simpl. by rewrite Hp.
  - intros id w Hw. destruct (bal_key _ _ _ _ Hbal id w Hw) as [Hid Hl]. split; [done|].
    rewrite lookup_insert_ne; [done|]. intros <-. congruence.
Qed.

Lemma balanced_succ a w :
  aid a ∉ aid <$> seen -> pay w = pay a ->
  balanced (<[aid a := w]> succ) (<[aid a := a]> lookup) failed (seen ++ [a]).
Proof.
  intros Hf Hp. pose proof (balanced_fresh a Hf) as Hn. split.
  - rewrite values_insert by done. rewrite (fmap_app _ seen), <-(bal_perm _ _ _ _ Hbal).
    simpl. rewrite Hp. rewrite !fmap_app. solve_Permutation.
  - intros id w'. rewrite lookup_insert. case_decide as D.
    + intros [= <-]. subst id. split; [unfold aid; by rewrite Hp|].
      exists a. by rewrite lookup_insert_eq.
    + intros Hw. destruct (bal_key _ _ _ _ Hbal id w' Hw) as [Hid Hl]. split; [done|].
      by rewrite lookup_insert_ne.
Qed.

(** A job that comes back as failed moves from the placed to the failed ones. *)
Lemma balanced_collect id :
  id ∈ keys succ ->
  exists a, lookup !! id = Some a /\ balanced (delete id succ) lookup (failed ++ [a]) seen.
Proof.
  intros [w Hw]%elem_of_keys. destruct (bal_key _ _ _ _ Hbal id w Hw) as (_ & a & Ha & Hp).
  exists a. split; [done|]. split.
  - rewrite <-(bal_perm _ _ _ _ Hbal), (values_delete _ _ _ Hw), !fmap_app. simpl.
    rewrite Hp. solve_Permutation.
  - intros id' w'. rewrite lookup_delete. case_decide; [done|]. apply Hbal.
Qed.
End ledger.

(** ** Work reserved in the zones *)

Definition reserved_lrps (zs : Zones) : list SchedulingLRP :=
  c ← zone_cells zs; work_LRPs (cell_workToCommit c).
Definition reserved_tasks (zs : Zones) : list SchedulingTask :=
  c ← zone_cells zs; work_Tasks (cell_workToCommit c).

Section update.
Context (zs : Zones) (k : string) (z : list CellRef) (r : CellRef) (c c' : Cell).
Context (Hwf : wf_zones zs) (Hz : in_zones zs k z r c).

Lemma zone_cells_update :
  exists rest, zone_cells zs ≡ₚ c :: rest /\ zone_cells (update_cell zs r c') ≡ₚ c' :: rest.
Proof.
  destruct Hz as (Hk & Hr & Hc).
  assert (r ∈ zone_refs zs) as Hin by (apply elem_of_map_concat; eauto).
  apply elem_of_Permutation in Hin as [rs Hrs].
  assert (r ∉ rs) as Hni.
  { pose proof (wf_nodup _ Hwf) as Hnd. rewrite Hrs in Hnd. by apply NoDup_cons in Hnd as [? _]. }
  exists (omap (fun r => zs_heap zs !! r) rs). unfold zone_cells. split.
  - rewrite (omap_Permutation _ _ _ Hrs). csimpl. by rewrite Hc.
  - change (zone_refs (update_cell zs r c')) with (zone_refs zs).
    rewrite (omap_Permutation _ _ _ Hrs). csimpl. rewrite lookup_insert_eq.
    by rewrite omap_lookup_insert_fresh.
Qed.

Lemma update_wf : cs_Zone (cell_state c') = cs_Zone (cell_state c) -> wf_zones (update_cell zs r c').
Proof.
  intros Hzone. destruct Hz as (Hk & Hr & Hc). split.
  - apply Hwf.
  - intros r' Hr'. simpl. destruct (decide (r = r')) as [->|Hne].
    + rewrite lookup_insert_eq. eauto.
    + rewrite lookup_insert_ne by done. by apply Hwf.
  - intros k' z' r' c0 Hk' Hr'. simpl. destruct (decide (r = r')) as [->|Hne].
    + rewrite lookup_insert_eq. intros [= <-]. rewrite Hzone. by eapply (wf_home _ Hwf).
    + rewrite lookup_insert_ne by done. by eapply (wf_home _ Hwf).
Qed.
End update.

Lemma in_zones_cell zs k z r c : in_zones zs k z r c -> c ∈ zone_cells zs.
Proof.
  intros (Hk & Hr & Hc). apply list_elem_of_omap. exists r. split; [|done].
  apply elem_of_map_concat. eauto.
Qed.

Lemma zone_cells_elem zs c : c ∈ zone_cells zs -> exists k z r, in_zones zs k z r c.
Proof.
  intros (r & (k & z & Hk & Hr)%elem_of_map_concat & Hc)%list_elem_of_omap. by exists k, z, r.
Qed.

(** The zones are well formed and every cell's rep keeps the contract. *)
Record good_zones (zs : Zones) : Prop := {
  good_wf : wf_zones zs;
  good_reps : forall c, c ∈ zone_cells zs -> RepContract (cell_client c) }.

Lemma reserve_lrp_good zs k z r c c' lrp :
  good_zones zs -> in_zones zs k z r c -> Cell_ReserveLRP c lrp = Ok c' ->
  good_zones (update_cell zs r c') /\
  reserved_lrps (update_cell zs r c') ≡ₚ lrp :: reserved_lrps zs /\
  reserved_tasks (update_cell zs r c') ≡ₚ reserved_tasks zs.
Proof.
  intros [Hwf Hrep] Hz (Hf & Hcl & Hg & Hst & Hl & Ht)%ReserveLRP_ok.
  destruct (zone_cells_update zs k z r c c' Hwf Hz) as (rest & H1 & H2).
  split; [split|split].
  - eapply update_wf; [done..|]. by rewrite Hst.
  - intros c0. rewrite H2, elem_of_cons. intros [->|Hin].
    + rewrite Hcl. eapply Hrep, in_zones_cell, Hz.
    + apply Hrep. rewrite H1. set_solver.
  - unfold reserved_lrps. rewrite H2, H1. csimpl. rewrite Hl. solve_Permutation.
  - unfold reserved_tasks. rewrite H2, H1. csimpl. by rewrite Ht.
Qed.

Lemma reserve_task_good zs k z r c c' task :
  good_zones zs -> in_zones zs k z r c -> Cell_ReserveTask c task = Ok c' ->
  good_zones (update_cell zs r c') /\
  reserved_lrps (update_cell zs r c') ≡ₚ reserved_lrps zs /\
  reserved_tasks (update_cell zs r c') ≡ₚ task :: reserved_tasks zs.
Proof.
  intros [Hwf Hrep] Hz (Hf & Hcl & Hg & Hst & Hl & Ht)%ReserveTask_ok.
  destruct (zone_cells_update zs k z r c c' Hwf Hz) as (rest & H1 & H2).
  split; [split|split].
  - eapply update_wf; [done..|]. by rewrite Hst.
  - intros c0. rewrite H2, elem_of_cons. intros [->|Hin].
    + rewrite Hcl. eapply Hrep, in_zones_cell, Hz.
    + apply Hrep. rewrite H1. set_solver.
  - unfold reserved_lrps. rewrite H2, H1. csimpl. by rewrite Hl.
  - unfold reserved_tasks. rewrite H2, H1. csimpl. rewrite Ht. solve_Permutation.
Qed.

(** ** The invariant of the auctions *)

Abbreviation lrp_aid := (aid (SchedulingLRP_Copy ∘ la_LRP) SchedulingLRP_Identifier).
Abbreviation task_aid := (aid ta_Task SchedulingTask_Identifier).

Section auctions.
Context `{UrlParser} `{!MapRange string} `{!GoSort lrpByZone_Less}.
Context (cfg : Config).

Lemma scheduleLRPAuction_home t zs a w zs' :
  scheduleLRPAuction cfg t zs a = Ok (w, zs') ->
  exists k z r c c', in_zones zs k z r c /\ Cell_ReserveLRP c (la_LRP a) = Ok c' /\
    la_LRP w = SchedulingLRP_Copy (la_LRP a) /\ zs' = update_cell zs r c'.
Proof.
  intros (r & c & c' & Hw & Hc & Hres & -> & ->)%scheduleLRPAuction_ok.
  destruct (scan_zones_winner _ _ _ (searched_sorted _ _ _) r Hw) as (lz & c0 & s & Hlz & Hin & _).
  destruct (searched_cell_inv _ _ _ lz r c0 Hlz Hin) as (k & z & Hz & _).
  exists k, z, r, c, c'. destruct Hz as (? & ? & _). done.
Qed.

Lemma auctionLRP_step_cases st a :
  (exists e, auctionLRP_step cfg st a = lrp_failed st (la_fail a e)) \/
  (exists k z r c c' w, exceededInflightContainerCreation cfg (ss_inflight st) = false /\
     in_zones (ss_zs st) k z r c /\ Cell_ReserveLRP c (la_LRP a) = Ok c' /\
     la_LRP w = SchedulingLRP_Copy (la_LRP a) /\
     auctionLRP_step cfg st a =
       mkSchedState (update_cell (ss_zs st) r c') (<[la_id w := w]> (ss_successfulLRPs st))
         (<[la_id a := a]> (ss_lrpLookup st)) (ss_successfulTasks st) (ss_taskLookup st)
         (ss_failedLRPs st) (ss_failedTasks st) (i64 (ss_inflight st + 1)) (S (ss_tick st))).
Proof.
  unfold auctionLRP_step. destruct (exceededInflightContainerCreation _ _) eqn:Hex; [left; eauto|].
  destruct (scheduleLRPAuction _ _ _ _) as [[w zs']|e] eqn:E; [right|left; eauto].
  destruct (scheduleLRPAuction_home _ _ _ _ _ E) as (k & z & r & c & c' & Hz & Hr & Hw & ->).
  exists k, z, r, c, c', w. done.
Qed.

Lemma auctionTask_step_cases st a :
  zs_zones (ss_zs st) <> ∅ ->
  (exists e, auctionTask_step cfg st a = Some (task_failed st (ta_fail a e))) \/
  (exists k z r c c' w, exceededInflightContainerCreation cfg (ss_inflight st) = false /\
     in_zones (ss_zs st) k z r c /\ Cell_ReserveTask c (ta_Task a) = Ok c' /\
     ta_Task w = ta_Task a /\
     auctionTask_step cfg st a = Some (
       mkSchedState (update_cell (ss_zs st) r c') (ss_successfulLRPs st) (ss_lrpLookup st)
         (<[ta_id w := w]> (ss_successfulTasks st)) (<[ta_id a := a]> (ss_taskLookup st))
         (ss_failedLRPs st) (ss_failedTasks st) (i64 (ss_inflight st + 1)) (S (ss_tick st)))).
Proof.
  intros Hne. unfold auctionTask_step.
  destruct (exceededInflightContainerCreation _ _) eqn:Hex; [left; eauto|].
  destruct (scheduleTaskAuction _ _ _ _) as [[w zs']|[e|]] eqn:E; [right|left; eauto|].
  - destruct (scheduleTaskAuction_ok _ _ _ _ _ _ E)
      as (k & z & r & c & c' & s & Hz & _ & _ & _ & Hr & -> & -> & _).
    exists k, z, r, c, c'. exists (mkTaskAuction (ta_Task a) (with_Winner (ta_Rec a) (cell_Guid c))). done.
  - destruct (scheduleTaskAuction_err _ _ _ _ _ E) as [_ Hn]. by destruct (Hne (Hn eq_refl)).
Qed.

(** [seenL] and [seenT] are the auctions held so far. *)
Record sched_inv (zs0 : Zones) (st : SchedState) (seenL : list LRPAuction)
    (seenT : list TaskAuction) : Prop := {
  inv_good : good_zones (ss_zs st);
  inv_nonempty : zs_zones (ss_zs st) <> ∅;
  inv_lrps : balanced (SchedulingLRP_Copy ∘ la_LRP) SchedulingLRP_Identifier
    (ss_successfulLRPs st) (ss_lrpLookup st) (ss_failedLRPs st) seenL;
  inv_tasks : balanced ta_Task SchedulingTask_Identifier
    (ss_successfulTasks st) (ss_taskLookup st) (ss_failedTasks st) seenT;
  inv_reserved_lrps :
    SchedulingLRP_Identifier <$> reserved_lrps (ss_zs st) ≡ₚ keys (ss_successfulLRPs st);
  inv_reserved_tasks :
    SchedulingTask_Identifier <$> reserved_tasks (ss_zs st) ≡ₚ keys (ss_successfulTasks st);
  inv_steps :
    Forall (fun a => Resource_Valid (lrp_Res (la_LRP a)) = true) seenL ->
    Forall (fun a => Resource_Valid (task_Res (ta_Task a)) = true) seenT ->
    rtc reserve_step zs0 (ss_zs st) }.

Lemma sched_inv_lrp zs0 st seenL seenT a :
  sched_inv zs0 st seenL seenT -> la_id a ∉ la_id <$> seenL ->
  sched_inv zs0 (auctionLRP_step cfg st a) (seenL ++ [a]) seenT.
Proof.
  intros [Hgood Hne HL HT RL RT Hst] Hf.
  pose proof (balanced_fresh _ _ _ _ _ _ HL a Hf) as Hn.
  destruct (auctionLRP_step_cases st a) as
    [(e & ->)|(k & z & r & c & c' & w & _ & Hz & Hr & Hw & ->)].
  - split; simpl; try done.
    + by apply (balanced_fail _ _ _ _ _ _ HL a (la_fail a e)).
    + intros [? _]%Forall_app ?. auto.
  - destruct (reserve_lrp_good _ _ _ _ _ _ _ Hgood Hz Hr) as (Hg & Hl & Ht).
    assert (la_id w = la_id a) as -> by (unfold la_id; by rewrite Hw).
    split; simpl; try done.
    + apply (balanced_succ _ _ _ _ _ _ HL a w Hf). simpl. by rewrite Hw.
    + rewrite Hl, fmap_cons, RL. by rewrite keys_insert.
    + by rewrite Ht.
    + intros [HvL Hva]%Forall_app HvT. apply rtc_r with (ss_zs st); [auto|].
      apply Forall_cons in Hva as [Hva _]. eapply reserve_lrp_step; [exact Hz|exact Hva|exact Hr].
Qed.

Lemma sched_inv_task zs0 st seenL seenT a :
  sched_inv zs0 st seenL seenT -> ta_id a ∉ ta_id <$> seenT ->
  exists st', auctionTask_step cfg st a = Some st' /\ sched_inv zs0 st' seenL (seenT ++ [a]).
Proof.
  intros [Hgood Hne HL HT RL RT Hst] Hf.
  pose proof (balanced_fresh _ _ _ _ _ _ HT a Hf) as Hn.
  destruct (auctionTask_step_cases st a Hne) as
    [(e & ->)|(k & z & r & c & c' & w & _ & Hz & Hr & Hw & ->)]; eexists; (split; [done|]).
  - split; simpl; try done.
    + by apply (balanced_fail _ _ _ _ _ _ HT a (ta_fail a e)).
    + intros ? [? _]%Forall_app. auto.
  - destruct (reserve_task_good _ _ _ _ _ _ _ Hgood Hz Hr) as (Hg & Hl & Ht).
    assert (ta_id w = ta_id a) as -> by (unfold ta_id; by rewrite Hw).
    split; simpl; try done.
    + by apply (balanced_succ _ _ _ _ _ _ HT a w Hf).
    + by rewrite Hl.
    + rewrite Ht, fmap_cons, RT. by rewrite keys_insert.
    + intros HvL [HvT Hva]%Forall_app. apply rtc_r with (ss_zs st); [auto|].
      apply Forall_cons in Hva as [Hva _]. eapply reserve_task_step; [exact Hz|exact Hva|exact Hr].
Qed.
Lemma sched_inv_auctionLRP zs0 l st seenL seenT :
  sched_inv zs0 st seenL seenT -> NoDup (la_id <$> (seenL ++ l)) ->
  sched_inv zs0 (auctionLRP cfg st l) (seenL ++ l) seenT.
Proof.
  revert st seenL. induction l as [|a l IH]; intros st seenL Hinv Hnd; simpl.
  - by rewrite app_nil_r.
  - rewrite (cons_middle a seenL l), app_assoc in Hnd |- *. apply IH; [|done].
    apply sched_inv_lrp; [done|]. rewrite !fmap_app in Hnd.
    apply NoDup_app in Hnd as [(_ & Hdis & _)%NoDup_app _]. set_solver.
Qed.

Lemma sched_inv_auctionTasks zs0 l st seenL seenT :
  sched_inv zs0 st seenL seenT -> NoDup (ta_id <$> (seenT ++ l)) ->
  exists st', auctionTasks cfg st l = Some st' /\ sched_inv zs0 st' seenL (seenT ++ l).
Proof.
  revert st seenT. induction l as [|a l IH]; intros st seenT Hinv Hnd.
  - exists st. by rewrite app_nil_r.
  - rewrite (cons_middle a seenT l), app_assoc in Hnd |- *.
    destruct (sched_inv_task zs0 st seenL seenT a Hinv) as (st1 & Hs & Hinv1).
    { rewrite !fmap_app in Hnd. apply NoDup_app in Hnd as [(_ & Hdis & _)%NoDup_app _]. set_solver. }
    destruct (IH st1 _ Hinv1 Hnd) as (st2 & Hst2 & Hinv2). exists st2. split; [|done].
    unfold auctionTasks in *. csimpl. by rewrite Hs.
Qed.
End auctions.

(** ** The order of the auctions *)

Definition lrp_index (a : LRPAuction) : Z := key_Index (lrp_Key (la_LRP a)).

Lemma LRPLess_order a b :
  SortableLRPAuctions_Less b a = false ->
  (lrp_index a < lrp_index b \/ lrp_index a = lrp_index b /\
    r_MemoryMB (lrp_Res (la_LRP b)) <= r_MemoryMB (lrp_Res (la_LRP a)))%Z.
Proof. unfold SortableLRPAuctions_Less, lrp_index. case_match; lia. Qed.

Lemma splitLRPS_cases lrps :
  (Forall (fun a => lrp_index a <= 0)%Z lrps /\ splitLRPS lrps = ([], lrps)) \/
  (exists before a after, lrps = before ++ a :: after /\ splitLRPS lrps = (before, a :: after) /\
     Forall (fun a => lrp_index a <= 0)%Z before /\ (0 < lrp_index a)%Z).
Proof.
  unfold splitLRPS, lrp_index.
  assert (forall pre l, pre ++ l = lrps -> Forall (fun a => lrp_index a <= 0)%Z pre ->
    let s := (fix loop (idx : nat) (l : list LRPAuction) : list LRPAuction * list LRPAuction :=
      match l with
      | [] => (take 0 lrps, drop 0 lrps)
      | lrp :: l' =>
          if (0 <? key_Index (lrp_Key (la_LRP lrp)))%Z
          then (take idx lrps, drop idx lrps)
          else loop (S idx) l'
      end) (length pre) l in
    (Forall (fun a => lrp_index a <= 0)%Z lrps /\ s = ([], lrps)) \/
    (exists before a after, lrps = before ++ a :: after /\ s = (before, a :: after) /\
       Forall (fun a => lrp_index a <= 0)%Z before /\ (0 < lrp_index a)%Z)) as Hgen; [|apply (Hgen [] lrps); done].
  intros pre l. revert pre. induction l as [|a l IH]; intros pre Hl Hpre; simpl.
  - left. rewrite app_nil_r in Hl. by subst pre.
  - destruct (Z.ltb_spec 0 (key_Index (lrp_Key (la_LRP a)))).
    + right. exists pre, a, l. subst lrps. by rewrite take_app_length, drop_app_length.
    + specialize (IH (pre ++ [a])). rewrite length_app in IH. simpl in IH.
      rewrite Nat.add_1_r in IH. apply IH.
      * by rewrite <-app_assoc.
      * apply Forall_app. split; [done|]. by apply Forall_singleton.
Qed.

Lemma splitLRPS_app lrps : (splitLRPS lrps).1 ++ (splitLRPS lrps).2 = lrps.
Proof.
  destruct (splitLRPS_cases lrps) as [[_ ->]|(b & a & af & Heq & -> & _)]; done.
Qed.

(** the order of the auctions.  LRPs are sorted by index, larger memory
    first among equals.  When some LRP has an index above 0, the split is at the
    pivot: exactly the LRPs with index at most 0 are auctioned before the tasks.
    When none has, all LRPs are auctioned after the tasks. *)
Theorem auction_order `{!GoSort SortableLRPAuctions_Less} lrps :
  let sorted := go_sort SortableLRPAuctions_Less lrps in
  let '(before, after) := splitLRPS sorted in
  sorted = before ++ after /\
  StronglySorted (fun a b => lrp_index a < lrp_index b \/ lrp_index a = lrp_index b /\
    r_MemoryMB (lrp_Res (la_LRP b)) <= r_MemoryMB (lrp_Res (la_LRP a)))%Z sorted /\
  ((exists a, a ∈ lrps /\ (0 < lrp_index a)%Z) ->
     Forall (fun a => lrp_index a <= 0)%Z before /\ Forall (fun a => 0 < lrp_index a)%Z after) /\
  ((forall a, a ∈ lrps -> (lrp_index a <= 0)%Z) -> before = [] /\ after = sorted).
Proof.
  cbv zeta. pose proof (go_sort_perm (less := SortableLRPAuctions_Less) lrps) as Hp.
  pose proof (go_sort_sorted (less := SortableLRPAuctions_Less) lrps) as Hs.
  set (l := go_sort SortableLRPAuctions_Less lrps) in *.
  assert (StronglySorted (fun a b => lrp_index a < lrp_index b \/ lrp_index a = lrp_index b /\
    r_MemoryMB (lrp_Res (la_LRP b)) <= r_MemoryMB (lrp_Res (la_LRP a)))%Z l) as Hs'.
  { clear Hp. induction Hs as [|a l' _ IH Hf]; constructor; [done|].
    eapply Forall_impl; [exact Hf|]. intros b Hb. by apply LRPLess_order. }
  destruct (splitLRPS_cases l) as [[Hall ->]|(before & a & after & Hl & -> & Hb & Ha)].
  - split_and!; try done. intros (a & Hin & Ha). rewrite <-Hp in Hin.
    rewrite Forall_forall in Hall. specialize (Hall a Hin). lia.
  - split_and!; try done.
    + intros _. split; [done|]. rewrite Hl in Hs'. apply StronglySorted_app_1_r in Hs'.
      apply StronglySorted_inv in Hs' as [_ Hf]. constructor; [done|].
      eapply Forall_impl; [exact Hf|]. intros b Hb'. simpl in Hb'. lia.
    + intros Hn. specialize (Hn a). rewrite <-Hp, Hl in Hn. specialize (Hn ltac:(set_solver)). lia.
Qed.

Section hold.
Context `{UrlParser} `{!MapRange string} `{!GoSort lrpByZone_Less}.
Context `{!GoSort SortableLRPAuctions_Less} `{!GoSort SortableTaskAuctions_Less}.
Context (cfg : Config) (zs0 : Zones) (req : AuctionRequest).

Abbreviation sorted_lrps := (go_sort SortableLRPAuctions_Less (req_LRPs req)).
Abbreviation sorted_tasks := (go_sort SortableTaskAuctions_Less (req_Tasks req)).

(** Zones as the zone builder leaves them: nothing is reserved yet. *)
Definition unreserved (zs : Zones) : Prop :=
  forall c, c ∈ zone_cells zs ->
    work_LRPs (cell_workToCommit c) = [] /\ work_Tasks (cell_workToCommit c) = [].

Lemma initial_inv :
  good_zones zs0 -> zs_zones zs0 <> ∅ -> unreserved zs0 -> sched_inv zs0 (initial_state zs0) [] [].
Proof.
  intros Hg Hne Hun. split; simpl; try done.
  - unfold reserved_lrps.
    rewrite (Forall_bind_nil (fun c => work_LRPs (cell_workToCommit c))); [done|].
    intros c Hc. by apply Hun.
  - unfold reserved_tasks.
    rewrite (Forall_bind_nil (fun c => work_Tasks (cell_workToCommit c))); [done|].
    intros c Hc. by apply Hun.
Qed.

Lemma hold_auctions_inv :
  good_zones zs0 -> zs_zones zs0 <> ∅ -> unreserved zs0 ->
  NoDup (la_id <$> req_LRPs req) -> NoDup (ta_id <$> req_Tasks req) ->
  exists st, hold_auctions cfg zs0 req = Some st /\ sched_inv zs0 st sorted_lrps sorted_tasks.
Proof.
  intros Hg Hne Hun HL HT. unfold hold_auctions.
  rewrite <-(go_sort_perm (less := SortableLRPAuctions_Less)) in HL.
  rewrite <-(go_sort_perm (less := SortableTaskAuctions_Less)) in HT.
  pose proof (splitLRPS_app sorted_lrps) as Hsplit.
  destruct (splitLRPS sorted_lrps) as [l1 l2]. simpl in Hsplit.
  pose proof HL as HL1. rewrite <-Hsplit, fmap_app in HL1. apply NoDup_app in HL1 as (HL1 & _ & _).
  pose proof (sched_inv_auctionLRP cfg zs0 l1 _ _ _ (initial_inv Hg Hne Hun) HL1) as Hinv1.
  destruct (sched_inv_auctionTasks cfg zs0 sorted_tasks _ _ _ Hinv1 HT) as (st2 & -> & Hinv2).
  csimpl. eexists. split; [done|]. rewrite <-Hsplit.
  apply sched_inv_auctionLRP; [done|]. by rewrite Hsplit.
Qed.
End hold.

(** ** Collecting the failed work *)

Record collect_inv (st : SchedState) (seenL : list LRPAuction) (seenT : list TaskAuction)
    (pendL pendT : list string) : Prop := {
  col_lrps : balanced (SchedulingLRP_Copy ∘ la_LRP) SchedulingLRP_Identifier
    (ss_successfulLRPs st) (ss_lrpLookup st) (ss_failedLRPs st) seenL;
  col_tasks : balanced ta_Task SchedulingTask_Identifier
    (ss_successfulTasks st) (ss_taskLookup st) (ss_failedTasks st) seenT;
  col_pendL : pendL ⊆+ keys (ss_successfulLRPs st);
  col_pendT : pendT ⊆+ keys (ss_successfulTasks st) }.

Lemma pending_delete {A} (m : gmap string A) id pend :
  id :: pend ⊆+ keys m -> id ∈ keys m /\ pend ⊆+ keys (delete id m).
Proof.
  intros Hs. assert (id ∈ keys m) as Hin by (apply (elem_of_submseteq (id :: pend)); set_solver).
  split; [done|]. apply elem_of_keys in Hin as [v Hv].
  apply submseteq_Permutation in Hs as [k Hk]. rewrite (keys_delete _ _ _ Hv) in Hk.
  apply Permutation_cons_inv in Hk. rewrite Hk. by apply submseteq_inserts_r.
Qed.

Section collect.
Context (seenL : list LRPAuction) (seenT : list TaskAuction).

Lemma collect_lrp_inv st l pendL pendT :
  collect_inv st seenL seenT (SchedulingLRP_Identifier l :: pendL) pendT ->
  exists st', collect_failed_lrp st l = Some st' /\ collect_inv st' seenL seenT pendL pendT.
Proof.
  intros [HL HT [Hin Hp]%pending_delete HpT]. unfold collect_failed_lrp.
  destruct (balanced_collect _ _ _ _ _ _ HL _ Hin) as (a & -> & HL').
  csimpl. eexists. by split; [|split].
Qed.

Lemma collect_task_inv st t pendL pendT :
  collect_inv st seenL seenT pendL (SchedulingTask_Identifier t :: pendT) ->
  exists st', collect_failed_task st t = Some st' /\ collect_inv st' seenL seenT pendL pendT.
Proof.
  intros [HL HT HpL [Hin Hp]%pending_delete]. unfold collect_failed_task.
  destruct (balanced_collect _ _ _ _ _ _ HT _ Hin) as (a & -> & HT').
  csimpl. eexists. by split; [|split].
Qed.

Lemma collect_lrps_inv ls st pendL pendT :
  collect_inv st seenL seenT ((SchedulingLRP_Identifier <$> ls) ++ pendL) pendT ->
  exists st', foldl (fun ost l => st ← ost; collect_failed_lrp st l) (Some st) ls = Some st' /\
    collect_inv st' seenL seenT pendL pendT.
Proof.
  revert st. induction ls as [|l ls IH]; intros st Hinv; [by exists st|].
  destruct (collect_lrp_inv _ _ _ _ Hinv) as (st1 & Hs & Hinv1). csimpl. rewrite Hs. by apply IH.
Qed.

Lemma collect_tasks_inv ts st pendL pendT :
  collect_inv st seenL seenT pendL ((SchedulingTask_Identifier <$> ts) ++ pendT) ->
  exists st', foldl (fun ost t => st ← ost; collect_failed_task st t) (Some st) ts = Some st' /\
    collect_inv st' seenL seenT pendL pendT.
Proof.
  revert st. induction ts as [|t ts IH]; intros st Hinv; [by exists st|].
  destruct (collect_task_inv _ _ _ _ Hinv) as (st1 & Hs & Hinv1). csimpl. rewrite Hs. by apply IH.
Qed.

Lemma collect_works_inv works st :
  collect_inv st seenL seenT (SchedulingLRP_Identifier <$> (works ≫= work_LRPs))
    (SchedulingTask_Identifier <$> (works ≫= work_Tasks)) ->
  exists st', foldl (fun ost w => st ← ost; collect_failed_work st w) (Some st) works = Some st' /\
    collect_inv st' seenL seenT [] [].
Proof.
  revert st. induction works as [|w works IH]; intros st Hinv; [by exists st|].
  csimpl in Hinv. rewrite !fmap_app in Hinv.
  destruct (collect_lrps_inv _ _ _ _ Hinv) as (st1 & Hs1 & Hinv1).
  destruct (collect_tasks_inv _ _ _ _ Hinv1) as (st2 & Hs2 & Hinv2).
  csimpl. unfold collect_failed_work at 2. rewrite Hs1. csimpl. rewrite Hs2. by apply IH.
Qed.
End collect.

Lemma bind_submseteq {A B} (f g : A -> list B) l :
  (forall x, x ∈ l -> f x ⊆+ g x) -> (l ≫= f) ⊆+ (l ≫= g).
Proof.
  induction l as [|x l IH]; intros Hl; [done|]. csimpl. apply submseteq_app.
  - apply Hl. set_solver.
  - apply IH. set_solver.
Qed.

Lemma NoDup_bind_part {A B C} (g : B -> C) (f : A -> list B) l x :
  NoDup (g <$> (l ≫= f)) -> x ∈ l -> NoDup (g <$> f x).
Proof.
  intros Hnd (l1 & l2 & ->)%list_elem_of_split. rewrite bind_app, fmap_app in Hnd. csimpl in Hnd.
  rewrite fmap_app in Hnd. apply NoDup_app in Hnd as (_ & _ & Hnd). by apply NoDup_app in Hnd as (? & _).
Qed.

Lemma deref_cells h z : snd <$> deref h z = omap (fun r => h !! r) z.
Proof. induction z as [|r z IH]; [done|]. csimpl. destruct (h !! r); csimpl; by rewrite <-IH. Qed.

Lemma bind_fmap_omap {A B C} (g : B -> C) (f : A -> option B) (ls : list (list A)) :
  (ls ≫= fun l => g <$> omap f l) = g <$> omap f (mjoin ls).
Proof. induction ls as [|l ls IH]; [done|]. csimpl. by rewrite IH, omap_app, fmap_app. Qed.

Lemma fmap_bind {A B C} (f : A -> B) (g : B -> list C) l : (f <$> l) ≫= g = l ≫= (fun x => g (f x)).
Proof. induction l as [|x l IH]; [done|]. csimpl. by rewrite IH. Qed.

Lemma commitCells_perm `{!MapRange string} `{!WorkOrder} t zs :
  commitCells t zs ≡ₚ Cell_Commit <$> zone_cells zs.
Proof.
  unfold commitCells. rewrite finish_order_perm, range_over_perm.
  unfold zone_cells, zone_refs, map_concat. rewrite <-bind_fmap_omap.
  assert (forall ls, (ls ≫= fun z => (fun rc => Cell_Commit rc.2) <$> deref (zs_heap zs) z) =
    (ls ≫= fun z => Cell_Commit <$> omap (fun r => zs_heap zs !! r) z)) as ->; [|done].
  intros ls. apply list_bind_ext; [|done]. intros z. by rewrite <-deref_cells, <-list_fmap_compose.
Qed.

Section schedule_all.
Context `{UrlParser} `{!MapRange string} `{!GoSort lrpByZone_Less}.
Context `{!GoSort SortableLRPAuctions_Less} `{!GoSort SortableTaskAuctions_Less} `{!WorkOrder}.
Context (cfg : Config).

(** Committing hands back only work that had been placed. *)
Lemma commit_collect_inv zs0 t st seenL seenT :
  sched_inv zs0 st seenL seenT ->
  collect_inv st seenL seenT
    (SchedulingLRP_Identifier <$> (commitCells t (ss_zs st) ≫= work_LRPs))
    (SchedulingTask_Identifier <$> (commitCells t (ss_zs st) ≫= work_Tasks)).
Proof.
  intros [[Hwf Hrep] Hne HL HT RL RT _].
  assert (forall c, c ∈ zone_cells (ss_zs st) ->
            NoDup (SchedulingTask_Identifier <$> work_Tasks (cell_workToCommit c))) as Hnd.
  { intros c. apply (NoDup_bind_part _ (fun c => work_Tasks (cell_workToCommit c))).
    fold (reserved_tasks (ss_zs st)). rewrite RT. apply keys_nodup. }
  split; [done..| |].
  - rewrite <-RL, commitCells_perm, fmap_bind. apply fmap_submseteq, bind_submseteq.
    intros c Hc. apply Commit_submseteq; auto.
  - rewrite <-RT, commitCells_perm, fmap_bind. apply fmap_submseteq, bind_submseteq.
    intros c Hc. apply Commit_submseteq; auto.
Qed.

(** The LRPs and tasks of a list of results, marked or not. *)
Lemma mark_lrps_pay now (l1 l2 : list LRPAuction) :
  SchedulingLRP_Copy ∘ la_LRP <$> ((mark_successful_lrp now <$> l1) ++ (mark_failed_lrp <$> l2)) =
  SchedulingLRP_Copy ∘ la_LRP <$> (l1 ++ l2).
Proof. rewrite !fmap_app, <-!list_fmap_compose. done. Qed.

Lemma mark_tasks_pay now (l1 l2 : list TaskAuction) :
  ta_Task <$> ((mark_successful_task now <$> l1) ++ (mark_failed_task <$> l2)) = ta_Task <$> (l1 ++ l2).
Proof. rewrite !fmap_app, <-!list_fmap_compose. done. Qed.

Lemma Schedule_balanced now zs req :
  good_zones zs -> unreserved zs ->
  NoDup (la_id <$> req_LRPs req) -> NoDup (ta_id <$> req_Tasks req) ->
  exists res, Schedule cfg now zs req = Some res /\
    SchedulingLRP_Copy ∘ la_LRP <$> (res_SuccessfulLRPs res ++ res_FailedLRPs res)
      ≡ₚ SchedulingLRP_Copy ∘ la_LRP <$> req_LRPs req /\
    ta_Task <$> (res_SuccessfulTasks res ++ res_FailedTasks res) ≡ₚ ta_Task <$> req_Tasks req.
Proof.
  intros Hg Hun HL HT. unfold Schedule. case_bool_decide as Hsz.
  { eexists. split; [done|]. csimpl. rewrite <-!list_fmap_compose. done. }
  assert (zs_zones zs <> ∅) as Hne by (intros E; rewrite E in Hsz; done).
  destruct (hold_auctions_inv cfg zs req Hg Hne Hun HL HT) as (st & -> & Hinv). csimpl.
  destruct (collect_works_inv _ _ _ _ (commit_collect_inv zs (ss_tick st) st _ _ Hinv))
    as (st' & -> & [HL' HT' _ _]). csimpl.
  eexists. split; [done|]. csimpl. rewrite mark_lrps_pay, mark_tasks_pay, !range_over_perm.
  pose proof (bal_perm _ _ _ _ _ _ HL') as P1. pose proof (bal_perm _ _ _ _ _ _ HT') as P2.
  rewrite go_sort_perm in P1. rewrite go_sort_perm in P2. done.
Qed.

(** C1: Scheduling never panics and conserves the request.  Given zones as the
    zone builder makes them, requests without two jobs of one identifier, and
    reps that fail or hand back part of the work they were given ([RepContract];
    one that hands back anything else makes the scheduler panic, see
    [foreign_work_panics]), [Schedule] returns results in which every requested
    LRP and every requested task appears exactly once, as successful or as
    failed, in whatever order maps are ranged and workers finish.  LRPs are
    compared through [Copy], which winners went through. *)
Theorem Schedule_conservation now zs req :
  good_zones zs -> unreserved zs ->
  NoDup (la_id <$> req_LRPs req) -> NoDup (ta_id <$> req_Tasks req) ->
  exists res, Schedule cfg now zs req = Some res /\
    SchedulingLRP_Copy ∘ la_LRP <$> (res_SuccessfulLRPs res ++ res_FailedLRPs res)
      ≡ₚ SchedulingLRP_Copy ∘ la_LRP <$> req_LRPs req /\
    ta_Task <$> (res_SuccessfulTasks res ++ res_FailedTasks res) ≡ₚ ta_Task <$> req_Tasks req.
Proof. apply Schedule_balanced. Qed.
Lemma hold_within_budget zs req :
  good_zones zs -> zs_zones zs <> ∅ -> unreserved zs ->
  NoDup (la_id <$> req_LRPs req) -> NoDup (ta_id <$> req_Tasks req) ->
  Forall (fun a => Resource_Valid (lrp_Res (la_LRP a)) = true) (req_LRPs req) ->
  Forall (fun a => Resource_Valid (task_Res (ta_Task a)) = true) (req_Tasks req) ->
  exists st, hold_auctions cfg zs req = Some st /\ within_budget zs (ss_zs st).
Proof.
  intros Hg Hne Hun HL HT VL VT.
  destruct (hold_auctions_inv cfg zs req Hg Hne Hun HL HT) as (st & -> & Hinv).
  exists st. split; [done|]. apply within_budget_rtc, (inv_steps _ _ _ _ Hinv).
  - by rewrite go_sort_perm.
  - by rewrite go_sort_perm.
Qed.

(** C18: No cell is promised more than it has.  When every requested resource is
    valid and a cell starts with sane resources, then after all auctions its
    remaining memory, disk and containers are still non-negative, and what is
    left plus what is reserved on it is exactly what it started with. *)
Theorem auctions_within_capacity zs req :
  good_zones zs -> zs_zones zs <> ∅ -> unreserved zs ->
  NoDup (la_id <$> req_LRPs req) -> NoDup (ta_id <$> req_Tasks req) ->
  Forall (fun a => Resource_Valid (lrp_Res (la_LRP a)) = true) (req_LRPs req) ->
  Forall (fun a => Resource_Valid (task_Res (ta_Task a)) = true) (req_Tasks req) ->
  exists st, hold_auctions cfg zs req = Some st /\
    forall r c', zs_heap (ss_zs st) !! r = Some c' ->
      exists c, zs_heap zs !! r = Some c /\
        (capacity_ok c -> capacity_ok c' /\ budget c' = budget c).
Proof. apply hold_within_budget. Qed.
End schedule_all.

(** ** The limit on starting containers *)

Lemma initial_inflight_range `{!MapRange string} t zs : in_i64 (initial_inflight t zs).
Proof.
  unfold initial_inflight. apply foldl_inv; [unfold in_i64; lia|]. intros n [k z] Hn. apply foldl_inv; [done|].
  intros. apply i64_range.
Qed.

Section inflight.
Context `{UrlParser} `{!MapRange string} `{!GoSort lrpByZone_Less}.
Context `{!GoSort SortableLRPAuctions_Less} `{!GoSort SortableTaskAuctions_Less}.
Context (cfg : Config).

Abbreviation maximum := (startingContainerCountMaximum cfg).
Context (Hpos : (0 < maximum)%Z) (Hmax : in_i64 maximum).

(** [n0] containers were starting; each placement since then started below the
    maximum. *)
Definition inflight_ok (n0 : Z) (st : SchedState) : Prop :=
  (n0 <= ss_inflight st)%Z /\ in_i64 (ss_inflight st) /\
  (ss_inflight st = n0 \/ ss_inflight st <= maximum)%Z /\
  (Z.of_nat (size (ss_successfulLRPs st)) + Z.of_nat (size (ss_successfulTasks st))
     <= ss_inflight st - n0)%Z.

Lemma not_exceeded n : exceededInflightContainerCreation cfg n = false -> (n < maximum)%Z.
Proof. unfold exceededInflightContainerCreation. rewrite andb_false_iff. lia. Qed.

Lemma size_insert_le {A} (m : gmap string A) k v : size (<[k:=v]> m) <= S (size m).
Proof. rewrite map_size_insert. case_match; unfold id; lia. Qed.

Lemma inflight_lrp n0 st a : inflight_ok n0 st -> inflight_ok n0 (auctionLRP_step cfg st a).
Proof.
  intros (H1 & H2 & H3 & H4).
  destruct (auctionLRP_step_cases cfg st a) as
    [(e & ->)|(k & z & r & c & c' & w & Hex%not_exceeded & _ & _ & _ & ->)]; [done|].
  unfold inflight_ok in *. simpl. rewrite i64_id by (unfold in_i64 in *; lia).
  pose proof (size_insert_le (ss_successfulLRPs st) (la_id w) w). unfold in_i64 in *. lia.
Qed.

Lemma inflight_task n0 st a st' :
  inflight_ok n0 st -> auctionTask_step cfg st a = Some st' -> inflight_ok n0 st'.
Proof.
  unfold auctionTask_step. intros (H1 & H2 & H3 & H4).
  destruct (exceededInflightContainerCreation _ _) eqn:Hex; [intros [= <-]; done|].
  apply not_exceeded in Hex.
  destruct (scheduleTaskAuction _ _ _ _) as [[w zs']|[e|]]; [|intros [= <-]; done|done].
  intros [= <-]. unfold inflight_ok in *. simpl. rewrite i64_id by (unfold in_i64 in *; lia).
  pose proof (size_insert_le (ss_successfulTasks st) (ta_id w) w). unfold in_i64 in *. lia.
Qed.

Lemma inflight_auctionLRP n0 l st : inflight_ok n0 st -> inflight_ok n0 (auctionLRP cfg st l).
Proof.
  revert st. induction l as [|a l IH]; intros st Hok; [done|]. by apply IH, inflight_lrp.
Qed.

Lemma foldl_bind_None {A B} (f : A -> B -> option A) l :
  foldl (fun o b => a ← o; f a b) None l = None.
Proof. by induction l. Qed.

Lemma inflight_auctionTasks n0 l st st' :
  inflight_ok n0 st -> auctionTasks cfg st l = Some st' -> inflight_ok n0 st'.
Proof.
  revert st. unfold auctionTasks. induction l as [|a l IH]; intros st Hok; [by intros [= <-]|].
  csimpl. destruct (auctionTask_step cfg st a) as [st1|] eqn:E; [|by rewrite foldl_bind_None].
  apply IH. by eapply inflight_task.
Qed.

(** With a limit set, the LRPs and tasks placed by one request together with
    the containers already starting do not exceed the limit; when they already
    exceed it, nothing is placed. *)
Theorem inflight_limit zs req st :
  hold_auctions cfg zs req = Some st ->
  (Z.of_nat (size (ss_successfulLRPs st)) + Z.of_nat (size (ss_successfulTasks st))
     <= Z.max 0 (maximum - initial_inflight 0 zs))%Z.
Proof.
  unfold hold_auctions. destruct (splitLRPS _) as [l1 l2].
  destruct (auctionTasks _ _ _) as [st2|] eqn:E; [|done]. csimpl. intros [= <-].
  set (n0 := initial_inflight 0 zs).
  enough (inflight_ok n0 (auctionLRP cfg st2 l2)) as (? & _ & ? & ?) by lia.
  apply inflight_auctionLRP. eapply inflight_auctionTasks; [|exact E].
  apply inflight_auctionLRP. unfold inflight_ok. simpl.
  split; [done|]. split; [apply initial_inflight_range|]. split; [by left|].
  unfold n0. rewrite !map_size_empty. lia.
Qed.
End inflight.
