(* ===== verification/Batch.v ===== *)
(** * The batch of pending auctions

    [auction/auctionrunner/batch.go]: the auctions waiting for the next round,
    and the one-slot channel that wakes the runner. *)
From Stdlib Require Import ZArith Lia.
From S2P Require Import Prelude Models AuctionTypes.

(** The channel [HasWork] has room for one trace id. *)
Record Batch := mkBatch {
  b_lrpAuctions : list LRPAuction;
  b_taskAuctions : list TaskAuction;
  b_HasWork : option string }.

Definition NewBatch : Batch := mkBatch [] [] None.

(** A send on the channel that gives up when the slot is taken. *)
Definition claimToHaveWork (b : Batch) (traceID : string) : Batch :=
  match b_HasWork b with
  | None => mkBatch (b_lrpAuctions b) (b_taskAuctions b) (Some traceID)
  | Some _ => b
  end.

Definition lrp_auctions_of (now : Z) (start : LRPStartRequest) : list LRPAuction :=
  (fun index =>
     NewLRPAuction
       (NewSchedulingLRP "" (mkActualLRPKey (start_ProcessGuid start) (i32 index) (start_Domain start))
          (start_Res start) (start_PC start)) now)
  <$> start_Indices start.

(** The lock makes the update of the slice and the claim one step. *)
Definition Batch_AddLRPStarts (b : Batch) (now : Z) (starts : list LRPStartRequest)
    (traceID : string) : Batch :=
  claimToHaveWork
    (mkBatch (b_lrpAuctions b ++ (starts ≫= lrp_auctions_of now)) (b_taskAuctions b) (b_HasWork b))
    traceID.

Definition Batch_AddTasks (b : Batch) (now : Z) (tasks : list TaskStartRequest)
    (traceID : string) : Batch :=
  claimToHaveWork
    (mkBatch (b_lrpAuctions b)
       (b_taskAuctions b ++ ((fun t => NewTaskAuction (start_Task t) now) <$> tasks)) (b_HasWork b))
    traceID.

Definition Batch_DedupeAndDrain (b : Batch) : Batch * list LRPAuction * list TaskAuction :=
  (mkBatch [] [] None, dedupe la_id (b_lrpAuctions b), dedupe ta_id (b_taskAuctions b)).

(** ** Properties *)

(** draining leaves the batch empty with no claim of work, and returns for
    each identifier in it the auction that was added first, in the order they
    were added: a sublist with the same identifiers and none of them twice. *)
Theorem DedupeAndDrain_spec b :
  let '(b', lrps, tasks) := Batch_DedupeAndDrain b in
  b' = NewBatch /\
  lrps = firsts la_id ∅ (b_lrpAuctions b) /\ lrps `sublist_of` b_lrpAuctions b /\
  NoDup (la_id <$> lrps) /\ (forall i, i ∈ la_id <$> lrps <-> i ∈ la_id <$> b_lrpAuctions b) /\
  tasks = firsts ta_id ∅ (b_taskAuctions b) /\ tasks `sublist_of` b_taskAuctions b /\
  NoDup (ta_id <$> tasks) /\ (forall i, i ∈ ta_id <$> tasks <-> i ∈ ta_id <$> b_taskAuctions b).
Proof.
  simpl. rewrite !dedupe_firsts. split_and!; try done;
    (apply firsts_sublist || apply firsts_nodup || (intros i; rewrite firsts_ids; set_solver)).
Qed.
