(* ===== verification/AuctionRunner.v ===== *)
(** * The auction runner

    [auction/auctionrunner/auction_runner.go], the delegate of
    [auctioneer/auctionrunnerdelegate] and the HTTP handlers of
    [auctioneer/handlers]: requests arrive while the runner's loop fetches the
    cells, drains the batch, schedules and reports. *)
From Stdlib Require Import ZArith Lia.
From S2P Require Import Prelude Float64 Models AuctionTypes Cell Zones Scheduler Placement ScheduleProps Batch.

(** ** The delegate *)

Record CellPresence := mkCellPresence {
  CellId : string;
  RepAddress : string;
  RepUrl : string }.

(** What the delegate asks the BBS to do with the failed jobs. *)
Inductive BBSCall :=
| RejectTask (taskGuid reason : string)
| FailActualLRP (key : ActualLRPKey) (reason : string).

Section delegate.
Context (CreateClient : string -> string -> result string RepClient).

Definition add_rep (cellReps : gmap string RepClient) (cell : CellPresence) : gmap string RepClient :=
  match CreateClient (RepAddress cell) (RepUrl cell) with
  | Err _ => cellReps
  | Ok client => <[CellId cell := client]> cellReps
  end.

(** [cells] is the answer of the BBS. *)
Definition FetchCellReps (cells : result string (list CellPresence))
    : result string (gmap string RepClient) :=
  match cells with
  | Err e => Err e
  | Ok cells => Ok (foldl add_rep ∅ cells)
  end.
End delegate.

Definition AuctionCompleted (results : AuctionResults) : list BBSCall :=
  ((fun t => RejectTask (task_TaskGuid (ta_Task t)) (rec_PlacementError (ta_Rec t)))
     <$> res_FailedTasks results) ++
  ((fun l => FailActualLRP (lrp_Key (la_LRP l)) (rec_PlacementError (la_Rec l)))
     <$> res_FailedLRPs results).

(** ** The HTTP handlers *)

Inductive Response :=
| StatusInternalServerError (err : string)
| StatusBadRequest (err : string)
| StatusAccepted.

Section handlers.
(** [json.Unmarshal] into the request types. *)
Context (unmarshal_starts : string -> result string (list LRPStartRequest)).
Context (unmarshal_tasks : string -> result string (list TaskStartRequest)).

Definition valid_starts (starts : list LRPStartRequest) : list LRPStartRequest :=
  filter (fun start => LRPStartRequest_Validate start = None) starts.
Definition valid_tasks (tasks : list TaskStartRequest) : list TaskStartRequest :=
  filter (fun t => TaskStartRequest_Validate t = None) tasks.

(** The response, and what is handed to the runner. *)
Definition LRPAuctionHandler_Create (body : result string string)
    : Response * option (list LRPStartRequest) :=
  match body with
  | Err e => (StatusInternalServerError e, None)
  | Ok payload =>
      match unmarshal_starts payload with
      | Err e => (StatusBadRequest e, None)
      | Ok starts => (StatusAccepted, Some (valid_starts starts))
      end
  end.

Definition TaskAuctionHandler_Create (body : result string string)
    : Response * option (list TaskStartRequest) :=
  match body with
  | Err e => (StatusInternalServerError e, None)
  | Ok payload =>
      match unmarshal_tasks payload with
      | Err e => (StatusBadRequest e, None)
      | Ok tasks => (StatusAccepted, Some (valid_tasks tasks))
      end
  end.
End handlers.

(** ** The loop of [Run] *)

(** Where the loop is.  [Select] carries the private channel that a failed fetch
    leaves behind; without one the loop listens on the batch's channel. *)
Inductive PC :=
| Select (private : option string)
| Fetching (work : string)
| Building (work : string) (clients : gmap string RepClient)
| Draining (work : string) (zones : Zones)
| Scheduling (work : string) (zones : Zones) (req : AuctionRequest)
| Stopped.

(** [completed] collects the requests that were scheduled with their results,
    [calls] what the delegate told the BBS. *)
Record Runner := mkRunner {
  run_batch : Batch;
  run_pc : PC;
  run_completed : list (AuctionRequest * AuctionResults);
  run_calls : list BBSCall }.

Definition NewRunner : Runner := mkRunner NewBatch (Select None) [] [].

Definition at_pc (s : Runner) (pc : PC) : Runner :=
  mkRunner (run_batch s) pc (run_completed s) (run_calls s).
Definition with_batch (s : Runner) (b : Batch) : Runner :=
  mkRunner b (run_pc s) (run_completed s) (run_calls s).

Section runner.
Context `{UrlParser} (cfg : Config).
Context (CreateClient : string -> string -> result string RepClient).
Context (unmarshal_starts : string -> result string (list LRPStartRequest)).
Context (unmarshal_tasks : string -> result string (list TaskStartRequest)).

(** Requests arrive at any time; the label is what they add. *)
Inductive post_step (s : Runner) : list LRPAuction -> list TaskAuction -> Runner -> Prop :=
| post_lrps now body trace starts :
    (LRPAuctionHandler_Create unmarshal_starts body).2 = Some starts ->
    post_step s (starts ≫= lrp_auctions_of now) []
      (with_batch s (Batch_AddLRPStarts (run_batch s) now starts trace))
| post_tasks now body trace tasks :
    (TaskAuctionHandler_Create unmarshal_tasks body).2 = Some tasks ->
    post_step s [] ((fun t => NewTaskAuction (start_Task t) now) <$> tasks)
      (with_batch s (Batch_AddTasks (run_batch s) now tasks trace)).

(** The runner's own steps.  Every round ranges over maps, sorts and finishes
    workers in an order of its own. *)
Inductive run_step (s : Runner) : Runner -> Prop :=
| run_receive work :
    run_pc s = Select None -> b_HasWork (run_batch s) = Some work ->
    run_step s (at_pc (with_batch s (mkBatch (b_lrpAuctions (run_batch s))
                                       (b_taskAuctions (run_batch s)) None)) (Fetching work))
| run_receive_private work :
    run_pc s = Select (Some work) -> run_step s (at_pc s (Fetching work))
| run_fetched work cells clients :
    run_pc s = Fetching work -> FetchCellReps CreateClient cells = Ok clients ->
    run_step s (at_pc s (Building work clients))
| run_built (R : MapRange string) (ZS : GoSort Zone_Less) work clients zones :
    run_pc s = Building work clients ->
    FetchStateAndBuildZones clients (binPackFirstFitWeight cfg) = Some zones ->
    run_step s (at_pc s (Draining work zones))
| run_nothing work zones b :
    run_pc s = Draining work zones -> Batch_DedupeAndDrain (run_batch s) = (b, [], []) ->
    run_step s (at_pc (with_batch s b) (Select None))
| run_drained work zones b lrps tasks :
    run_pc s = Draining work zones -> Batch_DedupeAndDrain (run_batch s) = (b, lrps, tasks) ->
    lrps <> [] \/ tasks <> [] ->
    run_step s (at_pc (with_batch s b) (Scheduling work zones (mkAuctionRequest lrps tasks)))
| run_scheduled (R : MapRange string) (ZS : GoSort lrpByZone_Less)
    (L : GoSort SortableLRPAuctions_Less) (T : GoSort SortableTaskAuctions_Less) (W : WorkOrder)
    now work zones req res :
    run_pc s = Scheduling work zones req -> Schedule cfg now zones req = Some res ->
    run_step s (mkRunner (run_batch s) (Select None) (run_completed s ++ [(req, res)])
                  (run_calls s ++ AuctionCompleted res)).

(** The BBS did not answer: the work goes into a private channel and is
    received again. *)
Inductive retry_step (s : Runner) : Runner -> Prop :=
| retry work cells e :
    run_pc s = Fetching work -> FetchCellReps CreateClient cells = Err e ->
    retry_step s (at_pc s (Select (Some work))).

Inductive stop_step (s : Runner) : Runner -> Prop :=
| stop private : run_pc s = Select private -> stop_step s (at_pc s Stopped).

(** Everything added so far, and the state reached. *)
Inductive reach : list LRPAuction -> list TaskAuction -> Runner -> Prop :=
| reach_new : reach [] [] NewRunner
| reach_post ls ts s ls' ts' s' : reach ls ts s -> post_step s ls' ts' s' -> reach (ls ++ ls') (ts ++ ts') s'
| reach_run ls ts s s' : reach ls ts s -> run_step s s' -> reach ls ts s'
| reach_retry ls ts s s' : reach ls ts s -> retry_step s s' -> reach ls ts s'
| reach_stop ls ts s s' : reach ls ts s -> stop_step s s' -> reach ls ts s'.

(** ** The invariant *)

Definition pending (s : Runner) : Prop :=
  b_lrpAuctions (run_batch s) <> [] \/ b_taskAuctions (run_batch s) <> [].

(** A drain of the batch is on its way. *)
Definition draining_soon (pc : PC) : Prop :=
  match pc with
  | Select (Some _) | Fetching _ | Building _ _ | Draining _ _ => True
  | _ => False
  end.

Definition pc_ok (pc : PC) : Prop :=
  match pc with
  | Building _ clients => forall g c, clients !! g = Some c -> RepContract c
  | Draining _ zones => good_zones zones /\ unreserved zones
  | Scheduling _ zones req =>
      good_zones zones /\ unreserved zones /\
      NoDup (la_id <$> req_LRPs req) /\ NoDup (ta_id <$> req_Tasks req)
  | _ => True
  end.

Definition in_flight_lrps (pc : PC) : list LRPAuction :=
  match pc with Scheduling _ _ req => req_LRPs req | _ => [] end.
Definition in_flight_tasks (pc : PC) : list TaskAuction :=
  match pc with Scheduling _ _ req => req_Tasks req | _ => [] end.

Definition reported_lrps (s : Runner) : list LRPAuction :=
  run_completed s ≫= fun rr => res_SuccessfulLRPs rr.2 ++ res_FailedLRPs rr.2.
Definition reported_tasks (s : Runner) : list TaskAuction :=
  run_completed s ≫= fun rr => res_SuccessfulTasks rr.2 ++ res_FailedTasks rr.2.

Definition valid_lrp (a : LRPAuction) : Prop := Resource_Valid (lrp_Res (la_LRP a)) = true.
Definition valid_task (a : TaskAuction) : Prop := Resource_Valid (task_Res (ta_Task a)) = true.

Record runner_inv (ls : list LRPAuction) (ts : list TaskAuction) (s : Runner) : Prop := {
  ri_wakeup : run_pc s <> Stopped -> pending s -> is_Some (b_HasWork (run_batch s)) \/ draining_soon (run_pc s);
  ri_pc : pc_ok (run_pc s);
  ri_lrps : forall i, i ∈ la_id <$> ls <->
    i ∈ la_id <$> b_lrpAuctions (run_batch s) \/ i ∈ la_id <$> in_flight_lrps (run_pc s) \/
    i ∈ la_id <$> reported_lrps s;
  ri_tasks : forall i, i ∈ ta_id <$> ts <->
    i ∈ ta_id <$> b_taskAuctions (run_batch s) \/ i ∈ ta_id <$> in_flight_tasks (run_pc s) \/
    i ∈ ta_id <$> reported_tasks s;
  ri_valid : Forall valid_lrp (b_lrpAuctions (run_batch s) ++ in_flight_lrps (run_pc s)) /\
             Forall valid_task (b_taskAuctions (run_batch s) ++ in_flight_tasks (run_pc s));
  ri_calls : run_calls s = run_completed s ≫= fun rr => AuctionCompleted rr.2 }.
(** ** Preservation *)

Definition reps_keep_contract : Prop := forall a u c, CreateClient a u = Ok c -> RepContract c.

Lemma FetchCellReps_contract cells clients g c :
  reps_keep_contract -> FetchCellReps CreateClient cells = Ok clients -> clients !! g = Some c ->
  RepContract c.
Proof.
  intros Hrep. destruct cells as [cells|]; [|done]. simpl. intros [= <-]. revert g c.
  apply (foldl_inv (fun m => forall g c, m !! g = Some c -> RepContract c)).
  - intros g c. by rewrite lookup_empty.
  - intros m cell IH g c. unfold add_rep.
    destruct (CreateClient _ _) as [cl|] eqn:E; [|apply IH].
    rewrite lookup_insert. case_decide; [intros [= <-]; by eapply Hrep|apply IH].
Qed.

Lemma built_cell `{!MapRange string} `{!GoSort Zone_Less} clients w i c :
  c ∈ zone_cells (fetchStateAndBuildZones clients w i) ->
  exists g st, clients !! g = Some (cell_client c) /\
    work_LRPs (cell_workToCommit c) = [] /\ work_Tasks (cell_workToCommit c) = [] /\
    client_State (cell_client c) i = Ok st.
Proof.
  intros Hc. destruct (fetch_build_spec clients w i) as [_ Hp].
  assert (erase_index c ∈ erase_index <$> omap (accepted_cell i) (map_to_list clients))
    as (c' & He & ([g cl] & Hcl & Ha)%list_elem_of_omap)%list_elem_of_fmap.
  { rewrite <-Hp. apply list_elem_of_fmap. eauto. }
  apply elem_of_map_to_list in Hcl. unfold accepted_cell in Ha. simpl in Ha.
  destruct (client_State cl i) as [st|] eqn:Est; [|done]. destruct (accepts g st); [|done].
  injection Ha as <-. unfold erase_index, with_Index, NewCell in He. injection He as E1 E2 E3 E4.
  exists g, st. rewrite E2, E4. done.
Qed.

Lemma FetchStateAndBuildZones_ready `{!MapRange string} `{!GoSort Zone_Less} clients w zones :
  (forall g c, clients !! g = Some c -> RepContract c) ->
  FetchStateAndBuildZones clients w = Some zones -> good_zones zones /\ unreserved zones.
Proof.
  intros Hcl Hf. destruct (FetchStateAndBuildZones_first clients w) as (zs & j & Hf' & Hzs & _).
  rewrite Hf in Hf'. injection Hf' as <-. subst zones. split; [split|].
  - apply fetch_build_spec.
  - intros c (g & st & Hg & _)%built_cell. by eapply Hcl.
  - intros c (g & st & _ & H1 & H2 & _)%built_cell. done.
Qed.
Lemma claim_lrps b t : b_lrpAuctions (claimToHaveWork b t) = b_lrpAuctions b.
Proof. unfold claimToHaveWork. by destruct (b_HasWork b). Qed.
Lemma claim_tasks b t : b_taskAuctions (claimToHaveWork b t) = b_taskAuctions b.
Proof. unfold claimToHaveWork. by destruct (b_HasWork b). Qed.
Lemma claim_work b t : is_Some (b_HasWork (claimToHaveWork b t)).
Proof. unfold claimToHaveWork. destruct (b_HasWork b) eqn:E; simpl; rewrite ?E; eauto. Qed.

Lemma valid_starts_lrps now starts : Forall valid_lrp (valid_starts starts ≫= lrp_auctions_of now).
Proof.
  apply Forall_forall. intros a (start & Ha & Hin)%list_elem_of_bind.
  apply list_elem_of_fmap in Ha as (i & -> & _).
  apply list_elem_of_filter in Hin as [Hv _]. unfold LRPStartRequest_Validate in Hv.
  unfold valid_lrp. simpl. destruct (Resource_Valid (start_Res start)); [done|].
  by repeat case_bool_decide.
Qed.

Lemma valid_tasks_tasks now tasks :
  Forall valid_task ((fun t => NewTaskAuction (start_Task t) now) <$> valid_tasks tasks).
Proof.
  apply Forall_forall. intros a (t & -> & Hin)%list_elem_of_fmap.
  apply list_elem_of_filter in Hin as [Hv _]. unfold TaskStartRequest_Validate in Hv.
  unfold valid_task. simpl. destruct (Resource_Valid (task_Res (start_Task t))); [done|].
  by repeat case_bool_decide.
Qed.

Lemma created_starts body starts :
  (LRPAuctionHandler_Create unmarshal_starts body).2 = Some starts -> exists l, starts = valid_starts l.
Proof.
  destruct body as [payload|]; simpl; [|done]. destruct (unmarshal_starts payload); simpl; [|done].
  intros [= <-]. eauto.
Qed.

Lemma created_tasks body tasks :
  (TaskAuctionHandler_Create unmarshal_tasks body).2 = Some tasks -> exists l, tasks = valid_tasks l.
Proof.
  destruct body as [payload|]; simpl; [|done]. destruct (unmarshal_tasks payload); simpl; [|done].
  intros [= <-]. eauto.
Qed.

Lemma inv_post ls ts s ls' ts' s' :
  runner_inv ls ts s -> post_step s ls' ts' s' -> runner_inv (ls ++ ls') (ts ++ ts') s'.
Proof.
  intros [Hw Hpc HL HT [VL VT] Hc] Hp. unfold reported_lrps, reported_tasks in *.
  apply Forall_app in VL as [VL1 VL2]. apply Forall_app in VT as [VT1 VT2].
  destruct Hp as [now body trace starts (l & ->)%created_starts|now body trace tasks (l & ->)%created_tasks];
    split; unfold Batch_AddLRPStarts, Batch_AddTasks; simpl; try done;
    rewrite ?claim_lrps, ?claim_tasks; simpl; try (intros _ _; left; apply claim_work);
    try (intros i; rewrite ?app_nil_r, ?fmap_app, ?elem_of_app, ?HL, ?HT; tauto).
  - rewrite !Forall_app. auto using valid_starts_lrps.
  - rewrite !Forall_app. auto using valid_tasks_tasks.
Qed.

Lemma drained_ids b b' lrps tasks :
  Batch_DedupeAndDrain b = (b', lrps, tasks) ->
  b' = NewBatch /\ lrps ⊆ b_lrpAuctions b /\ tasks ⊆ b_taskAuctions b /\
  NoDup (la_id <$> lrps) /\ NoDup (ta_id <$> tasks) /\
  (forall i, i ∈ la_id <$> lrps <-> i ∈ la_id <$> b_lrpAuctions b) /\
  (forall i, i ∈ ta_id <$> tasks <-> i ∈ ta_id <$> b_taskAuctions b).
Proof.
  unfold Batch_DedupeAndDrain. intros [= <- <- <-]. rewrite !dedupe_firsts.
  split_and!; try done; try apply firsts_nodup;
    try (intros a Ha; by apply elem_of_firsts in Ha as [? _]);
    intros i; rewrite firsts_ids; set_solver.
Qed.

Lemma reported_ids (req : AuctionRequest) (l : list LRPAuction) i :
  SchedulingLRP_Copy ∘ la_LRP <$> l ≡ₚ SchedulingLRP_Copy ∘ la_LRP <$> req_LRPs req ->
  i ∈ la_id <$> l <-> i ∈ la_id <$> req_LRPs req.
Proof.
  intros Hp%(fmap_Permutation SchedulingLRP_Identifier). rewrite <-!list_fmap_compose in Hp.
  apply (elem_of_Permutation_proper i) in Hp. exact Hp.
Qed.

Lemma reported_task_ids (req : AuctionRequest) (l : list TaskAuction) i :
  ta_Task <$> l ≡ₚ ta_Task <$> req_Tasks req -> i ∈ ta_id <$> l <-> i ∈ ta_id <$> req_Tasks req.
Proof.
  intros Hp%(fmap_Permutation SchedulingTask_Identifier). rewrite <-!list_fmap_compose in Hp.
  apply (elem_of_Permutation_proper i) in Hp. exact Hp.
Qed.

Lemma inv_run ls ts s s' :
  reps_keep_contract -> runner_inv ls ts s -> run_step s s' -> runner_inv ls ts s'.
Proof.
  intros Hrep [Hw Hpc HL HT [VL VT] Hc] Hs. unfold reported_lrps, reported_tasks in *. destruct Hs as
    [work Hp Hhw|work Hp|work cells clients Hp Hf|R ZS work clients zones Hp Hf
    |work zones b Hp Hd|work zones b lrps tasks Hp Hd Hne|R ZS L T W now work zones req res Hp Hs];
    rewrite Hp in *; simpl in *.
  - split; simpl; auto.
  - split; simpl; auto.
  - split; simpl; auto. intros g c. by eapply FetchCellReps_contract.
  - split; simpl; auto. by eapply FetchStateAndBuildZones_ready.
  - apply drained_ids in Hd as (-> & _ & _ & _ & _ & H1 & H2).
    split; simpl; auto; [by intros _ [? | ?]| |]; intros i;
      rewrite ?HL, ?HT, <-?H1, <-?H2; csimpl; rewrite ?elem_of_nil; tauto.
  - apply drained_ids in Hd as (-> & S1 & S2 & N1 & N2 & H1 & H2).
    rewrite app_nil_r in VL, VT. split; simpl; auto.
    + by intros _ [? | ?].
    + by destruct Hpc.
    + intros i. rewrite HL, H1. csimpl. rewrite elem_of_nil. tauto.
    + intros i. rewrite HT, H2. csimpl. rewrite elem_of_nil. tauto.
    + rewrite Forall_forall in VL. rewrite Forall_forall in VT. split; apply Forall_forall; auto.
  - destruct Hpc as (Hg & Hu & N1 & N2).
    destruct (Schedule_balanced cfg now zones req Hg Hu N1 N2) as (res' & Hs' & PL & PT).
    rewrite Hs in Hs'. injection Hs' as <-.
    split; simpl.
    + intros _ Hpend. destruct (Hw ltac:(done) Hpend) as [?|[]]. by left.
    + done.
    + intros i. unfold reported_lrps. simpl. rewrite bind_app, fmap_app, elem_of_app. csimpl.
      rewrite app_nil_r, (reported_ids req _ i PL), HL. csimpl. rewrite elem_of_nil. tauto.
    + intros i. unfold reported_tasks. simpl. rewrite bind_app, fmap_app, elem_of_app. csimpl.
      rewrite app_nil_r, (reported_task_ids req _ i PT), HT. csimpl. rewrite elem_of_nil. tauto.
    + rewrite !app_nil_r. apply Forall_app in VL as [? _]. apply Forall_app in VT as [? _]. done.
    + rewrite bind_app, Hc. csimpl. by rewrite app_nil_r.
Qed.

Lemma reach_inv ls ts s : reps_keep_contract -> reach ls ts s -> runner_inv ls ts s.
Proof.
  intros Hrep. induction 1 as [|? ? ? ? ? ? _ IH Hs|? ? ? ? _ IH Hs|? ? s s' _ IH Hs|? ? s s' _ IH Hs].
  - split; simpl; try done; [by intros _ [?|?]| |]; intros i; csimpl; rewrite elem_of_nil; tauto.
  - by eapply inv_post.
  - by eapply inv_run.
  - destruct IH as [Hw Hpc HL HT [VL VT] Hc]. destruct Hs as [work cells e Hp Hf].
    rewrite Hp in *. split; simpl; auto.
  - destruct IH as [Hw Hpc HL HT [VL VT] Hc]. destruct Hs as [private Hp].
    rewrite Hp in *. split; simpl; auto.
Qed.


(** How far the runner is from draining the batch. *)
Definition distance (pc : PC) : nat :=
  match pc with
  | Scheduling _ _ _ => 6 | Select _ => 5 | Fetching _ => 4 | Building _ _ => 3 | Draining _ _ => 2
  | Stopped => 0
  end.
Definition rank (s : Runner) : nat :=
  if decide (b_lrpAuctions (run_batch s) = [] /\ b_taskAuctions (run_batch s) = []) then 0
  else distance (run_pc s).

Lemma run_step_rank s s' : run_step s s' -> pending s -> rank s' < rank s.
Proof.
  unfold rank, pending. intros Hs Hp.
  rewrite (decide_False (P := b_lrpAuctions (run_batch s) = [] /\ _)) by tauto.
  destruct Hs as [? E ?|? E|? ? ? E ?|? ? ? ? ? E ?|? ? ? E Hd|? ? ? ? ? E Hd ?|? ? ? ? ? ? ? ? ? ? E ?];
    rewrite E; simpl; try (case_decide; simpl; lia);
    apply drained_ids in Hd as (-> & _); rewrite decide_True by done; lia.
Qed.

(** No wake-up is lost.  In every reachable state with pending jobs in which
    the runner has not been stopped, the runner can take a step, and each step it
    takes, short of failing to reach the BBS or being stopped, brings it strictly
    closer to draining the batch: at most six such steps remain. *)
Theorem runner_progress ls ts s :
  reps_keep_contract -> reach ls ts s -> pending s -> run_pc s <> Stopped ->
  (exists s', run_step s s') /\ (forall s', run_step s s' -> rank s' < rank s) /\ rank s <= 6.
Proof.
  intros Hrep Hr Hpend Hns. destruct (reach_inv ls ts s Hrep Hr) as [Hw Hpc _ _ _ _].
  split; [|split; [intros s' Hs'; by apply run_step_rank|]].
  - specialize (Hw Hns Hpend). destruct (run_pc s) as [[w|]|w|w cl|w zs|w zs req|] eqn:E; [..|done].
    + eexists. by eapply run_receive_private.
    + destruct Hw as [[w Hhw]|[]]. eexists. by eapply run_receive.
    + eexists. eapply (run_fetched s w (Ok [])); done.
    + destruct (FetchStateAndBuildZones_first (MapRange0 := canonical_range string) (GoSort0 := Zone_sort)
                  cl (binPackFirstFitWeight cfg)) as (zs & j & Hz & _).
      eexists. by eapply run_built.
    + destruct (Batch_DedupeAndDrain (run_batch s)) as [[b lrps] tasks] eqn:Ed.
      destruct lrps as [|a lrps]; [destruct tasks as [|a tasks]|].
      * eexists. by eapply run_nothing.
      * eexists. eapply run_drained; eauto.
      * eexists. eapply run_drained; eauto.
    + destruct Hpc as (Hg & Hu & N1 & N2).
      destruct (Schedule_balanced (MapRange0 := canonical_range string) (GoSort0 := lrpByZone_sort)
        (GoSort1 := LRPAuctions_sort) (GoSort2 := TaskAuctions_sort) (H0 := submission_order)
        cfg 0 zs req Hg Hu N1 N2) as (res & Hs & _).
      eexists. by eapply run_scheduled.
  - unfold rank. case_decide; [lia|]. destruct (run_pc s); simpl; lia.
Qed.

(** what the runner schedules stays within the cells' capacity.  The
    handlers let only valid requests in and draining removes duplicates, so in
    every reachable state the auctions of the request being scheduled leave every
    cell of the zones with what it had, less what is reserved on it. *)
Theorem runner_within_capacity `{!MapRange string} `{!GoSort lrpByZone_Less}
    `{!GoSort SortableLRPAuctions_Less} `{!GoSort SortableTaskAuctions_Less} ls ts s w zones req :
  reps_keep_contract -> reach ls ts s -> run_pc s = Scheduling w zones req -> zs_zones zones <> ∅ ->
  exists st, hold_auctions cfg zones req = Some st /\ within_budget zones (ss_zs st).
Proof.
  intros Hrep Hr Hpc Hne. destruct (reach_inv ls ts s Hrep Hr) as [_ Hok _ _ [VL VT] _].
  rewrite Hpc in Hok, VL, VT. destruct Hok as (Hg & Hu & N1 & N2).
  apply Forall_app in VL as [_ VL]. apply Forall_app in VT as [_ VT].
  by apply hold_within_budget.
Qed.
End runner.
