(* ===== verification/AuctionExamples.v ===== *)
(** * Auctions on a concrete cluster

    Instances of the theorems on the scheduler at a small cluster, and
    behaviours that only a concrete run shows. *)
From Stdlib Require Import ZArith Lia.
From S2P Require Import Prelude Float64 Models AuctionTypes Cell Zones Scheduler Placement ScheduleProps Batch AuctionRunner.

(** ** Instances of the parameters *)

#[local] Existing Instance opaque_url.
#[local] Existing Instance submission_order.

#[local] Instance string_range : MapRange string := canonical_range string.

(** The same maps, ranged over backwards. *)
Definition reverse_range : MapRange string.
Proof.
  refine {| range_over := fun V _ m => reverse (map_to_list m) |}.
  intros V _ m. apply reverse_Permutation.
Defined.

#[local] Existing Instances lrpByZone_sort Zone_sort LRPAuctions_sort TaskAuctions_sort.

(** ** A cluster of two cells in two zones *)

(** A rep that rejects every LRP and accepts every task. *)
Definition picky_rep : RepClient :=
  mkRepClient (fun _ => Err "unreachable") (fun w => Ok (mkWork (work_LRPs w) [] (work_CellID w))).

#[local] Instance picky_contract : RepContract picky_rep.
Proof. split; intros w f [= <-]; [done|intros _; apply submseteq_nil_l]. Qed.

Definition a_state (id zone : string) (tags drivers : list string) (mem : Z) : CellState :=
  mkCellState "" id 0 {["preloaded" := FixedSetRootFSProvider {["cflinuxfs4"]}]}
    (mkResources mem 1000 10) (mkResources 100 1000 10) [] [] 1 zone false drivers tags [] 0.

Definition cell_a : Cell := NewCell "a" picky_rep (a_state "a" "z1" [] [] 10).
Definition cell_b : Cell := NewCell "b" picky_rep (a_state "b" "z2" ["gpu"] [] 100).

Definition two_zones : Zones := mkZones {["z1" := [0]; "z2" := [1]]} {[0 := cell_a; 1 := cell_b]}.

Definition an_lrp (guid : string) (index mem : Z) (tags drivers : list string) : LRPAuction :=
  NewLRPAuction (NewSchedulingLRP "" (mkActualLRPKey guid index "domain") (mkResource mem 1 1)
                   (mkPC tags drivers "preloaded:cflinuxfs4")) 0.
Definition a_task (guid : string) (mem : Z) : TaskAuction :=
  NewTaskAuction (NewSchedulingTask guid "domain" (mkResource mem 1 1)
                    (mkPC [] [] "preloaded:cflinuxfs4")) 0.

Definition plain : Config := mkConfig (of_int 0) (of_int 0) 0.
Definition limited : Config := mkConfig (of_int 0) (of_int 0) 3.

(** A reachable rep reports its state. *)
Definition up (st : CellState) : RepClient := mkRepClient (fun _ => Ok st) (fun w => Ok emptyWork).
Definition two_clients : gmap string RepClient :=
  {["a" := up (a_state "a" "z1" [] [] 10); "b" := up (a_state "b" "z1" [] [] 10)]}.

(** ** The theorems at the cluster *)

Lemma build_zones_normalised_witness :
  isBinPackFirstFitWeightProvided (of_int 1) = true /\
  size (zs_zones (fetchStateAndBuildZones two_clients (of_int 1) 0)) = 1 /\
  zone_normal (fetchStateAndBuildZones two_clients (of_int 1) 0) "z1".
Proof.
  split; [vm_compute; reflexivity|]. split; [vm_compute; reflexivity|].
  apply (build_zones_normalised two_clients (of_int 1) 0 "z1"). vm_compute. reflexivity.
Defined.

Lemma two_zones_elem c : c ∈ zone_cells two_zones -> c = cell_a \/ c = cell_b.
Proof.
  assert (zone_cells two_zones = [cell_a; cell_b]) as -> by (vm_compute; reflexivity).
  rewrite elem_of_cons, list_elem_of_singleton. tauto.
Qed.

Lemma two_zones_in k z r c : in_zones two_zones k z r c -> c = cell_a \/ c = cell_b.
Proof. intros Hc%in_zones_cell. by apply two_zones_elem. Qed.

Lemma two_zones_good : good_zones two_zones.
Proof.
  split; [split|].
  - apply (bool_decide_unpack _). vm_compute. exact I.
  - intros r Hr. assert (r = 0 \/ r = 1) as [->| ->]; [|vm_compute; eauto..].
    apply elem_of_map_concat in Hr as (k & z & Hk & Hr). unfold two_zones in Hk. simpl in Hk.
    apply lookup_insert_Some in Hk as [[_ <-]|[_ [_ <-]%lookup_singleton_Some]];
      apply list_elem_of_singleton in Hr; auto.
  - intros k z r c Hk Hr Hc. unfold two_zones in *. simpl in *.
    apply lookup_insert_Some in Hk as [[<- <-]|[_ [<- <-]%lookup_singleton_Some]];
      apply list_elem_of_singleton in Hr as ->; vm_compute in Hc; injection Hc as <-; reflexivity.
  - intros c [->| ->]%two_zones_elem; apply picky_contract.
Qed.

Lemma two_zones_unreserved : unreserved two_zones.
Proof. intros c [->| ->]%two_zones_elem; split; reflexivity. Qed.

Lemma two_zones_nonempty : zs_zones two_zones <> ∅.
Proof. intros E%(f_equal size). vm_compute in E. discriminate. Qed.

Definition a_request : AuctionRequest :=
  mkAuctionRequest [an_lrp "p" 1 4 [] []; an_lrp "p" 0 4 [] []] [a_task "t" 5].

Lemma a_request_lrps : NoDup (la_id <$> req_LRPs a_request).
Proof. apply (bool_decide_unpack _). vm_compute. exact I. Qed.
Lemma a_request_tasks : NoDup (ta_id <$> req_Tasks a_request).
Proof. apply (bool_decide_unpack _). vm_compute. exact I. Qed.

Lemma scheduleLRPAuction_placement_witness :
  exists w zs', scheduleLRPAuction plain 0 two_zones (an_lrp "p" 0 10 [] []) = Ok (w, zs') /\
    exists k z r c, in_zones two_zones k z r c /\ rec_Winner (la_Rec w) = cell_Guid c.
Proof.
  destruct (scheduleLRPAuction plain 0 two_zones (an_lrp "p" 0 10 [] [])) as [[w zs']|e] eqn:E;
    [|vm_compute in E; discriminate E].
  exists w, zs'. split; [reflexivity|].
  destruct (scheduleLRPAuction_placement plain 0 two_zones (an_lrp "p" 0 10 [] []) w zs' E)
    as (k & z & r & c & c' & s & Hz & _ & _ & _ & _ & Hw & _).
  exists k, z, r, c. split; [exact Hz|]. exact (f_equal (fun a => rec_Winner (la_Rec a)) Hw).
Defined.

(** A rep that hands back an LRP it was not given: the scheduler looks it up among
    the requested ones and dereferences nil. *)
Definition confused_rep : RepClient :=
  mkRepClient (fun _ => Err "unreachable") (fun w => Ok (mkWork [la_LRP (an_lrp "other" 0 1 [] [])] [] (work_CellID w))).
Definition confused_zones : Zones := mkZones {["z1" := [0]]} {[0 := NewCell "a" confused_rep (a_state "a" "z1" [] [] 10)]}.

Example foreign_work_panics : Schedule plain 0 confused_zones a_request = None.
Proof. vm_compute. reflexivity. Qed.

Definition boulder : LRPAuction := an_lrp "p" 0 101 [] [].

Lemma boulder_proxies k z r c : in_zones two_zones k z r c -> proxy_in_range boulder c.
Proof. intros [->| ->]%two_zones_in; repeat split; vm_compute; congruence. Qed.

Lemma scheduleLRPAuction_failure_witness :
  exists e, scheduleLRPAuction plain 0 two_zones boulder = Err e /\
    AuctionError_Error e = "insufficient resources: memory" /\
    forall k z r c, in_zones two_zones k z r c -> cell_matches (lrp_PC (la_LRP boulder)) c = true ->
      ~ winnable (lrp_score plain boulder) c.
Proof.
  destruct (scheduleLRPAuction plain 0 two_zones boulder) as [[w zs']|e] eqn:E;
    [vm_compute in E; discriminate E|].
  exists e. split; [reflexivity|]. split.
  - apply (f_equal (fun r => match r with Ok _ => EmptyString | Err e => AuctionError_Error e end)) in E.
    transitivity (match scheduleLRPAuction plain 0 two_zones boulder with
                  | Ok _ => EmptyString | Err e => AuctionError_Error e end);
      [symmetry; exact E|vm_compute; reflexivity].
  - exact (proj1 (scheduleLRPAuction_failure plain 0 two_zones boulder e boulder_proxies E)).
Defined.

Lemma Schedule_conservation_witness :
  exists res, Schedule plain 0 two_zones a_request = Some res /\
    length (res_FailedLRPs res) = 2 /\ length (res_SuccessfulTasks res) = 1 /\
    ta_Task <$> (res_SuccessfulTasks res ++ res_FailedTasks res) ≡ₚ ta_Task <$> req_Tasks a_request.
Proof.
  destruct (Schedule_conservation plain 0 two_zones a_request two_zones_good two_zones_unreserved
              a_request_lrps a_request_tasks) as (res & E & _ & HT).
  exists res. split; [exact E|]. split; [|split; [|exact HT]].
  - assert (Some 2 = length ∘ res_FailedLRPs <$> Some res) as H2; [|by injection H2].
    rewrite <-E. vm_compute. reflexivity.
  - assert (Some 1 = length ∘ res_SuccessfulTasks <$> Some res) as H2; [|by injection H2].
    rewrite <-E. vm_compute. reflexivity.
Defined.

Lemma a_request_valid :
  Forall (fun a => Resource_Valid (lrp_Res (la_LRP a)) = true) (req_LRPs a_request) /\
  Forall (fun a => Resource_Valid (task_Res (ta_Task a)) = true) (req_Tasks a_request).
Proof. by repeat constructor. Qed.

Lemma auctions_within_capacity_witness :
  exists st, hold_auctions plain two_zones a_request = Some st /\
    size (ss_successfulLRPs st) = 1 /\
    forall r c', zs_heap (ss_zs st) !! r = Some c' ->
      exists c, zs_heap two_zones !! r = Some c /\
        (capacity_ok c -> capacity_ok c' /\ budget c' = budget c).
Proof.
  destruct (auctions_within_capacity plain two_zones a_request two_zones_good two_zones_nonempty
              two_zones_unreserved a_request_lrps a_request_tasks
              (proj1 a_request_valid) (proj2 a_request_valid)) as (st & E & Hb).
  exists st. split; [exact E|]. split; [|exact Hb].
  assert (Some 1 = (fun st => size (ss_successfulLRPs st)) <$> Some st) as H2; [|by injection H2].
  rewrite <-E. vm_compute. reflexivity.
Defined.

Lemma inflight_limit_witness :
  exists st, hold_auctions limited two_zones a_request = Some st /\
    size (ss_successfulLRPs st) = 1 /\ size (ss_successfulTasks st) = 0 /\
    (Z.of_nat (size (ss_successfulLRPs st)) + Z.of_nat (size (ss_successfulTasks st))
       <= Z.max 0 (3 - initial_inflight 0 two_zones))%Z.
Proof.
  destruct (hold_auctions limited two_zones a_request) as [st|] eqn:E; [|vm_compute in E; discriminate E].
  exists st. split; [reflexivity|].
  assert (Some (1, 0) = (fun st => (size (ss_successfulLRPs st), size (ss_successfulTasks st))) <$> Some st)
    as H2 by (rewrite <-E; vm_compute; reflexivity).
  injection H2 as H2 H3. split; [by rewrite <-H2|]. split; [by rewrite <-H3|].
  apply (inflight_limit limited ltac:(vm_compute; reflexivity)
           ltac:(unfold in_i64; vm_compute; split; congruence) two_zones a_request st E).
Defined.

(** ** A run of the auction runner *)

Definition create (address url : string) : result string RepClient :=
  if bool_decide (address = "a") then Ok (up (a_state "a" "z1" [] [] 10)) else Err "no route to host".

(** A decoder that knows one payload: two instances of a process, and a start
    request that is not valid. *)
Definition decode_starts (payload : string) : result string (list LRPStartRequest) :=
  if bool_decide (payload = "p") then
    Ok [mkLRPStartRequest "p" "domain" [0; 1]%Z (mkPC [] [] "preloaded:cflinuxfs4") (mkResource 4 1 1);
        mkLRPStartRequest "q" "domain" [] (mkPC [] [] "preloaded:cflinuxfs4") (mkResource 4 1 1)]
  else Err "invalid character".
Definition decode_tasks (payload : string) : result string (list TaskStartRequest) :=
  Err "invalid character".

Lemma create_contract : reps_keep_contract create.
Proof.
  intros a u c. unfold create. case_bool_decide; [|done]. intros [= <-].
  split; intros w f [= <-]; intros; apply submseteq_nil_l.
Qed.

Definition posted : list LRPAuction := [an_lrp "p" 0 4 [] []; an_lrp "p" 1 4 [] []].
Definition run0 : Runner := mkRunner (mkBatch posted [] (Some "trace")) (Select None) [] [].
Definition run_clients : gmap string RepClient := {["a" := up (a_state "a" "z1" [] [] 10)]}.
Definition run_zones : Zones := default emptyZones (FetchStateAndBuildZones run_clients (of_int 0)).
Definition run_request : AuctionRequest := mkAuctionRequest posted [].
Definition run4 : Runner :=
  mkRunner NewBatch (Scheduling "trace" run_zones run_request) [] [].

Lemma reach_run0 : reach plain create decode_starts decode_tasks posted [] run0.
Proof.
  apply (reach_post plain create decode_starts decode_tasks [] [] NewRunner posted [] run0 (reach_new _ _ _ _)).
  apply (post_lrps decode_starts decode_tasks NewRunner 0 (Ok "p") "trace"
           [mkLRPStartRequest "p" "domain" [0; 1]%Z (mkPC [] [] "preloaded:cflinuxfs4") (mkResource 4 1 1)]).
  vm_compute. reflexivity.
Qed.

Lemma reach_run4 : reach plain create decode_starts decode_tasks posted [] run4.
Proof.
  pose proof reach_run0 as H.
  eapply reach_run in H; [|by eapply run_receive].
  eapply reach_run in H; [|by apply (run_fetched _ _ _ "trace" (Ok [mkCellPresence "a" "a" ""]) run_clients)].
  eapply reach_run in H; [|eapply (run_built _ _ _ _ _ "trace" run_clients run_zones);
                            [done|vm_compute; reflexivity]].
  eapply reach_run in H; [|eapply (run_drained _ _ _ "trace" run_zones NewBatch posted []);
                            [done|vm_compute; reflexivity|by left]].
  exact H.
Qed.


Lemma runner_progress_witness :
  pending run0 /\ exists s', run_step plain create run0 s' /\ rank s' < rank run0.
Proof.
  assert (pending run0) as Hp by (left; discriminate).
  split; [exact Hp|].
  destruct (runner_progress plain create decode_starts decode_tasks posted [] run0
              create_contract reach_run0 Hp ltac:(discriminate)) as ((s' & Hs) & Hr & _).
  exists s'. split; [exact Hs|exact (Hr s' Hs)].
Defined.

Lemma runner_within_capacity_witness :
  zs_zones run_zones <> ∅ /\
  exists st, hold_auctions plain run_zones run_request = Some st /\ within_budget run_zones (ss_zs st).
Proof.
  assert (zs_zones run_zones <> ∅) as Hne
    by (intros E%(f_equal size); vm_compute in E; discriminate).
  split; [exact Hne|].
  exact (runner_within_capacity plain create decode_starts decode_tasks posted [] run4 "trace" run_zones
           run_request create_contract reach_run4 eq_refl Hne).
Defined.

(** ** Behaviours of concrete runs *)

(** which error a job is refused with depends on the order in which Go
    ranges over the map of zones.  With a constraint that asks for a volume
    driver and a placement tag, one zone lacks the driver and the other the tag;
    ranged one way the auction reports the missing driver and ranged the other
    way the missing tag. *)
Theorem error_depends_on_range_order :
  let a := an_lrp "p" 0 1 ["gpu"] ["nfs"] in
  let zs := mkZones {["z1" := [0]; "z2" := [1]]}
    {[0 := NewCell "a" picky_rep (a_state "a" "z1" [] ["nfs"] 10);
      1 := NewCell "b" picky_rep (a_state "b" "z2" ["gpu"] [] 10)]} in
  exists e1 e2,
    scheduleLRPAuction (MapRange0 := string_range) plain 0 zs a = Err e1 /\
    scheduleLRPAuction (MapRange0 := reverse_range) plain 0 zs a = Err e2 /\
    AuctionError_Error e1 <> AuctionError_Error e2.
Proof.
  eexists _, _. split; [vm_compute; reflexivity|]. split; [vm_compute; reflexivity|].
  vm_compute. discriminate.
Qed.

(** an LRP with index 0 that is alone in its request is auctioned after the
    task it competes with, and loses: the same LRP with a sibling of index 1
    wins. *)
Theorem index_zero_after_tasks :
  let names (res : option AuctionResults) :=
    (fun r => (la_id <$> res_FailedLRPs r, ta_id <$> res_FailedTasks r)) <$> res in
  let zs := mkZones {["z1" := [0]]}
    {[0 := NewCell "a" (up (a_state "a" "z1" [] [] 10)) (a_state "a" "z1" [] [] 10)]} in
  names (Schedule plain 0 zs (mkAuctionRequest [an_lrp "p" 0 10 [] []] [a_task "t" 10]))
    = Some (["p.0"], []) /\
  names (Schedule plain 0 zs (mkAuctionRequest [an_lrp "p" 0 10 [] []; an_lrp "p" 1 10 [] []]
                                [a_task "t" 10]))
    = Some (["p.1"], ["t"]).
Proof. split; vm_compute; reflexivity. Qed.
