(* ===== verification/GoStd.v ===== *)
(** * Parts of the Go standard library

    [strconv.Itoa] and [strconv.Atoi], the text of a [time.Duration], and
    [encoding/json] for a [[]string] as far as the code uses it: what it writes
    it reads back. *)
From Stdlib Require Import ZArith Lia Ascii.
From S2P Require Import Prelude.

(** ** strconv *)

Definition strconv_Itoa (z : Z) : string := pretty z.

Definition digit_value (a : ascii) : option Z :=
  let n := Z.of_N (N_of_ascii a) in
  if (48 <=? n)%Z && (n <=? 57)%Z then Some (n - 48)%Z else None.

Fixpoint parse_digits (acc : Z) (s : string) : option Z :=
  match s with
  | "" => Some acc
  | String a s => d ← digit_value a; parse_digits (10 * acc + d) s
  end.

(** At least one digit. *)
Definition parse_unsigned (s : string) : option Z := if bool_decide (s = "") then None else parse_digits 0 s.

Definition strconv_Atoi (s : string) : option Z :=
  z ← match s with
      | "" => None
      | String a rest =>
          if Ascii.eqb a "-" then Z.opp <$> parse_unsigned rest
          else if Ascii.eqb a "+" then parse_unsigned rest
          else parse_unsigned s
      end;
  if bool_decide (in_i64 z) then Some z else None.

Lemma digit_value_pretty n : (n < 10)%N -> digit_value (pretty_N_char n) = Some (Z.of_N n).
Proof. intros Hn. destruct n as [|p]; [done|]. do 4 (destruct p as [p|p|]; try (done || lia)). Qed.

Lemma parse_pretty_go x s : parse_digits 0 (pretty_N_go x s) = parse_digits (Z.of_N x) s.
Proof.
  revert s. induction (N.lt_wf_0 x) as [x _ IH]; intros s. destruct (decide (x = 0)%N) as [->|Hx].
  - by rewrite pretty_N_go_0.
  - rewrite pretty_N_go_step by lia. rewrite IH by (apply N.div_lt; lia). simpl.
    rewrite digit_value_pretty by (apply N.mod_lt; lia). simpl. f_equal.
    pose proof (N.div_mod x 10). lia.
Qed.

Lemma parse_pretty_N (n : N) : parse_unsigned (pretty n) = Some (Z.of_N n).
Proof.
  unfold parse_unsigned. unfold pretty, pretty_N. case_decide as Hn; [by subst|].
  rewrite bool_decide_false; [apply parse_pretty_go|]. rewrite pretty_N_go_step by lia. intros E.
  assert (forall x s, s <> "" -> pretty_N_go x s <> "") as Hne.
  { intros x. induction (N.lt_wf_0 x) as [x _ IH]; intros s Hs. destruct (decide (x = 0)%N) as [->|Hx].
    - by rewrite pretty_N_go_0.
    - rewrite pretty_N_go_step by lia. apply IH; [apply N.div_lt; lia|done]. }
  by apply Hne in E.
Qed.

Lemma Atoi_unsigned s z : parse_unsigned s = Some z -> in_i64 z -> strconv_Atoi s = Some z.
Proof.
  unfold strconv_Atoi. destruct s as [|a rest]; [done|]. intros Hp Hz.
  destruct (Ascii.eqb_spec a "-") as [->|_]; [done|]. destruct (Ascii.eqb_spec a "+") as [->|_]; [done|].
  rewrite Hp. simpl. by rewrite bool_decide_true.
Qed.

(** An [int] survives being written and read. *)
Lemma Atoi_Itoa z : in_i64 z -> strconv_Atoi (strconv_Itoa z) = Some z.
Proof.
  intros Hz. unfold strconv_Itoa. destruct z as [|p|p].
  - by apply Atoi_unsigned.
  - apply Atoi_unsigned; [|done]. apply (parse_pretty_N (Npos p)).
  - unfold strconv_Atoi. simpl. pose proof (parse_pretty_N (Npos p)) as Hp. simpl in Hp.
    change (parse_unsigned (pretty (Npos p))) with (parse_unsigned (pretty p)) in Hp.
    change ("" +:+ ?s) with s. rewrite Hp. simpl. by rewrite bool_decide_true.
Qed.

(** ** time.Duration

    Nanoseconds, 64 bits wide. *)

Definition Millisecond : Z := 1000000.
Definition Second : Z := 1000000000.

(** The digits of a fraction without trailing zeros, and what is before it. *)
Fixpoint fmt_frac (prec : nat) (u : Z) (acc : string) : string * Z :=
  match prec with
  | 0 => (if bool_decide (acc = "") then "" else "." +:+ acc, u)
  | S prec =>
      let d := (u mod 10)%Z in
      fmt_frac prec (u / 10) (if bool_decide (acc = "") && (d =? 0)%Z then "" else pretty d +:+ acc)
  end.

Definition micro_sign : string := String (ascii_of_nat 194) (String (ascii_of_nat 181) "").

(** [Duration.String] *)
Definition Duration_String (d : Z) : string :=
  let u := Z.abs d in
  let sign := if (d <? 0)%Z then "-" else "" in
  let small prec unit := let '(frac, u) := fmt_frac prec u "" in pretty u +:+ frac +:+ unit +:+ "s" in
  if (u =? 0)%Z then "0s"
  else sign +:+
    if (u <? 1000)%Z then small 0 "n"
    else if (u <? Millisecond)%Z then small 3 micro_sign
    else if (u <? Second)%Z then small 6 "m"
    else
      let '(frac, secs) := fmt_frac 9 u "" in
      let mins := (secs / 60)%Z in
      let hours := (mins / 60)%Z in
      (if (hours =? 0)%Z then "" else pretty hours +:+ "h") +:+
      (if (mins =? 0)%Z then "" else pretty (mins mod 60)%Z +:+ "m") +:+
      pretty (secs mod 60)%Z +:+ frac +:+ "s".

(** ** encoding/json

    Marshalling a [[]string], and unmarshalling into one: the slice afterwards
    and the error.  Strings of ASCII characters come back as they were. *)
Fixpoint ascii_string (s : string) : bool :=
  match s with
  | "" => true
  | String a s => (N_of_ascii a <? 128)%N && ascii_string s
  end.

Class JsonStrings := {
  json_Marshal : list string -> string;
  json_Unmarshal : string -> list string * option string;
  json_roundtrip l : Forall (fun s => ascii_string s = true) l -> json_Unmarshal (json_Marshal l) = (l, None) }.

(** An instance: arrays as [json.Marshal] writes them, and a reader of just
    those. *)
Module SimpleJson.
Definition quote : ascii := ascii_of_nat 34.
Definition backslash : ascii := ascii_of_nat 92.

Definition hex_digit (n : N) : ascii :=
  ascii_of_N (if (n <? 10)%N then 48 + n else 87 + n).
Definition hex_value (a : ascii) : N :=
  let n := N_of_ascii a in if (n <? 58)%N then n - 48 else n - 87.

(** Control characters and the characters special in HTML. *)
Definition special (a : ascii) : bool :=
  let n := N_of_ascii a in (n <? 32)%N || (n =? 38)%N || (n =? 60)%N || (n =? 62)%N.

Definition escape (a : ascii) (rest : string) : string :=
  if Ascii.eqb a quote || Ascii.eqb a backslash then String backslash (String a rest)
  else if special a then
    let n := N_of_ascii a in
    String backslash (String "u" (String "0" (String "0"
      (String (hex_digit (n / 16)) (String (hex_digit (n mod 16)) rest)))))
  else String a rest.

Fixpoint write_string (s : string) (rest : string) : string :=
  match s with
  | "" => String quote rest
  | String a s => escape a (write_string s rest)
  end.

Fixpoint write_rest (l : list string) : string :=
  match l with
  | [] => "]"
  | s :: l => String "," (String quote (write_string s (write_rest l)))
  end.

Definition write (l : list string) : string :=
  match l with
  | [] => "[]"
  | s :: l => String "[" (String quote (write_string s (write_rest l)))
  end.

Fixpoint read_string (s : string) : option (string * string) :=
  match s with
  | "" => None
  | String a r =>
      if Ascii.eqb a quote then Some ("", r)
      else if Ascii.eqb a backslash then
        match r with
        | String "u" (String _ (String _ (String h (String l r)))) =>
            '(t, rest) ← read_string r; Some (String (ascii_of_N (16 * hex_value h + hex_value l)) t, rest)
        | String e r => '(t, rest) ← read_string r; Some (String e t, rest)
        | "" => None
        end
      else '(t, rest) ← read_string r; Some (String a t, rest)
  end.

Fixpoint read_rest (fuel : nat) (s : string) : option (list string) :=
  match fuel, s with
  | S fuel, String a r =>
      if Ascii.eqb a "]" then Some []
      else match r with
           | String _ r => '(x, rest) ← read_string r; cons x <$> read_rest fuel rest
           | "" => None
           end
  | _, _ => None
  end.

Definition read (s : string) : list string * option string :=
  match s with
  | String _ (String a r as r') =>
      match (if Ascii.eqb a "]" then Some []
             else '(x, rest) ← read_string r; cons x <$> read_rest (String.length rest) rest) with
      | Some l => (l, None)
      | None => ([], Some "invalid character")
      end
  | _ => ([], Some "unexpected end of JSON input")
  end.

Lemma read_escape a rest t rest' :
  (N_of_ascii a <? 128)%N = true -> read_string rest = Some (t, rest') ->
  read_string (escape a rest) = Some (String a t, rest').
Proof.
  intros Ha Hr. destruct a as [[] [] [] [] [] [] [] []]; try done;
    (match goal with |- read_string ?e = _ => let e' := eval vm_compute in e in change e with e' end;
     simpl; by rewrite Hr).
Qed.

Lemma read_write_string s rest : ascii_string s = true -> read_string (write_string s rest) = Some (s, rest).
Proof.
  induction s as [|a s IH]; [done|]. cbn [ascii_string write_string]. rewrite andb_true_iff. intros [Ha Hs].
  by apply read_escape; [|apply IH].
Qed.

Lemma read_write_rest l fuel :
  Forall (fun s => ascii_string s = true) l -> length l < fuel -> read_rest fuel (write_rest l) = Some l.
Proof.
  revert fuel. induction l as [|s l IH]; intros [|fuel] Hl Hf; simpl in Hf; try lia; [done|].
  apply Forall_cons in Hl as [Hs Hl]. cbn [write_rest read_rest]. simpl.
  rewrite read_write_string by done. simpl. rewrite IH by (done || lia). done.
Qed.

Lemma write_string_length s rest : String.length rest < String.length (write_string s rest).
Proof.
  induction s as [|a s IH]; [simpl; lia|]. cbn [write_string]. unfold escape.
  destruct (Ascii.eqb a quote || Ascii.eqb a backslash), (special a); simpl; lia.
Qed.

Lemma write_rest_length l : length l < String.length (write_rest l).
Proof.
  induction l as [|s l IH]; simpl; [lia|]. pose proof (write_string_length s (write_rest l)). lia.
Qed.

Lemma read_write l : Forall (fun s => ascii_string s = true) l -> read (write l) = (l, None).
Proof.
  destruct l as [|s l]; [done|]. intros [Hs Hl]%Forall_cons. unfold read, write. simpl.
  rewrite read_write_string by done. simpl. rewrite read_write_rest; [done|done|apply write_rest_length].
Qed.
End SimpleJson.

Definition simple_json : JsonStrings := {| json_roundtrip := SimpleJson.read_write |}.
