(* ===== verification/NetIP.v ===== *)
(** * Addresses of the Go standard library

    [net.ParseIP], [net.ParseCIDR], [net.CIDRMask] and [net.IP.Mask] as the
    conversion of egress rules uses them, and what a network in CIDR notation
    means as numbers.  An address is the list of its bytes, 4 or 16. *)
From Stdlib Require Import ZArith Lia Ascii.
From S2P Require Import Prelude GoStd.

Abbreviation IP := (list Z).

(** ** Parsing *)

(** The fields of an IPv4 address: [pos] of them are complete, [val] is the
    current one with [digLen] digits. *)
Fixpoint parseIPv4Fields (pos : nat) (val : Z) (digLen : nat) (s : string) : option IP :=
  match s with
  | "" => if pos <? 3 then None else Some [val]
  | String c rest =>
      match digit_value c with
      | Some d =>
          if (digLen =? 1) && (val =? 0)%Z then None
          else if (255 <? val * 10 + d)%Z then None
          else parseIPv4Fields pos (val * 10 + d) (S digLen) rest
      | None =>
          if bool_decide (c = "."%char) then
            if (digLen =? 0) || bool_decide (rest = "") || (pos =? 3) then None
            else cons val <$> parseIPv4Fields (S pos) 0 0 rest
          else None
      end
  end.

Definition hex_digit_value (c : ascii) : option Z :=
  let n := Z.of_N (N_of_ascii c) in
  if ((48 <=? n) && (n <=? 57))%Z then Some (n - 48)%Z
  else if ((97 <=? n) && (n <=? 102))%Z then Some (n - 87)%Z
  else if ((65 <=? n) && (n <=? 70))%Z then Some (n - 55)%Z
  else None.

(** A group of at most four hexadecimal digits and what follows it. *)
Fixpoint hex_group (room : nat) (acc : Z) (s : string) : option (Z * string) :=
  match s with
  | "" => Some (acc, s)
  | String c rest =>
      match hex_digit_value c with
      | Some d => match room with 0 => None | S room => hex_group room (acc * 16 + d) rest end
      | None => Some (acc, s)
      end
  end.

Definition starts_hex (s : string) : bool :=
  match s with String c _ => bool_decide (is_Some (hex_digit_value c)) | "" => false end.

(** The loop of [parseIPv6]: [n] groups fit, [ip] has been read, with the
    position of the ellipsis. *)
Fixpoint parse_groups (n : nat) (ip : IP) (ellipsis : option nat) (s : string) : option (IP * option nat) :=
  match n with
  | 0 => if bool_decide (s = "") then Some (ip, ellipsis) else None
  | S n =>
      if negb (starts_hex s) then None
      else
        '(v, rest) ← hex_group 4 0 s;
        let ip' := ip ++ [(v / 256)%Z; (v mod 256)%Z] in
        match rest with
        | "" => Some (ip', ellipsis)
        | String "." _ =>
            if bool_decide (ellipsis = None) && negb (length ip =? 12) || (16 <? length ip + 4) then None
            else v4 ← parseIPv4Fields 0 0 0 s; Some (ip ++ v4, ellipsis)
        | String ":" "" => None
        | String ":" (String ":" rest) =>
            if bool_decide (is_Some ellipsis) then None
            else if bool_decide (rest = "") then Some (ip', Some (length ip'))
            else parse_groups n ip' (Some (length ip')) rest
        | String ":" rest => parse_groups n ip' ellipsis rest
        | _ => None
        end
  end.

(** The ellipsis stands for at least one group of zeros. *)
Definition expand (ip : IP) (ellipsis : option nat) : option IP :=
  if length ip <? 16 then
    e ← ellipsis; Some (take e ip ++ replicate (16 - length ip) 0%Z ++ drop e ip)
  else if bool_decide (is_Some ellipsis) then None else Some ip.

Definition parseIPv6 (s : string) : option IP :=
  match s with
  | String ":" (String ":" "") => Some (replicate 16 0%Z)
  | String ":" (String ":" rest) => '(ip, e) ← parse_groups 8 [] (Some 0) rest; expand ip e
  | _ => '(ip, e) ← parse_groups 8 [] None s; expand ip e
  end.

(** [netip.ParseAddr] without zones, which its callers here refuse: 4 or 16
    bytes. *)
Fixpoint first_special (s : string) : option ascii :=
  match s with
  | "" => None
  | String c s => if bool_decide (c = "."%char \/ c = ":"%char \/ c = "%"%char) then Some c else first_special s
  end.

Definition ParseAddr (s : string) : option IP :=
  match first_special s with
  | Some "."%char => parseIPv4Fields 0 0 0 s
  | Some ":"%char => parseIPv6 s
  | _ => None
  end.

Definition v4InV6Prefix : IP := replicate 10 0%Z ++ [255; 255]%Z.

Definition As16 (ip : IP) : IP := if length ip =? 4 then v4InV6Prefix ++ ip else ip.

Definition ParseIP (s : string) : option IP := As16 <$> ParseAddr s.

Fixpoint cut_slash (s : string) : option (string * string) :=
  match s with
  | "" => None
  | String c s =>
      if bool_decide (c = "/"%char) then Some ("", s)
      else '(a, b) ← cut_slash s; Some (String c a, b)
  end.

(** [CIDRMask n (8 * len)], a byte at a time. *)
Fixpoint CIDRMask (n : Z) (len : nat) : list Z :=
  match len with
  | 0 => []
  | S len =>
      if (8 <=? n)%Z then 255%Z :: CIDRMask (n - 8) len
      else (255 - Z.shiftr 255 n)%Z :: CIDRMask 0 len
  end.

Definition IP_Mask (ip mask : list Z) : IP := zip_with Z.land ip mask.

Record IPNet := mkIPNet { net_IP : IP; net_Mask : list Z }.

(** The address and the length of the prefix, then the network; an error has a
    text. *)
Definition parse_prefix (s : string) : option (IP * Z) :=
  '(addr, mask) ← cut_slash s;
  ip ← ParseAddr addr;
  n ← parse_unsigned mask;
  if (n <=? 8 * Z.of_nat (length ip))%Z then Some (ip, n) else None.

Definition ParseCIDR (s : string) : result string IPNet :=
  match parse_prefix s with
  | Some (ip, n) => let m := CIDRMask n (length ip) in Ok (mkIPNet (IP_Mask ip m) m)
  | None => Err ("invalid CIDR address: " +:+ s)
  end.

(** ** What is parsed *)

Definition byte (z : Z) : Prop := (0 <= z < 256)%Z.
Definition well_formed (ip : IP) : Prop := (length ip = 4 \/ length ip = 16) /\ Forall byte ip.

Lemma digit_value_range c d : digit_value c = Some d -> (0 <= d <= 9)%Z.
Proof. unfold digit_value. case_match eqn:E; [|done]. intros [= <-]. lia. Qed.

Lemma parseIPv4Fields_ok s pos val digLen ip :
  parseIPv4Fields pos val digLen s = Some ip -> pos <= 3 -> byte val -> length ip + pos = 4 /\ Forall byte ip.
Proof.
  unfold byte. revert pos val digLen ip. induction s as [|c s IH]; intros pos val digLen ip; cbn [parseIPv4Fields].
  - destruct (Nat.ltb_spec pos 3); [done|]. intros [= <-] Hp Hv. simpl. split; [lia|by apply Forall_singleton].
  - destruct (digit_value c) as [d|] eqn:E.
    + apply digit_value_range in E. case_match; [done|]. destruct (Z.ltb_spec 255 (val * 10 + d)); [done|].
      intros Hr Hp Hv. eapply IH; [exact Hr|done|lia].
    + case_bool_decide; [|done]. case_match eqn:Eb; [done|]. intros (ip' & H' & ->)%fmap_Some Hp Hv.
      rewrite !orb_false_iff in Eb. destruct Eb as [_ Eb%Nat.eqb_neq]. apply IH in H' as [? ?]; [|lia..].
      simpl. split; [lia|by constructor].
Qed.

Lemma hex_digit_range c d : hex_digit_value c = Some d -> (0 <= d < 16)%Z.
Proof. unfold hex_digit_value. repeat case_match; try done; intros [= <-]; lia. Qed.

Lemma hex_group_range room : forall acc s v rest k,
  hex_group room acc s = Some (v, rest) -> (0 <= acc < 16 ^ Z.of_nat k)%Z -> (0 <= v < 16 ^ Z.of_nat (room + k))%Z.
Proof.
  induction room as [|room IH]; intros acc s v rest k; destruct s as [|c s]; cbn [hex_group].
  1,3: intros [= <- <-] Ha; split; [lia|]; eapply Z.lt_le_trans; [apply Ha|apply Z.pow_le_mono_r; lia].
  all: destruct (hex_digit_value c) as [d|] eqn:E; try done.
  1,3: intros [= <- <-] Ha; split; [lia|]; eapply Z.lt_le_trans; [apply Ha|apply Z.pow_le_mono_r; lia].
  intros H Ha. apply hex_digit_range in E. replace (S room + k) with (room + S k) by lia.
  eapply IH; [exact H|]. rewrite Nat2Z.inj_succ, Z.pow_succ_r by lia. lia.
Qed.

Lemma parse_groups_ok n : forall ip e s ip' e',
  parse_groups n ip e s = Some (ip', e') -> length ip + 2 * n = 16 -> Forall byte ip -> (forall k, e = Some k -> k <= length ip) ->
  length ip' <= 16 /\ Forall byte ip' /\ (forall k, e' = Some k -> k <= length ip').
Proof.
  induction n as [|n IH]; intros ip e s ip' e'; cbn [parse_groups].
  - case_bool_decide; [|done]. intros [= <- <-] Hl Hf He. split; [lia|done].
  - case_match; [done|]. intros ([v rest] & Hg & Hr)%bind_Some Hl Hf He. set (ip1 := ip ++ _) in Hr.
    apply (hex_group_range _ _ _ _ _ 0) in Hg; [|by simpl]. change (16 ^ Z.of_nat (4 + 0))%Z with 65536%Z in Hg.
    assert (length ip1 = length ip + 2) as Hl1 by (unfold ip1; by rewrite length_app).
    assert (Forall byte ip1) as Hf1.
    { unfold ip1. apply Forall_app. split; [done|]. unfold byte. apply Forall_cons. split; [|apply Forall_singleton; by apply Z.mod_pos_bound].
      split; [apply Z.div_pos; lia|apply Z.div_lt_upper_bound; lia]. }
    assert (length ip1 <= 16 /\ Forall byte ip1 /\ (forall k, e = Some k -> k <= length ip1)) as Hend.
    { split_and!; [lia|done|]. intros k Hk%He. lia. }
    assert (forall s, parse_groups n ip1 e s = Some (ip', e') ->
              length ip' <= 16 /\ Forall byte ip' /\ (forall k, e' = Some k -> k <= length ip')) as Hnext.
    { intros s' Hs'. eapply IH; [exact Hs'|lia|done|apply Hend]. }
    repeat case_match; simplify_eq; try done; try (by eapply Hnext).
    + apply bind_Some in Hr as (v4 & H4 & [= <- <-]). apply parseIPv4Fields_ok in H4 as [H4 ?]; [|lia|done].
      rewrite orb_false_iff in *. destruct_and!. rewrite Nat.ltb_ge in *. rewrite length_app. split_and!; [lia|by apply Forall_app|].
      intros k Hk%He. lia.
    + split_and!; [lia|done|]. by intros k [= <-].
    + eapply IH; [exact Hr|lia|done|]. by intros k [= <-].
Qed.

Lemma expand_ok ip e ip' :
  expand ip e = Some ip' -> length ip <= 16 -> Forall byte ip -> (forall k, e = Some k -> k <= length ip) ->
  length ip' = 16 /\ Forall byte ip'.
Proof.
  unfold expand. destruct (Nat.ltb_spec (length ip) 16).
  - intros (k & -> & [= <-])%bind_Some Hl Hf He. specialize (He k eq_refl).
    rewrite !length_app, length_replicate, length_take, length_drop. split; [lia|].
    rewrite !Forall_app. split_and!; [by apply Forall_take|by apply Forall_replicate|by apply Forall_drop].
  - case_bool_decide; [done|]. intros [= <-] Hl Hf _. split; [lia|done].
Qed.

Lemma parseIPv6_ok s ip : parseIPv6 s = Some ip -> length ip = 16 /\ Forall byte ip.
Proof.
  assert (forall e s, ('(ip, e) ← parse_groups 8 [] e s; expand ip e) = Some ip -> (forall k, e = Some k -> k = 0) ->
            length ip = 16 /\ Forall byte ip) as Hgo.
  { intros e s' ([ip1 e1] & Hg & Hx)%bind_Some He. apply parse_groups_ok in Hg as (? & ? & ?); [|done..|].
    - by eapply expand_ok.
    - intros k Hk%He. by subst. }
  unfold parseIPv6. intros H. repeat case_match; simplify_eq; try (eapply Hgo; [exact H|]; by intros k [= <-]).
  split; [done|by apply Forall_replicate].
Qed.

Lemma ParseAddr_ok s ip : ParseAddr s = Some ip -> well_formed ip.
Proof.
  unfold ParseAddr, well_formed. intros H. repeat case_match; simplify_eq.
  - apply parseIPv4Fields_ok in H as [? ?]; [|lia|done]. split; [left; lia|done].
  - apply parseIPv6_ok in H as [? ?]. auto.
Qed.

(** ** Addresses as numbers *)

Fixpoint be (l : list Z) : Z :=
  match l with
  | [] => 0
  | b :: l => b * 256 ^ Z.of_nat (length l) + be l
  end%Z.

(** The number of an address, IPv4 addresses within IPv6. *)
Definition value (ip : IP) : Z := be (As16 ip).

Lemma pow256 n : (256 ^ Z.of_nat n = 2 ^ (8 * Z.of_nat n))%Z.
Proof. rewrite Z.pow_mul_r by lia. done. Qed.

Lemma pow256_S n : (256 ^ Z.of_nat (S n) = 256 * 256 ^ Z.of_nat n)%Z.
Proof. by rewrite Nat2Z.inj_succ, Z.pow_succ_r by lia. Qed.

Lemma be_range l : Forall byte l -> (0 <= be l < 256 ^ Z.of_nat (length l))%Z.
Proof.
  unfold byte. induction 1 as [|b l Hb _ IH]; simpl length; [by simpl|]. rewrite pow256_S. cbn [be]. nia.
Qed.

Lemma be_app l1 l2 : be (l1 ++ l2) = (be l1 * 256 ^ Z.of_nat (length l2) + be l2)%Z.
Proof.
  induction l1 as [|b l1 IH]; [done|]. cbn [be app]. rewrite IH, length_app, Nat2Z.inj_add, Z.pow_add_r by lia. lia.
Qed.

Lemma As16_length ip : well_formed ip -> length (As16 ip) = 16.
Proof. intros [[E|E] _]; unfold As16; rewrite E; simpl; [by rewrite E|done]. Qed.

Lemma As16_bytes ip : Forall byte ip -> Forall byte (As16 ip).
Proof.
  intros Hf. unfold As16. case_match; [|done]. apply Forall_app. split; [|done].
  unfold v4InV6Prefix, byte. repeat constructor; lia.
Qed.

(** ** Networks *)

(** A property of a byte and a number of bits, checked for all of them. *)
Lemma byte_cases (P : Z -> Z -> bool) n b :
  forallb (fun n => forallb (P n) (seqZ 0 256)) (seqZ 0 8) = true -> (0 <= n < 8)%Z -> byte b -> P n b = true.
Proof.
  intros H Hn Hb. rewrite forallb_forall in H. specialize (H n). rewrite <- list_elem_of_In, elem_of_seqZ in H.
  specialize (H ltac:(lia)). rewrite forallb_forall in H. apply H, list_elem_of_In, elem_of_seqZ. unfold byte in Hb. lia.
Qed.

Lemma mask_byte n b :
  (0 <= n < 8)%Z -> byte b -> Z.land b (255 - Z.shiftr 255 n) = (b / 2 ^ (8 - n) * 2 ^ (8 - n))%Z.
Proof.
  intros Hn Hb. apply Z.eqb_eq.
  apply (byte_cases (fun n b => Z.land b (255 - Z.shiftr 255 n) =? b / 2 ^ (8 - n) * 2 ^ (8 - n))%Z); [|done..].
  vm_compute. reflexivity.
Qed.

Lemma mask_zero l : Forall byte l -> be (IP_Mask l (CIDRMask 0 (length l))) = 0%Z.
Proof.
  induction 1 as [|b l Hb _ IH]; [done|]. cbn [length CIDRMask]. change (8 <=? 0)%Z with false. unfold IP_Mask in *. cbn [zip_with be].
  rewrite IH, (mask_byte 0 b) by done. rewrite Z.div_small by (unfold byte in Hb; lia). lia.
Qed.

Lemma CIDRMask_length n len : length (CIDRMask n len) = len.
Proof. revert n. induction len as [|len IH]; intros n; [done|]. simpl. case_match; simpl; by rewrite IH. Qed.

Lemma IP_Mask_length ip n : length (IP_Mask ip (CIDRMask n (length ip))) = length ip.
Proof. unfold IP_Mask. rewrite length_zip_with, CIDRMask_length. lia. Qed.

(** The network's address: the bits below the prefix are cleared. *)
Lemma mask_value l n :
  Forall byte l -> (0 <= n <= 8 * Z.of_nat (length l))%Z ->
  let k := (8 * Z.of_nat (length l) - n)%Z in
  be (IP_Mask l (CIDRMask n (length l))) = (be l / 2 ^ k * 2 ^ k)%Z.
Proof.
  intros Hf. revert n. induction Hf as [|b l Hb Hf IH]; intros n Hn k; [by destruct k|].
  unfold k. clear k. cbn [length] in *. rewrite Nat2Z.inj_succ in *. cbn [CIDRMask]. destruct (Z.leb_spec 8 n).
  - specialize (IH (n - 8)%Z ltac:(lia)). unfold IP_Mask in *. cbn [zip_with be]. simpl in IH. rewrite IH.
    replace (8 * Z.of_nat (length l) - (n - 8))%Z with (8 * Z.succ (Z.of_nat (length l)) - n)%Z by lia.
    set (k := (8 * Z.succ (Z.of_nat (length l)) - n)%Z). rewrite length_zip_with, CIDRMask_length, Nat.min_id.
    replace (Z.land b 255) with b
      by (change 255%Z with (Z.ones 8); rewrite Z.land_ones, Z.mod_small by (unfold byte in Hb; lia); done).
    assert (256 ^ Z.of_nat (length l) = 2 ^ (n - 8) * 2 ^ k)%Z as ->.
    { rewrite pow256, <- Z.pow_add_r by lia. f_equal. lia. }
    rewrite Z.mul_assoc, Z.div_add_l by (apply Z.pow_nonzero; lia). lia.
  - unfold IP_Mask. cbn [zip_with be]. fold (IP_Mask l (CIDRMask 0 (length l))).
    rewrite mask_zero, IP_Mask_length, mask_byte by (done || lia).
    replace (8 * Z.succ (Z.of_nat (length l)) - n)%Z with (8 * Z.of_nat (length l) + (8 - n))%Z by lia.
    assert (0 < 2 ^ (8 - n))%Z by (apply Z.pow_pos_nonneg; lia).
    pose proof (be_range l Hf). rewrite Z.pow_add_r, <- pow256 by lia.
    rewrite <- (Z.div_div _ (256 ^ Z.of_nat (length l))), Z.div_add_l, (Z.div_small (be l)) by lia.
    rewrite !Z.add_0_r. ring.
Qed.
