(* ===== verification/Actions.v ===== *)
(** * Actions, checks and image layers

    What a container is asked to run: [bbs/models/actions.go] with the actions'
    messages, health checks, security group rules, sidecars, and
    [bbs/models/image_layer.go], which turns image layers into downloads and
    cached dependencies.  Elements of repeated fields are not nil. *)
From Stdlib Require Import ZArith.
From S2P Require Import Prelude GoStd.

(** ** Actions *)

(** [models.EnvironmentVariable]; the executor has a type of its own. *)
Record ModelVariable := mkModelVariable { mv_Name : string; mv_Value : string }.

Record File := mkFile { file_Path : string; file_Content : string }.

Record DownloadAction := mkDownloadAction {
  da_Artifact : string;
  da_From : string;
  da_To : string;
  da_CacheKey : string;
  da_LogSource : string;
  da_User : string;
  da_ChecksumAlgorithm : string;
  da_ChecksumValue : string }.

Record UploadAction := mkUploadAction {
  ua_Artifact : string;
  ua_From : string;
  ua_To : string;
  ua_LogSource : string;
  ua_User : string }.

Record RunAction := mkRunAction {
  ra_Path : string;
  ra_Args : list string;
  ra_Dir : string;
  ra_Env : list ModelVariable;
  ra_Nofile : option Z;              (* uint64 *)
  ra_Nproc : option Z;               (* uint64 *)
  ra_User : string;
  ra_LogSource : string;
  ra_SuppressLogOutput : bool;
  ra_VolumeMountedFiles : list File }.

(** An [*Action] that is not nil, by the field that is set; a nil pointer is
    [None] of [option Action]. *)
Inductive Action :=
| ADownload (d : DownloadAction)
| AUpload (u : UploadAction)
| ARun (r : RunAction)
| ATimeout (a : option Action) (logSource : string) (timeoutMs : Z)
| AEmitProgress (a : option Action) (startMessage successMessage failureMessagePrefix logSource : string)
| ATry (a : option Action) (logSource : string)
| AParallel (l : list (option Action)) (logSource : string)
| ASerial (l : list (option Action)) (logSource : string)
| ACodependent (l : list (option Action)) (logSource : string)
| ANothing.

(** The value of an action; [None] is nil. *)
Definition UnwrapAction (a : option Action) : option Action :=
  match a with
  | Some ANothing => None
  | _ => a
  end.

Definition Parallel (l : list (option Action)) : Action := AParallel l "".
Definition Serial (l : list (option Action)) : Action := ASerial l "".

(** ** Checks, sidecars and egress rules *)

Record TCPCheck := mkTCPCheck {
  tc_Port : Z;                       (* uint32 *)
  tc_ConnectTimeoutMs : Z;           (* uint64 *)
  tc_IntervalMs : Z }.               (* uint64 *)

Record HTTPCheck := mkHTTPCheck {
  hc_Port : Z;                       (* uint32 *)
  hc_RequestTimeoutMs : Z;           (* uint64 *)
  hc_Path : string;
  hc_IntervalMs : Z }.               (* uint64 *)

Record Check := mkCheck { ck_TcpCheck : option TCPCheck; ck_HttpCheck : option HTTPCheck }.

(** The lists are nil slices or not. *)
Record CheckDefinition := mkCheckDefinition {
  ckd_Checks : option (list Check);
  ckd_LogSource : string;
  ckd_ReadinessChecks : option (list Check) }.

Record Sidecar := mkSidecar { sc_Action : option Action; sc_DiskMB : Z; sc_MemoryMB : Z }.

Record SecurityGroupRule := mkSecurityGroupRule {
  sg_Protocol : string;
  sg_Destinations : list string;
  sg_Ports : option (list Z);           (* uint32, a nil slice or not *)
  sg_PortRange : option (Z * Z);        (* uint32 *)
  sg_IcmpInfo : option (Z * Z);         (* int32 *)
  sg_Log : bool;
  sg_Annotations : list string }.

(** ** Image layers *)

Inductive LayerType := LayerTypeInvalid | LayerTypeShared | LayerTypeExclusive.
Inductive MediaType := MediaTypeInvalid | MediaTypeTgz | MediaTypeTar | MediaTypeZip.
Inductive DigestAlgorithm := DigestAlgorithmInvalid | DigestAlgorithmSha256 | DigestAlgorithmSha512.

#[global] Instance LayerType_eq_dec : EqDecision LayerType.
Proof. solve_decision. Defined.
#[global] Instance MediaType_eq_dec : EqDecision MediaType.
Proof. solve_decision. Defined.
#[global] Instance DigestAlgorithm_eq_dec : EqDecision DigestAlgorithm.
Proof. solve_decision. Defined.

(** [strings.ToLower] of the name of an algorithm. *)
Definition algorithm_name (d : DigestAlgorithm) : string :=
  match d with
  | DigestAlgorithmInvalid => "digestalgorithminvalid"
  | DigestAlgorithmSha256 => "sha256"
  | DigestAlgorithmSha512 => "sha512"
  end.

Record ImageLayer := mkImageLayer {
  il_Name : string;
  il_Url : string;
  il_DestinationPath : string;
  il_LayerType : LayerType;
  il_MediaType : MediaType;
  il_DigestAlgorithm : DigestAlgorithm;
  il_DigestValue : string }.

(** [models.CachedDependency]; the executor has a type of its own. *)
Record ModelDependency := mkModelDependency {
  md_Name : string;
  md_From : string;
  md_To : string;
  md_CacheKey : string;
  md_LogSource : string;
  md_ChecksumAlgorithm : string;
  md_ChecksumValue : string }.

Definition FilterByType (layers : list ImageLayer) (ty : LayerType) : list ImageLayer :=
  filter (fun l => il_LayerType l = ty) layers.

Definition download_of (legacyDownloadUser : string) (layer : ImageLayer) : DownloadAction :=
  let alg := algorithm_name (il_DigestAlgorithm layer) in
  {| da_Artifact := il_Name layer;
     da_From := il_Url layer;
     da_To := il_DestinationPath layer;
     da_CacheKey := alg +:+ ":" +:+ il_DigestValue layer;
     da_LogSource := "";
     da_User := legacyDownloadUser;
     da_ChecksumAlgorithm := alg;
     da_ChecksumValue := il_DigestValue layer |}.

Definition ToDownloadActions (layers : list ImageLayer) (legacyDownloadUser : string)
    (existingAction : option Action) : option Action :=
  match FilterByType layers LayerTypeExclusive with
  | [] => existingAction
  | ls =>
      let parallel := Parallel ((fun l => Some (ADownload (download_of legacyDownloadUser l))) <$> ls) in
      match existingAction with
      | Some _ => Some (Serial [Some parallel; UnwrapAction existingAction])
      | None => Some parallel
      end
  end.

Definition dependency_of (layer : ImageLayer) : ModelDependency :=
  let alg := if bool_decide (il_DigestAlgorithm layer = DigestAlgorithmInvalid) then ""
             else algorithm_name (il_DigestAlgorithm layer) in
  {| md_Name := il_Name layer;
     md_From := il_Url layer;
     md_To := il_DestinationPath layer;
     md_CacheKey := if bool_decide (il_DigestValue layer = "") then il_Url layer
                    else alg +:+ ":" +:+ il_DigestValue layer;
     md_LogSource := "";
     md_ChecksumValue := il_DigestValue layer;
     md_ChecksumAlgorithm := alg |}.

Definition ToCachedDependencies (layers : list ImageLayer) : list ModelDependency :=
  dependency_of <$> FilterByType layers LayerTypeShared.
