(* ===== verification/Egress.v ===== *)
(** * Egress rules

    [bbs/models/security_groups.go], [executor/depot/containerstore/helpers.go]
    and [garden/net_out_rule.go]: the validation of security group rules, their
    conversion to garden's rules for outgoing traffic, and the traffic both
    stand for. *)
From Stdlib Require Import ZArith Lia Ascii.
From S2P Require Import Prelude GoStd NetIP Actions.

Definition u8 : Z -> Z := wrap_unsigned 8.

(** ** Validation *)

(** [ValidationError.Error]. *)
Fixpoint ValidationError_Error (ve : list string) : string :=
  match ve with
  | [] => ""
  | [e] => e
  | e :: ve => e +:+ ", " +:+ ValidationError_Error ve
  end.

Definition ErrInvalidField (field : string) : string := "Invalid field: " +:+ field.
Definition errInvalidIP : string := "invalid IP".

(** [strings.Split(s, ",")] *)
Fixpoint split_comma (s : string) : list string :=
  match s with
  | "" => [""]
  | String c s =>
      match split_comma s with
      | part :: parts => if bool_decide (c = ","%char) then "" :: part :: parts else String c part :: parts
      | [] => []
      end
  end.

(** [strings.IndexAny(s, "-/")], as what is before, the character, and what is
    after. *)
Fixpoint index_any (s : string) : option (string * ascii * string) :=
  match s with
  | "" => None
  | String c s =>
      if bool_decide (c = "-"%char \/ c = "/"%char) then Some ("", c, s)
      else '(a, c', b) ← index_any s; Some (String c a, c', b)
  end.

Definition destinations (rule : SecurityGroupRule) : list string := sg_Destinations rule ≫= split_comma.

Definition field_errors (b : bool) (field : string) : list string := if b then [ErrInvalidField field] else [].

Definition validatePorts (rule : SecurityGroupRule) : list string :=
  match sg_PortRange rule, sg_Ports rule with
  | None, None => ["missing required field: ports or port_range"]
  | Some _, Some _ => ["invalid: ports and port_range provided"]
  | Some (st, en), None =>
      field_errors (st <? 1)%Z "port_range" ++ field_errors (en <? 1)%Z "port_range" ++ field_errors (en <? st)%Z "port_range"
  | None, Some ports =>
      field_errors (bool_decide (ports = [])) "ports" ++ (ports ≫= fun p => field_errors (p <? 1)%Z "ports")
  end.

(** The loop over the bytes of the two ends of a range, which goes on after an
    error. *)
Fixpoint range_errors (firstIP secondIP : IP) : list string :=
  match firstIP, secondIP with
  | b :: firstIP, b' :: secondIP =>
      if (b <? b')%Z then []
      else if (b =? b')%Z then range_errors firstIP secondIP
      else errInvalidIP :: range_errors firstIP secondIP
  | _, _ => []
  end.

Definition destination_errors (d : string) : list string :=
  match index_any d with
  | None => match ParseIP d with None => [errInvalidIP] | Some _ => [] end
  | Some (a, c, b) =>
      if bool_decide (c = "/"%char) then match ParseCIDR d with Err e => [e] | Ok _ => [] end
      else match ParseIP a, ParseIP b with
           | Some firstIP, Some secondIP => range_errors firstIP secondIP
           | _, _ => [errInvalidIP]
           end
  end.

Definition validateDestinations (rule : SecurityGroupRule) : option string :=
  if bool_decide (sg_Destinations rule = []) then Some "must have at least 1 destination"
  else match destinations rule ≫= destination_errors with
       | [] => None
       | ve => Some (ValidationError_Error ve)
       end.

Definition TCPProtocol : string := "tcp".
Definition UDPProtocol : string := "udp".
Definition ICMPProtocol : string := "icmp".
Definition ICMPv6Protocol : string := "icmpv6".
Definition AllProtocol : string := "all".

Definition protocol_errors (rule : SecurityGroupRule) : list string :=
  let named p := bool_decide (sg_Protocol rule = p) in
  let hasRange := bool_decide (is_Some (sg_PortRange rule)) in
  let hasPorts := bool_decide (is_Some (sg_Ports rule)) in
  let hasIcmp := bool_decide (is_Some (sg_IcmpInfo rule)) in
  if named TCPProtocol || named UDPProtocol then validatePorts rule ++ field_errors hasIcmp "icmp_info"
  else if named ICMPProtocol then
    field_errors hasRange "port_range" ++ field_errors hasPorts "ports" ++ field_errors (negb hasIcmp) "icmp_info"
  else if named ICMPv6Protocol then
    field_errors hasRange "port_range" ++ field_errors hasPorts "ports" ++ field_errors (negb hasIcmp) "icmpv6_info"
  else if named AllProtocol then
    field_errors hasRange "port_range" ++ field_errors hasPorts "ports" ++ field_errors hasIcmp "icmp_info"
  else field_errors true "protocol".

(** [None] where the rule is valid, else the text of the error. *)
Definition SecurityGroupRule_Validate (rule : SecurityGroupRule) : option string :=
  match protocol_errors rule ++
        match validateDestinations rule with
        | Some e => [ErrInvalidField ("destinations [ " +:+ e +:+ " ]")]
        | None => []
        end with
  | [] => None
  | ve => Some (ValidationError_Error ve)
  end.

(** ** Garden's rules *)

Record IPRange := mkIPRange { ir_Start : IP; ir_End : IP }.

Inductive Protocol := ProtocolAll | ProtocolTCP | ProtocolUDP | ProtocolICMP | ProtocolICMPv6.

Record NetOutRule := mkNetOutRule {
  no_Protocol : Protocol;
  no_Networks : list IPRange;
  no_Ports : list (Z * Z);               (* uint16 *)
  no_ICMPs : option (Z * option Z);      (* uint8 *)
  no_Log : bool }.

Definition IPRangeFromIP (ip : IP) : IPRange := mkIPRange ip ip.

(** Bytes of [^m | ip]. *)
Definition lastIP (n : IPNet) : IP := zip_with (fun m b => Z.lor (255 - m) b) (net_Mask n) (net_IP n).

Definition IPRangeFromIPNet (n : IPNet) : IPRange := mkIPRange (net_IP n) (lastIP n).

(** ** Conversion *)

Definition ErrIPRangeConversionFailed : string := "failed to convert destination to ip range".

Definition toIPRange (dest : string) : result string IPRange :=
  match index_any dest with
  | None => match ParseIP dest with None => Err ErrIPRangeConversionFailed | Some ip => Ok (IPRangeFromIP ip) end
  | Some (a, c, b) =>
      if bool_decide (c = "/"%char) then
        match ParseCIDR dest with Err _ => Err ErrIPRangeConversionFailed | Ok ipNet => Ok (IPRangeFromIPNet ipNet) end
      else match ParseIP a, ParseIP b with
           | Some firstIP, Some secondIP => Ok (mkIPRange firstIP secondIP)
           | _, _ => Err ErrIPRangeConversionFailed
           end
  end.

(** The protocol and the ICMP control of a rule; [None] is a nil dereference.
    An unknown protocol leaves the zero value, which is all. *)
Definition rule_protocol (rule : SecurityGroupRule) : option (Protocol * option (Z * option Z)) :=
  let named p := bool_decide (sg_Protocol rule = p) in
  let icmp p := info ← sg_IcmpInfo rule; Some (p, Some (u8 info.1, Some (u8 info.2))) in
  if named TCPProtocol then Some (ProtocolTCP, None)
  else if named UDPProtocol then Some (ProtocolUDP, None)
  else if named ICMPProtocol then icmp ProtocolICMP
  else if named ICMPv6Protocol then icmp ProtocolICMPv6
  else Some (ProtocolAll, None).

Definition rule_ports (rule : SecurityGroupRule) : list (Z * Z) :=
  match sg_PortRange rule with
  | Some (st, en) => [(u16 st, u16 en)]
  | None => (fun p => (u16 p, u16 p)) <$> default [] (sg_Ports rule)
  end.

Fixpoint rules_for (mk : IPRange -> NetOutRule) (dests : list string) : result string (list NetOutRule) :=
  match dests with
  | [] => Ok []
  | dest :: dests =>
      match toIPRange dest with
      | Err e => Err e
      | Ok ipRange => match rules_for mk dests with Err e => Err e | Ok l => Ok (mk ipRange :: l) end
      end
  end.

Definition securityGroupRuleToNetOutRules (rule : SecurityGroupRule) : option (result string (list NetOutRule)) :=
  '(protocol, icmp) ← rule_protocol rule;
  Some (rules_for (fun ipRange => mkNetOutRule protocol [ipRange] (rule_ports rule) icmp (sg_Log rule)) (destinations rule)).

Fixpoint convertEgressToNetOut (egressRules : list SecurityGroupRule) : option (result string (list NetOutRule)) :=
  match egressRules with
  | [] => Some (Ok [])
  | rule :: rest =>
      match SecurityGroupRule_Validate rule with
      | Some e => Some (Err e)
      | None =>
          r ← securityGroupRuleToNetOutRules rule;
          match r with
          | Err e => Some (Err e)
          | Ok next =>
              r ← convertEgressToNetOut rest;
              Some match r with Err e => Err e | Ok l => Ok (next ++ l) end
          end
      end
  end.

(** ** The traffic rules stand for *)

Inductive PacketProtocol := PacketTCP | PacketUDP | PacketICMP | PacketICMPv6 | PacketOther.

(** A packet: the number of its destination, and the port or the ICMP type and
    code where its protocol has them. *)
Record Packet := mkPacket {
  pk_Protocol : PacketProtocol; pk_Dest : Z; pk_Port : Z; pk_Type : Z; pk_Code : Z }.

(** A destination as written: an address, a network or a range of addresses. *)
Definition dest_covers (d : string) (x : Z) : Prop :=
  match index_any d with
  | None => exists ip, ParseIP d = Some ip /\ x = value ip
  | Some (a, c, b) =>
      if bool_decide (c = "/"%char) then
        exists ip n, parse_prefix d = Some (ip, n) /\
          let k := (8 * Z.of_nat (length ip) - n)%Z in (x / 2 ^ k = value ip / 2 ^ k)%Z
      else exists ip ip', ParseIP a = Some ip /\ ParseIP b = Some ip' /\ (value ip <= x <= value ip')%Z
  end.

Definition port_allowed (rule : SecurityGroupRule) (port : Z) : Prop :=
  (exists st en, sg_PortRange rule = Some (st, en) /\ (st <= port <= en)%Z) \/
  (exists ports, sg_Ports rule = Some ports /\ port ∈ ports).

Definition icmp_allowed (rule : SecurityGroupRule) (pk : Packet) : Prop :=
  exists t c, sg_IcmpInfo rule = Some (t, c) /\ pk_Type pk = t /\ pk_Code pk = c.

(** What a rule allows besides the destination. *)
Definition traffic_allowed (rule : SecurityGroupRule) (pk : Packet) : Prop :=
  sg_Protocol rule = TCPProtocol /\ pk_Protocol pk = PacketTCP /\ port_allowed rule (pk_Port pk) \/
  sg_Protocol rule = UDPProtocol /\ pk_Protocol pk = PacketUDP /\ port_allowed rule (pk_Port pk) \/
  sg_Protocol rule = ICMPProtocol /\ pk_Protocol pk = PacketICMP /\ icmp_allowed rule pk \/
  sg_Protocol rule = ICMPv6Protocol /\ pk_Protocol pk = PacketICMPv6 /\ icmp_allowed rule pk \/
  sg_Protocol rule = AllProtocol.

(** What a security group rule allows. *)
Definition rule_allows (rule : SecurityGroupRule) (pk : Packet) : Prop :=
  Exists (fun d => dest_covers d (pk_Dest pk)) (destinations rule) /\ traffic_allowed rule pk.

(** What a rule of garden lets through, as its documentation says: no networks,
    ports or ICMP control mean all of them; ports are ignored for ICMP, and the
    ICMP control for everything else. *)
Definition protocol_matches (p : Protocol) (q : PacketProtocol) : Prop :=
  match p, q with
  | ProtocolAll, _ | ProtocolTCP, PacketTCP | ProtocolUDP, PacketUDP
  | ProtocolICMP, PacketICMP | ProtocolICMPv6, PacketICMPv6 => True
  | _, _ => False
  end.
Definition is_icmp (p : Protocol) : Prop := p = ProtocolICMP \/ p = ProtocolICMPv6.

Definition range_covers (r : IPRange) (x : Z) : Prop := (value (ir_Start r) <= x <= value (ir_End r))%Z.

Definition net_allows (r : NetOutRule) (pk : Packet) : Prop :=
  protocol_matches (no_Protocol r) (pk_Protocol pk) /\
  (no_Networks r = [] \/ Exists (fun n => range_covers n (pk_Dest pk)) (no_Networks r)) /\
  (is_icmp (no_Protocol r) \/ no_Ports r = [] \/ Exists (fun p => p.1 <= pk_Port pk <= p.2)%Z (no_Ports r)) /\
  (~ is_icmp (no_Protocol r) \/
   forall t code, no_ICMPs r = Some (t, code) -> pk_Type pk = t /\ (forall c, code = Some c -> pk_Code pk = c)).

(** ** Destinations *)

Lemma last_byte n b :
  (0 <= n < 8)%Z -> byte b ->
  Z.lor (255 - (255 - Z.shiftr 255 n)) (Z.land b (255 - Z.shiftr 255 n)) =
    (Z.land b (255 - Z.shiftr 255 n) + (2 ^ (8 - n) - 1))%Z.
Proof.
  intros Hn Hb. apply Z.eqb_eq.
  apply (byte_cases (fun n b => Z.lor (255 - (255 - Z.shiftr 255 n)) (Z.land b (255 - Z.shiftr 255 n)) =?
    Z.land b (255 - Z.shiftr 255 n) + (2 ^ (8 - n) - 1))%Z); [|done..].
  vm_compute. reflexivity.
Qed.

Definition cidr (ip : IP) (n : Z) : IPNet :=
  mkIPNet (IP_Mask ip (CIDRMask n (length ip))) (CIDRMask n (length ip)).

Lemma lastIP_length ip n : length (lastIP (cidr ip n)) = length ip.
Proof. unfold lastIP. simpl. rewrite length_zip_with, IP_Mask_length, CIDRMask_length. lia. Qed.

(** The last address of a network: the bits below the prefix are set. *)
Lemma lastIP_value l n :
  Forall byte l -> (0 <= n <= 8 * Z.of_nat (length l))%Z ->
  be (lastIP (cidr l n)) = (be (net_IP (cidr l n)) + (2 ^ (8 * Z.of_nat (length l) - n) - 1))%Z.
Proof.
  intros Hf. revert n. induction Hf as [|b l Hb Hf IH]; intros n Hn.
  { simpl. replace n with 0%Z by (simpl in Hn; lia). done. }
  unfold lastIP, cidr, IP_Mask in *. cbn [length net_IP net_Mask CIDRMask] in *. rewrite Nat2Z.inj_succ in *.
  destruct (Z.leb_spec 8 n); cbn [zip_with be]; rewrite !length_zip_with, !CIDRMask_length, !Nat.min_id.
  - rewrite IH by lia. replace (8 * Z.of_nat (length l) - (n - 8))%Z with (8 * Z.succ (Z.of_nat (length l)) - n)%Z by lia.
    change (255 - 255)%Z with 0%Z. rewrite Z.lor_0_l. lia.
  - rewrite last_byte by (lia || done). rewrite IH by lia. rewrite Z.sub_0_r, <- pow256.
    replace (8 * Z.succ (Z.of_nat (length l)) - n)%Z with (8 * Z.of_nat (length l) + (8 - n))%Z by lia.
    rewrite Z.pow_add_r, <- pow256 by lia. ring.
Qed.

Lemma value_tail ip : well_formed ip -> exists h, forall ip', length ip' = length ip ->
  value ip' = (h * 2 ^ (8 * Z.of_nat (length ip)) + be ip')%Z.
Proof.
  intros [[E|E] _]; unfold value, As16; rewrite E; [exists (be v4InV6Prefix)|exists 0%Z]; intros ip' El; rewrite El; cbv [Nat.eqb].
  - by rewrite be_app, El.
  - done.
Qed.

Lemma net_covers ip n x :
  well_formed ip -> (0 <= n <= 8 * Z.of_nat (length ip))%Z ->
  let k := (8 * Z.of_nat (length ip) - n)%Z in
  range_covers (IPRangeFromIPNet (cidr ip n)) x <-> (x / 2 ^ k = value ip / 2 ^ k)%Z.
Proof.
  intros Hw Hn k. unfold range_covers. cbn [IPRangeFromIPNet ir_Start ir_End].
  destruct (value_tail ip Hw) as [h Hh]. destruct Hw as [_ Hf].
  rewrite (Hh (lastIP _)), (Hh ip), (Hh (net_IP _)) by (apply IP_Mask_length || apply lastIP_length || done).
  rewrite lastIP_value by done. cbn [cidr net_IP]. rewrite mask_value by done. fold k.
  assert (0 < 2 ^ k)%Z by (apply Z.pow_pos_nonneg; lia).
  assert (2 ^ (8 * Z.of_nat (length ip)) = 2 ^ n * 2 ^ k)%Z as -> by (rewrite <- Z.pow_add_r by lia; f_equal; lia).
  rewrite Z.mul_assoc, Z.div_add_l by lia. set (q := (h * 2 ^ n + be ip / 2 ^ k)%Z).
  replace (h * 2 ^ n * 2 ^ k + be ip / 2 ^ k * 2 ^ k)%Z with (q * 2 ^ k)%Z by (unfold q; ring).
  replace (h * 2 ^ n * 2 ^ k + (be ip / 2 ^ k * 2 ^ k + (2 ^ k - 1)))%Z with (q * 2 ^ k + (2 ^ k - 1))%Z by (unfold q; ring).
  split.
  - intros Hx. symmetry. apply Z.div_unique_pos with (x - q * 2 ^ k)%Z; lia.
  - intros <-. pose proof (Z.div_mod x (2 ^ k) ltac:(lia)). pose proof (Z.mod_pos_bound x (2 ^ k) ltac:(lia)). lia.
Qed.

Lemma parse_digits_nonneg s acc z : parse_digits acc s = Some z -> (0 <= acc)%Z -> (0 <= z)%Z.
Proof.
  revert acc. induction s as [|c s IH]; intros acc; simpl; [congruence|].
  intros (d & Hd%digit_value_range & H)%bind_Some Ha. eapply IH; [exact H|lia].
Qed.

Lemma parse_prefix_ok s ip n :
  parse_prefix s = Some (ip, n) -> well_formed ip /\ (0 <= n <= 8 * Z.of_nat (length ip))%Z.
Proof.
  unfold parse_prefix. intros ([a m] & _ & H)%bind_Some. apply bind_Some in H as (ip' & Hip & H).
  apply bind_Some in H as (n' & Hn & H). destruct (Z.leb_spec n' (8 * Z.of_nat (length ip'))); [|done].
  injection H as <- <-. apply ParseAddr_ok in Hip. unfold parse_unsigned in Hn. case_bool_decide; [done|].
  apply parse_digits_nonneg in Hn; [|done]. auto.
Qed.

Lemma toIPRange_covers d :
  destination_errors d = [] -> exists r, toIPRange d = Ok r /\ forall x, range_covers r x <-> dest_covers d x.
Proof.
  unfold destination_errors, toIPRange, dest_covers. destruct (index_any d) as [[[a c] b]|]; [case_bool_decide|].
  - unfold ParseCIDR. destruct (parse_prefix d) as [[ip n]|] eqn:E; [|done]. intros _. eexists. split; [done|]. intros x.
    apply parse_prefix_ok in E as [Hw Hn]. rewrite (net_covers ip n x Hw Hn). split; [by eauto|]. by intros (? & ? & [= <- <-] & ?).
  - destruct (ParseIP a), (ParseIP b); try done. intros _. eexists. split; [done|]. intros x. split; [by eauto 6|].
    by intros (? & ? & [= <-] & [= <-] & ?).
  - destruct (ParseIP d); [|done]. intros _. eexists. split; [done|]. intros x. unfold range_covers. simpl. split.
    + intros ?. eexists. split; [done|]. lia.
    + intros (? & [= <-] & ->). lia.
Qed.

(** ** Rules *)

Lemma rules_for_ok mk dests :
  Forall (fun d => destination_errors d = []) dests ->
  exists ranges, rules_for mk dests = Ok (mk <$> ranges) /\
    Forall2 (fun d r => forall x, range_covers r x <-> dest_covers d x) dests ranges.
Proof.
  induction 1 as [|d dests Hd _ (ranges & Hr & Hf)]; [by exists []|].
  destruct (toIPRange_covers d Hd) as (r & Ht & Hx). exists (r :: ranges). cbn [rules_for]. rewrite Ht, Hr.
  split; [done|by constructor].
Qed.

Lemma Exists_Forall2 {A B} (R : A -> B -> Prop) (P : A -> Prop) (Q : B -> Prop) l k :
  Forall2 R l k -> (forall a b, R a b -> P a <-> Q b) -> Exists P l <-> Exists Q k.
Proof.
  intros H HPQ. induction H as [|a b l k Hab _ IH]; [by rewrite !Exists_nil|].
  by rewrite !Exists_cons, (HPQ a b Hab), IH.
Qed.

Lemma Validate_valid rule :
  SecurityGroupRule_Validate rule = None ->
  protocol_errors rule = [] /\ Forall (fun d => destination_errors d = []) (destinations rule).
Proof.
  unfold SecurityGroupRule_Validate, validateDestinations. destruct (protocol_errors rule); [|by repeat case_match].
  case_bool_decide; [done|]. destruct (destinations rule ≫= destination_errors) eqn:E; [|done]. intros _. split; [done|].
  apply Forall_forall. intros d Hd. apply elem_of_nil_inv. intros e He. apply (not_elem_of_nil e). rewrite <- E.
  apply list_elem_of_bind. eauto.
Qed.

(** The ports fit garden's 16 bits, ICMP types and codes its 8 bits. *)
Definition ports_fit (rule : SecurityGroupRule) : Prop :=
  (forall st en, sg_PortRange rule = Some (st, en) -> (st < 2 ^ 16 /\ en < 2 ^ 16)%Z) /\
  (forall ports, sg_Ports rule = Some ports -> Forall (fun p => p < 2 ^ 16)%Z ports).
Definition numbers_fit (rule : SecurityGroupRule) : Prop :=
  ports_fit rule /\ forall t c, sg_IcmpInfo rule = Some (t, c) -> (0 <= t < 2 ^ 8 /\ 0 <= c < 2 ^ 8)%Z.

Lemma field_errors_nil b f : field_errors b f = [] -> b = false.
Proof. by destruct b. Qed.

Lemma valid_ports rule port :
  validatePorts rule = [] -> ports_fit rule ->
  (rule_ports rule = [] \/ Exists (fun p => p.1 <= port <= p.2)%Z (rule_ports rule)) <-> port_allowed rule port.
Proof.
  assert (forall p, (1 <= p < 2 ^ 16)%Z -> u16 p = p) as Hu.
  { intros p Hp. unfold u16, wrap_unsigned. apply Z.mod_small. lia. }
  unfold validatePorts, rule_ports, port_allowed. intros Hv [Hr Hp].
  destruct (sg_PortRange rule) as [[st en]|], (sg_Ports rule) as [ports|]; try done.
  - specialize (Hr _ _ eq_refl). apply app_nil in Hv as [H1%field_errors_nil Hv]. apply app_nil in Hv as [H2%field_errors_nil _].
    rewrite !Hu by lia. rewrite Exists_cons, Exists_nil. simpl. naive_solver.
  - specialize (Hp _ eq_refl). apply app_nil in Hv as [Hn%field_errors_nil Hv]. case_bool_decide as Hne; [done|]. simpl.
    assert ((fun p => (u16 p, u16 p)) <$> ports = (fun p => (p, p)) <$> ports) as ->.
    { apply list_fmap_ext. intros i p Hi%list_elem_of_lookup_2. rewrite Forall_forall in Hp. specialize (Hp p Hi).
      rewrite Hu; [done|]. split; [|done]. destruct (Z.ltb_spec p 1) as [Hlt|]; [|lia]. exfalso.
      apply (not_elem_of_nil (ErrInvalidField "ports")). rewrite <- Hv. apply list_elem_of_bind. exists p.
      split; [|done]. rewrite (proj2 (Z.ltb_lt p 1) Hlt). apply list_elem_of_here. }
    rewrite Exists_exists. setoid_rewrite list_elem_of_fmap. split.
    + intros [Hnil%fmap_nil_inv|(q & (p & -> & Hin) & Hq)]; [done|]. right. exists ports. split; [done|]. simpl in Hq.
      by replace port with p by lia.
    + intros [(? & ? & ? & ?)|(ports' & [= <-] & Hin)]; [done|]. right. exists (port, port). split; [eauto|]. simpl. lia.
Qed.

Definition net_traffic (p : Protocol) (ports : list (Z * Z)) (icmp : option (Z * option Z)) (pk : Packet) : Prop :=
  protocol_matches p (pk_Protocol pk) /\
  (is_icmp p \/ ports = [] \/ Exists (fun p => p.1 <= pk_Port pk <= p.2)%Z ports) /\
  (~ is_icmp p \/ forall t code, icmp = Some (t, code) -> pk_Type pk = t /\ (forall c, code = Some c -> pk_Code pk = c)).

Lemma allowed_by_protocol rule pk :
  traffic_allowed rule pk <->
  (if bool_decide (sg_Protocol rule = TCPProtocol) then pk_Protocol pk = PacketTCP /\ port_allowed rule (pk_Port pk)
   else if bool_decide (sg_Protocol rule = UDPProtocol) then pk_Protocol pk = PacketUDP /\ port_allowed rule (pk_Port pk)
   else if bool_decide (sg_Protocol rule = ICMPProtocol) then pk_Protocol pk = PacketICMP /\ icmp_allowed rule pk
   else if bool_decide (sg_Protocol rule = ICMPv6Protocol) then pk_Protocol pk = PacketICMPv6 /\ icmp_allowed rule pk
   else sg_Protocol rule = AllProtocol).
Proof.
  unfold traffic_allowed. repeat case_bool_decide;
    try match goal with E : sg_Protocol rule = _ |- _ => rewrite E end;
    unfold TCPProtocol, UDPProtocol, ICMPProtocol, ICMPv6Protocol, AllProtocol in *; intuition congruence.
Qed.

Lemma ports_traffic rule p q pk :
  p = ProtocolTCP /\ q = PacketTCP \/ p = ProtocolUDP /\ q = PacketUDP -> validatePorts rule = [] -> ports_fit rule ->
  net_traffic p (rule_ports rule) None pk <-> pk_Protocol pk = q /\ port_allowed rule (pk_Port pk).
Proof.
  intros Hpq Hv Hf. rewrite <- (valid_ports rule (pk_Port pk) Hv Hf). unfold net_traffic, is_icmp.
  destruct Hpq as [[-> ->]|[-> ->]]; destruct (pk_Protocol pk); simpl; naive_solver.
Qed.

Lemma icmp_traffic rule p q t c pk :
  p = ProtocolICMP /\ q = PacketICMP \/ p = ProtocolICMPv6 /\ q = PacketICMPv6 -> sg_IcmpInfo rule = Some (t, c) ->
  (0 <= t < 2 ^ 8 /\ 0 <= c < 2 ^ 8)%Z ->
  net_traffic p (rule_ports rule) (Some (u8 t, Some (u8 c))) pk <-> pk_Protocol pk = q /\ icmp_allowed rule pk.
Proof.
  intros Hpq Hi [Ht Hc]. unfold net_traffic, is_icmp, icmp_allowed. rewrite Hi.
  unfold u8, wrap_unsigned. rewrite !Z.mod_small by done.
  destruct Hpq as [[-> ->]|[-> ->]]; destruct (pk_Protocol pk); simpl; naive_solver.
Qed.

Lemma rule_traffic rule :
  protocol_errors rule = [] -> numbers_fit rule ->
  exists p icmp, rule_protocol rule = Some (p, icmp) /\
    forall pk, net_traffic p (rule_ports rule) icmp pk <-> traffic_allowed rule pk.
Proof.
  unfold protocol_errors, rule_protocol. intros Hv [Hf Hi]. setoid_rewrite allowed_by_protocol.
  case_bool_decide as E1; simpl in Hv; [|case_bool_decide as E2; simpl in Hv].
  1,2: apply app_nil in Hv as [Hv _]; eexists _, _; split; [done|]; intros pk; apply ports_traffic; auto.
  case_bool_decide; [|case_bool_decide; [|case_bool_decide as E5; [|done]]];
    apply app_nil in Hv as [H1%field_errors_nil Hv]; apply app_nil in Hv as [H2%field_errors_nil Hv].
  1,2: apply field_errors_nil in Hv; destruct (sg_IcmpInfo rule) as [[t c]|] eqn:E; [|done];
    eexists _, _; split; [done|]; intros pk; apply icmp_traffic; auto.
  eexists _, _. split; [done|]. intros pk. split; [done|]. intros _. unfold net_traffic, is_icmp, rule_ports.
  destruct (sg_PortRange rule), (sg_Ports rule); try done. simpl. split; [done|]. split; [auto|]. left. naive_solver.
Qed.

Lemma valid_protocol rule : protocol_errors rule = [] -> is_Some (rule_protocol rule).
Proof.
  unfold rule_protocol, protocol_errors. intros Hv. destruct (sg_IcmpInfo rule); repeat case_bool_decide; simpl in *; eauto;
    by repeat (apply app_nil in Hv as [_ Hv]).
Qed.

Lemma rule_converts rule :
  SecurityGroupRule_Validate rule = None ->
  exists nets, securityGroupRuleToNetOutRules rule = Some (Ok nets) /\
    (numbers_fit rule -> forall pk, Exists (fun r => net_allows r pk) nets <-> rule_allows rule pk).
Proof.
  intros [Hp Hd]%Validate_valid. destruct (valid_protocol rule Hp) as [[p icmp] Hr].
  unfold securityGroupRuleToNetOutRules. rewrite Hr. simpl.
  destruct (rules_for_ok (fun r => mkNetOutRule p [r] (rule_ports rule) icmp (sg_Log rule)) _ Hd) as (ranges & -> & Hc).
  eexists. split; [done|]. intros Hf pk. destruct (rule_traffic rule Hp Hf) as (p' & icmp' & Hr' & Ht). rewrite Hr in Hr'. injection Hr' as <- <-.
  unfold rule_allows. rewrite <- Ht, Exists_fmap.
  rewrite (Exists_Forall2 _ _ (fun r => range_covers r (pk_Dest pk)) _ _ Hc) by (intros d r Hdr; by rewrite Hdr).
  rewrite !Exists_exists. unfold net_allows, net_traffic. simpl. setoid_rewrite Exists_cons. setoid_rewrite Exists_nil. naive_solver.
Qed.

Lemma convertEgressToNetOut_total rules : is_Some (convertEgressToNetOut rules).
Proof.
  induction rules as [|rule rules [r IH]]; [by eexists|]. cbn [convertEgressToNetOut].
  destruct (SecurityGroupRule_Validate rule) eqn:E; [by eexists|]. apply Validate_valid in E as [Hv _].
  destruct (valid_protocol rule Hv) as [[p icmp] Hp].
  unfold securityGroupRuleToNetOutRules. rewrite Hp. simpl. case_match; [|eauto]. rewrite IH. simpl. eauto.
Qed.

(** C36: Egress rules mean for garden what they say.  The conversion of valid
    rules never fails or dereferences nil, and when their ports fit in 16 bits and
    their ICMP types and codes in 8, garden lets a packet through exactly when one
    of the rules allows it: by its protocol, its port or its ICMP type and code, and
    a destination that is an address, a range of addresses, or a network, which
    covers the addresses that agree with it on its prefix.  The first rule that is
    not valid stops the conversion with its error. *)
Theorem egress_exact rules :
  (Forall (fun rule => SecurityGroupRule_Validate rule = None) rules ->
   exists nets, convertEgressToNetOut rules = Some (Ok nets) /\
     (Forall numbers_fit rules ->
      forall pk, Exists (fun r => net_allows r pk) nets <-> Exists (fun rule => rule_allows rule pk) rules)) /\
  (forall pre rule post e, rules = pre ++ rule :: post ->
     Forall (fun rule => SecurityGroupRule_Validate rule = None) pre ->
     SecurityGroupRule_Validate rule = Some e -> convertEgressToNetOut rules = Some (Err e)).
Proof.
  split.
  - induction 1 as [|rule rules Hv _ (nets & Hc & Hn)].
    + exists []. split; [done|]. intros _ pk. by rewrite !Exists_nil.
    + destruct (rule_converts rule Hv) as (nets' & Hr & Hn'). exists (nets' ++ nets). cbn [convertEgressToNetOut].
      rewrite Hv, Hr. simpl. rewrite Hc. split; [done|]. intros [Hf Hfs]%Forall_cons pk. by rewrite Exists_app, Exists_cons, (Hn Hfs), (Hn' Hf).
  - intros pre rule post e -> Hp He. induction Hp as [|rule' pre Hv _ IH]; cbn [convertEgressToNetOut app].
    + by rewrite He.
    + destruct (rule_converts rule' Hv) as (nets' & Hr & _). rewrite Hv, Hr. simpl. by rewrite IH.
Qed.

(** Validation has no bounds for ICMP types and codes: the rule for type 256 is
    valid, and lets packets of type 0 through. *)
Lemma wide_type_truncated :
  let rule := mkSecurityGroupRule "icmp" ["10.0.0.0/8"] None None (Some (256, 0)%Z) false [] in
  SecurityGroupRule_Validate rule = None /\
  securityGroupRuleToNetOutRules rule =
    Some (Ok [mkNetOutRule ProtocolICMP [mkIPRange [10; 0; 0; 0]%Z [10; 255; 255; 255]%Z] [] (Some (0, Some 0)%Z) false]).
Proof. split; vm_compute; reflexivity. Qed.

(** Validation has no upper bound for ports: the rule for ports 1 to 65536 is
    valid, and converted to the empty range from 1 to 0. *)
Lemma wide_range_lost :
  let rule := mkSecurityGroupRule "tcp" ["10.0.0.0/8"] None (Some (1, 65536)%Z) None false [] in
  SecurityGroupRule_Validate rule = None /\
  securityGroupRuleToNetOutRules rule =
    Some (Ok [mkNetOutRule ProtocolTCP [mkIPRange [10; 0; 0; 0]%Z [10; 255; 255; 255]%Z] [(1, 0)%Z] None false]).
Proof. split; vm_compute; reflexivity. Qed.
