(* ===== verification/Executor.v ===== *)
(** * Containers and resources of the executor

    [executor/resources.go], [executor/client.go] and [executor/errors.go]: the
    container record with its state machine, tags, requests, and the arithmetic
    of a cell's resources.  The fields of [RunInfo] that only the steps and garden
    read are grouped in [RunWork]. *)
From Stdlib Require Import ZArith Lia Ascii.
From S2P Require Import Prelude Actions.

(** ** Errors *)

Inductive ExecError :=
| ErrContainerGuidNotAvailable
| ErrInsufficientResourcesAvailable
| ErrContainerNotFound
| ErrGuidNotSpecified
| ErrInvalidTransition
| ErrOther (msg : string).   (* errors of garden, volman and the like *)

Definition ExecError_Error (e : ExecError) : string :=
  match e with
  | ErrContainerGuidNotAvailable => "container guid not available"
  | ErrInsufficientResourcesAvailable => "insufficient resources available"
  | ErrContainerNotFound => "container not found"
  | ErrGuidNotSpecified => "container guid not specified"
  | ErrInvalidTransition => "container cannot transition to given state"
  | ErrOther msg => msg
  end.

(** ** Tags

    A nil map is [None]. *)
Definition Tags : Type := option (gmap string string).

Definition Tags_lookup (t : Tags) (k : string) : string := default "" (t ≫= lookup k).

Definition Tags_Copy (t : Tags) : Tags := t.

(** Writing to a nil map panics ([None]); ranging over one does nothing. *)
Definition Tags_Add (t other : Tags) : option Tags :=
  match other with
  | None => Some t
  | Some o =>
      if bool_decide (o = ∅) then Some t
      else m ← t; Some (Some (o ∪ m))
  end.

Definition LifecycleTag : string := "lifecycle".
Definition ProcessGuidTag : string := "process-guid".
Definition LRPLifecycle : string := "lrp".
Definition TaskLifecycle : string := "task".

(** ** Resources *)

Record EResource := mkEResource {
  er_MemoryMB : Z;   (* int *)
  er_DiskMB : Z;     (* int *)
  er_MaxPids : Z     (* int *) }.

Record ExecutorResources := mkExecutorResources {
  ex_MemoryMB : Z;     (* int *)
  ex_DiskMB : Z;       (* int *)
  ex_Containers : Z    (* int *) }.

Definition canSubtract (r : ExecutorResources) (res : EResource) : bool :=
  (er_MemoryMB res <=? ex_MemoryMB r)%Z && (er_DiskMB res <=? ex_DiskMB r)%Z &&
  (0 <? ex_Containers r)%Z.

(** [None] is the answer [false]. *)
Definition ExecutorResources_Subtract (r : ExecutorResources) (res : EResource)
    : option ExecutorResources :=
  if canSubtract r res
  then Some (mkExecutorResources (i64 (ex_MemoryMB r - er_MemoryMB res))
               (i64 (ex_DiskMB r - er_DiskMB res)) (i64 (ex_Containers r - 1)))
  else None.

Definition ExecutorResources_Add (r : ExecutorResources) (res : EResource) : ExecutorResources :=
  mkExecutorResources (i64 (ex_MemoryMB r + er_MemoryMB res))
    (i64 (ex_DiskMB r + er_DiskMB res)) (i64 (ex_Containers r + 1)).

(** ** Containers *)

Inductive State :=
| StateInvalid | StateReserved | StateInitializing | StateCreated | StateRunning | StateCompleted.

#[global] Instance State_eq_dec : EqDecision State.
Proof. solve_decision. Defined.

Record PortMapping := mkPortMapping {
  ContainerPort : Z;           (* uint16 *)
  HostPort : Z;                (* uint16 *)
  ContainerTLSProxyPort : Z;   (* uint16 *)
  HostTLSProxyPort : Z         (* uint16 *) }.

Record ProxyPortMapping := mkProxyPortMapping {
  AppPort : Z;     (* uint16 *)
  ProxyPort : Z    (* uint16 *) }.

Record InternalRoute := mkInternalRoute { ir_Hostname : string }.

Record LogConfig := mkLogConfig {
  log_Guid : string;
  log_Index : Z;
  log_SourceName : string;
  log_Tags : option (gmap string string) }.

Record EnvironmentVariable := mkEnvironmentVariable { env_Name : string; env_Value : string }.

Inductive BindMountMode := BindMountModeRO | BindMountModeRW.

(** A value of type [interface{}]: a string, or something else known only by
    its identity. *)
Inductive Any := AnyString (s : string) | AnyOther (ident : nat).

Record VolumeMount := mkVolumeMount {
  vm_Driver : string;
  vm_VolumeId : string;
  vm_Config : option (gmap string Any);
  vm_ContainerPath : string;
  vm_Mode : BindMountMode }.

Record CachedDependency := mkCachedDependency {
  cd_Name : string;
  cd_From : string;
  cd_To : string;
  cd_CacheKey : string;
  cd_LogSource : string;
  cd_ChecksumValue : string;
  cd_ChecksumAlgorithm : string }.

(** The fields of [RunInfo] that the store carries along without looking. *)
Record RunWork := mkRunWork {
  rw_MetricsGuid : string;            (* MetricsConfig.Guid *)
  rw_MetricsIndex : Z;                (* MetricsConfig.Index, int *)
  rw_StartTimeoutMs : Z;              (* uint *)
  rw_Setup : option Action;
  rw_Action : option Action;
  rw_Monitor : option Action;
  rw_CheckDefinition : option CheckDefinition;
  rw_EgressRules : list SecurityGroupRule;
  rw_OrganizationalUnit : list string;    (* CertificateProperties *)
  rw_Sidecars : list Sidecar;
  rw_LogRateLimit : Z                 (* int64 *) }.

Record RunInfo := mkRunInfo {
  ri_RootFSPath : string;
  ri_CPUWeight : Z;                        (* uint *)
  ri_Ports : list PortMapping;
  ri_InternalRoutes : list InternalRoute;
  ri_LogConfig : LogConfig;
  ri_MetricTags : option (gmap string string);   (* MetricsConfig.Tags *)
  ri_Privileged : bool;
  ri_CachedDependencies : list CachedDependency;
  ri_Env : list EnvironmentVariable;
  ri_TrustedSystemCertificatesPath : string;
  ri_VolumeMounts : list VolumeMount;
  ri_Network : option (gmap string string);      (* Network.Properties *)
  ri_ImageUsername : string;
  ri_ImagePassword : string;
  ri_EnableContainerProxy : bool;
  ri_VolumeMountedFiles : list (string * string);
  ri_Work : RunWork }.

Record ContainerRunResult := mkRunResult {
  rr_Failed : bool;
  rr_FailureReason : string;
  rr_Retryable : bool;
  rr_Stopped : bool }.

Record Container := mkContainer {
  ctr_Guid : string;
  ctr_Resource : EResource;
  ctr_RunInfo : RunInfo;
  ctr_Tags : Tags;
  ctr_State : State;
  ctr_Routable : bool;
  ctr_AllocatedAt : Z;            (* nanoseconds, int64 *)
  ctr_ExternalIP : string;
  ctr_InternalIP : string;
  ctr_InternalIPv6 : string;
  ctr_RunResult : ContainerRunResult;
  ctr_MemoryLimit : Z;            (* uint64 *)
  ctr_DiskLimit : Z;              (* uint64 *)
  ctr_AdvertisePreference : bool }.

Definition zeroRunWork : RunWork := mkRunWork "" 0 0 None None None None [] [] [] 0.
Definition zeroRunInfo : RunInfo :=
  mkRunInfo "" 0 [] [] (mkLogConfig "" 0 "" None) None false [] [] "" [] None "" "" false [] zeroRunWork.
Definition zeroRunResult : ContainerRunResult := mkRunResult false "" false false.

Definition NewContainerFromResource (guid : string) (resource : EResource) (tags : Tags) : Container :=
  mkContainer guid resource zeroRunInfo tags StateInvalid false 0 "" "" "" zeroRunResult 0 0 false.

(** Setters for the fields that change. *)
Definition set_State (c : Container) (st : State) : Container :=
  mkContainer (ctr_Guid c) (ctr_Resource c) (ctr_RunInfo c) (ctr_Tags c) st (ctr_Routable c)
    (ctr_AllocatedAt c) (ctr_ExternalIP c) (ctr_InternalIP c) (ctr_InternalIPv6 c) (ctr_RunResult c)
    (ctr_MemoryLimit c) (ctr_DiskLimit c) (ctr_AdvertisePreference c).
Definition set_Routable (c : Container) (b : bool) : Container :=
  mkContainer (ctr_Guid c) (ctr_Resource c) (ctr_RunInfo c) (ctr_Tags c) (ctr_State c) b
    (ctr_AllocatedAt c) (ctr_ExternalIP c) (ctr_InternalIP c) (ctr_InternalIPv6 c) (ctr_RunResult c)
    (ctr_MemoryLimit c) (ctr_DiskLimit c) (ctr_AdvertisePreference c).
Definition set_AllocatedAt (c : Container) (t : Z) : Container :=
  mkContainer (ctr_Guid c) (ctr_Resource c) (ctr_RunInfo c) (ctr_Tags c) (ctr_State c) (ctr_Routable c)
    t (ctr_ExternalIP c) (ctr_InternalIP c) (ctr_InternalIPv6 c) (ctr_RunResult c)
    (ctr_MemoryLimit c) (ctr_DiskLimit c) (ctr_AdvertisePreference c).
Definition set_RunInfo (c : Container) (ri : RunInfo) : Container :=
  mkContainer (ctr_Guid c) (ctr_Resource c) ri (ctr_Tags c) (ctr_State c) (ctr_Routable c)
    (ctr_AllocatedAt c) (ctr_ExternalIP c) (ctr_InternalIP c) (ctr_InternalIPv6 c) (ctr_RunResult c)
    (ctr_MemoryLimit c) (ctr_DiskLimit c) (ctr_AdvertisePreference c).
Definition set_Tags (c : Container) (t : Tags) : Container :=
  mkContainer (ctr_Guid c) (ctr_Resource c) (ctr_RunInfo c) t (ctr_State c) (ctr_Routable c)
    (ctr_AllocatedAt c) (ctr_ExternalIP c) (ctr_InternalIP c) (ctr_InternalIPv6 c) (ctr_RunResult c)
    (ctr_MemoryLimit c) (ctr_DiskLimit c) (ctr_AdvertisePreference c).
Definition set_RunResult (c : Container) (rr : ContainerRunResult) : Container :=
  mkContainer (ctr_Guid c) (ctr_Resource c) (ctr_RunInfo c) (ctr_Tags c) (ctr_State c) (ctr_Routable c)
    (ctr_AllocatedAt c) (ctr_ExternalIP c) (ctr_InternalIP c) (ctr_InternalIPv6 c) rr
    (ctr_MemoryLimit c) (ctr_DiskLimit c) (ctr_AdvertisePreference c).
Definition set_Ports (ri : RunInfo) (ports : list PortMapping) : RunInfo :=
  mkRunInfo (ri_RootFSPath ri) (ri_CPUWeight ri) ports (ri_InternalRoutes ri) (ri_LogConfig ri)
    (ri_MetricTags ri) (ri_Privileged ri) (ri_CachedDependencies ri) (ri_Env ri)
    (ri_TrustedSystemCertificatesPath ri) (ri_VolumeMounts ri) (ri_Network ri) (ri_ImageUsername ri)
    (ri_ImagePassword ri) (ri_EnableContainerProxy ri) (ri_VolumeMountedFiles ri) (ri_Work ri).
Definition set_Env (ri : RunInfo) (env : list EnvironmentVariable) : RunInfo :=
  mkRunInfo (ri_RootFSPath ri) (ri_CPUWeight ri) (ri_Ports ri) (ri_InternalRoutes ri) (ri_LogConfig ri)
    (ri_MetricTags ri) (ri_Privileged ri) (ri_CachedDependencies ri) env
    (ri_TrustedSystemCertificatesPath ri) (ri_VolumeMounts ri) (ri_Network ri) (ri_ImageUsername ri)
    (ri_ImagePassword ri) (ri_EnableContainerProxy ri) (ri_VolumeMountedFiles ri) (ri_Work ri).
Definition set_InternalRoutes (ri : RunInfo) (routes : list InternalRoute) : RunInfo :=
  mkRunInfo (ri_RootFSPath ri) (ri_CPUWeight ri) (ri_Ports ri) routes (ri_LogConfig ri)
    (ri_MetricTags ri) (ri_Privileged ri) (ri_CachedDependencies ri) (ri_Env ri)
    (ri_TrustedSystemCertificatesPath ri) (ri_VolumeMounts ri) (ri_Network ri) (ri_ImageUsername ri)
    (ri_ImagePassword ri) (ri_EnableContainerProxy ri) (ri_VolumeMountedFiles ri) (ri_Work ri).
(** [LogConfig.Tags] and [MetricsConfig.Tags] at once. *)
Definition set_MetricTags (ri : RunInfo) (tags : gmap string string) : RunInfo :=
  let lc := ri_LogConfig ri in
  mkRunInfo (ri_RootFSPath ri) (ri_CPUWeight ri) (ri_Ports ri) (ri_InternalRoutes ri)
    (mkLogConfig (log_Guid lc) (log_Index lc) (log_SourceName lc) (Some tags))
    (Some tags) (ri_Privileged ri) (ri_CachedDependencies ri) (ri_Env ri)
    (ri_TrustedSystemCertificatesPath ri) (ri_VolumeMounts ri) (ri_Network ri) (ri_ImageUsername ri)
    (ri_ImagePassword ri) (ri_EnableContainerProxy ri) (ri_VolumeMountedFiles ri) (ri_Work ri).

(** *** The state machine *)

Definition ValidateTransitionTo (c : Container) (newState : State) : bool :=
  if bool_decide (newState = StateCompleted) then true
  else match ctr_State c with
       | StateReserved => bool_decide (newState = StateInitializing)
       | StateInitializing => bool_decide (newState = StateCreated)
       | StateCreated => bool_decide (newState = StateRunning)
       | _ => false
       end.

Record AllocationRequest := mkAllocationRequest {
  req_Guid : string;
  req_GenerateLogMetrics : bool;
  req_Resource : EResource;
  req_Tags : Tags }.

Record AllocationFailure := mkAllocationFailure {
  fail_Request : AllocationRequest;
  fail_ErrorMsg : string }.

Record RunRequest := mkRunRequest {
  run_Guid : string;
  run_RunInfo : RunInfo;
  run_Tags : Tags }.

(** A nil slice or map ([None]) leaves the container's value alone. *)
Record UpdateRequest := mkUpdateRequest {
  upd_Guid : string;
  upd_InternalRoutes : option (list InternalRoute);
  upd_MetricTags : option (gmap string string) }.

Definition AllocationRequest_Validate (a : AllocationRequest) : option ExecError :=
  if bool_decide (req_Guid a = "") then Some ErrGuidNotSpecified else None.

(** The outer option is the panic of adding to nil tags. *)
Definition TransitionToInitialize (c : Container) (req : RunRequest)
    : option (result ExecError Container) :=
  if negb (ValidateTransitionTo c StateInitializing) then Some (Err ErrInvalidTransition)
  else
    tags ← Tags_Add (ctr_Tags c) (run_Tags req);
    Some (Ok (set_Tags (set_RunInfo (set_State c StateInitializing) (run_RunInfo req)) tags)).

Definition TransitionToCreate (c : Container) : result ExecError Container :=
  if negb (ValidateTransitionTo c StateCreated) then Err ErrInvalidTransition
  else Ok (set_State c StateCreated).

(** [truncateString] cuts the middle out of a long string. *)
Definition delimiter : string :=
  String "010" ("... (truncated)" +:+ String "010" "").

Definition truncateString (s : string) (length : Z) : string :=
  let len := Z.of_nat (String.length s) in
  if (len <=? length)%Z then s
  else
    let d := Z.of_nat (String.length delimiter) in
    let last := (len - Z.quot length 2 + Z.quot d 2)%Z in
    String.substring 0 (Z.to_nat ((Z.quot length 2 - 1) - Z.quot d 2)) s +:+ delimiter +:+
    String.substring (Z.to_nat last) (Z.to_nat (len - last)) s.

Definition TransitionToComplete (c : Container) (failed : bool) (failureReason : string)
    (retryable : bool) : Container :=
  set_State
    (set_RunResult c (mkRunResult failed (truncateString failureReason 10000) retryable
                        (rr_Stopped (ctr_RunResult c))))
    StateCompleted.

Definition Container_IsCreated (c : Container) : bool :=
  match ctr_State c with
  | StateReserved | StateInitializing | StateCompleted => false
  | _ => true
  end.

Definition Container_HasTags (c : Container) (tags : Tags) : bool :=
  match ctr_Tags c, tags with
  | None, None => true
  | None, Some _ => false
  | Some _, None => false
  | Some m, Some t => bool_decide (map_Forall (fun k v => m !! k = Some v) t)
  end.

Definition NewReservedContainerFromAllocationRequest (req : AllocationRequest) (allocatedAt : Z)
    : Container :=
  set_AllocatedAt
    (set_State (NewContainerFromResource (req_Guid req) (req_Resource req) (req_Tags req)) StateReserved)
    allocatedAt.

(** ** Lemmas *)

Lemma string_length_app (s t : string) : String.length (s +:+ t) = String.length s + String.length t.
Proof. induction s as [|a s IH]; [done|]. simpl. fold (String.append s t). by rewrite IH. Qed.

Lemma substring_length n m s :
  n + m <= String.length s -> String.length (String.substring n m s) = m.
Proof.
  revert n m. induction s as [|a s IH]; intros n m; simpl.
  - intros. assert (n = 0) as -> by lia. by assert (m = 0) as -> by lia.
  - intros. destruct n as [|n]; simpl.
    + destruct m as [|m]; [done|]. simpl. rewrite IH; lia.
    + apply IH. lia.
Qed.

(** A truncated string has the requested length, for even lengths that leave
    room for the delimiter. *)
Lemma truncateString_length s l :
  (18 <= l)%Z -> Z.even l = true -> (l < Z.of_nat (String.length s))%Z ->
  Z.of_nat (String.length (truncateString s l)) = l.
Proof.
  intros Hl Hev%Zeven_bool_iff Hs. apply Zeven_ex in Hev as [k ->]. unfold truncateString.
  destruct (Z.leb_spec (Z.of_nat (String.length s)) (2 * k)); [lia|].
  replace (Z.quot (2 * k) 2) with k by (rewrite Z.mul_comm, Z.quot_mul; lia).
  change (Z.quot (Z.of_nat (String.length delimiter)) 2) with 8%Z.
  rewrite !string_length_app, !substring_length by lia.
  change (String.length delimiter) with 17. lia.
Qed.

(** Executor resources are sane when they are non-negative and fit an [int]. *)
Definition ex_ok (r : ExecutorResources) : Prop :=
  (0 <= ex_MemoryMB r < 2 ^ 63 /\ 0 <= ex_DiskMB r < 2 ^ 63 /\ 0 <= ex_Containers r < 2 ^ 63)%Z.

Definition er_ok (res : EResource) : Prop := (0 <= er_MemoryMB res /\ 0 <= er_DiskMB res)%Z.

Lemma canSubtract_spec r res :
  canSubtract r res = true <->
  (er_MemoryMB res <= ex_MemoryMB r /\ er_DiskMB res <= ex_DiskMB r /\ 0 < ex_Containers r)%Z.
Proof. unfold canSubtract. rewrite !andb_true_iff. lia. Qed.

Lemma Subtract_ok r res r' :
  ex_ok r -> er_ok res -> ExecutorResources_Subtract r res = Some r' ->
  canSubtract r res = true /\ ex_ok r' /\
  ex_MemoryMB r' = (ex_MemoryMB r - er_MemoryMB res)%Z /\
  ex_DiskMB r' = (ex_DiskMB r - er_DiskMB res)%Z /\
  ex_Containers r' = (ex_Containers r - 1)%Z.
Proof.
  unfold ExecutorResources_Subtract, ex_ok, er_ok. intros Hr Hres.
  destruct (canSubtract r res) eqn:E; [|done]. apply canSubtract_spec in E.
  intros [= <-]. simpl. rewrite !i64_id by (unfold in_i64; lia). lia.
Qed.
