(* ===== verification/Ports.v ===== *)
(** * Ports of a container

    The ports a container listens on, the ports of its proxy and the host ports
    garden maps them to: [dedupPorts] and [portMappingFromContainerInfo] of
    [executor/depot/containerstore/storenode.go] and [ProxyPorts] of
    [proxy_config_handler.go].  Ports are [uint16]. *)
From Stdlib Require Import ZArith Lia.
From S2P Require Import Prelude Executor.
#[local] Open Scope Z_scope.

Definition dedupPorts (ports : list PortMapping) : list PortMapping := dedupe ContainerPort ports.

(** ** Allocating proxy ports *)

Definition StartProxyPort : Z := 61001.
Definition EndProxyPort : Z := 65534.
Definition DefaultHTTPPort : Z := 8080.
Definition C2CTLSPort : Z := 61443.

Definition candidate_ports : list Z := seqZ StartProxyPort (EndProxyPort - StartProxyPort).

(** The loop over the candidates; [None] is an index out of range. *)
Fixpoint proxy_loop (existingPorts : gset Z) (containerPorts : list Z) (candidates : list Z)
    (portCount : nat) (proxyPortMapping : list ProxyPortMapping) (extraPorts : list Z)
    : option (list ProxyPortMapping * list Z) :=
  match candidates with
  | [] => Some (proxyPortMapping, extraPorts)
  | port :: rest =>
      if bool_decide (portCount = size existingPorts) then Some (proxyPortMapping, extraPorts)
      else if bool_decide (port ∈ existingPorts) then
        proxy_loop existingPorts containerPorts rest portCount proxyPortMapping extraPorts
      else if port =? C2CTLSPort then
        proxy_loop existingPorts containerPorts rest portCount proxyPortMapping extraPorts
      else
        app ← containerPorts !! portCount;
        let extraPorts := extraPorts ++ [port] in
        let proxyPortMapping := proxyPortMapping ++ [mkProxyPortMapping app port] in
        if app =? DefaultHTTPPort
        then proxy_loop existingPorts containerPorts rest (S portCount)
               (proxyPortMapping ++ [mkProxyPortMapping app C2CTLSPort]) (extraPorts ++ [C2CTLSPort])
        else proxy_loop existingPorts containerPorts rest (S portCount) proxyPortMapping extraPorts
  end.

Definition ErrC2CTLSPortIsReserved : string := "port 61443 is reserved for container networking".

(** The outer option is a panic. *)
Definition ProxyPorts (container : Container)
    : option (result string (list ProxyPortMapping * list Z)) :=
  if negb (ri_EnableContainerProxy (ctr_RunInfo container)) then Some (Ok ([], []))
  else
    let containerPorts := ContainerPort <$> ri_Ports (ctr_RunInfo container) in
    if bool_decide (C2CTLSPort ∈ containerPorts) then Some (Err ErrC2CTLSPortIsReserved)
    else
      r ← proxy_loop (list_to_set containerPorts) containerPorts candidate_ports 0 [] [];
      Some (Ok r).

(** ** Mapping ports to the host *)

(** What garden reports: pairs of a container port and a host port. *)
Definition MappedPorts : Type := list (Z * Z).

(** The first loop: from an application's port to its proxy ports. *)
Definition appToProxyPortMappings (proxyToAppPort : list ProxyPortMapping) : gmap Z (list Z) :=
  foldl (fun m mapping =>
           <[AppPort mapping := default [] (m !! AppPort mapping) ++ [ProxyPort mapping]]> m)
    ∅ proxyToAppPort.

Definition proxyPorts (proxyToAppPort : list ProxyPortMapping) : gset Z :=
  foldl (fun s mapping => {[ProxyPort mapping]} ∪ s) ∅ proxyToAppPort.

(** The second loop: from a container port to its host port. *)
Definition containerToHostPortMappings (mapped : MappedPorts) : gmap Z Z :=
  foldl (fun m p => <[u16 p.1 := u16 p.2]> m) ∅ mapped.

Definition port_entries (toHost : gmap Z Z) (toProxy : gmap Z (list Z)) (appPort : Z)
    : list PortMapping :=
  let hostPort := default 0 (toHost !! appPort) in
  match default [] (toProxy !! appPort) with
  | [] => [mkPortMapping appPort hostPort 0 0]
  | proxyContainerPorts =>
      (fun proxyContainerPort =>
         mkPortMapping appPort hostPort proxyContainerPort (default 0 (toHost !! proxyContainerPort)))
      <$> proxyContainerPorts
  end.

Definition portMappingFromContainerInfo (mapped : MappedPorts) (appPorts : list PortMapping)
    (proxyToAppPort : list ProxyPortMapping) : list PortMapping :=
  let proxies := proxyPorts proxyToAppPort in
  let toProxy := appToProxyPortMappings proxyToAppPort in
  let toHost := containerToHostPortMappings mapped in
  foldl (fun ports portMapping =>
           if bool_decide (ContainerPort portMapping ∈ proxies) then ports
           else ports ++ port_entries toHost toProxy (ContainerPort portMapping))
    [] appPorts.

(** ** Properties *)

Lemma dedupPorts_nodup ports : NoDup (ContainerPort <$> dedupPorts ports).
Proof. unfold dedupPorts. rewrite dedupe_firsts. apply firsts_nodup. Qed.

Lemma elem_of_dedupPorts p ports :
  p ∈ ContainerPort <$> dedupPorts ports <-> p ∈ ContainerPort <$> ports.
Proof. unfold dedupPorts. rewrite dedupe_firsts, firsts_ids. set_solver. Qed.

(** Pairs of an application port and its proxy port; the default HTTP port is
    also proxied for container networking. *)
Definition proxies_of (pairs : list (Z * Z)) : list ProxyPortMapping :=
  ap ← pairs; mkProxyPortMapping ap.1 ap.2 ::
    (if ap.1 =? DefaultHTTPPort then [mkProxyPortMapping ap.1 C2CTLSPort] else []).

Definition usable (existing : gset Z) (port : Z) : Prop := port ∉ existing /\ port <> C2CTLSPort.
#[global] Instance usable_dec existing port : Decision (usable existing port).
Proof. unfold usable. apply _. Defined.

Lemma proxies_of_cons app port pairs :
  proxies_of ((app, port) :: pairs) =
  mkProxyPortMapping app port ::
    (if app =? DefaultHTTPPort then [mkProxyPortMapping app C2CTLSPort] else []) ++ proxies_of pairs.
Proof. done. Qed.

Lemma proxy_loop_spec existing cps cands n mapping extra :
  (size existing <= length cps)%nat -> (n <= size existing)%nat ->
  let new := proxies_of (zip (take (size existing - n) (drop n cps)) (filter (usable existing) cands)) in
  proxy_loop existing cps cands n mapping extra = Some (mapping ++ new, extra ++ (ProxyPort <$> new)).
Proof.
  cbv zeta. intros Hlen. revert n mapping extra.
  induction cands as [|port rest IH]; intros n mapping extra Hn.
  { rewrite filter_nil, zip_with_nil_r. simpl. by rewrite !app_nil_r. }
  simpl. case_bool_decide as Hd.
  { subst n. rewrite Nat.sub_diag. simpl. by rewrite !app_nil_r. }
  rewrite filter_cons. case_bool_decide as Hin.
  { rewrite decide_False by (intros [? _]; done). by apply IH. }
  destruct (Z.eqb_spec port C2CTLSPort) as [->|Hc].
  { rewrite decide_False by (intros [_ ?]; done). by apply IH. }
  rewrite decide_True by done.
  destruct (lookup_lt_is_Some_2 cps n) as [app Happ]; [lia|]. rewrite Happ. csimpl.
  rewrite (drop_S cps app n) by done.
  replace (size existing - n)%nat with (S (size existing - S n)) by lia.
  rewrite firstn_cons. simpl zip. rewrite proxies_of_cons. destruct (app =? DefaultHTTPPort); rewrite IH by lia; csimpl;
    by rewrite <-?app_assoc.
Qed.

Lemma filter_usable_length (existing : gset Z) l :
  NoDup l -> (length l <= length (filter (usable existing) l) + size ({[C2CTLSPort]} ∪ existing))%nat.
Proof.
  intros Hnd.
  assert (length l = length (filter (usable existing) l) +
                     length (filter (fun p => ~ usable existing p) l))%nat as ->.
  { clear Hnd. induction l as [|p l IH]; [done|]. rewrite !filter_cons.
    destruct (decide (usable existing p)); [rewrite (decide_False (P := ~ _)) by tauto|
      rewrite (decide_True (P := ~ _)) by done]; simpl; lia. }
  apply Nat.add_le_mono_l.
  set (bad := filter (fun p => ~ usable existing p) l).
  assert (NoDup bad) as Hb by by apply NoDup_filter.
  rewrite <-(size_list_to_set (C := gset Z) bad Hb). apply subseteq_size.
  intros p. rewrite elem_of_list_to_set. unfold bad. rewrite list_elem_of_filter. unfold usable.
  intros [Hn _]. destruct (decide (p ∈ existing)); [set_solver|].
  destruct (decide (p = C2CTLSPort)); [set_solver|]. tauto.
Qed.

Lemma candidates_nodup : NoDup candidate_ports.
Proof. apply NoDup_seqZ. Qed.

(** The free ports that serve [ports]. *)
Definition fresh_ports (ports : list Z) : list Z :=
  take (length ports) (filter (usable (list_to_set ports)) candidate_ports).

Lemma fresh_ports_length ports : (length ports <= 2266)%nat -> length (fresh_ports ports) = length ports.
Proof.
  intros Hl. unfold fresh_ports. rewrite length_take.
  pose proof (filter_usable_length (list_to_set ports) candidate_ports candidates_nodup) as Hf.
  unfold candidate_ports in Hf at 1. rewrite length_seqZ in Hf.
  change (Z.to_nat (EndProxyPort - StartProxyPort)) with 4533%nat in Hf.
  assert (size ({[C2CTLSPort]} ∪ list_to_set (C := gset Z) ports) <= S (length ports))%nat; [|lia].
  rewrite size_union_alt, size_singleton.
  transitivity (1 + size (list_to_set (C := gset Z) ports))%nat.
  - apply Nat.add_le_mono_l, subseteq_size. set_solver.
  - simpl. apply le_n_S. clear. induction ports as [|p l IH]; [done|]. simpl.
    rewrite size_union_alt, size_singleton. simpl. apply le_n_S.
    etransitivity; [|exact IH]. apply subseteq_size. set_solver.
Qed.

Lemma fresh_ports_spec ports p :
  p ∈ fresh_ports ports -> StartProxyPort <= p < EndProxyPort /\ p ∉ ports /\ p <> C2CTLSPort.
Proof.
  intros Hp. apply (subseteq_take _ _ _) in Hp.
  apply list_elem_of_filter in Hp as [[Hn Hc] Hin]. apply elem_of_seqZ in Hin.
  rewrite elem_of_list_to_set in Hn. unfold StartProxyPort, EndProxyPort in *. split; [lia|done].
Qed.

Lemma fresh_ports_nodup ports : NoDup (fresh_ports ports).
Proof.
  apply (sublist_NoDup _ (filter (usable (list_to_set ports)) candidate_ports)); [|apply sublist_take].
  apply NoDup_filter, candidates_nodup.
Qed.

#[global] Opaque candidate_ports.

Lemma zip_take {A B} (l : list A) (k : list B) : zip l (take (length l) k) = zip l k.
Proof. revert k. induction l as [|x l IH]; intros [|y k]; csimpl; [done..|]. by rewrite IH. Qed.

Lemma size_list_to_set_le (l : list Z) : (size (list_to_set l : gset Z) <= length l)%nat.
Proof.
  induction l as [|x l IH]; [done|]. cbn [list_to_set length]. rewrite size_union_alt, size_singleton.
  assert (size (list_to_set l ∖ {[x]} : gset Z) <= size (list_to_set l : gset Z))%nat by (apply subseteq_size; set_solver). lia.
Qed.

(** The handler never runs out of container ports. *)
Lemma ProxyPorts_total c : is_Some (ProxyPorts c).
Proof.
  unfold ProxyPorts. case_match; [by eexists|]. case_bool_decide; [by eexists|].
  rewrite proxy_loop_spec; [by eexists|apply size_list_to_set_le|lia].
Qed.

Lemma ProxyPorts_fresh c ports :
  ri_EnableContainerProxy (ctr_RunInfo c) = true ->
  ContainerPort <$> ri_Ports (ctr_RunInfo c) = ports -> NoDup ports -> C2CTLSPort ∉ ports ->
  ProxyPorts c = Some (Ok (proxies_of (zip ports (fresh_ports ports)),
                           ProxyPort <$> proxies_of (zip ports (fresh_ports ports)))).
Proof.
  intros He Hp Hnd Hc. unfold ProxyPorts. rewrite He, Hp. cbn [negb].
  rewrite bool_decide_eq_false_2 by done.
  pose proof (size_list_to_set (C := gset Z) ports Hnd) as Hs.
  rewrite proxy_loop_spec by lia. rewrite Hs, Nat.sub_0_r, drop_0, firstn_all.
  unfold fresh_ports. by rewrite zip_take.
Qed.

Lemma toProxy_lookup l app :
  default [] (appToProxyPortMappings l !! app) = ProxyPort <$> filter (fun m => AppPort m = app) l.
Proof.
  unfold appToProxyPortMappings.
  assert (forall m0 : gmap Z (list Z), default [] (foldl (fun (m : gmap Z (list Z)) mapping =>
    <[AppPort mapping := default [] (m !! AppPort mapping) ++ [ProxyPort mapping]]> m) m0 l !! app) =
    default [] (m0 !! app) ++ (ProxyPort <$> filter (fun m => AppPort m = app) l)) as Hgen.
  - induction l as [|x l IH]; intros m0; [by rewrite filter_nil, app_nil_r|]. simpl.
    rewrite IH, filter_cons, lookup_insert. destruct (decide (AppPort x = app)) as [->|]; [|done].
    simpl. by rewrite <-app_assoc.
  - rewrite Hgen, lookup_empty. done.
Qed.

Lemma elem_of_proxyPorts l p : p ∈ proxyPorts l <-> p ∈ ProxyPort <$> l.
Proof.
  unfold proxyPorts.
  assert (forall s0, p ∈ foldl (fun (s : gset Z) m => {[ProxyPort m]} ∪ s) s0 l <->
    p ∈ s0 \/ p ∈ ProxyPort <$> l) as Hgen; [|rewrite Hgen; set_solver].
  induction l as [|x l IH]; intros s0; csimpl; [set_solver|]. rewrite IH. set_solver.
Qed.

Lemma portMapping_bind mapped appPorts proxies :
  portMappingFromContainerInfo mapped appPorts proxies =
  (filter (fun p => p ∉ proxyPorts proxies) (ContainerPort <$> appPorts)) ≫=
    port_entries (containerToHostPortMappings mapped) (appToProxyPortMappings proxies).
Proof.
  unfold portMappingFromContainerInfo.
  set (f := port_entries _ _).
  assert (forall acc, foldl (fun ports pm =>
     if bool_decide (ContainerPort pm ∈ proxyPorts proxies) then ports
     else ports ++ f (ContainerPort pm)) acc appPorts =
   acc ++ ((filter (fun p => p ∉ proxyPorts proxies) (ContainerPort <$> appPorts)) ≫= f)) as Hgen;
    [|apply Hgen].
  induction appPorts as [|x l IH]; intros acc; csimpl; [by rewrite app_nil_r|].
  rewrite IH, filter_cons. case_bool_decide as D.
  - by rewrite decide_False by tauto.
  - rewrite decide_True by done. csimpl. by rewrite app_assoc.
Qed.

(** How one application port is reported: the host ports of itself and of each
    of its proxies. *)
Definition proxied_entries (host : Z -> Z) (ap : Z * Z) : list PortMapping :=
  mkPortMapping ap.1 (host ap.1) ap.2 (host ap.2) ::
    (if ap.1 =? DefaultHTTPPort then [mkPortMapping ap.1 (host ap.1) C2CTLSPort (host C2CTLSPort)] else []).

Lemma proxies_of_app app ports fresh :
  NoDup ports -> filter (fun m => AppPort m = app) (proxies_of (zip ports fresh)) =
  proxies_of (filter (fun ap => ap.1 = app) (zip ports fresh)).
Proof.
  intros _. generalize (zip ports fresh). intros pairs.
  induction pairs as [|[a p] pairs IH]; [done|].
  rewrite proxies_of_cons, filter_cons. simpl. rewrite filter_app, IH, (filter_cons _ (a, p)). simpl.
  destruct (decide (a = app)) as [->|Hne].
  - rewrite proxies_of_cons. f_equal. destruct (app =? DefaultHTTPPort); [|done].
    rewrite filter_cons. simpl. by rewrite decide_True.
  - destruct (a =? DefaultHTTPPort); [|done]. rewrite filter_cons. simpl. by rewrite decide_False.
Qed.

Lemma filter_key_unique {B} (l : list (Z * B)) a b :
  NoDup (fst <$> l) -> (a, b) ∈ l -> filter (fun ap => ap.1 = a) l = [(a, b)].
Proof.
  induction l as [|[a' b'] l IH]; csimpl; [by intros _ ?%elem_of_nil|].
  intros [Hn Hnd]%NoDup_cons Hin. rewrite filter_cons. simpl. apply elem_of_cons in Hin as [Heq|Hin].
  - injection Heq as <- <-. rewrite decide_True by done. f_equal.
    apply list_filter_none. intros [a1 b1] Hin Ha. simpl in Ha. subst a1. apply Hn.
    apply list_elem_of_fmap. by exists (a, b1).
  - rewrite decide_False; [by apply IH|]. intros ->. contradict Hn.
    apply list_elem_of_fmap. by exists (a, b).
Qed.

Lemma bind_zip {A B C} (g : A -> list C) (h : A * B -> list C) l k :
  length l = length k -> (forall ab, ab ∈ zip l k -> g ab.1 = h ab) -> l ≫= g = zip l k ≫= h.
Proof.
  revert k. induction l as [|x l IH]; intros [|y k]; csimpl; try done.
  intros [= Hl] Hg. f_equal; [apply (Hg (x, y)); set_solver|]. apply IH; [done|]. set_solver.
Qed.

Lemma ProxyPort_proxies pairs p :
  p ∈ ProxyPort <$> proxies_of pairs ->
  p ∈ snd <$> pairs \/ p = C2CTLSPort.
Proof.
  induction pairs as [|[a q] pairs IH]; [by intros ?%elem_of_nil|].
  rewrite proxies_of_cons. csimpl. rewrite fmap_app, !elem_of_cons, elem_of_app.
  intros [->|[Hin|Hin]]; [by left; left| |destruct (IH Hin); tauto].
  destruct (a =? DefaultHTTPPort); csimpl in Hin; [|by apply elem_of_nil in Hin].
  apply list_elem_of_singleton in Hin. tauto.
Qed.

(** The ports reported for a container whose [ports] are proxied by [fresh]. *)
Lemma portMapping_proxied mapped appPorts ports fresh :
  NoDup ports -> length ports = length fresh -> (forall p, p ∈ fresh -> p ∉ ports) -> C2CTLSPort ∉ ports ->
  ContainerPort <$> appPorts = ports ++ (ProxyPort <$> proxies_of (zip ports fresh)) ->
  portMappingFromContainerInfo mapped appPorts (proxies_of (zip ports fresh)) =
  zip ports fresh ≫= proxied_entries (fun p => default 0 (containerToHostPortMappings mapped !! p)).
Proof.
  intros Hnd Hlen Hdis Hc Happ. rewrite portMapping_bind, Happ, filter_app.
  rewrite list_filter_all, (list_filter_none (fun p => p ∉ proxyPorts _) (ProxyPort <$> _)), app_nil_r.
  - apply bind_zip; [done|]. intros [a p] Hin. unfold port_entries. simpl.
    rewrite toProxy_lookup, proxies_of_app by done.
    rewrite (filter_key_unique _ a p), (proxies_of_cons a p []); [|by rewrite fst_zip by lia|done].
    unfold proxied_entries. simpl. by destruct (a =? DefaultHTTPPort).
  - intros p Hp Hn. apply Hn. by apply elem_of_proxyPorts.
  - intros p Hp. rewrite elem_of_proxyPorts. intros [Hin| ->]%ProxyPort_proxies; [|done].
    rewrite snd_zip in Hin by lia. by apply (Hdis p).
Qed.
