(* ===== verification/StoreNode.v ===== *)
(** * One container of the store

    [executor/depot/containerstore/storenode.go]: creating a container in
    garden, running it, and taking it down.  The calls a node makes to its
    collaborators (garden, the volume manager, the dependency manager, the
    credential manager) are answered by an environment; what matters of their
    effects is collected as a list of outputs.  Logging and metrics are left
    out. *)
From Stdlib Require Import ZArith Lia.
From S2P Require Import Prelude Float64 Actions Egress Executor Ports.

(** ** The node and its surroundings *)

Inductive BindMountOrigin := BindMountOriginHost | BindMountOriginContainer.

Record BindMount := mkBindMount {
  bm_SrcPath : string;
  bm_DstPath : string;
  bm_Mode : BindMountMode;
  bm_Origin : BindMountOrigin }.

Record BindMountCacheKey := mkBindMountCacheKey { bk_CacheKey : string; bk_Dir : string }.

Record BindMounts := mkBindMounts {
  CacheKeys : list BindMountCacheKey;
  GardenBindMounts : list BindMount }.

(** How the group that runs a container's credential manager and its steps
    ended: an error of its own, or the trace of its members' exits. *)
Inductive ProcessError :=
| PlainError (msg : string)
| ErrorTrace (events : list (string * option ProcessError)).

(** The group.  [readiness] says that a readiness check is defined.  A group that
    has exited is [Exiting] until the node's goroutine has dealt with it. *)
Inductive Process :=
| NotStarted
| Starting (readiness : bool)
| Up (readiness : bool)
| Exiting (err : option ProcessError)
| Exited.

Record ContainerConfig := mkContainerConfig {
  OwnerName : string;
  INodeLimit : Z;
  MaxCPUShares : Z;
  SetCPUWeight : bool;
  ReservedExpirationTime : Z;
  hostTrustedCertificatesPath : string;
  declarativeHealthcheckPath : string;
  enableUnproxiedPortMappings : bool;
  advertisePreferenceForInstanceAddress : bool;
  injectWorkloadIdentityEnabled : bool }.

Record storeNode := mkStoreNode {
  n_info : Container;
  n_generateLogMetrics : bool;
  n_bindMountCacheKeys : list BindMountCacheKey;
  n_gardenContainer : bool;        (* the pointer is not nil *)
  n_bindMounts : list BindMount;
  n_process : Process;
  n_logStreamer : bool;            (* the pointer is not nil *)
  n_destroying : bool;
  n_regenerateCerts : bool;        (* the channel's one slot is taken *)
  n_opLock : bool }.               (* held *)

Definition newStoreNode (container : Container) (generateLogMetrics : bool) : storeNode :=
  mkStoreNode container generateLogMetrics [] false [] NotStarted false false false false.

Definition set_info (n : storeNode) (info : Container) : storeNode :=
  mkStoreNode info (n_generateLogMetrics n) (n_bindMountCacheKeys n) (n_gardenContainer n)
    (n_bindMounts n) (n_process n) (n_logStreamer n) (n_destroying n) (n_regenerateCerts n) (n_opLock n).
Definition set_bindMounts (n : storeNode) (mounts : list BindMount) : storeNode :=
  mkStoreNode (n_info n) (n_generateLogMetrics n) (n_bindMountCacheKeys n) (n_gardenContainer n)
    mounts (n_process n) (n_logStreamer n) (n_destroying n) (n_regenerateCerts n) (n_opLock n).
Definition set_process (n : storeNode) (p : Process) : storeNode :=
  mkStoreNode (n_info n) (n_generateLogMetrics n) (n_bindMountCacheKeys n) (n_gardenContainer n)
    (n_bindMounts n) p (n_logStreamer n) (n_destroying n) (n_regenerateCerts n) (n_opLock n).
Definition set_created (n : storeNode) (info : Container) (keys : list BindMountCacheKey) : storeNode :=
  mkStoreNode info (n_generateLogMetrics n) keys true
    (n_bindMounts n) (n_process n) (n_logStreamer n) (n_destroying n) (n_regenerateCerts n) (n_opLock n).
Definition set_running (n : storeNode) (p : Process) : storeNode :=
  mkStoreNode (n_info n) (n_generateLogMetrics n) (n_bindMountCacheKeys n) (n_gardenContainer n)
    (n_bindMounts n) p true (n_destroying n) (n_regenerateCerts n) (n_opLock n).
Definition set_destroying (n : storeNode) (b : bool) : storeNode :=
  mkStoreNode (n_info n) (n_generateLogMetrics n) (n_bindMountCacheKeys n) (n_gardenContainer n)
    (n_bindMounts n) (n_process n) (n_logStreamer n) b (n_regenerateCerts n) (n_opLock n).
Definition set_regenerateCerts (n : storeNode) (b : bool) : storeNode :=
  mkStoreNode (n_info n) (n_generateLogMetrics n) (n_bindMountCacheKeys n) (n_gardenContainer n)
    (n_bindMounts n) (n_process n) (n_logStreamer n) (n_destroying n) b (n_opLock n).
Definition set_opLock (n : storeNode) (b : bool) : storeNode :=
  mkStoreNode (n_info n) (n_generateLogMetrics n) (n_bindMountCacheKeys n) (n_gardenContainer n)
    (n_bindMounts n) (n_process n) (n_logStreamer n) (n_destroying n) (n_regenerateCerts n) b.

(** ** Outputs *)

Inductive Event :=
| ContainerCompleteEvent (c : Container) (traceID : string)
| ContainerRunningEvent (c : Container) (traceID : string)
| ContainerReservedEvent (c : Container) (traceID : string).

Inductive Output :=
| Emit (e : Event)
| ReleaseCachedDependencies (keys : list BindMountCacheKey)
| GardenDestroy (guid : string)
| RemoveCredDir (guid : string)
| RemoveMountedFiles (guid : string)
| Unmount (driver volumeId guid : string)
| SignalProcess (guid : string)
| UpdateLogTags (guid : string)
| SetLogConfigProperty (guid json : string).

(** ** Volumes *)

Definition WorkloadGuidKey : string := "_workload_guid".
Definition WorkloadTypeKey : string := "_workload_type".

Definition injectWorkloadIdentity (config : option (gmap string Any)) (info : Container)
    : option (gmap string Any) :=
  let lifecycle := Tags_lookup (ctr_Tags info) LifecycleTag in
  let inject (workloadGuid workloadType : string) :=
    if bool_decide (workloadGuid = "") then config
    else Some (<[WorkloadTypeKey := AnyString workloadType]>
                (<[WorkloadGuidKey := AnyString workloadGuid]> (default ∅ config))) in
  if bool_decide (lifecycle = LRPLifecycle)
  then inject (Tags_lookup (ctr_Tags info) ProcessGuidTag) LRPLifecycle
  else if bool_decide (lifecycle = TaskLifecycle) then inject (ctr_Guid info) TaskLifecycle
  else config.

(** An error of the volume manager that may be shown to the user, or not. *)
Inductive MountError := SafeError (msg : string) | UnsafeError (msg : string).

Section mount.
Context (cfg : ContainerConfig).
Context (volume_Mount : string -> string -> string -> option (gmap string Any) -> result MountError string).

Definition mount_volume (info : Container) (volume : VolumeMount) : result MountError BindMount :=
  let config := if injectWorkloadIdentityEnabled cfg
                then injectWorkloadIdentity (vm_Config volume) info else vm_Config volume in
  match volume_Mount (vm_Driver volume) (vm_VolumeId volume) (ctr_Guid info) config with
  | Err e => Err e
  | Ok path => Ok (mkBindMount path (vm_ContainerPath volume) (vm_Mode volume) BindMountOriginHost)
  end.

(** The loop stops at the first error. *)
Fixpoint mount_loop (info : Container) (volumes : list VolumeMount) : result MountError (list BindMount) :=
  match volumes with
  | [] => Ok []
  | v :: rest =>
      match mount_volume info v with
      | Err e => Err e
      | Ok m => match mount_loop info rest with Err e => Err e | Ok ms => Ok (m :: ms) end
      end
  end.

Definition mountVolumes (info : Container) : result MountError (list BindMount) :=
  mount_loop info (ri_VolumeMounts (ctr_RunInfo info)).
End mount.

Definition VolmanMountFailed : string := "failed to mount volume".

Definition mount_failure (e : MountError) : string :=
  match e with
  | SafeError msg => VolmanMountFailed +:+ ", errors: " +:+ msg
  | UnsafeError _ => VolmanMountFailed
  end.

(** ** Creating the garden container *)

Record ContainerSpec := mkContainerSpec {
  spec_Handle : string;
  spec_Privileged : bool;
  spec_ImageURI : string;
  spec_ImageUsername : string;
  spec_ImagePassword : string;
  spec_Env : list string;
  spec_BindMounts : list BindMount;
  spec_MemoryLimitInBytes : Z;   (* uint64 *)
  spec_DiskByteHard : Z;         (* uint64 *)
  spec_InodeHard : Z;            (* uint64 *)
  spec_PidMax : Z;               (* uint64 *)
  spec_CPULimitInShares : Z;     (* uint64 *)
  spec_CPUWeight : Z;            (* uint64 *)
  spec_Properties : gmap string string;
  spec_NetIn : list (Z * Z);     (* host port, container port *)
  spec_NetOut : list NetOutRule }.

Record ContainerInfo := mkContainerInfo {
  gi_ExternalIP : string;
  gi_ContainerIP : string;
  gi_ContainerIPv6 : string;
  gi_MappedPorts : MappedPorts }.

Inductive GardenError := ContainerNotFoundError | ErrConcurrentDestroy | OtherGardenError (msg : string).

(** The collaborators' answers during a creation. *)
Record CreateEnv := mkCreateEnv {
  env_Download : BindMounts * option ExecError;
  env_Mount : string -> string -> string -> option (gmap string Any) -> result MountError string;
  env_CredDir : result ExecError (list BindMount * list EnvironmentVariable);
  env_FilesDir : result ExecError (list BindMount);
  env_ProxyPorts : Container -> option (result string (list ProxyPortMapping * list Z));
  env_RootFSSize : string -> Z;
  env_Marshal : LogConfig -> result ExecError string;
  env_GardenCreate : ContainerSpec -> option ExecError;
  env_GardenInfo : result ExecError ContainerInfo }.

Definition ContainerOwnerProperty : string := "executor:owner".

Definition gardenProperties (cfg : ContainerConfig) (marshal : LogConfig -> result ExecError string)
    (container : Container) : result ExecError (gmap string string) :=
  let network := match ri_Network (ctr_RunInfo container) with
                 | None => ∅
                 | Some props =>
                     list_to_map ((fun kv => ("network." +:+ kv.1, kv.2)) <$> map_to_list props)
                 end in
  match marshal (ri_LogConfig (ctr_RunInfo container)) with
  | Err e => Err e
  | Ok logConfig => Ok (<["log_config" := logConfig]> (<[ContainerOwnerProperty := OwnerName cfg]> network))
  end.

Definition convertEnvVars (env : list EnvironmentVariable) : list string :=
  (fun e => env_Name e +:+ "=" +:+ env_Value e) <$> env.

Definition port_only (port : Z) : PortMapping := mkPortMapping port 0 0 0.

Section create_garden.
Context (cfg : ContainerConfig) (env : CreateEnv).

(** [info] with the ports the container asks for, the proxy mapping and the
    extra ports. *)
Definition requested_ports (info : Container)
    : option (result ExecError (Container * list ProxyPortMapping * list Z)) :=
  let info := set_RunInfo info (set_Ports (ctr_RunInfo info) (dedupPorts (ri_Ports (ctr_RunInfo info)))) in
  r ← env_ProxyPorts env info;
  Some match r with
       | Err e => Err (ErrOther e)
       | Ok (proxyPortMapping, extraPorts) =>
           Ok (set_RunInfo info
                 (set_Ports (ctr_RunInfo info) (ri_Ports (ctr_RunInfo info) ++ (port_only <$> extraPorts))),
               proxyPortMapping, extraPorts)
       end.

Definition netInRules (ports : list PortMapping) (extraPorts : list Z) : list (Z * Z) :=
  let netInPorts := if enableUnproxiedPortMappings cfg then ports else port_only <$> extraPorts in
  (fun p => (HostPort p, ContainerPort p)) <$>
    filter (fun p => ContainerPort p <> C2CTLSPort) netInPorts.

Definition containerSpec (info : Container) (bindMounts : list BindMount) (extraPorts : list Z)
    (properties : gmap string string) (netOutRules : list NetOutRule) : ContainerSpec :=
  let res := ctr_Resource info in
  let disk := u64 (u64 (er_DiskMB res) * 1024 * 1024) in
  let diskLimitBytesHard :=
    if bool_decide (disk = 0%Z) then 0%Z
    else u64 (disk + env_RootFSSize env (ri_RootFSPath (ctr_RunInfo info))) in
  {| spec_Handle := ctr_Guid info;
     spec_Privileged := ri_Privileged (ctr_RunInfo info);
     spec_ImageURI := ri_RootFSPath (ctr_RunInfo info);
     spec_ImageUsername := ri_ImageUsername (ctr_RunInfo info);
     spec_ImagePassword := ri_ImagePassword (ctr_RunInfo info);
     spec_Env := convertEnvVars (ri_Env (ctr_RunInfo info));
     spec_BindMounts := bindMounts;
     spec_MemoryLimitInBytes := u64 (i64 (er_MemoryMB res * 1024 * 1024));
     spec_DiskByteHard := diskLimitBytesHard;
     spec_InodeHard := INodeLimit cfg;
     spec_PidMax := u64 (er_MaxPids res);
     spec_CPULimitInShares :=
       to_u64 (fdiv (fmul (of_int (MaxCPUShares cfg)) (of_int (ri_CPUWeight (ctr_RunInfo info))))
                    (of_int 100));
     spec_CPUWeight := if SetCPUWeight cfg then u64 (er_MemoryMB res) else 0%Z;
     spec_Properties := properties;
     spec_NetIn := netInRules (ri_Ports (ctr_RunInfo info)) extraPorts;
     spec_NetOut := netOutRules |}.

(** [info] after garden has created the container. *)
Definition created_info (info : Container) (spec : ContainerSpec) (containerInfo : ContainerInfo)
    (proxyPortMapping : list ProxyPortMapping) : Container :=
  mkContainer (ctr_Guid info) (ctr_Resource info)
    (set_Ports (ctr_RunInfo info)
       (portMappingFromContainerInfo (gi_MappedPorts containerInfo) (ri_Ports (ctr_RunInfo info))
          proxyPortMapping))
    (ctr_Tags info) (ctr_State info) (ctr_Routable info) (ctr_AllocatedAt info)
    (gi_ExternalIP containerInfo) (gi_ContainerIP containerInfo) (gi_ContainerIPv6 containerInfo)
    (ctr_RunResult info) (spec_MemoryLimitInBytes spec) (spec_DiskByteHard spec)
    (advertisePreferenceForInstanceAddress cfg).

(** The outer option is a panic; a failure after the creation destroys the
    garden container again. *)
Definition createGardenContainer (info : Container) (bindMounts : list BindMount)
    : option (result ExecError Container * list Output) :=
  netOut ← convertEgressToNetOut (rw_EgressRules (ri_Work (ctr_RunInfo info)));
  match netOut with
  | Err e => Some (Err (ErrOther e), [])
  | Ok netOutRules =>
      ports ← requested_ports info;
      match ports with
      | Err e => Some (Err e, [])
      | Ok (info, proxyPortMapping, extraPorts) =>
          match gardenProperties cfg (env_Marshal env) info with
          | Err e => Some (Err e, [])
          | Ok properties =>
              let spec := containerSpec info bindMounts extraPorts properties netOutRules in
              match env_GardenCreate env spec with
              | Some e => Some (Err e, [])
              | None =>
                  match env_GardenInfo env with
                  | Err e => Some (Err e, [GardenDestroy (ctr_Guid info)])
                  | Ok containerInfo => Some (Ok (created_info info spec containerInfo proxyPortMapping), [])
                  end
              end
          end
      end
  end.
End create_garden.

(** ** The operations of a node *)

Definition complete (n : storeNode) (traceID : string) (failed : bool) (failureReason : string)
    (retryable : bool) : storeNode * list Output :=
  let info := TransitionToComplete (n_info n) failed failureReason retryable in
  (set_info n info, [Emit (ContainerCompleteEvent info traceID)]).

(** The outer option is a panic. *)
Definition node_Initialize (n : storeNode) (req : RunRequest) : option (storeNode * option ExecError) :=
  r ← TransitionToInitialize (n_info n) req;
  Some match r with Err e => (n, Some e) | Ok info => (set_info n info, None) end.

Definition DownloadCachedDependenciesFailed : string := "failed to download cached artifacts".
Definition ContainerCreationFailedMessage : string := "failed to create container".
Definition CredDirFailed : string := "failed to create credentials directory".
Definition VolumeMountedFileFailed : string := "failed to create volume mounted files".

Section create.
Context (cfg : ContainerConfig) (env : CreateEnv) (traceID : string).

(** A failed step completes the container, which may be retried elsewhere. *)
Definition create_failed (n : storeNode) (reason : string) (e : ExecError) (out : list Output)
    : storeNode * option ExecError * list Output :=
  let '(n, out') := complete n traceID true reason true in (n, Some e, out ++ out').

Definition trusted_certs_mount (info : Container) : list BindMount * list EnvironmentVariable :=
  let path := ri_TrustedSystemCertificatesPath (ctr_RunInfo info) in
  if negb (bool_decide (hostTrustedCertificatesPath cfg = "")) && negb (bool_decide (path = ""))
  then ([mkBindMount (hostTrustedCertificatesPath cfg) path BindMountModeRO BindMountOriginHost],
        [mkEnvironmentVariable "CF_SYSTEM_CERT_PATH" path])
  else ([], []).

Definition mount_error (e : MountError) : ExecError :=
  match e with SafeError msg | UnsafeError msg => ErrOther msg end.

Definition healthcheck_mount : BindMount :=
  mkBindMount (declarativeHealthcheckPath cfg) "/etc/cf-assets/healthcheck" BindMountModeRO
    BindMountOriginHost.

(** The closure [createContainer], after the dependencies are downloaded. *)
Definition create_downloaded (n : storeNode) (mounts : BindMounts)
    : option (storeNode * option ExecError * list Output) :=
  let info := n_info n in
  let '(certMounts, certEnv) := trusted_certs_mount info in
  let info := set_RunInfo info (set_Env (ctr_RunInfo info) (ri_Env (ctr_RunInfo info) ++ certEnv)) in
  let n := set_bindMounts n (GardenBindMounts mounts ++ certMounts) in
  match mountVolumes cfg (env_Mount env) info with
  | Err e => Some (create_failed n (mount_failure e) (mount_error e) [])
  | Ok volumeMounts =>
      let n := set_bindMounts n (n_bindMounts n ++ volumeMounts) in
      match env_CredDir env with
      | Err e => Some (create_failed n CredDirFailed e [])
      | Ok (credMounts, envs) =>
          match (if bool_decide (ri_VolumeMountedFiles (ctr_RunInfo info) = []) then Ok []
                 else env_FilesDir env) with
          | Err e => Some (create_failed n VolumeMountedFileFailed e [])
          | Ok volumeMountedFile =>
              let n := set_bindMounts n
                (n_bindMounts n ++ volumeMountedFile ++ credMounts ++ [healthcheck_mount]) in
              let info := set_RunInfo info (set_Env (ctr_RunInfo info) (ri_Env (ctr_RunInfo info) ++ envs)) in
              r ← createGardenContainer cfg env info (n_bindMounts n);
              match r with
              | (Err e, out) =>
                  Some (create_failed n (ContainerCreationFailedMessage +:+ ": " +:+ ExecError_Error e) e out)
              | (Ok info, out) =>
                  Some match TransitionToCreate info with
                       | Err e => (set_created n info (CacheKeys mounts), Some e, out)
                       | Ok info => (set_created n info (CacheKeys mounts), None, out)
                       end
              end
          end
      end
  end.

Definition node_Create (n : storeNode) : option (storeNode * option ExecError * list Output) :=
  if negb (ValidateTransitionTo (n_info n) StateCreated) then Some (n, Some ErrInvalidTransition, [])
  else
    match env_Download env with
    | (mounts, Some e) =>
        Some (create_failed n DownloadCachedDependenciesFailed e
                [ReleaseCachedDependencies (CacheKeys mounts)])
    | (mounts, None) => create_downloaded n mounts
    end.
End create.

(** [Run] starts the group of the credential manager and the container's steps;
    [steps] is the answer of the transformer: whether a readiness check is
    defined, or an error. *)
Definition node_Run (n : storeNode) (steps : result ExecError bool) : storeNode * option ExecError :=
  if negb (bool_decide (ctr_State (n_info n) = StateCreated)) then (n, Some ErrInvalidTransition)
  else match steps with
       | Err e => (set_running n (n_process n), Some e)
       | Ok readiness => (set_running n (Starting readiness), None)
       end.

(** *** The goroutine that follows the process *)

(** The end of [completeWithError]: a plain error, which counts as none when its
    text is empty. *)
Definition complete_plain (n : storeNode) (traceID : string) (msg : string) : storeNode * list Output :=
  if bool_decide (msg = "") then complete n traceID false "" false
  else complete n traceID true msg false.

(** A trace may complete the container several times, once for each member that
    failed. *)
Fixpoint completeWithError (n : storeNode) (traceID : string) (err : ProcessError) {struct err}
    : storeNode * list Output :=
  match err with
  | PlainError msg => complete_plain n traceID msg
  | ErrorTrace events =>
      (fix loop (n : storeNode) (events : list (string * option ProcessError)) : storeNode * list Output :=
         match events with
         | [] => (n, [])
         | (_, None) :: rest => loop n rest
         | (_, Some (ErrorTrace _ as trace)) :: _ => completeWithError n traceID trace
         | (member, Some (PlainError msg)) :: rest =>
             let msg := if bool_decide (member = "runner") then msg
                        else member +:+ " exited: " +:+ msg in
             let first := complete_plain n traceID msg in
             let others := loop first.1 rest in
             (others.1, first.2 ++ others.2)
         end) n events
  end.

Definition complete_exit (n : storeNode) (traceID : string) (err : option ProcessError)
    : storeNode * list Output :=
  match err with
  | None => complete n traceID false "" false
  | Some e => completeWithError n traceID e
  end.

(** The process is ready: the container is running, and routable when no
    readiness check is defined. *)
Definition node_ready (n : storeNode) (traceID : string) : option (storeNode * list Output) :=
  match n_process n with
  | Starting readiness =>
      let info := set_Routable (set_State (n_info n) StateRunning) (negb readiness) in
      Some (set_process (set_info n info) (Up readiness), [Emit (ContainerRunningEvent info traceID)])
  | _ => None
  end.

Definition node_readiness (n : storeNode) (traceID : string) (ready : bool)
    : option (storeNode * list Output) :=
  match n_process n with
  | Up true =>
      let info := set_Routable (n_info n) ready in
      Some (set_info n info, [Emit (ContainerRunningEvent info traceID)])
  | _ => None
  end.

(** The process exits, and then the goroutine completes the container. *)
Definition process_exit (n : storeNode) (err : option ProcessError) : option storeNode :=
  match n_process n with
  | Starting _ | Up _ => Some (set_process n (Exiting err))
  | _ => None
  end.

Definition node_exited (n : storeNode) (traceID : string) : option (storeNode * list Output) :=
  match n_process n with
  | Exiting err =>
      let '(n, out) := complete_exit n traceID err in Some (set_process n Exited, out)
  | _ => None
  end.

(** *** Updating *)

(** The part of [Update] under the lock of [info]; the JSON of the log
    configuration when the tags change. *)
Definition node_Update_info (n : storeNode) (marshal : LogConfig -> result ExecError string)
    (req : UpdateRequest) : storeNode * result ExecError string :=
  let info := n_info n in
  let info := match upd_InternalRoutes req with
              | None => info
              | Some routes => set_RunInfo info (set_InternalRoutes (ctr_RunInfo info) routes)
              end in
  match upd_MetricTags req with
  | None => (set_info n info, Ok "")
  | Some tags =>
      let info := set_RunInfo info (set_MetricTags (ctr_RunInfo info) tags) in
      (set_info n info, marshal (ri_LogConfig (ctr_RunInfo info)))
  end.

(** The send on the channel of regenerated certificates blocks ([None]) while
    the slot is taken. *)
Definition node_Update_send (n : storeNode) (req : UpdateRequest) : option storeNode :=
  match upd_InternalRoutes req with
  | None => Some n
  | Some _ => if n_regenerateCerts n then None else Some (set_regenerateCerts n true)
  end.

Definition node_Update_finish (n : storeNode) (json : string)
    (garden_SetProperty : option ExecError) (req : UpdateRequest) : option ExecError * list Output :=
  match upd_MetricTags req with
  | None => (None, [])
  | Some tags =>
      let out := if n_logStreamer n then [UpdateLogTags (ctr_Guid (n_info n))] else [] in
      if n_gardenContainer n
      then (garden_SetProperty, out ++ [SetLogConfigProperty (ctr_Guid (n_info n)) json])
      else (None, out)
  end.

(** *** Stopping and destroying *)

Definition set_Stopped (c : Container) : Container :=
  let rr := ctr_RunResult c in
  set_RunResult c (mkRunResult (rr_Failed rr) (rr_FailureReason rr) (rr_Retryable rr) true).

Definition node_stop (n : storeNode) (traceID : string) : storeNode * list Output :=
  let n := set_info n (set_Stopped (n_info n)) in
  match n_process n with
  | NotStarted =>
      if bool_decide (ctr_State (n_info n) = StateCompleted) then (n, [])
      else complete n traceID true "stopped-before-running" false
  | _ => (n, [SignalProcess (ctr_Guid (n_info n))])
  end.

(** A container that garden does not know, or is already destroying, counts as
    destroyed. *)
Definition destroyContainer (garden_Destroy : option GardenError) : option ExecError :=
  match garden_Destroy with
  | None | Some ContainerNotFoundError | Some ErrConcurrentDestroy => None
  | Some (OtherGardenError msg) => Some (ErrOther msg)
  end.

Definition BindMountCleanupFailed : string := "failed to cleanup bindmount artifacts".

(** The deferred calls of [Destroy], in the order they run. *)
Definition destroy_cleanup (info : Container) : list Output :=
  [RemoveMountedFiles (ctr_Guid info)] ++
  ((fun v => Unmount (vm_Driver v) (vm_VolumeId v) (ctr_Guid info)) <$> ri_VolumeMounts (ctr_RunInfo info)) ++
  [RemoveCredDir (ctr_Guid info)].

(** The process is not running any more. *)
Definition process_gone (n : storeNode) : bool :=
  match n_process n with NotStarted | Exiting _ | Exited => true | _ => false end.

(** The part of [Destroy] after the wait for the process. *)
Definition node_Destroy_finish (n : storeNode) (garden_Destroy : option GardenError)
    (released : bool) : option ExecError * list Output :=
  let info := n_info n in
  match destroyContainer garden_Destroy with
  | Some e => (Some e, [GardenDestroy (ctr_Guid info)] ++ destroy_cleanup info)
  | None =>
      (if released then None else Some (ErrOther BindMountCleanupFailed),
       [GardenDestroy (ctr_Guid info); ReleaseCachedDependencies (n_bindMountCacheKeys n)] ++
       destroy_cleanup info)
  end.

(** *** Expiring and reaping *)

Definition ContainerExpirationMessage : string := "expired container".
Definition ContainerMissingMessage : string := "missing garden container".

Definition node_Expire (cfg : ContainerConfig) (n : storeNode) (traceID : string) (now : Z)
    : storeNode * bool * list Output :=
  if negb (bool_decide (ctr_State (n_info n) = StateReserved)) then (n, false, [])
  else
    let lifespan := sat64 (now - ctr_AllocatedAt (n_info n)) in
    if (ReservedExpirationTime cfg <=? lifespan)%Z then
      let '(n, out) := complete n traceID true ContainerExpirationMessage false in (n, true, out)
    else (n, false, []).

Definition node_Reap (n : storeNode) (traceID : string) : storeNode * bool * list Output :=
  if Container_IsCreated (n_info n) then
    let guid := ctr_Guid (n_info n) in
    let '(n, out) := complete n traceID true ContainerMissingMessage false in
    (n, true, RemoveCredDir guid :: out)
  else (n, false, []).

(** ** Properties *)

(** What never changes about a container once it is reserved. *)
Definition same_identity (c c' : Container) : Prop :=
  ctr_Guid c' = ctr_Guid c /\ ctr_Resource c' = ctr_Resource c.

Lemma same_identity_refl c : same_identity c c.
Proof. done. Qed.
Lemma same_identity_trans c1 c2 c3 : same_identity c1 c2 -> same_identity c2 c3 -> same_identity c1 c3.
Proof. unfold same_identity. intuition congruence. Qed.

#[export] Hint Resolve same_identity_refl : diego.

Lemma complete_identity n t f r rt : same_identity (n_info n) (n_info (complete n t f r rt).1).
Proof. done. Qed.

Lemma TransitionToInitialize_ok c req c' :
  TransitionToInitialize c req = Some (Ok c') ->
  ctr_State c = StateReserved /\ ctr_State c' = StateInitializing /\ same_identity c c' /\
  ctr_RunInfo c' = run_RunInfo req.
Proof.
  unfold TransitionToInitialize, ValidateTransitionTo. simpl.
  destruct (ctr_State c); simpl; try done.
  destruct (Tags_Add _ _) as [t|]; [|done]. simpl. by intros [= <-].
Qed.

Lemma createGardenContainer_ok cfg env info mounts info' out :
  createGardenContainer cfg env info mounts = Some (Ok info', out) ->
  same_identity info info' /\ ctr_State info' = ctr_State info /\ out = [] /\
  ctr_RunResult info' = ctr_RunResult info.
Proof.
  unfold createGardenContainer, requested_ports. destruct (convertEgressToNetOut _) as [[netOut|]|]; simpl; [|done..].
  destruct (env_ProxyPorts env _) as [[[ppm extra]|]|]; simpl; try done.
  destruct (gardenProperties _ _ _); [|done]. destruct (env_GardenCreate env _); [done|].
  destruct (env_GardenInfo env); [|done]. by intros [= <- <-].
Qed.

(** All it does besides is to destroy the garden container again. *)
Lemma createGardenContainer_out cfg env info mounts r out o :
  createGardenContainer cfg env info mounts = Some (r, out) -> o ∈ out -> exists guid, o = GardenDestroy guid.
Proof.
  unfold createGardenContainer. destruct (convertEgressToNetOut _) as [[netOut|]|]; simpl; [|intros [= <- <-]; set_solver|done].
  destruct (requested_ports _ _) as [[[[info' ppm] extra]|]|]; simpl; [|intros [= <- <-]; set_solver|done].
  destruct (gardenProperties _ _ _); [|intros [= <- <-]; set_solver].
  destruct (env_GardenCreate env _); [intros [= <- <-]; set_solver|].
  destruct (env_GardenInfo env); intros [= <- <-]; set_solver.
Qed.

(** How an attempt to create an initialised container ends. *)
Inductive created (n : storeNode) (traceID : string) : storeNode * option ExecError * list Output -> Prop :=
| created_ok n' :
    ctr_State (n_info n') = StateCreated -> same_identity (n_info n) (n_info n') ->
    n_gardenContainer n' = true -> n_process n' = n_process n ->
    created n traceID (n', None, [])
| created_failed n' info' e reason out :
    n_info n' = info' -> info' = TransitionToComplete (n_info n) true reason true ->
    n_process n' = n_process n -> n_bindMountCacheKeys n' = n_bindMountCacheKeys n ->
    (forall ev, Emit ev ∉ out) ->
    created n traceID (n', Some e, out ++ [Emit (ContainerCompleteEvent info' traceID)]).

Lemma create_failed_created n n0 traceID reason e out :
  n_info n0 = n_info n -> n_process n0 = n_process n -> n_bindMountCacheKeys n0 = n_bindMountCacheKeys n ->
  (forall ev, Emit ev ∉ out) ->
  created n traceID (create_failed traceID n0 reason e out).
Proof.
  intros Hi Hp Hk Ho. unfold create_failed, complete. rewrite Hi. simpl.
  by eapply (created_failed n traceID _ _ e reason).
Qed.

Lemma create_downloaded_created cfg env traceID n mounts r :
  ctr_State (n_info n) = StateInitializing ->
  create_downloaded cfg env traceID n mounts = Some r -> created n traceID r.
Proof.
  intros Hst. unfold create_downloaded. destruct (trusted_certs_mount cfg (n_info n)) as [cm ce].
  destruct (mountVolumes _ _ _) as [vm|e].
  2: { intros [= <-]. apply create_failed_created; set_solver. }
  destruct (env_CredDir env) as [[credMounts envs]|e].
  2: { intros [= <-]. apply create_failed_created; set_solver. }
  destruct (if bool_decide _ then _ else _) as [files|e].
  2: { intros [= <-]. apply create_failed_created; set_solver. }
  destruct (createGardenContainer _ _ _ _) as [[[info'|e] out]|] eqn:E; simpl; [| |done].
  2: { intros [= <-]. apply create_failed_created; [done..|]. intros ev Hin.
       by destruct (createGardenContainer_out _ _ _ _ _ _ _ E Hin). }
  apply createGardenContainer_ok in E as (Hid & Hs & -> & _). simpl in Hs. rewrite Hst in Hs.
  unfold TransitionToCreate, ValidateTransitionTo. rewrite Hs. simpl. intros [= <-].
  by apply created_ok.
Qed.

Lemma node_Create_created cfg env traceID n r :
  ctr_State (n_info n) = StateInitializing ->
  node_Create cfg env traceID n = Some r -> created n traceID r.
Proof.
  intros Hst. unfold node_Create, ValidateTransitionTo. rewrite Hst. simpl.
  destruct (env_Download env) as [mounts [e|]].
  - intros [= <-]. apply create_failed_created; [done..|set_solver].
  - by apply create_downloaded_created.
Qed.

Lemma node_Create_total cfg env traceID n :
  (forall info, is_Some (env_ProxyPorts env info)) -> is_Some (node_Create cfg env traceID n).
Proof.
  intros Hp. assert (forall info mounts, is_Some (createGardenContainer cfg env info mounts)) as Hg.
  { intros info mounts. unfold createGardenContainer, requested_ports.
    destruct (convertEgressToNetOut_total (rw_EgressRules (ri_Work (ctr_RunInfo info)))) as [[netOut|] ->]; simpl; [|by eexists].
    match goal with |- context [env_ProxyPorts env ?c] => destruct (Hp c) as [[[]|] ->] end; simpl; [|by eexists].
    by repeat case_match; eexists. }
  unfold node_Create, create_downloaded. repeat (case_match; try by eexists).
  all: match goal with |- context [createGardenContainer _ _ ?c ?m] => destruct (Hg c m) as [[[?|?] ?] ->] end; simpl; eauto.
Qed.

(** Creating a container returns, and either leaves it created in garden,
    with its guid and resources unchanged, or completed as failed and retryable
    with one completion event; it is never left halfway.  A container that is not
    initialised is refused and left alone.  The handler of the proxy's ports
    returns, as [ProxyPorts] does. *)
Theorem node_Create_outcome cfg env traceID n :
  (forall info, is_Some (env_ProxyPorts env info)) ->
  exists r, node_Create cfg env traceID n = Some r /\
    ((ctr_State (n_info n) <> StateInitializing /\ r = (n, Some ErrInvalidTransition, [])) \/
     (ctr_State (n_info n) = StateInitializing /\ created n traceID r)).
Proof.
  intros Hp. destruct (node_Create_total cfg env traceID n Hp) as [r Hc]. exists r. split; [done|].
  destruct (decide (ctr_State (n_info n) = StateInitializing)) as [Hst|Hst].
  - right. split; [done|]. by eapply node_Create_created.
  - left. split; [done|]. unfold node_Create, ValidateTransitionTo in Hc.
    destruct (ctr_State (n_info n)); simpl in Hc; by simplify_eq.
Qed.

Lemma create_failed_keys traceID n reason e out :
  n_bindMountCacheKeys (create_failed traceID n reason e out).1.1 = n_bindMountCacheKeys n /\
  (create_failed traceID n reason e out).2 =
    out ++ [Emit (ContainerCompleteEvent (TransitionToComplete (n_info n) true reason true) traceID)].
Proof. done. Qed.

Lemma create_downloaded_keys cfg env traceID n mounts n' e out keys :
  create_downloaded cfg env traceID n mounts = Some (n', Some e, out) ->
  ctr_State (n_info n) = StateInitializing ->
  n_bindMountCacheKeys n' = n_bindMountCacheKeys n /\ ReleaseCachedDependencies keys ∉ out.
Proof.
  unfold create_downloaded. intros Hc Hst. destruct (trusted_certs_mount cfg (n_info n)) as [cm ce].
  destruct (mountVolumes _ _ _) as [vm|]; [|injection Hc as <- <- <-; set_solver].
  destruct (env_CredDir env) as [[credMounts envs]|]; [|injection Hc as <- <- <-; set_solver].
  destruct (if bool_decide _ then _ else _) as [files|]; [|injection Hc as <- <- <-; set_solver].
  destruct (createGardenContainer _ _ _ _) as [[[info'|e'] out']|] eqn:E; simpl in Hc; [| |done].
  - apply createGardenContainer_ok in E as (_ & Hs & _). simpl in Hs. rewrite Hst in Hs.
    unfold TransitionToCreate, ValidateTransitionTo in Hc. by rewrite Hs in Hc.
  - injection Hc as <- <- <-. split; [done|]. rewrite elem_of_app, list_elem_of_singleton.
    intros [Hin|Hin]; [|done]. by destruct (createGardenContainer_out _ _ _ _ _ _ _ E Hin).
Qed.

Lemma Destroy_releases n g released keys :
  ReleaseCachedDependencies keys ∈ (node_Destroy_finish n g released).2 -> keys = n_bindMountCacheKeys n.
Proof.
  unfold node_Destroy_finish, destroy_cleanup. destruct (destroyContainer g); simpl; set_solver.
Qed.

(** A creation that fails after the cached dependencies were downloaded
    never gives them back: neither the creation nor the destruction of the
    container that follows releases any of their cache keys. *)
Theorem failed_create_leaks_cache_keys cfg env traceID n mounts n' e out g released keys :
  ctr_State (n_info n) = StateInitializing -> n_bindMountCacheKeys n = [] ->
  env_Download env = (mounts, None) ->
  node_Create cfg env traceID n = Some (n', Some e, out) ->
  ReleaseCachedDependencies keys ∈ out ++ (node_Destroy_finish n' g released).2 -> keys = [].
Proof.
  intros Hst Hk Hd. unfold node_Create, ValidateTransitionTo. rewrite Hst, Hd. simpl. intros Hc Hin.
  destruct (create_downloaded_keys _ _ _ _ _ _ _ _ keys Hc Hst) as [Hk' Hno].
  apply elem_of_app in Hin as [Hin|Hin]; [done|]. apply Destroy_releases in Hin. congruence.
Qed.

(** The answers of the proxy with which garden is asked for ports. *)
Lemma requested_ports_ok env info info' ppm extra ports :
  env_ProxyPorts env = ProxyPorts -> ri_EnableContainerProxy (ctr_RunInfo info) = true ->
  ports = ContainerPort <$> dedupPorts (ri_Ports (ctr_RunInfo info)) -> C2CTLSPort ∉ ports ->
  requested_ports env info = Some (Ok (info', ppm, extra)) ->
  ppm = proxies_of (zip ports (fresh_ports ports)) /\
  ContainerPort <$> ri_Ports (ctr_RunInfo info') = ports ++ (ProxyPort <$> ppm).
Proof.
  intros Hp He -> Hc. unfold requested_ports. rewrite Hp.
  rewrite (ProxyPorts_fresh _ (ContainerPort <$> dedupPorts (ri_Ports (ctr_RunInfo info))));
    [|done|done|apply dedupPorts_nodup|done].
  simpl. intros [= <- <- <-]. simpl. split; [done|].
  rewrite fmap_app, <-list_fmap_compose. f_equal. apply list_fmap_id.
Qed.

(** with the container proxy, a created container reports each of its
    distinct application ports once for each port it is proxied on, with the host
    ports garden mapped: one proxy port of its own, distinct from all application
    ports, and for the default HTTP port also the port for container
    networking. *)
Theorem created_ports cfg env info mounts info' out ports host mapped :
  env_ProxyPorts env = ProxyPorts -> ri_EnableContainerProxy (ctr_RunInfo info) = true ->
  ports = ContainerPort <$> dedupPorts (ri_Ports (ctr_RunInfo info)) ->
  C2CTLSPort ∉ ports -> length ports <= 2266 ->
  createGardenContainer cfg env info mounts = Some (Ok info', out) ->
  env_GardenInfo env = Ok mapped ->
  host = (fun p => default 0%Z (containerToHostPortMappings (gi_MappedPorts mapped) !! p)) ->
  exists fresh, length fresh = length ports /\ NoDup fresh /\
    (forall p, p ∈ fresh -> (StartProxyPort <= p < EndProxyPort)%Z /\ p ∉ ports /\ p <> C2CTLSPort) /\
    ri_Ports (ctr_RunInfo info') = zip ports fresh ≫= proxied_entries host.
Proof.
  intros Hp He Hports Hc Hlen Hcr Hinfo ->. exists (fresh_ports ports).
  split; [by apply fresh_ports_length|]. split; [apply fresh_ports_nodup|].
  split; [apply fresh_ports_spec|].
  unfold createGardenContainer in Hcr. destruct (convertEgressToNetOut _) as [[netOut|]|]; simpl; [|done..].
  destruct (requested_ports env info) as [[[[info1 ppm] extra]|]|] eqn:Er; simpl in Hcr; [|done..].
  destruct (requested_ports_ok _ _ _ _ _ ports Hp He Hports Hc Er) as [-> Hreq].
  destruct (gardenProperties _ _ _); [|done]. destruct (env_GardenCreate env _); [done|].
  rewrite Hinfo in Hcr. injection Hcr as <- <-. simpl.
  apply portMapping_proxied; [rewrite Hports; apply dedupPorts_nodup|by rewrite fresh_ports_length| |done|done].
  intros p Hin. by apply fresh_ports_spec in Hin as (_ & ? & _).
Qed.
