(* ===== verification/ContainerStore.v ===== *)
(** * The container store

    [executor/depot/containerstore/nodemap.go] and [containerstore.go]: the map
    of the nodes with the resources that remain, and the operations on it.
    Nodes are pointers, so a node that has left the map can still be at work:
    the model has a heap of nodes, and the operations that wait in between
    ([Destroy] and [Update]) are threads. *)
From Stdlib Require Import ZArith Lia.
From S2P Require Import Prelude Executor Ports StoreNode.

Abbreviation NodeRef := nat (only parsing).
Abbreviation NodeHeap := (gmap nat storeNode) (only parsing).

(** ** The node map *)

Record nodeMap := mkNodeMap {
  nm_nodes : gmap string NodeRef;
  nm_remaining : ExecutorResources }.

Definition newNodeMap (totalCapacity : ExecutorResources) : nodeMap := mkNodeMap ∅ totalCapacity.

Definition nodeMap_Contains (m : nodeMap) (guid : string) : bool := bool_decide (is_Some (nm_nodes m !! guid)).

Definition nodeMap_Add (m : nodeMap) (r : NodeRef) (node : storeNode) : result ExecError nodeMap :=
  let info := n_info node in
  if nodeMap_Contains m (ctr_Guid info) then Err ErrContainerGuidNotAvailable
  else match ExecutorResources_Subtract (nm_remaining m) (ctr_Resource info) with
       | None => Err ErrInsufficientResourcesAvailable
       | Some remaining => Ok (mkNodeMap (<[ctr_Guid info := r]> (nm_nodes m)) remaining)
       end.

Definition nodeMap_remove (m : nodeMap) (node : storeNode) : nodeMap :=
  let info := n_info node in
  mkNodeMap (delete (ctr_Guid info) (nm_nodes m))
    (ExecutorResources_Add (nm_remaining m) (ctr_Resource info)).

Definition nodeMap_Get (m : nodeMap) (h : NodeHeap) (guid : string) : result ExecError (NodeRef * storeNode) :=
  match nm_nodes m !! guid with
  | None => Err ErrContainerNotFound
  | Some r => match h !! r with Some n => Ok (r, n) | None => Err ErrContainerNotFound end
  end.

Definition nodeMap_Remove (m : nodeMap) (h : NodeHeap) (guid : string) : nodeMap :=
  match nodeMap_Get m h guid with
  | Err _ => m
  | Ok (_, node) => nodeMap_remove m node
  end.

Section ranges.
Context `{!MapRange string}.

Definition nodeMap_List (t : nat) (m : nodeMap) (h : NodeHeap) : list storeNode :=
  omap (fun gr => h !! gr.2) (range_over t (nm_nodes m)).

(** Every node is asked to expire. *)
Definition nodeMap_CompleteExpired (t : nat) (cfg : ContainerConfig) (m : nodeMap) (h : NodeHeap)
    (traceID : string) (now : Z) : NodeHeap * list Output :=
  foldl (fun st gr =>
           match st.1 !! gr.2 with
           | None => st
           | Some n => let '(n', _, out) := node_Expire cfg n traceID now in (<[gr.2 := n']> st.1, st.2 ++ out)
           end)
    (h, []) (range_over t (nm_nodes m)).

(** The guids of the snapshot that garden does not know are reaped. *)
Definition nodeMap_CompleteMissing (t : nat) (m : nodeMap) (h : NodeHeap) (traceID : string)
    (snapshotGuids : gmap string unit) (existingHandles : gset string) : NodeHeap * list Output :=
  foldl (fun st gu =>
           if bool_decide (gu.1 ∈ existingHandles) then st
           else match nodeMap_Get m st.1 gu.1 with
                | Err _ => st
                | Ok (r, n) => let '(n', _, out) := node_Reap n traceID in (<[r := n']> st.1, st.2 ++ out)
                end)
    (h, []) (range_over t snapshotGuids).
End ranges.

Definition nodeMap_containerGuids (m : nodeMap) : gmap string unit := (fun _ => ()) <$> nm_nodes m.

(** ** The store *)

(** An operation that waits: [Destroy] for the lock, for the process, or before
    it removes the node from the map; [Update] for room in a channel. *)
Inductive Thread :=
| DestroyWaiting (guid : string) (r : NodeRef) (traceID : string)
| DestroyLocked (guid : string) (r : NodeRef)
| DestroyRemoving (guid : string)
| UpdateSending (r : NodeRef) (req : UpdateRequest) (json : string).

Record containerStore := mkStore {
  st_map : nodeMap;
  st_heap : NodeHeap;
  st_threads : list Thread;
  st_out : list Output }.

Definition NewStore (totalCapacity : ExecutorResources) : containerStore :=
  mkStore (newNodeMap totalCapacity) ∅ [] [].

Definition put_node (s : containerStore) (r : NodeRef) (n : storeNode) (out : list Output) : containerStore :=
  mkStore (st_map s) (<[r := n]> (st_heap s)) (st_threads s) (st_out s ++ out).
Definition set_threads (s : containerStore) (ts : list Thread) : containerStore :=
  mkStore (st_map s) (st_heap s) ts (st_out s).

(** [now] is the clock's reading. *)
Definition store_Reserve (s : containerStore) (traceID : string) (now : Z) (req : AllocationRequest)
    : containerStore * result ExecError Container :=
  let container := NewReservedContainerFromAllocationRequest req now in
  let node := newStoreNode container (req_GenerateLogMetrics req) in
  let r := fresh (dom (st_heap s)) in
  match nodeMap_Add (st_map s) r node with
  | Err e => (s, Err e)
  | Ok m => (mkStore m (<[r := node]> (st_heap s)) (st_threads s)
               (st_out s ++ [Emit (ContainerReservedEvent container traceID)]), Ok container)
  end.

(** The outer option is a panic. *)
Definition store_Initialize (s : containerStore) (req : RunRequest)
    : option (containerStore * option ExecError) :=
  match nodeMap_Get (st_map s) (st_heap s) (run_Guid req) with
  | Err e => Some (s, Some e)
  | Ok (r, n) =>
      res ← node_Initialize n req;
      let '(n', e) := res in Some (put_node s r n' [], e)
  end.

(** [Create], [Run] and [Stop] take the node's lock: they wait ([None]) while it
    is held.  A creation that panics is [None] too.  A [Stop] that finds another
    one waiting for the lock returns at once and does nothing. *)
Definition store_Create (cfg : ContainerConfig) (env : CreateEnv) (s : containerStore)
    (traceID guid : string) : option (containerStore * option ExecError) :=
  match nodeMap_Get (st_map s) (st_heap s) guid with
  | Err e => Some (s, Some e)
  | Ok (r, n) =>
      if n_opLock n then None
      else res ← node_Create cfg env traceID n;
           let '(n', e, out) := res in Some (put_node s r n' out, e)
  end.

Definition store_Run (s : containerStore) (guid : string) (steps : result ExecError bool)
    : option (containerStore * option ExecError) :=
  match nodeMap_Get (st_map s) (st_heap s) guid with
  | Err e => Some (s, Some e)
  | Ok (r, n) =>
      if n_opLock n then None
      else let '(n', e) := node_Run n steps in Some (put_node s r n' [], e)
  end.

Definition store_Stop (s : containerStore) (traceID guid : string)
    : option (containerStore * option ExecError) :=
  match nodeMap_Get (st_map s) (st_heap s) guid with
  | Err e => Some (s, Some e)
  | Ok (r, n) =>
      if n_opLock n then None
      else let '(n', out) := node_stop n traceID in Some (put_node s r n' out, None)
  end.

Definition store_Get (s : containerStore) (guid : string) : result ExecError Container :=
  match nodeMap_Get (st_map s) (st_heap s) guid with
  | Err e => Err e
  | Ok (_, n) => Ok (n_info n)
  end.

Definition store_List `{!MapRange string} (t : nat) (s : containerStore) : list Container :=
  n_info <$> nodeMap_List t (st_map s) (st_heap s).

Definition store_RemainingResources (s : containerStore) : ExecutorResources := nm_remaining (st_map s).

(** [Destroy]: the call; a node that is being destroyed already counts as
    destroyed and is removed from the map at once. *)
Definition store_Destroy (s : containerStore) (traceID guid : string)
    : containerStore * option ExecError :=
  match nodeMap_Get (st_map s) (st_heap s) guid with
  | Err e => (s, Some e)
  | Ok (r, n) =>
      if n_destroying n then (set_threads s (DestroyRemoving guid :: st_threads s), None)
      else (set_threads (put_node s r (set_destroying n true) [])
              (DestroyWaiting guid r traceID :: st_threads s), None)
  end.

(** [Update]: the call, up to the send on the channel. *)
Definition store_Update (marshal : LogConfig -> result ExecError string) (s : containerStore)
    (req : UpdateRequest) : option (containerStore * option ExecError) :=
  match nodeMap_Get (st_map s) (st_heap s) (upd_Guid req) with
  | Err e => Some (s, Some e)
  | Ok (r, n) =>
      if n_opLock n then None
      else match node_Update_info n marshal req with
           | (n', Err e) => Some (put_node s r n' [], Some e)
           | (n', Ok json) =>
               Some (set_threads (put_node s r (set_opLock n' true) [])
                       (UpdateSending r req json :: st_threads s), None)
           end
  end.

(** ** Steps

    One step of one of the store's goroutines.  [reads_certs] says that the
    credential manager listens on the channel of regenerated certificates while
    the container's process is up; without instance identity it does not. *)
Section steps.
Context `{!MapRange string} (cfg : ContainerConfig) (reads_certs : bool).

Definition process_up (n : storeNode) : bool :=
  match n_process n with Starting _ | Up _ => true | _ => false end.

(** Calls of the store's clients, and its periodic runners. *)
Inductive call_step (s : containerStore) : containerStore -> Prop :=
| call_reserve traceID now req :
    er_ok (req_Resource req) -> call_step s (store_Reserve s traceID now req).1
| call_initialize req s' e : store_Initialize s req = Some (s', e) -> call_step s s'
| call_create env traceID guid s' e : store_Create cfg env s traceID guid = Some (s', e) -> call_step s s'
| call_run guid steps s' e : store_Run s guid steps = Some (s', e) -> call_step s s'
| call_stop traceID guid s' e : store_Stop s traceID guid = Some (s', e) -> call_step s s'
| call_destroy traceID guid : call_step s (store_Destroy s traceID guid).1
| call_update marshal req s' e : store_Update marshal s req = Some (s', e) -> call_step s s'
| call_expire t traceID now :
    let r := nodeMap_CompleteExpired t cfg (st_map s) (st_heap s) traceID now in
    call_step s (mkStore (st_map s) r.1 (st_threads s) (st_out s ++ r.2))
| call_reap t traceID snapshot handles :
    let r := nodeMap_CompleteMissing t (st_map s) (st_heap s) traceID snapshot handles in
    call_step s (mkStore (st_map s) r.1 (st_threads s) (st_out s ++ r.2)).

(** What happens to a node's process. *)
Inductive process_step (s : containerStore) : containerStore -> Prop :=
| step_ready r n traceID n' out :
    st_heap s !! r = Some n -> node_ready n traceID = Some (n', out) -> process_step s (put_node s r n' out)
| step_readiness r n traceID b n' out :
    st_heap s !! r = Some n -> node_readiness n traceID b = Some (n', out) ->
    process_step s (put_node s r n' out)
| step_exit r n err n' :
    st_heap s !! r = Some n -> process_exit n err = Some n' -> process_step s (put_node s r n' [])
| step_exited r n traceID n' out :
    st_heap s !! r = Some n -> node_exited n traceID = Some (n', out) -> process_step s (put_node s r n' out)
| step_read_certs r n :
    st_heap s !! r = Some n -> reads_certs = true -> process_up n = true ->
    process_step s (put_node s r (set_regenerateCerts n false) []).

(** The waiting operations. *)
Inductive thread_step (s : containerStore) : containerStore -> Prop :=
| destroy_lock guid r traceID n n' out ts :
    st_threads s ≡ₚ DestroyWaiting guid r traceID :: ts ->
    st_heap s !! r = Some n -> n_opLock n = false -> node_stop n traceID = (n', out) ->
    thread_step s (set_threads (put_node s r (set_opLock n' true) out) (DestroyLocked guid r :: ts))
| destroy_failed guid r n garden released e out ts :
    st_threads s ≡ₚ DestroyLocked guid r :: ts ->
    st_heap s !! r = Some n -> process_gone n = true ->
    node_Destroy_finish n garden released = (Some e, out) ->
    thread_step s (set_threads (put_node s r (set_opLock (set_destroying n false) false) out) ts)
| destroy_done guid r n garden released out ts :
    st_threads s ≡ₚ DestroyLocked guid r :: ts ->
    st_heap s !! r = Some n -> process_gone n = true ->
    node_Destroy_finish n garden released = (None, out) ->
    thread_step s (set_threads (put_node s r (set_opLock (set_destroying n false) false) out)
                     (DestroyRemoving guid :: ts))
| destroy_remove guid ts :
    st_threads s ≡ₚ DestroyRemoving guid :: ts ->
    thread_step s (mkStore (nodeMap_Remove (st_map s) (st_heap s) guid) (st_heap s) ts (st_out s))
| update_send r req json n n' garden ts :
    st_threads s ≡ₚ UpdateSending r req json :: ts ->
    st_heap s !! r = Some n -> node_Update_send n req = Some n' ->
    thread_step s (set_threads (put_node s r (set_opLock n' false) (node_Update_finish n json garden req).2) ts).

Inductive store_step (s s' : containerStore) : Prop :=
| store_call : call_step s s' -> store_step s s'
| store_process : process_step s s' -> store_step s s'
| store_thread : thread_step s s' -> store_step s s'.

(** ** What a step does to the nodes *)

(** What is done to one node under its operation lock, ... *)
Inductive locked_op (n n' : storeNode) : Prop :=
| op_create env t e out : node_Create cfg env t n = Some (n', e, out) -> locked_op n n'
| op_run steps e : node_Run n steps = (n', e) -> locked_op n n'
| op_stop t out : node_stop n t = (n', out) -> locked_op n n'
| op_update marshal req r : node_Update_info n marshal req = (n', r) -> locked_op n n'.

(** ... what is done without it, ... *)
Inductive free_op (n n' : storeNode) : Prop :=
| op_initialize req e : node_Initialize n req = Some (n', e) -> free_op n n'
| op_ready t out : node_ready n t = Some (n', out) -> free_op n n'
| op_readiness t b out : node_readiness n t b = Some (n', out) -> free_op n n'
| op_exit err : process_exit n err = Some n' -> free_op n n'
| op_exited t out : node_exited n t = Some (n', out) -> free_op n n'
| op_expire t now b out : node_Expire cfg n t now = (n', b, out) -> free_op n n'
| op_reap t b out : node_Reap n t = (n', b, out) -> free_op n n'.

(** ... and the change of its flags. *)
Inductive node_op (n n' : storeNode) : Prop :=
| op_locked : locked_op n n' -> node_op n n'
| op_free : free_op n n' -> node_op n n'
| op_flags d c l : n' = set_opLock (set_regenerateCerts (set_destroying n d) c) l -> node_op n n'.

(** The nodes are the same ones, each related to what it was. *)
Definition evolves (R : relation storeNode) (h h' : NodeHeap) : Prop :=
  forall r, option_Forall2 R (h !! r) (h' !! r).

Lemma evolves_lookup R h h' r n :
  evolves R h h' -> h !! r = Some n -> exists n', h' !! r = Some n' /\ R n n'.
Proof. intros Hev Hn. specialize (Hev r). rewrite Hn in Hev. inversion Hev. eauto. Qed.

Lemma evolves_lookup_inv R h h' r n' :
  evolves R h h' -> h' !! r = Some n' -> exists n, h !! r = Some n /\ R n n'.
Proof. intros Hev Hn. specialize (Hev r). rewrite Hn in Hev. inversion Hev. eauto. Qed.

Lemma evolves_mono (R R' : relation storeNode) h h' :
  (forall n n', R n n' -> R' n n') -> evolves R h h' -> evolves R' h h'.
Proof. intros HR Hev r. destruct (Hev r); constructor; auto. Qed.

#[export] Instance evolves_preorder R : PreOrder R -> PreOrder (evolves R).
Proof. intros HR. split; [by intros h r|]. intros h1 h2 h3 H12 H23 r. by transitivity (h2 !! r). Qed.

Lemma evolves_insert (R : relation storeNode) `{!Reflexive R} h r n n' :
  h !! r = Some n -> R n n' -> evolves R h (<[r := n']> h).
Proof.
  intros Hn Hi r0. rewrite lookup_insert. case_decide; [|done].
  subst r0. rewrite Hn. by constructor.
Qed.

(** The flags of a node, set one at a time. *)
Lemma op_set_destroying n d : node_op n (set_destroying n d).
Proof. by apply (op_flags _ _ d (n_regenerateCerts n) (n_opLock n)). Qed.
Lemma op_set_opLock n l : node_op n (set_opLock n l).
Proof. by apply (op_flags _ _ (n_destroying n) (n_regenerateCerts n) l); destruct n. Qed.
Lemma op_set_regenerateCerts n c : node_op n (set_regenerateCerts n c).
Proof. by apply (op_flags _ _ (n_destroying n) c (n_opLock n)); destruct n. Qed.

Lemma Get_lookup m h guid r n : nodeMap_Get m h guid = Ok (r, n) -> nm_nodes m !! guid = Some r /\ h !! r = Some n.
Proof.
  unfold nodeMap_Get. destruct (nm_nodes m !! guid) as [r0|]; [|done].
  destruct (h !! r0) eqn:E; [|done]. by intros [= -> ->].
Qed.

Lemma CompleteExpired_evolves t m h traceID now :
  evolves (rtc free_op) h (nodeMap_CompleteExpired t cfg m h traceID now).1.
Proof.
  unfold nodeMap_CompleteExpired.
  apply (foldl_inv (fun st : NodeHeap * list Output => evolves (rtc free_op) h st.1)); [done|].
  intros [h1 out] [g r] Hk. simpl. destruct (h1 !! r) as [n|] eqn:En; [|done].
  destruct (node_Expire cfg n traceID now) as [[n' b] o] eqn:Eo. simpl in *.
  etransitivity; [exact Hk|]. eapply evolves_insert; [apply _|done|]. by eapply rtc_once, op_expire.
Qed.

Lemma CompleteMissing_evolves t m h traceID snapshot handles :
  evolves (rtc free_op) h (nodeMap_CompleteMissing t m h traceID snapshot handles).1.
Proof.
  unfold nodeMap_CompleteMissing.
  apply (foldl_inv (fun st : NodeHeap * list Output => evolves (rtc free_op) h st.1)); [done|].
  intros [h1 out] [g u] Hk. simpl. case_bool_decide; [done|].
  destruct (nodeMap_Get m h1 g) as [[r n]|] eqn:Eg; [|done]. apply Get_lookup in Eg as [_ En].
  destruct (node_Reap n traceID) as [[n' b] o] eqn:Eo. simpl in *.
  etransitivity; [exact Hk|]. eapply evolves_insert; [apply _|done|]. by eapply rtc_once, op_reap.
Qed.

Lemma free_evolves h h' : evolves (rtc free_op) h h' -> evolves (rtc node_op) h h'.
Proof. apply evolves_mono. intros n n'. apply rtc_congruence with (f := id). intros ? ? ?. by apply op_free. Qed.

(** Apart from reserving and removing, a step only changes nodes. *)
Inductive effect (s s' : containerStore) : Prop :=
| effect_nodes : st_map s' = st_map s -> evolves (rtc node_op) (st_heap s) (st_heap s') -> effect s s'
| effect_reserve traceID now req :
    er_ok (req_Resource req) -> s' = (store_Reserve s traceID now req).1 -> effect s s'
| effect_remove guid :
    st_map s' = nodeMap_Remove (st_map s) (st_heap s) guid -> st_heap s' = st_heap s -> effect s s'.

Lemma effect_same s s' : st_map s' = st_map s -> st_heap s' = st_heap s -> effect s s'.
Proof. intros Hm Hh. apply effect_nodes; [done|]. by rewrite Hh. Qed.

Lemma effect_put s s' r n n' :
  st_heap s !! r = Some n -> st_map s' = st_map s -> st_heap s' = <[r := n']> (st_heap s) ->
  rtc node_op n n' -> effect s s'.
Proof. intros Hn Hm Hh Hi. apply effect_nodes; [done|]. rewrite Hh. eapply evolves_insert; [apply _|done..]. Qed.

(** An operation on the node of a guid: it fails, waits or changes the node. *)
Ltac through_get H r n :=
  match type of H with
  | context [nodeMap_Get ?m ?h ?g] =>
      destruct (nodeMap_Get m h g) as [[r n]|] eqn:Eg;
        [apply Get_lookup in Eg as [_ Eg]; try (destruct (n_opLock n); [done|])
        |injection H as <- <-; by apply effect_same]
  end.

Lemma call_effect s s' : call_step s s' -> effect s s'.
Proof.
  intros [traceID now req Hok|req s1 e Hc|env traceID guid s1 e Hc|guid steps s1 e Hc|traceID guid s1 e Hc
    |traceID guid|marshal req s1 e Hc|t traceID now|t traceID snapshot handles].
  - by eapply effect_reserve.
  - unfold store_Initialize in Hc. through_get Hc r n.
    destruct (node_Initialize n req) as [[n' e']|] eqn:Ei; [|done]. injection Hc as <- <-.
    eapply effect_put; [done..|]. by eapply rtc_once, op_free, op_initialize.
  - unfold store_Create in Hc. through_get Hc r n.
    destruct (node_Create cfg env traceID n) as [[[n' e'] out]|] eqn:Ei; [|done]. injection Hc as <- <-.
    eapply effect_put; [done..|]. by eapply rtc_once, op_locked, op_create.
  - unfold store_Run in Hc. through_get Hc r n. destruct (node_Run n steps) as [n' e'] eqn:Ei.
    injection Hc as <- <-. eapply effect_put; [done..|]. by eapply rtc_once, op_locked, op_run.
  - unfold store_Stop in Hc. through_get Hc r n. destruct (node_stop n traceID) as [n' out] eqn:Ei.
    injection Hc as <- <-. eapply effect_put; [done..|]. by eapply rtc_once, op_locked, op_stop.
  - unfold store_Destroy. destruct (nodeMap_Get _ _ _) as [[r n]|] eqn:Eg; [|by apply effect_same].
    apply Get_lookup in Eg as [_ Eg]. destruct (n_destroying n); [by apply effect_same|].
    eapply effect_put; [done..|]. apply rtc_once, op_set_destroying.
  - unfold store_Update in Hc. through_get Hc r n.
    destruct (node_Update_info n marshal req) as [n' [json|e']] eqn:Ei; injection Hc as <- <-;
      eapply effect_put; try done; apply op_update, op_locked in Ei; eauto using rtc_once, rtc_l, op_set_opLock.
  - apply effect_nodes; [done|apply free_evolves, CompleteExpired_evolves].
  - apply effect_nodes; [done|apply free_evolves, CompleteMissing_evolves].
Qed.

Lemma process_effect s s' : process_step s s' -> effect s s'.
Proof.
  intros [r n t n' out Hn Hs|r n t b n' out Hn Hs|r n err n' Hn Hs|r n t n' out Hn Hs|r n Hn _ _];
    (eapply effect_put; [done..|]; eapply rtc_once);
    eauto using op_free, op_ready, op_readiness, op_exit, op_exited, op_set_regenerateCerts.
Qed.

Lemma thread_effect s s' : thread_step s s' -> effect s s'.
Proof.
  intros [guid r t n n' out ts _ Hn _ Hs|guid r n g rel e out ts _ Hn _ _|guid r n g rel out ts _ Hn _ _
    |guid ts _|r req json n n' g ts _ Hn Hs].
  - eapply effect_put; [done..|]. apply op_stop, op_locked in Hs. eauto using rtc_once, rtc_l, op_set_opLock.
  - eapply effect_put; [done..|]. eauto using rtc_once, rtc_l, op_set_opLock, op_set_destroying.
  - eapply effect_put; [done..|]. eauto using rtc_once, rtc_l, op_set_opLock, op_set_destroying.
  - by eapply effect_remove.
  - eapply effect_put; [done..|]. unfold node_Update_send in Hs.
    destruct (upd_InternalRoutes req), (n_regenerateCerts n); simplify_eq;
      eauto using rtc_once, rtc_l, op_set_opLock, op_set_regenerateCerts.
Qed.

Lemma step_effect s s' : store_step s s' -> effect s s'.
Proof. intros [?|?|?]; auto using call_effect, process_effect, thread_effect. Qed.

(** *** Identities are kept *)

Lemma completeWithError_inv (P : storeNode -> Prop) t :
  (forall n msg, P n -> P (complete_plain n t msg).1) ->
  forall err n, P n -> P (completeWithError n t err).1.
Proof.
  intros HP. fix IH 1. intros [msg|events] n Hn; [by apply HP|]. cbn [completeWithError].
  revert n Hn. induction events as [|[member [err|]] rest IHr]; intros n Hn; [done| |by apply IHr].
  pose proof (IH err) as IHe. destruct err as [msg|events'].
  - apply IHr. by apply HP.
  - by apply IHe.
Qed.

Lemma complete_exit_inv (P : storeNode -> Prop) n t err :
  (forall n f r rt, P n -> P (complete n t f r rt).1) -> P n -> P (complete_exit n t err).1.
Proof.
  intros HP Hn. destruct err as [e|]; [|by apply HP].
  apply (completeWithError_inv P); [|done]. intros m msg Hm. unfold complete_plain. case_bool_decide; by apply HP.
Qed.

Lemma node_Create_identity env t n n' e out :
  node_Create cfg env t n = Some (n', e, out) -> same_identity (n_info n) (n_info n').
Proof.
  intros Hc. destruct (decide (ctr_State (n_info n) = StateInitializing)) as [Hst|Hst].
  - apply node_Create_created in Hc; [|done].
    inversion Hc as [? ? Hi|n1 ? ? ? ? Hi Hi']; [done|]. rewrite Hi, Hi'. done.
  - unfold node_Create, ValidateTransitionTo in Hc.
    destruct (ctr_State (n_info n)); simpl in Hc; by simplify_eq.
Qed.

Lemma node_op_identity n n' : node_op n n' -> same_identity (n_info n) (n_info n').
Proof.
  intros [[env t e out H|steps e H|t out H|marshal req r H]
    |[req e H|t out H|t b out H|err H|t out H|t now b out H|t b out H]|d c l ->].
  - by eapply node_Create_identity.
  - unfold node_Run in H. destruct (negb _); [by simplify_eq|]. destruct steps; by simplify_eq.
  - unfold node_stop, complete in H. simpl in H. destruct (n_process n); try by simplify_eq.
    case_bool_decide; by simplify_eq.
  - unfold node_Update_info in H. destruct (upd_InternalRoutes req), (upd_MetricTags req); by simplify_eq.
  - unfold node_Initialize in H. destruct (TransitionToInitialize _ _) as [[c|]|] eqn:E; simplify_eq/=; [|done].
    by apply TransitionToInitialize_ok in E as (_ & _ & ? & _).
  - unfold node_ready in H. destruct (n_process n); by simplify_eq.
  - unfold node_readiness in H. destruct (n_process n) as [| |[]| |]; by simplify_eq.
  - unfold process_exit in H. destruct (n_process n); by simplify_eq.
  - unfold node_exited in H. destruct (n_process n) as [| | |err|]; try done.
    pose proof (complete_exit_inv (fun m => same_identity (n_info n) (n_info m)) n t err) as Hi.
    destruct (complete_exit n t err) as [n1 o1]. simplify_eq/=. apply Hi; [|done].
    intros m f r rt Hm. by eapply same_identity_trans.
  - unfold node_Expire in H. destruct (negb _); [by simplify_eq|]. destruct (_ <=? _)%Z; by simplify_eq/=.
  - unfold node_Reap in H. destruct (Container_IsCreated _); by simplify_eq/=.
  - done.
Qed.

Lemma node_ops_identity n n' : rtc node_op n n' -> same_identity (n_info n) (n_info n').
Proof.
  induction 1 as [|n1 n2 n3 H _ IH]; [done|]. eapply same_identity_trans; [|exact IH].
  by apply node_op_identity.
Qed.

(** ** The resources add up *)

Definition resource_of (h : NodeHeap) (gr : string * NodeRef) : option EResource :=
  (fun n => ctr_Resource (n_info n)) <$> h !! gr.2.

(** The resources of the containers in the map. *)
Definition live_resources (s : containerStore) : list EResource :=
  omap (resource_of (st_heap s)) (map_to_list (nm_nodes (st_map s))).

Record store_ok (total : ExecutorResources) (s : containerStore) : Prop := {
  ok_nodes : forall g r, nm_nodes (st_map s) !! g = Some r ->
    exists n, st_heap s !! r = Some n /\ ctr_Guid (n_info n) = g /\ er_ok (ctr_Resource (n_info n));
  ok_remaining : ex_ok (nm_remaining (st_map s));
  ok_memory : (ex_MemoryMB (nm_remaining (st_map s)) + sumZ er_MemoryMB (live_resources s)
                = ex_MemoryMB total)%Z;
  ok_disk : (ex_DiskMB (nm_remaining (st_map s)) + sumZ er_DiskMB (live_resources s)
              = ex_DiskMB total)%Z;
  ok_containers : (ex_Containers (nm_remaining (st_map s)) + Z.of_nat (size (nm_nodes (st_map s)))
                    = ex_Containers total)%Z }.

Lemma store_ok_nodes total s s' :
  st_map s' = st_map s -> evolves (rtc node_op) (st_heap s) (st_heap s') -> store_ok total s -> store_ok total s'.
Proof.
  intros Hm Hk [Hn Hr Hmem Hdisk Hc].
  assert (live_resources s' = live_resources s) as Hl.
  { unfold live_resources. rewrite Hm. apply omap_ext_elem. intros [g r] Hin.
    apply elem_of_map_to_list in Hin. destruct (Hn g r Hin) as (n & Hrn & _).
    destruct (evolves_lookup _ _ _ _ _ Hk Hrn) as (n' & Hrn' & [_ Hres]%node_ops_identity). unfold resource_of. simpl.
    rewrite Hrn, Hrn'. simpl. by rewrite Hres. }
  split; rewrite ?Hm, ?Hl; try done.
  intros g r Hg. destruct (Hn g r Hg) as (n & Hrn & Hgu & Hok).
  destruct (evolves_lookup _ _ _ _ _ Hk Hrn) as (n' & Hrn' & [Hg' Hres]%node_ops_identity). exists n'. rewrite Hres, Hg'. done.
Qed.

Lemma store_ok_reserve total s traceID now req :
  er_ok (req_Resource req) -> store_ok total s -> store_ok total (store_Reserve s traceID now req).1.
Proof.
  intros Hreq [Hn Hr Hmem Hdisk Hc]. unfold store_Reserve, nodeMap_Add, nodeMap_Contains. simpl.
  case_bool_decide as Hg; [done|]. apply eq_None_not_Some in Hg.
  destruct (ExecutorResources_Subtract _ _) as [rem|] eqn:Hsub; [|done].
  destruct (Subtract_ok _ _ _ Hr Hreq Hsub) as (_ & Hrem & H1 & H2 & H3).
  pose proof (is_fresh (dom (st_heap s))) as Hfr. apply not_elem_of_dom in Hfr.
  set (r := fresh _) in *. set (node := newStoreNode _ _).
  assert (forall g r0, nm_nodes (st_map s) !! g = Some r0 -> r0 <> r) as Hne.
  { intros g r0 Hg0 ->. destruct (Hn g r Hg0) as (n & ? & _). congruence. }
  assert (live_resources (mkStore (mkNodeMap (<[req_Guid req := r]> (nm_nodes (st_map s))) rem)
            (<[r := node]> (st_heap s)) (st_threads s)
            (st_out s ++ [Emit (ContainerReservedEvent (n_info node) traceID)]))
          ≡ₚ req_Resource req :: live_resources s) as Hl.
  { unfold live_resources. simpl. rewrite (omap_Permutation _ _ _ (map_to_list_insert _ _ _ Hg)). csimpl.
    unfold resource_of at 1. simpl. rewrite lookup_insert_eq. simpl. f_equiv.
    erewrite omap_ext_elem; [done|]. intros [g r0] Hin%elem_of_map_to_list.
    unfold resource_of. simpl. by rewrite lookup_insert_ne by (apply not_eq_sym; eauto). }
  split; simpl; try done.
  - intros g r0. rewrite lookup_insert. case_decide as D.
    + intros [= <-]. subst g. exists node. by rewrite lookup_insert_eq.
    + intros Hg0. rewrite lookup_insert_ne by (apply not_eq_sym; eauto). by apply Hn.
  - rewrite (sumZ_perm _ _ _ Hl). simpl in *. lia.
  - rewrite (sumZ_perm _ _ _ Hl). simpl in *. lia.
  - rewrite map_size_insert_None by done. simpl in *. lia.
Qed.

Lemma live_member s g r n :
  nm_nodes (st_map s) !! g = Some r -> st_heap s !! r = Some n ->
  live_resources s ≡ₚ ctr_Resource (n_info n) ::
    omap (resource_of (st_heap s)) (map_to_list (delete g (nm_nodes (st_map s)))).
Proof.
  intros Hg Hn. unfold live_resources.
  rewrite <-(omap_Permutation _ _ _ (map_to_list_delete _ _ _ Hg)). csimpl.
  unfold resource_of at 1. simpl. by rewrite Hn.
Qed.

Lemma store_ok_remove total s s' guid :
  ex_ok total -> st_map s' = nodeMap_Remove (st_map s) (st_heap s) guid -> st_heap s' = st_heap s ->
  store_ok total s -> store_ok total s'.
Proof.
  intros Htot Hm Hh Hok. destruct (nodeMap_Get (st_map s) (st_heap s) guid) as [[r n]|] eqn:Eg.
  2: { unfold nodeMap_Remove in Hm. rewrite Eg in Hm. apply (store_ok_nodes total s); [done| |done].
       rewrite Hh. done. }
  unfold nodeMap_Remove in Hm. rewrite Eg in Hm. apply Get_lookup in Eg as [Hg Hn].
  destruct Hok as [Hnd Hr Hmem Hdisk Hc]. destruct (Hnd guid r Hg) as (n' & Hn' & Hguid & Hres).
  assert (n' = n) as -> by congruence.
  pose proof (live_member s guid r n Hg Hn) as Hl.
  rewrite (sumZ_perm _ _ _ Hl) in Hmem. rewrite (sumZ_perm _ _ _ Hl) in Hdisk. simpl in Hmem, Hdisk.
  assert (live_resources s' = omap (resource_of (st_heap s)) (map_to_list (delete guid (nm_nodes (st_map s)))))
    as Hl' by (unfold live_resources; by rewrite Hm, Hh; simpl; rewrite Hguid).
  set (rest := omap _ _) in *.
  assert (forall x, x ∈ rest -> er_ok x) as Hrest.
  { intros x ([g r0] & Hin%elem_of_map_to_list & Hx)%list_elem_of_omap.
    apply lookup_delete_Some in Hin as [_ Hin]. destruct (Hnd g r0 Hin) as (n0 & Hn0 & _ & Ho).
    unfold resource_of in Hx. simpl in Hx. rewrite Hn0 in Hx. by injection Hx as <-. }
  assert (0 <= sumZ er_MemoryMB rest)%Z by (apply sumZ_nonneg; intros x Hx; apply (Hrest x Hx)).
  assert (0 <= sumZ er_DiskMB rest)%Z by (apply sumZ_nonneg; intros x Hx; apply (Hrest x Hx)).
  assert (size (nm_nodes (st_map s)) = S (size (delete guid (nm_nodes (st_map s))))) as Hsize.
  { rewrite map_size_delete_Some by eauto. assert (size (nm_nodes (st_map s)) <> 0); [|lia].
    intros He%map_size_empty_inv. by rewrite He, lookup_empty in Hg. }
  unfold ex_ok, er_ok in *.
  assert (nodeMap_remove (st_map s) n = mkNodeMap (delete guid (nm_nodes (st_map s)))
    (mkExecutorResources (ex_MemoryMB (nm_remaining (st_map s)) + er_MemoryMB (ctr_Resource (n_info n)))
       (ex_DiskMB (nm_remaining (st_map s)) + er_DiskMB (ctr_Resource (n_info n)))
       (ex_Containers (nm_remaining (st_map s)) + 1))) as Hrm.
  { unfold nodeMap_remove, ExecutorResources_Add. rewrite Hguid, !i64_id by (unfold in_i64; lia). done. }
  rewrite Hrm in Hm. split; rewrite ?Hl', ?Hm; unfold ex_ok; simpl; try lia.
  intros g r0. rewrite Hh. intros [_ Hin]%lookup_delete_Some. by apply Hnd.
Qed.

Lemma store_ok_step total s s' : ex_ok total -> store_ok total s -> store_step s s' -> store_ok total s'.
Proof.
  intros Htot Hok Hs. destruct (step_effect s s' Hs) as [Hm Hk|traceID now req Hreq ->|guid Hm Hh].
  - by eapply store_ok_nodes.
  - by apply store_ok_reserve.
  - by eapply store_ok_remove.
Qed.

Lemma store_ok_new total : ex_ok total -> store_ok total (NewStore total).
Proof.
  intros Hok. split; simpl; try done.
  - unfold live_resources. simpl. rewrite map_to_list_empty. simpl. lia.
  - unfold live_resources. simpl. rewrite map_to_list_empty. simpl. lia.
  - rewrite map_size_empty. lia.
Qed.
Lemma store_ok_reach total s : ex_ok total -> rtc store_step (NewStore total) s -> store_ok total s.
Proof.
  intros Ht Hr. pose proof (store_ok_new total Ht) as Hok. revert Hok.
  induction Hr as [|s1 s2 s3 Hs _ IH]; [done|]. eauto using store_ok_step.
Qed.

(** C2: In every state the store can reach, whatever its goroutines have done in
    whatever order, the free memory, disk and containers are not negative, and
    together with what the containers in the map hold they are the cell's whole
    capacity. *)
Theorem store_resources_add_up total s :
  ex_ok total -> rtc store_step (NewStore total) s ->
  let free := store_RemainingResources s in
  ex_ok free /\
  (ex_MemoryMB free + sumZ er_MemoryMB (live_resources s) = ex_MemoryMB total)%Z /\
  (ex_DiskMB free + sumZ er_DiskMB (live_resources s) = ex_DiskMB total)%Z /\
  (ex_Containers free + Z.of_nat (size (nm_nodes (st_map s))) = ex_Containers total)%Z.
Proof. intros Ht Hr. destruct (store_ok_reach total s Ht Hr). done. Qed.
End steps.
