(* ===== verification/ContainerLifecycle.v ===== *)
(** * The life of a container in the store

    Which states a container goes through, what the end of its process does to
    it, and runs of the store in which its goroutines get in each other's way. *)
From Stdlib Require Import ZArith Lia.
From S2P Require Import Prelude Executor Ports StoreNode ContainerStore.

(** ** States only advance *)

Definition state_rank (s : State) : nat :=
  match s with
  | StateInvalid => 0 | StateReserved => 1 | StateInitializing => 2 | StateCreated => 3
  | StateRunning => 4 | StateCompleted => 5
  end.

(** Forward, or back from completed to running. *)
Definition moves (a b : State) : Prop :=
  state_rank a <= state_rank b \/ (a = StateCompleted /\ b = StateRunning).

Lemma moves_trans a b c : moves a b -> moves b c -> moves a c.
Proof. unfold moves. destruct a, b, c; simpl; intuition (congruence || lia). Qed.

(** What the process of a node says about its state. *)
Definition node_ok (n : storeNode) : Prop :=
  let st := ctr_State (n_info n) in
  match n_process n with
  | NotStarted => st <> StateRunning
  | Starting _ => st = StateCreated \/ st = StateCompleted
  | Up _ => st = StateRunning \/ st = StateCompleted
  | Exiting _ | Exited => st = StateCreated \/ st = StateRunning \/ st = StateCompleted
  end.

Section lifecycle.
Context `{!MapRange string} (cfg : ContainerConfig) (reads_certs : bool).

Lemma complete_exit_state n t err :
  ctr_State (n_info (complete_exit n t err).1) = ctr_State (n_info n) \/
  ctr_State (n_info (complete_exit n t err).1) = StateCompleted.
Proof.
  apply (complete_exit_inv (fun m => ctr_State (n_info m) = ctr_State (n_info n) \/
                                     ctr_State (n_info m) = StateCompleted)); [|by left].
  intros m f r rt _. by right.
Qed.

Lemma node_op_moves n n' :
  node_ok n -> node_op cfg n n' -> node_ok n' /\ moves (ctr_State (n_info n)) (ctr_State (n_info n')).
Proof.
  unfold node_ok, moves. intros Hok Hop.
  destruct Hop as [[env t e out H|steps e H|t out H|marshal req r H]
    |[req e H|t out H|t b out H|err H|t out H|t now b out H|t b out H]|d c l ->].
  - destruct (decide (ctr_State (n_info n) = StateInitializing)) as [Hst|Hst].
    + apply node_Create_created in H; [|done]. rewrite Hst in *.
      inversion H as [n1 Hs _ _ Hp|n1 ? ? ? ? Hi Hi' Hp]; subst.
      * rewrite Hs, Hp. split; [|left; simpl; lia]. destruct (n_process n); naive_solver.
      * rewrite Hi', Hp. split; [|left; simpl; lia]. destruct (n_process n); naive_solver.
    + unfold node_Create, ValidateTransitionTo in H.
      destruct (ctr_State (n_info n)) eqn:Es; simplify_eq/=; rewrite Es; auto.
  - unfold node_Run in H. case_bool_decide as Hs; simpl in H; [|by simplify_eq; auto].
    rewrite Hs in Hok. destruct steps; simplify_eq/=; rewrite Hs; split; (left; simpl; lia) || auto.
  - unfold node_stop, complete in H. simpl in H.
    destruct (n_process n) eqn:Ep; [|by simplify_eq/=; rewrite Ep; auto..].
    case_bool_decide as Hs; simplify_eq/=; rewrite Ep; [by auto|].
    split; [by intros ?|left]. destruct (ctr_State (n_info n)); simpl; lia.
  - unfold node_Update_info in H. destruct (upd_InternalRoutes req), (upd_MetricTags req); simplify_eq/=; auto.
  - unfold node_Initialize in H. destruct (TransitionToInitialize _ _) as [[c|]|] eqn:E; simplify_eq/=; [|auto].
    apply TransitionToInitialize_ok in E as (E1 & E2 & _). rewrite E1 in *. rewrite E2. simpl.
    split; [|left; lia]. destruct (n_process n); naive_solver.
  - unfold node_ready in H. destruct (n_process n); simplify_eq/=. destruct Hok as [-> | ->]; simpl; auto with lia.
  - unfold node_readiness in H. destruct (n_process n) as [| |[]| |] eqn:Ep; simplify_eq/=. rewrite Ep. auto.
  - unfold process_exit in H. destruct (n_process n); simplify_eq/=; intuition auto.
  - unfold node_exited in H. destruct (n_process n) as [| | |err|]; try done.
    pose proof (complete_exit_state n t err) as Hst. destruct (complete_exit n t err) as [n1 o1].
    simplify_eq/=. destruct Hst as [-> | ->]; simpl; [auto|]. split; [auto|left].
    destruct (ctr_State (n_info n)); simpl; lia.
  - unfold node_Expire in H. case_bool_decide as Hs; simplify_eq/=; [|auto].
    destruct (_ <=? _)%Z; simplify_eq/=; rewrite Hs in *; [|auto].
    split; [destruct (n_process n); naive_solver|left; simpl; lia].
  - unfold node_Reap in H. destruct (Container_IsCreated _) eqn:Ec; simplify_eq/=; [|auto].
    split; [destruct (n_process n); naive_solver|left]. destruct (ctr_State (n_info n)); simpl; lia.
  - simpl. auto.
Qed.

Lemma node_ops_moves n n' :
  node_ok n -> rtc (node_op cfg) n n' -> node_ok n' /\ moves (ctr_State (n_info n)) (ctr_State (n_info n')).
Proof.
  intros Hok Hops. induction Hops as [n|n1 n2 n3 H _ IH]; [split; [done|left; lia]|].
  destruct (node_op_moves _ _ Hok H) as [Hok2 Hm2]. destruct (IH Hok2) as [Hok3 Hm3].
  split; [done|]. by eapply moves_trans.
Qed.

Definition nodes_ok (s : containerStore) : Prop := forall r n, st_heap s !! r = Some n -> node_ok n.

Lemma step_moves s s' :
  nodes_ok s -> store_step cfg reads_certs s s' ->
  nodes_ok s' /\ forall r n, st_heap s !! r = Some n ->
    exists n', st_heap s' !! r = Some n' /\ moves (ctr_State (n_info n)) (ctr_State (n_info n')).
Proof.
  intros Hok Hstep. apply step_effect in Hstep as [_ Hev|traceID now req _ ->|guid _ Hh].
  - split.
    + intros r n' Hn'. destruct (evolves_lookup_inv _ _ _ _ _ Hev Hn') as (n & Hn & Hops).
      by destruct (node_ops_moves n n' (Hok r n Hn) Hops).
    + intros r n Hn. destruct (evolves_lookup _ _ _ _ _ Hev Hn) as (n' & Hn' & Hops).
      exists n'. split; [done|]. by destruct (node_ops_moves n n' (Hok r n Hn) Hops).
  - unfold store_Reserve. destruct (nodeMap_Add _ _ _); simpl.
    + split.
      * intros r n. simpl. rewrite lookup_insert. case_decide; [|apply Hok]. by intros [= <-].
      * intros r n Hn. exists n. split; [simpl|left; lia]. rewrite lookup_insert_ne; [done|].
        intros <-. apply (is_fresh (dom (st_heap s))), elem_of_dom. eauto.
    + split; [done|]. intros r n Hn. exists n. split; [done|left; lia].
  - unfold nodes_ok. rewrite Hh. split; [done|]. intros r n Hn. exists n. split; [done|left; lia].
Qed.

Lemma steps_moves s s' :
  nodes_ok s -> rtc (store_step cfg reads_certs) s s' ->
  nodes_ok s' /\ forall r n, st_heap s !! r = Some n ->
    exists n', st_heap s' !! r = Some n' /\ moves (ctr_State (n_info n)) (ctr_State (n_info n')).
Proof.
  intros Hok Hsteps. induction Hsteps as [s|s1 s2 s3 H _ IH].
  { split; [done|]. intros r n Hn. exists n. split; [done|left; lia]. }
  destruct (step_moves _ _ Hok H) as [Hok2 Hm2]. destruct (IH Hok2) as [Hok3 Hm3].
  split; [done|]. intros r n Hn. destruct (Hm2 r n Hn) as (n2 & Hn2 & H2).
  destruct (Hm3 r n2 Hn2) as (n3 & Hn3 & H3). exists n3. split; [done|]. by eapply moves_trans.
Qed.

(** C28: A container never goes back to an earlier state of its life, from
    reserved over initializing, created and running to completed, with one
    exception: a completed container may be running later.  This holds for any
    two points of a run of the store.  In the exceptional case its process was
    started. *)
Theorem container_lifecycle total s s' r n :
  rtc (store_step cfg reads_certs) (NewStore total) s -> rtc (store_step cfg reads_certs) s s' ->
  st_heap s !! r = Some n ->
  exists n', st_heap s' !! r = Some n' /\
    (state_rank (ctr_State (n_info n)) <= state_rank (ctr_State (n_info n')) \/
     ctr_State (n_info n) = StateCompleted /\ ctr_State (n_info n') = StateRunning /\
     n_process n' <> NotStarted).
Proof.
  intros H0 H1 Hn. destruct (steps_moves (NewStore total) s) as [Hok _]; [by intros ? ?|done|].
  destruct (steps_moves s s' Hok H1) as [Hok' Hm]. destruct (Hm r n Hn) as (n' & Hn' & Hmv).
  exists n'. split; [done|]. destruct Hmv as [?|[? Hr]]; [by left|right]. split_and!; [done..|].
  specialize (Hok' r n' Hn'). unfold node_ok in Hok'. by destruct (n_process n').
Qed.
End lifecycle.

(** ** The end of the process *)

(** The error of a group of processes: every trace in it has an exit with an
    error, as ifrit's [ErrorTrace.ErrorOrNil] makes sure. *)
Inductive reported : ProcessError -> Prop :=
| reported_plain msg : reported (PlainError msg)
| reported_trace events :
    (exists m e, (m, Some e) ∈ events) -> (forall m e, (m, Some e) ∈ events -> reported e) ->
    reported (ErrorTrace events).

(** The container has completed, and that was the last event. *)
Definition completed (traceID : string) (r : storeNode * list Output) : Prop :=
  ctr_State (n_info r.1) = StateCompleted /\ rr_Retryable (ctr_RunResult (n_info r.1)) = false /\
  last r.2 = Some (Emit (ContainerCompleteEvent (n_info r.1) traceID)).

Lemma complete_plain_completed n t msg : completed t (complete_plain n t msg).
Proof. unfold complete_plain. by case_bool_decide. Qed.

Lemma completeWithError_completed t err :
  reported err -> forall n, completed t (completeWithError n t err).
Proof.
  induction 1 as [msg|events Hex Hall IH]; [intros n; apply complete_plain_completed|].
  cbn [completeWithError].
  match goal with |- forall n, completed t (?f n events) => set (loop := f) end.
  assert (forall n, completed t (loop n events) \/
                    loop n events = (n, []) /\ forall m e, (m, Some e) ∉ events) as Hl.
  2: { intros n. destruct (Hl n) as [?|[_ Hno]]; [done|]. destruct Hex as (m & e & Hin). by destruct (Hno m e). }
  clear Hex. induction events as [|[m [err|]] rest IHr]; intros n.
  - right. split; [done|]. intros m e. by apply not_elem_of_nil.
  - left. destruct err as [msg|trace].
    + set (msg' := if bool_decide (m = "runner") then msg else m +:+ " exited: " +:+ msg).
      change (completed t ((loop (complete_plain n t msg').1 rest).1,
                           (complete_plain n t msg').2 ++ (loop (complete_plain n t msg').1 rest).2)).
      pose proof (complete_plain_completed n t msg') as Hc. destruct (complete_plain n t msg') as [n1 o1].
      destruct (IHr (fun m e Hin => Hall m e (list_elem_of_further _ _ _ Hin))
                    (fun m e Hin => IH m e (list_elem_of_further _ _ _ Hin)) n1) as [Hr|[Hr _]]; simpl.
      * destruct (loop n1 rest) as [n2 o2]. destruct Hr as (H1 & H2 & H3). split_and!; [done..|].
        simpl in *. by rewrite last_app, H3.
      * rewrite Hr. simpl. by rewrite app_nil_r.
    + apply (IH m (ErrorTrace trace)). by left.
  - destruct (IHr (fun m e Hin => Hall m e (list_elem_of_further _ _ _ Hin))
                  (fun m e Hin => IH m e (list_elem_of_further _ _ _ Hin)) n) as [Hr|[Hr Hno]]; [by left|right].
    split; [done|]. intros m' e Hin. apply elem_of_cons in Hin as [?|Hin]; [done|]. by destruct (Hno m' e).
Qed.

(** When the process of a container has ended, whether with an error, with
    the errors of a group of processes, or without one, the goroutine that waits
    for it completes the container, not to be retried, and announces last of all
    exactly the state it leaves behind. *)
Theorem exit_completes n t err :
  n_process n = Exiting err -> (forall e, err = Some e -> reported e) ->
  exists n' out, node_exited n t = Some (n', out) /\ n_process n' = Exited /\ completed t (n', out).
Proof.
  intros Hp Hrep. unfold node_exited. rewrite Hp.
  assert (completed t (complete_exit n t err)) as Hc.
  { destruct err as [e|]; [|done]. apply completeWithError_completed. by apply Hrep. }
  destruct (complete_exit n t err) as [n1 out]. eexists _, out. split_and!; done.
Qed.
