(* ===== verification/NodeLocks.v ===== *)
(** * The operation lock of a node

    Creating, running, stopping, updating and destroying a container take the
    node's operation lock.  Two of them keep it while they wait: an update that
    sends on the channel of regenerated certificates, and a destruction that
    waits for the container's process. *)
From Stdlib Require Import ZArith Lia.
From S2P Require Import Prelude Executor Ports StoreNode ContainerStore.

(** The goroutines that keep a lock while they wait, and whose lock it is. *)
Definition holds (r : NodeRef) (t : Thread) : Prop :=
  match t with
  | DestroyLocked _ r' | UpdateSending r' _ _ => r' = r
  | _ => False
  end.
#[export] Instance holds_dec r t : Decision (holds r t).
Proof. destruct t; simpl; apply _. Defined.

Definition holders (r : NodeRef) (s : containerStore) : list Thread := filter (holds r) (st_threads s).

Section locks.
Context `{!MapRange string} (cfg : ContainerConfig) (reads_certs : bool).
#[local] Abbreviation step := (store_step cfg reads_certs).

(** ** What the operations leave alone *)

Lemma node_Create_flags env t n n' e out :
  node_Create cfg env t n = Some (n', e, out) ->
  n_opLock n' = n_opLock n /\ n_regenerateCerts n' = n_regenerateCerts n /\ n_process n' = n_process n.
Proof.
  unfold node_Create, create_downloaded, create_failed, complete. intros H.
  destruct (negb _); [by simplify_eq/=|]. destruct (env_Download env) as [mounts [?|]]; [by simplify_eq/=|].
  destruct (trusted_certs_mount _ _). destruct (mountVolumes _ _ _); [|by simplify_eq/=].
  destruct (env_CredDir env) as [[]|]; [|by simplify_eq/=]. destruct (if bool_decide _ then _ else _); [|by simplify_eq/=].
  destruct (createGardenContainer _ _ _ _) as [[[]?]|]; simplify_eq/=; [|done].
  destruct (TransitionToCreate _); by simplify_eq/=.
Qed.

Lemma complete_exit_flags n t err :
  let n' := (complete_exit n t err).1 in
  n_opLock n' = n_opLock n /\ n_regenerateCerts n' = n_regenerateCerts n.
Proof.
  apply (complete_exit_inv (fun m => n_opLock m = n_opLock n /\ n_regenerateCerts m = n_regenerateCerts n)); done.
Qed.

(** Nobody reads the channel of regenerated certificates. *)
Definition deaf (n : storeNode) : Prop := reads_certs = false \/ process_up n = false.

(** A change that does not touch the lock, nor, while it is held, the channel. *)
Definition quiet (n n' : storeNode) : Prop :=
  n_opLock n' = n_opLock n /\
  (n_opLock n = true -> deaf n -> deaf n' /\ n_regenerateCerts n' = n_regenerateCerts n).

#[local] Instance quiet_preorder : PreOrder quiet.
Proof.
  unfold quiet. split; [by split|]. intros n1 n2 n3 [H1 H1'] [H2 H2'].
  split; [congruence|]. naive_solver congruence.
Qed.

Lemma locked_op_quiet n n' : n_opLock n = false -> locked_op cfg n n' -> quiet n n'.
Proof.
  intros Hl Hop. split; [|by rewrite Hl].
  destruct Hop as [env t e out H|steps e H|t out H|marshal req r H].
  - by apply node_Create_flags in H as (-> & _).
  - unfold node_Run in H. destruct (negb _); simplify_eq/=; [done|]. destruct steps; by simplify_eq/=.
  - unfold node_stop, complete in H. simpl in H. destruct (n_process n); try case_bool_decide; by simplify_eq/=.
  - unfold node_Update_info in H. destruct (upd_InternalRoutes req), (upd_MetricTags req); by simplify_eq/=.
Qed.

Lemma free_op_quiet n n' : free_op cfg n n' -> quiet n n'.
Proof.
  unfold quiet, deaf, process_up.
  intros [req e H|t out H|t b out H|err H|t out H|t now b out H|t b out H].
  - unfold node_Initialize in H. destruct (TransitionToInitialize _ _) as [[]|]; simplify_eq/=; naive_solver.
  - unfold node_ready in H. destruct (n_process n); simplify_eq/=; naive_solver.
  - unfold node_readiness in H. destruct (n_process n) as [| |[]| |]; simplify_eq/=; naive_solver.
  - unfold process_exit in H. destruct (n_process n); simplify_eq/=; naive_solver.
  - unfold node_exited in H. destruct (n_process n) as [| | |err|]; try done.
    destruct (complete_exit_flags n t err). destruct (complete_exit n t err). simplify_eq/=. naive_solver.
  - unfold node_Expire in H. destruct (negb _); [|destruct (_ <=? _)%Z]; simplify_eq/=; naive_solver.
  - unfold node_Reap in H. destruct (Container_IsCreated _); simplify_eq/=; naive_solver.
Qed.

(** ** What a step does to the locks *)

Inductive lock_effect (s s' : containerStore) : Prop :=
| locks_kept :
    evolves quiet (st_heap s) (st_heap s') ->
    (forall r, holders r s' ≡ₚ holders r s) -> lock_effect s s'
| locks_new r n :
    st_heap s !! r = None -> st_heap s' = <[r := n]> (st_heap s) -> n_opLock n = false ->
    st_threads s' = st_threads s -> lock_effect s s'
| lock_taken r n n' t :
    st_heap s !! r = Some n -> n_opLock n = false -> n_opLock n' = true ->
    st_heap s' = <[r := n']> (st_heap s) -> holds r t ->
    (forall r', holders r' s' ≡ₚ filter (holds r') [t] ++ holders r' s) -> lock_effect s s'
| lock_released r n n' t :
    st_heap s !! r = Some n -> n_opLock n' = false ->
    st_heap s' = <[r := n']> (st_heap s) -> holds r t ->
    (forall r', holders r' s ≡ₚ filter (holds r') [t] ++ holders r' s') ->
    (forall r' req json, t = UpdateSending r' req json -> is_Some (node_Update_send n req)) ->
    lock_effect s s'.

Lemma locks_put s s' r n n' :
  st_heap s !! r = Some n -> st_heap s' = <[r := n']> (st_heap s) -> quiet n n' ->
  (forall r, holders r s' ≡ₚ holders r s) -> lock_effect s s'.
Proof. intros Hn Hh Hq Ht. apply locks_kept; [|done]. rewrite Hh. by eapply (evolves_insert quiet). Qed.

Lemma locks_same s s' :
  st_heap s' = st_heap s -> (forall r, holders r s' ≡ₚ holders r s) -> lock_effect s s'.
Proof. intros Hh Ht. apply locks_kept; [|done]. by rewrite Hh. Qed.

Lemma locks_free h h' : evolves (rtc (free_op cfg)) h h' -> evolves quiet h h'.
Proof.
  apply evolves_mono. intros n n'. induction 1 as [|n1 n2 n3 H _ IH]; [done|].
  by transitivity n2; [apply free_op_quiet|].
Qed.

(** An operation on the node of a guid: it fails, waits or goes ahead. *)
Ltac through_get H r n :=
  match type of H with
  | context [nodeMap_Get ?m ?h ?g] =>
      destruct (nodeMap_Get m h g) as [[r n]|] eqn:Eg;
        [apply Get_lookup in Eg as [_ Eg]; try (destruct (n_opLock n) eqn:Hl; [done|])
        |injection H as <- <-; by apply locks_same]
  end.

Lemma call_locks s s' : call_step cfg s s' -> lock_effect s s'.
Proof.
  intros [traceID now req Hok|req s1 e Hc|env traceID guid s1 e Hc|guid steps s1 e Hc|traceID guid s1 e Hc
    |traceID guid|marshal req s1 e Hc|t traceID now|t traceID snapshot handles].
  - unfold store_Reserve. destruct (nodeMap_Add _ _ _); [|by apply locks_same].
    eapply locks_new; [|done..]. apply not_elem_of_dom, is_fresh.
  - unfold store_Initialize in Hc. through_get Hc r n.
    destruct (node_Initialize n req) as [[n' e']|] eqn:Ei; [|done]. injection Hc as <- <-.
    eapply locks_put; [done..| |done]. by eapply free_op_quiet, op_initialize.
  - unfold store_Create in Hc. through_get Hc r n.
    destruct (node_Create cfg env traceID n) as [[[n' e'] out]|] eqn:Ei; [|done]. injection Hc as <- <-.
    eapply locks_put; [done..| |done]. by eapply locked_op_quiet, op_create.
  - unfold store_Run in Hc. through_get Hc r n. destruct (node_Run n steps) as [n' e'] eqn:Ei.
    injection Hc as <- <-. eapply locks_put; [done..| |done]. by eapply locked_op_quiet, op_run.
  - unfold store_Stop in Hc. through_get Hc r n. destruct (node_stop n traceID) as [n' out] eqn:Ei.
    injection Hc as <- <-. eapply locks_put; [done..| |done]. by eapply locked_op_quiet, op_stop.
  - unfold store_Destroy. destruct (nodeMap_Get _ _ _) as [[r n]|] eqn:Eg; [|by apply locks_same].
    apply Get_lookup in Eg as [_ Eg]. destruct (n_destroying n); [by apply locks_same|].
    by eapply locks_put.
  - unfold store_Update in Hc. through_get Hc r n.
    destruct (node_Update_info n marshal req) as [n' [json|e']] eqn:Ei; injection Hc as <- <-.
    + eapply (lock_taken _ _ r n (set_opLock n' true) (UpdateSending r req json)); try done. intros r'.
      unfold holders. simpl. rewrite !filter_cons, filter_nil. by case_decide.
    + eapply locks_put; [done..| |done]. by eapply locked_op_quiet, op_update.
  - apply locks_kept; [apply locks_free, CompleteExpired_evolves|done].
  - apply locks_kept; [apply locks_free, CompleteMissing_evolves|done].
Qed.

Lemma process_locks s s' : process_step reads_certs s s' -> lock_effect s s'.
Proof.
  intros [r n t n' out Hn Hs|r n t b n' out Hn Hs|r n err n' Hn Hs|r n t n' out Hn Hs|r n Hn Hr Hup];
    (eapply locks_put; [done..| |done]).
  5: { split; [done|]. intros _ [?|?]; congruence. }
  all: eauto using free_op_quiet, op_ready, op_readiness, op_exit, op_exited.
Qed.

(** Only the threads that hold a lock count. *)
Lemma holders_threads r s ts : st_threads s ≡ₚ ts -> holders r s ≡ₚ filter (holds r) ts.
Proof. intros Ht. unfold holders. by rewrite Ht. Qed.

Lemma thread_locks s s' : thread_step s s' -> lock_effect s s'.
Proof.
  intros [guid r t n n' out ts Ht Hn Hl Hs|guid r n g rel e out ts Ht Hn _ _|guid r n g rel out ts Ht Hn _ _
    |guid ts Ht|r req json n n' g ts Ht Hn Hs].
  - eapply (lock_taken _ _ r n (set_opLock n' true) (DestroyLocked guid r)); try done. intros r'.
    rewrite (holders_threads _ _ _ Ht). unfold holders. simpl. rewrite !filter_cons. by repeat case_decide.
  - eapply (lock_released _ _ r n (set_opLock (set_destroying n false) false) (DestroyLocked guid r)); try done. intros r'.
    rewrite (holders_threads _ _ _ Ht). unfold holders. simpl. rewrite !filter_cons. by repeat case_decide.
  - eapply (lock_released _ _ r n (set_opLock (set_destroying n false) false) (DestroyLocked guid r)); try done. intros r'.
    rewrite (holders_threads _ _ _ Ht). unfold holders. simpl. rewrite !filter_cons. by repeat case_decide.
  - apply locks_same; [done|]. intros r'. rewrite (holders_threads _ _ _ Ht). unfold holders. simpl.
    rewrite !filter_cons. by repeat case_decide.
  - eapply (lock_released _ _ r n (set_opLock n' false) (UpdateSending r req json)); try done.
    + intros r'. rewrite (holders_threads _ _ _ Ht). unfold holders. simpl. rewrite !filter_cons.
      by repeat case_decide.
    + intros ? ? ? [= <- <- <-]. by rewrite Hs.
Qed.

Lemma step_locks s s' : step s s' -> lock_effect s s'.
Proof. intros [?|?|?]; auto using call_locks, process_locks, thread_locks. Qed.
(** ** One goroutine at a time *)

Definition lock_count (n : option storeNode) : nat :=
  match n with Some n => if n_opLock n then 1 else 0 | None => 0 end.

(** A lock that is kept while waiting has one goroutine that keeps it. *)
Definition lock_ok (s : containerStore) : Prop := forall r, length (holders r s) = lock_count (st_heap s !! r).

Lemma holds_one r r' t : holds r t -> filter (holds r') [t] = if decide (r' = r) then [t] else [].
Proof. intros Hr. rewrite filter_cons, filter_nil. destruct t; simpl in *; try done; subst; by repeat case_decide. Qed.

Lemma lock_ok_step s s' : lock_ok s -> step s s' -> lock_ok s'.
Proof.
  intros Hok Hs r. specialize (Hok r). apply step_locks in Hs as
    [Hq Ht|r0 n Hn Hh Hl Ht|r0 n n' t Hn Hl Hl' Hh Hr Ht|r0 n n' t Hn Hl' Hh Hr Ht _].
  - rewrite Ht, Hok. destruct (Hq r) as [n1 n2 [Hl _]|]; simpl; [by rewrite Hl|done].
  - unfold holders. rewrite Ht, Hh, lookup_insert. case_decide; [|done]. subst r0. simpl.
    rewrite Hl. by rewrite Hn in Hok.
  - rewrite Ht, length_app, Hok, Hh, lookup_insert, (holds_one _ _ _ Hr). repeat case_decide; subst; try done.
    rewrite Hn. simpl. by rewrite Hl, Hl'.
  - rewrite Ht, length_app, (holds_one _ _ _ Hr) in Hok. rewrite Hh, lookup_insert.
    repeat case_decide; subst; try done. rewrite Hn in Hok. simpl in *. rewrite Hl'.
    destruct (n_opLock n); lia.
Qed.

Lemma lock_ok_reach total s : rtc step (NewStore total) s -> lock_ok s.
Proof.
  intros Hr. assert (lock_ok (NewStore total)) as Hok by (intros r; done). revert Hok.
  induction Hr as [|s1 s2 s3 Hs _ IH]; [done|]. eauto using lock_ok_step.
Qed.

(** ** An update that nobody listens to *)
Section stuck.
Context (r : NodeRef) (req : UpdateRequest) (json : string).

Record stuck (s : containerStore) : Prop := {
  stuck_ok : lock_ok s;
  stuck_node : exists n, st_heap s !! r = Some n /\ n_regenerateCerts n = true /\ deaf n;
  stuck_thread : holders r s = [UpdateSending r req json] }.

Lemma stuck_locked s n : stuck s -> st_heap s !! r = Some n -> n_opLock n = true.
Proof.
  intros [Hok _ Ht] Hn. specialize (Hok r). rewrite Ht, Hn in Hok. simpl in Hok. by destruct (n_opLock n).
Qed.

Lemma stuck_step s s' : upd_InternalRoutes req <> None -> stuck s -> step s s' -> stuck s'.
Proof.
  intros Hreq Hst Hs. pose proof (lock_ok_step _ _ (stuck_ok _ Hst) Hs) as Hok'.
  destruct (stuck_node _ Hst) as (n0 & Hn0 & Hc0 & Hd0). pose proof (stuck_locked _ _ Hst Hn0) as Hl0.
  pose proof (stuck_thread _ Hst) as Ht0.
  apply step_locks in Hs as
    [Hq Ht|r0 n Hn Hh Hl Ht|r0 n n' t Hn Hl Hl' Hh Hr Ht|r0 n n' t Hn Hl' Hh Hr Ht Hsend].
  - split; [done| |].
    + destruct (evolves_lookup _ _ _ _ _ Hq Hn0) as (n' & Hn' & _ & Hk). exists n'.
      destruct (Hk Hl0 Hd0) as [? ->]. done.
    + specialize (Ht r). rewrite Ht0 in Ht. by apply Permutation_singleton_r in Ht.
  - split; [done| |].
    + exists n0. rewrite Hh, lookup_insert_ne by congruence. done.
    + unfold holders. by rewrite Ht.
  - assert (r0 <> r) as Hne by congruence. specialize (Ht r). rewrite (holds_one _ _ _ Hr), decide_False in Ht by done.
    split; [done| |].
    + exists n0. rewrite Hh, lookup_insert_ne by done. done.
    + rewrite Ht0 in Ht. by apply Permutation_singleton_r in Ht.
  - specialize (Ht r). rewrite Ht0, (holds_one _ _ _ Hr) in Ht. case_decide as Hd.
    + exfalso. symmetry in Ht. apply Permutation_singleton_r in Ht. injection Ht as Ht _.
      destruct (Hsend _ _ _ Ht) as [n1 Hs1]. assert (n = n0) as -> by congruence.
      unfold node_Update_send in Hs1. rewrite Hc0 in Hs1. by destruct (upd_InternalRoutes req).
    + split; [done| |].
      * exists n0. rewrite Hh, lookup_insert_ne by done. done.
      * symmetry in Ht. by apply Permutation_singleton_r in Ht.
Qed.
End stuck.

Lemma holders_member s r n t :
  lock_ok s -> st_heap s !! r = Some n -> t ∈ st_threads s -> holds r t -> holders r s = [t].
Proof.
  intros Hok Hn Hin Ht. assert (t ∈ holders r s) as Hh by (by apply list_elem_of_filter).
  specialize (Hok r). rewrite Hn in Hok. simpl in Hok. destruct (holders r s) as [|t1 [|]]; simpl in Hok.
  - by apply elem_of_nil in Hh.
  - by apply list_elem_of_singleton in Hh as ->.
  - destruct (n_opLock n); done.
Qed.

(** C37: An update that carries routes while a regeneration is still pending, and
    that nobody takes from the channel (the cell has no instance identity
    credentials, or the container's process is not up), never ends: from then on,
    whatever happens, it keeps the container's lock, and no call that stops the
    container gets through. *)
Theorem update_deadlock total s r n req json :
  rtc step (NewStore total) s ->
  st_heap s !! r = Some n -> n_regenerateCerts n = true -> reads_certs = false \/ process_up n = false ->
  UpdateSending r req json ∈ st_threads s -> upd_InternalRoutes req <> None ->
  forall s', rtc step s s' ->
    UpdateSending r req json ∈ st_threads s' /\
    (exists n', st_heap s' !! r = Some n' /\ n_opLock n' = true) /\
    forall guid traceID, nm_nodes (st_map s') !! guid = Some r -> store_Stop s' traceID guid = None.
Proof.
  intros Hreach Hn Hc Hd Hin Hreq s' Hs. pose proof (lock_ok_reach _ _ Hreach) as Hok.
  assert (stuck r req json s) as Hst.
  { split; [done|by exists n|]. by eapply holders_member. }
  clear -Hs Hst Hreq. induction Hs as [s|s1 s2 s3 H _ IH]; [|eauto using stuck_step].
  destruct (stuck_node _ _ _ _ Hst) as (n & Hn & _). pose proof (stuck_locked _ _ _ _ _ Hst Hn) as Hl.
  split_and!.
  - assert (UpdateSending r req json ∈ holders r s) as Hin by (rewrite (stuck_thread _ _ _ _ Hst); by left).
    by apply list_elem_of_filter in Hin as [_ ?].
  - by exists n.
  - intros guid traceID Hg. unfold store_Stop, nodeMap_Get. by rewrite Hg, Hn, Hl.
Qed.
End locks.
