(* ===== verification/Depot.v ===== *)
(** * The executor's client

    [executor/depot/depot.go]: allocating and running containers, the resources
    that remain and that are allocated, and the metrics of all containers. *)
From Stdlib Require Import ZArith Lia.
From S2P Require Import Prelude Executor Ports StoreNode ContainerStore ContainerLifecycle NodeLocks.

(** ** Allocating *)

(** The containers of a list of requests are reserved one after the other;
    [clock] is the time at which each is. *)
Fixpoint AllocateContainers (traceID : string) (clock : nat -> Z) (s : containerStore)
    (requests : list AllocationRequest) : containerStore * list AllocationFailure :=
  match requests with
  | [] => (s, [])
  | req :: rest =>
      let failed (e : ExecError) (s : containerStore) :=
        let '(s', failures) := AllocateContainers traceID (clock ∘ S) s rest in
        (s', mkAllocationFailure req (ExecError_Error e) :: failures) in
      match AllocationRequest_Validate req with
      | Some e => failed e s
      | None =>
          match store_Reserve s traceID (clock 0) req with
          | (s', Err e) => failed e s'
          | (s', Ok _) => AllocateContainers traceID (clock ∘ S) s' rest
          end
      end
  end.

(** ** Running

    [RunContainer] initialises the container and queues the worker that creates
    and runs it. *)
Definition RunContainer (s : containerStore) (req : RunRequest)
    : option (containerStore * result ExecError string) :=
  res ← store_Initialize s req;
  Some match res with
       | (s, Some e) => (s, Err e)
       | (s, None) => (s, Ok (run_Guid req))   (* the guid that is queued *)
       end.

(** The worker; an error of [Run] is only logged. *)
Definition runContainerWorker (cfg : ContainerConfig) (env : CreateEnv) (steps : result ExecError bool)
    (s : containerStore) (traceID guid : string) : option containerStore :=
  res ← store_Create cfg env s traceID guid;
  match res with
  | (s, Some _) => Some s
  | (s, None) => fst <$> store_Run s guid steps
  end.

(** ** Resources

    [liveMB] is the free space of the disk when it could be read. *)
Definition RemainingResources (diskPath : string) (liveMB : option Z) (s : containerStore) : ExecutorResources :=
  let remaining := store_RemainingResources s in
  if bool_decide (diskPath = "") then remaining
  else match liveMB with
       | Some mb =>
           if (mb <? ex_DiskMB remaining)%Z
           then mkExecutorResources (ex_MemoryMB remaining) mb (ex_Containers remaining)
           else remaining
       | None => remaining
       end.

Definition AllocatedResources (totalCapacity : ExecutorResources) (s : containerStore) : ExecutorResources :=
  let remaining := store_RemainingResources s in
  mkExecutorResources (i64 (ex_MemoryMB totalCapacity - ex_MemoryMB remaining))
    (i64 (ex_DiskMB totalCapacity - ex_DiskMB remaining))
    (i64 (ex_Containers totalCapacity - ex_Containers remaining)).

(** ** Metrics

    The metrics of garden for the containers of the store. *)
Definition GetBulkMetrics `{!MapRange string} {M : Type} (t : nat)
    (cmetrics : result ExecError (gmap string M)) (s : containerStore)
    : gmap string (option (gmap string string) * M) * option ExecError :=
  match cmetrics with
  | Err e => (∅, Some e)
  | Ok ms =>
      (foldl (fun acc c =>
                match ms !! ctr_Guid c with
                | Some m => <[ctr_Guid c := (ri_MetricTags (ctr_RunInfo c), m)]> acc
                | None => acc
                end) ∅ (store_List t s), None)
  end.

(** * Properties *)

(** ** What allocating does

    [granted] have been reserved, [failed] have not. *)
Record allocated (s s' : containerStore) (granted failed : list AllocationRequest) : Prop := {
  al_guids : forall g, is_Some (nm_nodes (st_map s') !! g) <->
    is_Some (nm_nodes (st_map s) !! g) \/ g ∈ req_Guid <$> granted;
  al_new : forall req, req ∈ granted ->
    req_Guid req <> "" /\ nm_nodes (st_map s) !! req_Guid req = None /\
    exists now, store_Get s' (req_Guid req) = Ok (NewReservedContainerFromAllocationRequest req now);
  al_nodup : NoDup (req_Guid <$> granted);
  al_old : forall g c, store_Get s g = Ok c -> store_Get s' g = Ok c;
  al_ok : ex_ok (store_RemainingResources s');
  al_memory : ex_MemoryMB (store_RemainingResources s') =
    (ex_MemoryMB (store_RemainingResources s) - sumZ (er_MemoryMB ∘ req_Resource) granted)%Z;
  al_disk : ex_DiskMB (store_RemainingResources s') =
    (ex_DiskMB (store_RemainingResources s) - sumZ (er_DiskMB ∘ req_Resource) granted)%Z;
  al_containers : ex_Containers (store_RemainingResources s') =
    (ex_Containers (store_RemainingResources s) - Z.of_nat (length granted))%Z;
  al_failed : forall req, req ∈ failed ->
    req_Guid req = "" \/ is_Some (nm_nodes (st_map s') !! req_Guid req) \/
    canSubtract (store_RemainingResources s') (req_Resource req) = false }.

Lemma allocated_none s : ex_ok (store_RemainingResources s) -> allocated s s [] [].
Proof. intros Hok. split; simpl; try done; try lia; try (by constructor); set_solver. Qed.

Lemma allocated_failed s req :
  ex_ok (store_RemainingResources s) ->
  req_Guid req = "" \/ is_Some (nm_nodes (st_map s) !! req_Guid req) \/
    canSubtract (store_RemainingResources s) (req_Resource req) = false ->
  allocated s s [] [req].
Proof.
  intros Hok Hf. destruct (allocated_none s Hok) as [H1 H2 H3 H4 H5 H6 H7 H8 H9]. split; try done.
  intros r. by intros ->%list_elem_of_singleton.
Qed.

Lemma allocated_granted s traceID now req s' c :
  ex_ok (store_RemainingResources s) -> er_ok (req_Resource req) -> req_Guid req <> "" ->
  store_Reserve s traceID now req = (s', Ok c) -> allocated s s' [req] [].
Proof.
  intros Hok Hres Hne. unfold store_Reserve, nodeMap_Add, nodeMap_Contains. simpl.
  case_bool_decide as Hg; [done|]. apply eq_None_not_Some in Hg.
  destruct (ExecutorResources_Subtract _ _) as [rem|] eqn:Hsub; [|done].
  destruct (Subtract_ok _ _ _ Hok Hres Hsub) as (_ & Hrem & H1 & H2 & H3). intros [= <- <-].
  pose proof (is_fresh (dom (st_heap s))) as Hfr. apply not_elem_of_dom in Hfr. set (r := fresh _) in *.
  split; simpl; try done.
  - intros g. rewrite lookup_insert. case_decide as D; [subst|].
    + split; [|eauto]. intros _. right. by left.
    + split; [auto|]. intros [?|Hin]; [done|]. by apply list_elem_of_singleton in Hin.
  - intros req' ->%list_elem_of_singleton. split_and!; [done..|]. exists now.
    unfold store_Get, nodeMap_Get. simpl. by rewrite !lookup_insert_eq.
  - apply NoDup_singleton.
  - intros g c. unfold store_Get, nodeMap_Get. simpl.
    destruct (nm_nodes (st_map s) !! g) as [r0|] eqn:Eg; [|done].
    destruct (st_heap s !! r0) as [n|] eqn:En; [|done]. intros [= <-].
    rewrite lookup_insert_ne by congruence. rewrite Eg, lookup_insert_ne by congruence. by rewrite En.
  - unfold store_RemainingResources in *. simpl. lia.
  - unfold store_RemainingResources in *. simpl. lia.
  - set_solver.
Qed.

(** What does not fit goes on not fitting as more is allocated. *)
Lemma canSubtract_less r r' res :
  (ex_MemoryMB r' <= ex_MemoryMB r)%Z -> (ex_DiskMB r' <= ex_DiskMB r)%Z ->
  (ex_Containers r' <= ex_Containers r)%Z -> canSubtract r res = false -> canSubtract r' res = false.
Proof.
  intros H1 H2 H3 Hc. destruct (canSubtract r' res) eqn:E; [|done]. apply canSubtract_spec in E.
  assert (canSubtract r res = true); [|congruence]. apply canSubtract_spec. lia.
Qed.

Lemma allocated_trans s1 s2 s3 g1 g2 f1 f2 :
  Forall (er_ok ∘ req_Resource) g2 ->
  allocated s1 s2 g1 f1 -> allocated s2 s3 g2 f2 -> allocated s1 s3 (g1 ++ g2) (f1 ++ f2).
Proof.
  intros Hres [A1 A2 A3 A4 A5 A6 A7 A8 A9] [B1 B2 B3 B4 B5 B6 B7 B8 B9].
  assert (0 <= sumZ (er_MemoryMB ∘ req_Resource) g2 /\ 0 <= sumZ (er_DiskMB ∘ req_Resource) g2)%Z as [Hm Hd].
  { rewrite Forall_forall in Hres. split; apply sumZ_nonneg; intros x Hx; by destruct (Hres x Hx). }
  split; try done; try (rewrite ?sumZ_app, ?length_app; lia).
  - intros g. rewrite B1, A1, fmap_app, elem_of_app. tauto.
  - intros req [Hin|Hin]%elem_of_app.
    + destruct (A2 req Hin) as (? & ? & now & Hg). split_and!; [done..|]. eauto.
    + destruct (B2 req Hin) as (? & Hg & Hnow). split_and!; [done| |done].
      apply eq_None_not_Some. intros Hs. apply eq_None_not_Some in Hg. apply Hg, A1. by left.
  - rewrite fmap_app. apply NoDup_app. split_and!; [done| |done].
    intros g Hg (req & -> & Hin)%list_elem_of_fmap. destruct (B2 req Hin) as (_ & Hn & _).
    apply eq_None_not_Some in Hn. apply Hn, A1. by right.
  - auto.
  - intros req [Hin|Hin]%elem_of_app; [|auto]. destruct (A9 req Hin) as [?|[?|Hc]]; [auto| |].
    + right. left. apply B1. by left.
    + do 2 right. eapply canSubtract_less; [..|exact Hc]; lia.
Qed.

(** The answer to a list of requests: every request is granted or failed. *)
Definition answers (s : containerStore) (requests : list AllocationRequest)
    (res : containerStore * list AllocationFailure) : Prop :=
  (fail_Request <$> res.2) `sublist_of` requests /\
  exists granted, granted `sublist_of` requests /\
    requests ≡ₚ granted ++ (fail_Request <$> res.2) /\
    allocated s res.1 granted (fail_Request <$> res.2).

Lemma Forall_sublist {A} (P : A -> Prop) l k : k `sublist_of` l -> Forall P l -> Forall P k.
Proof.
  rewrite !Forall_forall. intros Hs Hl x Hx. apply Hl. by eapply elem_of_submseteq, sublist_submseteq.
Qed.

Lemma answers_granted s s1 req rest res :
  Forall (er_ok ∘ req_Resource) rest ->
  allocated s s1 [req] [] -> answers s1 rest res -> answers s (req :: rest) res.
Proof.
  intros Hrest H1 (Hs & granted & Hgs & Hp & Ha). split; [by constructor|]. exists (req :: granted). split_and!.
  - by constructor.
  - by rewrite Hp at 1.
  - apply (allocated_trans s s1 res.1 [req] granted []); [by eapply Forall_sublist|done..].
Qed.

Lemma answers_failed s req e rest res :
  Forall (er_ok ∘ req_Resource) rest ->
  allocated s s [] [req] -> answers s rest res ->
  answers s (req :: rest) (res.1, mkAllocationFailure req e :: res.2).
Proof.
  intros Hrest H1 (Hs & granted & Hgs & Hp & Ha). csimpl. split; [by constructor|]. exists granted. split_and!.
  - by constructor.
  - rewrite Hp at 1. csimpl. solve_Permutation.
  - apply (allocated_trans s s res.1 [] granted [req]); [by eapply Forall_sublist|done..].
Qed.

Lemma store_Reserve_refused s traceID now req s' e :
  ex_ok (store_RemainingResources s) -> store_Reserve s traceID now req = (s', Err e) ->
  s' = s /\ allocated s s [] [req].
Proof.
  intros Hok. unfold store_Reserve, nodeMap_Add, nodeMap_Contains. simpl. case_bool_decide as Hc.
  { intros [= <- <-]. split; [done|]. apply allocated_failed; auto. }
  destruct (ExecutorResources_Subtract _ _) eqn:Hsub; [done|]. intros [= <- <-]. split; [done|].
  apply allocated_failed; [done|]. right. right.
  unfold ExecutorResources_Subtract in Hsub. unfold store_RemainingResources. by destruct (canSubtract _ _).
Qed.

Lemma AllocateContainers_answers traceID requests clock s :
  ex_ok (store_RemainingResources s) -> Forall (er_ok ∘ req_Resource) requests ->
  answers s requests (AllocateContainers traceID clock s requests).
Proof.
  revert clock s. induction requests as [|req rest IH]; intros clock s Hok Hres.
  { split; [done|]. exists []. split_and!; [done..|]. by apply allocated_none. }
  apply Forall_cons in Hres as [Hreq Hrest]. cbn [AllocateContainers].
  unfold AllocationRequest_Validate. case_bool_decide as Hg.
  { pose proof (IH (clock ∘ S) s Hok Hrest) as Ha. destruct (AllocateContainers _ _ _ _).
    by apply answers_failed with (res := (_, _)); [|apply allocated_failed; auto|]. }
  destruct (store_Reserve s traceID (clock 0) req) as [s1 [c|e]] eqn:Er.
  - pose proof (allocated_granted _ _ _ _ _ _ Hok Hreq Hg Er) as H1.
    eapply answers_granted; [done..|]. apply IH; [apply H1|done].
  - apply store_Reserve_refused in Er as [-> H1]; [|done].
    pose proof (IH (clock ∘ S) s Hok Hrest) as Ha. destruct (AllocateContainers _ _ _ _).
    by apply answers_failed with (res := (_, _)).
Qed.

(** C27: Allocating a list of containers answers every request: each is either
    reserved, under its own guid and with the resources it asked for, or reported
    as failed, in the order of the requests.  A failure is justified to the end:
    the guid is empty, or taken, or the resources that remain after the whole
    list do not suffice.  The containers there were stay as they were, and what
    remains has decreased by exactly what was granted and is never negative. *)
Theorem AllocateContainers_spec traceID clock s requests :
  ex_ok (store_RemainingResources s) -> Forall (er_ok ∘ req_Resource) requests ->
  let res := AllocateContainers traceID clock s requests in
  (fail_Request <$> res.2) `sublist_of` requests /\
  exists granted, granted `sublist_of` requests /\
    requests ≡ₚ granted ++ (fail_Request <$> res.2) /\
    allocated s res.1 granted (fail_Request <$> res.2).
Proof. apply AllocateContainers_answers. Qed.

(** ** Running *)

Lemma store_Get_node s guid r n :
  nm_nodes (st_map s) !! guid = Some r -> st_heap s !! r = Some n ->
  nodeMap_Get (st_map s) (st_heap s) guid = Ok (r, n).
Proof. intros Hg Hn. unfold nodeMap_Get. by rewrite Hg, Hn. Qed.

(** How the worker leaves the node of a container. *)
Inductive worked (traceID : string) (steps : result ExecError bool) (n : storeNode) (out : list Output) : Prop :=
| worked_starting readiness :
    steps = Ok readiness -> ctr_State (n_info n) = StateCreated -> n_gardenContainer n = true ->
    n_process n = Starting readiness -> worked traceID steps n out
| worked_no_process e :
    steps = Err e -> ctr_State (n_info n) = StateCreated -> n_gardenContainer n = true ->
    n_process n = NotStarted -> worked traceID steps n out
| worked_failed :
    ctr_State (n_info n) = StateCompleted -> rr_Failed (ctr_RunResult (n_info n)) = true ->
    rr_Retryable (ctr_RunResult (n_info n)) = true ->
    last out = Some (Emit (ContainerCompleteEvent (n_info n) traceID)) -> worked traceID steps n out.

Lemma runContainerWorker_worked cfg env steps s traceID guid r n s2 :
  nm_nodes (st_map s) !! guid = Some r -> st_heap s !! r = Some n ->
  ctr_State (n_info n) = StateInitializing -> n_process n = NotStarted ->
  runContainerWorker cfg env steps s traceID guid = Some s2 ->
  exists n2, st_heap s2 !! r = Some n2 /\ worked traceID steps n2 (st_out s2).
Proof.
  intros Hg Hn Hst Hp. unfold runContainerWorker, store_Create. rewrite (store_Get_node _ _ _ _ Hg Hn).
  destruct (n_opLock n) eqn:Hl; [done|].
  destruct (node_Create cfg env traceID n) as [[[n1 e] out]|] eqn:Ec; [|done]. simpl.
  destruct (node_Create_flags _ _ _ _ _ _ _ Ec) as (Hl1 & _ & Hp1). rewrite Hp in Hp1.
  pose proof (node_Create_created _ _ _ _ _ Hst Ec) as Hc.
  inversion Hc as [n1' Hs1 _ Hgc _ Hn1'|n1' info' e' reason out' Hi Hi' _ _ _ Hn1']; subst.
  - unfold store_Run. rewrite (store_Get_node (put_node s r n1 []) guid r n1) by (done || apply lookup_insert_eq).
    rewrite Hl1, Hl. unfold node_Run. rewrite bool_decide_true by done. simpl.
    destruct steps as [readiness|e]; intros [= <-]; simpl; rewrite lookup_insert_eq; eexists; split; [done| |done|].
    + by eapply worked_starting.
    + by eapply worked_no_process.
  - intros [= <-]. simpl. rewrite lookup_insert_eq. eexists. split; [done|].
    apply worked_failed; rewrite ?Hi'; try done. by rewrite !last_app.
Qed.

(** Running a reserved container starts it or gives it up.  The call
    succeeds and leaves the container initializing with the worker queued; when
    the worker is done the container exists in garden and its process is
    starting, or it has completed as failed and retryable, which was the last
    thing announced, or its steps could not be built: then it stays created with
    no process, and nothing has been announced. *)
Theorem run_container_outcome s req r n :
  nm_nodes (st_map s) !! run_Guid req = Some r -> st_heap s !! r = Some n ->
  ctr_State (n_info n) = StateReserved -> n_process n = NotStarted -> ctr_Tags (n_info n) <> None ->
  exists s1 n1, RunContainer s req = Some (s1, Ok (run_Guid req)) /\
    st_heap s1 !! r = Some n1 /\ ctr_State (n_info n1) = StateInitializing /\
    forall cfg env steps traceID s2,
      runContainerWorker cfg env steps s1 traceID (run_Guid req) = Some s2 ->
      exists n2, st_heap s2 !! r = Some n2 /\ worked traceID steps n2 (st_out s2).
Proof.
  intros Hg Hn Hst Hp Ht. unfold RunContainer, store_Initialize. rewrite (store_Get_node _ _ _ _ Hg Hn).
  unfold node_Initialize, TransitionToInitialize, ValidateTransitionTo. rewrite Hst. simpl.
  destruct (Tags_Add (ctr_Tags (n_info n)) (run_Tags req)) as [tags|] eqn:Eta.
  - eexists _, _. split; [done|]. simpl. rewrite lookup_insert_eq. split; [done|]. split; [done|].
    intros cfg env steps traceID s2. by eapply runContainerWorker_worked; [|simpl; apply lookup_insert_eq|..].
  - unfold Tags_Add in Eta. destruct (run_Tags req) as [o|]; [|done]. case_bool_decide; [done|].
    by destruct (ctr_Tags (n_info n)).
Qed.

(** ** Resources and metrics *)

Section reached.
Context `{!MapRange string} (cfg : ContainerConfig) (reads_certs : bool) (total : ExecutorResources).
Context (Htotal : ex_ok total).

(** What the cell reports as allocated is exactly what the containers in the
    store hold, in every reachable state, without wrapping around. *)
Theorem allocated_resources_exact s :
  rtc (store_step cfg reads_certs) (NewStore total) s ->
  AllocatedResources total s =
    mkExecutorResources (sumZ er_MemoryMB (live_resources s)) (sumZ er_DiskMB (live_resources s))
      (Z.of_nat (size (nm_nodes (st_map s)))).
Proof.
  intros Hr. destruct (store_ok_reach cfg reads_certs total s Htotal Hr) as [_ Hrem Hm Hd Hc].
  unfold AllocatedResources, store_RemainingResources. unfold ex_ok in *.
  f_equal; rewrite i64_id by (unfold in_i64; lia); lia.
Qed.
End reached.
