(* ===== verification/CellRep.v ===== *)
(** * The rep of a cell

    [rep/resources.go], [rep/conversion_helpers.go] (keys and tags) and
    [rep/auctioncellrep]: what the rep tells the auctioneer about its cell, and
    how it performs the work it is sent. *)
From Stdlib Require Import ZArith Lia.
From S2P Require Import Prelude Float64 Models AuctionTypes Cell Zones Scheduler Placement ScheduleProps GoStd Executor.

(** ** The executor's client

    The operations of [executor.Client] that the rep uses, over the state [St]
    of the executor, and what it relies on. *)
Record ExecClient (St : Type) := mkExecClient {
  ec_ListContainers : St -> result string (list Container);
  ec_TotalResources : St -> result string ExecutorResources;
  ec_RemainingResources : St -> result string ExecutorResources;
  ec_VolumeDrivers : St -> result string (list string);
  ec_Healthy : St -> bool;
  ec_AllocateContainers : St -> string -> list AllocationRequest -> St * list AllocationFailure }.
#[global] Arguments ec_ListContainers {St}.
#[global] Arguments ec_TotalResources {St}.
#[global] Arguments ec_RemainingResources {St}.
#[global] Arguments ec_VolumeDrivers {St}.
#[global] Arguments ec_Healthy {St}.
#[global] Arguments ec_AllocateContainers {St}.

(** Failures are reported for requests that were made, each once. *)
Class ExecContract {St : Type} (client : ExecClient St) : Prop :=
  allocate_failures : forall s traceID requests,
    (fail_Request <$> (ec_AllocateContainers client s traceID requests).2) `sublist_of` requests.

(** ** Tags and keys *)

Definition ResultFileTag : string := "result-file".
Definition DomainTag : string := "domain".
Definition InstanceGuidTag : string := "instance-guid".
Definition ProcessIndexTag : string := "process-index".
Definition VolumeDriversTag : string := "volume-drivers".
Definition PlacementTagsTag : string := "placement-tags".

Definition ActualLRPKey_Validate (key : ActualLRPKey) : list string :=
  (if bool_decide (key_ProcessGuid key = "") then ["process_guid"] else []) ++
  (if (key_Index key <? 0)%Z then ["index"] else []) ++
  (if bool_decide (key_Domain key = "") then ["domain"] else []).

Inductive KeyError := ErrContainerMissingTags | ErrInvalidProcessIndex | ErrIntergerOverflow
| ErrInvalidFields (fields : list string).

Definition ActualLRPKeyFromTags (tags : Tags) : result KeyError ActualLRPKey :=
  if bool_decide (tags = None) then Err ErrContainerMissingTags
  else
    match strconv_Atoi (Tags_lookup tags ProcessIndexTag) with
    | None => Err ErrInvalidProcessIndex
    | Some processIndex =>
        if (2147483647 <? processIndex)%Z then Err ErrIntergerOverflow
        else
          let key := mkActualLRPKey (Tags_lookup tags ProcessGuidTag) (i32 processIndex)
                       (Tags_lookup tags DomainTag) in
          match ActualLRPKey_Validate key with
          | [] => Ok key
          | fields => Err (ErrInvalidFields fields)
          end
    end.

(** The instance guid of the key; the cell id is the other half. *)
Definition ActualLRPInstanceKeyFromContainer (c : Container) (cellID : string) : result KeyError string :=
  if bool_decide (ctr_Tags c = None) then Err ErrContainerMissingTags
  else
    let guid := Tags_lookup (ctr_Tags c) InstanceGuidTag in
    match (if bool_decide (cellID = "") then ["cell_id"] else []) ++
          (if bool_decide (guid = "") then ["instance_guid"] else []) with
    | [] => Ok guid
    | fields => Err (ErrInvalidFields fields)
    end.

Definition LRPContainerGuid (processGuid instanceGuid : string) : string := instanceGuid.

(** ** Root file systems *)

Abbreviation StackPathMap := (gmap string string).

Definition PreloadedRootFSScheme : string := "preloaded".
Definition PreloadedOCIRootFSScheme : string := "preloaded+layer".

Section rootfs.
Context `{UrlParser}.

Definition PathForRootFS (m : StackPathMap) (rootFS : string) : result string string :=
  if bool_decide (rootFS = "") then Ok rootFS
  else match url_Parse rootFS with
       | None => Err "parse error"
       | Some u =>
           if bool_decide (url_Scheme u = PreloadedRootFSScheme) then
             match m !! url_Opaque u with
             | None => Err "preloaded rootfs path not found"
             | Some path => Ok path
             end
           else if bool_decide (url_Scheme u = PreloadedOCIRootFSScheme) then
             match m !! url_Opaque u with
             | None => Err "preloaded rootfs path not found"
             | Some path => Ok (url_Scheme u +:+ ":" +:+ path +:+ "?" +:+ url_RawQuery u)
             end
           else Ok rootFS
       end.

Definition rootFSProviders (preloaded : StackPathMap) (arbitrary : list string) : gmap string RootFSProvider :=
  let providers := foldl (fun m scheme => <[scheme := ArbitraryRootFSProvider]> m) ∅ arbitrary in
  let stacks := FixedSetRootFSProvider (dom preloaded) in
  <[PreloadedOCIRootFSScheme := stacks]> (<[PreloadedRootFSScheme := stacks]> providers).

(** The first stack, in the order in which the map is ranged, whose path it is. *)
Fixpoint stack_of_path (rootfsPath : string) (u : URL) (stacks : list (string * string)) : string :=
  match stacks with
  | [] => rootfsPath
  | (k, v) :: rest =>
      if bool_decide (rootfsPath = v) then PreloadedRootFSScheme +:+ ":" +:+ k
      else if bool_decide (url_Path u = v) then
        PreloadedOCIRootFSScheme +:+ ":" +:+ k +:+ "?" +:+ url_RawQuery u
      else stack_of_path rootfsPath u rest
  end.

Definition rootFSURLFromPath `{!MapRange string} (t : nat) (rootfsPath : string) (m : StackPathMap) : string :=
  match url_Parse rootfsPath with
  | None => rootfsPath
  | Some u => stack_of_path rootfsPath u (range_over t m)
  end.
End rootfs.

(** ** Allocating containers for LRPs and tasks *)

Section allocator.
Context `{UrlParser} `{!JsonStrings} {St : Type} (client : ExecClient St) (stackPathMap : StackPathMap).

Definition buildLRPTags (lrp : SchedulingLRP) (instanceGuid : string) : Tags :=
  let key := lrp_Key lrp in
  Some (<[VolumeDriversTag := json_Marshal (pc_VolumeDrivers (lrp_PC lrp))]>
       (<[PlacementTagsTag := json_Marshal (pc_PlacementTags (lrp_PC lrp))]>
       (<[InstanceGuidTag := instanceGuid]>
       (<[LifecycleTag := LRPLifecycle]>
       (<[ProcessIndexTag := strconv_Itoa (key_Index key)]>
       (<[ProcessGuidTag := key_ProcessGuid key]>
       (<[DomainTag := key_Domain key]> ∅))))))).

Definition buildTaskTags (task : SchedulingTask) : Tags :=
  Some (<[VolumeDriversTag := json_Marshal (pc_VolumeDrivers (task_PC task))]>
       (<[PlacementTagsTag := json_Marshal (pc_PlacementTags (task_PC task))]>
       (<[DomainTag := task_Domain task]>
       (<[LifecycleTag := TaskLifecycle]> ∅)))).

(** The LRPs translated so far: those that failed, the LRP of each guid and the
    requests. *)
Record Translated (A : Type) := mkTranslated {
  tr_failed : list A;
  tr_byGuid : gmap string A;
  tr_requests : list AllocationRequest }.
#[global] Arguments mkTranslated {A}.
#[global] Arguments tr_failed {A}.
#[global] Arguments tr_byGuid {A}.
#[global] Arguments tr_requests {A}.

Definition lrp_request (enableContainerProxy : bool) (proxyMemoryAllocation : Z) (instanceGuid : string)
    (lrp : SchedulingLRP) : AllocationRequest :=
  let memoryMB := r_MemoryMB (lrp_Res lrp) in
  let memoryMB := if (0 <? memoryMB)%Z && enableContainerProxy then i64 (memoryMB + proxyMemoryAllocation)
                  else memoryMB in
  mkAllocationRequest (LRPContainerGuid (key_ProcessGuid (lrp_Key lrp)) instanceGuid) true
    (mkEResource memoryMB (r_DiskMB (lrp_Res lrp)) (r_MaxPids (lrp_Res lrp)))
    (buildLRPTags lrp instanceGuid).

(** [guid] is the answer of the generator of instance guids. *)
Definition translate_lrp (enableContainerProxy : bool) (proxyMemoryAllocation : Z)
    (tr : Translated SchedulingLRP) (guid : result string string) (lrp : SchedulingLRP)
    : Translated SchedulingLRP :=
  match guid with
  | Err _ => mkTranslated (tr_failed tr ++ [lrp]) (tr_byGuid tr) (tr_requests tr)
  | Ok instanceGuid =>
      match PathForRootFS stackPathMap (pc_RootFs (lrp_PC lrp)) with
      | Err _ => mkTranslated (tr_failed tr ++ [lrp]) (tr_byGuid tr) (tr_requests tr)
      | Ok _ =>
          let req := lrp_request enableContainerProxy proxyMemoryAllocation instanceGuid lrp in
          mkTranslated (tr_failed tr) (<[req_Guid req := lrp]> (tr_byGuid tr)) (tr_requests tr ++ [req])
      end
  end.

(** [guids k] is the answer to the [k]-th call of the generator. *)
Definition translate_lrps (enableContainerProxy : bool) (proxyMemoryAllocation : Z)
    (guids : nat -> result string string) (lrps : list SchedulingLRP) : Translated SchedulingLRP :=
  foldl (fun tr kl => translate_lrp enableContainerProxy proxyMemoryAllocation tr (guids kl.1) kl.2)
    (mkTranslated [] ∅ []) (imap pair lrps).

(** The executor is only asked when there is something to ask for. *)
Definition allocate (s : St) (traceID : string) (requests : list AllocationRequest)
    : St * list AllocationFailure :=
  match requests with
  | [] => (s, [])
  | _ => ec_AllocateContainers client s traceID requests
  end.

Definition with_failures {A} (tr : Translated A) (failures : list AllocationFailure) : list A :=
  tr_failed tr ++ omap (fun f => tr_byGuid tr !! req_Guid (fail_Request f)) failures.

Definition BatchLRPAllocationRequest (s : St) (traceID : string) (enableContainerProxy : bool)
    (proxyMemoryAllocation : Z) (guids : nat -> result string string) (lrps : list SchedulingLRP)
    : St * list SchedulingLRP :=
  let tr := translate_lrps enableContainerProxy proxyMemoryAllocation guids lrps in
  let '(s, failures) := allocate s traceID (tr_requests tr) in
  (s, with_failures tr failures).

Definition task_request (task : SchedulingTask) : AllocationRequest :=
  mkAllocationRequest (task_TaskGuid task) false
    (mkEResource (r_MemoryMB (task_Res task)) (r_DiskMB (task_Res task)) (r_MaxPids (task_Res task)))
    (buildTaskTags task).

Definition translate_task (tr : Translated SchedulingTask) (task : SchedulingTask) : Translated SchedulingTask :=
  let byGuid := <[task_TaskGuid task := task]> (tr_byGuid tr) in
  match PathForRootFS stackPathMap (pc_RootFs (task_PC task)) with
  | Err _ => mkTranslated (tr_failed tr ++ [task]) byGuid (tr_requests tr)
  | Ok _ => mkTranslated (tr_failed tr) byGuid (tr_requests tr ++ [task_request task])
  end.

Definition BatchTaskAllocationRequest (s : St) (traceID : string) (tasks : list SchedulingTask)
    : St * list SchedulingTask :=
  let tr := foldl translate_task (mkTranslated [] ∅ []) tasks in
  let '(s, failures) := allocate s traceID (tr_requests tr) in
  (s, with_failures tr failures).
End allocator.

(** ** The rep *)

Record AuctionCellRep := mkAuctionCellRep {
  acr_cellID : string;
  acr_cellIndex : Z;
  acr_repURL : string;
  acr_stackPathMap : StackPathMap;
  acr_rootFSProviders : gmap string RootFSProvider;
  acr_zone : string;
  acr_placementTags : list string;
  acr_optionalPlacementTags : list string;
  acr_enableContainerProxy : bool;
  acr_proxyMemoryAllocation : Z }.   (* int *)

Definition NewAuctionCellRep (cellID : string) (cellIndex : Z) (repURL : string)
    (preloadedStackPathMap : StackPathMap) (arbitraryRootFSes : list string) (zone : string)
    (placementTags optionalPlacementTags : list string) (proxyMemoryAllocation : Z)
    (enableContainerProxy : bool) : AuctionCellRep :=
  mkAuctionCellRep cellID cellIndex repURL preloadedStackPathMap
    (rootFSProviders preloadedStackPathMap arbitraryRootFSes) zone placementTags optionalPlacementTags
    enableContainerProxy proxyMemoryAllocation.

Definition containerIsStarting (c : Container) : bool :=
  match ctr_State c with StateReserved | StateInitializing | StateCreated => true | _ => false end.

Definition convertResources (r : ExecutorResources) : Resources :=
  mkResources (i32 (ex_MemoryMB r)) (i32 (ex_DiskMB r)) (ex_Containers r).

Section rep.
Context `{UrlParser} `{!JsonStrings} `{!MapRange string} {St : Type} (client : ExecClient St).
Context (a : AuctionCellRep).

Definition lrp_state (c : Container) : string :=
  match ctr_State c with
  | StateRunning => "RUNNING"
  | StateCompleted => if rr_Failed (ctr_RunResult c) then "CRASHED" else "SHUTDOWN"
  | _ => "CLAIMED"
  end.

(** What is reported of a container: an LRP, a task, or nothing. *)
Definition report (t : nat) (c : Container) : option (SchedulingLRP + SchedulingTask) :=
  match ctr_Tags c with
  | None => None
  | Some _ =>
      let placementTags := (json_Unmarshal (Tags_lookup (ctr_Tags c) PlacementTagsTag)).1 in
      let volumeDrivers := (json_Unmarshal (Tags_lookup (ctr_Tags c) VolumeDriversTag)).1 in
      let resource := mkResource (i32 (er_MemoryMB (ctr_Resource c))) (i32 (er_DiskMB (ctr_Resource c)))
                        (i32 (er_MaxPids (ctr_Resource c))) in
      let pc := mkPC placementTags volumeDrivers
                  (rootFSURLFromPath t (ri_RootFSPath (ctr_RunInfo c)) (acr_stackPathMap a)) in
      let lifecycle := Tags_lookup (ctr_Tags c) LifecycleTag in
      if bool_decide (lifecycle = LRPLifecycle) then
        match ActualLRPKeyFromTags (ctr_Tags c), ActualLRPInstanceKeyFromContainer c (acr_cellID a) with
        | Ok key, Ok instanceGuid =>
            let lrp := NewSchedulingLRP instanceGuid key resource pc in
            Some (inl (mkSchedulingLRP (lrp_InstanceGUID lrp) (lrp_Key lrp) (lrp_PC lrp) (lrp_Res lrp)
                         (lrp_state c)))
        | _, _ => None
        end
      else if bool_decide (lifecycle = TaskLifecycle) then
        let task := NewSchedulingTask (ctr_Guid c) (Tags_lookup (ctr_Tags c) DomainTag) resource pc in
        let state := if bool_decide (ctr_State c = StateCompleted) then Task_Completed else Task_Running in
        Some (inr (mkSchedulingTask (task_TaskGuid task) (task_Domain task) (task_PC task) (task_Res task)
                     state (rr_Failed (ctr_RunResult c))))
      else None
  end.

Definition reported_lrp (t : nat) (c : Container) : option SchedulingLRP :=
  match report t c with Some (inl l) => Some l | _ => None end.
Definition reported_task (t : nat) (c : Container) : option SchedulingTask :=
  match report t c with Some (inr k) => Some k | _ => None end.

(** The state, and whether the cell is healthy; [evacuating] is the answer of
    the evacuation reporter. *)
Definition Rep_State (t : nat) (evacuating : bool) (s : St) : result string (CellState * bool) :=
  match ec_ListContainers client s, ec_TotalResources client s, ec_RemainingResources client s,
        ec_VolumeDrivers client s with
  | Ok containers, Ok totalResources, Ok availableResources, Ok volumeDrivers =>
      let state := mkCellState (acr_repURL a) (acr_cellID a) (acr_cellIndex a) (acr_rootFSProviders a)
        (convertResources availableResources) (convertResources totalResources)
        (omap (reported_lrp t) containers) (omap (reported_task t) containers)
        (Z.of_nat (length (filter (fun c => containerIsStarting c = true) containers)))
        (acr_zone a) evacuating volumeDrivers (acr_placementTags a) (acr_optionalPlacementTags a)
        (if acr_enableContainerProxy a then acr_proxyMemoryAllocation a else 0%Z) in
      Ok (state, ec_Healthy client s)
  | Err e, _, _, _ | _, Err e, _, _ | _, _, Err e, _ | _, _, _, Err e => Err e
  end.

(** The metrics of the containers of LRPs and of tasks, from those the cell has
    collected: process guid, index, instance guid and metrics of an LRP, guid and
    metrics of a task. *)
Definition Rep_Metrics {M : Type} (metrics : gmap string M) (s : St)
    : result string (list (string * Z * string * M) * list (string * M)) :=
  match ec_ListContainers client s with
  | Err e => Err e
  | Ok containers =>
      Ok (omap (fun c =>
                  m ← metrics !! ctr_Guid c;
                  if bool_decide (ctr_Tags c <> None /\ Tags_lookup (ctr_Tags c) LifecycleTag = LRPLifecycle) then
                    match ActualLRPKeyFromTags (ctr_Tags c), ActualLRPInstanceKeyFromContainer c (acr_cellID a) with
                    | Ok key, Ok guid => Some (key_ProcessGuid key, key_Index key, guid, m)
                    | _, _ => None
                    end
                  else None) containers,
          omap (fun c =>
                  m ← metrics !! ctr_Guid c;
                  if bool_decide (ctr_Tags c <> None /\ Tags_lookup (ctr_Tags c) LifecycleTag = TaskLifecycle)
                  then Some (ctr_Guid c, m) else None) containers)
  end.

(** ** Performing work *)

Definition by_memory (x y : SchedulingLRP) : bool := (r_MemoryMB (lrp_Res y) <? r_MemoryMB (lrp_Res x))%Z.

Definition requiredMemory (lrp : SchedulingLRP) : Z :=
  if acr_enableContainerProxy a then i32 (r_MemoryMB (lrp_Res lrp) + i32 (acr_proxyMemoryAllocation a))
  else r_MemoryMB (lrp_Res lrp).

(** The LRPs that fit into the memory that remains, and those that do not. *)
Fixpoint fit_lrps (remainingMemory : Z) (lrps : list SchedulingLRP) : list SchedulingLRP * list SchedulingLRP :=
  match lrps with
  | [] => ([], [])
  | lrp :: rest =>
      if (requiredMemory lrp <=? remainingMemory)%Z then
        let '(requests, failed) := fit_lrps (i32 (remainingMemory - requiredMemory lrp)) rest in
        (lrp :: requests, failed)
      else
        let '(requests, failed) := fit_lrps remainingMemory rest in (requests, lrp :: failed)
  end.

Definition ErrCellIdMismatch : string := "workload cell ID does not match this cell".

(** The work that failed, with the error if there is one. *)
Definition Perform (guids : nat -> result string string) (evacuating : bool) (traceID : string) (s : St)
    (work : Work) : St * (Work * option string) :=
  if bool_decide (work_CellID work <> "" /\ work_CellID work <> acr_cellID a) then (s, (work, Some ErrCellIdMismatch))
  else
    match ec_RemainingResources client s with
    | Err e => (s, (work, Some e))
    | Ok remainingResources =>
        let lrps := stable_sort by_memory (work_LRPs work) in
        let '(lrpRequests, failed) := fit_lrps (i32 (ex_MemoryMB remainingResources)) lrps in
        if evacuating then (s, (mkWork lrps (work_Tasks work) (work_CellID work), None))
        else
          let '(s, unallocatedLRPs) :=
            BatchLRPAllocationRequest client (acr_stackPathMap a) s traceID (acr_enableContainerProxy a)
              (acr_proxyMemoryAllocation a) guids lrpRequests in
          let '(s, unallocatedTasks) :=
            BatchTaskAllocationRequest client (acr_stackPathMap a) s traceID (work_Tasks work) in
          (s, (mkWork (failed ++ unallocatedLRPs) unallocatedTasks "", None))
    end.
End rep.

(** The rep over HTTP, as the auctioneer's client of it: [client.State] and
    [client.Perform] of [rep/client.go] with the handlers that serve them. *)
Definition rep_client `{UrlParser} `{!JsonStrings} `{!MapRange string} {St : Type} (client : ExecClient St)
    (a : AuctionCellRep) (guids : nat -> result string string) (evacuating : bool) (traceID : string) (s : St)
    : RepClient :=
  mkRepClient
    (fun t => match Rep_State client a t evacuating s with
              | Ok (state, true) => Ok state
              | Ok (_, false) => Err "unexpected status code: 503"
              | Err _ => Err "unexpected status code: 500"
              end)
    (fun work => match (Perform client a guids evacuating traceID s work).2 with
                 | (failedWork, None) => Ok failedWork
                 | (_, Some _) => Err "unexpected status code: 500"
                 end).

(** * Properties *)

(** ** Failed work is work that was sent *)

(** The items of the requests, by the guids they were made under. *)
Definition items {A} (tr : Translated A) (requests : list AllocationRequest) : list A :=
  omap (fun r => tr_byGuid tr !! req_Guid r) requests.

Lemma omap_fmap_compose {A B C} (f : B -> option C) (g : A -> B) (l : list A) : omap f (g <$> l) = omap (f ∘ g) l.
Proof. induction l as [|x l IH]; csimpl; [done|]. by rewrite IH. Qed.

Lemma omap_sublist {A B} (f : A -> option B) (l k : list A) : l `sublist_of` k -> omap f l `sublist_of` omap f k.
Proof. induction 1; csimpl; [done| |]; case_match; by try constructor. Qed.

Lemma with_failures_submseteq {A} (tr : Translated A) failures :
  (fail_Request <$> failures) `sublist_of` tr_requests tr ->
  with_failures tr failures ⊆+ tr_failed tr ++ items tr (tr_requests tr).
Proof.
  intros Hs. apply submseteq_app; [done|]. unfold items. apply sublist_submseteq.
  change (omap _ failures) with (omap ((fun r => tr_byGuid tr !! req_Guid r) ∘ fail_Request) failures).
  rewrite <-omap_fmap_compose. by apply omap_sublist.
Qed.

(** Every item so far has failed or has a request under its guid. *)
Record translated {A} (used : string -> Prop) (seen : list A) (tr : Translated A) : Prop := {
  tr_perm : tr_failed tr ++ items tr (tr_requests tr) ≡ₚ seen;
  tr_used : forall r, r ∈ tr_requests tr -> used (req_Guid r) }.

Lemma items_insert {A} (tr : Translated A) g x requests :
  (forall r, r ∈ requests -> req_Guid r <> g) ->
  omap (fun r => <[g := x]> (tr_byGuid tr) !! req_Guid r) requests = items tr requests.
Proof.
  intros Hne. apply omap_ext_elem. intros r Hr. rewrite lookup_insert_ne; [done|]. apply not_eq_sym. auto.
Qed.

Lemma translated_request {A} (used used' : string -> Prop) (seen : list A) tr x req :
  translated used seen tr -> ~ used (req_Guid req) -> (forall g, used g -> used' g) -> used' (req_Guid req) ->
  translated used' (seen ++ [x])
    (mkTranslated (tr_failed tr) (<[req_Guid req := x]> (tr_byGuid tr)) (tr_requests tr ++ [req])).
Proof.
  intros [Hp Hu] Hn Hsub Hu'. split; simpl.
  - unfold items. simpl. rewrite omap_app, items_insert by (intros r Hr E; rewrite <-E in Hn; auto). csimpl.
    rewrite lookup_insert_eq, app_assoc. by rewrite Hp.
  - intros r [Hr| ->%list_elem_of_singleton]%elem_of_app; auto.
Qed.

Lemma translated_failed {A} (used used' : string -> Prop) (seen : list A) tr x :
  translated used seen tr -> (forall g, used g -> used' g) ->
  translated used' (seen ++ [x]) (mkTranslated (tr_failed tr ++ [x]) (tr_byGuid tr) (tr_requests tr)).
Proof.
  intros [Hp Hu] Hsub. split; simpl; [|auto]. rewrite <-Hp. unfold items. simpl. solve_Permutation.
Qed.

Section contract.
Context `{UrlParser} `{!JsonStrings} `{!MapRange string} {St : Type} (client : ExecClient St).
Context `{!ExecContract client}.

(** The generator never gives out the same guid twice. *)
Definition distinct_guids (guids : nat -> result string string) : Prop :=
  forall i j g, guids i = Ok g -> guids j = Ok g -> i = j.

Lemma translate_lrps_translated m proxy mem guids lrps :
  distinct_guids guids ->
  translated (fun g => exists k, k < length lrps /\ guids k = Ok g) lrps (translate_lrps m proxy mem guids lrps).
Proof.
  intros Hd. unfold translate_lrps. induction lrps as [|lrp lrps IH] using rev_ind.
  { split; [done|]. intros r Hr. by apply elem_of_nil in Hr. }
  rewrite imap_app, foldl_app, length_app. csimpl.
  set (tr := foldl _ _ _) in *. unfold translate_lrp. rewrite Nat.add_0_r.
  assert (forall g, (exists k, k < length lrps /\ guids k = Ok g) ->
                    exists k, k < length lrps + 1 /\ guids k = Ok g) as Hsub.
  { intros g (k & Hk & Hg). exists k. split; [lia|done]. }
  destruct (guids (length lrps)) as [g|] eqn:Eg; [|by eapply translated_failed].
  destruct (PathForRootFS m _); [|by eapply translated_failed].
  eapply translated_request; [done| |done|].
  - intros (k & Hk & Hg). specialize (Hd _ _ _ Hg Eg). lia.
  - exists (length lrps). split; [lia|done].
Qed.

Lemma translate_tasks_translated m tasks :
  NoDup (task_TaskGuid <$> tasks) ->
  translated (fun g => g ∈ task_TaskGuid <$> tasks) tasks
    (foldl (translate_task m) (mkTranslated [] ∅ []) tasks).
Proof.
  induction tasks as [|task tasks IH] using rev_ind; intros Hnd.
  { split; [done|]. intros r Hr. by apply elem_of_nil in Hr. }
  rewrite fmap_app in Hnd. apply NoDup_app in Hnd as (Hnd & Hne & _). specialize (IH Hnd).
  rewrite foldl_app. csimpl. set (tr := foldl _ _ _) in *. unfold translate_task.
  assert (task_TaskGuid task ∉ task_TaskGuid <$> tasks) as Hfresh.
  { intros Hin. apply (Hne _ Hin). by left. }
  assert (forall g, g ∈ task_TaskGuid <$> tasks -> g ∈ task_TaskGuid <$> (tasks ++ [task])) as Hsub.
  { intros g Hg. rewrite fmap_app. apply elem_of_app. by left. }
  destruct (PathForRootFS m _).
  - eapply (translated_request _ _ tasks tr task (task_request task)); [done|done|done|]. rewrite fmap_app. apply elem_of_app. right. by left.
  - destruct IH as [Hp Hu]. split; simpl; [|auto]. unfold items. simpl.
    rewrite items_insert by (intros r Hr E; apply Hfresh; rewrite <-E; auto). rewrite <-Hp. solve_Permutation.
Qed.

Lemma allocate_sublist s traceID requests :
  (fail_Request <$> (allocate client s traceID requests).2) `sublist_of` requests.
Proof. destruct requests; [done|]. apply allocate_failures. Qed.

Lemma BatchLRP_submseteq m s traceID proxy mem guids lrps :
  distinct_guids guids -> (BatchLRPAllocationRequest client m s traceID proxy mem guids lrps).2 ⊆+ lrps.
Proof.
  intros Hd. unfold BatchLRPAllocationRequest.
  destruct (translate_lrps_translated m proxy mem guids lrps Hd) as [Hp _].
  set (tr := translate_lrps _ _ _ _ _) in *. pose proof (allocate_sublist s traceID (tr_requests tr)) as Hs.
  destruct (allocate client s traceID (tr_requests tr)) as [s' failures]. simpl in *.
  rewrite <-Hp. by apply with_failures_submseteq.
Qed.

Lemma BatchTask_submseteq m s traceID tasks :
  NoDup (task_TaskGuid <$> tasks) -> (BatchTaskAllocationRequest client m s traceID tasks).2 ⊆+ tasks.
Proof.
  intros Hnd. unfold BatchTaskAllocationRequest.
  destruct (translate_tasks_translated m tasks Hnd) as [Hp _].
  set (tr := foldl _ _ _) in *. pose proof (allocate_sublist s traceID (tr_requests tr)) as Hs.
  destruct (allocate client s traceID (tr_requests tr)) as [s' failures]. simpl in *.
  rewrite <-Hp. by apply with_failures_submseteq.
Qed.

Lemma fit_lrps_perm a rem lrps : (fit_lrps a rem lrps).1 ++ (fit_lrps a rem lrps).2 ≡ₚ lrps.
Proof.
  revert rem. induction lrps as [|lrp lrps IH]; intros rem; simpl; [done|]. case_match.
  - specialize (IH (i32 (rem - requiredMemory a lrp))). destruct (fit_lrps a _ lrps). simpl in *. by rewrite IH.
  - specialize (IH rem). destruct (fit_lrps a _ lrps). simpl in *. rewrite <-IH. solve_Permutation.
Qed.

Lemma rep_contract a guids evacuating traceID s :
  distinct_guids guids -> RepContract (rep_client client a guids evacuating traceID s).
Proof.
  intros Hd. unfold rep_client.
  assert (forall w f, (Perform client a guids evacuating traceID s w).2 = (f, None) ->
            work_LRPs f ⊆+ work_LRPs w /\
            (NoDup (task_TaskGuid <$> work_Tasks w) -> work_Tasks f ⊆+ work_Tasks w)) as HP.
  { intros w f. unfold Perform. case_bool_decide; [done|].
    destruct (ec_RemainingResources client s) as [rem|]; [|done].
    set (lrps := stable_sort by_memory (work_LRPs w)).
    assert (lrps ≡ₚ work_LRPs w) as Hl by apply stable_sort_perm.
    pose proof (fit_lrps_perm a (i32 (ex_MemoryMB rem)) lrps) as Hf.
    destruct (fit_lrps a (i32 (ex_MemoryMB rem)) lrps) as [requests failed]. destruct evacuating.
    { intros [= <-]. simpl. by rewrite Hl. }
    pose proof (BatchLRP_submseteq (acr_stackPathMap a) s traceID (acr_enableContainerProxy a)
                  (acr_proxyMemoryAllocation a) guids requests Hd) as HL.
    destruct (BatchLRPAllocationRequest _ _ _ _ _ _ _ _) as [s1 us].
    pose proof (BatchTask_submseteq (acr_stackPathMap a) s1 traceID (work_Tasks w)) as HT.
    destruct (BatchTaskAllocationRequest _ _ _ _ _) as [s2 ut]. intros [= <-]. simpl in *.
    split; [|done]. rewrite <-Hl, <-Hf, (Permutation_app_comm requests). by apply submseteq_app. }
  split; intros w f; simpl; destruct (Perform _ _ _ _ _ _ _) as [s' [f' [e|]]] eqn:E; simpl; try done;
    intros [= <-]; destruct (HP w f') as [H1 H2]; by rewrite ?E.
Qed.

(** C19: A rep keeps the contract on which the auctioneer relies: whatever work it
    is sent and whatever the executor answers, the LRPs it hands back as failed
    are LRPs it was sent, each at most as often as it was sent, and so are the
    tasks when their guids are distinct.  The generator of instance guids must
    not repeat itself. *)
Theorem rep_keeps_contract a guids evacuating traceID s :
  distinct_guids guids -> RepContract (rep_client client a guids evacuating traceID s).
Proof. apply rep_contract. Qed.
End contract.

(** ** The cell resolves the root file systems it advertises *)

(** An LRP or task that the auctioneer matches to a cell by the root file
    systems the cell reports is never turned away by that cell for its root file
    system: the path resolves. *)
Theorem matched_rootfs_resolves `{UrlParser} m arbitrary state rootfs :
  cs_RootFSProviders state = rootFSProviders m arbitrary ->
  CellState_MatchRootFS state rootfs = true -> exists path, PathForRootFS m rootfs = Ok path.
Proof.
  unfold CellState_MatchRootFS, RootFSProviders_Match, PathForRootFS. intros ->.
  case_bool_decide as He; [by eauto|]. destruct (url_Parse rootfs) as [u|]; [|done].
  unfold rootFSProviders. case_bool_decide as H1.
  - rewrite H1, lookup_insert_ne, lookup_insert_eq by done. simpl. rewrite bool_decide_eq_true.
    intros Hin%elem_of_dom. destruct Hin as [path ->]. by eauto.
  - case_bool_decide as H2; [|by eauto]. rewrite H2, lookup_insert_eq. simpl. rewrite bool_decide_eq_true.
    intros Hin%elem_of_dom. destruct Hin as [path ->]. by eauto.
Qed.

(** ** Memory *)

Section memory.
Context (a : AuctionCellRep).

(** Memory sizes as they occur: not negative and far from overflowing. *)
Definition memory_ok (lrp : SchedulingLRP) : Prop :=
  (0 <= r_MemoryMB (lrp_Res lrp) /\ in_i32 (acr_proxyMemoryAllocation a) /\ 0 <= acr_proxyMemoryAllocation a /\
   in_i32 (r_MemoryMB (lrp_Res lrp) + acr_proxyMemoryAllocation a))%Z.

Lemma requiredMemory_nonneg lrp : memory_ok lrp -> (0 <= requiredMemory a lrp)%Z.
Proof.
  intros (? & Hp & ? & Hs). unfold requiredMemory. destruct (acr_enableContainerProxy a); [|done].
  rewrite (i32_id _ Hp), (i32_id _ Hs). lia.
Qed.

(** What fits adds up to no more than remains, and what was turned away does
    not fit into the rest. *)
Lemma fit_lrps_spec lrps rem :
  Forall memory_ok lrps -> (0 <= rem)%Z -> in_i32 rem ->
  let fit := fit_lrps a rem lrps in
  (sumZ (requiredMemory a) fit.1 <= rem)%Z /\
  forall lrp, lrp ∈ fit.2 -> (rem - sumZ (requiredMemory a) fit.1 < requiredMemory a lrp)%Z.
Proof.
  revert rem. induction lrps as [|lrp lrps IH]; intros rem Hok Hrem Hi; simpl.
  { split; [lia|]. intros lrp Hin. by apply elem_of_nil in Hin. }
  apply Forall_cons in Hok as [Hl Hok]. pose proof (requiredMemory_nonneg lrp Hl) as Hnn.
  destruct (Z.leb_spec (requiredMemory a lrp) rem) as [Hle|Hgt].
  - rewrite i32_id by (unfold in_i32 in *; lia).
    destruct (IH (rem - requiredMemory a lrp)%Z) as [H1 H2]; [done|lia|unfold in_i32 in *; lia|].
    destruct (fit_lrps a _ lrps) as [fit failed]. simpl in *. split; [lia|].
    intros l Hin. specialize (H2 l Hin). lia.
  - destruct (IH rem Hok Hrem Hi) as [H1 H2]. destruct (fit_lrps a rem lrps) as [fit failed] eqn:Ef. simpl in *.
    split; [done|]. assert (0 <= sumZ (requiredMemory a) fit)%Z.
    { apply sumZ_nonneg. intros x Hx. apply requiredMemory_nonneg. rewrite Forall_forall in Hok. apply Hok.
      pose proof (fit_lrps_perm a rem lrps) as Hp. rewrite Ef in Hp. rewrite <-Hp. apply elem_of_app. by left. }
    intros l [->|Hin]%elem_of_cons; [lia|auto].
Qed.
End memory.

(** ** What is reported is what was requested *)

Section reporting.
Context `{UrlParser} `{!JsonStrings} `{!MapRange string} (a : AuctionCellRep).

Definition pc_ascii (pc : PlacementConstraint) : Prop :=
  Forall (fun s => ascii_string s = true) (pc_PlacementTags pc) /\
  Forall (fun s => ascii_string s = true) (pc_VolumeDrivers pc).

Definition key_ok (key : ActualLRPKey) : Prop :=
  key_ProcessGuid key <> "" /\ key_Domain key <> "" /\ (0 <= key_Index key <= 2147483647)%Z.

(** The tags of an LRP, one by one. *)
Lemma buildLRPTags_lookup lrp guid :
  let tags := buildLRPTags lrp guid in
  Tags_lookup tags LifecycleTag = LRPLifecycle /\
  Tags_lookup tags DomainTag = key_Domain (lrp_Key lrp) /\
  Tags_lookup tags ProcessGuidTag = key_ProcessGuid (lrp_Key lrp) /\
  Tags_lookup tags ProcessIndexTag = strconv_Itoa (key_Index (lrp_Key lrp)) /\
  Tags_lookup tags InstanceGuidTag = guid /\
  Tags_lookup tags PlacementTagsTag = json_Marshal (pc_PlacementTags (lrp_PC lrp)) /\
  Tags_lookup tags VolumeDriversTag = json_Marshal (pc_VolumeDrivers (lrp_PC lrp)).
Proof.
  unfold Tags_lookup, buildLRPTags. simpl.
  split_and!; by repeat first [rewrite lookup_insert_eq | rewrite lookup_insert_ne by done].
Qed.

Lemma buildLRPTags_key lrp guid :
  key_ok (lrp_Key lrp) -> ActualLRPKeyFromTags (buildLRPTags lrp guid) = Ok (lrp_Key lrp).
Proof.
  intros (Hp & Hd & Hi). destruct (buildLRPTags_lookup lrp guid) as (_ & E1 & E2 & E3 & _).
  unfold ActualLRPKeyFromTags. rewrite bool_decide_false by done. rewrite E1, E2, E3.
  rewrite Atoi_Itoa by (unfold in_i64; lia). destruct (Z.ltb_spec 2147483647 (key_Index (lrp_Key lrp))); [lia|].
  rewrite i32_id by (unfold in_i32; lia). unfold ActualLRPKey_Validate. simpl.
  rewrite !bool_decide_false by done. destruct (Z.ltb_spec (key_Index (lrp_Key lrp)) 0); [lia|].
  by destruct (lrp_Key lrp).
Qed.

(** The round trip of an LRP through a cell.  A container that was allocated
    for an LRP is reported back to the auctioneer as that very LRP, with the key
    it was desired under, the instance guid, the placement tags and the volume
    drivers it was sent with, for as long as the container carries the tags it
    was allocated with.  Placement tags and volume drivers are ASCII, the index
    is a valid one. *)
Theorem lrp_reported_as_requested t c lrp guid :
  ctr_Tags c = buildLRPTags lrp guid -> key_ok (lrp_Key lrp) -> pc_ascii (lrp_PC lrp) ->
  guid <> "" -> acr_cellID a <> "" ->
  exists l, reported_lrp a t c = Some l /\ reported_task a t c = None /\
    lrp_Key l = lrp_Key lrp /\ lrp_InstanceGUID l = guid /\
    pc_PlacementTags (lrp_PC l) = pc_PlacementTags (lrp_PC lrp) /\
    pc_VolumeDrivers (lrp_PC l) = pc_VolumeDrivers (lrp_PC lrp) /\
    lrp_State l = lrp_state c.
Proof.
  intros Ht Hk [Hpt Hvd] Hg Hid. destruct (buildLRPTags_lookup lrp guid) as (E0 & _ & _ & _ & E4 & E5 & E6).
  unfold reported_lrp, reported_task, report, ActualLRPInstanceKeyFromContainer. rewrite !Ht.
  rewrite E0, E4, E5, E6, buildLRPTags_key, !json_roundtrip by done.
  change (buildLRPTags lrp guid) with (Some (default ∅ (buildLRPTags lrp guid))). simpl.
  rewrite !bool_decide_false by done. simpl. eexists. split; [done|]. done.
Qed.

(** The index of a container is taken modulo 2^32 when it is very negative:
    the tag with index -4294967295 is accepted as index 1, though the code means
    to reject what does not fit. *)
Example negative_index_wraps :
  ActualLRPKeyFromTags (Some (<[ProcessGuidTag := "process"]> (<[DomainTag := "domain"]>
    {[ProcessIndexTag := "-4294967295"]}))) = Ok (mkActualLRPKey "process" 1 "domain").
Proof. vm_compute. reflexivity. Qed.
End reporting.
