(* ===== verification/RepDepot.v ===== *)
(** * The rep on top of the executor

    The executor of [Depot] is a client of the kind the rep of [CellRep] relies
    on, and the two agree about memory. *)
From Stdlib Require Import ZArith Lia.
From S2P Require Import Prelude Float64 Models AuctionTypes Cell Zones Scheduler Placement ScheduleProps GoStd Executor Ports StoreNode ContainerStore ContainerLifecycle NodeLocks Depot CellRep.

(** [t] is the order in which the store's map is ranged, [clock] the time of the
    reservations. *)
Definition depot_client `{!MapRange string} (total : ExecutorResources) (diskPath : string) (liveMB : option Z)
    (drivers : list string) (healthy : bool) (t : nat) (clock : nat -> Z) : ExecClient containerStore :=
  mkExecClient containerStore
    (fun s => Ok (store_List t s))
    (fun _ => Ok total)
    (fun s => Ok (RemainingResources diskPath liveMB s))
    (fun _ => Ok drivers)
    (fun _ => healthy)
    (fun s traceID requests => AllocateContainers traceID clock s requests).

Lemma AllocateContainers_sublist traceID requests clock s :
  (fail_Request <$> (AllocateContainers traceID clock s requests).2) `sublist_of` requests.
Proof.
  revert clock s. induction requests as [|req rest IH]; intros clock s; [done|]. cbn [AllocateContainers].
  assert (forall e s1, (fail_Request <$> (let '(s', failures) := AllocateContainers traceID (clock ∘ S) s1 rest in
    (s', mkAllocationFailure req (ExecError_Error e) :: failures)).2) `sublist_of` req :: rest) as Hf.
  { intros e s1. specialize (IH (clock ∘ S) s1). destruct (AllocateContainers _ _ _ _). csimpl. by constructor. }
  destruct (AllocationRequest_Validate req); [apply Hf|].
  destruct (store_Reserve s traceID (clock 0) req) as [s1 [c|e]]; [|apply Hf]. constructor. apply IH.
Qed.

#[export] Instance depot_contract `{!MapRange string} total diskPath liveMB drivers healthy t clock :
  ExecContract (depot_client total diskPath liveMB drivers healthy t clock).
Proof. intros s traceID requests. apply AllocateContainers_sublist. Qed.

(** ** Memory *)

Section memory.
Context `{UrlParser} `{!JsonStrings} (a : AuctionCellRep) (guids : nat -> result string string).
#[local] Abbreviation requests_for lrps :=
  (tr_requests (translate_lrps (acr_stackPathMap a) (acr_enableContainerProxy a)
                  (acr_proxyMemoryAllocation a) guids lrps)).

Lemma lrp_request_memory guid lrp :
  memory_ok a lrp ->
  (0 <= er_MemoryMB (req_Resource (lrp_request (acr_enableContainerProxy a) (acr_proxyMemoryAllocation a) guid lrp))
     <= requiredMemory a lrp)%Z.
Proof.
  intros (Hm & Hp & Hp0 & Hs). unfold requiredMemory, lrp_request. simpl.
  rewrite (i32_id _ Hp), (i32_id _ Hs).
  destruct (acr_enableContainerProxy a), (Z.ltb_spec 0 (r_MemoryMB (lrp_Res lrp))); simpl;
    rewrite ?i64_id by (unfold in_i32, in_i64 in *; lia); lia.
Qed.

(** The requests that are made of a list of LRPs. *)
Lemma requests_for_spec lrps :
  Forall (memory_ok a) lrps -> Forall (fun l => (0 <= r_DiskMB (lrp_Res l))%Z) lrps ->
  (sumZ (er_MemoryMB ∘ req_Resource) (requests_for lrps) <= sumZ (requiredMemory a) lrps)%Z /\
  Forall (er_ok ∘ req_Resource) (requests_for lrps).
Proof.
  unfold translate_lrps. induction lrps as [|lrp lrps IH] using rev_ind; [by split|].
  intros [Hm Hlm]%Forall_app [Hd Hld]%Forall_app. apply Forall_cons in Hlm as [Hlm _], Hld as [Hld _].
  destruct (IH Hm Hd) as [IH1 IH2]. rewrite imap_app, foldl_app, sumZ_app. csimpl.
  set (tr := foldl _ _ _) in *. unfold translate_lrp.
  pose proof (requiredMemory_nonneg a lrp Hlm) as Hnn.
  destruct (guids _) as [g|]; [|simpl; split; [lia|done]].
  destruct (PathForRootFS _ _); [|simpl; split; [lia|done]].
  pose proof (lrp_request_memory g lrp Hlm) as Hr. cbn [tr_requests].
  split; [rewrite sumZ_app; simpl in *; lia|]. apply Forall_app. split; [done|]. constructor; [|done].
  split; [apply Hr|done].
Qed.

(** The rep and the executor agree about memory.  When the LRPs that passed
    the rep's own memory check are allocated, none of them is refused for want of
    memory, proxy included: a failed one has an empty guid or one that is taken,
    or wants more disk than remains, or there is no container left. *)
Theorem lrps_never_lack_memory s traceID clock lrps :
  ex_ok (store_RemainingResources s) -> in_i32 (ex_MemoryMB (store_RemainingResources s)) ->
  Forall (memory_ok a) lrps -> Forall (fun l => (0 <= r_DiskMB (lrp_Res l))%Z) lrps ->
  let fit := (fit_lrps a (i32 (ex_MemoryMB (store_RemainingResources s))) lrps).1 in
  let '(s', failures) := AllocateContainers traceID clock s (requests_for fit) in
  forall req, req ∈ fail_Request <$> failures ->
    req_Guid req = "" \/ is_Some (nm_nodes (st_map s') !! req_Guid req) \/
    (ex_DiskMB (store_RemainingResources s') < er_DiskMB (req_Resource req))%Z \/
    (ex_Containers (store_RemainingResources s') <= 0)%Z.
Proof.
  intros Hok Hi Hm Hd. set (rem := ex_MemoryMB (store_RemainingResources s)). rewrite (i32_id rem) by done.
  pose proof (fit_lrps_perm a rem lrps) as Hp.
  destruct (fit_lrps_spec a lrps rem Hm) as [Hsum _]; [apply Hok|done|].
  set (fit := (fit_lrps a rem lrps).1) in *. intros fit0. subst fit0.
  assert (forall P, Forall P lrps -> Forall P fit) as Hsub.
  { intros P HP. rewrite <-Hp in HP. by apply Forall_app in HP as [? _]. }
  destruct (requests_for_spec fit) as [Hmem Her]; [auto..|].
  pose proof (AllocateContainers_answers traceID (requests_for fit) clock s Hok Her) as (_ & granted & _ & Hperm & Ha).
  destruct (AllocateContainers traceID clock s (requests_for fit)) as [s' failures]. simpl in *.
  intros req Hin. destruct (al_failed _ _ _ _ Ha req Hin) as [?|[?|Hc]]; [auto..|]. do 2 right.
  assert (er_MemoryMB (req_Resource req) <= ex_MemoryMB (store_RemainingResources s'))%Z as Hfits.
  { rewrite (al_memory _ _ _ _ Ha). fold rem. rewrite (sumZ_perm _ _ _ Hperm), sumZ_app in Hmem.
    rewrite Hperm in Her. apply Forall_app in Her as [_ Her].
    rewrite Forall_forall in Her.
    pose proof (sumZ_elem_le (er_MemoryMB ∘ req_Resource) _ req (fun y Hy => proj1 (Her y Hy)) Hin) as Hle.
    simpl in Hle. lia. }
  destruct (Z.ltb_spec (ex_DiskMB (store_RemainingResources s')) (er_DiskMB (req_Resource req))); [by left|right].
  destruct (Z.leb_spec (ex_Containers (store_RemainingResources s')) 0); [done|].
  assert (canSubtract (store_RemainingResources s') (req_Resource req) = true); [|congruence].
  apply canSubtract_spec. lia.
Qed.
End memory.

(** ** A cluster of such cells *)

(** The cell's client is a rep on top of an executor. *)
Definition runs_rep `{UrlParser} `{!JsonStrings} `{!MapRange string} (c : Cell) : Prop :=
  exists total diskPath liveMB drivers healthy t clock a guids evacuating traceID s,
    distinct_guids guids /\
    cell_client c = rep_client (depot_client total diskPath liveMB drivers healthy t clock)
                      a guids evacuating traceID s.

Section cluster.
Context `{UrlParser} `{!JsonStrings} `{!MapRange string} `{!GoSort lrpByZone_Less}.
Context `{!GoSort SortableLRPAuctions_Less} `{!GoSort SortableTaskAuctions_Less} `{!WorkOrder}.

(** C4: The parts together: when every cell of the cluster runs the rep and the
    executor modelled here, scheduling returns, and every requested LRP and task
    is accounted for exactly once, as successful or as failed, with nothing
    assumed about what the cells answer. *)
Theorem cluster_conserves_work cfg now zs req :
  wf_zones zs -> (forall c, c ∈ zone_cells zs -> runs_rep c) -> unreserved zs ->
  NoDup (la_id <$> req_LRPs req) -> NoDup (ta_id <$> req_Tasks req) ->
  exists res, Schedule cfg now zs req = Some res /\
    SchedulingLRP_Copy ∘ la_LRP <$> (res_SuccessfulLRPs res ++ res_FailedLRPs res)
      ≡ₚ SchedulingLRP_Copy ∘ la_LRP <$> req_LRPs req /\
    ta_Task <$> (res_SuccessfulTasks res ++ res_FailedTasks res) ≡ₚ ta_Task <$> req_Tasks req.
Proof.
  intros Hwf Hreps. apply Schedule_balanced. split; [done|]. intros c Hc.
  destruct (Hreps c Hc) as (? & ? & ? & ? & ? & ? & ? & ? & ? & ? & ? & ? & Hd & ->).
  apply rep_contract; [apply depot_contract|exact Hd].
Qed.
End cluster.
