(* ===== verification/ExecutorExamples.v ===== *)
(** * Concrete runs of a cell's container store

    A store with one container, taken through the runs that show that the
    theorems about the store apply and what its goroutines can do to each
    other. *)
From Stdlib Require Import ZArith Lia.
From S2P Require Import Prelude NetIP Actions Egress Executor Ports StoreNode ContainerStore ContainerLifecycle NodeLocks.

Definition ex_cfg : ContainerConfig :=
  mkContainerConfig "executor" 200000 1024 true 60 "" "/var/vcap/healthcheck" false false false.

Definition ex_total : ExecutorResources := mkExecutorResources 1024 2048 10.

Definition ex_request : AllocationRequest :=
  mkAllocationRequest "g" false (mkEResource 256 512 0) (Some ∅).

Definition ex_runinfo (proxy : bool) (ports : list PortMapping) : RunInfo :=
  mkRunInfo "/rootfs" 50 ports [] (mkLogConfig "app" 0 "CELL" None) None false [] [] "" [] None "" "" proxy [] zeroRunWork.

Definition ex_run : RunRequest := mkRunRequest "g" (ex_runinfo false []) (Some ∅).

Definition ex_info : ContainerInfo := mkContainerInfo "10.0.0.1" "10.255.0.2" "" [].

(** Everything outside the store succeeds, up to the given answer of garden. *)
Definition ex_env (garden : ContainerSpec -> option ExecError) (info : ContainerInfo) : CreateEnv :=
  mkCreateEnv (mkBindMounts [mkBindMountCacheKey "key" "dir"] [], None) (fun _ _ _ _ => Ok "/mnt") (Ok ([], [])) (Ok [])
    ProxyPorts (fun _ => 0%Z) (fun _ => Ok "{}") garden (Ok info).

#[local] Instance ex_range : MapRange string := canonical_range string.
#[local] Abbreviation step := (store_step ex_cfg true).

(** ** Scripts

    An executable choice of steps: each command takes one step of the store. *)
Inductive Command :=
| Reserve (now : Z) | Initialize | Create | RunIt | Destroy | UpdateRoutes | Reap
| Ready (r : NodeRef) | Thread_ (i : nat).

Definition ex_routes : UpdateRequest := mkUpdateRequest "g" (Some [mkInternalRoute "a.apps.internal"]) None.

Definition thread_of (s : containerStore) (i : nat) (ts : list Thread) (t : Thread) : option containerStore :=
  match t with
  | DestroyWaiting guid r traceID =>
      n ← st_heap s !! r;
      if n_opLock n then None
      else let '(n', out) := node_stop n traceID in
           Some (set_threads (put_node s r (set_opLock n' true) out) (DestroyLocked guid r :: ts))
  | DestroyLocked guid r =>
      n ← st_heap s !! r;
      if process_gone n then
        match node_Destroy_finish n None true with
        | (None, out) => Some (set_threads (put_node s r (set_opLock (set_destroying n false) false) out)
                                 (DestroyRemoving guid :: ts))
        | (Some _, _) => None
        end
      else None
  | DestroyRemoving guid =>
      Some (mkStore (nodeMap_Remove (st_map s) (st_heap s) guid) (st_heap s) ts (st_out s))
  | UpdateSending r req json =>
      n ← st_heap s !! r;
      n' ← node_Update_send n req;
      Some (set_threads (put_node s r (set_opLock n' false) (node_Update_finish n json None req).2) ts)
  end.

Definition command (s : containerStore) (c : Command) : option containerStore :=
  match c with
  | Reserve now => Some (store_Reserve s "t" now ex_request).1
  | Initialize => fst <$> store_Initialize s ex_run
  | Create => fst <$> store_Create ex_cfg (ex_env (fun _ => None) ex_info) s "t" "g"
  | RunIt => fst <$> store_Run s "g" (Ok false)
  | Destroy => Some (store_Destroy s "t" "g").1
  | UpdateRoutes => fst <$> store_Update (fun _ => Ok "") s ex_routes
  | Reap => let r := nodeMap_CompleteMissing 0 (st_map s) (st_heap s) "t" (nodeMap_containerGuids (st_map s)) ∅ in
            Some (mkStore (st_map s) r.1 (st_threads s) (st_out s ++ r.2))
  | Ready r => n ← st_heap s !! r; res ← node_ready n "t"; Some (put_node s r res.1 res.2)
  | Thread_ i => t ← st_threads s !! i; thread_of s i (delete i (st_threads s)) t
  end.

Lemma thread_command s i s' : command s (Thread_ i) = Some s' -> thread_step s s'.
Proof.
  simpl. destruct (st_threads s !! i) as [t|] eqn:Et; [|done]. simpl. apply delete_Permutation in Et.
  destruct t as [guid r traceID|guid r|guid|r req json]; simpl.
  - destruct (st_heap s !! r) as [n|] eqn:En; [|done]. simpl. destruct (n_opLock n) eqn:El; [done|].
    destruct (node_stop n traceID) eqn:Es. intros [= <-]. by eapply destroy_lock.
  - destruct (st_heap s !! r) as [n|] eqn:En; [|done]. simpl. destruct (process_gone n) eqn:El; [|done].
    intros [= <-].
    by apply (destroy_done _ guid r n None true).
  - intros [= <-]. by apply destroy_remove.
  - destruct (st_heap s !! r) as [n|] eqn:En; [|done]. simpl.
    destruct (node_Update_send n req) as [n'|] eqn:Es; [|done]. simpl. intros [= <-].
    by eapply update_send.
Qed.

Lemma command_step s c s' : command s c = Some s' -> step s s'.
Proof.
  destruct c as [now| | | | | | |r|i]; simpl.
  - intros [= <-]. by apply store_call, call_reserve.
  - destruct (store_Initialize _ _) as [[]|] eqn:E; [|done]. intros [= <-]. by eapply store_call, call_initialize.
  - destruct (store_Create _ _ _ _ _) as [[]|] eqn:E; [|done]. intros [= <-]. by eapply store_call, call_create.
  - destruct (store_Run _ _ _) as [[]|] eqn:E; [|done]. intros [= <-]. by eapply store_call, call_run.
  - intros [= <-]. apply store_call, call_destroy.
  - destruct (store_Update _ _ _) as [[]|] eqn:E; [|done]. intros [= <-]. by eapply store_call, call_update.
  - intros [= <-]. apply store_call, call_reap.
  - destruct (st_heap s !! r) as [n|] eqn:En; [|done]. simpl. destruct (node_ready n "t") as [[]|] eqn:Er; [|done].
    intros [= <-]. by eapply store_process, step_ready.
  - intros H. by eapply store_thread, thread_command.
Qed.

Fixpoint script (s : containerStore) (cs : list Command) : option containerStore :=
  match cs with
  | [] => Some s
  | c :: cs => s' ← command s c; script s' cs
  end.

Lemma script_steps cs s s' : script s cs = Some s' -> rtc step s s'.
Proof.
  revert s. induction cs as [|c cs IH]; intros s; simpl; [by intros [= <-]|].
  destruct (command s c) as [s1|] eqn:E; [|done]. simpl. intros Hs.
  eapply rtc_l; [by apply command_step in E|]. by apply IH.
Qed.

(** The state a script leads to. *)
Definition after (cs : list Command) : containerStore := default (NewStore ex_total) (script (NewStore ex_total) cs).

Lemma after_steps cs : rtc step (NewStore ex_total) (after cs).
Proof. unfold after. destruct (script _ cs) eqn:E; simpl; [by eapply script_steps|done]. Qed.

(** The node of the first reservation, and what the script announced. *)
Definition node_after (cs : list Command) : option storeNode := st_heap (after cs) !! 0.

(** Two scripts in a row. *)
Lemma script_app cs1 cs2 s : script s (cs1 ++ cs2) = s' ← script s cs1; script s' cs2.
Proof.
  revert s. induction cs1 as [|c cs1 IH]; intros s; simpl; [done|]. destruct (command s c); simpl; [apply IH|done].
Qed.

Lemma after_app cs1 cs2 :
  script (NewStore ex_total) (cs1 ++ cs2) <> None -> rtc step (after cs1) (after (cs1 ++ cs2)).
Proof.
  intros Hne. destruct (script _ _) as [s'|] eqn:Hs; [|done]. unfold after. rewrite Hs. rewrite script_app in Hs.
  destruct (script _ cs1) as [s1|]; [|done]. exact (script_steps cs2 _ _ Hs).
Qed.

Definition thread_script (s : containerStore) (ks : list nat) : option containerStore := script s (Thread_ <$> ks).

Lemma thread_script_steps ks s s' : thread_script s ks = Some s' -> rtc thread_step s s'.
Proof.
  unfold thread_script. revert s. induction ks as [|i ks IH]; intros s; [by intros [= <-]|].
  change (script s (Thread_ <$> i :: ks)) with (s1 ← command s (Thread_ i); script s1 (Thread_ <$> ks)).
  destruct (command s (Thread_ i)) as [s1|] eqn:E; [|done]. cbn. intros Hs.
  eapply rtc_l; [by eapply thread_command|]. by apply IH.
Qed.

#[local] Opaque after thread_script.

(** ** Runs in which the goroutines get in each other's way *)

Definition destroyed_in_garden (s : containerStore) : bool :=
  existsb (fun o => match o with GardenDestroy _ => true | _ => false end) (st_out s).

Definition race_1 := [Reserve 1; Initialize; Create; Destroy; Destroy; Thread_ 0].
Definition race_2 := race_1 ++ [Reserve 2].

(** Two calls that destroy the same container undo each other's accounting.
    In this run the second call takes the container out of the map and gives its
    memory back while its garden container still exists and nothing has been
    asked of garden; a new container is then reserved under the same guid, and
    when the first call finishes, without any further call of a client, it takes
    the new one out of the map. *)
Example destroy_race :
  exists s1 s2 s3 n c,
    rtc step (NewStore ex_total) s1 /\
    store_RemainingResources s1 = ex_total /\ st_heap s1 !! 0 = Some n /\ n_gardenContainer n = true /\
    destroyed_in_garden s1 = false /\
    rtc step s1 s2 /\ store_Get s2 "g" = Ok c /\ ctr_State c = StateReserved /\ ctr_AllocatedAt c = 2%Z /\
    rtc thread_step s2 s3 /\ store_Get s3 "g" = Err ErrContainerNotFound.
Proof.
  exists (after race_1), (after race_2), (default (after race_2) (thread_script (after race_2) [0; 0; 0])).
  assert (n_gardenContainer <$> node_after race_1 = Some true) as Hn by by vm_compute.
  destruct (node_after race_1) as [n|] eqn:En; [|done].
  assert (match store_Get (after race_2) "g" with
          | Ok c => ctr_State c = StateReserved /\ ctr_AllocatedAt c = 2%Z | Err _ => False end) as Hc by by vm_compute.
  destruct (store_Get (after race_2) "g") as [c|] eqn:Ec; [|done]. exists n, c.
  split; [apply after_steps|]. split; [by vm_compute|]. split; [exact En|].
  split; [by injection Hn|]. split; [by vm_compute|].
  split; [apply after_app; by vm_compute|]. split; [reflexivity|].
  split; [apply Hc|]. split; [apply Hc|]. split; [|by vm_compute].
  destruct (thread_script (after race_2) [0; 0; 0]) as [s3|] eqn:E3; [|by vm_compute in E3].
  exact (thread_script_steps [0; 0; 0] _ _ E3).
Qed.

Definition reaped := [Reserve 1; Initialize; Create; RunIt; Reap].

(** A container that was completed because garden does not know it any more
    is announced as running afterwards, when its process was starting at the
    time. *)
Example reaped_container_runs_again :
  exists s1 s2 n1 n2,
    rtc step (NewStore ex_total) s1 /\ st_heap s1 !! 0 = Some n1 /\ ctr_State (n_info n1) = StateCompleted /\
    process_step true s1 s2 /\ st_heap s2 !! 0 = Some n2 /\ ctr_State (n_info n2) = StateRunning /\
    last (st_out s2) = Some (Emit (ContainerRunningEvent (n_info n2) "t")).
Proof.
  assert (ctr_State ∘ n_info <$> node_after reaped = Some StateCompleted) as Hst by by vm_compute.
  assert (n_process <$> node_after reaped = Some (Starting false)) as Hp by by vm_compute.
  destruct (node_after reaped) as [n1|] eqn:En; [|done]. injection Hp as Hp.
  destruct (node_ready n1 "t") as [[n2 out]|] eqn:Er; unfold node_ready in Er; rewrite Hp in Er; [|done].
  exists (after reaped), (put_node (after reaped) 0 n2 out), n1, n2.
  split; [apply after_steps|]. split; [exact En|]. split; [by injection Hst|].
  split; [eapply step_ready; [exact En|unfold node_ready; by rewrite Hp]|].
  split; [apply lookup_insert_eq|]. injection Er as <- <-. split; [done|]. simpl. by rewrite last_app.
Qed.

(** A node whose process has ended. *)
Definition ended (err : option ProcessError) : storeNode :=
  set_process (newStoreNode (NewReservedContainerFromAllocationRequest ex_request 1) false) (Exiting err).

Definition two_failures : ProcessError :=
  ErrorTrace [("runner", Some (PlainError "exited with status 1")); ("proxy", Some (PlainError "killed"))].

(** When two members of a container's process group fail, the container is
    announced complete twice, with different reasons, and keeps the one of the
    last member rather than that of the application. *)
Example exit_completes_twice :
  exists n' c1 c2,
    node_exited (ended (Some two_failures)) "t" =
      Some (n', [Emit (ContainerCompleteEvent c1 "t"); Emit (ContainerCompleteEvent c2 "t")]) /\
    rr_FailureReason (ctr_RunResult c1) = "exited with status 1" /\
    rr_FailureReason (ctr_RunResult c2) = "proxy exited: killed" /\ n_info n' = c2.
Proof. eexists _, _, _. split; [reflexivity|]. done. Qed.

(** ** Witnesses *)

Definition created_script := [Reserve 1; Initialize; Create].

Lemma store_resources_add_up_witness :
  let s := after created_script in
  ex_ok (store_RemainingResources s) /\
  (ex_MemoryMB (store_RemainingResources s) + sumZ er_MemoryMB (live_resources s) = 1024)%Z.
Proof.
  destruct (store_resources_add_up ex_cfg true ex_total (after created_script)) as (H1 & H2 & _).
  - by vm_compute.
  - apply after_steps.
  - split; [exact H1|exact H2].
Defined.

Lemma container_lifecycle_witness :
  exists n', st_heap (after (created_script ++ [RunIt; Ready 0])) !! 0 = Some n' /\
    (3 <= state_rank (ctr_State (n_info n')) \/
     StateCreated = StateCompleted /\ ctr_State (n_info n') = StateRunning /\ n_process n' <> NotStarted).
Proof.
  assert (ctr_State ∘ n_info <$> node_after created_script = Some StateCreated) as Hst by by vm_compute.
  destruct (node_after created_script) as [n|] eqn:En; [|done]. injection Hst as Hst.
  destruct (container_lifecycle ex_cfg true ex_total (after created_script)
              (after (created_script ++ [RunIt; Ready 0])) 0 n) as (n' & Hn' & Hm).
  - apply after_steps.
  - apply after_app. by vm_compute.
  - exact En.
  - exists n'. split; [exact Hn'|]. rewrite Hst in Hm. exact Hm.
Defined.

Lemma exit_completes_witness :
  exists n' out, node_exited (ended (Some two_failures)) "t" = Some (n', out) /\ n_process n' = Exited /\
    completed "t" (n', out).
Proof.
  apply (exit_completes (ended (Some two_failures)) "t" (Some two_failures)).
  - reflexivity.
  - intros e [= <-]. apply reported_trace.
    + exists "runner", (PlainError "exited with status 1"). by left.
    + intros m e Hin. repeat (apply elem_of_cons in Hin as [Hin|Hin]; [injection Hin as -> ->; constructor|]).
      by apply elem_of_nil in Hin.
Defined.

Definition stuck_script := [Reserve 1; UpdateRoutes; Thread_ 0; UpdateRoutes].

(** Two route updates of a container that is only reserved. *)
Lemma update_deadlock_witness :
  let s' := after (stuck_script ++ [Destroy]) in
  UpdateSending 0 ex_routes "" ∈ st_threads s' /\
  (exists n', st_heap s' !! 0 = Some n' /\ n_opLock n' = true) /\
  forall guid traceID, nm_nodes (st_map s') !! guid = Some 0 -> store_Stop s' traceID guid = None.
Proof.
  assert (n_regenerateCerts <$> node_after stuck_script = Some true) as Hc by by vm_compute.
  assert (process_up <$> node_after stuck_script = Some false) as Hp by by vm_compute.
  destruct (node_after stuck_script) as [n|] eqn:En; [|done]. injection Hc as Hc. injection Hp as Hp.
  apply (update_deadlock ex_cfg true ex_total (after stuck_script) 0 n ex_routes "").
  - apply after_steps.
  - exact En.
  - exact Hc.
  - right. exact Hp.
  - assert (st_threads (after stuck_script) = [UpdateSending 0 ex_routes ""]) as -> by by vm_compute. by left.
  - done.
  - apply after_app. by vm_compute.
Defined.

(** An initialised container with two application ports behind the proxy. *)
Definition ex_container : Container :=
  let c := NewReservedContainerFromAllocationRequest ex_request 1 in
  set_State (set_RunInfo c (ex_runinfo true [mkPortMapping 8080 0 0 0; mkPortMapping 2222 0 0 0])) StateInitializing.
Definition ex_node : storeNode := newStoreNode ex_container false.
Definition ex_mapped : ContainerInfo :=
  mkContainerInfo "10.0.0.1" "10.255.0.2" "" [(60000, 8080); (60001, 2222)]%Z.

Lemma node_Create_outcome_witness :
  exists r, node_Create ex_cfg (ex_env (fun _ => None) ex_mapped) "t" ex_node = Some r /\ created ex_node "t" r.
Proof.
  destruct (node_Create_outcome ex_cfg (ex_env (fun _ => None) ex_mapped) "t" ex_node ProxyPorts_total)
    as (r & E & [[H _]|[_ H]]); [by destruct H|]. exists r. auto.
Defined.

Lemma failed_create_leaks_cache_keys_witness :
  exists n' e out,
    node_Create ex_cfg (ex_env (fun _ => Some (ErrOther "no")) ex_mapped) "t" ex_node = Some (n', Some e, out) /\
    forall keys, ReleaseCachedDependencies keys ∈ out ++ (node_Destroy_finish n' None true).2 -> keys = [].
Proof.
  destruct (node_Create ex_cfg (ex_env (fun _ => Some (ErrOther "no")) ex_mapped) "t" ex_node)
    as [[[n' [e|]] out]|] eqn:E; [|by vm_compute in E..].
  exists n', e, out. split; [reflexivity|]. intros keys.
  eapply failed_create_leaks_cache_keys; [..|exact E]; reflexivity.
Defined.

Lemma created_ports_witness :
  exists info' out fresh,
    createGardenContainer ex_cfg (ex_env (fun _ => None) ex_mapped) ex_container [] = Some (Ok info', out) /\
    length fresh = 2 /\ NoDup fresh /\
    ri_Ports (ctr_RunInfo info') =
      zip [8080; 2222]%Z fresh ≫= proxied_entries
        (fun p => default 0%Z (containerToHostPortMappings (gi_MappedPorts ex_mapped) !! p)).
Proof.
  destruct (createGardenContainer ex_cfg (ex_env (fun _ => None) ex_mapped) ex_container [])
    as [[[info'|] out]|] eqn:E; [|by vm_compute in E..].
  destruct (created_ports ex_cfg (ex_env (fun _ => None) ex_mapped) ex_container [] info' out [8080; 2222]%Z
              (fun p => default 0%Z (containerToHostPortMappings (gi_MappedPorts ex_mapped) !! p)) ex_mapped)
    as (fresh & H1 & H2 & _ & H3); [reflexivity|reflexivity|by vm_compute| |simpl; lia|exact E|reflexivity..|].
  - apply (bool_decide_unpack _). by vm_compute.
  - exists info', out, fresh. split_and!; [reflexivity|exact H1|exact H2|exact H3].
Defined.

(** ** Egress rules *)

Definition ex_rules : list SecurityGroupRule :=
  [mkSecurityGroupRule "tcp" ["10.0.0.0/9,10.200.0.1-10.200.0.5"] (Some [80; 443]%Z) None None true [];
   mkSecurityGroupRule "icmp" ["fd00::/8"] None None (Some (8, 0)%Z) false []].

Definition ex_packet (d : string) (port : Z) : Packet := mkPacket PacketTCP (default 0%Z (value <$> ParseIP d)) port 0 0.

(** Traffic to 10.127.0.1 gets through on port 443. *)
Lemma egress_exact_witness :
  exists nets, convertEgressToNetOut ex_rules = Some (Ok nets) /\
    Exists (fun r => net_allows r (ex_packet "10.127.0.1" 443)) nets.
Proof.
  destruct (proj1 (egress_exact ex_rules)) as (nets & Hc & Hn).
  { repeat constructor; vm_compute; reflexivity. }
  exists nets. split; [exact Hc|]. apply Hn; [|apply Exists_cons_hd; split].
  - repeat apply Forall_cons_2; [| |apply Forall_nil_2]; (split; [split|]); try done; [intros ? [= <-]|intros ? ? [= <- <-]; lia].
    repeat constructor.
  - apply Exists_cons_hd. exists [10; 0; 0; 0]%Z, 9%Z. split; [vm_compute; reflexivity|]. vm_compute. reflexivity.
  - left. split_and!; [done..|]. right. exists [80; 443]%Z. split; [done|set_solver].
Defined.
