(* ===== verification/RepExamples.v ===== *)
(** * A concrete cell

    A rep on top of an executor with one container, and a cluster of two such
    cells: the theorems about them apply. *)
From Stdlib Require Import ZArith Lia.
From S2P Require Import Prelude Float64 Models AuctionTypes Cell Zones Scheduler Placement ScheduleProps GoStd Executor Ports StoreNode ContainerStore ContainerLifecycle NodeLocks Depot CellRep RepDepot ExecutorExamples.

#[local] Instance rx_url : UrlParser := opaque_url.
#[local] Instance rx_json : JsonStrings := simple_json.
#[local] Instance rx_range : MapRange string := canonical_range string.

Definition rx_rep : AuctionCellRep :=
  NewAuctionCellRep "cell-a" 0 "https://cell-a" {["cflinuxfs4" := "/rootfs"]} ["docker"] "z1" ["gpu"] [] 32 true.

Definition rx_client : ExecClient containerStore :=
  depot_client ex_total "" None ["nfs"] true 0 (fun _ => 1%Z).

Definition rx_guids (k : nat) : result string string := Ok (pretty k).

Lemma rx_distinct : distinct_guids rx_guids.
Proof. intros i j g [= <-] [= E]. by apply (inj pretty) in E. Qed.

Definition rx_lrp (guid : string) (index mem : Z) : SchedulingLRP :=
  NewSchedulingLRP "" (mkActualLRPKey guid index "domain") (mkResource mem 10 1)
    (mkPC ["gpu"] ["nfs"] "preloaded:cflinuxfs4").

Definition rx_store : containerStore := after [Reserve 1].

(** ** The executor *)

Definition rx_requests : list AllocationRequest :=
  [ex_request; mkAllocationRequest "h" false (mkEResource 512 100 0) (Some ∅);
   mkAllocationRequest "i" false (mkEResource 512 100 0) (Some ∅)].

Lemma rx_store_ok : ex_ok (store_RemainingResources rx_store).
Proof. by vm_compute. Qed.

Lemma AllocateContainers_spec_witness :
  let res := AllocateContainers "t" (fun _ => 1%Z) rx_store rx_requests in
  (fail_Request <$> res.2) `sublist_of` rx_requests /\
  exists granted, granted `sublist_of` rx_requests /\
    rx_requests ≡ₚ granted ++ (fail_Request <$> res.2) /\
    allocated rx_store res.1 granted (fail_Request <$> res.2).
Proof.
  apply AllocateContainers_spec; [exact rx_store_ok|]. repeat constructor; by vm_compute.
Defined.

Lemma run_container_outcome_witness :
  exists s1 n1, RunContainer rx_store ex_run = Some (s1, Ok "g") /\
    st_heap s1 !! 0 = Some n1 /\ ctr_State (n_info n1) = StateInitializing /\
    forall cfg env steps traceID s2,
      runContainerWorker cfg env steps s1 traceID "g" = Some s2 ->
      exists n2, st_heap s2 !! 0 = Some n2 /\ worked traceID steps n2 (st_out s2).
Proof.
  assert (ctr_State ∘ n_info <$> node_after [Reserve 1] = Some StateReserved) as Hst by by vm_compute.
  assert (n_process <$> node_after [Reserve 1] = Some NotStarted) as Hp by by vm_compute.
  assert (ctr_Tags ∘ n_info <$> node_after [Reserve 1] = Some (Some ∅)) as Ht by by vm_compute.
  destruct (node_after [Reserve 1]) as [n|] eqn:En; [|done].
  injection Hst as Hst. injection Hp as Hp. injection Ht as Ht.
  apply (run_container_outcome rx_store ex_run 0 n).
  - by vm_compute.
  - exact En.
  - exact Hst.
  - exact Hp.
  - rewrite Ht. done.
Defined.

Lemma allocated_resources_exact_witness :
  AllocatedResources ex_total rx_store =
    mkExecutorResources (sumZ er_MemoryMB (live_resources rx_store)) (sumZ er_DiskMB (live_resources rx_store))
      (Z.of_nat (size (nm_nodes (st_map rx_store)))).
Proof.
  apply (allocated_resources_exact ex_cfg true ex_total); [by vm_compute|]. apply after_steps.
Defined.

(** ** The rep *)

Lemma rep_keeps_contract_witness : RepContract (rep_client rx_client rx_rep rx_guids false "t" rx_store).
Proof. apply rep_keeps_contract; [apply depot_contract|exact rx_distinct]. Defined.

Definition rx_state : CellState :=
  mkCellState "" "cell-a" 0 (rootFSProviders (acr_stackPathMap rx_rep) ["docker"]) (mkResources 100 1000 10)
    (mkResources 100 1000 10) [] [] 0 "z1" false [] [] [] 0.

Lemma matched_rootfs_resolves_witness :
  exists path, PathForRootFS (acr_stackPathMap rx_rep) "preloaded:cflinuxfs4" = Ok path.
Proof. apply (matched_rootfs_resolves _ ["docker"] rx_state); by vm_compute. Defined.

(** A container that was allocated for an LRP. *)
Definition rx_container : Container :=
  NewReservedContainerFromAllocationRequest (lrp_request true 32 "instance" (rx_lrp "p" 3 64)) 1.

Lemma lrp_reported_as_requested_witness :
  exists l, reported_lrp rx_rep 0 rx_container = Some l /\ reported_task rx_rep 0 rx_container = None /\
    lrp_Key l = mkActualLRPKey "p" 3 "domain" /\ lrp_InstanceGUID l = "instance" /\
    pc_PlacementTags (lrp_PC l) = ["gpu"] /\ pc_VolumeDrivers (lrp_PC l) = ["nfs"] /\ lrp_State l = "CLAIMED".
Proof.
  apply (lrp_reported_as_requested rx_rep 0 rx_container (rx_lrp "p" 3 64) "instance").
  - reflexivity.
  - by repeat split.
  - split; repeat constructor.
  - done.
  - done.
Defined.

(** The rep counts the memory of the container proxy for every LRP, the
    allocation only for LRPs that have a memory limit: here an LRP without one is
    turned away for want of memory although the container that would be allocated
    for it asks for none. *)
Example unlimited_lrp_turned_away :
  fit_lrps rx_rep 16 [rx_lrp "p" 0 0] = ([], [rx_lrp "p" 0 0]) /\
  er_MemoryMB (req_Resource (lrp_request true 32 "instance" (rx_lrp "p" 0 0))) = 0%Z.
Proof. by vm_compute. Qed.

Lemma lrps_never_lack_memory_witness :
  let fit := (fit_lrps rx_rep (i32 768) [rx_lrp "p" 0 700; rx_lrp "q" 0 64]).1 in
  let '(s', failures) :=
    AllocateContainers "t" (fun _ => 1%Z) rx_store
      (tr_requests (translate_lrps (acr_stackPathMap rx_rep) true 32 rx_guids fit)) in
  forall req, req ∈ fail_Request <$> failures ->
    req_Guid req = "" \/ is_Some (nm_nodes (st_map s') !! req_Guid req) \/
    (ex_DiskMB (store_RemainingResources s') < er_DiskMB (req_Resource req))%Z \/
    (ex_Containers (store_RemainingResources s') <= 0)%Z.
Proof.
  apply (lrps_never_lack_memory rx_rep rx_guids rx_store "t" (fun _ => 1%Z) [rx_lrp "p" 0 700; rx_lrp "q" 0 64]).
  - exact rx_store_ok.
  - by vm_compute.
  - repeat constructor; by vm_compute.
  - repeat constructor; by vm_compute.
Defined.

(** ** A cluster *)

#[local] Existing Instances submission_order lrpByZone_sort LRPAuctions_sort TaskAuctions_sort.

Definition rx_cell : Cell :=
  NewCell "cell-a" (rep_client rx_client rx_rep rx_guids false "t" rx_store)
    (mkCellState "" "cell-a" 0 (acr_rootFSProviders rx_rep) (mkResources 768 1536 9) (mkResources 1024 2048 10)
       [] [] 0 "z1" false ["nfs"] ["gpu"] [] 32).

Definition rx_zones : Zones := add_cell emptyZones rx_cell.

Lemma rx_zones_elem c : c ∈ zone_cells rx_zones -> c = rx_cell.
Proof.
  unfold rx_zones. rewrite (zone_cells_add _ _ emptyZones_wf), elem_of_cons. intros [->|Hc]; [reflexivity|].
  by apply elem_of_nil in Hc.
Qed.

Lemma rx_cell_runs : runs_rep rx_cell.
Proof.
  exists ex_total, "", None, ["nfs"], true, 0, (fun _ => 1%Z), rx_rep, rx_guids, false, "t", rx_store.
  split; [exact rx_distinct|reflexivity].
Qed.

Definition rx_auctions : AuctionRequest :=
  mkAuctionRequest [NewLRPAuction (rx_lrp "p" 0 64) 0; NewLRPAuction (rx_lrp "q" 0 2000) 0] [].

Lemma cluster_conserves_work_witness :
  exists res, Schedule (mkConfig (of_int 0) (of_int 0) 0) 0 rx_zones rx_auctions = Some res /\
    SchedulingLRP_Copy ∘ la_LRP <$> (res_SuccessfulLRPs res ++ res_FailedLRPs res)
      ≡ₚ SchedulingLRP_Copy ∘ la_LRP <$> req_LRPs rx_auctions /\
    ta_Task <$> (res_SuccessfulTasks res ++ res_FailedTasks res) ≡ₚ ta_Task <$> req_Tasks rx_auctions.
Proof.
  apply cluster_conserves_work.
  - apply add_cell_wf, emptyZones_wf.
  - intros c ->%rx_zones_elem. exact rx_cell_runs.
  - intros c ->%rx_zones_elem. split; reflexivity.
  - apply (bool_decide_unpack _). vm_compute. exact I.
  - apply (bool_decide_unpack _). vm_compute. exact I.
Defined.
