(* ===== verification/Reaper.v ===== *)
(** * Container reaper and registry pruner

    executor/depot/containerstore/containerreaper.go and registrypruner.go: the
    runners that destroy the containers of garden that the store does not know,
    complete those of the store that garden does not know, and complete reservations
    that have expired.  Their statements interleave with the steps of the store; what
    garden has is the set of the handles of its owner's containers, which changes as
    containers are created and destroyed. *)
From Stdlib Require Import ZArith Lia.
From S2P Require Import Prelude Executor Ports StoreNode ContainerStore ExecutorExamples.

(** Where [Run] of the reaper is: waiting for its timer; in the loop of
    [reapExtraGardenContainers] with the handles that are left, and about to destroy
    one; before the snapshot of [reapMissingGardenContainers], with it, and with the
    handles of garden. *)
Inductive reaper_pc :=
| RWait
| RExtra (handles : list string)
| RDestroy (handle : string) (handles : list string)
| RSnapshot
| RListing (guids : gmap string unit)
| RComplete (guids : gmap string unit) (handles : gset string)
| RStopped.

(** The store, garden, the reaper, and the handles it has destroyed. *)
Record reaper := mkReaper {
  rp_store : containerStore;
  rp_garden : gset string;
  rp_pc : reaper_pc;
  rp_destroyed : list string }.

Section Reaper.
Context `{!MapRange string} (cfg : ContainerConfig) (reads_certs : bool).

Definition at_pc (x : reaper) (pc : reaper_pc) : reaper := mkReaper (rp_store x) (rp_garden x) pc (rp_destroyed x).

(** [CompleteMissing] on the store. *)
Definition complete_missing (t : nat) (s : containerStore) (guids : gmap string unit) (handles : gset string) : containerStore :=
  let r := nodeMap_CompleteMissing t (st_map s) (st_heap s) "" guids handles in
  mkStore (st_map s) r.1 (st_threads s) (st_out s ++ r.2).

(** A step of [Run]; a call of garden fails or not, and a failed destruction may have
    happened. *)
Inductive run_step (x : reaper) : reaper -> Prop :=
| reap_signal : rp_pc x = RWait -> run_step x (at_pc x RStopped)
| reap_list handles : rp_pc x = RWait -> handles ≡ₚ elements (rp_garden x) -> run_step x (at_pc x (RExtra handles))
| reap_list_failed : rp_pc x = RWait -> run_step x (at_pc x RSnapshot)
| reap_known handle handles :
    rp_pc x = RExtra (handle :: handles) -> nodeMap_Contains (st_map (rp_store x)) handle = true -> run_step x (at_pc x (RExtra handles))
| reap_unknown handle handles :
    rp_pc x = RExtra (handle :: handles) -> nodeMap_Contains (st_map (rp_store x)) handle = false ->
    run_step x (at_pc x (RDestroy handle handles))
| reap_destroy handle handles garden :
    rp_pc x = RDestroy handle handles -> garden = rp_garden x \/ garden = rp_garden x ∖ {[handle]} ->
    run_step x (mkReaper (rp_store x) garden (RExtra handles) (rp_destroyed x ++ [handle]))
| reap_extra_done : rp_pc x = RExtra [] -> run_step x (at_pc x RSnapshot)
| reap_snapshot : rp_pc x = RSnapshot -> run_step x (at_pc x (RListing (nodeMap_containerGuids (st_map (rp_store x)))))
| reap_listing guids : rp_pc x = RListing guids -> run_step x (at_pc x (RComplete guids (rp_garden x)))
| reap_listing_failed guids : rp_pc x = RListing guids -> run_step x (at_pc x RWait)
| reap_complete t guids handles :
    rp_pc x = RComplete guids handles ->
    run_step x (mkReaper (complete_missing t (rp_store x) guids handles) (rp_garden x) RWait (rp_destroyed x)).

(** The store goes on, and garden with it. *)
Inductive reaper_step (x : reaper) : reaper -> Prop :=
| step_reaper y : run_step x y -> reaper_step x y
| step_store s garden : store_step cfg reads_certs (rp_store x) s -> reaper_step x (mkReaper s garden (rp_pc x) (rp_destroyed x)).

(** A tick of the registry pruner. *)
Definition prune_tick (t : nat) (now : Z) (s : containerStore) : containerStore :=
  let r := nodeMap_CompleteExpired t cfg (st_map s) (st_heap s) "" now in
  mkStore (st_map s) r.1 (st_threads s) (st_out s ++ r.2).

(** ** What the reaper spares *)

(** The store and garden have the container. *)
Definition present (guid : string) (x : reaper) : Prop :=
  nodeMap_Contains (st_map (rp_store x)) guid = true /\ guid ∈ rp_garden x.

Definition spared (guid : string) (x : reaper) : Prop :=
  guid ∉ rp_destroyed x /\
  match rp_pc x with RDestroy handle _ => handle <> guid | RComplete _ handles => guid ∈ handles | _ => True end.

Lemma run_step_spares guid x y : run_step x y -> present guid x -> spared guid x -> spared guid y.
Proof.
  intros Hs [Hk Hg] [Hd Hpc]. split; destruct Hs; cbn; try done.
  - rewrite H in Hpc. rewrite elem_of_app, list_elem_of_singleton. naive_solver.
  - intros ->. congruence.
Qed.

Lemma Get_insert m h guid r n r' n' :
  nodeMap_Get m h guid = Ok (r, n) -> r' <> r -> nodeMap_Get m (<[r' := n']> h) guid = Ok (r, n).
Proof.
  unfold nodeMap_Get. destruct (nm_nodes m !! guid) as [r0|]; [|done]. destruct (h !! r0) as [n0|] eqn:Hr; [|done]. intros [= -> ->] Hne.
  by rewrite lookup_insert_ne, Hr.
Qed.

(** A node whose container garden listed stays as it is. *)
Lemma CompleteMissing_spares t m h traceID guids handles guid r n :
  (forall g g' r, nm_nodes m !! g = Some r -> nm_nodes m !! g' = Some r -> g = g') ->
  guid ∈ handles -> nodeMap_Get m h guid = Ok (r, n) ->
  nodeMap_Get m (nodeMap_CompleteMissing t m h traceID guids handles).1 guid = Ok (r, n).
Proof.
  intros Hinj Hin Hget. unfold nodeMap_CompleteMissing. generalize (@nil Output). revert h Hget.
  induction (range_over t guids) as [|[g u] l IH]; intros h Hget out; cbn [foldl]; [done|]. cbn [fst snd]. case_bool_decide as Hg; [by apply IH|].
  destruct (nodeMap_Get m h g) as [[r' n']|] eqn:Hr; [|by apply IH]. destruct (node_Reap n' traceID) as [[n'' b] o]. apply IH.
  eapply Get_insert; [done|]. intros ->. apply Get_lookup in Hget as [H1 _], Hr as [H2 _]. apply Hg. by rewrite (Hinj _ _ _ H2 H1).
Qed.
End Reaper.

Lemma store_ok_inj total s : store_ok total s -> forall g g' r, nm_nodes (st_map s) !! g = Some r -> nm_nodes (st_map s) !! g' = Some r -> g = g'.
Proof.
  intros Hok g g' r Hg Hg'. destruct (ok_nodes _ _ Hok g r Hg) as (n & Hn & <- & _). destruct (ok_nodes _ _ Hok g' r Hg') as (n' & Hn' & <- & _). congruence.
Qed.

(** C35: A container that the store knows and garden has for the whole time is safe from
    the reaper, whatever the store and the reaper do in the meantime: it is never
    destroyed, and completing the missing ones leaves its node as it is. *)
Theorem reaper_spares `{!MapRange string} cfg reads_certs total guid x y :
  ex_ok total -> rtc (store_step cfg reads_certs) (NewStore total) (rp_store x) -> rp_pc x = RWait -> rp_destroyed x = [] ->
  rtc (fun a b => reaper_step cfg reads_certs a b /\ present guid a /\ present guid b) x y ->
  guid ∉ rp_destroyed y /\
  forall t guids handles, rp_pc y = RComplete guids handles ->
    nodeMap_Get (st_map (rp_store y)) (st_heap (complete_missing t (rp_store y) guids handles)) guid =
    nodeMap_Get (st_map (rp_store y)) (st_heap (rp_store y)) guid.
Proof.
  intros Htot Hx Hpc Hd Hr.
  assert (Hinv : store_ok total (rp_store y) /\ spared guid y).
  { apply (rtc_ind_r (fun y => store_ok total (rp_store y) /\ spared guid y) x) with (3 := Hr).
    - split; [by eapply store_ok_reach|]. split; [rewrite Hd; apply not_elem_of_nil|by rewrite Hpc].
    - intros a b _ (Hs & Ha & Hb) [Hok Hsp]. destruct Hs as [b Hs|s garden Hs].
      + split; [|by eapply run_step_spares]. destruct Hs; try done. eapply (store_ok_step cfg reads_certs); [done|done|]. apply store_call, call_reap.
      + split; [by eapply store_ok_step|done]. }
  destruct Hinv as [Hok [Hnd Hcase]]. split; [done|]. intros t guids handles Hp. rewrite Hp in Hcase.
  destruct (nodeMap_Get (st_map (rp_store y)) (st_heap (rp_store y)) guid) as [[r n]|e] eqn:Hg.
  - apply CompleteMissing_spares; [|done|done]. by eapply store_ok_inj.
  - unfold nodeMap_Get in Hg |- *. destruct (nm_nodes (st_map (rp_store y)) !! guid) as [r|] eqn:Hn; [|done].
    destruct (ok_nodes _ _ Hok guid r Hn) as (n & Hr' & _). by rewrite Hr' in Hg.
Qed.

(** ** A race *)

Definition reserved_script := [Reserve 1; Initialize].
Definition created_later := reserved_script ++ [Create].

#[local] Instance reaper_range : MapRange string := canonical_range string.

(** Where the race ends. *)
Definition race_end : reaper :=
  mkReaper (complete_missing 0 (after created_later) {["g" := ()]} ∅) {["g"]} RWait [].

Lemma race_create : command (after reserved_script) Create = Some (after created_later).
Proof. vm_compute. reflexivity. Qed.

Lemma race_snapshot : nodeMap_containerGuids (st_map (after reserved_script)) = {["g" := ()]}.
Proof. vm_compute. reflexivity. Qed.

Lemma reaper_step_eq x y z : reaper_step ex_cfg true x y -> y = z -> reaper_step ex_cfg true x z.
Proof. by intros ? <-. Qed.

(** C38: The reaper can complete a container that lives: its snapshot has containers that
    are not created yet, and when one of them is created after garden was listed, it is
    completed as missing although garden has it and nobody has destroyed it. *)
Theorem reaper_completes_live_container :
  exists x y, rtc (store_step ex_cfg true) (NewStore ex_total) (rp_store x) /\ rp_pc x = RWait /\
    rtc (reaper_step ex_cfg true) x y /\ "g" ∈ rp_garden y /\ rp_destroyed y = [] /\ destroyed_in_garden (rp_store y) = false /\
    match nodeMap_Get (st_map (rp_store y)) (st_heap (rp_store y)) "g" with
    | Ok (_, n) => ctr_State (n_info n) = StateCompleted /\ rr_FailureReason (ctr_RunResult (n_info n)) = ContainerMissingMessage
    | Err _ => False
    end.
Proof.
  exists (mkReaper (after reserved_script) ∅ RWait []), race_end. split; [apply after_steps|]. split; [reflexivity|]. split.
  - eapply rtc_l; [apply step_reaper, (reap_list _ []); [reflexivity|set_solver]|].
    eapply rtc_l; [apply step_reaper, reap_extra_done; reflexivity|].
    eapply rtc_l; [apply step_reaper, reap_snapshot; reflexivity|].
    eapply rtc_l; [apply step_reaper; eapply reap_listing; reflexivity|].
    eapply rtc_l; [apply (step_store _ _ _ (after created_later) {["g"]}); cbn; eapply command_step; exact race_create|].
    apply rtc_once. eapply reaper_step_eq; [apply step_reaper, (reap_complete _ 0); reflexivity|]. unfold race_end. rewrite <- race_snapshot. reflexivity.
  - split; [cbn; set_solver|]. split; [reflexivity|]. split; [vm_compute; reflexivity|]. vm_compute. done.
Qed.

(** ** Example *)

Definition spared_start : reaper := mkReaper (after created_later) {["g"]} RWait [].
Definition spared_end : reaper := at_pc spared_start (RComplete (nodeMap_containerGuids (st_map (after created_later))) {["g"]}).

Lemma reaper_spares_witness :
  rtc (fun a b => reaper_step ex_cfg true a b /\ present "g" a /\ present "g" b) spared_start spared_end /\ "g" ∉ rp_destroyed spared_end.
Proof.
  assert (Hp : forall x, rp_store x = after created_later -> rp_garden x = {["g"]} -> present "g" x).
  { intros x Hs Hg. split; [rewrite Hs; vm_compute; reflexivity|rewrite Hg; set_solver]. }
  assert (Hr : rtc (fun a b => reaper_step ex_cfg true a b /\ present "g" a /\ present "g" b) spared_start spared_end).
  { change spared_start with (at_pc spared_start RWait) at 1.
    eapply rtc_l; [split; [apply step_reaper, (reap_list _ ["g"]); [reflexivity|cbn; by rewrite elements_singleton]|split; apply Hp; reflexivity]|].
    eapply rtc_l; [split; [apply step_reaper; eapply (reap_known _ "g" []); [reflexivity|vm_compute; reflexivity]|split; apply Hp; reflexivity]|].
    eapply rtc_l; [split; [apply step_reaper, reap_extra_done; reflexivity|split; apply Hp; reflexivity]|].
    eapply rtc_l; [split; [apply step_reaper, reap_snapshot; reflexivity|split; apply Hp; reflexivity]|].
    apply rtc_once. split; [|split; apply Hp; reflexivity].
    eapply reaper_step_eq; [apply step_reaper; eapply reap_listing; reflexivity|reflexivity]. }
  split; [exact Hr|]. refine (proj1 (reaper_spares ex_cfg true ex_total "g" spared_start spared_end _ (after_steps created_later) eq_refl eq_refl Hr)).
  by vm_compute.
Defined.
