(* ===== verification/OperationQueue.v ===== *)
(** * The operation queue

    [operationq/queue.go]: operations with the same key run one after the other,
    in the order they were pushed; while one runs, at most [capacity] wait, and
    the oldest of them makes room for a new one.  The goroutines, the loop of
    [run] and the channels between them are a step relation. *)
From Stdlib Require Import ZArith Lia.
From S2P Require Import Prelude.

Section queue.
Context {Op : Type} (Key : Op -> string).

(** ** Sliding buffers *)

Record slidingBuffer := mkBuffer { sb_buffer : list Op; sb_capacity : Z }.

Definition newSlidingBuffer (capacity : Z) : slidingBuffer := mkBuffer [] capacity.

Definition buffer_Push (b : slidingBuffer) (op : Op) : slidingBuffer * bool :=
  if bool_decide (sb_capacity b = 0%Z) then (b, false)
  else
    let l := sb_buffer b ++ [op] in
    (mkBuffer (if (sb_capacity b <? Z.of_nat (length l))%Z then tail l else l) (sb_capacity b), true).

Definition buffer_Pop (b : slidingBuffer) : option Op * slidingBuffer :=
  match sb_buffer b with
  | [] => (None, b)
  | op :: l => (Some op, mkBuffer l (sb_capacity b))
  end.

Definition buffer_Len (b : slidingBuffer) : nat := length (sb_buffer b).

(** ** The queue

    Besides the map of [run]: the operations whose [Execute] is running, those
    whose goroutine waits to send on [completeChan], and what has been received
    on [pushChan] and started so far. *)
Record multiQueue := mkQueue {
  mq_queues : gmap string slidingBuffer;
  mq_executing : list Op;
  mq_completing : list Op;
  mq_pushed : list Op;
  mq_started : list Op }.

Definition NewSlidingQueue : multiQueue := mkQueue ∅ [] [] [] [].

(** [case op := <-q.pushChan] *)
Definition on_push (capacity : Z) (q : multiQueue) (op : Op) : multiQueue :=
  match mq_queues q !! Key op with
  | Some queue =>
      mkQueue (<[Key op := (buffer_Push queue op).1]> (mq_queues q)) (mq_executing q) (mq_completing q)
        (mq_pushed q ++ [op]) (mq_started q)
  | None =>
      mkQueue (<[Key op := newSlidingBuffer capacity]> (mq_queues q)) (op :: mq_executing q) (mq_completing q)
        (mq_pushed q ++ [op]) (mq_started q ++ [op])
  end.

(** [case queueKey := <-q.completeChan]; [None] is a nil dereference. *)
Definition on_complete (q : multiQueue) (queueKey : string) : option multiQueue :=
  queue ← mq_queues q !! queueKey;
  if bool_decide (buffer_Len queue = 0) then
    Some (mkQueue (delete queueKey (mq_queues q)) (mq_executing q) (mq_completing q) (mq_pushed q) (mq_started q))
  else
    match buffer_Pop queue with
    | (Some op, queue) =>
        Some (mkQueue (<[queueKey := queue]> (mq_queues q)) (op :: mq_executing q) (mq_completing q)
                (mq_pushed q) (mq_started q ++ [op]))
    | (None, queue) =>
        Some (mkQueue (<[queueKey := queue]> (mq_queues q)) (mq_executing q) (mq_completing q)
                (mq_pushed q) (mq_started q))
    end.

Definition set_goroutines (q : multiQueue) (executing completing : list Op) : multiQueue :=
  mkQueue (mq_queues q) executing completing (mq_pushed q) (mq_started q).

(** The steps: a push is received; an [Execute] returns; a key is received from
    a goroutine that is done. *)
Inductive internal_step : multiQueue -> multiQueue -> Prop :=
| step_finish q op l1 l2 :
    mq_executing q = l1 ++ op :: l2 ->
    internal_step q (set_goroutines q (l1 ++ l2) (op :: mq_completing q))
| step_complete q op l1 l2 q' :
    mq_completing q = l1 ++ op :: l2 ->
    on_complete (set_goroutines q (mq_executing q) (l1 ++ l2)) (Key op) = Some q' ->
    internal_step q q'.

Inductive queue_step (capacity : Z) : multiQueue -> multiQueue -> Prop :=
| step_push q op : queue_step capacity q (on_push capacity q op)
| step_internal q q' : internal_step q q' -> queue_step capacity q q'.

(** ** Invariant *)

Definition of_key (k : string) (l : list Op) : list Op := filter (fun op => Key op = k) l.

(** The operations of a key that have a goroutine, and those that wait. *)
Definition active (q : multiQueue) (k : string) : list Op := of_key k (mq_executing q ++ mq_completing q).
Definition waiting (q : multiQueue) (k : string) : list Op := default [] (sb_buffer <$> mq_queues q !! k).

Record queue_ok (capacity : Z) (q : multiQueue) : Prop := {
  ok_active : forall k, length (active q k) = if decide (is_Some (mq_queues q !! k)) then 1 else 0;
  ok_keys : forall k, Forall (fun op => Key op = k) (waiting q k);
  ok_capacity : forall k b, mq_queues q !! k = Some b -> sb_capacity b = capacity;
  ok_length : forall k, (Z.of_nat (length (waiting q k)) <= Z.max 0 capacity)%Z;
  ok_order : forall k, of_key k (mq_started q) ++ waiting q k `sublist_of` of_key k (mq_pushed q);
  ok_last : forall k, (0 < capacity)%Z ->
    last (of_key k (mq_started q) ++ waiting q k) = last (of_key k (mq_pushed q)) }.

Lemma of_key_app k l1 l2 : of_key k (l1 ++ l2) = of_key k l1 ++ of_key k l2.
Proof. apply filter_app. Qed.

Lemma of_key_one k op : of_key k [op] = if decide (Key op = k) then [op] else [].
Proof. reflexivity. Qed.

Lemma of_key_perm k l1 l2 : l1 ≡ₚ l2 -> length (of_key k l1) = length (of_key k l2).
Proof. intros Hp. unfold of_key. by rewrite Hp. Qed.

Lemma waiting_insert q k b ex co pu st k' :
  waiting (mkQueue (<[k := b]> (mq_queues q)) ex co pu st) k' = if decide (k' = k) then sb_buffer b else waiting q k'.
Proof.
  unfold waiting. simpl. rewrite lookup_insert. destruct (decide (k = k')), (decide (k' = k)); try congruence; done.
Qed.

Lemma buffer_Push_capacity b op : sb_capacity (buffer_Push b op).1 = sb_capacity b.
Proof. unfold buffer_Push. by case_bool_decide. Qed.

Lemma buffer_Push_spec b op l :
  (Z.of_nat (length (sb_buffer b)) <= Z.max 0 (sb_capacity b))%Z ->
  (Z.of_nat (length (sb_buffer (buffer_Push b op).1)) <= Z.max 0 (sb_capacity b))%Z /\
  sb_buffer (buffer_Push b op).1 `sublist_of` sb_buffer b ++ [op] /\
  ((0 < sb_capacity b)%Z -> last (l ++ sb_buffer (buffer_Push b op).1) = Some op).
Proof.
  destruct b as [w c]. simpl. intros Hw. unfold buffer_Push. simpl. case_bool_decide as Hc; simpl.
  - split_and!; [lia|by apply sublist_inserts_r|lia].
  - rewrite length_app. simpl. destruct (Z.ltb_spec c (Z.of_nat (length w + 1))) as [Hlt|Hge].
    + destruct w as [|x w]; simpl in *.
      * split_and!; [lia|apply sublist_nil_l|lia].
      * rewrite length_app. simpl. split_and!; [lia|by apply sublist_cons|].
        intros _. by rewrite app_assoc, last_snoc.
    + rewrite length_app. simpl. split_and!; [lia|done|]. intros _. by rewrite app_assoc, last_snoc.
Qed.

Lemma push_ok capacity q op : queue_ok capacity q -> queue_ok capacity (on_push capacity q op).
Proof.
  intros [Ha Hk Hc Hl Ho Hla]. unfold on_push. destruct (mq_queues q !! Key op) as [b|] eqn:E.
  - assert (waiting q (Key op) = sb_buffer b) as Hwb by (unfold waiting; by rewrite E).
    pose proof (Hl (Key op)) as Hlb. rewrite Hwb in Hlb. rewrite <- (Hc _ _ E) in Hlb.
    destruct (buffer_Push_spec b op (of_key (Key op) (mq_started q)) Hlb) as (Hp1 & Hp2 & Hp3).
    pose proof (Hc _ _ E) as Hcb. split.
    + intros k. change (active _ k) with (active q k). rewrite Ha. simpl. rewrite lookup_insert.
      destruct (decide (Key op = k)) as [<-|Hne]; [|done]. rewrite E. by rewrite !decide_True by eauto.
    + intros k. rewrite waiting_insert. case_decide; [subst k|apply Hk].
      apply Forall_forall. intros x Hx. eapply elem_of_sublist in Hx; [|exact Hp2].
      apply elem_of_app in Hx as [Hx|Hx%list_elem_of_singleton]; [|by subst].
      specialize (Hk (Key op)). rewrite Hwb, Forall_forall in Hk. by apply Hk.
    + intros k b'. simpl. rewrite lookup_insert. case_decide; [|apply Hc].
      intros [= <-]. by rewrite buffer_Push_capacity.
    + intros k. rewrite waiting_insert. case_decide; [|apply Hl]. by rewrite <- Hcb.
    + intros k. rewrite waiting_insert. simpl. rewrite of_key_app, of_key_one.
      destruct (decide (Key op = k)) as [<-|Hne].
      * rewrite decide_True by done. specialize (Ho (Key op)). rewrite Hwb in Ho.
        trans (of_key (Key op) (mq_started q) ++ sb_buffer b ++ [op]); [by apply sublist_app|].
        rewrite app_assoc. by apply sublist_app.
      * rewrite decide_False by congruence. rewrite app_nil_r. apply Ho.
    + intros k Hcap. rewrite waiting_insert. simpl. rewrite of_key_app, of_key_one.
      destruct (decide (Key op = k)) as [<-|Hne].
      * rewrite decide_True by done. rewrite last_snoc. apply Hp3. lia.
      * rewrite decide_False by congruence. rewrite app_nil_r. by apply Hla.
  - assert (waiting q (Key op) = []) as Hwb by (unfold waiting; by rewrite E).
    split.
    + intros k. unfold active. simpl. change (op :: mq_executing q ++ mq_completing q)
        with ([op] ++ (mq_executing q ++ mq_completing q)). rewrite of_key_app, length_app.
      fold (active q k). rewrite Ha, of_key_one, lookup_insert. destruct (decide (Key op = k)) as [<-|Hne]; [|done].
      rewrite E, decide_False by (by intros [??]). by rewrite !decide_True by eauto.
    + intros k. rewrite waiting_insert. case_decide; [constructor|apply Hk].
    + intros k b'. simpl. rewrite lookup_insert. case_decide; [|apply Hc]. by intros [= <-].
    + intros k. rewrite waiting_insert. case_decide; [simpl; lia|apply Hl].
    + intros k. rewrite waiting_insert. simpl. rewrite !of_key_app, of_key_one.
      destruct (decide (Key op = k)) as [<-|Hne].
      * rewrite decide_True by done. specialize (Ho (Key op)). rewrite Hwb, app_nil_r in Ho.
        rewrite app_nil_r. by apply sublist_app.
      * rewrite decide_False by congruence. rewrite !app_nil_r. apply Ho.
    + intros k Hcap. rewrite waiting_insert. simpl. rewrite !of_key_app, of_key_one.
      destruct (decide (Key op = k)) as [<-|Hne].
      * rewrite decide_True by done. by rewrite app_nil_r, !last_snoc.
      * rewrite decide_False by congruence. rewrite !app_nil_r. by apply Hla.
Qed.

Lemma active_perm capacity q q' :
  queue_ok capacity q -> mq_queues q' = mq_queues q -> mq_pushed q' = mq_pushed q -> mq_started q' = mq_started q ->
  mq_executing q' ++ mq_completing q' ≡ₚ mq_executing q ++ mq_completing q -> queue_ok capacity q'.
Proof.
  intros [Ha Hk Hc Hl Ho Hla] Hq Hp Hs Hperm. destruct q as [qs ex co pu st], q' as [qs' ex' co' pu' st'].
  simpl in *. subst. split; try done. intros k. unfold active. simpl. rewrite (of_key_perm _ _ _ Hperm). apply Ha.
Qed.

(** A goroutine that is done has a queue: the loop never dereferences nil. *)
Lemma completing_queue capacity q op l1 l2 :
  queue_ok capacity q -> mq_completing q = l1 ++ op :: l2 -> is_Some (mq_queues q !! Key op).
Proof.
  intros Hok Hco. pose proof (ok_active _ _ Hok (Key op)) as Ha. case_decide as H'; [done|].
  apply nil_length_inv in Ha. unfold active in Ha.
  assert (op ∈ of_key (Key op) (mq_executing q ++ mq_completing q)) as Hin.
  { apply list_elem_of_filter. split; [done|]. rewrite Hco. set_solver. }
  rewrite Ha in Hin. by apply not_elem_of_nil in Hin.
Qed.

Lemma active_rest capacity q op l1 l2 k :
  queue_ok capacity q -> mq_completing q = l1 ++ op :: l2 ->
  length (of_key k (mq_executing q ++ l1 ++ l2)) =
  if decide (k = Key op) then 0 else if decide (is_Some (mq_queues q !! k)) then 1 else 0.
Proof.
  intros Hok Hco. pose proof (ok_active _ _ Hok k) as Ha. unfold active in Ha. rewrite Hco in Ha.
  assert (mq_executing q ++ l1 ++ op :: l2 ≡ₚ [op] ++ mq_executing q ++ l1 ++ l2) as Hp by solve_Permutation.
  rewrite (of_key_perm _ _ _ Hp), of_key_app, length_app, of_key_one in Ha.
  destruct (decide (Key op = k)) as [Hk|Hne].
  - rewrite decide_True by done. simpl in Ha. case_decide; lia.
  - rewrite decide_False by congruence. exact Ha.
Qed.

Lemma complete_ok capacity q op l1 l2 q' :
  queue_ok capacity q -> mq_completing q = l1 ++ op :: l2 ->
  on_complete (set_goroutines q (mq_executing q) (l1 ++ l2)) (Key op) = Some q' -> queue_ok capacity q'.
Proof.
  intros Hok Hco Hst. pose proof (fun k => active_rest capacity q op l1 l2 k Hok Hco) as Hrest.
  destruct Hok as [Ha Hk Hc Hl Ho Hla]. unfold on_complete in Hst. simpl in Hst.
  apply bind_Some in Hst as (b & E & Hst).
  assert (waiting q (Key op) = sb_buffer b) as Hwb by (unfold waiting; by rewrite E).
  unfold buffer_Len, buffer_Pop in Hst. destruct (sb_buffer b) as [|op' w] eqn:Eb; simpl in Hst; simplify_eq.
  - assert (forall k, waiting (mkQueue (delete (Key op) (mq_queues q)) (mq_executing q) (l1 ++ l2) (mq_pushed q) (mq_started q)) k
              = waiting q k) as Hw.
    { intros k. unfold waiting. simpl. rewrite lookup_delete. case_decide as Heq; [|done]. subst k. by rewrite E, <- Eb. }
    split; [|by intros k; rewrite Hw|intros k b'; simpl; intros [_ Hb]%lookup_delete_Some; by eapply Hc|
             by intros k; rewrite Hw|by intros k; rewrite Hw|by intros k; rewrite Hw; apply Hla].
    intros k. unfold active. simpl. rewrite Hrest, lookup_delete.
    destruct (decide (k = Key op)) as [->|Hne].
    + rewrite !(decide_True (P := Key op = Key op)) by done. by rewrite decide_False by (by intros [??]).
    + by rewrite (decide_False (P := Key op = k)) by congruence.
  - assert (Key op' = Key op) as Hkey by (specialize (Hk (Key op)); rewrite Hwb in Hk; by apply Forall_cons_1 in Hk as [? _]).
    assert (forall k, of_key k (mq_started q ++ [op']) ++
        waiting (mkQueue (<[Key op := mkBuffer w (sb_capacity b)]> (mq_queues q)) (op' :: mq_executing q) (l1 ++ l2)
                   (mq_pushed q) (mq_started q ++ [op'])) k = of_key k (mq_started q) ++ waiting q k) as Hw.
    { intros k. rewrite waiting_insert, of_key_app, of_key_one. simpl. destruct (decide (Key op' = k)) as [Heq|Hne].
      - rewrite decide_True by congruence. rewrite <- app_assoc. simpl. rewrite <- Heq, Hkey, Hwb. done.
      - rewrite decide_False by congruence. by rewrite app_nil_r. }
    split.
    + intros k. unfold active. simpl. change (op' :: mq_executing q ++ l1 ++ l2) with ([op'] ++ mq_executing q ++ l1 ++ l2).
      rewrite of_key_app, length_app, Hrest, of_key_one, lookup_insert.
      destruct (decide (k = Key op)) as [->|Hne].
      * rewrite !(decide_True (P := Key op = Key op)) by done. rewrite Hkey, decide_True by done.
        by rewrite decide_True by eauto.
      * rewrite (decide_False (P := Key op' = k)) by congruence. by rewrite (decide_False (P := Key op = k)) by congruence.
    + intros k. rewrite waiting_insert. case_decide; [|apply Hk]. subst k. specialize (Hk (Key op)). rewrite Hwb in Hk.
      by apply Forall_cons_1 in Hk as [_ ?].
    + intros k b'. simpl. rewrite lookup_insert. case_decide; [|apply Hc]. intros [= <-]. exact (Hc _ _ E).
    + intros k. rewrite waiting_insert. case_decide; [|apply Hl]. specialize (Hl (Key op)). rewrite Hwb in Hl. simpl in *. lia.
    + intros k. simpl. rewrite Hw. apply Ho.
    + intros k Hcap. simpl. rewrite Hw. by apply Hla.
Qed.

Lemma internal_step_ok capacity q q' : queue_ok capacity q -> internal_step q q' -> queue_ok capacity q'.
Proof.
  intros Hok Hstep. revert Hok. destruct Hstep as [q op l1 l2 Hex|q op l1 l2 q' Hco Hst]; intros Hok.
  - eapply active_perm; [done..|]. simpl. rewrite Hex. solve_Permutation.
  - by eapply complete_ok.
Qed.

Lemma queue_ok_init capacity : queue_ok capacity NewSlidingQueue.
Proof.
  split; intros k; try done.
  - unfold waiting. simpl. rewrite lookup_empty. simpl. lia.
Qed.

Lemma queue_step_ok capacity q q' : queue_ok capacity q -> queue_step capacity q q' -> queue_ok capacity q'.
Proof. intros Hok Hst. revert Hok. destruct Hst; intros Hok; [by apply push_ok|by eapply internal_step_ok]. Qed.

Lemma queue_ok_steps capacity q q' : rtc (queue_step capacity) q q' -> queue_ok capacity q -> queue_ok capacity q'.
Proof. induction 1 as [|q q1 q' Hst _ IH]; [done|]. intros Hok. apply IH. by eapply queue_step_ok. Qed.

Lemma queue_ok_reach capacity q : rtc (queue_step capacity) NewSlidingQueue q -> queue_ok capacity q.
Proof. intros Hr. eapply queue_ok_steps; [done|apply queue_ok_init]. Qed.

(** ** Draining *)

Definition waiting_total (m : gmap string slidingBuffer) : nat :=
  sum_list ((fun kb => length (sb_buffer kb.2)) <$> map_to_list m).

(** The goroutines and operations that are left. *)
Definition backlog (q : multiQueue) : nat :=
  2 * waiting_total (mq_queues q) + 2 * length (mq_executing q) + length (mq_completing q).

Lemma sum_list_perm l1 l2 : l1 ≡ₚ l2 -> sum_list l1 = sum_list l2.
Proof. induction 1; simpl; lia. Qed.

Lemma waiting_total_delete m k b :
  m !! k = Some b -> waiting_total m = length (sb_buffer b) + waiting_total (delete k m).
Proof.
  intros Hk. unfold waiting_total. by rewrite <- (sum_list_perm _ _ (fmap_Permutation _ _ _ (map_to_list_delete m k b Hk))).
Qed.

Lemma waiting_total_insert m k b :
  waiting_total (<[k := b]> m) = length (sb_buffer b) + waiting_total (delete k m).
Proof. rewrite (waiting_total_delete _ k b) by (by rewrite lookup_insert_eq). by rewrite delete_insert_eq. Qed.

(** Every step of the queue itself brings the backlog down. *)
Lemma internal_step_backlog q q' : internal_step q q' -> S (backlog q') = backlog q.
Proof.
  destruct 1 as [q op l1 l2 Hex|q op l1 l2 q' Hco Hst]; unfold backlog.
  - simpl. rewrite Hex, !length_app. simpl. lia.
  - unfold on_complete in Hst. simpl in Hst. apply bind_Some in Hst as (b & E & Hst).
    rewrite Hco, length_app, (waiting_total_delete _ _ _ E). unfold buffer_Len, buffer_Pop in Hst.
    destruct (sb_buffer b) as [|op' w] eqn:Eb; simpl in Hst; simplify_eq; simpl; rewrite ?waiting_total_insert, length_app; simpl; lia.
Qed.

(** As long as anything is queued or running, the queue can take a step. *)
Lemma internal_progress capacity q :
  queue_ok capacity q -> (exists q', internal_step q q') \/ (mq_queues q = ∅ /\ mq_executing q = [] /\ mq_completing q = []).
Proof.
  intros Hok. destruct (mq_executing q) as [|op ex] eqn:Eex.
  - destruct (mq_completing q) as [|op co] eqn:Eco.
    + right. split_and!; try done. apply map_empty. intros k. pose proof (ok_active _ _ Hok k) as Ha.
      unfold active in Ha. rewrite Eex, Eco in Ha. simpl in Ha. case_decide as H'; [done|]. by apply eq_None_not_Some.
    + left. destruct (completing_queue capacity q op [] co Hok Eco) as [b Hb].
      destruct (on_complete (set_goroutines q (mq_executing q) ([] ++ co)) (Key op)) as [q'|] eqn:E.
      * exists q'. by eapply (step_complete _ op [] co).
      * unfold on_complete in E. simpl in E. rewrite Hb in E. simpl in E. by repeat case_match.
  - left. eexists. by eapply (step_finish _ op [] ex).
Qed.

Lemma drain capacity n q :
  queue_ok capacity q -> backlog q <= n ->
  exists q', rtc internal_step q q' /\ mq_queues q' = ∅ /\ mq_executing q' = [] /\ mq_completing q' = [].
Proof.
  revert q. induction n as [|n IH]; intros q Hok Hn;
    destruct (internal_progress capacity q Hok) as [(q' & Hst)|Hidle]; try (exists q; split; [constructor|done]).
  - apply internal_step_backlog in Hst. lia.
  - pose proof (internal_step_backlog _ _ Hst). destruct (IH q') as (q2 & Hr & Hq2); [by eapply internal_step_ok|lia|].
    exists q2. split; [by eapply rtc_l|done].
Qed.

Lemma internal_steps_bounded n q q' : nsteps internal_step n q q' -> n + backlog q' = backlog q.
Proof. induction 1 as [|n q q1 q' Hst _ IH]; [done|]. apply internal_step_backlog in Hst. lia. Qed.

(** ** Properties *)

(** C23: In every state the queue can reach: a key has at most one operation
    whose goroutine is alive, and it has one exactly when the key has a queue;
    at most [capacity] operations of a key wait; the operations started and then
    those that wait are, in this order, among the operations pushed for the
    key; and with a positive capacity the last one pushed is the last of them,
    so the newest operation is never dropped. *)
Theorem queue_serialises capacity q k :
  rtc (queue_step capacity) NewSlidingQueue q ->
  length (active q k) = (if decide (is_Some (mq_queues q !! k)) then 1 else 0) /\
  (Z.of_nat (length (waiting q k)) <= Z.max 0 capacity)%Z /\
  of_key k (mq_started q) ++ waiting q k `sublist_of` of_key k (mq_pushed q) /\
  ((0 < capacity)%Z -> last (of_key k (mq_started q) ++ waiting q k) = last (of_key k (mq_pushed q))).
Proof. intros [Ha Hk Hc Hl Ho Hla]%queue_ok_reach. eauto. Qed.

(** The queue drains: from every state it can reach, once no more operations
    are pushed it takes at most [backlog] steps, can always take one while an
    operation waits or runs, and so comes to rest with every waiting operation
    started and no goroutine left; its loop never dereferences nil. *)
Theorem queue_drains capacity q :
  rtc (queue_step capacity) NewSlidingQueue q ->
  (forall n q', nsteps internal_step n q q' -> n <= backlog q) /\
  (exists q', rtc internal_step q q' /\ mq_queues q' = ∅ /\ mq_executing q' = [] /\ mq_completing q' = []) /\
  (forall op l1 l2, mq_completing q = l1 ++ op :: l2 ->
     is_Some (on_complete (set_goroutines q (mq_executing q) (l1 ++ l2)) (Key op))).
Proof.
  intros Hok%queue_ok_reach. split_and!.
  - intros n q' Hn%internal_steps_bounded. lia.
  - by eapply drain.
  - intros op l1 l2 Hco. destruct (completing_queue capacity q op l1 l2 Hok Hco) as [b Hb].
    unfold on_complete. simpl. rewrite Hb. simpl. repeat case_match; eauto.
Qed.
End queue.

(** ** A run

    Three operations of one container and one of another are pushed with room for
    one to wait; the first ends. *)

Definition queue_pushed : multiQueue :=
  foldl (on_push fst 1) NewSlidingQueue [("a", 1); ("a", 2); ("a", 3); ("b", 4)].

Definition queue_run : multiQueue := set_goroutines queue_pushed [("b", 4)] [("a", 1)].

Lemma queue_run_reachable : rtc (queue_step fst 1) NewSlidingQueue queue_run.
Proof.
  do 4 (eapply rtc_l; [apply step_push|]). eapply rtc_l; [|apply rtc_refl].
  apply step_internal. by apply (step_finish fst queue_pushed ("a", 1) [("b", 4)] []).
Defined.

Lemma queue_serialises_witness :
  rtc (queue_step fst 1) NewSlidingQueue queue_run /\ waiting queue_run "a" = [("a", 3)] /\
  length (active fst queue_run "a") = 1 /\ last [("a", 1); ("a", 3)] = Some ("a", 3).
Proof.
  destruct (queue_serialises fst 1 queue_run "a" queue_run_reachable) as (Ha & _ & _ & Hl).
  split; [exact queue_run_reachable|]. split; [reflexivity|]. split; [exact Ha|]. exact (Hl eq_refl).
Defined.

Lemma queue_drains_witness :
  rtc (queue_step fst 1) NewSlidingQueue queue_run /\ backlog queue_run = 5 /\
  exists q, rtc (internal_step fst) queue_run q /\ mq_queues q = ∅ /\ mq_executing q = [] /\ mq_completing q = [].
Proof.
  split; [exact queue_run_reachable|]. split; [reflexivity|].
  exact (proj1 (proj2 (queue_drains fst 1 queue_run queue_run_reachable))).
Defined.
