(* ===== verification/Routes.v ===== *)
(** * Endpoints, routes and registry messages of the route emitter

    [route-emitter/routingtable/endpoint.go], [registry_message.go] and
    [messages_to_emit.go], with the LRP types of the BBS they read: what an
    endpoint and a route are, when two of them are the same, and the message a
    route has for an endpoint.  The routing table itself is [RoutingTable]. *)
From Stdlib Require Import ZArith Lia.
From S2P Require Import Prelude GoStd.

(** ** LRPs as the BBS sends them *)

Record ModificationTag := mkTag { mt_Epoch : string; mt_Index : Z }.
#[export] Instance ModificationTag_eq_dec : EqDecision ModificationTag.
Proof. solve_decision. Defined.

(** [m.SucceededBy(other)]: the receiver may be nil. *)
Definition SucceededBy (m : option ModificationTag) (other : ModificationTag) : bool :=
  match m with
  | None => true
  | Some m =>
      if bool_decide (mt_Epoch m = "") || bool_decide (mt_Epoch other = "") then true
      else bool_decide (mt_Epoch m <> mt_Epoch other) || (mt_Index m <? mt_Index other)%Z
  end.

(** The same call with a pointer as its argument: [None] is the nil
    dereference, which a receiver without an epoch avoids. *)
Definition SucceededBy_ptr (m other : option ModificationTag) : option bool :=
  match m, other with
  | None, _ => Some true
  | Some m', None => if bool_decide (mt_Epoch m' = "") then Some true else None
  | Some _, Some other => Some (SucceededBy m other)
  end.

Definition Tag_Equal (a b : option ModificationTag) : bool := bool_decide (a = b).

(** The enumerations are open on the wire, so they are integers. *)
Definition ActualLRP_Evacuating : Z := 1.
Definition PreferredAddressUnknown : Z := 0.
Definition PreferredAddressInstance : Z := 1.
Definition PreferredAddressHost : Z := 2.

Record LRPPortMapping := mkLRPPortMapping {
  pm_ContainerPort : Z;
  pm_HostPort : Z;
  pm_ContainerTlsProxyPort : Z;
  pm_HostTlsProxyPort : Z }.

Definition ActualLRP_Ordinary : Z := 0.
Definition ActualLRPStateRunning : string := "RUNNING".

(** A port mapping is a pointer, and may be nil; [OptionalRoutable] may be
    absent. *)
Record ActualLRP := mkActualLRP {
  al_ProcessGuid : string;
  al_Index : Z;
  al_InstanceGuid : string;
  al_Address : string;
  al_InstanceAddress : string;
  al_InstanceIpv6Address : string;
  al_Ports : list (option LRPPortMapping);
  al_PreferredAddress : Z;
  al_Presence : Z;
  al_Since : Z;
  al_ModificationTag : ModificationTag;
  al_AvailabilityZone : string;
  al_State : string;
  al_Routable : option bool;
  al_Domain : string;
  al_CellId : string }.

Definition RoutableExists (lrp : ActualLRP) : bool := bool_decide (is_Some (al_Routable lrp)).
Definition GetRoutable (lrp : ActualLRP) : bool := default false (al_Routable lrp).

Definition MetricTagDynamicValueIndex : Z := 1.
Definition MetricTagDynamicValueInstanceGuid : Z := 2.
Record MetricTagValue := mkMetricTagValue { mv_Static : string; mv_Dynamic : Z }.

(** [models.Routes]: a raw JSON message, or a nil pointer, for each router. *)
Abbreviation RoutingInfo := (gmap string (option string)).

Record DesiredLRP := mkDesiredLRP {
  dl_ProcessGuid : string;
  dl_Domain : string;
  dl_LogGuid : string;
  dl_Instances : Z;
  dl_Routes : option RoutingInfo;
  dl_MetricTags : gmap string MetricTagValue;
  dl_ModificationTag : option ModificationTag }.

Record CFRoute := mkCFRoute {
  cf_Hostnames : list string;
  cf_Port : Z;
  cf_RouteServiceUrl : string;
  cf_IsolationSegment : string;
  cf_Protocol : string;
  cf_Options : string }.

Record TCPRoute := mkTCPRoute {
  tr_RouterGroupGuid : string;
  tr_ExternalPort : Z;
  tr_ContainerPort : Z;
  tr_SniHostname : option string;
  tr_TerminateFrontendTLS : bool;
  tr_EnableBackendMTLS : bool }.

(** [encoding/json] on the routing data is an argument: what [json.Unmarshal]
    leaves in the slice it is given and whether it reports an error, and the
    text a value has after [json.Unmarshal] and [json.Marshal], where both
    succeed. *)
Class RouteJson := {
  unmarshal_cf : string -> list CFRoute * bool;
  unmarshal_tcp : string -> list TCPRoute * bool;
  unmarshal_internal : string -> list string * bool;
  json_normal : string -> option string }.

Section routing_info.
Context `{RouteJson}.

Definition CFRoutesFromRoutingInfo (info : RoutingInfo) : list CFRoute * bool :=
  match info !! "cf-router" with
  | Some (Some data) => unmarshal_cf data
  | _ => ([], true)
  end.

Definition TCPRoutesFromRoutingInfo (info : option RoutingInfo) : list TCPRoute * bool :=
  match info with
  | None => ([], true)
  | Some info =>
      match info !! "tcp-router" with
      | Some (Some data) => unmarshal_tcp data
      | _ => ([], true)
      end
  end.

(** The hostnames of the internal routes. *)
Definition InternalRoutesFromRoutingInfo (info : RoutingInfo) : list string * bool :=
  match info !! "internal-router" with
  | Some (Some data) => unmarshal_internal data
  | _ => ([], true)
  end.
End routing_info.

(** ** Endpoints *)

Record EndpointKey := NewEndpointKey { ek_InstanceGUID : string; ek_Evacuating : bool }.
#[export] Instance EndpointKey_eq_dec : EqDecision EndpointKey.
Proof. solve_decision. Defined.
#[export] Program Instance EndpointKey_countable : Countable EndpointKey :=
  inj_countable' (fun k => (ek_InstanceGUID k, ek_Evacuating k)) (fun p => NewEndpointKey p.1 p.2) _.
Next Obligation. by intros []. Qed.

(** The key of the same instance with the other presence. *)
Definition twin (k : EndpointKey) : EndpointKey := NewEndpointKey (ek_InstanceGUID k) (negb (ek_Evacuating k)).

Record Address := mkAddress { ad_Host : string; ad_Port : Z }.
#[export] Instance Address_eq_dec : EqDecision Address.
Proof. solve_decision. Defined.
#[export] Program Instance Address_countable : Countable Address :=
  inj_countable' (fun a => (ad_Host a, ad_Port a)) (fun p => mkAddress p.1 p.2) _.
Next Obligation. by intros []. Qed.

(** The modification tag of an endpoint is the address of the one in its LRP,
    so it is never nil; as a value it makes the same endpoints equal as the
    pointer does, because a table never holds two copies of one endpoint. *)
Record Endpoint := mkEndpoint {
  e_InstanceGUID : string;
  e_Index : Z;
  e_Host : string;
  e_ContainerIP : string;
  e_ContainerIPv6 : string;
  e_Port : Z;
  e_ContainerPort : Z;
  e_TlsProxyPort : Z;
  e_ContainerTlsProxyPort : Z;
  e_Presence : Z;
  e_IsolationSegment : string;
  e_Since : Z;
  e_ModificationTag : ModificationTag;
  e_PreferredAddress : Z;
  e_AvailabilityZone : string }.
#[export] Instance Endpoint_eq_dec : EqDecision Endpoint.
Proof. solve_decision. Defined.
#[export] Program Instance Endpoint_countable : Countable Endpoint :=
  inj_countable'
    (fun e => ((e_InstanceGUID e, e_Index e, e_Host e, e_ContainerIP e, e_ContainerIPv6 e),
               (e_Port e, e_ContainerPort e, e_TlsProxyPort e, e_ContainerTlsProxyPort e),
               (e_Presence e, e_IsolationSegment e, e_Since e),
               (mt_Epoch (e_ModificationTag e), mt_Index (e_ModificationTag e)),
               (e_PreferredAddress e, e_AvailabilityZone e)))
    (fun '((guid, index, host, ip, ip6), (port, cport, tls, ctls), (presence, seg, since),
           (epoch, tindex), (preferred, az)) =>
       mkEndpoint guid index host ip ip6 port cport tls ctls presence seg since
         (mkTag epoch tindex) preferred az) _.
Next Obligation. by intros [????????????[]]. Qed.

Definition Endpoint_key (e : Endpoint) : EndpointKey :=
  NewEndpointKey (e_InstanceGUID e) (bool_decide (e_Presence e = ActualLRP_Evacuating)).

Definition IsDirectInstanceRoute (e : Endpoint) (defaultIsDirectInstanceRoute : bool) : bool :=
  if bool_decide (e_PreferredAddress e = PreferredAddressInstance) then true
  else if bool_decide (e_PreferredAddress e = PreferredAddressHost) then false
  else if bool_decide (e_PreferredAddress e = PreferredAddressUnknown) then defaultIsDirectInstanceRoute
  else false.

Definition endpoint_of (lrp : ActualLRP) (m : LRPPortMapping) : Endpoint :=
  {| e_InstanceGUID := al_InstanceGuid lrp; e_Index := al_Index lrp; e_Host := al_Address lrp;
     e_ContainerIP := al_InstanceAddress lrp; e_ContainerIPv6 := al_InstanceIpv6Address lrp;
     e_Port := pm_HostPort m; e_ContainerPort := pm_ContainerPort m;
     e_TlsProxyPort := pm_HostTlsProxyPort m; e_ContainerTlsProxyPort := pm_ContainerTlsProxyPort m;
     e_Presence := al_Presence lrp; e_IsolationSegment := ""; e_Since := al_Since lrp;
     e_ModificationTag := al_ModificationTag lrp; e_PreferredAddress := al_PreferredAddress lrp;
     e_AvailabilityZone := al_AvailabilityZone lrp |}.

(** Nil port mappings are skipped. *)
Definition NewEndpointsFromActual (lrp : ActualLRP) : list Endpoint :=
  omap (fun pm => endpoint_of lrp <$> pm) (al_Ports lrp).

Definition internalEndpointsFromActualLRP (lrp : ActualLRP) : list Endpoint :=
  [{| e_InstanceGUID := al_InstanceGuid lrp; e_Index := al_Index lrp; e_Host := al_Address lrp;
      e_ContainerIP := al_InstanceAddress lrp; e_ContainerIPv6 := "";
      e_Port := 0; e_ContainerPort := 0; e_TlsProxyPort := 0; e_ContainerTlsProxyPort := 0;
      e_Presence := al_Presence lrp; e_IsolationSegment := ""; e_Since := al_Since lrp;
      e_ModificationTag := al_ModificationTag lrp; e_PreferredAddress := PreferredAddressUnknown;
      e_AvailabilityZone := "" |}].

(** ** Routing keys *)

Record RoutingKey := NewRoutingKey { rk_ProcessGUID : string; rk_ContainerPort : Z }.
#[export] Instance RoutingKey_eq_dec : EqDecision RoutingKey.
Proof. solve_decision. Defined.
#[export] Program Instance RoutingKey_countable : Countable RoutingKey :=
  inj_countable' (fun k => (rk_ProcessGUID k, rk_ContainerPort k)) (fun p => NewRoutingKey p.1 p.2) _.
Next Obligation. by intros []. Qed.

(** [None]: a nil port mapping is dereferenced. *)
Fixpoint routing_keys (guid : string) (ports : list (option LRPPortMapping)) : option (list RoutingKey) :=
  match ports with
  | [] => Some []
  | None :: _ => None
  | Some m :: ports =>
      let tls :=
        if bool_decide (pm_HostTlsProxyPort m <> 0%Z) && bool_decide (pm_ContainerTlsProxyPort m <> 0%Z)
        then [NewRoutingKey guid (pm_ContainerTlsProxyPort m)] else [] in
      keys ← routing_keys guid ports;
      Some (NewRoutingKey guid (pm_ContainerPort m) :: tls ++ keys)
  end.
Definition NewRoutingKeysFromActual (lrp : ActualLRP) : option (list RoutingKey) :=
  routing_keys (al_ProcessGuid lrp) (al_Ports lrp).

Definition NewRoutingKeysFromDesired `{RouteJson} (desired : DesiredLRP) : list RoutingKey :=
  let '(routes, ok) := TCPRoutesFromRoutingInfo (dl_Routes desired) in
  if ok then (fun r => NewRoutingKey (dl_ProcessGuid desired) (tr_ContainerPort r)) <$> routes else [].

Definition containsRoutingKey (lhs : list RoutingKey) (k : RoutingKey) : bool := bool_decide (k ∈ lhs).

Definition RoutingKeys_Remove (lhs rhs : list RoutingKey) : list RoutingKey :=
  filter (fun k => containsRoutingKey rhs k = false) lhs.

(** ** Routes *)

Record ExternalEndpointInfo := mkExternalEndpointInfo {
  ei_RouterGroupGUID : string;
  ei_Port : Z;
  ei_TLSEnabled : bool;
  ei_SniHostname : string;
  ei_TerminateFrontendTLS : bool;
  ei_EnableBackendMTLS : bool }.

Record Route := mkRoute {
  rt_Hostname : string;
  rt_RouteServiceUrl : string;
  rt_IsolationSegment : string;
  rt_LogGUID : string;
  rt_Protocol : string;
  rt_MetricTags : gmap string MetricTagValue;
  rt_Options : string }.

Record InternalRoute := mkInternalRoute {
  ir_Hostname : string;
  ir_ContainerIP : string;
  ir_LogGUID : string }.

(** The three implementations of the interface [routeMapping]. *)
Inductive routeMapping :=
| HTTP (r : Route)
| TCP (info : ExternalEndpointInfo)
| Internal (r : InternalRoute).

Record routeHash := mkRouteHash {
  rh_Hostname : string;
  rh_RouteServiceUrl : string;
  rh_IsolationSegment : string;
  rh_LogGUID : string;
  rh_Protocol : string }.

(** The values [Hash] returns, of a different dynamic type for each kind. *)
Inductive RHash :=
| HTTPHash (h : routeHash)
| TCPHash (info : ExternalEndpointInfo)
| InternalHash (r : InternalRoute).

#[export] Instance ExternalEndpointInfo_eq_dec : EqDecision ExternalEndpointInfo.
Proof. solve_decision. Defined.
#[export] Instance InternalRoute_eq_dec : EqDecision InternalRoute.
Proof. solve_decision. Defined.
#[export] Instance routeHash_eq_dec : EqDecision routeHash.
Proof. solve_decision. Defined.
#[export] Instance RHash_eq_dec : EqDecision RHash.
Proof. solve_decision. Defined.
#[export] Program Instance RHash_countable : Countable RHash :=
  inj_countable'
    (fun h => match h with
      | HTTPHash h => inl (inl (rh_Hostname h, rh_RouteServiceUrl h, rh_IsolationSegment h,
                                rh_LogGUID h, rh_Protocol h))
      | TCPHash i => inl (inr (ei_RouterGroupGUID i, ei_Port i, ei_TLSEnabled i, ei_SniHostname i,
                               ei_TerminateFrontendTLS i, ei_EnableBackendMTLS i))
      | InternalHash r => inr (ir_Hostname r, ir_ContainerIP r, ir_LogGUID r)
      end)
    (fun s => match s with
      | inl (inl (a, b, c, d, e)) => HTTPHash (mkRouteHash a b c d e)
      | inl (inr (a, b, c, d, e, f)) => TCPHash (mkExternalEndpointInfo a b c d e f)
      | inr (a, b, c) => InternalHash (mkInternalRoute a b c)
      end) _.
Next Obligation. by intros [[]|[]|[]]. Qed.

Definition Route_Hash (r : Route) : routeHash :=
  mkRouteHash (rt_Hostname r) (rt_RouteServiceUrl r) (rt_IsolationSegment r) (rt_LogGUID r) (rt_Protocol r).

Definition Hash (r : routeMapping) : RHash :=
  match r with
  | HTTP r => HTTPHash (Route_Hash r)
  | TCP info => TCPHash info
  | Internal r => InternalHash r
  end.

(** The options of a route as they are compared: in the normal form of
    [encoding/json] where they are valid. *)
Definition normal_options `{RouteJson} (opts : string) : string :=
  if bool_decide (opts = "") then "" else default opts (json_normal opts).

Definition HashWithOptions `{RouteJson} (r : routeMapping) : RHash * string :=
  match r with
  | HTTP r => (HTTPHash (Route_Hash r), normal_options (rt_Options r))
  | r => (Hash r, "")
  end.

(** ** Messages *)

Record RegistryMessage := mkRegistryMessage {
  rm_Host : string;
  rm_Port : Z;
  rm_TlsPort : Z;
  rm_URIs : list string;
  rm_Protocol : string;
  rm_App : string;
  rm_RouteServiceUrl : string;
  rm_PrivateInstanceId : string;
  rm_PrivateInstanceIndex : string;
  rm_ServerCertDomainSAN : string;
  rm_IsolationSegment : string;
  rm_EndpointUpdatedAtNs : Z;
  rm_Tags : gmap string string;
  rm_AvailabilityZone : string;
  rm_Options : string }.

Definition metric_tag (v : MetricTagValue) (endpoint : Endpoint) : string :=
  if (0 <? mv_Dynamic v)%Z then
    if bool_decide (mv_Dynamic v = MetricTagDynamicValueIndex) then strconv_Itoa (e_Index endpoint)
    else if bool_decide (mv_Dynamic v = MetricTagDynamicValueInstanceGuid) then e_InstanceGUID endpoint
    else ""
  else mv_Static v.

Definition populateMetricTags (input : gmap string MetricTagValue) (endpoint : Endpoint) : gmap string string :=
  let tags := <["component" := "route-emitter"]> ((fun v => metric_tag v endpoint) <$> input) in
  if bool_decide (e_ContainerIPv6 endpoint <> "")
  then <["cf_instance_ipv6" := e_ContainerIPv6 endpoint]> tags else tags.

Definition instance_index (endpoint : Endpoint) : string :=
  if bool_decide (e_InstanceGUID endpoint <> "") then strconv_Itoa (e_Index endpoint) else "".
Definition updated_at (endpoint : Endpoint) (emitEndpointUpdatedAt : bool) : Z :=
  if emitEndpointUpdatedAt then e_Since endpoint else 0.

Definition RegistryMessageFor (endpoint : Endpoint) (route : Route) (emitEndpointUpdatedAt : bool)
    : RegistryMessage :=
  {| rm_URIs := [rt_Hostname route]; rm_Host := e_Host endpoint; rm_Port := e_Port endpoint;
     rm_TlsPort := e_TlsProxyPort endpoint; rm_Protocol := rt_Protocol route;
     rm_App := rt_LogGUID route; rm_IsolationSegment := rt_IsolationSegment route;
     rm_Tags := populateMetricTags (rt_MetricTags route) endpoint;
     rm_AvailabilityZone := e_AvailabilityZone endpoint;
     rm_EndpointUpdatedAtNs := updated_at endpoint emitEndpointUpdatedAt;
     rm_PrivateInstanceId := e_InstanceGUID endpoint;
     rm_PrivateInstanceIndex := instance_index endpoint;
     rm_ServerCertDomainSAN := e_InstanceGUID endpoint;
     rm_RouteServiceUrl := rt_RouteServiceUrl route; rm_Options := rt_Options route |}.

(** The container's own address; the options of the route are not sent. *)
Definition InternalAddressRegistryMessageFor (endpoint : Endpoint) (route : Route)
    (emitEndpointUpdatedAt : bool) : RegistryMessage :=
  {| rm_URIs := [rt_Hostname route]; rm_Host := e_ContainerIP endpoint;
     rm_Port := e_ContainerPort endpoint; rm_TlsPort := e_ContainerTlsProxyPort endpoint;
     rm_Protocol := rt_Protocol route; rm_App := rt_LogGUID route;
     rm_IsolationSegment := rt_IsolationSegment route;
     rm_Tags := populateMetricTags (rt_MetricTags route) endpoint;
     rm_AvailabilityZone := e_AvailabilityZone endpoint;
     rm_ServerCertDomainSAN := e_InstanceGUID endpoint;
     rm_PrivateInstanceId := e_InstanceGUID endpoint;
     rm_PrivateInstanceIndex := instance_index endpoint;
     rm_EndpointUpdatedAtNs := updated_at endpoint emitEndpointUpdatedAt;
     rm_RouteServiceUrl := rt_RouteServiceUrl route; rm_Options := "" |}.

Definition InternalEndpointRegistryMessageFor (endpoint : Endpoint) (route : InternalRoute)
    (emitEndpointUpdatedAt : bool) : RegistryMessage :=
  {| rm_URIs := [ir_Hostname route; instance_index endpoint +:+ "." +:+ ir_Hostname route];
     rm_Host := e_ContainerIP endpoint; rm_Port := 0; rm_TlsPort := 0; rm_Protocol := "";
     rm_App := ir_LogGUID route; rm_RouteServiceUrl := ""; rm_PrivateInstanceId := "";
     rm_PrivateInstanceIndex := instance_index endpoint; rm_ServerCertDomainSAN := "";
     rm_IsolationSegment := ""; rm_EndpointUpdatedAtNs := updated_at endpoint emitEndpointUpdatedAt;
     rm_Tags := {["component" := "route-emitter"]};
     rm_AvailabilityZone := e_AvailabilityZone endpoint; rm_Options := "" |}.

(** [tcpmodels.TcpRouteMapping], without the fields the emitter leaves zero
    (its own modification tag, the isolation segment, the database model). *)
Record TcpRouteMapping := mkTcpRouteMapping {
  tm_RouterGroupGuid : string;
  tm_ExternalPort : Z;
  tm_HostIP : string;
  tm_HostPort : Z;
  tm_HostTLSPort : Z;
  tm_InstanceId : string;
  tm_SniHostname : option string;
  tm_SniRewriteHostname : option string;
  tm_TTL : Z;
  tm_TerminateFrontendTLS : bool;
  tm_ALPNs : string;
  tm_EnableBackendMTLS : bool }.

Definition TCP_MessageFor (info : ExternalEndpointInfo) (e : Endpoint) (directInstanceRoute : bool)
    : TcpRouteMapping :=
  let tlsHostPort := if ei_TLSEnabled info then e_TlsProxyPort e else (-1)%Z in
  let tlsContainerPort := if ei_TLSEnabled info then e_ContainerTlsProxyPort e else (-1)%Z in
  let instanceGUID := if ei_TLSEnabled info then e_InstanceGUID e else "" in
  let sniHostname := if bool_decide (ei_SniHostname info <> "") then Some (ei_SniHostname info) else None in
  let mapping host port tls :=
    {| tm_RouterGroupGuid := ei_RouterGroupGUID info; tm_ExternalPort := u16 (ei_Port info);
       tm_HostIP := host; tm_HostPort := u16 port; tm_HostTLSPort := tls;
       tm_InstanceId := instanceGUID; tm_SniHostname := sniHostname; tm_SniRewriteHostname := None;
       tm_TTL := 0; tm_TerminateFrontendTLS := ei_TerminateFrontendTLS info; tm_ALPNs := "";
       tm_EnableBackendMTLS := ei_EnableBackendMTLS info |} in
  if IsDirectInstanceRoute e directInstanceRoute
  then mapping (e_ContainerIP e) (e_ContainerPort e) tlsContainerPort
  else mapping (e_Host e) (e_Port e) tlsHostPort.

(** What [MessageFor] returns: exactly one of its three results is not nil. *)
Inductive Message :=
| HTTPMessage (m : RegistryMessage)
| TCPMessage (m : TcpRouteMapping)
| InternalMessage (m : RegistryMessage).
#[export] Instance RegistryMessage_eq_dec : EqDecision RegistryMessage.
Proof. solve_decision. Defined.
#[export] Instance TcpRouteMapping_eq_dec : EqDecision TcpRouteMapping.
Proof. solve_decision. Defined.
#[export] Instance Message_eq_dec : EqDecision Message.
Proof. solve_decision. Defined.

Definition MessageFor (r : routeMapping) (e : Endpoint) (directInstanceAddress emitEndpointUpdatedAt : bool)
    : Message :=
  match r with
  | HTTP r =>
      HTTPMessage ((if IsDirectInstanceRoute e directInstanceAddress
                    then InternalAddressRegistryMessageFor else RegistryMessageFor)
                     e r emitEndpointUpdatedAt)
  | TCP info => TCPMessage (TCP_MessageFor info e directInstanceAddress)
  | Internal r => InternalMessage (InternalEndpointRegistryMessageFor e r emitEndpointUpdatedAt)
  end.

Record TCPRouteMappings := mkTCPRouteMappings {
  tcp_Registrations : list TcpRouteMapping;
  tcp_Unregistrations : list TcpRouteMapping }.

Record MessagesToEmit := mkMessagesToEmit {
  RegistrationMessages : list RegistryMessage;
  UnregistrationMessages : list RegistryMessage;
  InternalRegistrationMessages : list RegistryMessage;
  InternalUnregistrationMessages : list RegistryMessage }.

Definition Mappings_Merge (a b : TCPRouteMappings) : TCPRouteMappings :=
  mkTCPRouteMappings (tcp_Registrations a ++ tcp_Registrations b)
    (tcp_Unregistrations a ++ tcp_Unregistrations b).

Definition Messages_Merge (m o : MessagesToEmit) : MessagesToEmit :=
  mkMessagesToEmit (RegistrationMessages m ++ RegistrationMessages o)
    (UnregistrationMessages m ++ UnregistrationMessages o)
    (InternalRegistrationMessages m ++ InternalRegistrationMessages o)
    (InternalUnregistrationMessages m ++ InternalUnregistrationMessages o).

Definition routeCount (messages : list RegistryMessage) : Z :=
  foldl (fun count m => u64 (count + Z.of_nat (length (rm_URIs m)))) 0%Z messages.
