(* ===== verification/RoutingTable.v ===== *)
(** * The routing table of the route emitter

    [route-emitter/routingtable/routingtable.go]: the tables of HTTP, TCP and
    internal routes, the operations that events and the bulk sync perform on
    them, and the registrations and unregistrations each change emits. *)
From Stdlib Require Import ZArith Lia.
From S2P Require Import Prelude GoStd Routes.

(** The [i]-th range statement run on behalf of the one at [t]. *)
Definition slot (t : list nat) (i : nat) : list nat := i :: t.

(** ** Entries and tables *)

Record RoutableEndpoints := mkRoutableEndpoints {
  re_Domain : string;
  re_Routes : list routeMapping;
  re_Endpoints : gmap EndpointKey Endpoint;
  re_DesiredInstances : Z;
  re_ModificationTag : option ModificationTag }.

(** The zero value, which a lookup of an absent key gives. *)
Definition no_entry : RoutableEndpoints := mkRoutableEndpoints "" [] ∅ 0 None.

Definition with_endpoints (r : RoutableEndpoints) (m : gmap EndpointKey Endpoint) : RoutableEndpoints :=
  mkRoutableEndpoints (re_Domain r) (re_Routes r) m (re_DesiredInstances r) (re_ModificationTag r).
Definition with_routes (r : RoutableEndpoints) (l : list routeMapping) : RoutableEndpoints :=
  mkRoutableEndpoints (re_Domain r) l (re_Endpoints r) (re_DesiredInstances r) (re_ModificationTag r).

(** The fields of [internalRoutingTable] that never change.  The metrics
    client is the counter [irt_collisions]. *)
Record TableConfig := mkTableConfig {
  endpointGenerator : ActualLRP -> list Endpoint;
  routesGenerator : option DesiredLRP -> gmap RoutingKey (list routeMapping);
  directInstanceRoute : bool;
  suppressAddressCollision : bool }.

Record internalRoutingTable := mkTable {
  irt_entries : gmap RoutingKey RoutableEndpoints;
  irt_addressEntries : gmap Address EndpointKey;
  irt_collisions : nat }.

Definition empty_table : internalRoutingTable := mkTable ∅ ∅ 0.

Definition entry (T : internalRoutingTable) (key : RoutingKey) : RoutableEndpoints :=
  default no_entry (irt_entries T !! key).
Definition set_entries (T : internalRoutingTable) (m : gmap RoutingKey RoutableEndpoints)
    : internalRoutingTable := mkTable m (irt_addressEntries T) (irt_collisions T).
Definition set_entry (T : internalRoutingTable) (key : RoutingKey) (e : RoutableEndpoints)
    : internalRoutingTable := set_entries T (<[key := e]> (irt_entries T)).

Definition entry_empty (e : RoutableEndpoints) : bool :=
  bool_decide (re_Endpoints e = ∅) && bool_decide (re_Routes e = []).

Definition deleteEntryIfEmpty (T : internalRoutingTable) (key : RoutingKey) : internalRoutingTable :=
  if entry_empty (entry T key) then set_entries T (delete key (irt_entries T)) else T.

(** ** Differences of entries *)

Section diff.
Context `{RouteJson, !RangeAt EndpointKey, !RangeAt RHash}.

Record routesDiff := mkRoutesDiff {
  rd_before : list routeMapping;
  rd_after : list routeMapping;
  rd_removed : list routeMapping;
  rd_added : list routeMapping }.

Record endpointsDiff := mkEndpointsDiff {
  ed_before : gmap EndpointKey Endpoint;
  ed_after : gmap EndpointKey Endpoint;
  ed_removed : gmap EndpointKey Endpoint;
  ed_added : gmap EndpointKey Endpoint }.

(** The last route of each hash. *)
Definition by_hash (routes : list routeMapping) : gmap RHash routeMapping :=
  foldl (fun m r => <[Hash r := r]> m) ∅ routes.

Definition diffRoutes (t : list nat) (before after : list routeMapping) : routesDiff :=
  let existingRoutes := by_hash before in
  let newRoutes := by_hash after in
  {| rd_before := before; rd_after := after;
     rd_removed :=
       omap (fun '(h, r) => match newRoutes !! h with Some _ => None | None => Some r end)
         (range_at (slot t 0) existingRoutes);
     rd_added :=
       omap (fun '(h, r) =>
         match existingRoutes !! h with
         | Some old => if bool_decide (HashWithOptions old <> HashWithOptions r) then Some r else None
         | None => Some r
         end) (range_at (slot t 1) newRoutes) |}.

Definition endpointDifferent (before after : Endpoint) : bool :=
  let endpoint :=
    {| e_InstanceGUID := e_InstanceGUID before; e_Index := e_Index before; e_Host := e_Host before;
       e_ContainerIP := e_ContainerIP before; e_ContainerIPv6 := e_ContainerIPv6 before;
       e_Port := e_Port before; e_ContainerPort := e_ContainerPort before;
       e_TlsProxyPort := e_TlsProxyPort before;
       e_ContainerTlsProxyPort := e_ContainerTlsProxyPort before;
       e_Presence := e_Presence after; e_IsolationSegment := e_IsolationSegment before;
       e_Since := e_Since after; e_ModificationTag := e_ModificationTag after;
       e_PreferredAddress := e_PreferredAddress before;
       e_AvailabilityZone := e_AvailabilityZone before |} in
  bool_decide (endpoint <> after).

(** One loop of [diffEndpoints]: the endpoints of [m] that [other] does not
    have, under their own key or under the other presence.  The loop variable
    [key] is changed when the second lookup is made, and the endpoint is then
    stored under the changed key. *)
Definition missing_step (differs : Endpoint -> Endpoint -> bool) (other : gmap EndpointKey Endpoint)
    (missing : gmap EndpointKey Endpoint) (ke : EndpointKey * Endpoint) : gmap EndpointKey Endpoint :=
  let '(key, endpoint) := ke in
  let '(key, found) :=
    match other !! key with
    | Some o => (key, Some o)
    | None => (twin key, other !! twin key)
    end in
  if match found with None => true | Some o => differs o endpoint end
  then <[key := endpoint]> missing else missing.

Definition diffEndpoints (t : list nat) (before after : gmap EndpointKey Endpoint) : endpointsDiff :=
  {| ed_before := before; ed_after := after;
     ed_removed :=
       foldl (missing_step (fun newEndpoint endpoint => endpointDifferent newEndpoint endpoint) after) ∅
         (range_at (slot t 0) before);
     ed_added :=
       foldl (missing_step (fun oldEndpoint endpoint => endpointDifferent endpoint oldEndpoint) before) ∅
         (range_at (slot t 1) after) |}.
End diff.

(** ** Messages *)

Record Emission := mkEmission {
  em_mappings : TCPRouteMappings;
  em_messages : MessagesToEmit;
  em_changed : bool }.

Definition no_mappings : TCPRouteMappings := mkTCPRouteMappings [] [].
Definition no_messages : MessagesToEmit := mkMessagesToEmit [] [] [] [].
Definition no_emission : Emission := mkEmission no_mappings no_messages false.
Definition Emission_Merge (a b : Emission) : Emission :=
  mkEmission (Mappings_Merge (em_mappings a) (em_mappings b))
    (Messages_Merge (em_messages a) (em_messages b)) (em_changed a || em_changed b).

Definition add_registration (out : TCPRouteMappings * MessagesToEmit) (m : Message)
    : TCPRouteMappings * MessagesToEmit :=
  match m with
  | HTTPMessage m => (out.1, Messages_Merge out.2 (mkMessagesToEmit [m] [] [] []))
  | TCPMessage m => (Mappings_Merge out.1 (mkTCPRouteMappings [m] []), out.2)
  | InternalMessage m => (out.1, Messages_Merge out.2 (mkMessagesToEmit [] [] [m] []))
  end.
Definition add_unregistration (out : TCPRouteMappings * MessagesToEmit) (m : Message)
    : TCPRouteMappings * MessagesToEmit :=
  match m with
  | HTTPMessage m => (out.1, Messages_Merge out.2 (mkMessagesToEmit [] [m] [] []))
  | TCPMessage m => (Mappings_Merge out.1 (mkTCPRouteMappings [] [m]), out.2)
  | InternalMessage m => (out.1, Messages_Merge out.2 (mkMessagesToEmit [] [] [] [m]))
  end.

(** The nested maps that remove duplicates, from a hash and then an endpoint to
    some metadata, are maps on pairs; an order of the nested ranges is one of
    the orders of the pairs. *)
Abbreviation PairMap M := (gmap (RHash * Endpoint) M).

Section messages.
Context `{RouteJson, !RangeAt EndpointKey, !RangeAt RHash, !RangeAt (RHash * Endpoint)}.

(** The first metadata of a pair is kept. *)
Definition note {M} (metadata : routeMapping -> M) (m : PairMap M) (re : routeMapping * Endpoint) : PairMap M :=
  let '(route, container) := re in
  match m !! (Hash route, container) with
  | Some _ => m
  | None => <[(Hash route, container) := metadata route]> m
  end.

Definition route_pairs (t : list nat) (routes : list routeMapping) (endpoints : gmap EndpointKey Endpoint)
    : list (routeMapping * Endpoint) :=
  mjoin (imap (fun i r => (fun ke => (r, ke.2)) <$> range_at (slot t i) endpoints) routes).

Definition endpoint_pairs (t : list nat) (endpoints : gmap EndpointKey Endpoint) (routes : list routeMapping)
    : list (routeMapping * Endpoint) :=
  mjoin ((fun ke => (fun r => (r, ke.2)) <$> routes) <$> range_at t endpoints).

Definition unregistrations (t : list nat) (rd : routesDiff) (ed : endpointsDiff) : PairMap routeMapping :=
  foldl (note id) (foldl (note id) ∅ (route_pairs (slot t 0) (rd_removed rd) (ed_before ed)))
    (endpoint_pairs (slot t 1) (ed_removed ed) (rd_before rd)).

(** The metadata of a registration: [emitEndpointUpdatedAt] and the route. *)
Definition registrations (t : list nat) (rd : routesDiff) (ed : endpointsDiff) : PairMap (bool * routeMapping) :=
  foldl (note (pair true))
    (foldl (note (pair false)) ∅ (route_pairs (slot t 2) (rd_added rd) (ed_after ed)))
    (endpoint_pairs (slot t 3) (ed_added ed) (rd_after rd)).

Definition messages (cfg : TableConfig) (t : list nat) (rd : routesDiff) (ed : endpointsDiff)
    : TCPRouteMappings * MessagesToEmit :=
  let out :=
    foldl (fun out '((_, e), (emitEndpointUpdatedAt, route)) =>
      add_registration out (MessageFor route e (directInstanceRoute cfg) emitEndpointUpdatedAt))
      (no_mappings, no_messages) (range_at (slot t 4) (registrations t rd ed)) in
  foldl (fun out '((_, e), route) =>
    add_unregistration out (MessageFor route e (directInstanceRoute cfg) false))
    out (range_at (slot t 5) (unregistrations t rd ed)).

Definition emitDiffMessages (cfg : TableConfig) (t : list nat) (oldEntry newEntry : RoutableEndpoints) : Emission :=
  let rd := diffRoutes (slot t 0) (re_Routes oldEntry) (re_Routes newEntry) in
  let ed := diffEndpoints (slot t 1) (re_Endpoints oldEntry) (re_Endpoints newEntry) in
  let changed :=
    bool_decide (rd_added rd <> []) || bool_decide (rd_removed rd <> []) ||
    bool_decide (ed_added ed <> ∅) || bool_decide (ed_removed ed <> ∅) in
  let '(mappings, messages) := messages cfg (slot t 2) rd ed in
  mkEmission mappings messages changed.
End messages.

(** ** Operations *)

Section operations.
Context `{RouteJson, !RangeAt EndpointKey, !RangeAt RHash, !RangeAt (RHash * Endpoint), !RangeAt RoutingKey}.
Context (cfg : TableConfig).

Definition addressGenerator (endpoint : Endpoint) : Address :=
  if IsDirectInstanceRoute endpoint (directInstanceRoute cfg)
  then mkAddress (e_ContainerIP endpoint) (e_ContainerPort endpoint)
  else mkAddress (e_Host endpoint) (e_Port endpoint).

Definition note_address (T : internalRoutingTable) (endpoint : Endpoint) : internalRoutingTable :=
  let address := addressGenerator endpoint in
  let collision :=
    match irt_addressEntries T !! address with
    | Some existing => bool_decide (ek_InstanceGUID existing <> e_InstanceGUID endpoint)
    | None => false
    end in
  mkTable (irt_entries T) (<[address := Endpoint_key endpoint]> (irt_addressEntries T))
    (if collision then S (irt_collisions T) else irt_collisions T).

Definition add_endpoint (guid : string) (t : list nat) (st : internalRoutingTable * Emission)
    (routingEndpoint : Endpoint) : internalRoutingTable * Emission :=
  let '(T, out) := st in
  let key := NewRoutingKey guid (e_ContainerPort routingEndpoint) in
  let currentEntry := entry T key in
  if (0 <? re_DesiredInstances currentEntry)%Z
     && (re_DesiredInstances currentEntry <=? e_Index routingEndpoint)%Z then st
  else if match re_Endpoints currentEntry !! Endpoint_key routingEndpoint with
          | Some currentEndpoint =>
              negb (SucceededBy (Some (e_ModificationTag currentEndpoint)) (e_ModificationTag routingEndpoint))
          | None => false
          end then st
  else
    let newEntry :=
      with_endpoints currentEntry
        (<[Endpoint_key routingEndpoint := routingEndpoint]> (re_Endpoints currentEntry)) in
    (set_entry T key newEntry, Emission_Merge out (emitDiffMessages cfg t currentEntry newEntry)).

Fixpoint each_endpoint (step : list nat -> internalRoutingTable * Emission -> Endpoint -> internalRoutingTable * Emission)
    (t : list nat) (i : nat) (st : internalRoutingTable * Emission) (l : list Endpoint) : internalRoutingTable * Emission :=
  match l with
  | [] => st
  | e :: l => each_endpoint step t (S i) (step (slot t i) st e) l
  end.

Definition AddEndpoint (t : list nat) (T : internalRoutingTable) (actualLRP : ActualLRP)
    : internalRoutingTable * Emission :=
  let endpoints := endpointGenerator cfg actualLRP in
  let T := if suppressAddressCollision cfg then T else foldl note_address T endpoints in
  each_endpoint (add_endpoint (al_ProcessGuid actualLRP)) t 0 (T, no_emission) endpoints.

Definition forget_address (T : internalRoutingTable) (endpoint : Endpoint) : internalRoutingTable :=
  let address := addressGenerator endpoint in
  if match irt_addressEntries T !! address with
     | Some current => bool_decide (ek_InstanceGUID current <> e_InstanceGUID endpoint)
     | None => false
     end then T
  else mkTable (irt_entries T) (delete address (irt_addressEntries T)) (irt_collisions T).

Definition remove_endpoint (guid : string) (t : list nat) (st : internalRoutingTable * Emission)
    (routingEndpoint : Endpoint) : internalRoutingTable * Emission :=
  let '(T, out) := st in
  let key := NewRoutingKey guid (e_ContainerPort routingEndpoint) in
  let currentEntry := entry T key in
  let endpointKey := Endpoint_key routingEndpoint in
  match re_Endpoints currentEntry !! endpointKey with
  | None => st
  | Some currentEndpoint =>
      let current := Some (e_ModificationTag currentEndpoint) in
      let tag := e_ModificationTag routingEndpoint in
      if negb (Tag_Equal current (Some tag)) && negb (SucceededBy current tag) then st
      else
        let newEntry := with_endpoints currentEntry (delete endpointKey (re_Endpoints currentEntry)) in
        (deleteEntryIfEmpty (set_entry T key newEntry) key,
         Emission_Merge out (emitDiffMessages cfg t currentEntry newEntry))
  end.

Definition RemoveEndpoint (t : list nat) (T : internalRoutingTable) (actualLRP : ActualLRP)
    : internalRoutingTable * Emission :=
  let endpoints := endpointGenerator cfg actualLRP in
  let T := if suppressAddressCollision cfg then T else foldl forget_address T endpoints in
  each_endpoint (remove_endpoint (al_ProcessGuid actualLRP)) t 0 (T, no_emission) endpoints.

(** *** The bulk sync *)

Definition has_hash (routes : list routeMapping) (h : RHash) : bool := bool_decide (h ∈ Hash <$> routes).

Definition mergeUnfreshRoutes (before after : RoutableEndpoints) (domains : gset string) : RoutableEndpoints :=
  {| re_Domain := re_Domain before;
     re_Routes :=
       re_Routes after ++
       (if bool_decide (re_Domain before ∈ domains) then []
        else filter (fun oldRoute => has_hash (re_Routes after) (Hash oldRoute) = false) (re_Routes before));
     re_Endpoints := re_Endpoints after;
     re_DesiredInstances := re_DesiredInstances after;
     re_ModificationTag := re_ModificationTag after |}.

(** One key of the loop of [Swap]: the other table is updated in place. *)
Definition swap_key (T : internalRoutingTable) (domains : gset string) (t : list nat)
    (st : internalRoutingTable * Emission) (key : RoutingKey) : internalRoutingTable * Emission :=
  let '(other, out) := st in
  let newEntry := entry other key in
  match irt_entries T !! key with
  | None => (other, Emission_Merge out (emitDiffMessages cfg t no_entry newEntry))
  | Some existingEntry =>
      let merged := mergeUnfreshRoutes existingEntry newEntry domains in
      (deleteEntryIfEmpty (set_entry other key merged) key,
       Emission_Merge out (emitDiffMessages cfg t existingEntry merged))
  end.

Fixpoint swap_keys (T : internalRoutingTable) (domains : gset string) (t : list nat) (i : nat)
    (st : internalRoutingTable * Emission) (keys : list RoutingKey) : internalRoutingTable * Emission :=
  match keys with
  | [] => st
  | key :: keys => swap_keys T domains t (S i) (swap_key T domains (slot t i) st key) keys
  end.

Definition merged_keys (T other : internalRoutingTable) : gmap RoutingKey () :=
  ((fun _ => ()) <$> irt_entries other) ∪ ((fun _ => ()) <$> irt_entries T).

Definition Swap (t : list nat) (T other : internalRoutingTable) (domains : gset string)
    : internalRoutingTable * Emission :=
  let '(final, out) :=
    swap_keys T domains t 1 (other, no_emission) (fst <$> range_at (slot t 0) (merged_keys T other)) in
  (mkTable (irt_entries final) (irt_addressEntries other) (irt_collisions T), out).

Definition GetRoutingEvents (t : list nat) (T : internalRoutingTable) : Emission :=
  foldr Emission_Merge no_emission
    (imap (fun i ke => emitDiffMessages cfg (slot t (S i)) no_entry ke.2) (range_at (slot t 0) (irt_entries T))).

(** *** Routes of a desired LRP

    [None] is a panic: a modification tag that is compared with is nil. *)

Definition scaled_down (before : option DesiredLRP) (after : DesiredLRP) : bool :=
  match before with Some before => (dl_Instances after <? dl_Instances before)%Z | None => false end.

Definition set_routes (before after : option DesiredLRP) (t : list nat) (st : internalRoutingTable * Emission)
    (kr : RoutingKey * list routeMapping) : option (internalRoutingTable * Emission) :=
  let '(T, out) := st in
  let '(key, routes) := kr in
  let currentEntry := entry T key in
  after ← after;
  newer ← SucceededBy_ptr (re_ModificationTag currentEntry) (dl_ModificationTag after);
  if negb newer then Some st
  else
    let newEndpoints :=
      if scaled_down before after
      then filter (fun ke => (e_Index ke.2 < dl_Instances after)%Z) (re_Endpoints currentEntry)
      else re_Endpoints currentEntry in
    let newEntry :=
      mkRoutableEndpoints (dl_Domain after) routes newEndpoints (dl_Instances after)
        (dl_ModificationTag after) in
    Some (set_entry T key newEntry, Emission_Merge out (emitDiffMessages cfg t currentEntry newEntry)).

Definition unset_routes (before after : option DesiredLRP) (routeEntries : gmap RoutingKey (list routeMapping))
    (t : list nat) (st : internalRoutingTable * Emission) (kr : RoutingKey * list routeMapping)
    : option (internalRoutingTable * Emission) :=
  let '(T, out) := st in
  let '(key, _) := kr in
  match routeEntries !! key with
  | Some _ => Some st
  | None =>
      let currentEntry := entry T key in
      newer ← match after with
              | None =>
                  before ← before;
                  if Tag_Equal (re_ModificationTag currentEntry) (dl_ModificationTag before) then Some true
                  else SucceededBy_ptr (re_ModificationTag currentEntry) (dl_ModificationTag before)
              | Some after => SucceededBy_ptr (re_ModificationTag currentEntry) (dl_ModificationTag after)
              end;
      if negb newer then Some st
      else
        let newEntry :=
          match after with
          | None => with_routes currentEntry []
          | Some after =>
              mkRoutableEndpoints (dl_Domain after) [] (re_Endpoints currentEntry) (dl_Instances after)
                (dl_ModificationTag after)
          end in
        Some (deleteEntryIfEmpty (set_entry T key newEntry) key,
              Emission_Merge out (emitDiffMessages cfg t currentEntry newEntry))
  end.

Fixpoint each_entry
    (step : list nat -> internalRoutingTable * Emission -> RoutingKey * list routeMapping ->
            option (internalRoutingTable * Emission))
    (t : list nat) (i : nat) (st : internalRoutingTable * Emission) (l : list (RoutingKey * list routeMapping))
    : option (internalRoutingTable * Emission) :=
  match l with
  | [] => Some st
  | kr :: l => st ← step (slot t i) st kr; each_entry step t (S i) st l
  end.

Definition SetRoutes (t : list nat) (T : internalRoutingTable) (before after : option DesiredLRP)
    : option (internalRoutingTable * Emission) :=
  let removedRouteEntries := routesGenerator cfg before in
  let routeEntries := routesGenerator cfg after in
  st ← each_entry (set_routes before after) (slot t 0) 1 (T, no_emission)
         (range_at (slot (slot t 0) 0) routeEntries);
  each_entry (unset_routes before after routeEntries) (slot t 1) 1 st
    (range_at (slot (slot t 1) 0) removedRouteEntries).

Definition RemoveRoutes (t : list nat) (T : internalRoutingTable) (desiredLRP : option DesiredLRP)
    : option (internalRoutingTable * Emission) := SetRoutes t T desiredLRP None.

(** *** Queries *)

Definition AssociationsCount (t : list nat) (T : internalRoutingTable) : Z :=
  foldl (fun count ke =>
    (count + Z.of_nat (length (re_Routes ke.2)) * Z.of_nat (size (re_Endpoints ke.2)))%Z)
    0%Z (range_at t (irt_entries T)).

Definition TableSize (T : internalRoutingTable) : nat := size (irt_entries T).

Definition HasExternalRoutes (T : internalRoutingTable) (actualLRP : ActualLRP) : option bool :=
  keys ← NewRoutingKeysFromActual actualLRP;
  Some (existsb (fun key => negb (bool_decide (re_Routes (entry T key) = []))) keys).
End operations.

(** ** The three tables *)

Section routes_from.
Context `{RouteJson}.

Definition append_routes (m : gmap RoutingKey (list routeMapping)) (key : RoutingKey) (l : list routeMapping)
    : gmap RoutingKey (list routeMapping) :=
  <[key := default [] (m !! key) ++ l]> m.

Definition http_routes (lrp : DesiredLRP) (route : CFRoute) : list routeMapping :=
  (fun hostname =>
     HTTP {| rt_Hostname := hostname; rt_LogGUID := dl_LogGuid lrp;
             rt_RouteServiceUrl := cf_RouteServiceUrl route;
             rt_IsolationSegment := cf_IsolationSegment route;
             rt_MetricTags := dl_MetricTags lrp; rt_Protocol := cf_Protocol route;
             rt_Options := cf_Options route |}) <$> cf_Hostnames route.

Definition httpRoutesFrom (lrp : option DesiredLRP) : gmap RoutingKey (list routeMapping) :=
  match lrp with
  | None => ∅
  | Some lrp =>
      match dl_Routes lrp with
      | None => ∅
      | Some info =>
          foldl (fun m route =>
            append_routes m (NewRoutingKey (dl_ProcessGuid lrp) (cf_Port route)) (http_routes lrp route))
            ∅ (CFRoutesFromRoutingInfo info).1
      end
  end.

Definition tcp_route (tlsEnabled : bool) (route : TCPRoute) : routeMapping :=
  TCP {| ei_RouterGroupGUID := tr_RouterGroupGuid route; ei_Port := tr_ExternalPort route;
         ei_TLSEnabled := tlsEnabled; ei_SniHostname := default "" (tr_SniHostname route);
         ei_TerminateFrontendTLS := tr_TerminateFrontendTLS route;
         ei_EnableBackendMTLS := tr_EnableBackendMTLS route |}.

Definition tcpRoutesFrom (tlsEnabled : bool) (lrp : option DesiredLRP) : gmap RoutingKey (list routeMapping) :=
  match lrp with
  | None => ∅
  | Some lrp =>
      foldl (fun m route =>
        append_routes m (NewRoutingKey (dl_ProcessGuid lrp) (tr_ContainerPort route)) [tcp_route tlsEnabled route])
        ∅ (TCPRoutesFromRoutingInfo (dl_Routes lrp)).1
  end.

Definition internalRoutesFrom (lrp : option DesiredLRP) : gmap RoutingKey (list routeMapping) :=
  match lrp with
  | None => ∅
  | Some lrp =>
      match dl_Routes lrp with
      | None => ∅
      | Some info =>
          foldl (fun m hostname =>
            append_routes m (NewRoutingKey (dl_ProcessGuid lrp) 0)
              [Internal (mkInternalRoute hostname "" (dl_LogGuid lrp))])
            ∅ (InternalRoutesFromRoutingInfo info).1
      end
  end.

Definition http_config (direct : bool) : TableConfig :=
  mkTableConfig NewEndpointsFromActual httpRoutesFrom direct false.
Definition tcp_config (direct tlsEnabled : bool) : TableConfig :=
  mkTableConfig NewEndpointsFromActual (tcpRoutesFrom tlsEnabled) direct true.
Definition internal_config (direct : bool) : TableConfig :=
  mkTableConfig internalEndpointsFromActualLRP internalRoutesFrom direct true.
End routes_from.

Record routingTable := mkRoutingTable {
  tcpRoutesRoutingTable : internalRoutingTable;
  httpRoutesRoutingTable : internalRoutingTable;
  internalRoutesRoutingTable : internalRoutingTable }.

Definition NewRoutingTable : routingTable := mkRoutingTable empty_table empty_table empty_table.

Section routing_table.
Context `{RouteJson, !RangeAt EndpointKey, !RangeAt RHash, !RangeAt (RHash * Endpoint), !RangeAt RoutingKey}.
Context (direct tlsEnabled : bool).

Abbreviation http := (http_config direct).
Abbreviation tcp := (tcp_config direct tlsEnabled).
Abbreviation internal := (internal_config direct).

(** The results of the three tables: HTTP first, then TCP, then internal. *)
Definition all_tables (h t i : internalRoutingTable * Emission) : routingTable * (TCPRouteMappings * MessagesToEmit) :=
  let out := Emission_Merge (Emission_Merge h.2 t.2) i.2 in
  (mkRoutingTable t.1 h.1 i.1, (em_mappings out, em_messages out)).

Definition routingTable_AddEndpoint (t : list nat) (T : routingTable) (lrp : ActualLRP)
    : routingTable * (TCPRouteMappings * MessagesToEmit) :=
  all_tables (AddEndpoint http (slot t 0) (httpRoutesRoutingTable T) lrp)
    (AddEndpoint tcp (slot t 1) (tcpRoutesRoutingTable T) lrp)
    (AddEndpoint internal (slot t 2) (internalRoutesRoutingTable T) lrp).

Definition routingTable_RemoveEndpoint (t : list nat) (T : routingTable) (lrp : ActualLRP)
    : routingTable * (TCPRouteMappings * MessagesToEmit) :=
  all_tables (RemoveEndpoint http (slot t 0) (httpRoutesRoutingTable T) lrp)
    (RemoveEndpoint tcp (slot t 1) (tcpRoutesRoutingTable T) lrp)
    (RemoveEndpoint internal (slot t 2) (internalRoutesRoutingTable T) lrp).

Definition routingTable_Swap (t : list nat) (T other : routingTable) (domains : gset string)
    : routingTable * (TCPRouteMappings * MessagesToEmit) :=
  all_tables (Swap http (slot t 0) (httpRoutesRoutingTable T) (httpRoutesRoutingTable other) domains)
    (Swap tcp (slot t 1) (tcpRoutesRoutingTable T) (tcpRoutesRoutingTable other) domains)
    (Swap internal (slot t 2) (internalRoutesRoutingTable T) (internalRoutesRoutingTable other) domains).

Definition routingTable_SetRoutes (t : list nat) (T : routingTable) (before after : option DesiredLRP)
    : option (routingTable * (TCPRouteMappings * MessagesToEmit)) :=
  h ← SetRoutes http (slot t 0) (httpRoutesRoutingTable T) before after;
  c ← SetRoutes tcp (slot t 1) (tcpRoutesRoutingTable T) before after;
  i ← SetRoutes internal (slot t 2) (internalRoutesRoutingTable T) before after;
  Some (all_tables h c i).

Definition routingTable_RemoveRoutes (t : list nat) (T : routingTable) (desiredLRP : option DesiredLRP)
    : option (routingTable * (TCPRouteMappings * MessagesToEmit)) :=
  h ← RemoveRoutes http (slot t 0) (httpRoutesRoutingTable T) desiredLRP;
  c ← RemoveRoutes tcp (slot t 1) (tcpRoutesRoutingTable T) desiredLRP;
  i ← RemoveRoutes internal (slot t 2) (internalRoutesRoutingTable T) desiredLRP;
  Some (all_tables h c i).

Definition GetExternalRoutingEvents (t : list nat) (T : routingTable) : TCPRouteMappings * MessagesToEmit :=
  let out := Emission_Merge (GetRoutingEvents http (slot t 0) (httpRoutesRoutingTable T))
               (GetRoutingEvents tcp (slot t 1) (tcpRoutesRoutingTable T)) in
  (em_mappings out, em_messages out).

Definition GetInternalRoutingEvents (t : list nat) (T : routingTable) : TCPRouteMappings * MessagesToEmit :=
  let out := GetRoutingEvents internal t (internalRoutesRoutingTable T) in
  (em_mappings out, em_messages out).

Definition HTTPAssociationsCount (t : list nat) (T : routingTable) : Z := AssociationsCount t (httpRoutesRoutingTable T).
Definition TCPAssociationsCount (t : list nat) (T : routingTable) : Z := AssociationsCount t (tcpRoutesRoutingTable T).
Definition InternalAssociationsCount (t : list nat) (T : routingTable) : Z :=
  (2 * AssociationsCount t (internalRoutesRoutingTable T))%Z.
Definition routingTable_TableSize (T : routingTable) : nat :=
  TableSize (httpRoutesRoutingTable T) + TableSize (tcpRoutesRoutingTable T)
  + TableSize (internalRoutesRoutingTable T).

Definition routingTable_HasExternalRoutes (T : routingTable) (lrp : ActualLRP) : option bool :=
  h ← HasExternalRoutes (httpRoutesRoutingTable T) lrp;
  if (h : bool) then Some true else HasExternalRoutes (tcpRoutesRoutingTable T) lrp.
End routing_table.
