(* ===== verification/RoutingProps.v ===== *)
(** * What the routing table emits

    A router that has registered exactly what an entry advertises and then
    applies the registrations and unregistrations of a change, in either order,
    has registered exactly what the new entry advertises.  From this: routers
    stay in step with the tables through any sequence of events, and what the
    bulk sync does with the routes of a domain that is not fresh. *)
From Stdlib Require Import ZArith Lia.
From S2P Require Import Prelude GoStd Routes RoutingTable.

(** ** What an entry advertises *)

(** The endpoint up to the fields that [endpointDifferent] ignores. *)
Definition norm (e : Endpoint) : Endpoint :=
  mkEndpoint (e_InstanceGUID e) (e_Index e) (e_Host e) (e_ContainerIP e) (e_ContainerIPv6 e)
    (e_Port e) (e_ContainerPort e) (e_TlsProxyPort e) (e_ContainerTlsProxyPort e) 0
    (e_IsolationSegment e) 0 (mkTag "" 0) (e_PreferredAddress e) (e_AvailabilityZone e).

(** Every route with every endpoint. *)
Definition advertised (entry : RoutableEndpoints) : gset (RHash * Endpoint) :=
  list_to_set (r ← re_Routes entry; (fun ke => (Hash r, norm ke.2)) <$> map_to_list (re_Endpoints entry)).

(** The pairs a map of registrations or unregistrations is about. *)
Definition pairs_of {M} (m : PairMap M) : gset (RHash * Endpoint) :=
  set_map (fun p => (p.1, norm p.2)) (dom m).

(** The endpoints of a map are under their own keys. *)
Definition keyed (m : gmap EndpointKey Endpoint) : Prop := map_Forall (fun k e => Endpoint_key e = k) m.

(** An instance that is known under both presences has one address, whatever
    the presence. *)
Definition steady (before after : gmap EndpointKey Endpoint) : Prop :=
  forall guid,
    (forall e e', e_InstanceGUID e = guid -> e_InstanceGUID e' = guid ->
       (exists k, before !! k = Some e \/ after !! k = Some e) ->
       (exists k, before !! k = Some e' \/ after !! k = Some e') -> norm e = norm e') \/
    (exists evacuating, forall k e, before !! k = Some e \/ after !! k = Some e ->
       ek_InstanceGUID k = guid -> ek_Evacuating k = evacuating).

Lemma endpointDifferent_norm a b : endpointDifferent a b = bool_decide (norm a <> norm b).
Proof.
  unfold endpointDifferent. apply bool_decide_ext. destruct a, b. unfold norm. simpl.
  split; intros Hne Heq; apply Hne; injection Heq; intros; by subst.
Qed.

Lemma twin_twin k : twin (twin k) = k.
Proof. destruct k as [g b]. unfold twin. simpl. by rewrite negb_involutive. Qed.

Lemma twin_neq k : twin k <> k.
Proof. destruct k as [g []]; unfold twin; simpl; congruence. Qed.

Lemma same_guid k k' : ek_InstanceGUID k = ek_InstanceGUID k' -> k' = k \/ k' = twin k.
Proof. destruct k as [g []], k' as [g' []]; unfold twin; simpl; intros ->; auto. Qed.

Lemma elem_of_advertised entry h n :
  (h, n) ∈ advertised entry <->
  h ∈ (Hash <$> re_Routes entry) /\ exists k e, re_Endpoints entry !! k = Some e /\ norm e = n.
Proof.
  unfold advertised. rewrite elem_of_list_to_set, list_elem_of_bind, list_elem_of_fmap. split.
  - intros (r & Hp & Hr). apply list_elem_of_fmap in Hp as ([k e] & [= -> ->] & Hke).
    apply elem_of_map_to_list in Hke. split; [by exists r|by exists k, e].
  - intros [(r & -> & Hr) (k & e & Hke & <-)]. exists r. split; [|done].
    apply list_elem_of_fmap. exists (k, e). split; [done|by apply elem_of_map_to_list].
Qed.

Section diff_facts.
Context `{RouteJson, !RangeAt EndpointKey, !RangeAt RHash, !RangeAt (RHash * Endpoint)}.

(** *** Routes *)

Lemma by_hash_foldl (m : gmap RHash routeMapping) l h :
  foldl (fun m r => <[Hash r := r]> m) m l !! h =
  match last (filter (fun r => Hash r = h) l) with Some r => Some r | None => m !! h end.
Proof.
  induction l as [|r l IH] using rev_ind; [done|].
  rewrite foldl_app, filter_app. simpl. rewrite lookup_insert. case_decide as Hr.
  - rewrite filter_cons_True by done. rewrite filter_nil. by rewrite last_snoc.
  - rewrite filter_cons_False by done. rewrite filter_nil, app_nil_r. exact IH.
Qed.

Lemma by_hash_Some l h r : by_hash l !! h = Some r -> r ∈ l /\ Hash r = h.
Proof.
  unfold by_hash. rewrite by_hash_foldl. destruct (last _) eqn:El; [|by rewrite lookup_empty].
  intros [= ->]. apply last_Some_elem_of, list_elem_of_filter in El. tauto.
Qed.

Lemma by_hash_None l h : by_hash l !! h = None <-> h ∉ (Hash <$> l).
Proof.
  unfold by_hash. rewrite by_hash_foldl. rewrite list_elem_of_fmap.
  destruct (last _) as [r|] eqn:El.
  - apply last_Some_elem_of, list_elem_of_filter in El as [<- Hr]. split; [done|].
    intros Hn. destruct Hn. by exists r.
  - rewrite lookup_empty. split; [|done]. intros _ (r & -> & Hr).
    apply last_None in El. apply (not_elem_of_nil r). rewrite <- El. by apply list_elem_of_filter.
Qed.

Lemma removed_route t before after r :
  r ∈ rd_removed (diffRoutes t before after) -> Hash r ∈ (Hash <$> before) /\ Hash r ∉ (Hash <$> after).
Proof.
  simpl. rewrite list_elem_of_omap. intros ([h r'] & Hin & Hm). apply elem_of_range in Hin.
  apply by_hash_Some in Hin as [Hin <-]. destruct (by_hash after !! _) eqn:Ha; [done|].
  simplify_eq. split; [by apply list_elem_of_fmap_2|by apply by_hash_None].
Qed.

Lemma removed_route_complete t before after h :
  h ∈ (Hash <$> before) -> h ∉ (Hash <$> after) ->
  exists r, r ∈ rd_removed (diffRoutes t before after) /\ Hash r = h.
Proof.
  intros Hb Ha%by_hash_None. destruct (by_hash before !! h) as [r|] eqn:E.
  - pose proof (by_hash_Some _ _ _ E) as [_ Hh]. exists r. split; [|done]. simpl.
    apply list_elem_of_omap. exists (h, r). split; [by apply elem_of_range|]. by rewrite Ha.
  - by apply by_hash_None in E.
Qed.

Lemma added_route t before after r :
  r ∈ rd_added (diffRoutes t before after) -> Hash r ∈ (Hash <$> after).
Proof.
  simpl. rewrite list_elem_of_omap. intros ([h r'] & Hin & Hm). apply elem_of_range in Hin.
  apply by_hash_Some in Hin as [Hin <-].
  assert (r = r') as -> by (repeat case_match; congruence). by apply list_elem_of_fmap_2.
Qed.

Lemma added_route_complete t before after h :
  h ∈ (Hash <$> after) -> h ∉ (Hash <$> before) ->
  exists r, r ∈ rd_added (diffRoutes t before after) /\ Hash r = h.
Proof.
  intros Ha Hb%by_hash_None. destruct (by_hash after !! h) as [r|] eqn:E.
  - pose proof (by_hash_Some _ _ _ E) as [_ Hh]. exists r. split; [|done]. simpl.
    apply list_elem_of_omap. exists (h, r). split; [by apply elem_of_range|]. by rewrite Hb.
  - by apply by_hash_None in E.
Qed.

(** *** Endpoints *)

(** The key the loop of [diffEndpoints] looks up last, and stores under. *)
Definition stored (other : gmap EndpointKey Endpoint) (k : EndpointKey) : EndpointKey :=
  match other !! k with Some _ => k | None => twin k end.

Definition is_missing (other : gmap EndpointKey Endpoint) (k : EndpointKey) (e : Endpoint) : Prop :=
  forall o, other !! stored other k = Some o -> norm o <> norm e.

Definition norm_differs (differs : Endpoint -> Endpoint -> bool) : Prop :=
  forall o e, differs o e = bool_decide (norm o <> norm e).

Lemma missing_step_insert differs other M k e :
  norm_differs differs -> is_missing other k e -> missing_step differs other M (k, e) = <[stored other k := e]> M.
Proof.
  unfold is_missing, stored, missing_step. intros Hd Hm. destruct (other !! k) as [o|] eqn:E.
  - rewrite Hd, bool_decide_true; [done|]. by apply Hm.
  - destruct (other !! twin k) as [o|] eqn:E'; [|done]. rewrite Hd, bool_decide_true; [done|]. by apply Hm.
Qed.

Lemma missing_step_skip differs other M k e :
  norm_differs differs -> ~ is_missing other k e -> missing_step differs other M (k, e) = M.
Proof.
  unfold is_missing, stored, missing_step. intros Hd Hm. destruct (other !! k) as [o|] eqn:E.
  - rewrite Hd, bool_decide_false; [done|]. intros Hn. apply Hm. intros o' [= <-]%(eq_trans (eq_sym E)). done.
  - destruct (other !! twin k) as [o|] eqn:E'.
    + rewrite Hd, bool_decide_false; [done|]. intros Hn. apply Hm. congruence.
    + destruct Hm. congruence.
Qed.

#[local] Arguments missing_step : simpl never.
#[local] Instance is_missing_dec other k e : Decision (is_missing other k e).
Proof.
  unfold is_missing. destruct (other !! stored other k) as [o|].
  - destruct (decide (norm o = norm e)) as [Heq|Hne]; [right; intros Hf; by apply (Hf o)|left].
    by intros o' [= <-].
  - by left.
Defined.

Lemma stored_inj other k k' : stored other k = stored other k' -> k' = k \/ k' = twin k.
Proof.
  unfold stored. intros H'. repeat case_match; subst; auto; [by rewrite twin_twin; auto|].
  apply (f_equal twin) in H'. rewrite !twin_twin in H'. by left.
Qed.

Section missing.
Context (differs : Endpoint -> Endpoint -> bool) (Hd : norm_differs differs).
Context (other : gmap EndpointKey Endpoint).

Lemma missing_sound l k' e :
  foldl (missing_step differs other) ∅ l !! k' = Some e -> exists k, (k, e) ∈ l /\ is_missing other k e.
Proof.
  induction l as [|[k0 e0] l IH] using rev_ind; [simpl; by rewrite lookup_empty|].
  rewrite foldl_app. simpl. destruct (decide (is_missing other k0 e0)) as [Hm|Hm].
  - rewrite missing_step_insert by done. rewrite lookup_insert. case_decide.
    + intros [= ->]. exists k0. split; [set_solver|done].
    + intros (k & Hk & Hmk)%IH. exists k. split; [set_solver|done].
  - rewrite missing_step_skip by done. intros (k & Hk & Hmk)%IH. exists k. split; [set_solver|done].
Qed.

(** A missing endpoint may be displaced only by the same instance with the
    other presence. *)
Lemma missing_complete l k e :
  (k, e) ∈ l -> is_missing other k e ->
  exists k1 k' e', foldl (missing_step differs other) ∅ l !! k' = Some e' /\ (k1, e') ∈ l /\
    (k1 = k \/ k1 = twin k).
Proof.
  intros Hin Hm.
  enough (exists k1 e', foldl (missing_step differs other) ∅ l !! stored other k = Some e' /\
            (k1, e') ∈ l /\ (k1 = k \/ k1 = twin k)) as (k1 & e' & ?) by eauto.
  induction l as [|[k0 e0] l IH] using rev_ind; [set_solver|].
  rewrite foldl_app. simpl. destruct (decide (is_missing other k0 e0)) as [Hm0|Hm0].
  - rewrite missing_step_insert by done. destruct (decide (stored other k0 = stored other k)) as [Heq|Hne].
    + exists k0, e0. rewrite Heq, lookup_insert_eq. split_and!; [done|apply elem_of_app; right; by left|].
      symmetry in Heq. by apply stored_inj in Heq.
    + rewrite lookup_insert_ne by done. apply elem_of_app in Hin as [Hin|Hin].
      * destruct (IH Hin) as (k1 & e' & ? & ? & ?). exists k1, e'. split_and!; [done|by apply elem_of_app; auto|done].
      * apply list_elem_of_singleton in Hin. by simplify_eq.
  - rewrite missing_step_skip by done. apply elem_of_app in Hin as [Hin|Hin].
    + destruct (IH Hin) as (k1 & e' & ? & ? & ?). exists k1, e'. split_and!; [done|by apply elem_of_app; auto|done].
    + apply list_elem_of_singleton in Hin. by simplify_eq.
Qed.
End missing.

(** Under [steady], an endpoint is missing exactly when nothing the other map
    holds is the same endpoint. *)
Lemma missing_absent m other k e k' e' :
  keyed m -> keyed other -> steady m other -> m !! k = Some e -> is_missing other k e ->
  other !! k' = Some e' -> norm e' <> norm e.
Proof.
  intros Hkm Hko Hs Hk Hm Hk' Heq.
  pose proof (Hkm _ _ Hk) as Hke. pose proof (Hko _ _ Hk') as Hke'. simpl in Hke, Hke'.
  assert (e_InstanceGUID e' = e_InstanceGUID e) as Hg by (by apply (f_equal e_InstanceGUID) in Heq).
  destruct (same_guid k k') as [-> | ->]; [by rewrite <- Hke, <- Hke'|..].
  - apply (Hm e'); [|done]. unfold stored. by rewrite Hk'.
  - destruct (other !! k) as [o|] eqn:Eo.
    + destruct (Hs (e_InstanceGUID e)) as [Hag|(b & Hb)].
      * apply (Hm o); [unfold stored; by rewrite Eo|].
        pose proof (Hko _ _ Eo) as Hkeo. simpl in Hkeo. apply Hag; eauto.
        by rewrite <- Hke in Hkeo; injection Hkeo.
      * rewrite <- Hke in Hk', Hk. pose proof (Hb _ _ (or_introl Hk) eq_refl) as H1.
        pose proof (Hb _ _ (or_intror Hk') eq_refl) as H2.
        simpl in H1, H2. rewrite <- H1 in H2. by destruct (bool_decide _).
    + apply (Hm e'); [|done]. unfold stored. by rewrite Eo.
Qed.

Lemma not_missing_present other k e :
  ~ is_missing other k e -> exists k' e', other !! k' = Some e' /\ norm e' = norm e.
Proof.
  unfold is_missing. intros Hm. destruct (other !! stored other k) as [o|] eqn:E; [|destruct Hm; congruence].
  exists (stored other k), o. split; [done|]. destruct (decide (norm o = norm e)); [done|].
  destruct Hm. congruence.
Qed.

(** The displaced endpoint is the same one. *)
Lemma missing_same m other k e k1 e' :
  keyed m -> steady m other -> m !! k = Some e -> m !! k1 = Some e' -> k1 = k \/ k1 = twin k ->
  norm e' = norm e.
Proof.
  intros Hkm Hs Hk Hk1 [->|Hk1t]; [congruence|]. subst k1.
  pose proof (Hkm _ _ Hk) as Hke. pose proof (Hkm _ _ Hk1) as Hke'. simpl in Hke, Hke'.
  destruct (Hs (e_InstanceGUID e)) as [Hag|(b & Hb)].
  - apply Hag; eauto. rewrite <- Hke in Hke'. by injection Hke'.
  - pose proof (Hb _ _ (or_introl Hk)) as H1. pose proof (Hb _ _ (or_introl Hk1)) as H2.
    subst k. simpl in H1, H2. rewrite <- H1 in H2 by done. specialize (H2 eq_refl).
    by destruct (bool_decide _).
Qed.

Lemma steady_sym m other : steady m other -> steady other m.
Proof. intros Hs g. destruct (Hs g) as [Hag|(b & Hb)]; [left|right; exists b]; naive_solver. Qed.

Lemma missing_fold t differs m other :
  norm_differs differs -> keyed m -> keyed other -> steady m other ->
  let missing := foldl (missing_step differs other) ∅ (range_at t m) in
  (forall k' e, missing !! k' = Some e ->
     (exists k, m !! k = Some e) /\ forall k e', other !! k = Some e' -> norm e' <> norm e) /\
  (forall k e, m !! k = Some e -> (forall k' e', other !! k' = Some e' -> norm e' <> norm e) ->
     exists k' e', missing !! k' = Some e' /\ norm e' = norm e).
Proof.
  intros Hd Hkm Hko Hs. split.
  - intros k' e (k & Hk & Hm)%(missing_sound differs Hd). apply elem_of_range in Hk.
    split; [eauto|]. intros k1 e1 He1. by eapply (missing_absent m other).
  - intros k e Hk Hno. destruct (missing_complete differs Hd other (range_at t m) k e) as (k1 & k' & e' & Hf & Hin & Hk1).
    + by apply elem_of_range.
    + intros o Ho. by eapply Hno.
    + apply elem_of_range in Hin. exists k', e'. split; [done|]. by eapply (missing_same m other).
Qed.

(** *** Pairs *)

Lemma dom_note {M} (f : routeMapping -> M) m l p :
  p ∈ dom (foldl (note f) m l) <-> p ∈ dom m \/ exists r e, (r, e) ∈ l /\ p = (Hash r, e).
Proof.
  revert m. induction l as [|[r e] l IH]; intros m; [set_solver|]. simpl. rewrite IH. unfold note.
  destruct (m !! (Hash r, e)) eqn:E.
  - apply elem_of_dom_2 in E. split; [intros [?|(r' & e' & ? & ?)]|intros [?|(r' & e' & [?|?]%elem_of_cons & ?)]];
      simplify_eq; eauto; right; exists r', e'; split; [by right|done].
  - rewrite dom_insert, elem_of_union, elem_of_singleton.
    split; [intros [[->|?]|(r' & e' & ? & ?)]|intros [?|(r' & e' & [?|?]%elem_of_cons & ?)]];
      simplify_eq; eauto; right; eexists _, _; (split; [|done]); [by left|by right].
Qed.

Lemma elem_of_route_pairs t routes endpoints r e :
  (r, e) ∈ route_pairs t routes endpoints <-> r ∈ routes /\ exists k, endpoints !! k = Some e.
Proof.
  unfold route_pairs. rewrite list_elem_of_join. split.
  - intros (l & Hin & Hl). apply elem_of_lookup_imap in Hl as (i & r' & -> & Hr).
    apply list_elem_of_fmap in Hin as ([k e'] & [= -> ->] & Hke). apply elem_of_range in Hke.
    split; [by eapply list_elem_of_lookup_2|eauto].
  - intros [(i & Hi)%list_elem_of_lookup (k & Hk)]. eexists. split; [|apply elem_of_lookup_imap; eauto].
    apply list_elem_of_fmap. exists (k, e). split; [done|by apply elem_of_range].
Qed.

Lemma elem_of_endpoint_pairs t endpoints routes r e :
  (r, e) ∈ endpoint_pairs t endpoints routes <-> r ∈ routes /\ exists k, endpoints !! k = Some e.
Proof.
  unfold endpoint_pairs. rewrite list_elem_of_join. split.
  - intros (l & Hin & ([k e'] & -> & Hke)%list_elem_of_fmap). apply elem_of_range in Hke.
    apply list_elem_of_fmap in Hin as (r' & [= -> ->] & Hr). eauto.
  - intros [Hr (k & Hk)]. eexists. split; [|apply list_elem_of_fmap; exists (k, e); split; [done|by apply elem_of_range]].
    apply list_elem_of_fmap. by exists r.
Qed.

Lemma elem_of_pairs {M} (f g : routeMapping -> M) t t' routes endpoints routes' endpoints' h n :
  (h, n) ∈ pairs_of (foldl (note g) (foldl (note f) ∅ (route_pairs t routes endpoints))
                       (endpoint_pairs t' endpoints' routes')) <->
  (exists r k e, r ∈ routes /\ Hash r = h /\ endpoints !! k = Some e /\ norm e = n) \/
  (exists r k e, r ∈ routes' /\ Hash r = h /\ endpoints' !! k = Some e /\ norm e = n).
Proof.
  unfold pairs_of. rewrite elem_of_map. setoid_rewrite dom_note.
  setoid_rewrite dom_note. setoid_rewrite elem_of_route_pairs. setoid_rewrite elem_of_endpoint_pairs.
  setoid_rewrite dom_empty. split.
  - intros ([h' e] & [= -> ->] & [[[]%elem_of_empty|(r & e' & [Hr (k & Hk)] & [= -> ->])]|(r & e' & [Hr (k & Hk)] & [= -> ->])]);
      [left|right]; by exists r, k, e'.
  - intros [(r & k & e & Hr & <- & Hk & <-)|(r & k & e & Hr & <- & Hk & <-)]; exists (Hash r, e); split; try done.
    + left. right. exists r, e. eauto.
    + right. exists r, e. eauto.
Qed.

(** ** One change *)

(** The pairs a change registers and unregisters. *)
Definition change_diffs (t : list nat) (old new : RoutableEndpoints) : routesDiff * endpointsDiff :=
  (diffRoutes (slot t 0) (re_Routes old) (re_Routes new),
   diffEndpoints (slot t 1) (re_Endpoints old) (re_Endpoints new)).
Definition change_registrations (t : list nat) (old new : RoutableEndpoints) : PairMap (bool * routeMapping) :=
  registrations (slot t 2) (change_diffs t old new).1 (change_diffs t old new).2.
Definition change_unregistrations (t : list nat) (old new : RoutableEndpoints) : PairMap routeMapping :=
  unregistrations (slot t 2) (change_diffs t old new).1 (change_diffs t old new).2.

Section change.
Context (t : list nat) (old new : RoutableEndpoints).
Context (Hold : keyed (re_Endpoints old)) (Hnew : keyed (re_Endpoints new)).
Context (Hsteady : steady (re_Endpoints old) (re_Endpoints new)).

Let rd := diffRoutes (slot t 0) (re_Routes old) (re_Routes new).
Let ed := diffEndpoints (slot t 1) (re_Endpoints old) (re_Endpoints new).
Let registered := pairs_of (change_registrations t old new).
Let unregistered := pairs_of (change_unregistrations t old new).

Lemma removed_endpoints :
  (forall k' e, ed_removed ed !! k' = Some e ->
     (exists k, re_Endpoints old !! k = Some e) /\
     forall k e', re_Endpoints new !! k = Some e' -> norm e' <> norm e) /\
  (forall k e, re_Endpoints old !! k = Some e ->
     (forall k' e', re_Endpoints new !! k' = Some e' -> norm e' <> norm e) ->
     exists k' e', ed_removed ed !! k' = Some e' /\ norm e' = norm e).
Proof. apply missing_fold; [intros ??; apply endpointDifferent_norm|done..]. Qed.

Lemma added_endpoints :
  (forall k' e, ed_added ed !! k' = Some e ->
     (exists k, re_Endpoints new !! k = Some e) /\
     forall k e', re_Endpoints old !! k = Some e' -> norm e' <> norm e) /\
  (forall k e, re_Endpoints new !! k = Some e ->
     (forall k' e', re_Endpoints old !! k' = Some e' -> norm e' <> norm e) ->
     exists k' e', ed_added ed !! k' = Some e' /\ norm e' = norm e).
Proof.
  apply missing_fold; [|done|done|by apply steady_sym].
  intros o e. rewrite endpointDifferent_norm. apply bool_decide_ext. split; congruence.
Qed.

Lemma elem_of_registered h n :
  (h, n) ∈ registered <->
  (exists r k e, r ∈ rd_added rd /\ Hash r = h /\ re_Endpoints new !! k = Some e /\ norm e = n) \/
  (exists r k e, r ∈ re_Routes new /\ Hash r = h /\ ed_added ed !! k = Some e /\ norm e = n).
Proof. apply elem_of_pairs. Qed.

Lemma elem_of_unregistered h n :
  (h, n) ∈ unregistered <->
  (exists r k e, r ∈ rd_removed rd /\ Hash r = h /\ re_Endpoints old !! k = Some e /\ norm e = n) \/
  (exists r k e, r ∈ re_Routes old /\ Hash r = h /\ ed_removed ed !! k = Some e /\ norm e = n).
Proof. apply elem_of_pairs. Qed.

Lemma registered_advertised : registered ⊆ advertised new.
Proof.
  intros [h n]. rewrite elem_of_registered, elem_of_advertised.
  intros [(r & k & e & Hr & <- & Hk & <-)|(r & k & e & Hr & <- & Hk & <-)].
  - split; [by eapply added_route|eauto].
  - apply added_endpoints in Hk as [(k0 & Hk0) _]. split; [by apply list_elem_of_fmap_2|eauto].
Qed.

Lemma unregistered_withdrawn : unregistered ⊆ advertised old ∖ advertised new.
Proof.
  intros [h n]. rewrite elem_of_unregistered, elem_of_difference, !elem_of_advertised.
  intros [(r & k & e & Hr & <- & Hk & <-)|(r & k & e & Hr & <- & Hk & <-)].
  - apply removed_route in Hr as [Hb Ha]. split; [eauto 6|]. tauto.
  - apply removed_endpoints in Hk as [(k0 & Hk0) Hno].
    split; [split; [by apply list_elem_of_fmap_2|eauto]|]. intros (_ & k1 & e1 & Hk1 & He1). by eapply Hno.
Qed.

(** The set of normalised endpoints is decidable, so an endpoint either is in
    the other map or is missing from it. *)
Lemma present_or_missing (m : gmap EndpointKey Endpoint) n :
  (exists k e, m !! k = Some e /\ norm e = n) \/ (forall k e, m !! k = Some e -> norm e <> n).
Proof.
  destruct (decide (n ∈ norm ∘ snd <$> map_to_list m)) as [Hin|Hin].
  - left. apply list_elem_of_fmap in Hin as ([k e] & -> & Hke%elem_of_map_to_list). eauto.
  - right. intros k e Hke <-. apply Hin. apply list_elem_of_fmap. exists (k, e).
    split; [done|by apply elem_of_map_to_list].
Qed.

Lemma new_registered : advertised new ∖ advertised old ⊆ registered.
Proof.
  intros [h n]. rewrite elem_of_difference, !elem_of_advertised. intros [[Hh (k & e & Hk & <-)] Hno].
  apply elem_of_registered. destruct (decide (h ∈ (Hash <$> re_Routes old))) as [Hb|Hb].
  - right. destruct (present_or_missing (re_Endpoints old) (norm e)) as [?|Hmiss]; [by destruct Hno|].
    destruct (proj2 added_endpoints k e Hk Hmiss) as (k' & e' & Hk' & He').
    apply list_elem_of_fmap in Hh as (r & -> & Hr). by exists r, k', e'.
  - left. destruct (added_route_complete (slot t 0) (re_Routes old) (re_Routes new) h Hh Hb) as (r & Hr & <-).
    by exists r, k, e.
Qed.

Lemma withdrawn_unregistered : advertised old ∖ advertised new ⊆ unregistered.
Proof.
  intros [h n]. rewrite elem_of_difference, !elem_of_advertised. intros [[Hh (k & e & Hk & <-)] Hno].
  apply elem_of_unregistered. destruct (decide (h ∈ (Hash <$> re_Routes new))) as [Hb|Hb].
  - right. destruct (present_or_missing (re_Endpoints new) (norm e)) as [?|Hmiss]; [by destruct Hno|].
    destruct (proj2 removed_endpoints k e Hk Hmiss) as (k' & e' & Hk' & He').
    apply list_elem_of_fmap in Hh as (r & -> & Hr). by exists r, k', e'.
  - left. destruct (removed_route_complete (slot t 0) (re_Routes old) (re_Routes new) h Hh Hb) as (r & Hr & <-).
    by exists r, k, e.
Qed.

Lemma change_tracked :
  registered ⊆ advertised new /\ advertised new ∖ advertised old ⊆ registered /\
  unregistered = advertised old ∖ advertised new.
Proof.
  split_and!; [apply registered_advertised|apply new_registered|].
  apply set_eq. intros p. split; [apply unregistered_withdrawn|apply withdrawn_unregistered].
Qed.
End change.

(** *** The messages of a change *)

Definition sent_registrations (em : Emission) : list Message :=
  (HTTPMessage <$> RegistrationMessages (em_messages em)) ++
  (TCPMessage <$> tcp_Registrations (em_mappings em)) ++
  (InternalMessage <$> InternalRegistrationMessages (em_messages em)).

Definition sent_unregistrations (em : Emission) : list Message :=
  (HTTPMessage <$> UnregistrationMessages (em_messages em)) ++
  (TCPMessage <$> tcp_Unregistrations (em_mappings em)) ++
  (InternalMessage <$> InternalUnregistrationMessages (em_messages em)).

Lemma add_registration_sent out m c :
  sent_registrations (mkEmission (add_registration out m).1 (add_registration out m).2 c)
    ≡ₚ sent_registrations (mkEmission out.1 out.2 c) ++ [m] /\
  sent_unregistrations (mkEmission (add_registration out m).1 (add_registration out m).2 c)
    = sent_unregistrations (mkEmission out.1 out.2 c).
Proof.
  destruct out as [[] []], m; unfold sent_registrations, sent_unregistrations; simpl;
    rewrite ?app_nil_r, ?fmap_app; simpl; (split; [solve_Permutation|done]).
Qed.

Lemma add_unregistration_sent out m c :
  sent_registrations (mkEmission (add_unregistration out m).1 (add_unregistration out m).2 c)
    = sent_registrations (mkEmission out.1 out.2 c) /\
  sent_unregistrations (mkEmission (add_unregistration out m).1 (add_unregistration out m).2 c)
    ≡ₚ sent_unregistrations (mkEmission out.1 out.2 c) ++ [m].
Proof.
  destruct out as [[] []], m; unfold sent_registrations, sent_unregistrations; simpl;
    rewrite ?app_nil_r, ?fmap_app; simpl; (split; [done|solve_Permutation]).
Qed.

(** Exactly one message for every registered and every unregistered pair. *)
Lemma change_messages cfg t old new :
  sent_registrations (emitDiffMessages cfg t old new)
    ≡ₚ (fun p : RHash * Endpoint * (bool * routeMapping) =>
          MessageFor p.2.2 p.1.2 (directInstanceRoute cfg) p.2.1) <$> map_to_list (change_registrations t old new) /\
  sent_unregistrations (emitDiffMessages cfg t old new)
    ≡ₚ (fun p : RHash * Endpoint * routeMapping =>
          MessageFor p.2 p.1.2 (directInstanceRoute cfg) false) <$> map_to_list (change_unregistrations t old new).
Proof.
  unfold emitDiffMessages, messages.
  change (registrations _ _ _) with (change_registrations t old new).
  change (unregistrations _ _ _) with (change_unregistrations t old new).
  rewrite <- (range_at_perm _ (slot (slot t 2) 4) (change_registrations t old new)).
  rewrite <- (range_at_perm _ (slot (slot t 2) 5) (change_unregistrations t old new)).
  generalize (range_at (slot (slot t 2) 5) (change_unregistrations t old new)) as lu.
  generalize (range_at (slot (slot t 2) 4) (change_registrations t old new)) as lr.
  intros lr lu. rewrite (surjective_pairing (foldl _ _ lu)).
  match goal with |- context [mkEmission _ _ ?c] => generalize c end. intros c.
  induction lu as [|[[h e] r] lu IH] using rev_ind.
  - simpl. induction lr as [|[[h e] [b r]] lr IH] using rev_ind; [done|].
    rewrite foldl_app, fmap_app. simpl.
    edestruct add_registration_sent as [Hr Hu]. rewrite Hr, Hu. destruct IH as [IH1 IH2]. by rewrite IH1.
  - rewrite foldl_app, fmap_app. simpl.
    edestruct add_unregistration_sent as [Hr Hu]. rewrite Hr, Hu. destruct IH as [IH1 IH2]. by rewrite IH2.
Qed.

(** A change as its messages describe it: what is withdrawn is unregistered and
    nothing else, what is new is registered, and nothing that is not advertised
    is; so a router that holds what the old entry advertises ends up with what
    the new one advertises, whichever kind of message it gets first. *)
Definition tracks (t : list nat) (old new : RoutableEndpoints) : Prop :=
  let registered := pairs_of (change_registrations t old new) in
  let unregistered := pairs_of (change_unregistrations t old new) in
  registered ⊆ advertised new /\
  unregistered = advertised old ∖ advertised new /\
  (advertised old ∖ unregistered) ∪ registered = advertised new /\
  (advertised old ∪ registered) ∖ unregistered = advertised new.

Lemma change_tracks t old new :
  keyed (re_Endpoints old) -> keyed (re_Endpoints new) -> steady (re_Endpoints old) (re_Endpoints new) ->
  tracks t old new.
Proof.
  intros Hold Hnew Hs. destruct (change_tracked t old new Hold Hnew Hs) as (Hr & Ha & Hu).
  unfold tracks. rewrite Hu. split_and!; [done|done|..]; apply set_eq; intros p;
    destruct (decide (p ∈ advertised new)), (decide (p ∈ advertised old));
    specialize (Hr p); specialize (Ha p);
    rewrite ?elem_of_difference, ?elem_of_union in *; rewrite ?elem_of_difference, ?elem_of_union; tauto.
Qed.
End diff_facts.

(** ** Sequences of changes *)

(** A table as the map from keys to entries its operations read. *)
Abbreviation Entries := (RoutingKey -> RoutableEndpoints).

Record Change := mkChange {
  ch_time : list nat;
  ch_key : RoutingKey;
  ch_old : RoutableEndpoints;
  ch_new : RoutableEndpoints }.

(** An entry that was deleted because it is empty advertises as little as the
    empty entry itself. *)
Definition same_entry (a b : RoutableEndpoints) : Prop :=
  a = b \/ (a = no_entry /\ entry_empty b = true).

Section sequences.
Context `{RouteJson, !RangeAt EndpointKey, !RangeAt RHash, !RangeAt (RHash * Endpoint), !RangeAt RoutingKey}.

Definition change_emission (cfg : TableConfig) (c : Change) : Emission :=
  emitDiffMessages cfg (ch_time c) (ch_old c) (ch_new c).

Definition emission_of (cfg : TableConfig) (cs : list Change) : Emission :=
  foldl (fun out c => Emission_Merge out (change_emission cfg c)) no_emission cs.

(** The entry of a key: endpoints are under their own keys, an instance has one
    address for the key, [addr key guid], up to presence, time and tag, and the
    routes are among the [desired] ones. *)
Record entry_ok (addr : RoutingKey -> string -> Endpoint) (desired : RoutingKey -> routeMapping -> Prop)
    (k : RoutingKey) (en : RoutableEndpoints) : Prop := mkEntryOk {
  eo_endpoints : forall ek e, re_Endpoints en !! ek = Some e -> Endpoint_key e = ek /\ norm e = addr k (e_InstanceGUID e);
  eo_routes : forall r, r ∈ re_Routes en -> desired k r }.

Definition addressed (addr : RoutingKey -> string -> Endpoint) (desired : RoutingKey -> routeMapping -> Prop) (f : Entries) : Prop :=
  forall k, entry_ok addr desired k (f k).

Lemma addressed_steady addr desired k old new :
  entry_ok addr desired k old -> entry_ok addr desired k new ->
  keyed (re_Endpoints old) /\ keyed (re_Endpoints new) /\ steady (re_Endpoints old) (re_Endpoints new).
Proof.
  intros [Ho _] [Hn _]. split_and!; [by intros ?? [? _]%Ho|by intros ?? [? _]%Hn|].
  intros guid. left.
  assert (forall e, e_InstanceGUID e = guid ->
    (exists ek, re_Endpoints old !! ek = Some e \/ re_Endpoints new !! ek = Some e) -> norm e = addr k guid) as Hnorm.
  { intros e <- (ek & [[_ He]%Ho|[_ He]%Hn]); done. }
  intros e e' He He' Hin Hin'. rewrite (Hnorm e), (Hnorm e'); done.
Qed.

Lemma advertised_no_entry b : entry_empty b = true -> advertised b = ∅.
Proof.
  unfold entry_empty. intros [He _]%andb_true_iff. apply bool_decide_eq_true in He.
  apply set_eq. intros [h n]. rewrite elem_of_advertised. split; [|set_solver].
  intros (_ & k & e & Hk & _). by rewrite He, lookup_empty in Hk.
Qed.

Lemma same_entry_advertised a b : same_entry a b -> advertised a = advertised b.
Proof. intros [->|[-> Hb]]; [done|]. by rewrite (advertised_no_entry b), (advertised_no_entry no_entry). Qed.

Lemma same_entry_ok addr desired k a b : same_entry a b -> entry_ok addr desired k a -> entry_ok addr desired k b.
Proof.
  intros [->|[-> Hb]]; [done|]. unfold entry_empty in Hb. apply andb_true_iff in Hb as [He%bool_decide_eq_true Hr%bool_decide_eq_true].
  intros _. split; [intros ek e; by rewrite He, lookup_empty|]. intros r. rewrite Hr. by intros ?%not_elem_of_nil.
Qed.

(** ** What routers hear *)

(** A message without the fields that do not tell registrations apart. *)
Definition blank (m : RegistryMessage) : RegistryMessage :=
  {| rm_URIs := rm_URIs m; rm_Host := rm_Host m; rm_Port := rm_Port m; rm_TlsPort := rm_TlsPort m; rm_Protocol := rm_Protocol m;
     rm_App := rm_App m; rm_IsolationSegment := rm_IsolationSegment m; rm_Tags := ∅; rm_AvailabilityZone := rm_AvailabilityZone m;
     rm_EndpointUpdatedAtNs := 0; rm_PrivateInstanceId := rm_PrivateInstanceId m; rm_PrivateInstanceIndex := rm_PrivateInstanceIndex m;
     rm_ServerCertDomainSAN := rm_ServerCertDomainSAN m; rm_RouteServiceUrl := rm_RouteServiceUrl m; rm_Options := "" |}.
Definition ident (m : Message) : Message :=
  match m with HTTPMessage m => HTTPMessage (blank m) | TCPMessage m => TCPMessage m | InternalMessage m => InternalMessage (blank m) end.

(** A router is sent a message to register or to unregister, and keeps what is
    registered, by what tells it apart. *)
Inductive delivery := Register (m : Message) | Unregister (m : Message).
Definition emitted (em : Emission) : list delivery :=
  (Register <$> sent_registrations em) ++ (Unregister <$> sent_unregistrations em).
Definition receive (R : list Message) (d : delivery) : list Message :=
  match d with Register m => ident m :: R | Unregister m => filter (fun m' => m' <> ident m) R end.

Lemma receive_all R ds m :
  (forall m1 m2, Register m1 ∈ ds -> Unregister m2 ∈ ds -> ident m1 <> ident m2) ->
  m ∈ foldl receive R ds <->
  (m ∈ R /\ forall m', Unregister m' ∈ ds -> ident m' <> m) \/ exists m', Register m' ∈ ds /\ ident m' = m.
Proof.
  revert R. induction ds as [|d ds IH]; intros R Hd; cbn [foldl].
  { split; [intros Hm; left; split; [done|by intros ? ?%not_elem_of_nil]|]. intros [[? _]|(? & []%not_elem_of_nil & _)]. done. }
  rewrite IH by (intros m1 m2 H1 H2; apply Hd; by right). clear IH. destruct d as [m0|m0]; cbn [receive]; setoid_rewrite elem_of_cons.
  - split.
    + intros [[[->|Hm] Hu]|(m' & Hm' & <-)]; [right; eauto|left; split; [done|]|right; eauto]. by intros m' [?|?]; [|by apply Hu].
    + intros [[Hm Hu]|(m' & [[= ->]|Hm'] & <-)]; [left; split; [by right|eauto]| |by right; eauto].
      left. split; [by left|]. intros m' Hu Heq. eapply (Hd m0 m'); [by left|by right|done].
  - rewrite list_elem_of_filter. split.
    + intros [[[Hne Hm] Hu]|(m' & Hm' & <-)]; [left; split; [done|]|right; eauto]. intros m' [[= ->]|Hm']; [done|by apply Hu].
    + intros [[Hm Hu]|(m' & [?|Hm'] & <-)]; [left; split_and!; [by apply not_eq_sym, Hu; left|done|eauto]|done|by right; eauto].
Qed.

Lemma sent_merge a b :
  sent_registrations (Emission_Merge a b) ≡ₚ sent_registrations a ++ sent_registrations b /\
  sent_unregistrations (Emission_Merge a b) ≡ₚ sent_unregistrations a ++ sent_unregistrations b.
Proof.
  destruct a as [[] [] ?], b as [[] [] ?]. unfold sent_registrations, sent_unregistrations. simpl. rewrite !fmap_app. split; solve_Permutation.
Qed.

Section conversations.
Context (cfg : TableConfig) (addr : RoutingKey -> string -> Endpoint) (desired : RoutingKey -> routeMapping -> Prop).
Abbreviation made r e := (ident (MessageFor r e (directInstanceRoute cfg) false)).

(** What a table advertises: a message for every route and endpoint of a key. *)
Definition advertises (f : Entries) (m : Message) : Prop :=
  exists k r ek e, r ∈ re_Routes (f k) /\ re_Endpoints (f k) !! ek = Some e /\ m = made r e.

(** Registrations can be told apart: no two instances, nor two ports of one,
    share an address, and different routes are different to a router. *)
Definition told_apart : Prop :=
  forall k r g k' r' g', desired k r -> desired k' r' ->
    e_InstanceGUID (addr k g) = g -> e_InstanceGUID (addr k' g') = g' ->
    made r (addr k g) = made r' (addr k' g') -> k = k' /\ Hash r = Hash r' /\ g = g'.

Lemma norm_norm e : norm (norm e) = norm e.
Proof. done. Qed.

Lemma ident_pair r e b r' e' b' d : Hash r = Hash r' -> norm e = norm e' ->
  ident (MessageFor r e d b) = ident (MessageFor r' e' d b').
Proof.
  intros Hr He. destruct e, e'. unfold norm in He. simpl in He. injection He; intros; subst; clear He.
  destruct r as [[]| |], r' as [[]| |]; unfold Hash, Route_Hash in Hr; simpl in Hr; simplify_eq; simpl.
  - unfold IsDirectInstanceRoute; simpl. by repeat case_bool_decide; destruct d.
  - done.
  - done.
Qed.

Definition says (h : RHash) (n : Endpoint) (m : Message) : Prop := exists r e, Hash r = h /\ norm e = n /\ m = made r e.

Lemma advertises_pairs f m : advertises f m <-> exists k h n, (h, n) ∈ advertised (f k) /\ says h n m.
Proof.
  split.
  - intros (k & r & ek & e & Hr & He & ->). exists k, (Hash r), (norm e). split; [|by exists r, e].
    apply elem_of_advertised. split; [by apply list_elem_of_fmap_2|eauto].
  - intros (k & h & n & Ha & r & e & <- & <- & ->). apply elem_of_advertised in Ha as [(r' & Hr & Hin)%list_elem_of_fmap (ek & e' & He & Hn)].
    exists k, r', ek, e'. split_and!; [done..|]. by apply ident_pair.
Qed.

Lemma apart k k' en en' h n h' n' m : told_apart -> entry_ok addr desired k en -> entry_ok addr desired k' en' ->
  (h, n) ∈ advertised en -> (h', n') ∈ advertised en' -> says h n m -> says h' n' m -> k = k' /\ h = h' /\ n = n'.
Proof.
  intros Ht [He Hr] [He' Hr'] Ha Ha' (r1 & e1 & <- & Hn1 & ->) (r2 & e2 & <- & Hn2 & Hm).
  apply elem_of_advertised in Ha as [(r & Hh & Hin)%list_elem_of_fmap (ek & e & Hl & Hn)].
  apply elem_of_advertised in Ha' as [(r' & Hh' & Hin')%list_elem_of_fmap (ek' & e' & Hl' & Hn')].
  destruct (He _ _ Hl) as [_ Hk]. destruct (He' _ _ Hl') as [_ Hk'].
  destruct (Ht k r (e_InstanceGUID e) k' r' (e_InstanceGUID e')) as (-> & HH & Hg).
  - by apply Hr.
  - by apply Hr'.
  - by rewrite <- Hk.
  - by rewrite <- Hk'.
  - rewrite <- Hk, <- Hk'. transitivity (made r1 e1); [|rewrite Hm]; apply ident_pair; rewrite ?norm_norm; congruence.
  - split_and!; [done|congruence|]. rewrite <- Hn, <- Hn', Hk, Hk'. congruence.
Qed.

(** *** The messages of a change *)

Lemma noted_hash {A} (metadata : routeMapping -> A) (route : A -> routeMapping) (l : list (routeMapping * Endpoint)) (m : PairMap A) :
  (forall r, route (metadata r) = r) -> map_Forall (fun p v => Hash (route v) = p.1) m ->
  map_Forall (fun p v => Hash (route v) = p.1) (foldl (note metadata) m l).
Proof.
  intros Hroute. revert m. induction l as [|[r e] l IH]; intros m Hm; [done|]. apply IH. unfold note.
  destruct (m !! _); [done|]. apply map_Forall_insert_2; [by rewrite Hroute|done].
Qed.

Lemma registrations_hash t old new p v : change_registrations t old new !! p = Some v -> Hash v.2 = p.1.
Proof.
  revert p v. change (map_Forall (fun p v => Hash v.2 = p.1) (change_registrations t old new)).
  apply (noted_hash (pair true) snd); [done|]. apply (noted_hash (pair false) snd); [done|apply map_Forall_empty].
Qed.
Lemma unregistrations_hash t old new p v : change_unregistrations t old new !! p = Some v -> Hash v = p.1.
Proof.
  revert p v. change (map_Forall (fun p v => Hash v = p.1) (change_unregistrations t old new)).
  apply (noted_hash id id); [done|]. apply (noted_hash id id); [done|apply map_Forall_empty].
Qed.

(** A registered, or an unregistered, message is that of a pair. *)
Definition told {A} (m : PairMap A) (msg : Message) : Prop := exists h n, (h, n) ∈ pairs_of m /\ says h n msg.

Lemma told_pairs {A} (m : PairMap A) (route : A -> routeMapping) (b : A -> bool) (msg : Message) :
  (forall p v, m !! p = Some v -> Hash (route v) = p.1) ->
  msg ∈ (ident <$> ((fun p : RHash * Endpoint * A => MessageFor (route p.2) p.1.2 (directInstanceRoute cfg) (b p.2)) <$> map_to_list m)) <->
  told m msg.
Proof.
  intros Hh. rewrite <- list_fmap_compose, list_elem_of_fmap. split.
  - intros ([[h e] v] & -> & Hin%elem_of_map_to_list). exists h, (norm e). split.
    + apply elem_of_map. exists (h, e). split; [done|]. by apply elem_of_dom.
    + exists (route v), e. split_and!; [by apply (Hh _ _ Hin)|done|]. by apply ident_pair.
  - intros (h & n & Hp & r & e & <- & Hn & ->). apply elem_of_map in Hp as ([h' e'] & [= Hh' Hn'] & [v Hv]%elem_of_dom).
    exists ((h', e'), v). split; [|by apply elem_of_map_to_list]. apply ident_pair; simpl in *; [|congruence].
    rewrite (Hh _ _ Hv). done.
Qed.

Lemma change_told t old new msg :
  (msg ∈ (ident <$> sent_registrations (emitDiffMessages cfg t old new)) <-> told (change_registrations t old new) msg) /\
  (msg ∈ (ident <$> sent_unregistrations (emitDiffMessages cfg t old new)) <-> told (change_unregistrations t old new) msg).
Proof.
  destruct (change_messages cfg t old new) as [Hr Hu]. rewrite Hr, Hu. split.
  - apply (told_pairs _ snd fst). apply registrations_hash.
  - apply (told_pairs _ id (fun _ => false)). apply unregistrations_hash.
Qed.

Lemma emission_told cs msg :
  (msg ∈ (ident <$> sent_registrations (emission_of cfg cs)) <->
     exists c, c ∈ cs /\ told (change_registrations (ch_time c) (ch_old c) (ch_new c)) msg) /\
  (msg ∈ (ident <$> sent_unregistrations (emission_of cfg cs)) <->
     exists c, c ∈ cs /\ told (change_unregistrations (ch_time c) (ch_old c) (ch_new c)) msg).
Proof.
  induction cs as [|c cs [IHr IHu]] using rev_ind.
  { split; (split; [by intros ?%not_elem_of_nil|by intros (? & ?%not_elem_of_nil & _)]). }
  unfold emission_of. rewrite foldl_app. cbn [foldl]. fold (emission_of cfg cs).
  destruct (sent_merge (emission_of cfg cs) (change_emission cfg c)) as [Hr Hu].
  destruct (change_told (ch_time c) (ch_old c) (ch_new c) msg) as [Cr Cu].
  rewrite Hr, Hu, !fmap_app, !elem_of_app, IHr, IHu. unfold change_emission. rewrite Cr, Cu. setoid_rewrite elem_of_app. setoid_rewrite list_elem_of_singleton.
  split; naive_solver.
Qed.

(** *** Chains of changes *)

(** [chain f cs f']: the changes [cs], one after the other, lead from [f] to [f']
    through tables that are [addressed]. *)
Inductive chain : Entries -> list Change -> Entries -> Prop :=
| chain_nil f f' : (forall k, f k = f' k) -> addressed addr desired f -> chain f [] f'
| chain_cons f f1 f' t k new cs :
    addressed addr desired f -> same_entry (f1 k) new -> (forall k', k' <> k -> f1 k' = f k') ->
    chain f1 cs f' -> chain f (mkChange t k (f k) new :: cs) f'.

Definition registers (c : Change) : Message -> Prop := told (change_registrations (ch_time c) (ch_old c) (ch_new c)).
Definition unregisters (c : Change) : Message -> Prop := told (change_unregistrations (ch_time c) (ch_old c) (ch_new c)).

(** Every key changes once, or nothing is withdrawn, or endpoints are taken away. *)
Definition grows (c : Change) : Prop := advertised (ch_old c) ⊆ advertised (ch_new c).
Definition shrinks (c : Change) : Prop :=
  re_Routes (ch_new c) = re_Routes (ch_old c) /\ re_Endpoints (ch_new c) ⊆ re_Endpoints (ch_old c).
Definition tidy (cs : list Change) : Prop := NoDup (ch_key <$> cs) \/ Forall grows cs \/ Forall shrinks cs.

Lemma shrinks_advertised c : shrinks c -> advertised (ch_new c) ⊆ advertised (ch_old c).
Proof.
  intros [Hr He] [h n]. rewrite !elem_of_advertised, Hr. intros [Hh (k & e & Hk & Hn)]. split; [done|].
  exists k, e. split; [|done]. by eapply lookup_weaken.
Qed.
Lemma shrinks_registers c m : shrinks c -> tracks (ch_time c) (ch_old c) (ch_new c) ->
  keyed (re_Endpoints (ch_old c)) -> keyed (re_Endpoints (ch_new c)) -> steady (re_Endpoints (ch_old c)) (re_Endpoints (ch_new c)) ->
  ~ registers c m.
Proof.
  intros [Hr He] _ H1 H2 H3 (h & n & Hp & _). apply elem_of_registered in Hp as [(r & k & e & Hin & _)|(r & k & e & _ & _ & Hk & _)].
  - rewrite Hr in Hin. simpl in Hin. apply list_elem_of_omap in Hin as ([h' r'] & Hin & Hm). apply elem_of_range in Hin.
    rewrite Hin in Hm. by rewrite bool_decide_false in Hm by naive_solver.
  - destruct (proj1 (added_endpoints (ch_time c) (ch_old c) (ch_new c) H1 H2 H3) k e Hk) as [(k0 & Hk0) Hno].
    apply (Hno k0 e); [by eapply lookup_weaken|done].
Qed.

Lemma chain_start f cs f' : chain f cs f' -> addressed addr desired f.
Proof. by destruct 1. Qed.
Lemma chain_end f cs f' : chain f cs f' -> addressed addr desired f'.
Proof. induction 1 as [f f' Hf Ha|]; [|done]. intros k. rewrite <- Hf. apply Ha. Qed.

Lemma chain_change f cs f' c : chain f cs f' -> c ∈ cs ->
  entry_ok addr desired (ch_key c) (ch_old c) /\ entry_ok addr desired (ch_key c) (ch_new c) /\ tracks (ch_time c) (ch_old c) (ch_new c).
Proof.
  induction 1 as [|f f1 f' t k new cs Ha Hk Ho Hc IH]; [by intros ?%not_elem_of_nil|]. intros [->|Hin]%elem_of_cons; [|by apply IH].
  cbn. assert (entry_ok addr desired k new) as Hnew by (eapply same_entry_ok; [done|by eapply chain_start]).
  destruct (addressed_steady addr desired k (f k) new) as (H1 & H2 & H3); [apply Ha|done|]. split_and!; [apply Ha|done|by apply change_tracks].
Qed.

Lemma chain_other f cs f' k : chain f cs f' -> k ∉ ch_key <$> cs -> f' k = f k.
Proof.
  induction 1 as [f f' Hf _|f f1 f' t k' new cs Ha Hk Ho Hc IH]; [done|]. cbn. intros [Hne Hin]%not_elem_of_cons.
  rewrite IH by done. by apply Ho.
Qed.
Lemma chain_once f cs f' c : chain f cs f' -> NoDup (ch_key <$> cs) -> c ∈ cs -> same_entry (f' (ch_key c)) (ch_new c).
Proof.
  induction 1 as [|f f1 f' t k new cs Ha Hk Ho Hc IH]; [by intros _ ?%not_elem_of_nil|]. cbn. intros [Hin Hnd]%NoDup_cons.
  intros [->|Hcs]%elem_of_cons; [|by apply IH]. cbn. by rewrite (chain_other _ _ _ _ Hc Hin).
Qed.

Lemma step_advertises f f1 k new t m : same_entry (f1 k) new -> (forall k', k' <> k -> f1 k' = f k') -> tracks t (f k) new ->
  let c := mkChange t k (f k) new in
  (advertises f1 m -> advertises f m \/ registers c m) /\ (advertises f m -> advertises f1 m \/ unregisters c m) /\
  (registers c m -> advertises f1 m).
Proof.
  intros Hk Ho (Hr & Hu & Heq & _) c. apply same_entry_advertised in Hk. rewrite !advertises_pairs. split_and!.
  - intros (k' & h & n & Ha & Hm). destruct (decide (k' = k)) as [->|Hne]; [|left; exists k', h, n; by rewrite <- Ho].
    rewrite Hk, <- Heq in Ha. apply elem_of_union in Ha as [[Ha _]%elem_of_difference|Ha]; [left; by exists k, h, n|right; by exists h, n].
  - intros (k' & h & n & Ha & Hm). destruct (decide (k' = k)) as [->|Hne]; [|left; exists k', h, n; by rewrite Ho].
    destruct (decide ((h, n) ∈ advertised new)); [left; exists k, h, n; by rewrite Hk|right; exists h, n].
    split; [|done]. cbn [c ch_time ch_old ch_new]. rewrite Hu. by apply elem_of_difference.
  - intros (h & n & Hp & Hm). exists k, h, n. rewrite Hk. split; [by apply Hr|done].
Qed.

Lemma chain_advertises f cs f' m : chain f cs f' ->
  (advertises f' m -> advertises f m \/ exists c, c ∈ cs /\ registers c m) /\
  (advertises f m -> advertises f' m \/ exists c, c ∈ cs /\ unregisters c m) /\
  (forall c, c ∈ cs -> registers c m -> advertises f' m \/ exists c', c' ∈ cs /\ unregisters c' m).
Proof.
  intros Hc. induction Hc as [f f' Hf _|f f1 f' t k new cs Ha Hk Ho Hc IH].
  { assert (advertises f' m <-> advertises f m) as Hm by (unfold advertises; setoid_rewrite Hf; done).
    split_and!; [rewrite Hm; auto..|by intros c ?%not_elem_of_nil]. }
  pose proof (chain_cons f f1 f' t k new cs Ha Hk Ho Hc) as Hall.
  destruct (chain_change _ _ _ (mkChange t k (f k) new) Hall) as (_ & _ & Ht); [by left|]. cbn in Ht.
  destruct (step_advertises f f1 k new t m Hk Ho Ht) as (S1 & S2 & S3). destruct IH as (I1 & I2 & I3).
  setoid_rewrite elem_of_cons. split_and!; [naive_solver|naive_solver|]. intros c [->|Hin] Hreg; [|naive_solver]. naive_solver.
Qed.

Lemma chain_shrinks_all f cs f' k : chain f cs f' -> Forall shrinks cs -> advertised (f' k) ⊆ advertised (f k).
Proof.
  intros Hc. revert k. induction Hc as [f f' Hf _|f f1 f' t k new cs Ha Hk Ho Hc IH]; intros k' Hsh; [by rewrite Hf|].
  apply Forall_cons in Hsh as [Hs Hsh]. etrans; [by apply IH|]. destruct (decide (k' = k)) as [->|Hne]; [|by rewrite Ho].
  rewrite (same_entry_advertised _ _ Hk). by apply shrinks_advertised in Hs.
Qed.
Lemma chain_shrinks f cs f' c : chain f cs f' -> Forall shrinks cs -> c ∈ cs -> advertised (f' (ch_key c)) ⊆ advertised (ch_new c).
Proof.
  induction 1 as [|f f1 f' t k new cs Ha Hk Ho Hc IH]; [by intros _ ?%not_elem_of_nil|]. intros [Hs Hsh]%Forall_cons.
  intros [->|Hin]%elem_of_cons; [|by apply IH]. cbn. rewrite <- (same_entry_advertised _ _ Hk). by eapply chain_shrinks_all.
Qed.

Lemma tidy_apart f cs f' m : told_apart -> chain f cs f' -> tidy cs ->
  (forall c, c ∈ cs -> unregisters c m -> ~ advertises f' m /\ forall c', c' ∈ cs -> ~ registers c' m).
Proof.
  intros Hapart Hc Ht c Hin Hun. destruct (chain_change _ _ _ _ Hc Hin) as (Hold & Hnew & _ & Hu & _).
  destruct Hun as (h & n & Hp & Hm). rewrite Hu in Hp. apply elem_of_difference in Hp as [Hpo Hpn].
  destruct Ht as [Hnd|[Hg|Hsh]]; [|by rewrite Forall_forall in Hg; destruct (Hpn (Hg c Hin _ Hpo))|]; split.
  - intros (k' & h' & n' & Ha' & Hm')%advertises_pairs.
    destruct (apart (ch_key c) k' (ch_old c) (f' k') h n h' n' m) as (<- & <- & <-); [done|done|by eapply chain_end|done..|].
    rewrite (same_entry_advertised _ _ (chain_once _ _ _ _ Hc Hnd Hin)) in Ha'. done.
  - intros c' Hin' (h' & n' & Hp' & Hm'). destruct (chain_change _ _ _ _ Hc Hin') as (_ & Hnew' & Hr' & _).
    destruct (apart (ch_key c) (ch_key c') (ch_old c) (ch_new c') h n h' n' m) as (Hk & <- & <-); [done..|by apply Hr'|done|done|].
    assert (c = c') as <-; [|by apply Hpn, Hr'].
    apply list_elem_of_lookup in Hin as [i Hi]. apply list_elem_of_lookup in Hin' as [j Hj].
    assert (i = j) as <-; [|congruence]. eapply NoDup_lookup; [exact Hnd|by rewrite list_lookup_fmap, Hi|by rewrite list_lookup_fmap, Hj, Hk].
  - intros (k' & h' & n' & Ha' & Hm')%advertises_pairs.
    destruct (apart (ch_key c) k' (ch_old c) (f' k') h n h' n' m) as (<- & <- & <-); [done|done|by eapply chain_end|done..|].
    by apply Hpn, (chain_shrinks _ _ _ _ Hc Hsh Hin).
  - intros c' Hin'. destruct (chain_change _ _ _ _ Hc Hin') as (Hold' & Hnew' & Htr').
    destruct (addressed_steady _ _ _ _ _ Hold' Hnew') as (? & ? & ?). rewrite Forall_forall in Hsh. apply shrinks_registers; auto.
Qed.

(** A router that is in step stays in step, in whatever order it gets the messages. *)
Definition in_step (R : list Message) (f : Entries) : Prop := forall m, m ∈ R <-> advertises f m.

Lemma elem_of_emitted em m : (Register m ∈ emitted em <-> m ∈ sent_registrations em) /\ (Unregister m ∈ emitted em <-> m ∈ sent_unregistrations em).
Proof. unfold emitted. rewrite !elem_of_app, !list_elem_of_fmap. split; naive_solver. Qed.

Lemma chain_in_step f cs f' R ds : told_apart -> chain f cs f' -> tidy cs -> in_step R f -> ds ≡ₚ emitted (emission_of cfg cs) ->
  in_step (foldl receive R ds) f'.
Proof.
  intros Hapart Hc Ht HR Hds m.
  assert (forall m0, (exists m', Register m' ∈ ds /\ ident m' = m0) <-> exists c, c ∈ cs /\ registers c m0) as Hreg.
  { intros m0. unfold registers. rewrite <- (proj1 (emission_told cs m0)), list_elem_of_fmap. setoid_rewrite Hds.
    setoid_rewrite (fun m => proj1 (elem_of_emitted (emission_of cfg cs) m)). naive_solver. }
  assert (forall m0, (exists m', Unregister m' ∈ ds /\ ident m' = m0) <-> exists c, c ∈ cs /\ unregisters c m0) as Hunreg.
  { intros m0. unfold unregisters. rewrite <- (proj2 (emission_told cs m0)), list_elem_of_fmap. setoid_rewrite Hds.
    setoid_rewrite (fun m => proj2 (elem_of_emitted (emission_of cfg cs) m)). naive_solver. }
  destruct (chain_advertises f cs f' m Hc) as (C1 & C2 & C3). rewrite receive_all, Hreg, (HR m : _ <-> _).
  - pose proof (fun c Hin Hu => tidy_apart f cs f' m Hapart Hc Ht c Hin Hu) as Hno. specialize (Hunreg m). split.
    + intros [[Ha Hu]|(c & Hin & Hr)].
      * destruct (C2 Ha) as [?|Hex]; [done|]. apply Hunreg in Hex as (m' & ? & ?). by destruct (Hu m').
      * destruct (C3 c Hin Hr) as [?|(c' & Hin' & Hu')]; [done|]. by destruct (proj2 (Hno c' Hin' Hu') c Hin).
    + intros Ha. destruct (C1 Ha) as [?|?]; [|by right]. left. split; [done|]. intros m' Hm' Heq.
      destruct (proj1 Hunreg) as (c & Hin & Hu); [by exists m'|]. by destruct (Hno c Hin Hu).
  - intros m1 m2 H1 H2 Heq. destruct (proj1 (Hreg (ident m1))) as (c & Hin & Hr); [by exists m1|].
    destruct (proj1 (Hunreg (ident m1))) as (c' & Hin' & Hu); [by exists m2|].
    by destruct (tidy_apart f cs f' (ident m1) Hapart Hc Ht c' Hin' Hu) as [_ Hn]; destruct (Hn c Hin).
Qed.
End conversations.

(** ** Entries after an operation *)

Section entries.
Context (cfg : TableConfig).

Lemma entry_set T k e k' : entry (set_entry T k e) k' = if decide (k' = k) then e else entry T k'.
Proof.
  unfold entry, set_entry. simpl. case_decide as Hk.
  - subst. by rewrite lookup_insert_eq.
  - by rewrite lookup_insert_ne.
Qed.

Lemma entry_delete T k k' :
  entry (deleteEntryIfEmpty T k) k' =
  if decide (k' = k) then if entry_empty (entry T k) then no_entry else entry T k else entry T k'.
Proof.
  unfold deleteEntryIfEmpty. destruct (entry_empty (entry T k)) eqn:He; case_decide as Hk; subst; try done.
  - unfold entry. simpl. by rewrite lookup_delete_eq.
  - unfold entry. simpl. by rewrite lookup_delete_ne.
Qed.

Lemma entry_swap_key T domains t st key k :
  entry (swap_key cfg T domains t st key).1 k =
  if decide (k = key) then
    match irt_entries T !! key with
    | None => entry st.1 key
    | Some old =>
        let merged := mergeUnfreshRoutes old (entry st.1 key) domains in
        if entry_empty merged then no_entry else merged
    end
  else entry st.1 k.
Proof.
  destruct st as [other out]. unfold swap_key. simpl. destruct (irt_entries T !! key); simpl.
  - rewrite entry_delete. rewrite !entry_set. rewrite (decide_True (P := key = key)) by done. by case_decide.
  - case_decide; by subst.
Qed.

Lemma merged_keys_lookup T other k :
  merged_keys T other !! k = None <-> irt_entries T !! k = None /\ irt_entries other !! k = None.
Proof. unfold merged_keys. rewrite lookup_union_None, !lookup_fmap, !fmap_None. tauto. Qed.

Lemma merged_keys_range T other t :
  NoDup (fst <$> range_at t (merged_keys T other)) /\
  forall k, k ∉ fst <$> range_at t (merged_keys T other) ->
    irt_entries T !! k = None /\ irt_entries other !! k = None.
Proof.
  split.
  - rewrite range_at_perm. apply NoDup_fst_map_to_list.
  - intros k Hk. apply merged_keys_lookup. destruct (merged_keys T other !! k) as [u|] eqn:E; [|done].
    destruct Hk. apply list_elem_of_fmap. exists (k, u). split; [done|]. by apply elem_of_range.
Qed.

Lemma entry_swap_keys T domains t i st keys k :
  NoDup keys ->
  entry (swap_keys cfg T domains t i st keys).1 k =
  if decide (k ∈ keys) then
    match irt_entries T !! k with
    | None => entry st.1 k
    | Some old =>
        let merged := mergeUnfreshRoutes old (entry st.1 k) domains in
        if entry_empty merged then no_entry else merged
    end
  else entry st.1 k.
Proof.
  intros Hnd. revert i st. induction Hnd as [|key keys Hkey Hnd IH]; intros i st; cbn [swap_keys].
  - rewrite decide_False; [done|apply not_elem_of_nil].
  - rewrite IH, !entry_swap_key. destruct (decide (k = key)) as [->|Hne].
    + rewrite decide_False by done. rewrite decide_True by (by left). done.
    + destruct (decide (k ∈ keys)); [rewrite decide_True|rewrite decide_False]; [done|by right|done|].
      by intros [?|?]%elem_of_cons.
Qed.

Lemma Swap_entry t T other domains k :
  entry (Swap cfg t T other domains).1 k =
  match irt_entries T !! k with
  | None => entry other k
  | Some old =>
      let merged := mergeUnfreshRoutes old (entry other k) domains in
      if entry_empty merged then no_entry else merged
  end.
Proof.
  unfold Swap. destruct (merged_keys_range T other (slot t 0)) as [Hnd Hout].
  pose proof (entry_swap_keys T domains t 1 (other, no_emission) _ k Hnd) as He.
  destruct (swap_keys _ _ _ _ _ _ _) as [final out]. simpl in *.
  transitivity (entry final k); [done|]. rewrite He. case_decide as Hk; [done|]. by apply Hout in Hk as [-> _].
Qed.
End entries.

(** ** The operations are sequences of changes *)

Section operations.
Context (cfg : TableConfig) (addr : RoutingKey -> string -> Endpoint) (desired : RoutingKey -> routeMapping -> Prop).
Abbreviation addressed := (addressed addr desired).
Abbreviation entry_ok := (entry_ok addr desired).
Abbreviation chain := (chain addr desired).

(** The endpoints of an LRP are where [addr] says. *)
Definition lrp_addressed (lrp : ActualLRP) : Prop :=
  forall e, e ∈ endpointGenerator cfg lrp ->
    norm e = addr (NewRoutingKey (al_ProcessGuid lrp) (e_ContainerPort e)) (e_InstanceGUID e).

Lemma no_entry_ok k : entry_ok k no_entry.
Proof. split; [done|]. by intros r ?%not_elem_of_nil. Qed.

Lemma addressed_insert f k new f1 :
  addressed f -> same_entry (f1 k) new -> (forall k', k' <> k -> f1 k' = f k') -> entry_ok k new -> addressed f1.
Proof.
  intros Hf Hk Ho Hn k'. destruct (decide (k' = k)) as [->|Hne]; [|rewrite Ho by done; apply Hf].
  destruct Hk as [->|[-> _]]; [done|apply no_entry_ok].
Qed.

Lemma chain_snoc f cs f' t k new f1 :
  chain f cs f' -> same_entry (f1 k) new -> (forall k', k' <> k -> f1 k' = f' k') -> addressed f1 ->
  chain f (cs ++ [mkChange t k (f' k) new]) f1.
Proof.
  induction 1 as [f f' Hf Ha|f f2 f' t2 k2 new2 cs Ha Hk Ho Hc IH]; intros Hs Ho1 Ha1; simpl.
  - rewrite <- Hf. eapply (chain_cons _ _ _ f1); [done..| |by apply chain_nil].
    intros k' Hk'. by rewrite Hf, Ho1.
  - eapply (chain_cons _ _ _ f2); [done..|]. by apply IH.
Qed.

Lemma chain_ext f cs f' f1 : chain f cs f' -> (forall k, f1 k = f' k) -> chain f cs f1.
Proof.
  induction 1 as [f f' Hf Ha|f f2 f' t2 k2 new2 cs Ha Hk Ho Hc IH]; intros Hf1.
  - apply chain_nil; [|done]. intros k. by rewrite Hf, Hf1.
  - eapply chain_cons; eauto.
Qed.

(** The state of an operation that started from [f] and has emitted what its
    changes so far, of which [P] holds, emit. *)
Definition emitting (P : list Change -> Prop) (f : Entries) (st : internalRoutingTable * Emission) : Prop :=
  exists cs, P cs /\ st.2 = emission_of cfg cs /\ chain f cs (entry st.1).

Lemma emitting_impl (P Q : list Change -> Prop) f st : (forall cs, P cs -> Q cs) -> emitting P f st -> emitting Q f st.
Proof. intros HPQ (cs & HP & H2 & H3). exists cs. auto. Qed.

Lemma emitting_snoc (P Q : list Change -> Prop) f T out t k new T1 :
  emitting P f (T, out) -> (forall cs, P cs -> Q (cs ++ [mkChange t k (entry T k) new])) ->
  same_entry (entry T1 k) new -> (forall k', k' <> k -> entry T1 k' = entry T k') -> entry_ok k new ->
  emitting Q f (T1, Emission_Merge out (emitDiffMessages cfg t (entry T k) new)).
Proof.
  intros (cs & HP & Hout & Hc) HPQ Hk Ho Hn. simpl in Hout. subst out.
  exists (cs ++ [mkChange t k (entry T k) new]). split_and!; [by apply HPQ| |].
  - unfold emission_of. by rewrite foldl_app.
  - apply chain_snoc; [done..|]. eapply addressed_insert; [by eapply chain_end|done..].
Qed.

Lemma emitting_set (P Q : list Change -> Prop) f T out t k new :
  emitting P f (T, out) -> (forall cs, P cs -> Q (cs ++ [mkChange t k (entry T k) new])) -> entry_ok k new ->
  emitting Q f (set_entry T k new, Emission_Merge out (emitDiffMessages cfg t (entry T k) new)).
Proof.
  intros He HPQ Hn. eapply emitting_snoc; [done|done|left|intros k' Hk'|done]; rewrite entry_set; by case_decide.
Qed.

Lemma emitting_set_delete (P Q : list Change -> Prop) f T out t k new :
  emitting P f (T, out) -> (forall cs, P cs -> Q (cs ++ [mkChange t k (entry T k) new])) -> entry_ok k new ->
  emitting Q f (deleteEntryIfEmpty (set_entry T k new) k, Emission_Merge out (emitDiffMessages cfg t (entry T k) new)).
Proof.
  intros He HPQ Hn. eapply emitting_snoc; [done|done|..|done].
  - unfold same_entry. rewrite entry_delete, decide_True by done. rewrite entry_set, decide_True by done.
    destruct (entry_empty new) eqn:E; auto.
  - intros k' Hk'. rewrite entry_delete, decide_False by done. by rewrite entry_set, decide_False.
Qed.

Lemma emitting_addressed P f T out : emitting P f (T, out) -> addressed (entry T).
Proof. intros (cs & _ & _ & Hc). by eapply chain_end. Qed.

Lemma each_endpoint_emitting P f step (E : Endpoint -> Prop) t i st l :
  (forall t st e, emitting P f st -> E e -> emitting P f (step t st e)) ->
  emitting P f st -> Forall E l -> emitting P f (each_endpoint step t i st l).
Proof.
  intros Hstep Hst Hl. revert i st Hst. induction Hl as [|e l He _ IH]; intros i st Hst; simpl; [done|].
  apply IH. by apply Hstep.
Qed.

Lemma entry_note_addresses (f : internalRoutingTable -> Endpoint -> internalRoutingTable) T l :
  (forall T e, irt_entries (f T e) = irt_entries T) -> irt_entries (foldl f T l) = irt_entries T.
Proof. intros Hf. revert T. induction l as [|e l IH]; intros T; simpl; [done|]. by rewrite IH, Hf. Qed.

Lemma emitting_start P T T' :
  P [] -> irt_entries T' = irt_entries T -> addressed (entry T) -> emitting P (entry T) (T', no_emission).
Proof.
  intros HP HT Ha. exists []. split_and!; [done|done|]. apply chain_nil; [|done]. intros k. unfold entry. simpl. by rewrite HT.
Qed.

Lemma grows_add (addr' : string -> Endpoint) en e :
  (forall ek e, re_Endpoints en !! ek = Some e -> Endpoint_key e = ek /\ norm e = addr' (e_InstanceGUID e)) ->
  norm e = addr' (e_InstanceGUID e) -> advertised en ⊆ advertised (with_endpoints en (<[Endpoint_key e := e]> (re_Endpoints en))).
Proof.
  intros Hen He [h n]. rewrite !elem_of_advertised. intros [Hh (k & e0 & Hk & <-)]. split; [done|].
  destruct (decide (k = Endpoint_key e)) as [->|Hne].
  - exists (Endpoint_key e), e. split; [apply lookup_insert_eq|]. destruct (Hen _ _ Hk) as [Hkey ->]. rewrite He.
    unfold Endpoint_key in Hkey. by injection Hkey as -> _.
  - exists k, e0. split; [|done]. simpl. by rewrite lookup_insert_ne.
Qed.

Lemma AddEndpoint_emits t T lrp :
  addressed (entry T) -> lrp_addressed lrp -> emitting (Forall grows) (entry T) (AddEndpoint cfg t T lrp).
Proof.
  intros Ha Hl. unfold AddEndpoint.
  apply (each_endpoint_emitting _ _ _ (fun e => norm e = addr (NewRoutingKey (al_ProcessGuid lrp) (e_ContainerPort e)) (e_InstanceGUID e))).
  - intros t' [T' out] e He Hn. unfold add_endpoint. case_match; [done|]. case_match; [done|].
    destruct (emitting_addressed _ _ _ _ He (NewRoutingKey (al_ProcessGuid lrp) (e_ContainerPort e))) as [Hek Hr].
    eapply emitting_set; [done|..].
    + intros cs Hcs. apply Forall_app. split; [done|]. apply Forall_singleton. unfold grows. cbn. by eapply grows_add.
    + split; [|exact Hr]. intros ek e'. simpl. rewrite lookup_insert. case_decide as Hk; [by intros [= <-]|apply Hek].
  - apply emitting_start; [done| |done]. destruct (suppressAddressCollision cfg); [done|].
    by apply entry_note_addresses.
  - apply Forall_forall. exact Hl.
Qed.

Lemma RemoveEndpoint_emits t T lrp :
  addressed (entry T) -> emitting (Forall shrinks) (entry T) (RemoveEndpoint cfg t T lrp).
Proof.
  intros Ha. unfold RemoveEndpoint. apply (each_endpoint_emitting _ _ _ (fun _ => True)).
  - intros t' [T' out] e He _. unfold remove_endpoint. case_match; [|done]. case_match; [done|].
    destruct (emitting_addressed _ _ _ _ He (NewRoutingKey (al_ProcessGuid lrp) (e_ContainerPort e))) as [Hek Hr].
    eapply emitting_set_delete; [done|..].
    + intros cs Hcs. apply Forall_app. split; [done|]. apply Forall_singleton. split; [done|]. apply delete_subseteq.
    + split; [|exact Hr]. intros ek e'. simpl. intros [_ Hd]%lookup_delete_Some. by apply Hek.
  - apply emitting_start; [done| |done]. destruct (suppressAddressCollision cfg); [done|].
    apply entry_note_addresses. intros T' e. unfold forget_address. by destruct (match _ !! _ with Some _ => _ | None => _ end).
  - by apply Forall_true.
Qed.

(** *** Loops over keys *)

(** Every key was changed once, and none of [todo]. *)
Definition fresh (todo : list RoutingKey) (cs : list Change) : Prop :=
  NoDup (ch_key <$> cs) /\ forall c, c ∈ cs -> ch_key c ∉ todo.

Lemma fresh_snoc k todo cs c : ch_key c = k -> k ∉ todo -> fresh (k :: todo) cs -> fresh todo (cs ++ [c]).
Proof.
  intros Hk Hin [Hnd Hcs]. split.
  - rewrite fmap_app. apply NoDup_app. split_and!; [done| |apply NoDup_singleton].
    intros k' (c' & -> & Hc')%list_elem_of_fmap Hk'%list_elem_of_singleton. apply (Hcs c' Hc'). rewrite Hk', Hk. by left.
  - intros c' [Hc'|Hc'%list_elem_of_singleton]%elem_of_app; [|by subst]. intros Ht. apply (Hcs c' Hc'). by right.
Qed.
Lemma fresh_less todo todo' cs : todo' ⊆ todo -> fresh todo cs -> fresh todo' cs.
Proof. intros Hs [Hnd Hcs]. split; [done|]. intros c Hc Ht. by apply (Hcs c Hc), Hs. Qed.

Lemma each_entry_emitting f (key_of : RoutingKey * list routeMapping -> list RoutingKey) step t i st l rest st' :
  (forall t st kr todo st', kr ∈ l -> NoDup (key_of kr ++ todo) -> emitting (fresh (key_of kr ++ todo)) f st ->
     step t st kr = Some st' -> emitting (fresh todo) f st') ->
  NoDup ((l ≫= key_of) ++ rest) -> emitting (fresh ((l ≫= key_of) ++ rest)) f st -> each_entry step t i st l = Some st' ->
  emitting (fresh rest) f st'.
Proof.
  revert i st. induction l as [|kr l IH]; intros i st Hstep Hnd Hst; simpl; [by intros [= <-]|].
  intros (st1 & Hst1 & Hrest)%bind_Some. cbn in Hnd, Hst. rewrite <- (assoc_L (++)) in Hnd, Hst.
  eapply IH; [|by apply NoDup_app in Hnd as (_ & _ & ?)| |exact Hrest].
  - intros. eapply Hstep; [by right|done..].
  - eapply Hstep; [by left|exact Hnd|exact Hst|exact Hst1].
Qed.

Lemma set_routes_emits f before after t st kr todo st' :
  (forall r, r ∈ kr.2 -> desired kr.1 r) -> NoDup ([kr.1] ++ todo) -> emitting (fresh ([kr.1] ++ todo)) f st ->
  set_routes cfg before after t st kr = Some st' -> emitting (fresh todo) f st'.
Proof.
  intros Hd [Hk _]%NoDup_cons He. unfold set_routes. destruct st as [T out], kr as [key routes]. cbn [fst snd app] in *.
  intros (aft & -> & (newer & _ & H')%bind_Some)%bind_Some.
  destruct newer; simpl in H'; simplify_eq; [|eapply emitting_impl; [|exact He]; intros cs; apply fresh_less; set_solver].
  eapply emitting_set; [exact He|intros cs; by apply fresh_snoc|]. destruct (emitting_addressed _ _ _ _ He key) as [Hek _].
  split; [|exact Hd]. intros ek e. simpl. destruct (scaled_down before aft); [intros [Hl _]%map_lookup_filter_Some|intros Hl]; by apply Hek.
Qed.

Lemma unset_routes_emits f before after entries t st kr todo st' :
  let keys := if decide (is_Some (entries !! kr.1)) then [] else [kr.1] in
  NoDup (keys ++ todo) -> emitting (fresh (keys ++ todo)) f st ->
  unset_routes cfg before after entries t st kr = Some st' -> emitting (fresh todo) f st'.
Proof.
  intros keys Hnd He. unfold unset_routes. destruct st as [T out], kr as [key routes]. subst keys. cbn [fst] in *.
  destruct (entries !! key); [rewrite decide_True in He by eauto; by intros [= <-]|].
  rewrite decide_False in * by (by intros []). cbn in Hnd, He. apply NoDup_cons in Hnd as [Hk _].
  intros (newer & _ & H')%bind_Some.
  destruct newer; simpl in H'; simplify_eq; [|eapply emitting_impl; [|exact He]; intros cs; apply fresh_less; set_solver].
  eapply emitting_set_delete; [exact He|intros cs; by apply fresh_snoc|]. destruct (emitting_addressed _ _ _ _ He key) as [Hek _].
  split; destruct after; simpl; [exact Hek|exact Hek|by intros r ?%not_elem_of_nil..].
Qed.

(** The routes of a desired LRP. *)
Definition routes_desired (lrp : option DesiredLRP) : Prop :=
  forall k routes r, routesGenerator cfg lrp !! k = Some routes -> r ∈ routes -> desired k r.

Lemma range_entry_keys {V} (m : gmap RoutingKey V) t : NoDup (fst <$> range_at t m).
Proof. rewrite range_at_perm. apply NoDup_fst_map_to_list. Qed.

Lemma SetRoutes_emits t T before after st' :
  addressed (entry T) -> routes_desired after -> SetRoutes cfg t T before after = Some st' ->
  emitting (fresh []) (entry T) st'.
Proof.
  intros Ha Hd. unfold SetRoutes. intros (st & H1 & H2)%bind_Some.
  set (entries := routesGenerator cfg after) in *. set (l1 := range_at (slot (slot t 0) 0) entries) in *.
  set (l2 := range_at (slot (slot t 1) 0) (routesGenerator cfg before)) in *.
  set (gone := fun kr : RoutingKey * list routeMapping => if decide (is_Some (entries !! kr.1)) then [] else [kr.1]).
  assert (Hgone : forall l, NoDup (fst <$> l) -> NoDup (l ≫= gone) /\ forall k, k ∈ l ≫= gone -> k ∈ fst <$> l /\ entries !! k = None).
  { induction l as [|kr l IH]; [intros _; split; [constructor|by intros k ?%not_elem_of_nil]|]. cbn. intros [Hin Hnd]%NoDup_cons.
    destruct (IH Hnd) as [IH1 IH2]. assert (forall k, k ∈ gone kr -> k = kr.1 /\ entries !! k = None) as Hk.
    { intros k. unfold gone. case_decide as Hs; [by intros ?%not_elem_of_nil|]. intros ->%list_elem_of_singleton.
      split; [done|]. by apply eq_None_not_Some. }
    split.
    - apply NoDup_app. split_and!; [unfold gone; case_decide; [constructor|apply NoDup_singleton]| |done].
      intros k [-> _]%Hk Hb. by apply Hin, IH2.
    - intros k [[-> Hn]%Hk|[? ?]%IH2]%elem_of_app; (split; [|done]); [by left|by right]. }
  destruct (Hgone l2 (range_entry_keys _ _)) as [G1 G2].
  eapply (each_entry_emitting _ gone _ _ _ st l2 []); [|by rewrite app_nil_r| |exact H2].
  { intros. eapply unset_routes_emits; eauto. }
  rewrite app_nil_r. assert (l1 ≫= (fun kr => [kr.1]) = fst <$> l1) as Hl1 by (clear; induction l1; [done|]; cbn; by f_equal).
  eapply (each_entry_emitting _ (fun kr => [kr.1]) _ _ _ (T, no_emission) l1 (l2 ≫= gone)); [| | |exact H1].
  - intros t' st0 [k routes] todo st1 Hin Hnd He Hs. eapply set_routes_emits; [|exact Hnd|exact He|exact Hs].
    intros r Hr. apply elem_of_range in Hin. by eapply Hd.
  - rewrite Hl1. apply NoDup_app. split_and!; [apply range_entry_keys| |done]. intros k Hk [_ Hn]%G2.
    apply list_elem_of_fmap in Hk as ([k' v] & -> & Hin). apply elem_of_range in Hin. cbn in Hn. congruence.
  - apply emitting_start; [|done|done]. split; [constructor|by intros c ?%not_elem_of_nil].
Qed.

(** *** Swap *)

(** The table while [Swap] runs: the keys still to do are as they were. *)
Definition swapping (T other : internalRoutingTable) (todo : list RoutingKey) : Entries :=
  fun k => if decide (k ∈ todo) then entry T k else entry other k.

Lemma swap_key_emission T domains t other out key :
  (swap_key cfg T domains t (other, out) key).2 =
  Emission_Merge out (emitDiffMessages cfg t (entry T key)
    (match irt_entries T !! key with
     | None => entry other key
     | Some old => mergeUnfreshRoutes old (entry other key) domains
     end)).
Proof.
  unfold swap_key. destruct (irt_entries T !! key) eqn:E; simpl; unfold entry at 1 2; by rewrite E.
Qed.

Lemma addressed_swapping T other todo :
  addressed (entry T) -> addressed (entry other) -> addressed (swapping T other todo).
Proof. intros HT Ho k. unfold swapping. case_decide; [apply HT|apply Ho]. Qed.

Lemma merge_ok k old new domains : entry_ok k old -> entry_ok k new -> entry_ok k (mergeUnfreshRoutes old new domains).
Proof.
  intros [_ Hold] [He Hnew]. split; [exact He|]. intros r. simpl. rewrite elem_of_app. intros [?|Hr]; [by apply Hnew|].
  case_bool_decide; [by apply not_elem_of_nil in Hr|]. apply list_elem_of_filter in Hr as [_ Hr]. by apply Hold.
Qed.

Lemma addressed_swap_key T domains t st key :
  addressed (entry T) -> addressed (entry st.1) -> addressed (entry (swap_key cfg T domains t st key).1).
Proof.
  intros HT Ha k. rewrite entry_swap_key. case_decide as Hk; [subst|apply Ha].
  destruct (irt_entries T !! key) as [old|] eqn:E; [|apply Ha]. cbv zeta. case_match; [apply no_entry_ok|].
  apply merge_ok; [|apply Ha]. pose proof (HT key) as Hk. unfold entry in Hk. by rewrite E in Hk.
Qed.

Lemma swap_key_same T domains t st key new :
  new = match irt_entries T !! key with
        | None => entry st.1 key
        | Some old => mergeUnfreshRoutes old (entry st.1 key) domains
        end ->
  same_entry (entry (swap_key cfg T domains t st key).1 key) new.
Proof.
  intros ->. unfold same_entry. rewrite entry_swap_key, decide_True by done.
  destruct (irt_entries T !! key); [|by left]. simpl. destruct (entry_empty _) eqn:E; auto.
Qed.

#[local] Arguments swap_key : simpl never.

Lemma swap_keys_emits f T domains t i other out keys :
  NoDup keys -> addressed (entry T) -> addressed (entry other) ->
  (exists cs, fresh keys cs /\ out = emission_of cfg cs /\ chain f cs (swapping T other keys)) ->
  emitting (fresh []) f (swap_keys cfg T domains t i (other, out) keys).
Proof.
  intros Hnd HT. revert i other out. induction Hnd as [|key keys Hkey Hnd IH]; intros i other out Ho (cs & Hf & -> & Hc); simpl.
  - exists cs. split_and!; [done|done|]. eapply chain_ext; [done|]. intros k. unfold swapping.
    rewrite decide_False; [done|apply not_elem_of_nil].
  - destruct (swap_key cfg T domains (slot t i) (other, emission_of cfg cs) key) as [other' out'] eqn:E.
    pose proof (addressed_swap_key T domains (slot t i) (other, emission_of cfg cs) key HT Ho) as Ho'.
    pose proof (swap_key_same T domains (slot t i) (other, emission_of cfg cs) key _ eq_refl) as Hs.
    pose proof (fun k => entry_swap_key cfg T domains (slot t i) (other, emission_of cfg cs) key k) as Hk.
    pose proof (swap_key_emission T domains (slot t i) other (emission_of cfg cs) key) as Hout.
    rewrite E in *. simpl in Ho', Hs, Hk, Hout. apply IH; [done|].
    match type of Hs with same_entry _ ?n => set (new := n) in * end.
    exists (cs ++ [mkChange (slot t i) key (entry T key) new]). split_and!.
    + by eapply fresh_snoc.
    + rewrite Hout. unfold emission_of. by rewrite foldl_app.
    + replace (entry T key) with (swapping T other (key :: keys) key) by (unfold swapping; rewrite decide_True; [done|by left]).
      apply chain_snoc; [done|..|by apply addressed_swapping].
      * unfold swapping. rewrite decide_False by done. exact Hs.
      * intros k Hne. unfold swapping. rewrite Hk, (decide_False (P := k = key)) by done.
        destruct (decide (k ∈ keys)); [rewrite decide_True|rewrite decide_False]; [done|by right|done|].
        by intros [?|?]%elem_of_cons.
Qed.

Lemma fresh_nil todo : fresh todo [].
Proof. split; [constructor|by intros c ?%not_elem_of_nil]. Qed.

Lemma Swap_emits t T other domains :
  addressed (entry T) -> addressed (entry other) -> emitting (fresh []) (entry T) (Swap cfg t T other domains).
Proof.
  intros HT Ho. unfold Swap.
  destruct (merged_keys_range T other (slot t 0)) as [Hnd Hout].
  destruct (swap_keys_emits (entry T) T domains t 1 other no_emission _ Hnd HT Ho) as (cs & Hf & Hcs & Hc).
  - exists []. split_and!; [apply fresh_nil|done|]. apply chain_nil; [|done]. intros k. unfold swapping. case_decide as Hk; [done|].
    apply Hout in Hk as [Hk1 Hk2]. unfold entry. by rewrite Hk1, Hk2.
  - destruct (swap_keys _ _ _ _ _ _ _) as [final out]. simpl in *. exists cs. split_and!; [done|done|].
    eapply chain_ext; [done|]. by intros k.
Qed.

(** ** Events *)

Inductive TableEvent :=
| EvAdd (lrp : ActualLRP)
| EvRemove (lrp : ActualLRP)
| EvSetRoutes (before after : option DesiredLRP)
| EvSwap (other : internalRoutingTable) (domains : gset string).

Definition handle (t : list nat) (T : internalRoutingTable) (ev : TableEvent) : option (internalRoutingTable * Emission) :=
  match ev with
  | EvAdd lrp => Some (AddEndpoint cfg t T lrp)
  | EvRemove lrp => Some (RemoveEndpoint cfg t T lrp)
  | EvSetRoutes before after => SetRoutes cfg t T before after
  | EvSwap other domains => Some (Swap cfg t T other domains)
  end.

Fixpoint run_events (t : nat) (T : internalRoutingTable) (evs : list TableEvent)
    : option (internalRoutingTable * list Emission) :=
  match evs with
  | [] => Some (T, [])
  | ev :: evs =>
      st ← handle [t] T ev;
      rest ← run_events (S t) st.1 evs;
      Some (rest.1, st.2 :: rest.2)
  end.

Definition tagged (lrp : option DesiredLRP) : Prop := forall l, lrp = Some l -> is_Some (dl_ModificationTag l).

(** The events the BBS sends: instances with one address each, desired LRPs
    with their tag and routes that are told apart. *)
Definition event_ok (ev : TableEvent) : Prop :=
  match ev with
  | EvAdd lrp => lrp_addressed lrp
  | EvRemove _ => True
  | EvSetRoutes before after => tagged before /\ tagged after /\ routes_desired after
  | EvSwap other _ => addressed (entry other)
  end.

Lemma SucceededBy_tagged m tag : is_Some tag -> is_Some (SucceededBy_ptr m tag).
Proof. intros [t ->]. destruct m; eauto. Qed.

Lemma each_entry_returns step t i st l :
  (forall t st kr, kr ∈ l -> is_Some (step t st kr)) -> is_Some (each_entry step t i st l).
Proof.
  revert i st. induction l as [|kr l IH]; intros i st Hs; simpl; [eauto|].
  destruct (Hs (slot t i) st kr) as [st' ->]; [by left|]. simpl. apply IH. intros. apply Hs. by right.
Qed.

Lemma SetRoutes_returns t T before after :
  routesGenerator cfg None = ∅ -> tagged before -> tagged after -> is_Some (SetRoutes cfg t T before after).
Proof.
  intros Hgen Hb Ha. unfold SetRoutes.
  destruct (each_entry_returns (set_routes cfg before after) (slot t 0) 1 (T, no_emission)
              (range_at (slot (slot t 0) 0) (routesGenerator cfg after))) as [st ->].
  - intros t' [T' out] [key routes] Hin. apply elem_of_range in Hin. unfold set_routes.
    destruct after as [lrp|]; [|by rewrite Hgen, lookup_empty in Hin]. simpl.
    destruct (SucceededBy_tagged (re_ModificationTag (entry T' key)) (dl_ModificationTag lrp)) as [b ->]; [by apply Ha|].
    simpl. destruct b; simpl; eauto.
  - simpl. apply each_entry_returns. intros t' [T' out] [key routes] Hin. apply elem_of_range in Hin.
    unfold unset_routes. destruct (routesGenerator cfg after !! key); [eauto|].
    destruct before as [b|]; [|by rewrite Hgen, lookup_empty in Hin].
    destruct after as [a|]; simpl; [|destruct (Tag_Equal _ _); [simpl; eauto|]].
    + destruct (SucceededBy_tagged (re_ModificationTag (entry T' key)) (dl_ModificationTag a)) as [c ->]; [by apply Ha|].
      simpl. destruct c; simpl; eauto.
    + destruct (SucceededBy_tagged (re_ModificationTag (entry T' key)) (dl_ModificationTag b)) as [c ->]; [by apply Hb|].
      simpl. destruct c; simpl; eauto.
Qed.

Lemma handle_emits t T ev :
  routesGenerator cfg None = ∅ -> addressed (entry T) -> event_ok ev ->
  exists st, handle t T ev = Some st /\ emitting tidy (entry T) st.
Proof.
  intros Hgen HT Hev. assert (forall cs, fresh [] cs -> tidy cs) as Hf by (intros cs [? _]; by left).
  destruct ev as [lrp|lrp|before after|other domains]; simpl in *.
  - eexists. split; [done|]. eapply emitting_impl; [|by apply AddEndpoint_emits]. by right; left.
  - eexists. split; [done|]. eapply emitting_impl; [|by apply RemoveEndpoint_emits]. by right; right.
  - destruct Hev as (Hb & Ha & Hd). destruct (SetRoutes_returns t T before after Hgen Hb Ha) as [st Hst].
    exists st. split; [done|]. eapply emitting_impl; [done|]. by eapply SetRoutes_emits.
  - eexists. split; [done|]. eapply emitting_impl; [done|]. by apply Swap_emits.
Qed.

Lemma run_events_in_step t T evs :
  routesGenerator cfg None = ∅ -> told_apart cfg addr desired -> addressed (entry T) -> Forall event_ok evs ->
  exists T' ems, run_events t T evs = Some (T', ems) /\
    forall R dss, in_step cfg R (entry T) -> Forall2 (fun em ds => ds ≡ₚ emitted em) ems dss ->
      in_step cfg (foldl receive R (concat dss)) (entry T').
Proof.
  intros Hgen Hapart HT Hevs. revert t T HT. induction Hevs as [|ev evs Hev _ IH]; intros t T HT; simpl.
  - exists T, []. split; [done|]. by intros R dss HR ->%Forall2_nil_inv_l.
  - destruct (handle_emits [t] T ev Hgen HT Hev) as ([T1 out] & -> & cs & Ht & Hout & Hc). simpl in Hout, Hc. subst out.
    destruct (IH (S t) T1) as (T' & ems & Hrun & Hstep); [by eapply chain_end|].
    exists T', (emission_of cfg cs :: ems). simpl. rewrite Hrun. split; [done|].
    intros R dss HR (ds & dss' & Hds & Hdss & ->)%Forall2_cons_inv_l. simpl. rewrite foldl_app.
    apply Hstep; [|done]. by eapply chain_in_step.
Qed.

End operations.
End sequences.

(** ** Properties *)

Section properties.
Context `{RouteJson, !RangeAt EndpointKey, !RangeAt RHash, !RangeAt (RHash * Endpoint), !RangeAt RoutingKey}.

(** The messages of a change of an entry bring a router from what the old
    entry advertises to what the new one advertises, also when they arrive out
    of order: the unregistered pairs of a route and an endpoint are exactly
    those no longer advertised, every new pair is registered, nothing else is.
    For each pair exactly one message is sent, the one [MessageFor] makes.
    Endpoints are stored under their own keys, and an instance known under both
    presences has one address. *)
Theorem diff_tracks_entry cfg t old new :
  keyed (re_Endpoints old) -> keyed (re_Endpoints new) -> steady (re_Endpoints old) (re_Endpoints new) ->
  tracks t old new /\
  sent_registrations (emitDiffMessages cfg t old new)
    ≡ₚ (fun p : RHash * Endpoint * (bool * routeMapping) =>
          MessageFor p.2.2 p.1.2 (directInstanceRoute cfg) p.2.1) <$> map_to_list (change_registrations t old new) /\
  sent_unregistrations (emitDiffMessages cfg t old new)
    ≡ₚ (fun p : RHash * Endpoint * routeMapping =>
          MessageFor p.2 p.1.2 (directInstanceRoute cfg) false) <$> map_to_list (change_unregistrations t old new).
Proof. intros Hold Hnew Hs. split; [by apply change_tracks|apply change_messages]. Qed.

(** The three tables of [NewRoutingTable]. *)
Definition emitter_config (cfg : TableConfig) : Prop :=
  exists direct tls, cfg = http_config direct \/ cfg = tcp_config direct tls \/ cfg = internal_config direct.

(** C5: Routers follow the tables: for each of the three tables, any sequence of
    added and removed instances, route changes and bulk syncs is handled without
    a panic, and a router that starts empty and is sent the messages of every
    operation, those of one operation in any order, ends with exactly the
    registrations of the routes and endpoints the table has.  An instance has
    one address per routing key, desired LRPs carry a modification tag, and no
    two registrations of different routes or endpoints look the same to the
    router. *)
Theorem routers_follow_table cfg addr desired t evs :
  emitter_config cfg -> told_apart cfg addr desired -> Forall (event_ok cfg addr desired) evs ->
  exists T ems, run_events cfg t empty_table evs = Some (T, ems) /\
    forall dss, Forall2 (fun em ds => ds ≡ₚ emitted em) ems dss -> in_step cfg (foldl receive [] (concat dss)) (entry T).
Proof.
  intros (direct & tls & Hcfg) Hapart Hevs.
  destruct (run_events_in_step cfg addr desired t empty_table evs) as (T & ems & Hrun & Hstep); [|done| |done|].
  - by destruct Hcfg as [->|[->| ->]].
  - intros k. apply no_entry_ok.
  - exists T, ems. split; [done|]. intros dss. apply Hstep. intros m. split; [by intros ?%not_elem_of_nil|].
    intros (k & r & ek & e & ?%not_elem_of_nil & _). done.
Qed.

Lemma Swap_routes cfg t T other domains k :
  let old := irt_entries T !! k in
  let res := entry (Swap cfg t T other domains).1 k in
  re_Endpoints res = re_Endpoints (entry other k) /\
  (forall h, h ∈ (Hash <$> re_Routes res) <->
     h ∈ (Hash <$> re_Routes (entry other k)) \/
     exists o, old = Some o /\ re_Domain o ∉ domains /\ h ∈ (Hash <$> re_Routes o)) /\
  (entry_empty res = false ->
     re_DesiredInstances res = re_DesiredInstances (entry other k) /\
     re_ModificationTag res = re_ModificationTag (entry other k)).
Proof.
  intros old res. subst res. rewrite Swap_entry. subst old.
  destruct (irt_entries T !! k) as [o|]; [|by split_and!; [|naive_solver|]].
  set (new := entry other k). set (merged := mergeUnfreshRoutes o new domains).
  assert (forall h, h ∈ (Hash <$> re_Routes merged) <->
    h ∈ (Hash <$> re_Routes new) \/ (re_Domain o ∉ domains /\ h ∈ (Hash <$> re_Routes o))) as Hr.
  { intros h. unfold merged, mergeUnfreshRoutes. simpl. case_bool_decide as Hd.
    - rewrite app_nil_r. tauto.
    - rewrite fmap_app, elem_of_app. destruct (decide (h ∈ (Hash <$> re_Routes new))) as [Hn|Hn]; [tauto|].
      split; intros [?|Ho]; try tauto.
      + right. split; [done|]. apply list_elem_of_fmap in Ho as (r & -> & [_ Hr]%list_elem_of_filter).
        by apply list_elem_of_fmap_2.
      + right. destruct Ho as [_ (r & -> & Hr)%list_elem_of_fmap]. apply list_elem_of_fmap_2, list_elem_of_filter.
        split; [|done]. unfold has_hash. by apply bool_decide_eq_false. }
  assert (forall h, h ∈ (Hash <$> re_Routes merged) <->
    h ∈ (Hash <$> re_Routes new) \/ exists o', Some o = Some o' /\ re_Domain o' ∉ domains /\ h ∈ (Hash <$> re_Routes o'))
    as Hr' by (intros h; rewrite Hr; naive_solver).
  simpl. destruct (entry_empty merged) eqn:E; [|split_and!; done].
  unfold entry_empty in E. apply andb_true_iff in E as [E1%bool_decide_eq_true E2%bool_decide_eq_true].
  split_and!; [exact (eq_sym E1)| |done]. intros h. by rewrite <- Hr', E2.
Qed.

Lemma Swap_fresh cfg t T other domains k :
  (forall e, irt_entries T !! k = Some e -> re_Routes e = [] \/ re_Domain e ∈ domains) ->
  advertised (entry (Swap cfg t T other domains).1 k) = advertised (entry other k).
Proof.
  intros Hfresh. destruct (Swap_routes cfg t T other domains k) as (He & Hr & _). simpl in *.
  apply set_eq. intros [h n]. rewrite !elem_of_advertised, He, Hr. split; intros [Hh Hn]; (split; [|done]); [|by left].
  destruct Hh as [?|(o & Ho & Hd & Hr')]; [done|]. apply Hfresh in Ho as [Ho|Ho]; [|done].
  rewrite Ho in Hr'. by apply not_elem_of_nil in Hr'.
Qed.

(** The bulk sync takes the endpoints, the instance count and the tag of
    every entry from the new table.  It takes the routes from the new table too
    and, when the entry existed before under a domain that is not fresh, keeps
    the old routes the new table does not have; routes of a fresh domain that
    the new table does not have are gone. *)
Theorem Swap_merges cfg t T other domains k :
  let old := irt_entries T !! k in
  let res := entry (Swap cfg t T other domains).1 k in
  re_Endpoints res = re_Endpoints (entry other k) /\
  (forall h, h ∈ (Hash <$> re_Routes res) <->
     h ∈ (Hash <$> re_Routes (entry other k)) \/
     exists o, old = Some o /\ re_Domain o ∉ domains /\ h ∈ (Hash <$> re_Routes o)) /\
  (entry_empty res = false ->
     re_DesiredInstances res = re_DesiredInstances (entry other k) /\
     re_ModificationTag res = re_ModificationTag (entry other k)).
Proof. apply Swap_routes. Qed.

(** *** Domains that are lost *)

Fixpoint swaps (cfg : TableConfig) (t : nat) (T : internalRoutingTable)
    (l : list (internalRoutingTable * gset string)) : internalRoutingTable :=
  match l with
  | [] => T
  | (other, domains) :: l => swaps cfg (S t) (Swap cfg [t] T other domains).1 l
  end.

Definition no_domain (T : internalRoutingTable) (k : RoutingKey) : Prop :=
  forall e, irt_entries T !! k = Some e -> re_Domain e = "".

Lemma add_endpoint_no_domain cfg guid t st e k :
  no_domain st.1 k -> no_domain (add_endpoint cfg guid t st e).1 k.
Proof.
  destruct st as [T out]. intros Hn. unfold add_endpoint. case_match; [done|]. case_match; [done|].
  intros e'. simpl. rewrite lookup_insert. case_decide as Hk; [|exact (Hn e')]. intros [= <-]. simpl. subst k.
  unfold entry. destruct (irt_entries T !! _) eqn:E; [by apply Hn in E|done].
Qed.

Lemma AddEndpoint_no_domain cfg t T lrp k : no_domain T k -> no_domain (AddEndpoint cfg t T lrp).1 k.
Proof.
  intros Hn. unfold AddEndpoint.
  assert (no_domain (if suppressAddressCollision cfg then T
                     else foldl (note_address cfg) T (endpointGenerator cfg lrp)) k) as Hn'.
  { destruct (suppressAddressCollision cfg); [done|]. intros e. rewrite (entry_note_addresses (note_address cfg)); [apply Hn|done]. }
  revert Hn'. generalize (if suppressAddressCollision cfg then T
                     else foldl (note_address cfg) T (endpointGenerator cfg lrp)) as T0.
  intros T0 Hn'. assert (no_domain (T0, no_emission).1 k) as Hst by done. revert Hst.
  generalize (T0, no_emission) as st. generalize 0 as i.
  induction (endpointGenerator cfg lrp) as [|e l IH]; intros i st Hst; simpl; [done|].
  apply IH. by apply add_endpoint_no_domain.
Qed.

Lemma swap_keeps_unfresh cfg t T other domains k e r :
  irt_entries T !! k = Some e -> re_Domain e ∉ domains -> r ∈ re_Routes e ->
  exists e', irt_entries (Swap cfg t T other domains).1 !! k = Some e' /\ re_Domain e' = re_Domain e /\
    Hash r ∈ (Hash <$> re_Routes e').
Proof.
  intros Hk Hd Hr. pose proof (Swap_entry cfg t T other domains k) as He. rewrite Hk in He. simpl in He.
  set (merged := mergeUnfreshRoutes e (entry other k) domains) in *.
  assert (Hash r ∈ (Hash <$> re_Routes merged)) as Hm.
  { unfold merged, mergeUnfreshRoutes. simpl. rewrite bool_decide_false by done. rewrite fmap_app, elem_of_app.
    destruct (decide (Hash r ∈ (Hash <$> re_Routes (entry other k)))) as [?|Hn]; [by left|right].
    apply list_elem_of_fmap_2, list_elem_of_filter. split; [by apply bool_decide_eq_false|done]. }
  assert (entry_empty merged = false) as E.
  { unfold entry_empty. apply andb_false_iff. right. apply bool_decide_eq_false. intros E. by rewrite E in Hm; apply not_elem_of_nil in Hm. }
  rewrite E in He. unfold entry in He at 1.
  destruct (irt_entries (Swap cfg t T other domains).1 !! k) as [e'|]; simpl in He.
  - exists e'. by subst e'.
  - rewrite <- He in E. by vm_compute in E.
Qed.

Lemma swaps_keep_no_domain cfg t T l k e h :
  Forall (fun od => "" ∉ od.2) l -> irt_entries T !! k = Some e -> h ∈ (Hash <$> re_Routes e) -> re_Domain e = "" ->
  exists e', irt_entries (swaps cfg t T l) !! k = Some e' /\ re_Domain e' = "" /\ h ∈ (Hash <$> re_Routes e').
Proof.
  intros Hl. revert e t T. induction Hl as [|[other domains] l Hd _ IH]; intros e t T Hk Hh He; simpl; [by exists e|].
  apply list_elem_of_fmap in Hh as (r & -> & Hr).
  destruct (swap_keeps_unfresh cfg [t] T other domains k e r Hk) as (e1 & Hk1 & He1 & Hr1); [by rewrite He|done|].
  eapply IH; [done..|]. by rewrite He1.
Qed.

(** An entry that [AddEndpoint] creates has no domain, and [Swap] gives it
    none: from then on, however many bulk syncs follow, with any tables and any
    fresh domains (the empty name is not one), each of its routes stays, although
    no desired LRP has it any more. *)
Theorem lost_domain_never_fresh cfg t T lrp k l e r :
  irt_entries T !! k = None -> Forall (fun od => "" ∉ od.2) l ->
  forall other domains, "" ∉ domains ->
  irt_entries (Swap cfg [S t] (AddEndpoint cfg [t] T lrp).1 other domains).1 !! k = Some e ->
  is_Some (irt_entries (AddEndpoint cfg [t] T lrp).1 !! k) -> r ∈ re_Routes e ->
  exists e', irt_entries (swaps cfg (S (S t)) (Swap cfg [S t] (AddEndpoint cfg [t] T lrp).1 other domains).1 l) !! k = Some e' /\
    re_Domain e' = "" /\ Hash r ∈ (Hash <$> re_Routes e').
Proof.
  intros Hk Hl other domains Hd Hs [e0 Ha] Hr.
  assert (re_Domain e0 = "") as Hd0 by (eapply (AddEndpoint_no_domain cfg [t] T lrp k); [by intros ?; rewrite Hk|done]).
  assert (re_Domain e = "") as Hde.
  { pose proof (Swap_entry cfg [S t] (AddEndpoint cfg [t] T lrp).1 other domains k) as He.
    unfold entry in He at 1. rewrite Hs, Ha in He. simpl in He. by case_match; rewrite He. }
  eapply swaps_keep_no_domain; [done..|by apply list_elem_of_fmap_2|done].
Qed.
End properties.
