(* ===== verification/RoutingExamples.v ===== *)
(** * Runs of the routing table

    Concrete tables and events: the properties of the routing table applied to
    them, and the cases its differences get wrong. *)
From Stdlib Require Import ZArith Lia.
From S2P Require Import Prelude GoStd Routes RoutingTable RoutingProps.

#[local] Instance endpoint_key_range : RangeAt EndpointKey := canonical_range_at EndpointKey.
#[local] Instance hash_range : RangeAt RHash := canonical_range_at RHash.
#[local] Instance pair_range : RangeAt (RHash * Endpoint) := canonical_range_at (RHash * Endpoint).
#[local] Instance routing_key_range : RangeAt RoutingKey := canonical_range_at RoutingKey.

(** Routing data whose text is the hostname of one route to port 8080. *)
Definition ex_json : RouteJson :=
  {| unmarshal_cf := fun s => ([mkCFRoute [s] 8080 "" "" "" ""], true);
     unmarshal_tcp := fun s => ([mkTCPRoute s 1024 8080 None false false], true);
     unmarshal_internal := fun s => ([s], true);
     json_normal := fun s => Some s |}.

#[local] Existing Instance ex_json.

Definition ex_desired (hostname : string) (instances : Z) (tag : Z) : DesiredLRP :=
  mkDesiredLRP "process" "domain" "log" instances (Some {["cf-router" := Some hostname]}) ∅
    (Some (mkTag "epoch" tag)).

Definition ex_actual (guid : string) (index presence tag port : Z) : ActualLRP :=
  mkActualLRP "process" index guid "10.0.0.1" "10.255.0.1" "" [Some (mkLRPPortMapping 8080 port 0 0)]
    PreferredAddressUnknown presence 0 (mkTag "epoch" tag) "z1" ActualLRPStateRunning None "domain" "cell".

Definition ex_key : RoutingKey := NewRoutingKey "process" 8080.
Definition ex_http : TableConfig := http_config false.

(** Where the instances of the examples are: a guid has one port. *)
Definition ex_addr (k : RoutingKey) (guid : string) : Endpoint :=
  if bool_decide (guid = "i0") then norm (endpoint_of (ex_actual "i0" 0 0 1 61000) (mkLRPPortMapping 8080 61000 0 0))
  else norm (endpoint_of (ex_actual "i1" 1 0 1 61001) (mkLRPPortMapping 8080 61001 0 0)).

Definition ex_events : list TableEvent :=
  [EvSetRoutes None (Some (ex_desired "a.example.com" 2 1));
   EvAdd (ex_actual "i0" 0 0 1 61000);
   EvAdd (ex_actual "i1" 1 0 1 61001);
   EvAdd (ex_actual "i0" 0 ActualLRP_Evacuating 2 61000);
   EvRemove (ex_actual "i0" 0 0 2 61000);
   EvSetRoutes (Some (ex_desired "a.example.com" 2 1)) (Some (ex_desired "b.example.com" 1 2));
   EvSwap empty_table {["domain"]}].

Lemma ex_lrp_addressed guid index presence tag port :
  (guid = "i0" /\ index = 0%Z /\ port = 61000%Z) \/ (guid = "i1" /\ index = 1%Z /\ port = 61001%Z) ->
  lrp_addressed ex_http ex_addr (ex_actual guid index presence tag port).
Proof.
  intros Hlrp e [->|[]%not_elem_of_nil]%elem_of_cons. by destruct Hlrp as [(-> & -> & ->)|(-> & -> & ->)].
Qed.

Lemma ex_tagged h n tag : tagged (Some (ex_desired h n tag)).
Proof. intros l [= <-]. eauto. Qed.

(** Routes of the examples, all of one key, told apart by their hostname. *)
Definition ex_route (hostname : string) : routeMapping := HTTP (mkRoute hostname "" "" "log" "" ∅ "").
Definition ex_wanted (k : RoutingKey) (r : routeMapping) : Prop := k = ex_key /\ exists hostname, r = ex_route hostname.

Lemma ex_told_apart : told_apart ex_http ex_addr ex_wanted.
Proof.
  intros k r g k' r' g' [-> [h ->]] [-> [h' ->]] Hg Hg' Hm. revert Hm. rewrite <- Hg, <- Hg'. clear. unfold ex_addr.
  destruct (bool_decide (g = _)), (bool_decide (g' = _)); intros [=]; by subst.
Qed.

Lemma ex_routes_desired h n tag : h = "a.example.com" \/ h = "b.example.com" ->
  routes_desired ex_http ex_wanted (Some (ex_desired h n tag)).
Proof.
  intros Hh k routes r. assert (routesGenerator ex_http (Some (ex_desired h n tag)) = {[ex_key := [ex_route h]]}) as ->.
  { destruct Hh as [-> | ->]; reflexivity. }
  intros [<- <-]%lookup_singleton_Some ->%list_elem_of_singleton. split; [done|]. by eexists.
Qed.

Lemma routers_follow_table_witness :
  exists T ems, run_events ex_http 0 empty_table ex_events = Some (T, ems) /\
    forall dss, Forall2 (fun em ds => ds ≡ₚ emitted em) ems dss -> in_step ex_http (foldl receive [] (concat dss)) (entry T).
Proof.
  apply (routers_follow_table ex_http ex_addr ex_wanted 0 ex_events).
  - exists false, false. by left.
  - exact ex_told_apart.
  - repeat (apply Forall_cons; split); [| | | | | | |apply Forall_nil; exact I]; simpl.
    1, 6: split_and!; first [apply ex_tagged|by intros l [=]|apply ex_routes_desired; auto].
    1, 2, 3: apply ex_lrp_addressed; auto.
    1: exact I.
    intros k. apply no_entry_ok.
Defined.

(** What each event registers and unregisters; the last sync withdraws what
    is left. *)
Example ex_events_messages :
  option_map (fun st : internalRoutingTable * list Emission =>
    map (fun em => (length (sent_registrations em), length (sent_unregistrations em))) st.2)
    (run_events ex_http 0 empty_table ex_events) = Some [(0, 0); (1, 0); (1, 0); (0, 0); (0, 0); (1, 2); (0, 1)].
Proof. vm_compute. reflexivity. Qed.

(** The router is not left empty: before the last sync it holds the second
    route for the instance that is still wanted. *)
Example ex_events_advertise :
  (fun st => elements (advertised (entry st.1 ex_key))) <$> run_events ex_http 0 empty_table (take 6 ex_events) =
  Some [(Hash (HTTP (mkRoute "b.example.com" "" "" "log" "" ∅ "")), ex_addr ex_key "i0")].
Proof. vm_compute. reflexivity. Qed.

(** ** One change *)

Definition ex_endpoint (guid : string) (index presence tag port : Z) : Endpoint :=
  endpoint_of (ex_actual guid index presence tag port) (mkLRPPortMapping 8080 port 0 0).

Definition ex_endpoints (l : list Endpoint) : gmap EndpointKey Endpoint :=
  list_to_map ((fun e => (Endpoint_key e, e)) <$> l).

Definition ex_entry (routes : list routeMapping) (l : list Endpoint) : RoutableEndpoints :=
  mkRoutableEndpoints "domain" routes (ex_endpoints l) 2 (Some (mkTag "epoch" 1)).

(** Instance [i0] moves from running to evacuating, [i1] appears and one of two
    routes goes away. *)
Definition ex_old : RoutableEndpoints :=
  ex_entry [ex_route "a"; ex_route "b"] [ex_endpoint "i0" 0 0 1 61000].
Definition ex_new : RoutableEndpoints :=
  ex_entry [ex_route "a"] [ex_endpoint "i0" 0 ActualLRP_Evacuating 2 61000; ex_endpoint "i1" 1 0 1 61001].

Lemma ex_change_steady :
  keyed (re_Endpoints ex_old) /\ keyed (re_Endpoints ex_new) /\ steady (re_Endpoints ex_old) (re_Endpoints ex_new).
Proof.
  apply (addressed_steady ex_addr (fun _ _ => True) ex_key); (split; [|done]).
  - apply (bool_decide_unpack (map_Forall (fun ek e =>
      Endpoint_key e = ek /\ norm e = ex_addr ex_key (e_InstanceGUID e)) (re_Endpoints ex_old))).
    vm_compute. exact I.
  - apply (bool_decide_unpack (map_Forall (fun ek e =>
      Endpoint_key e = ek /\ norm e = ex_addr ex_key (e_InstanceGUID e)) (re_Endpoints ex_new))).
    vm_compute. exact I.
Qed.

Lemma diff_tracks_entry_witness :
  tracks [] ex_old ex_new /\
  elements (pairs_of (change_registrations [] ex_old ex_new)) = [(Hash (ex_route "a"), ex_addr ex_key "i1")] /\
  elements (pairs_of (change_unregistrations [] ex_old ex_new)) = [(Hash (ex_route "b"), ex_addr ex_key "i0")].
Proof.
  split; [|split; vm_compute; reflexivity].
  apply (diff_tracks_entry ex_http [] ex_old ex_new); apply ex_change_steady.
Defined.

(** Without one address for both presences a withdrawn endpoint can be
    forgotten: both endpoints of [i0] are withdrawn, and the diff stores them
    under the same key, so that only one of them is unregistered. *)
Example unregistration_lost :
  let old := ex_entry [ex_route "a"] [ex_endpoint "i0" 0 0 1 61000; ex_endpoint "i0" 0 ActualLRP_Evacuating 1 61005] in
  let new := ex_entry [ex_route "a"] [ex_endpoint "i0" 0 ActualLRP_Evacuating 2 61009] in
  (fun p => e_Port p.1.2) <$> map_to_list (change_unregistrations [] old new) = [61000]%Z.
Proof. vm_compute. reflexivity. Qed.

(** ** A domain that is lost *)

Definition ex_bulk : internalRoutingTable :=
  match SetRoutes ex_http [] empty_table None (Some (ex_desired "a.example.com" 2 1)) with
  | Some st => (AddEndpoint ex_http [] st.1 (ex_actual "i0" 0 0 1 61000)).1
  | None => empty_table
  end.

Definition ex_added : internalRoutingTable := (AddEndpoint ex_http [0] empty_table (ex_actual "i0" 0 0 1 61000)).1.
Definition ex_synced : internalRoutingTable := (Swap ex_http [1] ex_added ex_bulk {["domain"]}).1.

(** The instance is seen first, the next sync brings its desired LRP; then the
    desired LRP is gone, its domain is fresh, and the route stays. *)
Lemma lost_domain_never_fresh_witness :
  exists e', irt_entries (swaps ex_http 2 ex_synced [(empty_table, {["domain"]}); (empty_table, {["domain"]})]) !! ex_key = Some e' /\
    re_Domain e' = "" /\ Hash (ex_route "a.example.com") ∈ Hash <$> re_Routes e'.
Proof.
  assert (irt_entries ex_synced !! ex_key =
    Some (mkRoutableEndpoints "" [ex_route "a.example.com"] (ex_endpoints [ex_endpoint "i0" 0 0 1 61000]) 2
            (Some (mkTag "epoch" 1)))) as Hs by (vm_compute; reflexivity).
  assert ("" ∉ ({["domain"]} : gset string)) as Hd by (by apply not_elem_of_singleton).
  assert (Forall (fun od : internalRoutingTable * gset string => "" ∉ od.2)
    [(empty_table, {["domain"]}); (empty_table, {["domain"]})]) as Hl by (by repeat apply Forall_cons_2).
  assert (is_Some (irt_entries ex_added !! ex_key)) as Ha by (eexists; vm_compute; reflexivity).
  exact (lost_domain_never_fresh ex_http 0 empty_table (ex_actual "i0" 0 0 1 61000) ex_key
           [(empty_table, {["domain"]}); (empty_table, {["domain"]})] _ (ex_route "a.example.com")
           eq_refl Hl ex_bulk {["domain"]} Hd Hs Ha
           (list_elem_of_here _ _)).
Defined.
