(* ===== verification/RouteHandler.v ===== *)
(** * Handlers, watcher and emitters of the route emitter

    [route-emitter/routehandlers/handler.go], [unregistration], [watcher] and
    [emitter]: events of the BBS and bulk syncs applied to the routing table,
    the messages handed to NATS and to the routing API, and the cache of
    unregistrations that are sent again.  Logs and counters are left out. *)
From Stdlib Require Import ZArith Lia.
From S2P Require Import Prelude GoStd Routes RoutingTable.

(** ** The cache of unregistrations

    [hashstructure.Hash] is an argument: a hash, or an error, of the fields of a
    message that are not marked [hash:"ignore"]. *)
Class MessageHash := hash_fields : string -> Z -> Z -> list string -> string -> option Z.

Definition message_hash `{MessageHash} (m : RegistryMessage) : option Z :=
  hash_fields (rm_Host m) (rm_Port m) (rm_TlsPort m) (rm_URIs m) (rm_Protocol m).

Record CachedMessage := mkCachedMessage { cm_RegistryMessage : RegistryMessage; cm_SentCount : Z }.
Abbreviation Cache := (gmap Z CachedMessage).

Section cache.
Context `{MessageHash, !RangeAt Z}.

(** The second result: no error.  After an error the messages before it have
    been dealt with. *)
Fixpoint Cache_Add (c : Cache) (l : list RegistryMessage) : Cache * bool :=
  match l with
  | [] => (c, true)
  | m :: l =>
      match message_hash m with
      | None => (c, false)
      | Some h => Cache_Add (<[h := mkCachedMessage m 0]> c) l
      end
  end.

Fixpoint Cache_Remove (c : Cache) (l : list RegistryMessage) : Cache * bool :=
  match l with
  | [] => (c, true)
  | m :: l =>
      match message_hash m with
      | None => (c, false)
      | Some h => Cache_Remove (delete h c) l
      end
  end.

Definition Cache_List (t : list nat) (c : Cache) : list (Z * CachedMessage) := range_at t c.

(** A tick of the sender: every message is sent once more, and forgotten after
    [sendCount] times.  The list holds pointers to the messages of the map. *)
Definition send_cached (sendCount : Z) (st : Cache * list RegistryMessage) (hm : Z * CachedMessage)
    : Cache * list RegistryMessage :=
  let '(c, sent) := st in
  let '(h, m) := hm in
  let count := i64 (cm_SentCount m + 1) in
  let c := <[h := mkCachedMessage (cm_RegistryMessage m) count]> c in
  (if bool_decide (count = sendCount) then (Cache_Remove c [cm_RegistryMessage m]).1 else c,
   sent ++ [cm_RegistryMessage m]).

Definition Sender_tick (t : list nat) (sendCount : Z) (c : Cache) : Cache * list RegistryMessage :=
  foldl (send_cached sendCount) (c, []) (Cache_List t c).
End cache.

(** ** Emitters *)

(** What a handler hands to its emitters. *)
Inductive Output :=
| NATSEmit (m : MessagesToEmit)
| APIEmit (m : TCPRouteMappings).

(** [natsEmitter.Emit]: the messages are published by the workers of a pool,
    which finish in any order; [publish] is the answer of NATS.  The result is
    what was published, and the first error. *)
Definition nats_subjects (emitInternalRoutes : bool) (m : MessagesToEmit) : list (string * RegistryMessage) :=
  (pair "router.register" <$> RegistrationMessages m) ++
  (pair "router.unregister" <$> UnregistrationMessages m) ++
  (if emitInternalRoutes then
     (pair "service-discovery.register" <$> InternalRegistrationMessages m) ++
     (pair "service-discovery.unregister" <$> InternalUnregistrationMessages m)
   else []).

Definition natsEmitter_Emit `{WorkOrder} (t : nat) (emitInternalRoutes : bool)
    (publish : string * RegistryMessage -> option string) (m : MessagesToEmit)
    : list (string * RegistryMessage) * option string :=
  let finished := finish_order t (nats_subjects emitInternalRoutes m) in
  (finished, head (omap publish finished)).

(** Calls of the routing API. *)
Inductive APICall :=
| Upsert (l : list TcpRouteMapping)
| Delete (l : list TcpRouteMapping).

Definition set_ttl (ttl : Z) (m : TcpRouteMapping) : TcpRouteMapping :=
  mkTcpRouteMapping (tm_RouterGroupGuid m) (tm_ExternalPort m) (tm_HostIP m) (tm_HostPort m)
    (tm_HostTLSPort m) (tm_InstanceId m) (tm_SniHostname m) (tm_SniRewriteHostname m) ttl
    (tm_TerminateFrontendTLS m) (tm_ALPNs m) (tm_EnableBackendMTLS m).

(** [api attempt call] is the error the routing API answers with. *)
Definition emitRoutingAPI (ttl : Z) (api : APICall -> option string) (regMsgs unregMsgs : list TcpRouteMapping)
    : list APICall * option string :=
  let upsert := Upsert (set_ttl ttl <$> regMsgs) in
  let del := Delete (set_ttl ttl <$> unregMsgs) in
  let '(calls, err) := if bool_decide (regMsgs = []) then ([], None) else ([upsert], api upsert) in
  match err with
  | Some e => (calls, Some e)
  | None => if bool_decide (unregMsgs = []) then (calls, None) else (calls ++ [del], api del)
  end.

(** At most two attempts, the second with a token fetched anew. *)
Definition routingAPIEmitter_emit (ttl : Z) (fetchToken : bool -> option string)
    (api : nat -> APICall -> option string) (regMsgs unregMsgs : list TcpRouteMapping)
    : list APICall * option string :=
  match fetchToken false with
  | Some e => ([], Some e)
  | None =>
      let '(calls, err) := emitRoutingAPI ttl (api 0) regMsgs unregMsgs in
      match err with
      | None => (calls, None)
      | Some _ =>
          match fetchToken true with
          | Some e => (calls, Some e)
          | None =>
              let '(calls', err) := emitRoutingAPI ttl (api 1) regMsgs unregMsgs in
              (calls ++ calls', err)
          end
      end
  end.

Definition routingAPIEmitter_Emit (ttl : Z) (fetchToken : bool -> option string)
    (api : nat -> APICall -> option string) (m : TCPRouteMappings) : list APICall * option string :=
  if bool_decide (tcp_Registrations m = []) && bool_decide (tcp_Unregistrations m = []) then ([], None)
  else routingAPIEmitter_emit ttl fetchToken api (tcp_Registrations m) (tcp_Unregistrations m).

(** ** Events *)

(** The events the emitter subscribes to; pointers may be nil. *)
Inductive Event :=
| DesiredLRPCreatedEvent (lrp : option DesiredLRP)
| DesiredLRPChangedEvent (before after : option DesiredLRP)
| DesiredLRPRemovedEvent (lrp : option DesiredLRP)
| ActualLRPInstanceCreatedEvent (lrp : option ActualLRP)
| ActualLRPInstanceChangedEvent (instanceGuid : string) (before after : option ActualLRP)
| ActualLRPInstanceRemovedEvent (lrp : option ActualLRP)
| UnrecognizedEvent (key : string).

Definition process_guid (lrp : option DesiredLRP) : string := default "" (dl_ProcessGuid <$> lrp).
Definition instance_guid (lrp : option ActualLRP) : string := default "" (al_InstanceGuid <$> lrp).

Definition Event_Key (ev : Event) : string :=
  match ev with
  | DesiredLRPCreatedEvent lrp | DesiredLRPRemovedEvent lrp => process_guid lrp
  | DesiredLRPChangedEvent before _ => process_guid before
  | ActualLRPInstanceCreatedEvent lrp | ActualLRPInstanceRemovedEvent lrp => instance_guid lrp
  | ActualLRPInstanceChangedEvent guid _ _ => guid
  | UnrecognizedEvent key => key
  end.

(** ** The handler *)

(** The flags say which emitters are configured; [h_direct] is the setting of
    the routing table. *)
Record Handler := mkHandler {
  h_routingTable : routingTable;
  h_direct : bool;
  h_tcpTLSEnabled : bool;
  h_natsEmitter : bool;
  h_routingAPIEmitter : bool;
  h_unregistrationCache : Cache }.

Definition set_table (h : Handler) (T : routingTable) : Handler :=
  mkHandler T (h_direct h) (h_tcpTLSEnabled h) (h_natsEmitter h) (h_routingAPIEmitter h) (h_unregistrationCache h).
Definition set_cache (h : Handler) (c : Cache) : Handler :=
  mkHandler (h_routingTable h) (h_direct h) (h_tcpTLSEnabled h) (h_natsEmitter h) (h_routingAPIEmitter h) c.

Definition emitMessages (h : Handler) (mappings : TCPRouteMappings) (messages : MessagesToEmit) : list Output :=
  (if h_natsEmitter h then [NATSEmit messages] else []) ++
  (if h_routingAPIEmitter h then [APIEmit mappings] else []).

Section handler.
Context `{RouteJson, !RangeAt EndpointKey, !RangeAt RHash, !RangeAt (RHash * Endpoint), !RangeAt RoutingKey,
  !RangeAt string, MessageHash}.

(** The operations of the handler's table.  [None] is a panic. *)
Definition table_SetRoutes (t : list nat) (h : Handler) (before after : option DesiredLRP)
    : option (Handler * (TCPRouteMappings * MessagesToEmit)) :=
  st ← routingTable_SetRoutes (h_direct h) (h_tcpTLSEnabled h) t (h_routingTable h) before after;
  Some (set_table h st.1, st.2).
Definition table_AddEndpoint (t : list nat) (h : Handler) (lrp : ActualLRP)
    : Handler * (TCPRouteMappings * MessagesToEmit) :=
  let st := routingTable_AddEndpoint (h_direct h) (h_tcpTLSEnabled h) t (h_routingTable h) lrp in
  (set_table h st.1, st.2).
Definition table_RemoveEndpoint (t : list nat) (h : Handler) (lrp : ActualLRP)
    : Handler * (TCPRouteMappings * MessagesToEmit) :=
  let st := routingTable_RemoveEndpoint (h_direct h) (h_tcpTLSEnabled h) t (h_routingTable h) lrp in
  (set_table h st.1, st.2).

(** Remember the unregistrations, forget the registrations, then emit; an error
    of the cache ends the handling before anything is emitted. *)
Definition cache_and_emit (h : Handler) (mm : TCPRouteMappings * MessagesToEmit) : Handler * list Output :=
  let '(c, ok) := Cache_Add (h_unregistrationCache h) (UnregistrationMessages mm.2) in
  if negb ok then (set_cache h c, [])
  else
    let '(c, ok) := Cache_Remove c (RegistrationMessages mm.2) in
    if negb ok then (set_cache h c, []) else (set_cache h c, emitMessages h mm.1 mm.2).

Definition handleDesiredCreate (t : list nat) (h : Handler) (lrp : option DesiredLRP) : option (Handler * list Output) :=
  '(h, mm) ← table_SetRoutes t h None lrp;
  Some (h, emitMessages h mm.1 mm.2).

Definition handleDesiredUpdate (t : list nat) (h : Handler) (before after : option DesiredLRP)
    : option (Handler * list Output) :=
  '(h, mm) ← table_SetRoutes t h before after;
  Some (cache_and_emit h mm).

Definition handleDesiredDelete (t : list nat) (h : Handler) (lrp : option DesiredLRP) : option (Handler * list Output) :=
  '(h, mm) ← table_SetRoutes t h lrp None;
  Some (h, emitMessages h mm.1 mm.2).

Definition running (lrp : ActualLRP) : bool := bool_decide (al_State lrp = ActualLRPStateRunning).

Definition handleActualCreate (t : list nat) (h : Handler) (lrp : ActualLRP) : Handler * list Output :=
  if negb (running lrp) then (h, [])
  else let '(h, mm) := table_AddEndpoint t h lrp in (h, emitMessages h mm.1 mm.2).

Definition Merge_both (a b : TCPRouteMappings * MessagesToEmit) : TCPRouteMappings * MessagesToEmit :=
  (Mappings_Merge a.1 b.1, Messages_Merge a.2 b.2).

Definition handleActualUpdate (t : list nat) (h : Handler) (before after : ActualLRP) : Handler * list Output :=
  let '(h, mm) :=
    if running after then
      let '(h, mm) :=
        if negb (RoutableExists after) || GetRoutable after then table_AddEndpoint (slot t 0) h after
        else if GetRoutable before then table_RemoveEndpoint (slot t 0) h after
        else (h, (no_mappings, no_messages)) in
      if running before && bool_decide (al_Presence before = ActualLRP_Ordinary)
         && bool_decide (al_Presence after = ActualLRP_Evacuating) then
        let '(h, removed) := table_RemoveEndpoint (slot t 1) h before in (h, Merge_both mm removed)
      else (h, mm)
    else if running before then table_RemoveEndpoint (slot t 0) h before
    else (h, (no_mappings, no_messages)) in
  cache_and_emit h mm.

Definition handleActualDelete (t : list nat) (h : Handler) (lrp : ActualLRP) : Handler * list Output :=
  if negb (running lrp) then (h, [])
  else let '(h, mm) := table_RemoveEndpoint t h lrp in (h, emitMessages h mm.1 mm.2).

Definition HandleEvent (t : list nat) (h : Handler) (ev : Event) : option (Handler * list Output) :=
  match ev with
  | DesiredLRPCreatedEvent lrp => handleDesiredCreate t h lrp
  | DesiredLRPChangedEvent before after => handleDesiredUpdate t h before after
  | DesiredLRPRemovedEvent lrp => handleDesiredDelete t h lrp
  | ActualLRPInstanceCreatedEvent (Some lrp) => Some (handleActualCreate t h lrp)
  | ActualLRPInstanceChangedEvent _ (Some before) (Some after) => Some (handleActualUpdate t h before after)
  | ActualLRPInstanceRemovedEvent (Some lrp) => Some (handleActualDelete t h lrp)
  | _ => Some (h, [])
  end.

Definition EmitExternal (t : list nat) (h : Handler) : list Output :=
  let mm := GetExternalRoutingEvents (h_direct h) (h_tcpTLSEnabled h) t (h_routingTable h) in
  emitMessages h mm.1 mm.2.

Definition EmitInternal (t : list nat) (h : Handler) : list Output :=
  let mm := GetInternalRoutingEvents (h_direct h) t (h_routingTable h) in
  if h_natsEmitter h then [NATSEmit mm.2] else [].

Definition ShouldRefreshDesired (h : Handler) (lrp : ActualLRP) : option bool :=
  negb <$> routingTable_HasExternalRoutes (h_routingTable h) lrp.

(** A loop over a slice whose body may panic; the outputs are in order. *)
Fixpoint each {A} (step : list nat -> Handler -> A -> option (Handler * list Output)) (t : list nat) (i : nat)
    (h : Handler) (l : list A) : option (Handler * list Output) :=
  match l with
  | [] => Some (h, [])
  | a :: l =>
      '(h, out) ← step (slot t i) h a;
      '(h, outs) ← each step t (S i) h l;
      Some (h, out ++ outs)
  end.

Definition RefreshDesired (t : list nat) (h : Handler) (l : list DesiredLRP) : option (Handler * list Output) :=
  each (fun t h lrp => handleDesiredCreate t h (Some lrp)) t 0 h l.

(** *** The bulk sync *)

(** The table of the desired and running LRPs: built with instance routes off,
    whatever the emitter's setting. *)
Definition bulk_routes (tls : bool) (t : list nat) (T : routingTable) (lrp : DesiredLRP) : option routingTable :=
  fst <$> routingTable_SetRoutes false tls t T None (Some lrp).
Definition bulk_endpoints (tls : bool) (t : list nat) (T : routingTable) (lrp : ActualLRP) : routingTable :=
  (routingTable_AddEndpoint false tls t T lrp).1.

Fixpoint bulk_desired (tls : bool) (t : list nat) (i : nat) (T : routingTable) (l : list DesiredLRP) : option routingTable :=
  match l with
  | [] => Some T
  | lrp :: l => T ← bulk_routes tls (slot t i) T lrp; bulk_desired tls t (S i) T l
  end.
Fixpoint bulk_actual (tls : bool) (t : list nat) (i : nat) (T : routingTable) (l : list ActualLRP) : routingTable :=
  match l with
  | [] => T
  | lrp :: l => bulk_actual tls t (S i) (bulk_endpoints tls (slot t i) T lrp) l
  end.

(** The events that arrived meanwhile are handled with the new table in place
    of the handler's and without emitters; the cache is the handler's. *)
Definition with_bulk_table (h : Handler) (T : routingTable) : Handler :=
  mkHandler T false (h_tcpTLSEnabled h) false false (h_unregistrationCache h).

Definition Sync (t : list nat) (h : Handler) (desired : list DesiredLRP) (actuals : list ActualLRP)
    (domains : gset string) (cachedEvents : gmap string Event) : option (Handler * list Output) :=
  newTable ← bulk_desired (h_tcpTLSEnabled h) (slot t 0) 0 NewRoutingTable desired;
  let newTable := bulk_actual (h_tcpTLSEnabled h) (slot t 1) 0 newTable actuals in
  '(b, _) ← each HandleEvent (slot t 2) 1 (with_bulk_table h newTable)
             (snd <$> range_at (slot (slot t 2) 0) cachedEvents);
  let st := routingTable_Swap (h_direct h) (h_tcpTLSEnabled h) (slot t 3) (h_routingTable h)
              (h_routingTable b) domains in
  let mm := st.2 in
  let c := (Cache_Add (h_unregistrationCache b) (UnregistrationMessages mm.2)).1 in
  let c := (Cache_Remove c (RegistrationMessages mm.2)).1 in
  let h := set_cache (set_table h st.1) c in
  Some (h, emitMessages h mm.1 mm.2).
End handler.

(** ** The watcher *)

(** What the BBS answers: the desired LRPs for some process guids (all of them
    for none), through the newer endpoint or, where it does not exist, the
    older one; the instances of the cell; the fresh domains. *)
Inductive BBSError := EndpointNotFoundErr | OtherError (text : string).
Record BBS := mkBBS {
  bbs_DesiredLRPRoutingInfos : list string -> result BBSError (list DesiredLRP);
  bbs_DesiredLRPs : list string -> result BBSError (list DesiredLRP);
  bbs_ActualLRPs : string -> result BBSError (list ActualLRP);
  bbs_Domains : result BBSError (list string) }.

Definition getDesiredLRPs (bbs : BBS) (guids : list string) : result BBSError (list DesiredLRP) :=
  match bbs_DesiredLRPRoutingInfos bbs guids with
  | Err EndpointNotFoundErr => bbs_DesiredLRPs bbs guids
  | r => r
  end.

Record syncEventResult := mkSyncResult {
  sr_desired : list DesiredLRP;
  sr_runningActual : list ActualLRP;
  sr_domains : gset string;
  sr_ok : bool }.

Definition routable (lrp : ActualLRP) : bool := negb (RoutableExists lrp) || GetRoutable lrp.

(** [sync]: its three goroutines only read from the BBS. *)
Definition sync (bbs : BBS) (cellID : string) : syncEventResult :=
  let actual := bbs_ActualLRPs bbs cellID in
  let actualLRPs := match actual with Ok l => l | Err _ => [] end in
  let runningActual := filter (fun lrp => running lrp && routable lrp = true) actualLRPs in
  let desired :=
    if bool_decide (cellID = "") then getDesiredLRPs bbs []
    else
      let guids := al_ProcessGuid <$> actualLRPs in
      if bool_decide (guids = []) then Ok [] else getDesiredLRPs bbs guids in
  {| sr_desired := match desired with Ok l => l | Err _ => [] end;
     sr_runningActual := runningActual;
     sr_domains := match bbs_Domains bbs with Ok l => list_to_set l | Err _ => ∅ end;
     sr_ok := is_ok actual && is_ok desired && is_ok (bbs_Domains bbs) |}.

Record Watcher := mkWatcher {
  w_handler : Handler;
  w_syncing : bool;
  w_cachedEvents : gmap string Event }.

Definition foundInCurrentDesireds (guid : string) (l : list DesiredLRP) : bool :=
  existsb (fun d => bool_decide (dl_ProcessGuid d = guid)) l.

(** The running instance an event announces. *)
Definition announced (ev : Event) : option ActualLRP :=
  lrp ← match ev with
        | ActualLRPInstanceCreatedEvent lrp => lrp
        | ActualLRPInstanceChangedEvent _ _ after => after
        | _ => None
        end;
  if running lrp then Some lrp else None.

Section watcher.
Context `{RouteJson, !RangeAt EndpointKey, !RangeAt RHash, !RangeAt (RHash * Endpoint), !RangeAt RoutingKey,
  !RangeAt string, MessageHash}.

Definition retrieveDesiredInternal (bbs : BBS) (h : Handler) (ev : Event) (current : list DesiredLRP) (syncing : bool)
    : option (list DesiredLRP) :=
  match announced ev with
  | None => Some []
  | Some lrp =>
      refresh ← ShouldRefreshDesired h lrp;
      if (refresh : bool) || (syncing && negb (foundInCurrentDesireds (al_ProcessGuid lrp) current))
      then Some (match getDesiredLRPs bbs [al_ProcessGuid lrp] with Ok l => l | Err _ => [] end)
      else Some []
  end.

Definition watcher_handleEvent (t : list nat) (bbs : BBS) (h : Handler) (ev : Event) : option (Handler * list Output) :=
  desired ← retrieveDesiredInternal bbs h ev [] false;
  '(h, out) ← RefreshDesired (slot t 0) h desired;
  '(h, out') ← HandleEvent (slot t 1) h ev;
  Some (h, out ++ out').

(** One case of the [select] of [Run]; [bbs] is what the BBS answers during
    it.  [resubscribeChannel] changes nothing here. *)
Inductive WatchInput :=
| OnEvent (ev : Event)
| OnEmitExternal
| OnEmitInternal
| OnSyncEnd (r : syncEventResult)
| OnSync
| OnResubscribe.

Fixpoint retrieve_all (bbs : BBS) (h : Handler) (current : list DesiredLRP) (l : list Event) : option (list DesiredLRP) :=
  match l with
  | [] => Some []
  | ev :: l =>
      desired ← retrieveDesiredInternal bbs h ev current true;
      rest ← retrieve_all bbs h current l;
      Some (desired ++ rest)
  end.

Definition watch (t : list nat) (bbs : BBS) (w : Watcher) (i : WatchInput) : option (Watcher * list Output) :=
  match i with
  | OnEvent ev =>
      if w_syncing w then
        Some (mkWatcher (w_handler w) true (<[Event_Key ev := ev]> (w_cachedEvents w)), [])
      else
        '(h, out) ← watcher_handleEvent t bbs (w_handler w) ev;
        Some (mkWatcher h false (w_cachedEvents w), out)
  | OnEmitExternal => Some (w, EmitExternal t (w_handler w))
  | OnEmitInternal => Some (w, EmitInternal t (w_handler w))
  | OnSyncEnd r =>
      if negb (sr_ok r) then Some (mkWatcher (w_handler w) false (w_cachedEvents w), [])
      else
        cachedDesired ← retrieve_all bbs (w_handler w) (sr_desired r)
                          (snd <$> range_at (slot t 0) (w_cachedEvents w));
        '(h, out) ← Sync (slot t 1) (w_handler w) (sr_desired r ++ cachedDesired) (sr_runningActual r)
                     (sr_domains r) (w_cachedEvents w);
        Some (mkWatcher h false ∅, out)
  | OnSync => Some (mkWatcher (w_handler w) true (w_cachedEvents w), [])
  | OnResubscribe => Some (w, [])
  end.
End watcher.

(** A run of the watcher; the BBS may answer differently in each step. *)
Section watch_run.
Context `{RouteJson, !RangeAt EndpointKey, !RangeAt RHash, !RangeAt (RHash * Endpoint), !RangeAt RoutingKey,
  !RangeAt string, MessageHash}.

Fixpoint watch_run (t : nat) (w : Watcher) (l : list (BBS * WatchInput)) : option (Watcher * list Output) :=
  match l with
  | [] => Some (w, [])
  | (bbs, i) :: l =>
      '(w, out) ← watch [t] bbs w i;
      '(w, outs) ← watch_run (S t) w l;
      Some (w, out ++ outs)
  end.
End watch_run.
