(* ===== verification/RouteSync.v ===== *)
(** * The bulk sync of the route emitter

    A sync leaves the tables as the desired and running LRPs describe them,
    whatever they were before; an evacuation withdraws nothing. *)
From Stdlib Require Import ZArith Lia.
From S2P Require Import Prelude GoStd Routes RoutingTable RoutingProps RouteHandler.

(** ** The reference *)

(** The endpoints of the instances, with the routing keys they are under. *)
Definition located (gen : ActualLRP -> list Endpoint) (actuals : list ActualLRP) : list (RoutingKey * Endpoint) :=
  a ← actuals; (fun e => (NewRoutingKey (al_ProcessGuid a) (e_ContainerPort e), e)) <$> gen a.

(** An instance is wanted when its index is below the number of instances,
    or no number is given. *)
Definition wanted (instances : Z) (e : Endpoint) : bool :=
  negb ((0 <? instances)%Z && (instances <=? e_Index e)%Z).

(** The pairs that should be registered under [k]: each route of a desired LRP
    with each wanted endpoint. *)
Definition should_advertise (routes : option DesiredLRP -> gmap RoutingKey (list routeMapping))
    (gen : ActualLRP -> list Endpoint) (desired : list DesiredLRP) (actuals : list ActualLRP) (k : RoutingKey)
    : gset (RHash * Endpoint) :=
  list_to_set (
    d ← desired;
    r ← default [] (routes (Some d) !! k);
    (fun ke => (Hash r, norm ke.2)) <$>
      filter (fun ke => ke.1 = k /\ wanted (dl_Instances d) ke.2 = true) (located gen actuals)).

(** ** Generators *)

Definition generates (cfg : TableConfig) : Prop :=
  routesGenerator cfg None = ∅ /\
  forall d k routes, routesGenerator cfg (Some d) !! k = Some routes -> rk_ProcessGUID k = dl_ProcessGuid d.

Section generators.
Context `{RouteJson}.

Lemma append_routes_keys {A} (P : RoutingKey -> Prop) (key : A -> RoutingKey) (routes : A -> list routeMapping) l m :
  (forall a, P (key a)) -> (forall k r, m !! k = Some r -> P k) ->
  forall k r, foldl (fun m a => append_routes m (key a) (routes a)) m l !! k = Some r -> P k.
Proof.
  intros Hkey. revert m. induction l as [|a l IH]; intros m Hm k r; simpl; [apply Hm|].
  apply IH. intros k' r'. unfold append_routes. rewrite lookup_insert. case_decide; [by subst|apply Hm].
Qed.

Lemma http_generates direct : generates (http_config direct).
Proof.
  split; [done|]. intros d k routes. simpl. destruct (dl_Routes d) as [info|]; [|by rewrite lookup_empty].
  by apply (append_routes_keys (fun k => rk_ProcessGUID k = dl_ProcessGuid d)).
Qed.
Lemma tcp_generates direct tls : generates (tcp_config direct tls).
Proof.
  split; [done|]. intros d k routes. simpl.
  by apply (append_routes_keys (fun k => rk_ProcessGUID k = dl_ProcessGuid d)).
Qed.
Lemma internal_generates direct : generates (internal_config direct).
Proof.
  split; [done|]. intros d k routes. simpl. destruct (dl_Routes d) as [info|]; [|by rewrite lookup_empty].
  by apply (append_routes_keys (fun k => rk_ProcessGUID k = dl_ProcessGuid d)).
Qed.
End generators.

Section bulk.
Context `{RouteJson, !RangeAt EndpointKey, !RangeAt RHash, !RangeAt (RHash * Endpoint), !RangeAt RoutingKey,
  !RangeAt string, MessageHash}.

(** ** The routes of the new table *)

Section routes.
Context (cfg : TableConfig) (Hgen : generates cfg).

Definition fresh_entry (d : DesiredLRP) (routes : list routeMapping) : RoutableEndpoints :=
  mkRoutableEndpoints (dl_Domain d) routes ∅ (dl_Instances d) (dl_ModificationTag d).

Lemma set_routes_fresh d t T out k routes :
  irt_entries T !! k = None ->
  exists out', set_routes cfg None (Some d) t (T, out) (k, routes) = Some (set_entry T k (fresh_entry d routes), out').
Proof. intros Hk. unfold set_routes, entry. rewrite Hk. simpl. eauto. Qed.

Lemma each_fresh d t i T out l :
  NoDup l.*1 -> (forall k, k ∈ l.*1 -> irt_entries T !! k = None) ->
  exists T' out', each_entry (set_routes cfg None (Some d)) t i (T, out) l = Some (T', out') /\
    forall k, irt_entries T' !! k =
      match (list_to_map l : gmap RoutingKey (list routeMapping)) !! k with
      | Some routes => Some (fresh_entry d routes)
      | None => irt_entries T !! k
      end.
Proof.
  revert i T out. induction l as [|[k routes] l IH]; intros i T out Hnd Hk; cbn [each_entry].
  - by exists T, out.
  - apply NoDup_cons in Hnd as [Hnk Hnd]. simpl in Hnk.
    destruct (set_routes_fresh d (slot t i) T out k routes) as [out1 ->]; [apply Hk; by left|]. simpl.
    destruct (IH (S i) (set_entry T k (fresh_entry d routes)) out1 Hnd) as (T' & out' & -> & HT').
    + intros k' Hk'. simpl. rewrite lookup_insert_ne by (by intros ->). apply Hk. by right.
    + exists T', out'. split; [done|]. intros k'. rewrite HT'. rewrite (lookup_insert (M := gmap RoutingKey)).
      case_decide as Heq; [subst k'|].
      * rewrite not_elem_of_list_to_map_1 by done. simpl. by rewrite lookup_insert_eq.
      * case_match; [done|]. simpl. by rewrite lookup_insert_ne.
Qed.

Lemma SetRoutes_fresh d t T :
  (forall k, rk_ProcessGUID k = dl_ProcessGuid d -> irt_entries T !! k = None) ->
  exists T' out, SetRoutes cfg t T None (Some d) = Some (T', out) /\
    forall k, irt_entries T' !! k =
      match routesGenerator cfg (Some d) !! k with
      | Some routes => Some (fresh_entry d routes)
      | None => irt_entries T !! k
      end.
Proof.
  intros Hk. destruct Hgen as [Hnone Hkeys]. unfold SetRoutes. rewrite Hnone.
  set (l := range_at _ (routesGenerator cfg (Some d))).
  assert (l ≡ₚ map_to_list (routesGenerator cfg (Some d))) as Hl by apply range_at_perm.
  assert (NoDup l.*1) as Hnd by (rewrite Hl; apply NoDup_fst_map_to_list).
  destruct (each_fresh d (slot t 0) 1 T no_emission l Hnd) as (T' & out & -> & HT').
  - intros k Hin. apply Hk. rewrite Hl in Hin. apply list_elem_of_fmap in Hin as ([k' r] & -> & Hr).
    apply elem_of_map_to_list in Hr. by eapply Hkeys.
  - simpl. rewrite range_at_empty.
    exists T', out. split; [done|]. intros k. rewrite HT'.
    by rewrite (list_to_map_proper l _ Hnd Hl), list_to_map_to_list.
Qed.

(** The entries of a table built from the desired LRPs [l] alone. *)
Definition routed (l : list DesiredLRP) (T : internalRoutingTable) : Prop :=
  forall k ent, irt_entries T !! k = Some ent <->
    exists d routes, d ∈ l /\ routesGenerator cfg (Some d) !! k = Some routes /\ ent = fresh_entry d routes.

Lemma routed_empty : routed [] empty_table.
Proof.
  intros k ent. simpl. rewrite lookup_empty. split; [done|]. by intros (d & routes & []%not_elem_of_nil & _).
Qed.

Lemma routed_snoc t l d T :
  routed l T -> dl_ProcessGuid d ∉ dl_ProcessGuid <$> l ->
  exists T' out, SetRoutes cfg t T None (Some d) = Some (T', out) /\ routed (l ++ [d]) T'.
Proof.
  intros HT Hd. destruct Hgen as [_ Hkeys].
  assert (forall k, rk_ProcessGUID k = dl_ProcessGuid d -> irt_entries T !! k = None) as Hnone.
  { intros k Hk. destruct (irt_entries T !! k) as [ent|] eqn:E; [|done].
    apply HT in E as (d' & routes & Hd' & Hr & _). apply Hkeys in Hr. destruct Hd.
    apply list_elem_of_fmap. exists d'. by rewrite <- Hk, Hr. }
  destruct (SetRoutes_fresh d t T Hnone) as (T' & out & HS & HT'). exists T', out. split; [done|].
  intros k ent. rewrite HT'. destruct (routesGenerator cfg (Some d) !! k) as [routes|] eqn:E.
  - split.
    + intros [= <-]. exists d, routes. split; [apply elem_of_app; right; by left|done].
    + intros (d' & routes' & Hd' & Hr & ->). apply elem_of_app in Hd' as [Hd'|Hd'%list_elem_of_singleton].
      * destruct Hd. apply Hkeys in Hr, E. apply list_elem_of_fmap. exists d'. by rewrite <- E, Hr.
      * simplify_eq. done.
  - rewrite (HT k ent). split; intros (d' & routes' & Hd' & Hr & ->).
    + exists d', routes'. split; [apply elem_of_app; by left|done].
    + apply elem_of_app in Hd' as [Hd'|Hd'%list_elem_of_singleton]; [by exists d', routes'|congruence].
Qed.
End routes.

(** ** The endpoints of the new table *)

Section endpoints.
Context (cfg : TableConfig) (T0 : internalRoutingTable) (HT0 : forall k, re_Endpoints (entry T0 k) = ∅).

Definition endpoints_at (instances : Z) (P : list (RoutingKey * Endpoint)) (k : RoutingKey) : gmap EndpointKey Endpoint :=
  list_to_map ((fun p => (Endpoint_key p.2, p.2)) <$> filter (fun p => p.1 = k /\ wanted instances p.2 = true) P).

(** The entries of [T0] with the endpoints [P]. *)
Definition holds_endpoints (P : list (RoutingKey * Endpoint)) (T : internalRoutingTable) : Prop :=
  forall k, entry T k = with_endpoints (entry T0 k) (endpoints_at (re_DesiredInstances (entry T0 k)) P k).

Definition located_key (p : RoutingKey * Endpoint) : RoutingKey * EndpointKey := (p.1, Endpoint_key p.2).

Lemma holds_no_endpoints : holds_endpoints [] T0.
Proof. intros k. unfold endpoints_at. simpl. rewrite <- (HT0 k). by destruct (entry T0 k). Qed.

Lemma endpoints_at_fresh instances P k ek :
  (k, ek) ∉ located_key <$> P -> endpoints_at instances P k !! ek = None.
Proof.
  intros Hn. apply not_elem_of_list_to_map_1. intros Hin. apply Hn.
  apply list_elem_of_fmap in Hin as ([ek' e] & -> & Hin).
  apply list_elem_of_fmap in Hin as (p & [= -> ->] & [[<- _] Hp]%list_elem_of_filter).
  apply list_elem_of_fmap. by exists p.
Qed.

Lemma endpoints_at_snoc instances P k p :
  located_key p ∉ located_key <$> P ->
  endpoints_at instances (P ++ [p]) k =
  if decide (p.1 = k /\ wanted instances p.2 = true)
  then <[Endpoint_key p.2 := p.2]> (endpoints_at instances P k) else endpoints_at instances P k.
Proof.
  intros Hn. unfold endpoints_at. rewrite filter_app. case_decide as Hp.
  - rewrite filter_cons_True by done. rewrite filter_nil, fmap_app. simpl. apply list_to_map_snoc.
    intros Hin. apply Hn. apply list_elem_of_fmap in Hin as ([ek' e] & Heq & Hin).
    apply list_elem_of_fmap in Hin as (q & [= -> ->] & [[Hq _] HqP]%list_elem_of_filter). simpl in Heq.
    apply list_elem_of_fmap. exists q. split; [|done]. unfold located_key. rewrite Heq, Hq. by destruct Hp as [-> _].
  - rewrite filter_cons_False by done. by rewrite filter_nil, app_nil_r.
Qed.

Lemma add_endpoint_holds guid t st e P :
  holds_endpoints P st.1 ->
  located_key (NewRoutingKey guid (e_ContainerPort e), e) ∉ located_key <$> P ->
  holds_endpoints (P ++ [(NewRoutingKey guid (e_ContainerPort e), e)]) (add_endpoint cfg guid t st e).1.
Proof.
  destruct st as [T out]. simpl. set (key := NewRoutingKey guid (e_ContainerPort e)). intros HT Hn k.
  rewrite endpoints_at_snoc by done. simpl. unfold add_endpoint. fold key. rewrite (HT key). simpl.
  rewrite endpoints_at_fresh by done. destruct (decide (key = k)) as [<-|Hne].
  - fold (wanted (re_DesiredInstances (entry T0 key)) e). destruct (_ && _) eqn:E.
    + rewrite decide_False; [apply HT|]. unfold wanted. rewrite E. naive_solver.
    + rewrite decide_True by (unfold wanted; by rewrite E). simpl. rewrite entry_set, decide_True by done. done.
  - rewrite decide_False by tauto. destruct (_ && _); simpl; [apply HT|].
    rewrite entry_set, decide_False by done. apply HT.
Qed.

Lemma each_endpoint_holds guid t i st l P :
  holds_endpoints P st.1 ->
  NoDup (located_key <$> P ++ ((fun e => (NewRoutingKey guid (e_ContainerPort e), e)) <$> l)) ->
  holds_endpoints (P ++ ((fun e => (NewRoutingKey guid (e_ContainerPort e), e)) <$> l))
    (each_endpoint (add_endpoint cfg guid) t i st l).1.
Proof.
  revert i st P. induction l as [|e l IH]; intros i st P HT Hnd; cbn [each_endpoint].
  - by rewrite app_nil_r.
  - rewrite fmap_cons, cons_middle, app_assoc in Hnd |- *. apply IH; [|done].
    apply add_endpoint_holds; [done|]. rewrite !fmap_app in Hnd. apply NoDup_app in Hnd as (Hnd & _).
    apply NoDup_app in Hnd as (_ & Hd & _). intros Hin. apply (Hd _ Hin). by left.
Qed.

Lemma AddEndpoint_holds t T a P :
  holds_endpoints P T -> NoDup (located_key <$> P ++ located (endpointGenerator cfg) [a]) ->
  holds_endpoints (P ++ located (endpointGenerator cfg) [a]) (AddEndpoint cfg t T a).1.
Proof.
  intros HT Hnd. unfold located in *. simpl in *. rewrite app_nil_r in *. unfold AddEndpoint.
  apply each_endpoint_holds; [|done]. simpl. destruct (suppressAddressCollision cfg); [done|].
  intros k. unfold entry at 1. rewrite (entry_note_addresses (note_address cfg)) by done. apply HT.
Qed.
End endpoints.

(** ** What the new table advertises *)

Lemma elem_of_located gen actuals k e :
  (k, e) ∈ located gen actuals <->
  exists a, a ∈ actuals /\ e ∈ gen a /\ k = NewRoutingKey (al_ProcessGuid a) (e_ContainerPort e).
Proof.
  unfold located. rewrite list_elem_of_bind. split.
  - intros (a & (e' & [= -> ->] & He)%list_elem_of_fmap & Ha). by exists a.
  - intros (a & Ha & He & ->). exists a. split; [|done]. apply list_elem_of_fmap. by exists e.
Qed.

Lemma endpoints_at_lookup instances P k e :
  NoDup (located_key <$> P) ->
  (exists ek, endpoints_at instances P k !! ek = Some e) <-> (k, e) ∈ P /\ wanted instances e = true.
Proof.
  intros Hnd. unfold endpoints_at.
  assert (NoDup (((fun p => (Endpoint_key p.2, p.2)) <$> filter (fun p => p.1 = k /\ wanted instances p.2 = true) P).*1)) as Hnd'.
  { rewrite <- list_fmap_compose. induction P as [|[k' e'] P IH]; [constructor|].
    apply NoDup_cons in Hnd as [Hn Hnd]. destruct (decide (k' = k /\ wanted instances e' = true)) as [Hp|Hp].
    - rewrite filter_cons_True by done. rewrite fmap_cons. apply NoDup_cons. split; [|by apply IH].
      intros ([k1 e1] & Heq & [[Hk1 _] Hin]%list_elem_of_filter)%list_elem_of_fmap. apply Hn.
      apply list_elem_of_fmap. exists (k1, e1). split; [|done]. unfold located_key. simpl in *.
      destruct Hp as [-> _]. by rewrite Heq, Hk1.
    - rewrite filter_cons_False by done. by apply IH. }
  split.
  - intros (ek & Hek). apply elem_of_list_to_map_2, list_elem_of_fmap in Hek as ([k' e'] & [= -> ->] & Hin).
    apply list_elem_of_filter in Hin as [[Hk Hw] Hin]. simpl in *. by subst.
  - intros [Hin Hw]. exists (Endpoint_key e). apply elem_of_list_to_map_1; [done|].
    apply list_elem_of_fmap. exists (k, e). split; [done|]. by apply list_elem_of_filter.
Qed.

Section advertise.
Context (cfg : TableConfig) (Hgen : generates cfg).
Context (desired : list DesiredLRP) (actuals : list ActualLRP).
Context (Hdes : NoDup (dl_ProcessGuid <$> desired)).
Context (Hact : NoDup (located_key <$> located (endpointGenerator cfg) actuals)).

Lemma elem_of_should_advertise k h n :
  (h, n) ∈ should_advertise (routesGenerator cfg) (endpointGenerator cfg) desired actuals k <->
  exists d routes e, d ∈ desired /\ routesGenerator cfg (Some d) !! k = Some routes /\ h ∈ (Hash <$> routes) /\
    (k, e) ∈ located (endpointGenerator cfg) actuals /\ wanted (dl_Instances d) e = true /\ norm e = n.
Proof.
  unfold should_advertise. rewrite elem_of_list_to_set, list_elem_of_bind. split.
  - intros (d & Hin & Hd). apply list_elem_of_bind in Hin as (r & Hin & Hr).
    destruct (routesGenerator cfg (Some d) !! k) as [routes|] eqn:E; [|by apply not_elem_of_nil in Hr].
    apply list_elem_of_fmap in Hin as ([k' e] & [= -> ->] & [[Hk Hw] Hin]%list_elem_of_filter). simpl in *. subst k'.
    exists d, routes, e. split_and!; try done. by apply list_elem_of_fmap_2.
  - intros (d & routes & e & Hd & Hr & (r & -> & Hrin)%list_elem_of_fmap & Hin & Hw & <-). exists d. split; [|done].
    apply list_elem_of_bind. exists r. split; [|by rewrite Hr]. apply list_elem_of_fmap. exists (k, e).
    split; [done|]. by apply list_elem_of_filter.
Qed.

Lemma bulk_advertises T0 T k :
  routed cfg desired T0 -> holds_endpoints T0 (located (endpointGenerator cfg) actuals) T ->
  advertised (entry T k) = should_advertise (routesGenerator cfg) (endpointGenerator cfg) desired actuals k.
Proof.
  intros HT0 HT. rewrite (HT k). apply set_eq. intros [h n]. rewrite elem_of_advertised, elem_of_should_advertise. simpl.
  destruct (irt_entries T0 !! k) as [ent|] eqn:E; unfold entry; rewrite E; simpl.
  - apply HT0 in E as (d & routes & Hd & Hr & ->). simpl. split.
    + intros (Hh & ek & e & Hek & Hn). exists d, routes, e.
      by destruct (proj1 (endpoints_at_lookup _ _ _ _ Hact) (ex_intro _ ek Hek)) as [Hin Hw].
    + intros (d' & routes' & e & Hd' & Hr' & Hh & Hin & Hw & Hn).
      assert (d' = d) as ->.
      { apply (proj2 Hgen) in Hr, Hr'. apply (NoDup_fmap_same dl_ProcessGuid desired); congruence. }
      assert (routes' = routes) as -> by congruence. split; [done|].
      assert (exists ek, endpoints_at (dl_Instances d) (located (endpointGenerator cfg) actuals) k !! ek = Some e) as (ek & Hek)
        by (by apply endpoints_at_lookup). eauto.
  - split; [by intros ([]%not_elem_of_nil & _)|].
    intros (d & routes & e & Hd & Hr & _). assert (irt_entries T0 !! k = Some (fresh_entry d routes)) as Hs.
    { apply HT0. by exists d, routes. }
    congruence.
Qed.
End advertise.

(** ** All three tables *)

(** A property of a table for each of the three settings. *)
Definition each_table (P : TableConfig -> internalRoutingTable -> Prop) (direct tls : bool) (T : routingTable) : Prop :=
  P (http_config direct) (httpRoutesRoutingTable T) /\ P (tcp_config direct tls) (tcpRoutesRoutingTable T) /\
  P (internal_config direct) (internalRoutesRoutingTable T).

Lemma bulk_desired_routed tls t i T l done' :
  each_table (fun cfg => routed cfg done') false tls T -> NoDup (dl_ProcessGuid <$> done' ++ l) ->
  exists T', bulk_desired tls t i T l = Some T' /\ each_table (fun cfg => routed cfg (done' ++ l)) false tls T'.
Proof.
  revert i T done'. induction l as [|d l IH]; intros i T done' HT Hnd; cbn [bulk_desired].
  - rewrite app_nil_r. by exists T.
  - assert (dl_ProcessGuid d ∉ dl_ProcessGuid <$> done') as Hd.
    { rewrite fmap_app in Hnd. apply NoDup_app in Hnd as (_ & Hd & _). intros Hin. apply (Hd _ Hin). by left. }
    destruct HT as (Hh & Ht & Hi).
    destruct (routed_snoc _ (http_generates false) (slot (slot t i) 0) done' d _ Hh Hd) as (Th & oh & Eh & Hh').
    destruct (routed_snoc _ (tcp_generates false tls) (slot (slot t i) 1) done' d _ Ht Hd) as (Tt & ot & Et & Ht').
    destruct (routed_snoc _ (internal_generates false) (slot (slot t i) 2) done' d _ Hi Hd) as (Ti & oi & Ei & Hi').
    unfold bulk_routes, routingTable_SetRoutes. rewrite Eh, Et, Ei. simpl.
    rewrite cons_middle, app_assoc in Hnd |- *. by apply IH.
Qed.

Lemma bulk_actual_holds (T0 : routingTable) tls t i T l done' :
  let P gen := located_key <$> located gen (done' ++ l) in
  let holds done' :=
    holds_endpoints (httpRoutesRoutingTable T0) (located NewEndpointsFromActual done') (httpRoutesRoutingTable T) /\
    holds_endpoints (tcpRoutesRoutingTable T0) (located NewEndpointsFromActual done') (tcpRoutesRoutingTable T) /\
    holds_endpoints (internalRoutesRoutingTable T0) (located internalEndpointsFromActualLRP done')
      (internalRoutesRoutingTable T) in
  holds done' -> NoDup (P NewEndpointsFromActual) -> NoDup (P internalEndpointsFromActualLRP) ->
  let T' := bulk_actual tls t i T l in
  holds_endpoints (httpRoutesRoutingTable T0) (located NewEndpointsFromActual (done' ++ l)) (httpRoutesRoutingTable T') /\
  holds_endpoints (tcpRoutesRoutingTable T0) (located NewEndpointsFromActual (done' ++ l)) (tcpRoutesRoutingTable T') /\
  holds_endpoints (internalRoutesRoutingTable T0) (located internalEndpointsFromActualLRP (done' ++ l))
    (internalRoutesRoutingTable T').
Proof.
  assert (forall gen l1 l2, located gen (l1 ++ l2) = located gen l1 ++ located gen l2) as Happ
    by (intros; unfold located; apply bind_app).
  revert i T done'. induction l as [|a l IH]; intros i T done' P holds; subst P holds; cbn [bulk_actual]; simpl.
  - by rewrite app_nil_r.
  - rewrite cons_middle, app_assoc. intros (Hh & Ht & Hi) Hn Hni.
    assert (forall gen, NoDup (located_key <$> located gen ((done' ++ [a]) ++ l)) ->
      NoDup (located_key <$> located gen done' ++ located gen [a])) as Hsub.
    { intros gen. rewrite (Happ gen (done' ++ [a]) l), (Happ gen done' [a]), (fmap_app _ (_ ++ _)).
      by intros [? _]%NoDup_app. }
    apply IH; [|done..]. rewrite (Happ NewEndpointsFromActual done' [a]), (Happ internalEndpointsFromActualLRP done' [a]).
    split_and!.
    + by apply (AddEndpoint_holds (http_config false)), Hsub.
    + by apply (AddEndpoint_holds (tcp_config false tls)), Hsub.
    + by apply (AddEndpoint_holds (internal_config false)), Hsub.
Qed.

Lemma routed_no_endpoints cfg l T k : routed cfg l T -> re_Endpoints (entry T k) = ∅.
Proof.
  intros HT. unfold entry. destruct (irt_entries T !! k) eqn:E; [|done].
  by apply HT in E as (d & routes & _ & _ & ->).
Qed.

(** The table a sync builds, for distinct desired LRPs and instances. *)
Lemma bulk_table tls t desired actuals :
  NoDup (dl_ProcessGuid <$> desired) ->
  NoDup (located_key <$> located NewEndpointsFromActual actuals) ->
  NoDup (located_key <$> located internalEndpointsFromActualLRP actuals) ->
  exists T0, bulk_desired tls (slot t 0) 0 NewRoutingTable desired = Some T0 /\
    each_table (fun cfg T => forall k, advertised (entry T k) =
      should_advertise (routesGenerator cfg) (endpointGenerator cfg) desired actuals k) false tls
      (bulk_actual tls (slot t 1) 0 T0 actuals).
Proof.
  intros Hdes Hact Hint.
  destruct (bulk_desired_routed tls (slot t 0) 0 NewRoutingTable desired []) as (T0 & HT0 & Hh & Ht & Hi); [|done|].
  { split_and!; apply routed_empty. }
  exists T0. split; [done|].
  destruct (bulk_actual_holds T0 tls (slot t 1) 0 T0 actuals []) as (Eh & Et & Ei); [|done..|].
  { split_and!; apply holds_no_endpoints; intros k; by eapply routed_no_endpoints. }
  split_and!; intros k; simpl.
  - by apply (bulk_advertises (http_config false) (http_generates _) desired actuals Hdes Hact _ _ k Hh).
  - by apply (bulk_advertises (tcp_config false tls) (tcp_generates _ _) desired actuals Hdes Hact _ _ k Ht).
  - by apply (bulk_advertises (internal_config false) (internal_generates _) desired actuals Hdes Hint _ _ k Hi).
Qed.

(** Every entry of a table that has routes is of a fresh domain. *)
Definition all_fresh (domains : gset string) (T : internalRoutingTable) : Prop :=
  map_Forall (fun _ e => re_Routes e = [] \/ re_Domain e ∈ domains) (irt_entries T).

Lemma Sync_result t h desired actuals domains :
  NoDup (dl_ProcessGuid <$> desired) ->
  NoDup (located_key <$> located NewEndpointsFromActual actuals) ->
  NoDup (located_key <$> located internalEndpointsFromActualLRP actuals) ->
  each_table (fun _ => all_fresh domains) (h_direct h) (h_tcpTLSEnabled h) (h_routingTable h) ->
  exists h' out, Sync t h desired actuals domains ∅ = Some (h', out) /\
    each_table (fun cfg T => forall k, advertised (entry T k) =
      should_advertise (routesGenerator cfg) (endpointGenerator cfg) desired actuals k)
      (h_direct h) (h_tcpTLSEnabled h) (h_routingTable h').
Proof.
  intros Hdes Hact Hint (Fh & Ft & Fi). unfold Sync.
  destruct (bulk_table (h_tcpTLSEnabled h) t desired actuals Hdes Hact Hint) as (T0 & -> & Bh & Bt & Bi). simpl.
  rewrite range_at_empty. simpl. eexists _, _. split; [done|]. split_and!; intros k; simpl.
  - rewrite <- Bh. apply Swap_fresh. apply Fh.
  - rewrite <- Bt. apply Swap_fresh. apply Ft.
  - rewrite <- Bi. apply Swap_fresh. apply Fi.
Qed.

(** C6: A bulk sync makes the tables right, whatever they were: when the domains
    of all known routes are fresh and no events wait, [Sync] returns, and each
    of the three tables advertises under every key exactly the routes of the
    desired LRPs with the endpoints of the running instances they want.  Desired
    LRPs have distinct process guids, and no two port mappings of an instance
    have one container port. *)
Theorem Sync_converges t h desired actuals domains :
  NoDup (dl_ProcessGuid <$> desired) ->
  NoDup (located_key <$> located NewEndpointsFromActual actuals) ->
  NoDup (located_key <$> located internalEndpointsFromActualLRP actuals) ->
  each_table (fun _ => all_fresh domains) (h_direct h) (h_tcpTLSEnabled h) (h_routingTable h) ->
  exists h' out, Sync t h desired actuals domains ∅ = Some (h', out) /\
    each_table (fun cfg T => forall k, advertised (entry T k) =
      should_advertise (routesGenerator cfg) (endpointGenerator cfg) desired actuals k)
      (h_direct h) (h_tcpTLSEnabled h) (h_routingTable h').
Proof. apply Sync_result. Qed.
End bulk.
