(* ===== verification/RouteExamples.v ===== *)
(** * Runs of the route emitter

    Concrete syncs and events: the properties of the sync applied to them, and
    two runs in which a live route is withdrawn. *)
From Stdlib Require Import ZArith Lia.
From S2P Require Import Prelude GoStd Routes RoutingTable RoutingProps RoutingExamples RouteHandler RouteSync.

#[local] Instance re_endpoint_key_range : RangeAt EndpointKey := canonical_range_at EndpointKey.
#[local] Instance re_hash_range : RangeAt RHash := canonical_range_at RHash.
#[local] Instance re_pair_range : RangeAt (RHash * Endpoint) := canonical_range_at (RHash * Endpoint).
#[local] Instance re_routing_key_range : RangeAt RoutingKey := canonical_range_at RoutingKey.
#[local] Instance re_string_range : RangeAt string := canonical_range_at string.
#[local] Instance re_hash_order : RangeAt Z := canonical_range_at Z.
#[local] Instance re_json : RouteJson := ex_json.

(** A hash that keeps all it is given. *)
#[local] Instance re_hash : MessageHash :=
  fun host port tls uris protocol => Some (Zpos (encode (host, port, tls, uris, protocol))).

Definition ex_handler : Handler := mkHandler NewRoutingTable false false true false ∅.

(** A table that has seen an instance and a route that are gone by the time of
    the sync. *)
Definition ex_before_sync : Handler :=
  match each HandleEvent [] 0 ex_handler
    [DesiredLRPCreatedEvent (Some (ex_desired "old.example.com" 1 1));
     ActualLRPInstanceCreatedEvent (Some (ex_actual "i0" 0 0 1 61000))] with
  | Some (h, _) => h
  | None => ex_handler
  end.

Definition ex_bulk_desired : list DesiredLRP := [ex_desired "a.example.com" 1 2].
Definition ex_bulk_actual : list ActualLRP := [ex_actual "i1" 0 0 1 61001; ex_actual "i2" 1 0 1 61002].

Lemma Sync_converges_witness :
  exists h' out, Sync [] ex_before_sync ex_bulk_desired ex_bulk_actual {["domain"]} ∅ = Some (h', out) /\
    each_table (fun cfg T => forall k, advertised (entry T k) =
      should_advertise (routesGenerator cfg) (endpointGenerator cfg) ex_bulk_desired ex_bulk_actual k)
      false false (h_routingTable h').
Proof.
  apply (Sync_converges [] ex_before_sync ex_bulk_desired ex_bulk_actual {["domain"]}).
  - apply (bool_decide_unpack _). vm_compute. exact I.
  - apply (bool_decide_unpack _). vm_compute. exact I.
  - apply (bool_decide_unpack _). vm_compute. exact I.
  - unfold each_table, all_fresh. split; [|split]; apply (bool_decide_unpack _); vm_compute; exact I.
Defined.

(** ** A stale event after a failed sync *)

Definition ex_recreated : DesiredLRP :=
  mkDesiredLRP "process" "domain" "log" 1 (Some {["cf-router" := Some "a.example.com"]}) ∅
    (Some (mkTag "second" 1)).

(** The BBS while the desired LRP exists for the second time. *)
Definition ex_bbs : BBS :=
  mkBBS (fun _ => Ok [ex_recreated]) (fun _ => Ok [ex_recreated]) (fun _ => Ok [ex_actual "i0" 0 0 1 61000]) (Ok ["domain"]).

(** An application is deleted while a sync runs, the sync fails, the application
    is created again and its instance runs; then a sync succeeds. *)
Definition ex_restart : list (BBS * WatchInput) :=
  [(ex_bbs, OnEvent (DesiredLRPCreatedEvent (Some (ex_desired "a.example.com" 1 1))));
   (ex_bbs, OnSync);
   (ex_bbs, OnEvent (DesiredLRPRemovedEvent (Some (ex_desired "a.example.com" 1 1))));
   (ex_bbs, OnSyncEnd (mkSyncResult [] [] ∅ false));
   (ex_bbs, OnEvent (DesiredLRPCreatedEvent (Some ex_recreated)));
   (ex_bbs, OnEvent (ActualLRPInstanceChangedEvent "i0" (Some (ex_actual "i0" 0 0 0 61000)) (Some (ex_actual "i0" 0 0 1 61000))));
   (ex_bbs, OnSync);
   (ex_bbs, OnSyncEnd (sync ex_bbs ""))].

Definition unregistered_uris (out : list Output) : list (list string) :=
  o ← out; match o with NATSEmit m => rm_URIs <$> UnregistrationMessages m | APIEmit _ => [] end.

Definition ex_advertised (w : Watcher) : nat := size (advertised (entry (httpRoutesRoutingTable (h_routingTable (w_handler w))) ex_key)).

(** The events that arrived during a failed sync wait for the next sync that
    succeeds, and are then older than what it found.  An application is removed
    during a failed sync and created again: the new one is advertised until the
    next sync, whose own answers from the BBS contain it, replays the removal and
    withdraws its route. *)
Lemma stale_run :
  (fun wo => (ex_advertised wo.1, unregistered_uris wo.2)) <$> watch_run 0 (mkWatcher ex_handler false ∅) (take 6 ex_restart)
    = Some (1, []) /\
  (fun wo => (ex_advertised wo.1, unregistered_uris wo.2)) <$> watch_run 0 (mkWatcher ex_handler false ∅) ex_restart
    = Some (0, [["a.example.com"]]) /\
  size (should_advertise httpRoutesFrom NewEndpointsFromActual (sr_desired (sync ex_bbs "")) (sr_runningActual (sync ex_bbs "")) ex_key) = 1.
Proof. vm_compute. done. Qed.

(** ** An unregistration that outlives the registration *)

(** A route is removed by an update, so its unregistration is cached; the
    application is deleted and created again with the route. *)
Definition ex_route_back : list Event :=
  [DesiredLRPCreatedEvent (Some (ex_desired "a.example.com" 1 1));
   ActualLRPInstanceCreatedEvent (Some (ex_actual "i0" 0 0 1 61000));
   DesiredLRPChangedEvent (Some (ex_desired "a.example.com" 1 1)) (Some (ex_desired "b.example.com" 1 2));
   DesiredLRPRemovedEvent (Some (ex_desired "b.example.com" 1 2));
   DesiredLRPCreatedEvent (Some ex_recreated)].

(** Creating does not look at the unregistration cache: a route that an
    update removed and a creation brings back is advertised by the table, and the
    sender goes on unregistering it at its very address. *)
Lemma route_back_run :
  (fun ho => (elements (advertised (entry (httpRoutesRoutingTable (h_routingTable ho.1)) ex_key)),
              (fun m => (rm_URIs m, rm_Host m, rm_Port m)) <$> (Sender_tick [] 3 (h_unregistrationCache ho.1)).2))
    <$> each HandleEvent [] 0 ex_handler ex_route_back =
  Some ([(Hash (ex_route "a.example.com"), ex_addr ex_key "i0")], [(["a.example.com"], "10.0.0.1", 61000%Z)]).
Proof. vm_compute. reflexivity. Qed.
