(* ===== verification/RunRequest.v ===== *)
(** * Run requests

    [rep/conversion_helpers.go]: the run request of a container, made of the
    desired LRP or the task it was allocated for, and the network information
    reported of a running container; with the downgrade of desired LRPs
    ([VersionDownTo]) and the conversion of metric tags of [bbs/models]. *)
From Stdlib Require Import ZArith Lia Ascii.
From S2P Require Import Prelude GoStd Models Actions Executor CellRep Routes.

#[local] Open Scope go_scope.

(** ** What the BBS sends *)

Record SharedDevice := mkSharedDevice { sd_VolumeId : string; sd_MountConfig : string }.
Record DedicatedDevice := mkDedicatedDevice {
  dd_MounterId : string;
  dd_MountConfig : string;
  dd_DeviceConfig : string }.
(** [models.VolumeMount] *)
Record ModelMount := mkModelMount {
  mm_Driver : string;
  mm_ContainerDir : string;
  mm_Mode : string;
  mm_Shared : option SharedDevice;
  mm_Dedicated : option DedicatedDevice }.

(** What a desired LRP and the definition of a task have in common. *)
Record WorkDefinition := mkWorkDefinition {
  df_RootFs : string;
  df_EnvironmentVariables : list ModelVariable;
  df_Action : option Action;
  df_CpuWeight : Z;                       (* uint32 *)
  df_Privileged : bool;
  df_LogSource : string;
  df_LogGuid : string;
  df_MetricsGuid : string;
  df_EgressRules : list SecurityGroupRule;
  df_CachedDependencies : list ModelDependency;
  df_LegacyDownloadUser : string;
  df_TrustedSystemCertificatesPath : string;
  df_VolumeMounts : list ModelMount;
  df_Network : option (gmap string string);
  df_OrganizationalUnit : option (list string);   (* CertificateProperties *)
  df_ImageUsername : string;
  df_ImagePassword : string;
  df_ImageLayers : list ImageLayer;
  df_MetricTags : gmap string MetricTagValue;
  df_LogRateLimit : option Z;             (* int64 *)
  df_VolumeMountedFiles : list File }.

(** [models.DesiredLRP], with the fields a run request is made of. *)
Record DesiredWork := mkDesiredWork {
  dw_Definition : WorkDefinition;
  dw_Setup : option Action;
  dw_Monitor : option Action;
  dw_CheckDefinition : option CheckDefinition;
  dw_StartTimeoutMs : Z;                  (* int64 *)
  dw_Ports : list Z;                      (* uint32 *)
  dw_Routes : option RoutingInfo;
  dw_Sidecars : list Sidecar }.

(** [models.Task]; its definition is a pointer. *)
Record Task := mkTask {
  tk_TaskGuid : string;
  tk_ResultFile : string;
  tk_Definition : option WorkDefinition }.

Record ActualLRPInstanceKey := mkInstanceKey { ik_InstanceGuid : string; ik_CellId : string }.

(** ** Parameters

    [encoding/json] on the configuration of a volume: the map it unmarshals to
    (nil for [null]), or an error; and the [interface{}] value a map is boxed
    as.  The helper for Amazon's registry is an interface of the rep. *)
Class MountJson := {
  unmarshal_config : string -> result string (option (gmap string Any));
  box_config : option (gmap string Any) -> Any }.

Class ECRHelper := {
  IsECRRepo : string -> result string bool;
  GetECRCredentials : string -> string -> string -> result string (string * string) }.

(** ** [url.QueryEscape] *)

Definition unreserved (c : ascii) : bool :=
  let n := N_of_ascii c in
  ((48 <=? n) && (n <=? 57) || (65 <=? n) && (n <=? 90) || (97 <=? n) && (n <=? 122) ||
   (n =? 45) || (n =? 95) || (n =? 46) || (n =? 126))%N.

Definition hex_digit (n : N) : ascii := ascii_of_N (if (n <? 10)%N then 48 + n else 55 + n)%N.

Fixpoint QueryEscape (s : string) : string :=
  match s with
  | "" => ""
  | String c s =>
      if unreserved c then String c (QueryEscape s)
      else if bool_decide (c = " "%char) then String "+" (QueryEscape s)
      else String "%" (String (hex_digit (N_of_ascii c / 16)) (String (hex_digit (N_of_ascii c mod 16)) (QueryEscape s)))
  end.

(** ** Layers *)

Definition LayeringModeSingleLayer : string := "single-layer".
Definition LayeringModeTwoLayer : string := "two-layer".

Definition suitableLayer (v : ImageLayer) : bool :=
  bool_decide (il_LayerType v = LayerTypeExclusive) && bool_decide (il_MediaType v = MediaTypeTgz) &&
  bool_decide (il_DigestAlgorithm v = DigestAlgorithmSha256).

(** [strings.Split(s, ":")] up to its second element, for an [s] that has a
    colon. *)
Fixpoint before_colon (s : string) : string :=
  match s with
  | "" => ""
  | String c s => if bool_decide (c = ":"%char) then "" else String c (before_colon s)
  end.
Fixpoint after_colon (s : string) : string :=
  match s with
  | "" => ""
  | String c s => if bool_decide (c = ":"%char) then s else after_colon s
  end.
Definition second_part (s : string) : string := before_colon (after_colon s).

Definition layered_rootfs (rootFS : string) (v : ImageLayer) : string :=
  "preloaded+layer:" +:+ second_part rootFS +:+ "?layer=" +:+ QueryEscape (il_Url v) +:+
  "&layer_path=" +:+ QueryEscape (il_DestinationPath v) +:+ "&layer_digest=" +:+ QueryEscape (il_DigestValue v).

(** The loop over the layers: the root file system made so far, and the layers
    kept. *)
Definition convert_layer (rootFS : string) (st : string * list ImageLayer) (v : ImageLayer)
    : string * list ImageLayer :=
  if suitableLayer v && bool_decide (st.1 = "") then (layered_rootfs rootFS v, st.2) else (st.1, st.2 ++ [v]).

Definition ConvertPreloadedRootFS (rootFS : string) (imageLayers : list ImageLayer) (layeringMode : string)
    : string * list ImageLayer :=
  if negb (bool_decide (layeringMode = LayeringModeTwoLayer)) then (rootFS, imageLayers)
  else if negb (String.prefix "preloaded:" rootFS) then (rootFS, imageLayers)
  else
    let '(newRootFS, newImageLayers) := foldl (convert_layer rootFS) ("", []) imageLayers in
    if bool_decide (newRootFS = "") then (rootFS, imageLayers) else (newRootFS, newImageLayers).

(** ** Pieces of a run request *)

Definition ConvertCachedDependency (d : ModelDependency) : CachedDependency :=
  mkCachedDependency (md_Name d) (md_From d) (md_To d) (md_CacheKey d) (md_LogSource d) (md_ChecksumValue d)
    (md_ChecksumAlgorithm d).
Definition ConvertCachedDependencies (l : list ModelDependency) : list CachedDependency := ConvertCachedDependency <$> l.

Definition EnvironmentVariablesFromModel (l : list ModelVariable) : list EnvironmentVariable :=
  (fun v => mkEnvironmentVariable (mv_Name v) (mv_Value v)) <$> l.

Definition VolumeMountedFilesFromModel (l : list File) : list (string * string) :=
  (fun f => (file_Path f, file_Content f)) <$> l.

Definition ConvertPortMappings (containerPorts : list Z) : list PortMapping :=
  (fun port => mkPortMapping (u16 port) 0 0 0) <$> containerPorts.

Definition convertLogRateLimit (l : option Z) : Z := default (-1)%Z l.
Definition convertCertificateProperties (props : option (list string)) : list string := default [] props.
(** The two types of a sidecar have the same fields. *)
Definition convertSidecars (l : list Sidecar) : list Sidecar :=
  (fun s => mkSidecar (sc_Action s) (sc_DiskMB s) (sc_MemoryMB s)) <$> l.

(** The tag for one value: [Err] when the value is not in [info], [Ok None] for
    a dynamic value the code does not know. *)
Definition convert_tag (index : option Z) (instanceGuid : option string) (v : MetricTagValue)
    : result string (option string) :=
  if (0 <? mv_Dynamic v)%Z then
    if (mv_Dynamic v =? MetricTagDynamicValueIndex)%Z then
      match index with Some i => Ok (Some (strconv_Itoa i)) | None => Err "could not convert value to int32" end
    else if (mv_Dynamic v =? MetricTagDynamicValueInstanceGuid)%Z then
      match instanceGuid with Some g => Ok (Some g) | None => Err "could not convert value to string" end
    else Ok None
  else Ok (Some (mv_Static v)).

(** The error of the first tag, in the order of the range, that cannot be
    converted; a tag that has none is left out. *)
Fixpoint convert_tags (index : option Z) (instanceGuid : option string) (l : list (string * MetricTagValue))
    (tags : gmap string string) : result string (gmap string string) :=
  match l with
  | [] => Ok tags
  | (k, v) :: l =>
      match convert_tag index instanceGuid v with
      | Err e => Err e
      | Ok None => convert_tags index instanceGuid l tags
      | Ok (Some t) => convert_tags index instanceGuid l (<[k := t]> tags)
      end
  end.

Definition ConvertMetricTags `{!MapRange string} (t : nat) (metricTags : gmap string MetricTagValue) (index : option Z)
    (instanceGuid : option string) : result string (gmap string string) :=
  convert_tags index instanceGuid (range_over t metricTags) ∅.

(** ** Network information *)

Record ActualLRPNetInfo := mkNetInfo {
  ni_Address : string;
  ni_Ports : list LRPPortMapping;
  ni_InstanceAddress : string;
  ni_PreferredAddress : Z;
  ni_InstanceIpv6Address : string }.

Definition ActualLRPNetInfo_Validate (i : ActualLRPNetInfo) : option string :=
  if bool_decide (ni_Address i = "") then Some "address" else None.

Definition ActualLRPNetInfoFromContainer (c : Container) : result string ActualLRPNetInfo :=
  let ports := (fun p => mkLRPPortMapping (ContainerPort p) (HostPort p) (ContainerTLSProxyPort p)
                           (HostTLSProxyPort p)) <$> ri_Ports (ctr_RunInfo c) in
  let preferred := if ctr_AdvertisePreference c then PreferredAddressInstance else PreferredAddressHost in
  let info := mkNetInfo (ctr_ExternalIP c) ports (ctr_InternalIP c) preferred (ctr_InternalIPv6 c) in
  match ActualLRPNetInfo_Validate info with
  | Some e => Err e
  | None => Ok info
  end.

Section conversion.
Context `{RouteJson} `{UrlParser} `{!MapRange string} `{MountJson} `{ECRHelper}.

(** ** Volume mounts *)

(** An empty text is not unmarshalled. *)
Definition config_of (s : string) : result string (option (gmap string Any)) :=
  if bool_decide (s = "") then Ok None else unmarshal_config s.

Definition mount_device (m : ModelMount) (lrpKey : option ActualLRPKey)
    : result string (string * option (gmap string Any)) :=
  match mm_Shared m, mm_Dedicated m with
  | Some s, _ =>
      let? config := config_of (sd_MountConfig s) in
      Ok (sd_VolumeId s, config)
  | None, Some d =>
      let volumeId := match lrpKey with
                      | Some key => dd_MounterId d +:+ "-" +:+ strconv_Itoa (key_Index key)
                      | None => dd_MounterId d
                      end in
      let? mountConfig := config_of (dd_MountConfig d) in
      let? deviceConfig := config_of (dd_DeviceConfig d) in
      Ok (volumeId, Some (<["mount_config" := box_config mountConfig]>
                         (<["device_config" := box_config deviceConfig]>
                         (<["source" := AnyString volumeId]> ∅))))
  | None, None => Ok ("", None)
  end.

Definition convertVolumeMount (m : ModelMount) (lrpKey : option ActualLRPKey) : result string VolumeMount :=
  let? device := mount_device m lrpKey in
  let? mode := (if bool_decide (mm_Mode m = "r") then Ok BindMountModeRO
                else if bool_decide (mm_Mode m = "rw") then Ok BindMountModeRW
                else Err "unrecognized volume mount mode") in
  Ok (mkVolumeMount (mm_Driver m) device.1 device.2 (mm_ContainerDir m) mode).

Fixpoint convertVolumeMounts (l : list ModelMount) (lrpKey : option ActualLRPKey) : result string (list VolumeMount) :=
  match l with
  | [] => Ok []
  | m :: l =>
      let? v := convertVolumeMount m lrpKey in
      let? vs := convertVolumeMounts l lrpKey in
      Ok (v :: vs)
  end.

Definition convertCredentials (rootFS username password : string) : result string (string * string) :=
  match IsECRRepo rootFS with
  | Err e => Err e
  | Ok false => Ok (username, password)
  | Ok true =>
      match GetECRCredentials rootFS username password with
      | Err e => Err ("failed to get ECR credentials: " +:+ e)
      | Ok up => Ok up
      end
  end.

Definition convertImageLayers (d : WorkDefinition) : list ModelDependency * option Action :=
  (ToCachedDependencies (df_ImageLayers d) ++ df_CachedDependencies d,
   ToDownloadActions (df_ImageLayers d) (df_LegacyDownloadUser d) None).

(** ** The requests *)

Definition with_layers (d : WorkDefinition) (rootFS : string) (layers : list ImageLayer)
    (deps : list ModelDependency) : WorkDefinition :=
  {| df_RootFs := rootFS;
     df_EnvironmentVariables := df_EnvironmentVariables d;
     df_Action := df_Action d;
     df_CpuWeight := df_CpuWeight d;
     df_Privileged := df_Privileged d;
     df_LogSource := df_LogSource d;
     df_LogGuid := df_LogGuid d;
     df_MetricsGuid := df_MetricsGuid d;
     df_EgressRules := df_EgressRules d;
     df_CachedDependencies := deps;
     df_LegacyDownloadUser := df_LegacyDownloadUser d;
     df_TrustedSystemCertificatesPath := df_TrustedSystemCertificatesPath d;
     df_VolumeMounts := df_VolumeMounts d;
     df_Network := df_Network d;
     df_OrganizationalUnit := df_OrganizationalUnit d;
     df_ImageUsername := df_ImageUsername d;
     df_ImagePassword := df_ImagePassword d;
     df_ImageLayers := layers;
     df_MetricTags := df_MetricTags d;
     df_LogRateLimit := df_LogRateLimit d;
     df_VolumeMountedFiles := df_VolumeMountedFiles d |}.

Definition layered (d : WorkDefinition) (layeringMode : string) : WorkDefinition :=
  let '(rootFS, layers) := ConvertPreloadedRootFS (df_RootFs d) (df_ImageLayers d) layeringMode in
  with_layers d rootFS layers (df_CachedDependencies d).

Definition with_definition (w : DesiredWork) (d : WorkDefinition) (setup : option Action) : DesiredWork :=
  mkDesiredWork d setup (dw_Monitor w) (dw_CheckDefinition w) (dw_StartTimeoutMs w) (dw_Ports w) (dw_Routes w)
    (dw_Sidecars w).

Definition downgradeDesiredLRPV3ToV2 (w : DesiredWork) : DesiredWork :=
  let d := dw_Definition w in
  with_definition w
    (with_layers d (df_RootFs d) [] (ToCachedDependencies (df_ImageLayers d) ++ df_CachedDependencies d))
    (ToDownloadActions (df_ImageLayers d) (df_LegacyDownloadUser d) (dw_Setup w)).

(** [VersionDownTo(format.V2)]: desired LRPs are at version 3. *)
Definition VersionDownTo_V2 (w : DesiredWork) : DesiredWork := downgradeDesiredLRPV3ToV2 w.

Definition instance_env (key : ActualLRPKey) (ik : ActualLRPInstanceKey) : list EnvironmentVariable :=
  [mkEnvironmentVariable "INSTANCE_GUID" (ik_InstanceGuid ik);
   mkEnvironmentVariable "INSTANCE_INDEX" (strconv_Itoa (key_Index key));
   mkEnvironmentVariable "CF_INSTANCE_GUID" (ik_InstanceGuid ik);
   mkEnvironmentVariable "CF_INSTANCE_INDEX" (strconv_Itoa (key_Index key))].

(** What both requests compute first: mounts, root file system, tags and
    credentials, in this order. *)
Definition convert_common (t : nat) (d : WorkDefinition) (lrpKey : option ActualLRPKey) (instanceGuid : option string)
    (stackPathMap : StackPathMap)
    : result string (list VolumeMount * string * gmap string string * (string * string)) :=
  let? mounts := convertVolumeMounts (df_VolumeMounts d) lrpKey in
  let? rootFSPath := PathForRootFS stackPathMap (df_RootFs d) in
  let? metricTags := ConvertMetricTags t (df_MetricTags d) (key_Index <$> lrpKey) instanceGuid in
  let? creds := convertCredentials rootFSPath (df_ImageUsername d) (df_ImagePassword d) in
  Ok (mounts, rootFSPath, metricTags, creds).

(** The request of an LRP; [None] is the nil dereference of its routes. *)
Definition NewRunRequestFromDesiredLRP (t : nat) (containerGuid : string) (desired : DesiredWork)
    (lrpKey : ActualLRPKey) (ik : ActualLRPInstanceKey) (stackPathMap : StackPathMap) (layeringMode : string)
    : option (result string RunRequest) :=
  let w := VersionDownTo_V2 (with_definition desired (layered (dw_Definition desired) layeringMode) (dw_Setup desired)) in
  let d := dw_Definition w in
  match convert_common t d (Some lrpKey) (Some (ik_InstanceGuid ik)) stackPathMap with
  | Err e => Some (Err e)
  | Ok (mounts, rootFSPath, metricTags, (username, password)) =>
      match InternalRoutesFromRoutingInfo <$> dw_Routes w with
      | None => None
      | Some (_, false) => Some (Err "failed to unmarshal internal routes")
      | Some (hostnames, true) =>
        let ports := ConvertPortMappings (dw_Ports w) in
        Some (Ok (mkRunRequest containerGuid
          {| ri_RootFSPath := rootFSPath;
             ri_CPUWeight := Z.max (df_CpuWeight d) 1;
             ri_Ports := ports;
             ri_InternalRoutes := Executor.mkInternalRoute <$> hostnames;
             ri_LogConfig := mkLogConfig (df_LogGuid d) (key_Index lrpKey) (df_LogSource d) (Some metricTags);
             ri_MetricTags := Some metricTags;
             ri_Privileged := df_Privileged d;
             ri_CachedDependencies := ConvertCachedDependencies (df_CachedDependencies d);
             ri_Env := instance_env lrpKey ik ++ EnvironmentVariablesFromModel (df_EnvironmentVariables d);
             ri_TrustedSystemCertificatesPath := df_TrustedSystemCertificatesPath d;
             ri_VolumeMounts := mounts;
             ri_Network := df_Network d;
             ri_ImageUsername := username;
             ri_ImagePassword := password;
             ri_EnableContainerProxy := negb (bool_decide (length ports = 0));
             ri_VolumeMountedFiles := VolumeMountedFilesFromModel (df_VolumeMountedFiles d);
             ri_Work :=
               {| rw_MetricsGuid := df_MetricsGuid d;
                  rw_MetricsIndex := key_Index lrpKey;
                  rw_StartTimeoutMs := u64 (dw_StartTimeoutMs w);
                  rw_Setup := dw_Setup w;
                  rw_Action := df_Action d;
                  rw_Monitor := dw_Monitor w;
                  rw_CheckDefinition := dw_CheckDefinition w;
                  rw_EgressRules := df_EgressRules d;
                  rw_OrganizationalUnit := convertCertificateProperties (df_OrganizationalUnit d);
                  rw_Sidecars := convertSidecars (dw_Sidecars w);
                  rw_LogRateLimit := convertLogRateLimit (df_LogRateLimit d) |} |} (Some ∅)))
      end
  end.

(** The request of a task; [None] is the nil dereference of its definition. *)
Definition NewRunRequestFromTask (t : nat) (task : Task) (stackPathMap : StackPathMap) (layeringMode : string)
    : option (result string RunRequest) :=
  d ← tk_Definition task;
  let d := layered d layeringMode in
  let '(cachedDependencies, setupAction) := convertImageLayers d in
  Some (
    let? common := convert_common t d None None stackPathMap in
    let '(mounts, rootFSPath, metricTags, (username, password)) := common in
    Ok (mkRunRequest (tk_TaskGuid task)
      {| ri_RootFSPath := rootFSPath;
         ri_CPUWeight := df_CpuWeight d;
         ri_Ports := [];
         ri_InternalRoutes := [];
         ri_LogConfig := mkLogConfig (df_LogGuid d) 0 (df_LogSource d) (Some metricTags);
         ri_MetricTags := Some metricTags;
         ri_Privileged := df_Privileged d;
         ri_CachedDependencies := ConvertCachedDependencies cachedDependencies;
         ri_Env := EnvironmentVariablesFromModel (df_EnvironmentVariables d);
         ri_TrustedSystemCertificatesPath := df_TrustedSystemCertificatesPath d;
         ri_VolumeMounts := mounts;
         ri_Network := df_Network d;
         ri_ImageUsername := username;
         ri_ImagePassword := password;
         ri_EnableContainerProxy := false;
         ri_VolumeMountedFiles := VolumeMountedFilesFromModel (df_VolumeMountedFiles d);
         ri_Work :=
           {| rw_MetricsGuid := df_MetricsGuid d;
              rw_MetricsIndex := 0;
              rw_StartTimeoutMs := 0;
              rw_Setup := setupAction;
              rw_Action := df_Action d;
              rw_Monitor := None;
              rw_CheckDefinition := None;
              rw_EgressRules := df_EgressRules d;
              rw_OrganizationalUnit := convertCertificateProperties (df_OrganizationalUnit d);
              rw_Sidecars := [];
              rw_LogRateLimit := convertLogRateLimit (df_LogRateLimit d) |} |}
      (Some {[ResultFileTag := tk_ResultFile task]}))).
End conversion.

(** ** Where the layers go *)

(** What an action downloads, as sources and destinations. *)
Fixpoint fetches (a : Action) : list (string * string) :=
  let of_option o := match o with Some a => fetches a | None => [] end in
  match a with
  | ADownload d => [(da_From d, da_To d)]
  | ATimeout o _ _ | AEmitProgress o _ _ _ _ | ATry o _ => of_option o
  | AParallel l _ | ASerial l _ | ACodependent l _ => flat_map of_option l
  | AUpload _ | ARun _ | ANothing => []
  end.
Definition fetches_opt (o : option Action) : list (string * string) := default [] (fetches <$> o).

Definition layer_source (l : ImageLayer) : string * string := (il_Url l, il_DestinationPath l).
Definition dependency_source (d : CachedDependency) : string * string := (cd_From d, cd_To d).
Definition model_source (d : ModelDependency) : string * string := (md_From d, md_To d).

(** The layers that have one of the two types. *)
Definition typed_layers (l : list ImageLayer) : list ImageLayer := filter (fun v => il_LayerType v <> LayerTypeInvalid) l.

Lemma fetches_unwrap o : fetches_opt (UnwrapAction o) = fetches_opt o.
Proof. by destruct o as [[]|]. Qed.

Lemma fetches_serial p o : fetches (Serial [Some p; o]) = fetches p ++ fetches_opt o.
Proof. destruct o; simpl; rewrite app_nil_r; [done|]. symmetry. apply app_nil_r. Qed.

Lemma downloads_fetch user (l : list ImageLayer) :
  fetches (Parallel ((fun v => Some (ADownload (download_of user v))) <$> l)) = layer_source <$> l.
Proof. induction l as [|v l IH]; [done|]. rewrite !fmap_cons, <- IH. done. Qed.

Lemma ToDownloadActions_fetches layers user o :
  fetches_opt (ToDownloadActions layers user o) =
  (layer_source <$> FilterByType layers LayerTypeExclusive) ++ fetches_opt o.
Proof.
  unfold ToDownloadActions. destruct (FilterByType layers LayerTypeExclusive) as [|v l] eqn:E; [done|].
  rewrite <- E. destruct o as [a|].
  - change (fetches_opt (Some ?x)) with (fetches x). by rewrite fetches_serial, downloads_fetch, fetches_unwrap.
  - change (fetches_opt (Some ?x)) with (fetches x). by rewrite downloads_fetch, app_nil_r.
Qed.

Lemma dependencies_sources l deps :
  dependency_source <$> ConvertCachedDependencies (ToCachedDependencies l ++ deps) =
  (layer_source <$> FilterByType l LayerTypeShared) ++ (model_source <$> deps).
Proof.
  unfold ConvertCachedDependencies, ToCachedDependencies. rewrite !fmap_app, <- !list_fmap_compose. done.
Qed.

Lemma layers_by_type l :
  FilterByType l LayerTypeExclusive ++ FilterByType l LayerTypeShared ≡ₚ typed_layers l.
Proof.
  induction l as [|v l IH]; [done|]. unfold FilterByType, typed_layers in *. rewrite !filter_cons.
  destruct (il_LayerType v); simpl; try done.
  - rewrite <- Permutation_middle. by f_equiv.
  - by f_equiv.
Qed.

Lemma convert_layers_spec rootFS l st :
  let r := foldl (convert_layer rootFS) st l in
  (st.1 = "" ->
   (r = ("", st.2 ++ l) /\ Forall (fun v => suitableLayer v = false) l) \/
   exists l1 v l2, l = l1 ++ v :: l2 /\ suitableLayer v = true /\ Forall (fun v => suitableLayer v = false) l1 /\
     r = (layered_rootfs rootFS v, st.2 ++ l1 ++ l2)) /\
  (st.1 <> "" -> r = (st.1, st.2 ++ l)).
Proof.
  revert st. induction l as [|v l IH]; intros [s kept]; cbn [foldl fst snd].
  { rewrite app_nil_r. split; [|done]. intros ->. by left. }
  destruct (suitableLayer v && bool_decide (s = "")) eqn:E.
  - assert (convert_layer rootFS (s, kept) v = (layered_rootfs rootFS v, kept)) as -> by (unfold convert_layer; cbn [fst snd]; by rewrite E).
    apply andb_true_iff in E as [Hv Hs%bool_decide_eq_true]. subst s. split; [|done]. intros _. right.
    exists [], v, l. split_and!; try done. by apply (IH (layered_rootfs rootFS v, kept)).
  - assert (convert_layer rootFS (s, kept) v = (s, kept ++ [v])) as -> by (unfold convert_layer; cbn [fst snd]; by rewrite E).
    destruct (IH (s, kept ++ [v])) as [IH1 IH2]. cbn [fst snd] in *. rewrite <- app_assoc in IH2. split; [|done].
    intros Hs. assert (suitableLayer v = false) as Hv.
    { apply andb_false_iff in E as [?|Hc%bool_decide_eq_false]; [done|by rewrite Hs in Hc]. }
    destruct (IH1 Hs) as [[-> Hf]|(l1 & u & l2 & -> & Hu & Hf & ->)].
    + left. rewrite <- app_assoc. auto.
    + right. exists (v :: l1), u, l2. rewrite <- app_assoc. auto.
Qed.

(** Two-layer mode moves the first suitable layer, and only it, into the root
    file system; otherwise nothing changes. *)
Lemma ConvertPreloadedRootFS_spec rootFS l mode :
  (ConvertPreloadedRootFS rootFS l mode = (rootFS, l) /\
   (mode = LayeringModeTwoLayer -> String.prefix "preloaded:" rootFS = true -> Forall (fun v => suitableLayer v = false) l)) \/
  exists l1 v l2, mode = LayeringModeTwoLayer /\ String.prefix "preloaded:" rootFS = true /\ l = l1 ++ v :: l2 /\
    suitableLayer v = true /\ Forall (fun v => suitableLayer v = false) l1 /\
    ConvertPreloadedRootFS rootFS l mode = (layered_rootfs rootFS v, l1 ++ l2).
Proof.
  unfold ConvertPreloadedRootFS. case_bool_decide as Hm; simpl; [|left; split; [done|by intros ?]].
  destruct (String.prefix "preloaded:" rootFS) eqn:Hp; simpl; [|by left].
  destruct (convert_layers_spec rootFS l ("", [])) as [H _]. simpl in H.
  destruct (H eq_refl) as [[-> Hf]|(l1 & v & l2 & -> & Hv & Hf & ->)]; simpl.
  - by left.
  - right. exists l1, v, l2. split_and!; try done.
Qed.

(** The layers, downloads and dependencies of a definition, with the layers
    [moved] into the root file system, are those of a request. *)
Definition accounts_for `{UrlParser} (d : WorkDefinition) (setup : option Action) (stacks : StackPathMap)
    (moved : list ImageLayer) (req : RunRequest) : Prop :=
  length moved <= 1 /\ Forall (fun v => suitableLayer v = true) moved /\
  PathForRootFS stacks (match moved with v :: _ => layered_rootfs (df_RootFs d) v | [] => df_RootFs d end)
    = Ok (ri_RootFSPath (run_RunInfo req)) /\
  (layer_source <$> moved) ++ fetches_opt (rw_Setup (ri_Work (run_RunInfo req))) ++
    (dependency_source <$> ri_CachedDependencies (run_RunInfo req))
  ≡ₚ (layer_source <$> typed_layers (df_ImageLayers d)) ++ fetches_opt setup ++ (model_source <$> df_CachedDependencies d).

Definition in_u (bits z : Z) : Prop := (0 <= z < 2 ^ bits)%Z.

Record run_info_ok (ri : RunInfo) : Prop := {
  rio_weight : in_u 32 (ri_CPUWeight ri);
  rio_ports : Forall (fun p => in_u 16 (ContainerPort p) /\ HostPort p = 0%Z /\ ContainerTLSProxyPort p = 0%Z /\
                                HostTLSProxyPort p = 0%Z) (ri_Ports ri);
  rio_proxy : ri_EnableContainerProxy ri = true <-> ri_Ports ri <> [];
  rio_timeout : in_u 64 (rw_StartTimeoutMs (ri_Work ri));
  rio_index : in_i32 (log_Index (ri_LogConfig ri));
  rio_metrics : rw_MetricsIndex (ri_Work ri) = log_Index (ri_LogConfig ri);
  rio_tags : log_Tags (ri_LogConfig ri) = ri_MetricTags ri }.

Section properties.
Context `{RouteJson} `{UrlParser} `{!MapRange string} `{MountJson} `{ECRHelper}.

Lemma result_bind_Ok {E A B} (r : result E A) (k : A -> result E B) b :
  result_bind r k = Ok b -> exists a, r = Ok a /\ k a = Ok b.
Proof. destruct r as [a|e]; [|done]. by exists a. Qed.

Lemma convert_common_Ok t d key guid stacks mounts path tags creds :
  convert_common t d key guid stacks = Ok (mounts, path, tags, creds) ->
  convertVolumeMounts (df_VolumeMounts d) key = Ok mounts /\ PathForRootFS stacks (df_RootFs d) = Ok path /\
  ConvertMetricTags t (df_MetricTags d) (key_Index <$> key) guid = Ok tags /\
  convertCredentials path (df_ImageUsername d) (df_ImagePassword d) = Ok creds.
Proof.
  unfold convert_common. intros H'. repeat (apply result_bind_Ok in H' as (? & ? & H')). by simplify_eq.
Qed.

(** Where the layers of a definition go: at most one into the root file system,
    the others into downloads and cached dependencies. *)
Lemma layered_sources d mode setup :
  let d' := layered d mode in
  exists moved, length moved <= 1 /\ Forall (fun v => suitableLayer v = true) moved /\
    df_RootFs d' = match moved with v :: _ => layered_rootfs (df_RootFs d) v | [] => df_RootFs d end /\
    df_CachedDependencies d' = df_CachedDependencies d /\ df_LegacyDownloadUser d' = df_LegacyDownloadUser d /\
    (layer_source <$> moved) ++
    fetches_opt (ToDownloadActions (df_ImageLayers d') (df_LegacyDownloadUser d') setup) ++
    (dependency_source <$> ConvertCachedDependencies (ToCachedDependencies (df_ImageLayers d') ++ df_CachedDependencies d'))
    ≡ₚ (layer_source <$> typed_layers (df_ImageLayers d)) ++ fetches_opt setup ++ (model_source <$> df_CachedDependencies d).
Proof.
  assert (forall ls user deps, fetches_opt (ToDownloadActions ls user setup) ++
      (dependency_source <$> ConvertCachedDependencies (ToCachedDependencies ls ++ deps)) ≡ₚ
      (layer_source <$> typed_layers ls) ++ fetches_opt setup ++ (model_source <$> deps)) as Hfetch.
  { intros ls user deps. rewrite ToDownloadActions_fetches, dependencies_sources, <- layers_by_type, fmap_app.
    solve_Permutation. }
  unfold layered.
  destruct (ConvertPreloadedRootFS_spec (df_RootFs d) (df_ImageLayers d) mode)
    as [[-> _]|(l1 & v & l2 & _ & _ & Hl & Hv & _ & ->)]; simpl.
  - exists []. split_and!; try done; [simpl; lia|apply Hfetch].
  - exists [v]. split_and!; try done; [by constructor|]. rewrite Hfetch, Hl. simpl.
    assert (il_LayerType v <> LayerTypeInvalid) as Hty.
    { intros Hc. unfold suitableLayer in Hv. rewrite Hc in Hv. by rewrite bool_decide_false in Hv. }
    unfold typed_layers. rewrite !filter_app, filter_cons, decide_True, !fmap_app, fmap_cons by done.
    solve_Permutation.
Qed.

Lemma desired_request t guid w key ik stacks mode req :
  NewRunRequestFromDesiredLRP t guid w key ik stacks mode = Some (Ok req) ->
  let d := layered (dw_Definition w) mode in
  let ri := run_RunInfo req in
  run_Guid req = guid /\ PathForRootFS stacks (df_RootFs d) = Ok (ri_RootFSPath ri) /\
  rw_Setup (ri_Work ri) = ToDownloadActions (df_ImageLayers d) (df_LegacyDownloadUser d) (dw_Setup w) /\
  ri_CachedDependencies ri = ConvertCachedDependencies (ToCachedDependencies (df_ImageLayers d) ++ df_CachedDependencies d) /\
  ri_Ports ri = ConvertPortMappings (dw_Ports w) /\
  ri_EnableContainerProxy ri = negb (bool_decide (length (dw_Ports w) = 0)) /\
  ri_CPUWeight ri = Z.max (df_CpuWeight (dw_Definition w)) 1 /\
  rw_StartTimeoutMs (ri_Work ri) = u64 (dw_StartTimeoutMs w) /\
  log_Index (ri_LogConfig ri) = key_Index key /\ rw_MetricsIndex (ri_Work ri) = key_Index key /\
  log_Tags (ri_LogConfig ri) = ri_MetricTags ri /\
  ri_Env ri = instance_env key ik ++ EnvironmentVariablesFromModel (df_EnvironmentVariables (dw_Definition w)).
Proof.
  unfold NewRunRequestFromDesiredLRP, VersionDownTo_V2, downgradeDesiredLRPV3ToV2. cbn [dw_Definition with_definition].
  destruct (convert_common _ _ _ _ _) as [[[[mounts path] tags] [user pass]]|e] eqn:E; [|done].
  apply convert_common_Ok in E as (_ & Hp & _). intros Hr.
  destruct (InternalRoutesFromRoutingInfo <$> _) as [[hosts []]|]; simplify_eq.
  assert (df_CpuWeight (layered (dw_Definition w) mode) = df_CpuWeight (dw_Definition w) /\
          df_EnvironmentVariables (layered (dw_Definition w) mode) = df_EnvironmentVariables (dw_Definition w)) as [Hw He].
  { unfold layered. by destruct (ConvertPreloadedRootFS _ _ _). }
  cbn -[instance_env] in *. rewrite ?Hw, ?He, ?length_fmap. split_and!; try done.
  unfold ConvertPortMappings. by rewrite length_fmap.
Qed.
Lemma task_request t task stacks mode req :
  NewRunRequestFromTask t task stacks mode = Some (Ok req) ->
  exists d0, tk_Definition task = Some d0 /\
  let d := layered d0 mode in
  let ri := run_RunInfo req in
  run_Guid req = tk_TaskGuid task /\ PathForRootFS stacks (df_RootFs d) = Ok (ri_RootFSPath ri) /\
  rw_Setup (ri_Work ri) = ToDownloadActions (df_ImageLayers d) (df_LegacyDownloadUser d) None /\
  ri_CachedDependencies ri = ConvertCachedDependencies (ToCachedDependencies (df_ImageLayers d) ++ df_CachedDependencies d) /\
  ri_Ports ri = [] /\ ri_EnableContainerProxy ri = false /\ ri_CPUWeight ri = df_CpuWeight d0 /\
  rw_StartTimeoutMs (ri_Work ri) = 0%Z /\ log_Index (ri_LogConfig ri) = 0%Z /\ rw_MetricsIndex (ri_Work ri) = 0%Z /\
  log_Tags (ri_LogConfig ri) = ri_MetricTags ri.
Proof.
  unfold NewRunRequestFromTask. intros (d0 & Hd & Hr)%bind_Some. exists d0. split; [done|].
  assert (df_CpuWeight (layered d0 mode) = df_CpuWeight d0) as Hw by (unfold layered; by destruct (ConvertPreloadedRootFS _ _ _)).
  cbv beta iota zeta delta [convertImageLayers] in Hr. injection Hr as Hr. apply result_bind_Ok in Hr as ([[[mounts path] tags] [user pass]] & E & Hr).
  apply convert_common_Ok in E as (_ & Hp & _). simplify_eq. cbn. by rewrite Hw.
Qed.

(** *** Claims *)

(** C26: No image layer is lost or fetched twice.  In the run request of an LRP,
    and in that of a task, what is downloaded by the setup action, what is a
    cached dependency, and the layer that two-layer mode moves into the root file
    system, if any, are together exactly the shared and the exclusive layers of
    the definition, its own cached dependencies and what its own setup action
    downloads.  At most one layer is moved, a suitable one, and the root file
    system is resolved after it was moved. *)
Theorem run_request_layers :
  (forall t guid w key ik stacks mode req, NewRunRequestFromDesiredLRP t guid w key ik stacks mode = Some (Ok req) ->
   exists moved, accounts_for (dw_Definition w) (dw_Setup w) stacks moved req) /\
  (forall t task d stacks mode req, NewRunRequestFromTask t task stacks mode = Some (Ok req) -> tk_Definition task = Some d ->
   exists moved, accounts_for d None stacks moved req).
Proof.
  split.
  - intros t guid w key ik stacks mode req (_ & Hp & Hs & Hc & _)%desired_request.
    destruct (layered_sources (dw_Definition w) mode (dw_Setup w)) as (moved & Hl & Hf & Hr & _ & _ & Hperm).
    exists moved. unfold accounts_for. rewrite <- Hr, Hs, Hc. auto.
  - intros t task d stacks mode req (d0 & Hd & _ & Hp & Hs & Hc & _)%task_request Hd'. rewrite Hd' in Hd. injection Hd as <-.
    destruct (layered_sources d mode None) as (moved & Hl & Hf & Hr & _ & _ & Hperm).
    exists moved. unfold accounts_for. rewrite <- Hr, Hs, Hc. auto.
Qed.

(** Run requests are well typed: the CPU weight is a uint32 and, for an LRP,
    at least 1; container ports are uint16 and have no host port yet; the start
    timeout is a uint; the index of logs and metrics is an int32, and their tags
    agree; the proxy is enabled exactly when there are ports.  For a key with an
    int32 index and a weight that is a uint32. *)
Theorem run_request_well_typed :
  (forall t guid w key ik stacks mode req, NewRunRequestFromDesiredLRP t guid w key ik stacks mode = Some (Ok req) ->
   in_i32 (key_Index key) -> in_u 32 (df_CpuWeight (dw_Definition w)) ->
   run_info_ok (run_RunInfo req) /\ (1 <= ri_CPUWeight (run_RunInfo req))%Z /\ run_Guid req = guid) /\
  (forall t task d stacks mode req, NewRunRequestFromTask t task stacks mode = Some (Ok req) -> tk_Definition task = Some d ->
   in_u 32 (df_CpuWeight d) -> run_info_ok (run_RunInfo req) /\ run_Guid req = tk_TaskGuid task).
Proof.
  split.
  - intros t guid w key ik stacks mode req (Hg & _ & _ & _ & Hp & He & Hw & Ht & Hl & Hm & Htag & _)%desired_request Hi Hc.
    unfold in_u in Hc. rewrite Hw. split_and!; [|lia|done].
    split; rewrite ?Hw, ?Hp, ?He, ?Ht, ?Hl, ?Hm.
    + unfold in_u. lia.
    + unfold ConvertPortMappings. apply Forall_fmap, Forall_true. intros p. simpl. split; [|done].
      unfold in_u, u16, wrap_unsigned. apply Z.mod_pos_bound. lia.
    + destruct (dw_Ports w); simpl; by rewrite ?bool_decide_true, ?bool_decide_false.
    + unfold in_u, u64, wrap_unsigned. apply Z.mod_pos_bound. lia.
    + done.
    + done.
    + done.
  - intros t task d stacks mode req (d0 & Hd & Hg & _ & _ & _ & Hp & He & Hw & Ht & Hl & Hm & Htag)%task_request Hd' Hc.
    rewrite Hd' in Hd. injection Hd as <-. split; [|done]. split; rewrite ?Hw, ?Hp, ?He, ?Ht, ?Hl, ?Hm; try done.
Qed.
End properties.
