(* ===== verification/Processors.v ===== *)
(** * The processors of the rep

    [rep/generator/operation.go] and [rep/generator/internal]: the operations
    that bring the BBS and a container into agreement, with the processors for
    LRPs (ordinary and evacuating) and tasks, and the container delegate.  An
    operation is a program that calls the executor and the BBS and goes on with
    their answers; what it can do is the set of its runs. *)
From Stdlib Require Import ZArith Lia.
From S2P Require Import Prelude GoStd Models Actions Executor CellRep Routes RunRequest.

(** ** Calls *)

(** An error of the BBS: one of its own, with its type, or any other. *)
Inductive BBSErr := ModelErr (type : Z) (message : string) | PlainErr (message : string).

Definition Error_UnknownError : Z := 0.
Definition Error_InvalidStateTransition : Z := 9.
Definition Error_ResourceNotFound : Z := 13.
Definition Error_ActualLRPCannotBeClaimed : Z := 15.
Definition Error_ActualLRPCannotBeStarted : Z := 16.

(** The type of the error that [models.ConvertError] makes. *)
Definition ConvertError (e : BBSErr) : Z :=
  match e with
  | ModelErr ty _ => ty
  | PlainErr _ => Error_UnknownError
  end.

(** A tar stream: the error of the first header, what the reads return, and the
    error that ends them ([None] is [io.EOF]). *)
Record TarStream := mkTarStream {
  ts_next : option string;
  ts_reads : list string;
  ts_end : option string }.

(** The calls of an operation, with the type of their answers: those of the
    executor's client, of the BBS, of the evacuation reporter, of the metron
    client, and of the set of containers already evacuated. *)
Inductive call : Type -> Type :=
| GetContainer (guid : string) : call (result ExecError Container)
| RunContainer (req : RunRequest) : call (option ExecError)
| StopContainer (guid : string) : call (option ExecError)
| DeleteContainer (guid : string) : call (option ExecError)
| GetFiles (guid file : string) : call (result ExecError TarStream)
| ClaimActualLRP (key : ActualLRPKey) (ik : ActualLRPInstanceKey) : call (option BBSErr)
| StartActualLRP (key : ActualLRPKey) (ik : ActualLRPInstanceKey) (info : ActualLRPNetInfo) (routes : list string)
    (tags : option (gmap string string)) (routable : bool) (zone : string) : call (option BBSErr)
| CrashActualLRP (key : ActualLRPKey) (ik : ActualLRPInstanceKey) (reason : string) : call (option BBSErr)
| RemoveActualLRP (key : ActualLRPKey) (ik : ActualLRPInstanceKey) : call (option BBSErr)
| EvacuateClaimedActualLRP (key : ActualLRPKey) (ik : ActualLRPInstanceKey) : call (bool * option BBSErr)
| EvacuateRunningActualLRP (key : ActualLRPKey) (ik : ActualLRPInstanceKey) (info : ActualLRPNetInfo)
    (routes : list string) (tags : option (gmap string string)) (routable : bool) (zone : string)
    : call (bool * option BBSErr)
| EvacuateStoppedActualLRP (key : ActualLRPKey) (ik : ActualLRPInstanceKey) : call (bool * option BBSErr)
| EvacuateCrashedActualLRP (key : ActualLRPKey) (ik : ActualLRPInstanceKey) (reason : string)
    : call (bool * option BBSErr)
| RemoveEvacuatingActualLRP (key : ActualLRPKey) (ik : ActualLRPInstanceKey) : call (option BBSErr)
| DesiredLRPByProcessGuid (guid : string) : call (result BBSErr DesiredWork)
| StartTask (guid cellID : string) : call (result BBSErr bool)
| TaskByGuid (guid : string) : call (result BBSErr Task)
| CompleteTask (guid cellID : string) (failed : bool) (reason taskResult : string) : call (option BBSErr)
| RejectTask (guid reason : string) : call (option BBSErr)
| Evacuating : call bool
| SendAppLog (message : string) (lc : LogConfig) : call ()
| LoadOrStore (guid : string) : call bool.

(** ** Programs *)

Inductive prog (A : Type) : Type :=
| Ret (a : A)
| Panic
| Vis {X : Type} (c : call X) (k : X -> prog A).
Arguments Ret {A} a.
Arguments Panic {A}.
Arguments Vis {A X} c k.

Fixpoint prog_bind {A B} (f : A -> prog B) (p : prog A) : prog B :=
  match p with
  | Ret a => f a
  | Panic => Panic
  | Vis c k => Vis c (fun x => prog_bind f (k x))
  end.
#[global] Instance prog_ret : MRet prog := fun A a => Ret a.
#[global] Instance prog_mbind : MBind prog := fun A B f p => prog_bind f p.

Definition ask {X} (c : call X) : prog X := Vis c Ret.
Definition skip : prog () := Ret ().

(** A call and its answer. *)
Inductive obs :=
| Obs {X : Type} (c : call X) (x : X).

(** The runs of a program: what it called, what was answered, and its result,
    [None] when it panicked. *)
Fixpoint runs {A} (p : prog A) (tr : list obs) (r : option A) : Prop :=
  match p with
  | Ret a => tr = [] /\ r = Some a
  | Panic => tr = [] /\ r = None
  | Vis c k => exists x tr', tr = Obs c x :: tr' /\ runs (k x) tr' r
  end.

(** The run of a program against a world that answers. *)
Fixpoint exec {W A} (answer : forall X, call X -> W -> X * W) (w : W) (p : prog A) : list obs * option A * W :=
  match p with
  | Ret a => ([], Some a, w)
  | Panic => ([], None, w)
  | Vis c k =>
      let '(x, w) := answer _ c w in
      let '(tr, r, w) := exec answer w (k x) in
      (Obs c x :: tr, r, w)
  end.

(** ** The container delegate *)

Definition MAX_RESULT_SIZE : Z := 1024 * 50.

Definition delegate_GetContainer (guid : string) : prog (option Container) :=
  answer ← ask (GetContainer guid);
  Ret (match answer with Ok c => Some c | Err _ => None end).

Definition delegate_DeleteContainer (guid : string) : prog bool :=
  err ← ask (DeleteContainer guid);
  Ret (bool_decide (err = None)).

Definition delegate_StopContainer (guid : string) : prog bool :=
  err ← ask (StopContainer guid);
  Ret (bool_decide (err = None)).

Definition delegate_RunContainer (req : RunRequest) : prog bool :=
  err ← ask (RunContainer req);
  match err with
  | Some _ => _ ← delegate_DeleteContainer (run_Guid req); Ret false
  | None => Ret true
  end.

Inductive FetchError := FetchFailed (e : ExecError) | TarFailed (e : string) | ErrResultFileTooLarge | ReadFailed (e : string).

(** The loop that fills the buffer. *)
Fixpoint read_result (buf : string) (reads : list string) (fin : option string) : result FetchError string :=
  match reads with
  | [] => match fin with None => Ok buf | Some e => Err (ReadFailed e) end
  | s :: reads =>
      let buf := buf +:+ s in
      if (MAX_RESULT_SIZE <? Z.of_nat (String.length buf))%Z then Err ErrResultFileTooLarge
      else read_result buf reads fin
  end.

Definition FetchContainerResultFile (guid filename : string) : prog (result FetchError string) :=
  stream ← ask (GetFiles guid filename);
  Ret (match stream with
       | Err e => Err (FetchFailed e)
       | Ok s =>
           match ts_next s with
           | Some e => Err (TarFailed e)
           | None => read_result "" (ts_reads s) (ts_end s)
           end
       end).

(** ** Processors *)

Record ProcessorConfig := mkProcessorConfig {
  pc_cellID : string;
  pc_availabilityZone : string;
  pc_stackPathMap : StackPathMap;
  pc_layeringMode : string }.

Record lrpContainer := newLRPContainer {
  lc_key : ActualLRPKey;
  lc_ik : ActualLRPInstanceKey;
  lc_Container : Container }.

Abbreviation lc_Guid l := (ctr_Guid (lc_Container l)).

Section processors.
Context `{RouteJson} `{UrlParser} `{!MapRange string} `{MountJson} `{ECRHelper}.
Context (cfg : ProcessorConfig).

(** The first steps of both processors: the keys, from the container's tags. *)
Definition lrp_container (c : Container) : option lrpContainer :=
  match ActualLRPKeyFromTags (ctr_Tags c) with
  | Err _ => None
  | Ok key =>
      match ActualLRPInstanceKeyFromContainer c (pc_cellID cfg) with
      | Err _ => None
      | Ok guid => Some (newLRPContainer key (mkInstanceKey guid (pc_cellID cfg)) c)
      end
  end.

Definition internal_hostnames (c : Container) : list string := Executor.ir_Hostname <$> ri_InternalRoutes (ctr_RunInfo c).

(** *** Ordinary *)

Definition claimLRPContainer (l : lrpContainer) : prog bool :=
  err ← ask (ClaimActualLRP (lc_key l) (lc_ik l));
  match err with
  | None => Ret true
  | Some e =>
      if (ConvertError e =? Error_ActualLRPCannotBeClaimed)%Z
      then _ ← delegate_DeleteContainer (lc_Guid l); Ret false
      else Ret false
  end.

Definition ordinary_processReservedContainer (t : nat) (l : lrpContainer) : prog () :=
  ok ← claimLRPContainer l;
  if negb (ok : bool) then skip
  else
    desired ← ask (DesiredLRPByProcessGuid (key_ProcessGuid (lc_key l)));
    match desired with
    | Err _ => skip
    | Ok w =>
        match NewRunRequestFromDesiredLRP t (lc_Guid l) w (lc_key l) (lc_ik l) (pc_stackPathMap cfg) (pc_layeringMode cfg) with
        | None => Panic
        | Some (Err _) => skip
        | Some (Ok req) =>
            ok ← delegate_RunContainer req;
            if negb (ok : bool) then _ ← ask (RemoveActualLRP (lc_key l) (lc_ik l)); skip else skip
        end
    end.

Definition ordinary_processRunningContainer (l : lrpContainer) : prog () :=
  match ActualLRPNetInfoFromContainer (lc_Container l) with
  | Err _ => skip
  | Ok info =>
      let c := lc_Container l in
      err ← ask (StartActualLRP (lc_key l) (lc_ik l) info (internal_hostnames c) (ri_MetricTags (ctr_RunInfo c))
                   (ctr_Routable c) (pc_availabilityZone cfg));
      match err with
      | Some e =>
          if (ConvertError e =? Error_ActualLRPCannotBeStarted)%Z
          then _ ← delegate_StopContainer (lc_Guid l); skip else skip
      | None => skip
      end
  end.

Definition ordinary_processCompletedContainer (l : lrpContainer) : prog () :=
  let res := ctr_RunResult (lc_Container l) in
  _ ← (if rr_Stopped res then ask (RemoveActualLRP (lc_key l) (lc_ik l))
       else ask (CrashActualLRP (lc_key l) (lc_ik l) (rr_FailureReason res)));
  _ ← delegate_DeleteContainer (lc_Guid l);
  skip.

Definition ordinary_Process (t : nat) (c : Container) : prog () :=
  match lrp_container c with
  | None => skip
  | Some l =>
      match ctr_State c with
      | StateReserved => ordinary_processReservedContainer t l
      | StateInitializing | StateCreated => _ ← claimLRPContainer l; skip
      | StateRunning => ordinary_processRunningContainer l
      | StateCompleted => ordinary_processCompletedContainer l
      | StateInvalid => skip
      end
  end.

(** *** Evacuating *)

Definition evacuateClaimedLRPContainer (l : lrpContainer) : prog () :=
  _ ← ask (EvacuateClaimedActualLRP (lc_key l) (lc_ik l));
  _ ← delegate_DeleteContainer (lc_Guid l);
  skip.

Definition evacuation_processRunningContainer (l : lrpContainer) : prog () :=
  match ActualLRPNetInfoFromContainer (lc_Container l) with
  | Err _ => skip
  | Ok info =>
      let c := lc_Container l in
      loaded ← ask (LoadOrStore (lc_Guid l));
      _ ← (if (loaded : bool) then skip
           else ask (SendAppLog ("Cell " +:+ pc_cellID cfg +:+ " requesting replacement for instance " +:+
                                 ik_InstanceGuid (lc_ik l)) (ri_LogConfig (ctr_RunInfo c))));
      answer ← ask (EvacuateRunningActualLRP (lc_key l) (lc_ik l) info (internal_hostnames c)
                      (ri_MetricTags (ctr_RunInfo c)) (ctr_Routable c) (pc_availabilityZone cfg));
      if negb (fst answer) then _ ← delegate_DeleteContainer (lc_Guid l); skip else skip
  end.

Definition evacuation_processCompletedContainer (l : lrpContainer) : prog () :=
  let res := ctr_RunResult (lc_Container l) in
  _ ← (if rr_Stopped res then ask (EvacuateStoppedActualLRP (lc_key l) (lc_ik l))
       else ask (EvacuateCrashedActualLRP (lc_key l) (lc_ik l) (rr_FailureReason res)));
  _ ← delegate_DeleteContainer (lc_Guid l);
  skip.

Definition evacuation_Process (c : Container) : prog () :=
  match lrp_container c with
  | None => skip
  | Some l =>
      match ctr_State c with
      | StateReserved | StateInitializing | StateCreated => evacuateClaimedLRPContainer l
      | StateRunning => evacuation_processRunningContainer l
      | StateCompleted => evacuation_processCompletedContainer l
      | StateInvalid => skip
      end
  end.

Definition lrpProcessor_Process (t : nat) (c : Container) : prog () :=
  evacuating ← ask Evacuating;
  if (evacuating : bool) then evacuation_Process c else ordinary_Process t c.

(** *** Tasks *)

Definition TaskCompletionReasonMissingContainer : string := "task container does not exist".
Definition TaskCompletionReasonFailedToRunContainer : string := "failed to run container".
Definition TaskCompletionReasonInvalidTransition : string := "invalid state transition".
Definition TaskCompletionReasonFailedToFetchResult : string := "failed to fetch result".

Definition startTask (guid : string) : prog bool :=
  answer ← ask (StartTask guid (pc_cellID cfg));
  match answer with
  | Err e =>
      if (ConvertError e =? Error_InvalidStateTransition)%Z || (ConvertError e =? Error_ResourceNotFound)%Z
      then _ ← delegate_DeleteContainer guid; Ret false
      else Ret false
  | Ok changed => Ret changed
  end.

Definition processActiveContainer (t : nat) (c : Container) : prog () :=
  ok ← startTask (ctr_Guid c);
  if negb (ok : bool) then skip
  else
    task ← ask (TaskByGuid (ctr_Guid c));
    match task with
    | Err _ => skip
    | Ok task =>
        match NewRunRequestFromTask t task (pc_stackPathMap cfg) (pc_layeringMode cfg) with
        | None => Panic
        | Some (Err _) => skip
        | Some (Ok req) =>
            ok ← delegate_RunContainer req;
            if negb (ok : bool) then
              _ ← ask (CompleteTask (ctr_Guid c) (pc_cellID cfg) true TaskCompletionReasonFailedToRunContainer "");
              skip
            else skip
        end
    end.

(** The result file, [None] where there is no tag for it. *)
Definition task_result (c : Container) : prog (option (result FetchError string)) :=
  let resultFile := Tags_lookup (ctr_Tags c) ResultFileTag in
  if bool_decide (resultFile = "") then Ret None
  else r ← FetchContainerResultFile (ctr_Guid c) resultFile; Ret (Some r).

Definition completeTask (c : Container) : prog () :=
  let res := ctr_RunResult c in
  if rr_Failed res && rr_Retryable res then
    _ ← ask (RejectTask (ctr_Guid c) (rr_FailureReason res)); skip
  else
    file ← task_result c;
    if match file with Some (Err _) => negb (rr_Failed res) | _ => false end then
      _ ← ask (CompleteTask (ctr_Guid c) (pc_cellID cfg) true TaskCompletionReasonFailedToFetchResult ""); skip
    else
      let taskResult := match file with Some (Ok s) => s | _ => "" end in
      err ← ask (CompleteTask (ctr_Guid c) (pc_cellID cfg) (rr_Failed res) (rr_FailureReason res) taskResult);
      match err with
      | Some e =>
          if (ConvertError e =? Error_InvalidStateTransition)%Z then
            _ ← ask (CompleteTask (ctr_Guid c) (pc_cellID cfg) true TaskCompletionReasonInvalidTransition ""); skip
          else skip
      | None => skip
      end.

Definition taskProcessor_Process (t : nat) (c : Container) : prog () :=
  match ctr_State c with
  | StateReserved | StateInitializing | StateCreated | StateRunning => processActiveContainer t c
  | StateCompleted =>
      _ ← completeTask c;
      _ ← delegate_DeleteContainer (ctr_Guid c);
      skip
  | StateInvalid => skip
  end.

(** ** Operations *)

Inductive Operation :=
| ResidualInstanceLRPOperation (key : ActualLRPKey) (ik : ActualLRPInstanceKey)
| ResidualEvacuatingLRPOperation (key : ActualLRPKey) (ik : ActualLRPInstanceKey)
| ResidualJointLRPOperation (key : ActualLRPKey) (ik : ActualLRPInstanceKey)
| ResidualTaskOperation (taskGuid cellId : string)
| ContainerOperation (guid : string).

Definition Operation_Key (o : Operation) : string :=
  match o with
  | ResidualInstanceLRPOperation _ ik | ResidualEvacuatingLRPOperation _ ik | ResidualJointLRPOperation _ ik =>
      ik_InstanceGuid ik
  | ResidualTaskOperation guid _ => guid
  | ContainerOperation guid => guid
  end.

(** The residual operations do their work when there is no container. *)
Definition without_container (guid : string) (work : prog ()) : prog () :=
  found ← delegate_GetContainer guid;
  match found with
  | Some _ => skip
  | None => work
  end.

Definition Execute (t : nat) (o : Operation) : prog () :=
  match o with
  | ResidualInstanceLRPOperation key ik =>
      without_container (LRPContainerGuid (key_ProcessGuid key) (ik_InstanceGuid ik))
        (_ ← ask (RemoveActualLRP key ik); skip)
  | ResidualEvacuatingLRPOperation key ik =>
      without_container (LRPContainerGuid (key_ProcessGuid key) (ik_InstanceGuid ik))
        (_ ← ask (RemoveEvacuatingActualLRP key ik); skip)
  | ResidualJointLRPOperation key ik =>
      without_container (LRPContainerGuid (key_ProcessGuid key) (ik_InstanceGuid ik))
        (_ ← ask (RemoveActualLRP key ik);
         _ ← ask (RemoveEvacuatingActualLRP key ik);
         skip)
  | ResidualTaskOperation guid cellId =>
      without_container guid
        (_ ← ask (CompleteTask guid cellId true TaskCompletionReasonMissingContainer TaskCompletionReasonMissingContainer);
         skip)
  | ContainerOperation guid =>
      found ← delegate_GetContainer guid;
      match found with
      | None => skip
      | Some c =>
          let lifecycle := Tags_lookup (ctr_Tags c) LifecycleTag in
          if bool_decide (lifecycle = LRPLifecycle) then lrpProcessor_Process t c
          else if bool_decide (lifecycle = TaskLifecycle) then taskProcessor_Process t c
          else skip
      end
  end.
End processors.
