(* ===== verification/Generator.v ===== *)
(** * The generator and the harmonizer of the rep

    [rep/generator/generator.go], [rep/harmonizer] and [rep/evacuation]: the
    operations of a bulk sync, one for every guid that the executor or the BBS
    knows, the operations that events ask for, how both reach the operation
    queue, and the loops that wait for an evacuation to end. *)
From Stdlib Require Import ZArith Lia.
From S2P Require Import Prelude GoStd Models Actions Executor CellRep Routes RunRequest OperationQueue Processors.

(** ** Bulk operations *)

(** What the three goroutines of [BatchOperations] fetch. *)
Record Fetched := mkFetched {
  ft_containers : result ExecError (list Container);
  ft_lrps : result BBSErr (list ActualLRP);
  ft_tasks : result BBSErr (list Task) }.

Definition lrp_key (lrp : ActualLRP) : ActualLRPKey := mkActualLRPKey (al_ProcessGuid lrp) (al_Index lrp) (al_Domain lrp).
Definition lrp_instance_key (lrp : ActualLRP) : ActualLRPInstanceKey := mkInstanceKey (al_InstanceGuid lrp) (al_CellId lrp).

Definition evacuating_presence (lrp : ActualLRP) : bool := bool_decide (al_Presence lrp = ActualLRP_Evacuating).

(** A map by guid: later entries replace earlier ones. *)
Definition by_guid {A} (guid : A -> string) (l : list A) : gmap string A :=
  foldl (fun m a => <[guid a := a]> m) ∅ l.

Section generator.
Context `{!MapRange string}.

(** One loop: an operation for each guid of a map that has none yet. *)
Definition add_missing {A} (op : string -> A -> Operation) (batch : gmap string Operation) (l : list (string * A))
    : gmap string Operation :=
  foldl (fun b ga => match b !! ga.1 with Some _ => b | None => <[ga.1 := op ga.1 ga.2]> b end) batch l.

Definition batch_of (t : nat) (cellID : string) (containers : list Container) (lrps : list ActualLRP)
    (tasks : list Task) : gmap string Operation :=
  let containers := by_guid ctr_Guid containers in
  let instanceLRPs := by_guid al_InstanceGuid (filter (fun l => evacuating_presence l = false) lrps) in
  let evacuatingLRPs := by_guid al_InstanceGuid (filter (fun l => evacuating_presence l = true) lrps) in
  let tasks := by_guid tk_TaskGuid tasks in
  let batch := foldl (fun b gc => <[gc.1 := ContainerOperation gc.1]> b) ∅ (range_over t containers) in
  let batch := add_missing (fun guid lrp =>
                 match evacuatingLRPs !! guid with
                 | Some _ => ResidualJointLRPOperation (lrp_key lrp) (lrp_instance_key lrp)
                 | None => ResidualInstanceLRPOperation (lrp_key lrp) (lrp_instance_key lrp)
                 end) batch (range_over (S t) instanceLRPs) in
  let batch := add_missing (fun _ lrp => ResidualEvacuatingLRPOperation (lrp_key lrp) (lrp_instance_key lrp))
                 batch (range_over (S (S t)) evacuatingLRPs) in
  add_missing (fun guid _ => ResidualTaskOperation guid cellID) batch (range_over (S (S (S t))) tasks).

(** [Err] is the error of any of the three. *)
Definition BatchOperations (t : nat) (cellID : string) (f : Fetched) : result () (gmap string Operation) :=
  match ft_containers f, ft_lrps f, ft_tasks f with
  | Ok containers, Ok lrps, Ok tasks => Ok (batch_of t cellID containers lrps tasks)
  | _, _, _ => Err ()
  end.

(** ** The event stream *)

(** The operation for an event of the executor: only lifecycle events, which
    carry a container, have one. *)
Definition operation_for (container : option Container) : option Operation :=
  (fun c => ContainerOperation (ctr_Guid c)) <$> container.

(** ** The harmonizer

    The bulker and the event consumer push into one queue. *)

Abbreviation Queue := (multiQueue (Op := Operation)).

(** The operations a bulk sync pushes, in the order of the range. *)
Definition Bulker_sync (t : nat) (cellID : string) (f : Fetched) : list Operation :=
  match BatchOperations t cellID f with
  | Ok batch => snd <$> range_over (S (S (S (S t)))) batch
  | Err _ => []
  end.

(** The queue and what the bulker has still to push. *)
Record harmonizer := mkHarmonizer { hz_queue : Queue; hz_bulk : list Operation }.

(** What is under way goes on: the bulker's loop pushes its next operation, or
    the queue takes a step. *)
Inductive settle_step (capacity : Z) : harmonizer -> harmonizer -> Prop :=
| settle_push q op l : settle_step capacity (mkHarmonizer q (op :: l)) (mkHarmonizer (on_push Operation_Key capacity q op) l)
| settle_queue q q' l : internal_step Operation_Key q q' -> settle_step capacity (mkHarmonizer q l) (mkHarmonizer q' l).

(** All steps: a bulk sync starts, on the timer or when evacuation is announced,
    when the one before has pushed all its operations; the event consumer pushes
    the operation of an event; or something goes on. *)
Inductive harmonizer_step (capacity : Z) (cellID : string) : harmonizer -> harmonizer -> Prop :=
| step_bulk q t f : harmonizer_step capacity cellID (mkHarmonizer q []) (mkHarmonizer q (Bulker_sync t cellID f))
| step_event q l c op : operation_for c = Some op ->
    harmonizer_step capacity cellID (mkHarmonizer q l) (mkHarmonizer (on_push Operation_Key capacity q op) l)
| step_settle h h' : settle_step capacity h h' -> harmonizer_step capacity cellID h h'.
End generator.

(** ** Evacuation *)

Section evacuation.

(** The context: whether the channel is closed. *)
Definition Evacuate (evacuated : bool) : bool := if evacuated then evacuated else true.

Definition allContainersEvacuated (containers : result ExecError (list Container)) : bool :=
  match containers with
  | Ok [] => true
  | _ => false
  end.

(** The polling loop of [evacuate], on the answers of its polls: after how many
    of them it is done. *)
Fixpoint evacuate (polls : list (result ExecError (list Container))) : option nat :=
  match polls with
  | [] => None
  | p :: polls => if allContainersEvacuated p then Some 1 else S <$> evacuate polls
  end.

(** [hasRunningContainers] of the cleanup: a failed listing counts as none. *)
Definition hasRunningContainers (containers : result ExecError (list Container)) : bool :=
  match containers with
  | Ok (_ :: _) => true
  | _ => false
  end.

(** What the cleanup deletes. *)
Definition deleteRunningContainers (containers : result ExecError (list Container)) : list string :=
  match containers with
  | Ok l => ctr_Guid <$> l
  | Err _ => []
  end.

Definition strandedEvacuationCount (lrps : list ActualLRP) : nat :=
  length (filter (fun l => evacuating_presence l = true) lrps).
End evacuation.
