(* ===== verification/ProcessorProps.v ===== *)
(** * Properties of the rep's operations

    What an operation does in every run, whatever the executor and the BBS
    answer: which calls come before a container is run or deleted, what happens
    to completed containers and under evacuation, and what the operations of a
    bulk sync cover. *)
From Stdlib Require Import ZArith Lia.
From S2P Require Import Prelude GoStd Models Actions Executor CellRep Routes RunRequest OperationQueue Processors Generator.

(** ** Reasoning about runs *)

(** Every call of a run, with what came before it, satisfies [P]. *)
Definition every (P : list obs -> obs -> Prop) (tr : list obs) : Prop :=
  forall pre o post, tr = pre ++ o :: post -> P pre o.

(** The same for all runs of a program, after [pre]. *)
Fixpoint always {A} (P : list obs -> obs -> Prop) (pre : list obs) (p : prog A) : Prop :=
  match p with
  | Ret _ | Panic => True
  | Vis c k => forall x, P pre (Obs c x) /\ always P (pre ++ [Obs c x]) (k x)
  end.

(** All runs of a program after [pre] end with a trace that satisfies [Q]. *)
Fixpoint ends {A} (Q : list obs -> option A -> Prop) (pre : list obs) (p : prog A) : Prop :=
  match p with
  | Ret a => Q pre (Some a)
  | Panic => Q pre None
  | Vis c k => forall x, ends Q (pre ++ [Obs c x]) (k x)
  end.

Lemma always_runs {A} P pre (p : prog A) tr r :
  always P pre p -> runs p tr r -> forall pre' o post, tr = pre' ++ o :: post -> P (pre ++ pre') o.
Proof.
  revert pre tr. induction p as [a| |X c k IH]; intros pre tr.
  - intros _ [-> _] [|??] ?; naive_solver.
  - intros _ [-> _] [|??] ?; naive_solver.
  - intros Hal (x & tr' & -> & Hr) pre' o post Heq. destruct (Hal x) as [Hp Hal'].
    destruct pre' as [|o' pre']; injection Heq as <- ->.
    + by rewrite app_nil_r.
    + rewrite (cons_middle (Obs c x)), app_assoc. by eapply IH.
Qed.

Lemma always_every {A} P (p : prog A) tr r : always P [] p -> runs p tr r -> every P tr.
Proof. intros Ha Hr pre o post. by eapply (always_runs P []). Qed.

Lemma ends_runs {A} Q pre (p : prog A) tr r : ends Q pre p -> runs p tr r -> Q (pre ++ tr) r.
Proof.
  revert pre tr. induction p as [a| |X c k IH]; intros pre tr.
  - intros Hq [-> ->]. by rewrite app_nil_r.
  - intros Hq [-> ->]. by rewrite app_nil_r.
  - intros He (x & tr' & -> & Hr). rewrite (cons_middle (Obs c x)), app_assoc. by eapply IH.
Qed.

(** A world's run is one of the runs. *)
Lemma exec_runs {W A} (answer : forall X, call X -> W -> X * W) w (p : prog A) :
  runs p (exec answer w p).1.1 (exec answer w p).1.2.
Proof.
  revert w. induction p as [a| |X c k IH]; intros w; simpl; [done..|].
  destruct (answer X c w) as [x w'] eqn:E. specialize (IH x w'). destruct (exec answer w' (k x)) as [[tr r] w''].
  simpl in *. by exists x, tr.
Qed.

(** ** What the calls are *)

Definition run_of (o : obs) : option RunRequest :=
  match o with Obs c _ => match c with RunContainer req => Some req | _ => None end end.

Definition delete_of (o : obs) : option string :=
  match o with Obs c _ => match c with DeleteContainer guid => Some guid | _ => None end end.

(** The BBS is told how the container ended. *)
Definition is_report (o : obs) : bool :=
  match o with
  | Obs c _ =>
      match c with
      | RemoveActualLRP _ _ | CrashActualLRP _ _ _ | EvacuateStoppedActualLRP _ _ | EvacuateCrashedActualLRP _ _ _
      | CompleteTask _ _ _ _ _ | RejectTask _ _ => true
      | _ => false
      end
  end.

(** The BBS or the executor gave the container up: the claim or the start was
    refused for good, the container could not be run, or the cell is evacuating
    and the BBS does not keep it here. *)
Definition given_up (o : obs) : bool :=
  match o with
  | Obs c x =>
      match c in call X return X -> bool with
      | ClaimActualLRP _ _ => fun x =>
          match x with Some e => (ConvertError e =? Error_ActualLRPCannotBeClaimed)%Z | None => false end
      | StartTask _ _ => fun x =>
          match x with
          | Err e => (ConvertError e =? Error_InvalidStateTransition)%Z || (ConvertError e =? Error_ResourceNotFound)%Z
          | Ok _ => false
          end
      | RunContainer _ => fun x => match x with Some _ => true | None => false end
      | EvacuateClaimedActualLRP _ _ => fun _ => true
      | EvacuateRunningActualLRP _ _ _ _ _ _ _ => fun x => negb (fst x)
      | _ => fun _ => false
      end x
  end.

Section properties.
Context `{RouteJson} `{UrlParser} `{!MapRange string} `{MountJson} `{ECRHelper}.
Context (cfg : ProcessorConfig).

#[local] Arguments NewRunRequestFromDesiredLRP : simpl never.
#[local] Arguments NewRunRequestFromTask : simpl never.
#[local] Arguments lrp_container : simpl never.
#[local] Arguments ActualLRPNetInfoFromContainer : simpl never.
#[local] Arguments internal_hostnames : simpl never.
#[local] Arguments read_result : simpl never.
#[local] Arguments Tags_lookup : simpl never.
#[local] Arguments ConvertError : simpl never.
#[local] Arguments String.append : simpl never.

(** The BBS granted what the request [req] for the container [c] runs. *)
Definition granted_lrp (t : nat) (c : Container) (pre : list obs) (req : RunRequest) : Prop :=
  exists l w, lrp_container cfg c = Some l /\ ctr_State c = StateReserved /\
    Obs Evacuating false ∈ pre /\ Obs (ClaimActualLRP (lc_key l) (lc_ik l)) None ∈ pre /\
    Obs (DesiredLRPByProcessGuid (key_ProcessGuid (lc_key l))) (Ok w) ∈ pre /\
    NewRunRequestFromDesiredLRP t (lc_Guid l) w (lc_key l) (lc_ik l) (pc_stackPathMap cfg) (pc_layeringMode cfg) = Some (Ok req).

Definition granted_task (t : nat) (c : Container) (pre : list obs) (req : RunRequest) : Prop :=
  exists task, ctr_State c <> StateCompleted /\ Obs (StartTask (ctr_Guid c) (pc_cellID cfg)) (Ok true) ∈ pre /\
    Obs (TaskByGuid (ctr_Guid c)) (Ok task) ∈ pre /\
    NewRunRequestFromTask t task (pc_stackPathMap cfg) (pc_layeringMode cfg) = Some (Ok req).

Definition run_granted (t : nat) (op : Operation) (pre : list obs) (o : obs) : Prop :=
  forall req, run_of o = Some req ->
  Forall (fun o => run_of o = None) pre /\
  exists c, op = ContainerOperation (Operation_Key op) /\ Obs (GetContainer (Operation_Key op)) (Ok c) ∈ pre /\
    (Tags_lookup (ctr_Tags c) LifecycleTag = LRPLifecycle /\ granted_lrp t c pre req \/
     Tags_lookup (ctr_Tags c) LifecycleTag = TaskLifecycle /\ granted_task t c pre req).

(** What a program branches on next. *)
Ltac scrutinee p :=
  lazymatch p with
  | mbind _ ?q => scrutinee q
  | prog_bind _ ?q => scrutinee q
  | match ?x with _ => _ end => x
  end.

(** The branches of a program, one by one. *)
Ltac branches :=
  repeat match goal with
  | |- True => exact I
  | |- _ /\ _ => split
  | |- forall _, _ => intros ?
  | H : bool_decide _ = true |- _ => apply bool_decide_eq_true in H
  | H : bool_decide _ = false |- _ => apply bool_decide_eq_false in H
  | H : negb _ = true |- _ => apply negb_true_iff in H
  | H : negb _ = false |- _ => apply negb_false_iff in H
  | H : ?b = true |- _ => is_var b; subst b
  | H : ?b = false |- _ => is_var b; subst b
  | |- context [match ?x with Ok c => Some c | Err _ => None end] => destruct x
  | |- always _ _ ?p => let x := scrutinee p in destruct x eqn:?
  | |- ends _ _ ?p => let x := scrutinee p in destruct x eqn:?
  | _ => progress cbn
  end.

Ltac processors :=
  unfold Execute, without_container, lrpProcessor_Process, evacuation_Process, ordinary_Process, taskProcessor_Process,
    evacuation_processRunningContainer, evacuation_processCompletedContainer, evacuateClaimedLRPContainer,
    ordinary_processReservedContainer, ordinary_processRunningContainer, ordinary_processCompletedContainer,
    claimLRPContainer, startTask, processActiveContainer, completeTask, task_result, FetchContainerResultFile,
    delegate_GetContainer, delegate_DeleteContainer, delegate_StopContainer, delegate_RunContainer in *.

(** An observation of a list that is written out. *)
Ltac observed := repeat first [apply list_elem_of_here|apply list_elem_of_further].

Lemma execute_run_granted t op : always (run_granted t op) [] (Execute cfg t op).
Proof.
  destruct op as [key ik|key ik|key ik|tg cell|guid]; processors; branches.
  all: try (intros ? Hreq; discriminate Hreq).
  all: intros req [= <-]; (split; [repeat (apply Forall_cons; split; [reflexivity|]); apply Forall_nil_2|]); eexists; split_and!; [reflexivity|observed|].
  1: left; split; [done|]; eexists _, _; split_and!; try done; observed.
  all: right; split; [done|]; eexists; split_and!; try done; [congruence|observed..].
Qed.

(** A container is deleted for a reason. *)
Definition delete_settled (op : Operation) (pre : list obs) (o : obs) : Prop :=
  forall g, delete_of o = Some g ->
  exists c, op = ContainerOperation (Operation_Key op) /\ Obs (GetContainer (Operation_Key op)) (Ok c) ∈ pre /\
    (g = ctr_Guid c \/ exists task, Obs (TaskByGuid (ctr_Guid c)) (Ok task) ∈ pre /\ g = tk_TaskGuid task) /\
    (existsb given_up pre = true \/ ctr_State c = StateCompleted /\ existsb is_report pre = true).

Lemma lrp_container_Container c l : lrp_container cfg c = Some l -> lc_Container l = c.
Proof. unfold lrp_container. by repeat case_match; intros; simplify_eq. Qed.

Lemma execute_delete_settled t op : always (delete_settled op) [] (Execute cfg t op).
Proof.
  destruct op as [key ik|key ik|key ik|tg cell|guid]; processors; branches.
  all: try (intros ? Hreq; discriminate Hreq).
  all: intros g [= <-]; eexists; split_and!; [done|observed| |].
  all: try (cbn; right; split; [done|]; rewrite ?orb_true_r; done).
  all: try (cbn; left; repeat match goal with Hc : _ = true |- _ => rewrite Hc; clear Hc | Hc : _ = false |- _ => rewrite Hc; clear Hc end; rewrite ?orb_true_r; done).
  all: try (left; by erewrite lrp_container_Container).
  all: try (by left).
  1: left; match goal with Hl : lrp_container _ _ = Some _ |- _ => rewrite <- (lrp_container_Container _ _ Hl) end; by eapply desired_request.
  all: right; eexists; (split; [observed|]); by edestruct task_request as (? & ? & ? & _).
Qed.
(** *** Completed containers *)

(** The container an operation found. *)
Definition seen (tr : list obs) : option Container :=
  match tr with
  | Obs c x :: _ =>
      match c in call X return X -> option Container with
      | GetContainer _ => fun x => match x with Ok c => Some c | Err _ => None end
      | _ => fun _ => None
      end x
  | [] => None
  end.

(** The cell was found evacuating. *)
Definition evacuating_in (tr : list obs) : bool :=
  existsb (fun o => match o with
                    | Obs c x => match c in call X return X -> bool with Evacuating => fun x => x | _ => fun _ => false end x
                    end) tr.

(** How the end of an LRP's container is reported. *)
Definition lrp_report (evacuating : bool) (l : lrpContainer) (o : obs) : Prop :=
  let res := ctr_RunResult (lc_Container l) in
  match evacuating, rr_Stopped res with
  | false, true => exists x, o = Obs (RemoveActualLRP (lc_key l) (lc_ik l)) x
  | false, false => exists x, o = Obs (CrashActualLRP (lc_key l) (lc_ik l) (rr_FailureReason res)) x
  | true, true => exists x, o = Obs (EvacuateStoppedActualLRP (lc_key l) (lc_ik l)) x
  | true, false => exists x, o = Obs (EvacuateCrashedActualLRP (lc_key l) (lc_ik l) (rr_FailureReason res)) x
  end.

(** How the end of a task's container is reported first. *)
Definition task_report (c : Container) (o : obs) : Prop :=
  let res := ctr_RunResult c in
  if rr_Failed res && rr_Retryable res then exists x, o = Obs (RejectTask (ctr_Guid c) (rr_FailureReason res)) x
  else
    (exists r x, o = Obs (CompleteTask (ctr_Guid c) (pc_cellID cfg) (rr_Failed res) (rr_FailureReason res) r) x) \/
    (rr_Failed res = false /\ Tags_lookup (ctr_Tags c) ResultFileTag <> "" /\
     exists x, o = Obs (CompleteTask (ctr_Guid c) (pc_cellID cfg) true TaskCompletionReasonFailedToFetchResult "") x).

Definition reported (c : Container) (pre : list obs) : Prop :=
  if bool_decide (Tags_lookup (ctr_Tags c) LifecycleTag = LRPLifecycle)
  then exists l o, lrp_container cfg c = Some l /\ filter is_report pre = [o] /\ lrp_report (evacuating_in pre) l o
  else exists o rest, filter is_report pre = o :: rest /\ task_report c o.

(** A container of an LRP whose tags make keys, or of a task. *)
Definition managed (c : Container) : Prop :=
  Tags_lookup (ctr_Tags c) LifecycleTag = LRPLifecycle /\ is_Some (lrp_container cfg c) \/
  Tags_lookup (ctr_Tags c) LifecycleTag = TaskLifecycle.

Definition completed_settled (tr : list obs) (r : option ()) : Prop :=
  forall c, seen tr = Some c -> ctr_State c = StateCompleted -> managed c ->
  r = Some () /\ exists pre x, tr = pre ++ [Obs (DeleteContainer (ctr_Guid c)) x] /\
    Forall (fun o => delete_of o = None) pre /\ reported c pre.

Lemma execute_completed t guid : ends completed_settled [] (Execute cfg t (ContainerOperation guid)).
Proof.
  processors; branches.
  all: intros c Hs Hst Hm; cbn in Hs; try discriminate Hs; injection Hs as <-.
  all: try congruence.
  all: try (exfalso; destruct Hm as [[? [??]]|?]; congruence || (rewrite Heqb in *; discriminate)).
  all: (split; [done|]); match goal with |- exists pre x, ?tr = _ /\ _ => exists (removelast tr) end; eexists;
    (split; [cbn; try (erewrite lrp_container_Container by done); reflexivity|]);
    (split; [cbn; repeat constructor|]); unfold reported.
  all: try (rewrite bool_decide_true by done; eexists _, _; (split; [done|]); (split; [reflexivity|]);
    unfold lrp_report; cbn; repeat match goal with Hb : rr_Stopped _ = _ |- _ => rewrite Hb end; by eexists).
  all: rewrite bool_decide_false by done; eexists _, _; (split; [reflexivity|]); unfold task_report.
  all: match goal with Hb : rr_Failed _ && _ = _ |- _ => rewrite Hb end.
  all: first [by eexists | left; by eexists _, _ | right; split_and!; [|done|by eexists]].
  destruct (rr_Failed (ctr_RunResult a)); [|done]. by repeat case_match.
Qed.

(** *** Evacuation *)

(** The BBS keeps the container of a running LRP. *)
Definition kept_in (tr : list obs) : bool :=
  existsb (fun o => match o with
                    | Obs c x => match c in call X return X -> bool with
                                 | EvacuateRunningActualLRP _ _ _ _ _ _ _ => fun x => fst x
                                 | _ => fun _ => false
                                 end x
                    end) tr.

Definition evacuated (tr : list obs) (r : option ()) : Prop :=
  forall c l, seen tr = Some c -> Tags_lookup (ctr_Tags c) LifecycleTag = LRPLifecycle -> evacuating_in tr = true ->
  lrp_container cfg c = Some l ->
  r = Some () /\ Forall (fun o => run_of o = None) tr /\
  ((exists x, last tr = Some (Obs (DeleteContainer (ctr_Guid c)) x)) \/
   ctr_State c = StateRunning /\ (kept_in tr = true \/ is_ok (ActualLRPNetInfoFromContainer c) = false) \/
   ctr_State c = StateInvalid).

Lemma execute_evacuated t guid : ends evacuated [] (Execute cfg t (ContainerOperation guid)).
Proof.
  processors; branches.
  all: intros c l' Hs Hlrp Hev Hl; cbn in Hs; try discriminate Hs; injection Hs as <-; try discriminate Hev; try congruence.
  all: simplify_eq; match goal with Hl1 : lrp_container _ _ = Some ?l |- _ => pose proof (lrp_container_Container _ _ Hl1) as Hc end.
  all: (split; [done|]); (split; [repeat constructor|]).
  all: try (left; rewrite <- Hc; eexists; reflexivity).
  all: right; try (by right); left; (split; [done|]).
  all: try (right; rewrite <- Hc; match goal with He : ActualLRPNetInfoFromContainer _ = _ |- _ => by rewrite He end).
  all: left; cbn; match goal with Hk : fst _ = true |- _ => by rewrite Hk end.
Qed.
(** *** Whom the calls are about *)

(** The LRP a call to the BBS names. *)
Definition names (o : obs) : option (ActualLRPKey * ActualLRPInstanceKey) :=
  match o with
  | Obs c _ =>
      match c with
      | ClaimActualLRP k i | StartActualLRP k i _ _ _ _ _ | CrashActualLRP k i _ | RemoveActualLRP k i
      | EvacuateClaimedActualLRP k i | EvacuateRunningActualLRP k i _ _ _ _ _ | EvacuateStoppedActualLRP k i
      | EvacuateCrashedActualLRP k i _ | RemoveEvacuatingActualLRP k i => Some (k, i)
      | _ => None
      end
  end.

Definition names_own (pre : list obs) (o : obs) : Prop :=
  forall k i c, names o = Some (k, i) -> seen pre = Some c ->
  exists l, lrp_container cfg c = Some l /\ k = lc_key l /\ i = lc_ik l.

Lemma execute_names t guid : always names_own [] (Execute cfg t (ContainerOperation guid)).
Proof.
  processors; branches.
  all: try (intros ??? Hn; discriminate Hn).
  all: intros k i c [= <- <-] [= <-]; eauto.
Qed.

(** *** Claims *)

(** C7: A container is run only with leave of the BBS.  In every run of an
    operation, whatever is answered, at most one container is run, by an
    operation for a container.  For an LRP the container was found reserved, the
    cell was not evacuating, the BBS granted the claim under the key and the
    instance guid of the container's tags, and the request is made of the
    desired LRP the BBS then sent; for a task the BBS recorded its start as a
    change, and the request is made of the task it then sent. *)
Theorem run_only_granted t op tr r : runs (Execute cfg t op) tr r -> every (run_granted t op) tr.
Proof. apply always_every, execute_run_granted. Qed.

(** C24: A container is deleted only for a reason.  In every run of an operation,
    before each deletion the container was found under the operation's guid, it
    is the container deleted (or the one named by the task the BBS sent), and
    either the BBS refused its claim or its start for good, or running it
    failed, or the cell is evacuating and the BBS does not keep it here, or it is
    completed and the BBS has been told how it ended. *)
Theorem delete_only_settled t op tr r : runs (Execute cfg t op) tr r -> every (delete_settled op) tr.
Proof. apply always_every, execute_delete_settled. Qed.

(** Completed containers are reported and removed.  Every run of the
    operation of a completed container, whatever is answered, returns, and its
    last call is the only deletion.  Before it, the end of an LRP is reported
    exactly once, as stopped or as crashed with the reason, to the call for
    evacuating cells or to the ordinary one; the end of a task is reported, as
    rejected when the failure can be retried, otherwise as completed with its
    outcome, or as failed when the result cannot be fetched. *)
Theorem completed_container_settled t guid tr r c :
  runs (Execute cfg t (ContainerOperation guid)) tr r ->
  seen tr = Some c -> ctr_State c = StateCompleted -> managed c ->
  r = Some () /\ exists pre x, tr = pre ++ [Obs (DeleteContainer (ctr_Guid c)) x] /\
    Forall (fun o => delete_of o = None) pre /\ reported c pre.
Proof. intros Hr. exact (ends_runs _ [] _ _ _ (execute_completed t guid) Hr c). Qed.

(** Evacuation moves on.  On a cell that is evacuating, every run of the
    operation of an LRP's container returns, runs nothing, and ends with the
    deletion of the container, unless the container is running and either the
    BBS says to keep it or it has no address yet, or its state is invalid. *)
Theorem evacuation_moves_on t guid tr r c l :
  runs (Execute cfg t (ContainerOperation guid)) tr r ->
  seen tr = Some c -> Tags_lookup (ctr_Tags c) LifecycleTag = LRPLifecycle -> evacuating_in tr = true ->
  lrp_container cfg c = Some l ->
  r = Some () /\ Forall (fun o => run_of o = None) tr /\
  ((exists x, last tr = Some (Obs (DeleteContainer (ctr_Guid c)) x)) \/
   ctr_State c = StateRunning /\ (kept_in tr = true \/ is_ok (ActualLRPNetInfoFromContainer c) = false) \/
   ctr_State c = StateInvalid).
Proof. intros Hr. exact (ends_runs _ [] _ _ _ (execute_evacuated t guid) Hr c l). Qed.
End properties.
