(* ===== verification/HarmonizerProps.v ===== *)
(** * Properties of the generator and the harmonizer

    Which operation a bulk sync has for which guid, and that the operation of
    every known guid gets its turn; a task that is never run; a container that
    was allocated for an LRP is claimed as that LRP. *)
From Stdlib Require Import ZArith Lia.
From S2P Require Import Prelude GoStd Models Actions Executor CellRep Routes RunRequest OperationQueue Processors Generator ProcessorProps.

#[local] Abbreviation Key := Operation_Key.

(** ** The operations of a bulk sync *)

(** The last element with a guid. *)
Definition last_with {A} (guid : A -> string) (l : list A) (g : string) : option A :=
  last (filter (fun a => guid a = g) l).

Lemma by_guid_lookup {A} (guid : A -> string) l g : by_guid guid l !! g = last_with guid l g.
Proof.
  unfold by_guid, last_with. induction l as [|a l IH] using rev_ind; [done|].
  rewrite foldl_app, filter_app, filter_cons. simpl. rewrite lookup_insert. destruct (decide (guid a = g)).
  - by rewrite last_app.
  - by rewrite filter_nil, app_nil_r.
Qed.

Lemma last_with_guid {A} (guid : A -> string) l g a : last_with guid l g = Some a -> guid a = g /\ a ∈ l.
Proof. unfold last_with. intros Ha%last_Some_elem_of. by apply list_elem_of_filter in Ha. Qed.

Lemma add_missing_nin {A} (op : string -> A -> Operation) l b g :
  g ∉ l.*1 -> add_missing op b l !! g = b !! g.
Proof.
  revert b. induction l as [|[k a] l IH]; intros b Hg; [done|]. simpl. rewrite fmap_cons, not_elem_of_cons in Hg.
  unfold add_missing in *. simpl. rewrite IH by tauto. case_match; [done|]. rewrite lookup_insert_ne by naive_solver. done.
Qed.

Lemma add_missing_in {A} (op : string -> A -> Operation) l b g a :
  NoDup l.*1 -> (g, a) ∈ l -> add_missing op b l !! g = Some (default (op g a) (b !! g)).
Proof.
  revert b. induction l as [|[k a'] l IH]; intros b; [by intros _ ?%not_elem_of_nil|].
  rewrite fmap_cons. simpl. intros [Hk Hnd]%NoDup_cons [[= <- <-]|Hin]%elem_of_cons; unfold add_missing in *; simpl.
  - pose proof (add_missing_nin op l) as Hn. unfold add_missing in Hn. rewrite Hn by done.
    destruct (b !! g) eqn:E; [by rewrite E|]. by rewrite lookup_insert_eq.
  - rewrite IH by done. case_match; [done|]. rewrite lookup_insert_ne; [done|]. intros ->.
    apply Hk. by apply (list_elem_of_fmap_2 fst) in Hin.
Qed.

Section batch.
Context `{!MapRange string}.

Lemma range_keys {A} t (m : gmap string A) : NoDup (range_over t m).*1.
Proof. rewrite range_over_perm. apply NoDup_fst_map_to_list. Qed.

Lemma add_missing_range {A} (op : string -> A -> Operation) t (m : gmap string A) b g :
  add_missing op b (range_over t m) !! g =
  match b !! g with Some o => Some o | None => op g <$> m !! g end.
Proof.
  destruct (m !! g) as [a|] eqn:E.
  - rewrite (add_missing_in _ _ _ g a); [|apply range_keys|].
    + by destruct (b !! g).
    + rewrite range_over_perm. by apply elem_of_map_to_list.
  - rewrite add_missing_nin; [by destruct (b !! g)|]. rewrite range_over_perm.
    intros ([k a] & -> & Hin)%list_elem_of_fmap. apply elem_of_map_to_list in Hin. simpl in E. congruence.
Qed.

Lemma containers_batch t (m : gmap string Container) g :
  foldl (fun b gc => <[gc.1 := ContainerOperation gc.1]> b) (∅ : gmap string Operation) (range_over t m) !! g =
  (fun _ => ContainerOperation g) <$> m !! g.
Proof.
  assert (forall l (b : gmap string Operation),
    foldl (fun b gc => <[gc.1 := ContainerOperation gc.1]> b) b l !! g =
    if decide (g ∈ (l : list (string * Container)).*1) then Some (ContainerOperation g) else b !! g) as Hf.
  { induction l as [|[k c] l IH]; intros b; [done|]. simpl. rewrite IH, lookup_insert.
    repeat case_decide; set_solver. }
  rewrite Hf, lookup_empty.
  assert (g ∈ (range_over t m).*1 <-> is_Some (m !! g)) as Hk.
  { rewrite range_over_perm. split.
    - intros ([k c] & -> & Hin%elem_of_map_to_list)%list_elem_of_fmap. by exists c.
    - intros [c Hc]. apply (list_elem_of_fmap_2' fst _ (g, c)); [|done]. by apply elem_of_map_to_list. }
  case_decide as Hd.
  - apply Hk in Hd as [c ->]. done.
  - destruct (m !! g) as [c|] eqn:E; [|done]. exfalso. apply Hd, Hk. eauto.
Qed.

(** The operation of a guid, by what the executor and the BBS know of it. *)
Definition operation_of (cellID : string) (containers : list Container) (lrps : list ActualLRP) (tasks : list Task)
    (g : string) : option Operation :=
  let instance := last_with al_InstanceGuid (filter (fun l => evacuating_presence l = false) lrps) g in
  let evacuating := last_with al_InstanceGuid (filter (fun l => evacuating_presence l = true) lrps) g in
  if decide (g ∈ ctr_Guid <$> containers) then Some (ContainerOperation g)
  else match instance, evacuating with
       | Some l, Some _ => Some (ResidualJointLRPOperation (lrp_key l) (lrp_instance_key l))
       | Some l, None => Some (ResidualInstanceLRPOperation (lrp_key l) (lrp_instance_key l))
       | None, Some l => Some (ResidualEvacuatingLRPOperation (lrp_key l) (lrp_instance_key l))
       | None, None => if decide (g ∈ tk_TaskGuid <$> tasks) then Some (ResidualTaskOperation g cellID) else None
       end.

Lemma last_with_elem {A} (guid : A -> string) l g : is_Some (last_with guid l g) <-> g ∈ guid <$> l.
Proof.
  rewrite list_elem_of_fmap. split.
  - intros [a [<- Ha]%last_with_guid]. eauto.
  - intros (a & -> & Ha). unfold last_with. rewrite last_is_Some. intros Hn.
    apply (not_elem_of_nil a). rewrite <- Hn. by apply list_elem_of_filter.
Qed.

Lemma batch_of_lookup t cellID containers lrps tasks g :
  batch_of t cellID containers lrps tasks !! g = operation_of cellID containers lrps tasks g.
Proof.
  unfold batch_of, operation_of. rewrite !add_missing_range, containers_batch, !by_guid_lookup.
  pose proof (last_with_elem ctr_Guid containers g) as Hc. pose proof (last_with_elem tk_TaskGuid tasks g) as Ht.
  destruct (last_with ctr_Guid containers g) as [c|]; simpl.
  - rewrite decide_True; [done|]. apply Hc. eauto.
  - rewrite decide_False by (intros [? ?]%Hc; done).
    repeat (destruct (last_with al_InstanceGuid _ g); simpl; try done).
    destruct (last_with tk_TaskGuid tasks g); simpl; case_decide as Hd; try done; [|by apply Ht in Hd as [? ?]].
    exfalso. apply Hd, Ht. eauto.
Qed.

Lemma operation_of_key cellID containers lrps tasks g op :
  operation_of cellID containers lrps tasks g = Some op -> Operation_Key op = g.
Proof.
  unfold operation_of. case_decide; [by intros [= <-]|].
  destruct (last_with al_InstanceGuid (filter (fun l => evacuating_presence l = false) lrps) g) as [l|] eqn:E1;
    destruct (last_with al_InstanceGuid (filter (fun l => evacuating_presence l = true) lrps) g) as [l'|] eqn:E2.
  all: try (apply last_with_guid in E1 as [? _]); try (apply last_with_guid in E2 as [? _]); try case_decide;
    by intros [= <-].
Qed.

(** ** Their turn in the queue *)

Lemma settle_queue_steps capacity h h' :
  settle_step capacity h h' -> queue_step Key capacity (hz_queue h) (hz_queue h').
Proof. destruct 1; simpl; by constructor. Qed.

Lemma harmonizer_steps capacity cellID h h' :
  rtc (harmonizer_step capacity cellID) h h' -> rtc (queue_step Key capacity) (hz_queue h) (hz_queue h').
Proof.
  induction 1 as [|h h1 h' Hst _ IH]; [apply rtc_refl|]. etrans; [|exact IH].
  destruct Hst as [q t f|q l c op _|h h1 Hs]; [apply rtc_refl|apply rtc_once; by constructor|].
  by apply rtc_once, settle_queue_steps.
Qed.

Lemma on_push_pushed capacity q op : mq_pushed (on_push Key capacity q op) = mq_pushed q ++ [op].
Proof. unfold on_push. by case_match. Qed.

Lemma internal_step_pushed q q' : internal_step Key q q' -> mq_pushed q' = mq_pushed q.
Proof.
  intros [? op l1 l2 _|? op l1 l2 q1 _ Hc]; [done|].
  unfold on_complete in Hc. apply bind_Some in Hc as (b & _ & Hc). unfold buffer_Pop in Hc. by repeat case_match; simplify_eq.
Qed.

(** An operation of a bulk sync is pushed after what was pushed before, or the
    bulker still has it. *)
Definition due (before : list Operation) (op : Operation) (h : harmonizer) : Prop :=
  exists since, mq_pushed (hz_queue h) = before ++ since /\ (op ∈ since \/ op ∈ hz_bulk h).

Lemma due_settle capacity before op h h' : settle_step capacity h h' -> due before op h -> due before op h'.
Proof.
  intros [q op' l|q q' l Hi] (since & Hs & Hop); simpl in *.
  - exists (since ++ [op']). simpl. rewrite on_push_pushed, Hs, app_assoc. split; [done|].
    rewrite elem_of_app, list_elem_of_singleton. rewrite elem_of_cons in Hop. naive_solver.
  - exists since. simpl. by rewrite (internal_step_pushed _ _ Hi).
Qed.

Lemma due_steps capacity cellID before op h h' :
  rtc (harmonizer_step capacity cellID) h h' -> due before op h -> due before op h'.
Proof.
  induction 1 as [|h h1 h' Hst _ IH]; [done|]. intros Hd. apply IH.
  destruct Hst as [q t f|q l c op' _|h h1 Hs]; [| |by eapply due_settle]; destruct Hd as (since & Hs & Hop); simpl in *.
  - exists since. split; [done|]. destruct Hop as [?|?%not_elem_of_nil]; [by left|done].
  - exists (since ++ [op']). simpl. rewrite on_push_pushed, Hs, app_assoc. split; [done|].
    rewrite elem_of_app. naive_solver.
Qed.

(** Left alone, the harmonizer comes to rest. *)
Definition at_rest (h : harmonizer) : Prop :=
  hz_bulk h = [] /\ mq_queues (hz_queue h) = ∅ /\ mq_executing (hz_queue h) = [] /\ mq_completing (hz_queue h) = [].

Lemma settles capacity h :
  queue_ok Key capacity (hz_queue h) -> exists h', rtc (settle_step capacity) h h' /\ at_rest h'.
Proof.
  destruct h as [q l]. revert q. induction l as [|op l IH]; intros q Hok; simpl in *.
  - destruct (drain Key capacity _ q Hok (le_n _)) as (q' & Hd & Hidle). exists (mkHarmonizer q' []). split; [|done].
    eapply (rtc_congruence (fun q => mkHarmonizer q [])); [|exact Hd]. by constructor.
  - destruct (IH (on_push Key capacity q op)) as (h' & Hr & Hi); [by apply push_ok|].
    exists h'. split; [|done]. eapply rtc_l; [|exact Hr]. constructor.
Qed.

Lemma settled_last capacity h g :
  queue_ok Key capacity (hz_queue h) -> at_rest h -> (0 < capacity)%Z ->
  last (of_key Key g (mq_started (hz_queue h))) = last (of_key Key g (mq_pushed (hz_queue h))).
Proof.
  intros Hok (_ & Hq & _) Hcap. rewrite <- (ok_last _ _ _ Hok g Hcap). unfold waiting.
  by rewrite Hq, lookup_empty, app_nil_r.
Qed.

Lemma sync_operation t cellID f batch g op :
  BatchOperations t cellID f = Ok batch -> batch !! g = Some op -> op ∈ Bulker_sync t cellID f /\ Key op = g.
Proof.
  intros Hb Hg. unfold Bulker_sync. rewrite Hb. split.
  - apply (list_elem_of_fmap_2 snd _ (g, op)). rewrite range_over_perm. by apply elem_of_map_to_list.
  - unfold BatchOperations in Hb. repeat case_match; simplify_eq. rewrite batch_of_lookup in Hg. by eapply operation_of_key.
Qed.
End batch.

(** ** Claims *)

Section claims.
Context `{RouteJson} `{UrlParser} `{!MapRange string} `{MountJson} `{ECRHelper} `{!JsonStrings}.

(** C25: The operations of a bulk sync are those a direct definition gives: for
    every guid, the operation of its container where there is one, and otherwise
    the residual operation for what the BBS has under the guid, an instance, an
    evacuating instance, both, or a task; each under its own guid, and none for
    a guid nobody knows.  Whenever one of the three listings fails there are
    none at all. *)
Theorem bulk_operations t cellID f :
  (forall containers lrps tasks, ft_containers f = Ok containers -> ft_lrps f = Ok lrps -> ft_tasks f = Ok tasks ->
   exists batch, BatchOperations t cellID f = Ok batch /\
     forall g, batch !! g = operation_of cellID containers lrps tasks g /\
       (forall op, batch !! g = Some op -> Operation_Key op = g)) /\
  (is_ok (ft_containers f) && is_ok (ft_lrps f) && is_ok (ft_tasks f) = false -> BatchOperations t cellID f = Err ()).
Proof.
  split.
  - intros containers lrps tasks Hc Hl Ht. unfold BatchOperations. rewrite Hc, Hl, Ht. eexists. split; [done|].
    intros g. rewrite batch_of_lookup. split; [done|]. intros op. apply operation_of_key.
  - unfold BatchOperations. by repeat case_match.
Qed.

(** C8: Bulk syncs are not lost.  When a bulk sync starts in a state the
    harmonizer can reach, then whatever happens next, events and further syncs
    included, what is under way can always be carried to an end at which the
    queue is at rest and the operation of each guid of the batch has been
    pushed; and the operation started last for the guid is that one or a newer
    one.  The capacity of the queue is positive. *)
Theorem bulk_sync_covers capacity cellID q t f batch g op h :
  rtc (harmonizer_step capacity cellID) (mkHarmonizer NewSlidingQueue []) (mkHarmonizer q []) -> (0 < capacity)%Z ->
  BatchOperations t cellID f = Ok batch -> batch !! g = Some op ->
  rtc (harmonizer_step capacity cellID) (mkHarmonizer q (Bulker_sync t cellID f)) h ->
  exists h' older newer,
    rtc (settle_step capacity) h h' /\ at_rest h' /\
    of_key Key g (mq_pushed (hz_queue h')) = of_key Key g (mq_pushed q) ++ older ++ op :: newer /\
    last (of_key Key g (mq_started (hz_queue h'))) = last (op :: newer).
Proof.
  intros Hq Hcap Hb Hg Hh. destruct (sync_operation t cellID f batch g op Hb Hg) as [Hin Hkey].
  assert (queue_ok Key capacity (hz_queue h)) as Hok.
  { apply queue_ok_reach. etrans; [exact (harmonizer_steps _ _ _ _ Hq)|exact (harmonizer_steps _ _ _ _ Hh)]. }
  destruct (settles capacity h Hok) as (h' & Hset & Hrest).
  assert (rtc (harmonizer_step capacity cellID) h h') as Hset'.
  { eapply (rtc_congruence id); [|exact Hset]. intros ?? Hs. by apply step_settle. }
  assert (due (mq_pushed q) op h') as (since & Hs & [Hop|Hop]).
  { eapply due_steps; [etrans; [exact Hh|exact Hset']|]. exists []. rewrite app_nil_r. auto. }
  2: { rewrite (proj1 Hrest) in Hop. by apply not_elem_of_nil in Hop. }
  apply list_elem_of_split in Hop as (l1 & l2 & ->). exists h', (of_key Key g l1), (of_key Key g l2).
  assert (of_key Key g (mq_pushed (hz_queue h')) = of_key Key g (mq_pushed q) ++ of_key Key g l1 ++ op :: of_key Key g l2) as Hpu.
  { rewrite Hs, !of_key_app. do 2 f_equal. unfold of_key. by rewrite filter_cons, decide_True. }
  split_and!; try done. rewrite (settled_last capacity), Hpu, !last_app; try done; [by destruct (of_key Key g l2) using rev_ind; rewrite ?last_cons, ?last_snoc|].
  eapply queue_ok_steps; [exact (harmonizer_steps _ _ _ _ Hset')|done].
Qed.

(** The round trip of an LRP through the rep.  In every run of the operation
    of a container that was allocated for an LRP, each call to the BBS about an
    LRP names the key the LRP was desired under, the instance guid the rep gave
    it and this cell, for as long as the container carries the tags it was
    allocated with. *)
Theorem allocated_lrp_named cfg t guid tr r c lrp instanceGuid :
  runs (Execute cfg t (ContainerOperation guid)) tr r -> seen tr = Some c ->
  ctr_Tags c = buildLRPTags lrp instanceGuid -> key_ok (lrp_Key lrp) -> instanceGuid <> "" -> pc_cellID cfg <> "" ->
  Forall (fun o => forall k i, names o = Some (k, i) -> k = lrp_Key lrp /\ i = mkInstanceKey instanceGuid (pc_cellID cfg)) tr.
Proof.
  intros Hr Hs Ht Hk Hg Hc. pose proof (always_every _ _ _ _ (execute_names cfg t guid) Hr) as Hev.
  assert (lrp_container cfg c = Some (newLRPContainer (lrp_Key lrp) (mkInstanceKey instanceGuid (pc_cellID cfg)) c)) as Hl.
  { unfold lrp_container, ActualLRPInstanceKeyFromContainer. rewrite Ht, buildLRPTags_key by done.
    destruct (buildLRPTags_lookup lrp instanceGuid) as (_ & _ & _ & _ & E & _). rewrite E.
    change (buildLRPTags lrp instanceGuid) with (Some (default ∅ (buildLRPTags lrp instanceGuid))).
    by rewrite !bool_decide_false by done. }
  apply Forall_forall. intros o Ho k i Hn. apply list_elem_of_split in Ho as (pre & post & ->).
  destruct pre as [|o' pre]; [by destruct o as [X []]|].
  destruct (Hev (o' :: pre) o post eq_refl k i c Hn Hs) as (l & Hl' & -> & ->). rewrite Hl in Hl'. by injection Hl' as <-.
Qed.
End claims.
