(* ===== verification/HarmonizerExamples.v ===== *)
(** * Runs of the rep's operations

    A cell with a container for an LRP or a task, and worlds that answer its
    calls: the properties of run requests, operations and bulk syncs applied to
    them; and a task that is recorded as started but never run. *)
From Stdlib Require Import ZArith Lia Ascii.
From S2P Require Import Prelude GoStd Models Actions Executor CellRep Routes RoutingExamples RunRequest OperationQueue Processors Generator ProcessorProps HarmonizerProps.

(** URLs of the form [scheme:opaque?query]. *)
Fixpoint cut_question (s : string) : string * string :=
  match s with
  | "" => ("", "")
  | String c s =>
      if bool_decide (c = "?"%char) then ("", s)
      else let '(a, b) := cut_question s in (String c a, b)
  end.
Definition query_url : UrlParser := fun s =>
  (fun p => let '(opq, q) := cut_question p.2 in mkURL p.1 opq "" q) <$> cut_colon s.

#[local] Existing Instance query_url.
#[local] Instance hx_json : RouteJson := ex_json.
#[local] Instance hx_strings : JsonStrings := simple_json.
#[local] Instance hx_range : MapRange string := canonical_range string.
#[local] Instance hx_mount : MountJson :=
  {| unmarshal_config := fun s => Ok (Some {["config" := AnyString s]});
     box_config := fun m => AnyOther (match m with Some _ => 1 | None => 0 end) |}.
#[local] Instance hx_ecr : ECRHelper :=
  {| IsECRRepo := fun _ => Ok false; GetECRCredentials := fun _ u p => Ok (u, p) |}.

(** ** What is desired *)

Definition hx_layer (url : string) (ty : LayerType) : ImageLayer :=
  mkImageLayer "layer" url "/home/vcap" ty MediaTypeTgz DigestAlgorithmSha256 "abc".

Definition hx_definition : WorkDefinition :=
  {| df_RootFs := "preloaded:cflinuxfs4";
     df_EnvironmentVariables := [mkModelVariable "FOO" "bar"];
     df_Action := Some (ARun (mkRunAction "/bin/app" [] "" [] None None "vcap" "" false []));
     df_CpuWeight := 0;
     df_Privileged := false;
     df_LogSource := "APP";
     df_LogGuid := "log";
     df_MetricsGuid := "metrics";
     df_EgressRules := [];
     df_CachedDependencies := [mkModelDependency "buildpack" "http://bp" "/tmp/bp" "bp" "" "" ""];
     df_LegacyDownloadUser := "vcap";
     df_TrustedSystemCertificatesPath := "";
     df_VolumeMounts := [mkModelMount "nfs" "/data" "rw" (Some (mkSharedDevice "vol" "{}")) None];
     df_Network := None;
     df_OrganizationalUnit := None;
     df_ImageUsername := "";
     df_ImagePassword := "";
     df_ImageLayers := [hx_layer "http://shared" LayerTypeShared; hx_layer "http://droplet" LayerTypeExclusive;
                        hx_layer "http://extra" LayerTypeExclusive];
     df_MetricTags := ∅;
     df_LogRateLimit := None;
     df_VolumeMountedFiles := [] |}.

Definition hx_setup : Action := ADownload (mkDownloadAction "" "http://setup" "/setup" "" "" "vcap" "" "").

Definition hx_work : DesiredWork :=
  mkDesiredWork hx_definition (Some hx_setup) None None 60000 [8080; 65537]%Z (Some ∅) [].

Definition hx_task : Task := mkTask "task" "/result" (Some (with_layers hx_definition "preloaded:cflinuxfs4" [] [])).

Definition hx_cfg : ProcessorConfig :=
  mkProcessorConfig "cell" "z1" {["cflinuxfs4" := "/rootfs"]} LayeringModeTwoLayer.

Definition hx_lrp : SchedulingLRP :=
  NewSchedulingLRP "" (mkActualLRPKey "process" 2 "domain") (mkResource 256 256 1) (mkPC [] [] "preloaded:cflinuxfs4").

(** ** Run requests *)

Lemma run_request_layers_witness :
  exists req, NewRunRequestFromDesiredLRP 0 "i2" hx_work (lrp_Key hx_lrp) (mkInstanceKey "i2" "cell")
      (pc_stackPathMap hx_cfg) LayeringModeTwoLayer = Some (Ok req) /\
    ri_RootFSPath (run_RunInfo req) =
      "preloaded+layer:/rootfs?layer=http%3A%2F%2Fdroplet&layer_path=%2Fhome%2Fvcap&layer_digest=abc" /\
    exists moved, accounts_for hx_definition (Some hx_setup) (pc_stackPathMap hx_cfg) moved req.
Proof.
  eexists. split; [vm_compute; reflexivity|]. split; [vm_compute; reflexivity|].
  apply (proj1 run_request_layers 0 "i2" hx_work (lrp_Key hx_lrp) (mkInstanceKey "i2" "cell")
    (pc_stackPathMap hx_cfg) LayeringModeTwoLayer). vm_compute. reflexivity.
Defined.

Lemma run_request_well_typed_witness :
  exists req, NewRunRequestFromDesiredLRP 0 "i2" hx_work (lrp_Key hx_lrp) (mkInstanceKey "i2" "cell")
      (pc_stackPathMap hx_cfg) LayeringModeSingleLayer = Some (Ok req) /\
    ContainerPort <$> ri_Ports (run_RunInfo req) = [8080; 1]%Z /\ run_info_ok (run_RunInfo req).
Proof.
  eexists. split; [vm_compute; reflexivity|]. split; [vm_compute; reflexivity|].
  refine (proj1 (proj1 run_request_well_typed 0 "i2" hx_work (lrp_Key hx_lrp) (mkInstanceKey "i2" "cell")
    (pc_stackPathMap hx_cfg) LayeringModeSingleLayer _ _ _ _)); [vm_compute; reflexivity|by vm_compute..].
Defined.

(** ** Worlds

    The executor has one container; nothing fails. *)

Definition hx_container (tags : Tags) (st : State) : Container :=
  set_State (NewContainerFromResource "i2" (mkEResource 256 256 1) tags) st.

Definition hx_lrp_container (st : State) : Container := hx_container (buildLRPTags hx_lrp "i2") st.
Definition hx_task_container (st : State) : Container :=
  hx_container (Some {[LifecycleTag := TaskLifecycle; DomainTag := "domain"]}) st.

Definition hx_answer (c : Container) (evacuating : bool) {X : Type} (k : call X) (w : ()) : X * () :=
  (match k in call X return X with
   | GetContainer _ => Ok c
   | RunContainer _ => None
   | StopContainer _ => None
   | DeleteContainer _ => None
   | GetFiles _ _ => Err ErrContainerNotFound
   | ClaimActualLRP _ _ => None
   | StartActualLRP _ _ _ _ _ _ _ => None
   | CrashActualLRP _ _ _ => None
   | RemoveActualLRP _ _ => None
   | EvacuateClaimedActualLRP _ _ => (false, None)
   | EvacuateRunningActualLRP _ _ _ _ _ _ _ => (true, None)
   | EvacuateStoppedActualLRP _ _ => (false, None)
   | EvacuateCrashedActualLRP _ _ _ => (false, None)
   | RemoveEvacuatingActualLRP _ _ => None
   | DesiredLRPByProcessGuid _ => Ok hx_work
   | StartTask _ _ => Ok true
   | TaskByGuid _ => Ok hx_task
   | CompleteTask _ _ _ _ _ => None
   | RejectTask _ _ => None
   | Evacuating => evacuating
   | SendAppLog _ _ => ()
   | LoadOrStore _ => false
   end, w).

Definition hx_trace (c : Container) (evacuating : bool) : list obs :=
  (exec (@hx_answer c evacuating) () (Execute hx_cfg 0 (ContainerOperation "i2"))).1.1.

Lemma hx_runs c evacuating :
  runs (Execute hx_cfg 0 (ContainerOperation "i2")) (hx_trace c evacuating)
    (exec (@hx_answer c evacuating) () (Execute hx_cfg 0 (ContainerOperation "i2"))).1.2.
Proof. apply exec_runs. Qed.

Lemma run_only_granted_witness :
  existsb (fun o => bool_decide (is_Some (run_Guid <$> run_of o))) (hx_trace (hx_lrp_container StateReserved) false) = true /\
  every (run_granted hx_cfg 0 (ContainerOperation "i2")) (hx_trace (hx_lrp_container StateReserved) false).
Proof. split; [vm_compute; reflexivity|]. exact (run_only_granted hx_cfg 0 _ _ _ (hx_runs _ _)). Defined.

Lemma delete_only_settled_witness :
  omap delete_of (hx_trace (hx_lrp_container StateCompleted) false) = ["i2"] /\
  every (delete_settled (ContainerOperation "i2")) (hx_trace (hx_lrp_container StateCompleted) false).
Proof. split; [vm_compute; reflexivity|]. exact (delete_only_settled hx_cfg 0 _ _ _ (hx_runs _ _)). Defined.

Lemma completed_container_settled_witness :
  exists pre x, hx_trace (hx_task_container StateCompleted) false = pre ++ [Obs (DeleteContainer "i2") x] /\
    Forall (fun o => delete_of o = None) pre /\ reported hx_cfg (hx_task_container StateCompleted) pre.
Proof.
  apply (completed_container_settled hx_cfg 0 "i2" _ _ (hx_task_container StateCompleted) (hx_runs _ _));
    [vm_compute; reflexivity|reflexivity|right; vm_compute; reflexivity].
Defined.

Lemma evacuation_moves_on_witness :
  exists x, last (hx_trace (hx_lrp_container StateCreated) true) = Some (Obs (DeleteContainer "i2") x).
Proof.
  destruct (evacuation_moves_on hx_cfg 0 "i2" _ _ (hx_lrp_container StateCreated)
      (newLRPContainer (lrp_Key hx_lrp) (mkInstanceKey "i2" "cell") (hx_lrp_container StateCreated))
      (hx_runs (hx_lrp_container StateCreated) true)) as (_ & _ & [Hd|[[Hs _]|Hs]]);
    [vm_compute; reflexivity..| |discriminate Hs|discriminate Hs].
  exact Hd.
Defined.

Lemma allocated_lrp_named_witness :
  omap names (hx_trace (hx_lrp_container StateReserved) false) = [(lrp_Key hx_lrp, mkInstanceKey "i2" "cell")] /\
  Forall (fun o => forall k i, names o = Some (k, i) -> k = lrp_Key hx_lrp /\ i = mkInstanceKey "i2" "cell")
    (hx_trace (hx_lrp_container StateReserved) false).
Proof.
  split; [vm_compute; reflexivity|].
  apply (allocated_lrp_named hx_cfg 0 "i2" _ _ (hx_lrp_container StateReserved) hx_lrp "i2" (hx_runs _ _));
    [vm_compute; reflexivity|reflexivity|by vm_compute|done|done].
Defined.

(** ** A bulk sync

    The executor has one container, the BBS an LRP that has lost its container
    and the task of one that never had one. *)
Definition hx_fetched : Fetched :=
  mkFetched (Ok [hx_lrp_container StateRunning]) (Ok [ex_actual "i0" 0 0 1 61000; ex_actual "i0" 0 1 1 61000]) (Ok [hx_task]).

Lemma bulk_operations_witness :
  exists batch, BatchOperations 0 "cell" hx_fetched = Ok batch /\
    batch !! "i2" = Some (ContainerOperation "i2") /\
    batch !! "i0" = Some (ResidualJointLRPOperation (mkActualLRPKey "process" 0 "domain") (mkInstanceKey "i0" "cell")) /\
    batch !! "task" = Some (ResidualTaskOperation "task" "cell") /\ batch !! "other" = None.
Proof.
  destruct (proj1 (bulk_operations 0 "cell" hx_fetched) _ _ _ eq_refl eq_refl eq_refl) as (batch & Hb & Hg).
  exists batch. split; [exact Hb|]. rewrite !(proj1 (Hg _)). vm_compute. repeat split.
Defined.

Lemma bulk_sync_covers_witness :
  exists h', rtc (settle_step 1) (mkHarmonizer NewSlidingQueue (Bulker_sync 0 "cell" hx_fetched)) h' /\ at_rest h' /\
    exists newer, last (of_key Operation_Key "task" (mq_started (hz_queue h'))) =
      last (ResidualTaskOperation "task" "cell" :: newer).
Proof.
  destruct (bulk_sync_covers 1 "cell" NewSlidingQueue 0 hx_fetched _ "task" (ResidualTaskOperation "task" "cell")
      (mkHarmonizer NewSlidingQueue (Bulker_sync 0 "cell" hx_fetched)) (rtc_refl _ _) eq_refl eq_refl)
    as (h' & older & newer & Hr & Hi & _ & Hl); [vm_compute; reflexivity|apply rtc_refl|].
  exists h'. eauto.
Defined.

(** ** A task that is started and never run

    The BBS answers that the start is a change once, as it does, and its first
    answer to the fetch of the task is an error. *)
Record flaky := mkFlaky { fl_started : bool; fl_failed : bool }.

Definition flaky_answer (c : Container) {X : Type} (k : call X) (w : flaky) : X * flaky :=
  match k in call X return X * flaky with
  | StartTask _ _ => (Ok (negb (fl_started w)), mkFlaky true (fl_failed w))
  | TaskByGuid _ => (if fl_failed w then Ok hx_task else Err (PlainErr "timeout"), mkFlaky (fl_started w) true)
  | k => (fst (hx_answer c false k ()), w)
  end.

(** [n] operations for the container, one after the other. *)
Fixpoint operations (c : Container) (n : nat) (w : flaky) : list obs :=
  match n with
  | 0 => []
  | S n =>
      let '(tr, _, w) := exec (@flaky_answer c) w (Execute hx_cfg n (ContainerOperation (ctr_Guid c))) in
      tr ++ operations c n w
  end.

Definition quiet (o : obs) : Prop := run_of o = None /\ delete_of o = None /\ is_report o = false.

Lemma flaky_operation c n w tr r w' :
  ctr_State c = StateReserved -> Tags_lookup (ctr_Tags c) LifecycleTag = TaskLifecycle ->
  exec (@flaky_answer c) w (Execute hx_cfg n (ContainerOperation (ctr_Guid c))) = (tr, r, w') ->
  (fl_started w = false -> fl_failed w = false) ->
  Forall quiet tr /\ fl_started w' = true /\
  exists tr', tr = Obs (GetContainer (ctr_Guid c)) (Ok c) :: Obs (StartTask (ctr_Guid c) "cell") (Ok (negb (fl_started w))) :: tr'.
Proof.
  intros Hs Hl. destruct w as [started failed]. cbn -[hx_task Tags_lookup hx_cfg]. rewrite Hl.
  rewrite bool_decide_eq_false_2, bool_decide_eq_true_2 by done. unfold taskProcessor_Process. rewrite Hs.
  destruct started, failed; cbn -[hx_task]; intros He Hw; simplify_eq; try (by specialize (Hw eq_refl));
    (split; [by repeat constructor|]); split; [done|by eexists|done|by eexists|done|by eexists].
Qed.

(** When the BBS has recorded the start of a task and the rep then fails to
    fetch it, no later operation on the reserved container runs it, deletes it
    or reports it, however many follow and although every later answer is a
    success: the start, which each of them repeats, is no longer a change. *)
Theorem task_never_run c n :
  ctr_State c = StateReserved -> Tags_lookup (ctr_Tags c) LifecycleTag = TaskLifecycle ->
  Forall quiet (operations c n (mkFlaky false false)) /\
  (0 < n -> exists rest, operations c n (mkFlaky false false) =
     Obs (GetContainer (ctr_Guid c)) (Ok c) :: Obs (StartTask (ctr_Guid c) "cell") (Ok true) :: rest).
Proof.
  intros Hs Hl. split.
  - assert (forall w, (fl_started w = false -> fl_failed w = false) -> Forall quiet (operations c n w)) as Hall.
    { induction n as [|m IH]; intros w Hw; [constructor|]. cbn [operations].
      destruct (exec _ w _) as [[tr r] w'] eqn:E. apply flaky_operation in E as (Htr & Hst & _); [|done..].
      apply Forall_app. split; [done|]. apply IH. congruence. }
    by apply Hall.
  - intros Hn. destruct n as [|m]; [lia|]. cbn [operations].
    destruct (exec _ _ _) as [[tr r] w'] eqn:E. apply flaky_operation in E as (_ & _ & tr' & ->); [|done..].
    by eexists.
Qed.

Lemma task_never_run_witness :
  Forall quiet (operations (hx_task_container StateReserved) 3 (mkFlaky false false)).
Proof. apply (task_never_run (hx_task_container StateReserved) 3); [reflexivity|vm_compute; reflexivity]. Defined.
