(* ===== verification/Steps.v ===== *)
(** * The steps of a container

    [executor/depot/steps] and [ifrit]: what a container runs is a tree of steps,
    goroutines that run their parts, pass signals on to them and collect their
    errors.  A running step is a state of a transition system: it can receive a
    signal on its channel, close its ready channel, or do something of its own,
    with what it writes to the container's log.  Timers, processes and downloads
    answer when and what they like. *)
From Stdlib Require Import ZArith Lia Ascii.
From S2P Require Import Prelude GoStd Actions Executor StoreNode.

(** ** Errors *)

Inductive StepError :=
| CancelledError
| ExceededGracefulShutdownIntervalError
| ExitTimeoutError
| CodependentStepExitedError
| EmittableError (msg : string) (wrappedError : option StepError)
| MultiError (errs : list StepError)
| OtherError (msg : string).

(** Only the first two implement [IsDisplayable], and deny it. *)
Definition IsDisplayable (e : StepError) : bool :=
  match e with
  | CancelledError | ExceededGracefulShutdownIntervalError => false
  | _ => true
  end.

(** [Error], with [multiErrorFormat] for several errors. *)
Fixpoint Error (e : StepError) : string :=
  match e with
  | CancelledError => "cancelled"
  | ExceededGracefulShutdownIntervalError => "exceeded graceful shutdown interval"
  | ExitTimeoutError => "process did not exit"
  | CodependentStepExitedError => "Codependent step exited"
  | EmittableError msg _ => msg
  | OtherError msg => msg
  | MultiError errs =>
      (fix format (errStr : string) (errs : list StepError) : string :=
         match errs with
         | [] => errStr
         | e :: errs =>
             if negb (IsDisplayable e) then format errStr errs
             else if bool_decide (errStr = "") then format (Error e) errs
             else if bool_decide (Error e = "") then format errStr errs
             else format (errStr +:+ "; " +:+ Error e) errs
         end) "" errs
  end.

(** [multierror.Append] flattens, and [ErrorOrNil]. *)
Definition Append (aggregate : list StepError) (err : StepError) : list StepError :=
  match err with
  | MultiError errs => aggregate ++ errs
  | e => aggregate ++ [e]
  end.

Definition ErrorOrNil (aggregate : list StepError) : option StepError :=
  match aggregate with
  | [] => None
  | errs => Some (MultiError errs)
  end.

(** ** Log streamers *)

Inductive Streamer := LogStreamer (sourceName : string) | BufferStreamer (sourceName : string) | NoopStreamer.

Definition DefaultLogSource : string := "LOG".

Definition WithSource (s : Streamer) (sourceName : string) : Streamer :=
  match s with
  | LogStreamer own => LogStreamer (if bool_decide (sourceName = "") then own else sourceName)
  | BufferStreamer _ => BufferStreamer sourceName
  | NoopStreamer => NoopStreamer
  end.

Definition SourceName (s : Streamer) : string :=
  match s with
  | LogStreamer n | BufferStreamer n => n
  | NoopStreamer => DefaultLogSource
  end.

Inductive StepOutput :=
| Stdout (s : Streamer) (text : string)
| Stderr (s : Streamer) (text : string)
| StdoutSize (s : Streamer) (text : string) (size : Z)   (* the text, then the size in parentheses *)
| SetupDuration (succeeded : bool)
| IncrementCounter (name : string)
| SendReadiness (isReady : bool)
| ProcessSignal (kill : bool).

(** ** What is to be run *)

Inductive CheckProtocol := HTTPProtocol | TCPProtocol.
Inductive HealthcheckType :=
| IsStartupCheck | IsLivenessCheck | IsUntilSuccessReadinessCheck | IsUntilFailureReadinessCheck.

#[global] Instance CheckProtocol_eq_dec : EqDecision CheckProtocol.
Proof. solve_decision. Defined.
#[global] Instance HealthcheckType_eq_dec : EqDecision HealthcheckType.
Proof. solve_decision. Defined.

(** The sidecar a process runs in; the zero value has no name and no image. *)
Record SidecarSpec := mkSidecarSpec {
  ss_Image : string;
  ss_Name : string;
  ss_BindMounts : list BindMount;
  ss_OverrideContainerLimits : bool }.

Definition zeroSidecar : SidecarSpec := mkSidecarSpec "" "" [] false.

Record RunSpec := mkRunSpec {
  rs_model : RunAction;
  rs_streamer : Streamer;
  rs_externalIP : string;
  rs_internalIP : string;
  rs_internalIPv6 : string;
  rs_portMappings : list PortMapping;
  rs_gracefulShutdownInterval : Z;
  rs_suppressExitStatusCode : bool;
  rs_sidecar : SidecarSpec }.

Inductive Step :=
| SRun (r : RunSpec)
| SDownload (model : DownloadAction) (streamer : Streamer)
| SUpload (model : UploadAction) (streamer : Streamer)
| SEmitProgress (substep : Step) (startMessage successMessage failureMessage : string) (streamer : Streamer)
| STimeout (substep : Step) (timeout : Z)
| STry (substep : Step)
| SParallel (substeps : list Step)
| SCodependent (substeps : list Step) (errorOnExit cancelOthersOnExit : bool)
| SSerial (steps : list Step)
| STimed (step : option Step)
| SBackground (substep : Step)
| SThrottle (substep : Step)
| SConsistentlySucceeds (create : Step) (frequency : Z)
| SEventuallySucceeds (create : Step) (frequency timeout : Z)
| SHealthCheck (startupCheck livenessCheck : Step) (logStreamer healthCheckStreamer : Streamer)
| SReadinessHealthCheck (untilReadyCheck untilFailureCheck : Step) (logStreamer : Streamer)
| SOutputWrapper (substep : Step) (prefix : string)
| SEmitCheckFailureMetric (checkStep : option Step) (checkProtocol : CheckProtocol) (checkType : HealthcheckType).

(** ** The run step *)

Definition convertEnvironmentVariables (vars : list ModelVariable) : list string :=
  (fun v => mv_Name v +:+ "=" +:+ mv_Value v) <$> vars.

Definition json_field (name : string) (v : Z) : string :=
  String SimpleJson.quote name +:+ String SimpleJson.quote (":" +:+ pretty v).

Fixpoint join (sep : string) (l : list string) : string :=
  match l with
  | [] => ""
  | [x] => x
  | x :: l => x +:+ sep +:+ join sep l
  end.

(** The JSON of a port mapping; zero ports are omitted but for the internal. *)
Definition port_json (p : PortMapping) : string :=
  let omitempty name v := if (v =? 0)%Z then [] else [json_field name v] in
  "{" +:+ join "," (omitempty "external" (HostPort p) ++ [json_field "internal" (ContainerPort p)] ++
                    omitempty "external_tls_proxy" (HostTLSProxyPort p) ++
                    omitempty "internal_tls_proxy" (ContainerTLSProxyPort p)) +:+ "}".

Definition networkingEnvVars (r : RunSpec) : list string :=
  ["CF_INSTANCE_IP=" +:+ rs_externalIP r; "CF_INSTANCE_INTERNAL_IP=" +:+ rs_internalIP r] ++
  (if bool_decide (rs_internalIPv6 r = "") then [] else ["CF_INSTANCE_INTERNAL_IPV6=" +:+ rs_internalIPv6 r]) ++
  match rs_portMappings r with
  | [] => ["CF_INSTANCE_PORT="; "CF_INSTANCE_ADDR="; "CF_INSTANCE_PORTS=[]"]
  | p :: _ =>
      (if (0 <? HostPort p)%Z then
         ["CF_INSTANCE_PORT=" +:+ pretty (HostPort p);
          "CF_INSTANCE_ADDR=" +:+ rs_externalIP r +:+ ":" +:+ pretty (HostPort p)]
       else []) ++
      ["CF_INSTANCE_PORTS=[" +:+ join "," (port_json <$> rs_portMappings r) +:+ "]"]
  end.

(** What garden is asked to run. *)
Record ProcessSpec := mkProcessSpec {
  ps_ID : string;
  ps_Path : string;
  ps_Args : list string;
  ps_Dir : string;
  ps_Env : list string;
  ps_User : string;
  ps_Nofile : option Z;
  ps_Image : string;
  ps_BindMounts : list BindMount;
  ps_OverrideContainerLimits : bool }.

Definition process_spec (r : RunSpec) : ProcessSpec :=
  {| ps_ID := ss_Name (rs_sidecar r);
     ps_Path := ra_Path (rs_model r);
     ps_Args := ra_Args (rs_model r);
     ps_Dir := ra_Dir (rs_model r);
     ps_Env := convertEnvironmentVariables (ra_Env (rs_model r)) ++ networkingEnvVars r;
     ps_User := ra_User (rs_model r);
     ps_Nofile := ra_Nofile (rs_model r);
     ps_Image := ss_Image (rs_sidecar r);
     ps_BindMounts := ss_BindMounts (rs_sidecar r);
     ps_OverrideContainerLimits := ss_OverrideContainerLimits (rs_sidecar r) |}.

Definition writeToStdOut (r : RunSpec) (message : string) : list StepOutput :=
  if ra_SuppressLogOutput (rs_model r) then [] else [Stdout (rs_streamer r) message].

(** The end of the process, after a signal or not, and after the graceful
    shutdown interval or not; [info] is garden's answer, with the container's
    events: what is written, and the error. *)
Definition process_exited (r : RunSpec) (cancelled killed : bool) (exitStatus : Z) (info : result string (list string))
    : list StepOutput * option StepError :=
  let '(msg, emittable) :=
    if rs_suppressExitStatusCode r then ("", "")
    else ("Exit status " +:+ pretty exitStatus,
          SourceName (rs_streamer r) +:+ ": Exited with status " +:+ pretty exitStatus) in
  let msg := if killed then msg +:+ " (exceeded " +:+ Duration_String (rs_gracefulShutdownInterval r) +:+
                              " graceful shutdown interval)" else msg in
  let oom := match info with
             | Ok events => existsb (fun ev => bool_decide (ev = "out of memory") || bool_decide (ev = "Out of memory")) events
             | Err _ => false
             end in
  let '(msg, emittable) :=
    if negb (exitStatus =? 0)%Z && oom then (msg +:+ " (out of memory)", emittable +:+ " (out of memory)")
    else (msg, emittable) in
  (writeToStdOut r msg,
   if killed then Some ExceededGracefulShutdownIntervalError
   else if cancelled then Some CancelledError
   else if negb (exitStatus =? 0)%Z then Some (EmittableError emittable None)
   else None).

(** ** Downloads and uploads *)

(** At most 1024 bytes of an error. *)
Definition truncate_error (text : string) : string :=
  let mark := " (error truncated)" in
  if 1024 <? String.length text then String.substring 0 (1024 - String.length mark) text +:+ mark else text.

Definition newline : string := String (ascii_of_nat 10) "".

Definition download_emit (model : DownloadAction) (o : StepOutput) : list StepOutput :=
  if bool_decide (da_Artifact model = "") then [] else [o].

Definition download_started (model : DownloadAction) (s : Streamer) : list StepOutput :=
  download_emit model (Stdout s ("Downloading " +:+ da_Artifact model +:+ "..." +:+ newline)).

(** The rest of [perform], with the answers of the downloader, the size, and of
    garden. *)
Definition download_finished (model : DownloadAction) (s : Streamer) (fetched : result string Z)
    (streamed : option string) : list StepOutput * option StepError :=
  let artifact := da_Artifact model in
  let named := negb (bool_decide (artifact = "")) in
  let fail text e := ([Stderr s (truncate_error (text +:+ newline))], Some (EmittableError text (Some (OtherError e)))) in
  match fetched, streamed with
  | Err e, _ => fail (if named then "Downloading " +:+ artifact +:+ " failed" else "Downloading failed") e
  | Ok _, Some e =>
      fail (if named then "Copying " +:+ artifact +:+ " into the container failed: " +:+ e
            else "Copying into the container failed: " +:+ e) e
  | Ok size, None =>
      (download_emit model (if (size =? 0)%Z then Stdout s ("Downloaded " +:+ artifact +:+ newline)
                            else StdoutSize s ("Downloaded " +:+ artifact) size), None)
  end.

(** What can go wrong before the upload itself, with the text of the message. *)
Inductive UploadFailure :=
| ErrParsingURL (e : string)
| ErrUploadPrepare (message e : string).

(** [Failed to create temp dir] and the like. *)
Definition prepare_messages : list string :=
  ["Failed to create temp dir"; "Failed to establish stream from container"; "Failed to find first item in tar stream";
   "Failed to create temp file"; "Failed to copy stream contents into temp file"].

Definition artifactErrString (model : UploadAction) (errString : string) : string :=
  if bool_decide (ua_Artifact model = "") then errString else errString +:+ " for " +:+ ua_Artifact model.

Definition upload_emit (model : UploadAction) (o : StepOutput) : list StepOutput :=
  if bool_decide (ua_Artifact model = "") then [] else [o].

Definition emitError (model : UploadAction) (s : Streamer) (errString : string) : list StepOutput :=
  upload_emit model (Stderr s (errString +:+ newline)).

(** The error itself is returned where it might leak the URL's secrets. *)
Definition upload_failed (model : UploadAction) (s : Streamer) (f : UploadFailure) : list StepOutput * option StepError :=
  match f with
  | ErrParsingURL e => (emitError model s (artifactErrString model "Failed to parse URL"), Some (OtherError e))
  | ErrUploadPrepare message e =>
      let errString := artifactErrString model message in
      (emitError model s errString, Some (EmittableError errString (Some (OtherError e))))
  end.

(** The upload's answer, the number of bytes; [cancelled] says that a signal
    came. *)
Definition upload_finished (model : UploadAction) (s : Streamer) (cancelled : bool) (uploaded : result string Z)
    : list StepOutput * option StepError :=
  match uploaded with
  | Ok size => (upload_emit model (StdoutSize s ("Uploaded " +:+ ua_Artifact model) size), None)
  | Err e =>
      if cancelled then ([], Some CancelledError)
      else (emitError model s (artifactErrString model "Failed to upload payload"), Some (OtherError e))
  end.

(** ** Running steps *)

(** Where a run step is: before it asks garden, while garden creates the process,
    while it runs, after a signal, and after the graceful shutdown interval. *)
Inductive RunPhase := RBefore | RCreating | RRunning | RTerminating | RKilled.
Inductive DownloadPhase := DStart | DLimiter | DPerforming.
Inductive UploadPhase := UStart | ULimiter | UPreparing | UUploading (cancelled : bool).

Record Messages := mkMessages { em_start : string; em_success : string; em_failure : string; em_streamer : Streamer }.

(** Steps that have no part running. *)
Inductive Idle :=
| IRun (r : RunSpec) (ph : RunPhase)
| IDownload (model : DownloadAction) (s : Streamer) (ph : DownloadPhase)
| IUpload (model : UploadAction) (s : Streamer) (ph : UploadPhase)
| IEmitProgress (substep : Step) (m : Messages)
| ITimed
| IThrottle (substep : Step)
| IConsistently (create : Step) (frequency : Z) (ready : bool)
| IEventually (create : Step) (frequency timeout : Z) (ready : bool)
| IHealthCheck (startupCheck livenessCheck : Step) (ls hs : Streamer)
| IHealthy (livenessCheck : Step) (ls hs : Streamer)
| IReadiness (untilReadyCheck untilFailureCheck : Step) (ls : Streamer)
| ISendReadiness (isReady : bool) (untilReadyCheck untilFailureCheck : Step) (ls : Streamer).

(** Steps that call [Run] of one part.  A timeout step is at its select, blocked
    on passing a signal on, blocked on the interrupt after the timer fired, or
    waits for the result after that. *)
Inductive TimeoutPhase := TSelect | TForward | TExpired | TResult.
Inductive Frame :=
| FEmitProgress (m : Messages)
| FOutputWrapper (prefix : string)
| FTimeout (ph : TimeoutPhase) (timeout : Z)
| FTry (buffered cancelled : bool)
| FBackground
| FTimed.

(** Steps that run one part at a time as a process. *)
Inductive Monitor :=
| MSerial (rest : list Step) (closed : bool)
| MConsistently (create : Step) (frequency : Z)
| MEventually (create : Step) (frequency timeout : Z)
| MStartup (livenessCheck : Step) (ls hs : Streamer)
| MLiveness (ls hs : Streamer)
| MUntilReady (untilReadyCheck untilFailureCheck : Step) (ls : Streamer)
| MUntilFailure (untilReadyCheck untilFailureCheck : Step) (ls : Streamer)
| MCheckMetric (checkProtocol : CheckProtocol) (checkType : HealthcheckType) (closed : bool).

(** Steps that run all their parts as processes: the parallel step, with the next
    part to wait for, and the codependent step, with the parts whose end it has
    seen. *)
Inductive GroupKind :=
| GParallel (next : nat)
| GCodependent (errorOnExit cancelOthersOnExit : bool) (collected : gset nat) (cancelled : bool).

Record Group := mkGroup {
  g_kind : GroupKind;
  g_aggregate : list StepError;
  g_signalled : bool;       (* the goroutine that waits for a signal has had one *)
  g_ready : nat;            (* the parts the other goroutine has seen ready *)
  g_closed : bool }.        (* and whether it has closed the ready channel *)

(** An [ifrit.Process]: the state of its runner, the goroutines that try to send
    a signal, and whether its ready channel is closed. *)
Record Process (P : Type) := mkProcess { p_proc : P; p_signals : nat; p_ready : bool }.
#[global] Arguments mkProcess {P} _ _ _.
#[global] Arguments p_proc {P} _.
#[global] Arguments p_signals {P} _.
#[global] Arguments p_ready {P} _.

(** A running step.  [Done err late] has returned [err]; with [late] a goroutine
    it has left behind may still close its ready channel. *)
Inductive Proc :=
| Done (err : option StepError) (late : bool)
| Panicked
| PIdle (i : Idle)
| PFrame (f : Frame) (p : Proc)
| PMonitor (m : Monitor) (cancelled : bool) (c : Process Proc)
| PGroup (g : Group) (cs : list (Process Proc)).

Definition new_group (k : GroupKind) : Group := mkGroup k [] false 0 false.

(** [Run], up to its first wait. *)
Fixpoint start (s : Step) : Proc :=
  match s with
  | SRun r => PIdle (IRun r RBefore)
  | SDownload model st => PIdle (IDownload model st DStart)
  | SUpload model st => PIdle (IUpload model st UStart)
  | SEmitProgress substep a b c st => PIdle (IEmitProgress substep (mkMessages a b c st))
  | STimeout substep timeout => PFrame (FTimeout TSelect timeout) (start substep)
  | STry substep => PFrame (FTry false false) (start substep)
  | SParallel substeps =>
      PGroup (new_group (GParallel 0)) ((fun s => mkProcess (start s) 0 false) <$> substeps)
  | SCodependent substeps errorOnExit cancelOthers =>
      PGroup (new_group (GCodependent errorOnExit cancelOthers ∅ false)) ((fun s => mkProcess (start s) 0 false) <$> substeps)
  | SSerial [] => Done None false
  | SSerial (s :: rest) => PMonitor (MSerial rest false) false (mkProcess (start s) 0 false)
  | STimed None => PIdle ITimed
  | STimed (Some s) => PFrame FTimed (start s)
  | SBackground substep => PFrame FBackground (start substep)
  | SThrottle substep => PIdle (IThrottle substep)
  | SConsistentlySucceeds create frequency => PIdle (IConsistently create frequency false)
  | SEventuallySucceeds create frequency timeout => PIdle (IEventually create frequency timeout false)
  | SHealthCheck startup liveness ls hs => PIdle (IHealthCheck startup liveness ls hs)
  | SReadinessHealthCheck untilReady untilFailure ls => PIdle (IReadiness untilReady untilFailure ls)
  | SOutputWrapper substep prefix => PFrame (FOutputWrapper prefix) (start substep)
  | SEmitCheckFailureMetric None _ _ => Done None false
  | SEmitCheckFailureMetric (Some s) protocol ty => PMonitor (MCheckMetric protocol ty false) false (mkProcess (start s) 0 false)
  end.

(** [ifrit.Background] and [Process.Signal]. *)
Definition spawn (s : Step) : Process Proc := mkProcess (start s) 0 false.
Definition send_signal (c : Process Proc) : Process Proc := mkProcess (p_proc c) (S (p_signals c)) (p_ready c).

(** A step receives a signal, closes its ready channel, or does something of its
    own. *)
Inductive kind := Tau | Signal | Ready.

Abbreviation fails e := (Done (Some e) false).

(** The run step: garden creates the process and waits for it; a signal starts the
    graceful shutdown. *)
Inductive run_Run : Idle -> kind -> list StepOutput -> Proc -> Prop :=
| run_cancelled r ph : ph = RBefore \/ ph = RCreating -> run_Run (IRun r ph) Signal [] (fails CancelledError)
| run_create r : run_Run (IRun r RBefore) Tau [] (PIdle (IRun r RCreating))
| run_create_failed r e :
    run_Run (IRun r RCreating) Tau (writeToStdOut r ("failed-creating-process: " +:+ e)) (fails (OtherError e))
| run_created r : run_Run (IRun r RCreating) Ready [] (PIdle (IRun r RRunning))
| run_exited r ph cancelled killed exitStatus info out err :
    (ph, cancelled, killed) = (RRunning, false, false) \/ (ph, cancelled, killed) = (RTerminating, true, false) \/
    (ph, cancelled, killed) = (RKilled, true, true) ->
    process_exited r cancelled killed exitStatus info = (out, err) ->
    run_Run (IRun r ph) Tau out (Done err false)
| run_wait_failed r ph e :
    ph = RRunning \/ ph = RTerminating \/ ph = RKilled -> run_Run (IRun r ph) Tau [] (fails (OtherError e))
| run_signalled r : run_Run (IRun r RRunning) Signal [ProcessSignal false] (PIdle (IRun r RTerminating))
| run_kill r : run_Run (IRun r RTerminating) Tau [ProcessSignal true] (PIdle (IRun r RKilled))
| run_exit_timeout r : run_Run (IRun r RKilled) Tau [] (fails ExitTimeoutError).

Inductive download_Run : Idle -> kind -> list StepOutput -> Proc -> Prop :=
| download_ready model s : download_Run (IDownload model s DStart) Ready [] (PIdle (IDownload model s DLimiter))
| download_acquired model s :
    download_Run (IDownload model s DLimiter) Tau (download_started model s) (PIdle (IDownload model s DPerforming))
| download_cancelled model s ph :
    ph = DLimiter \/ ph = DPerforming -> download_Run (IDownload model s ph) Signal [] (fails CancelledError)
| download_performed model s fetched streamed out err :
    download_finished model s fetched streamed = (out, err) ->
    download_Run (IDownload model s DPerforming) Tau out (Done err false).

Inductive upload_Run : Idle -> kind -> list StepOutput -> Proc -> Prop :=
| upload_ready model s : upload_Run (IUpload model s UStart) Ready [] (PIdle (IUpload model s ULimiter))
| upload_acquired model s :
    upload_Run (IUpload model s ULimiter) Tau (upload_emit model (Stdout s ("Uploading " +:+ ua_Artifact model +:+ "..." +:+ newline)))
      (PIdle (IUpload model s UPreparing))
| upload_not_prepared model s f out err :
    upload_failed model s f = (out, err) -> upload_Run (IUpload model s UPreparing) Tau out (Done err false)
| upload_prepared model s : upload_Run (IUpload model s UPreparing) Tau [] (PIdle (IUpload model s (UUploading false)))
| upload_cancelled model s :
    upload_Run (IUpload model s (UUploading false)) Signal [] (PIdle (IUpload model s (UUploading true)))
| upload_done model s cancelled uploaded out err :
    upload_finished model s cancelled uploaded = (out, err) ->
    upload_Run (IUpload model s (UUploading cancelled)) Tau out (Done err false).

(** The checks that are repeated, between two attempts. *)
Inductive consistently_Run : Idle -> kind -> list StepOutput -> Proc -> Prop :=
| consistently_ready create f : consistently_Run (IConsistently create f false) Ready [] (PIdle (IConsistently create f true))
| consistently_cancelled create f : consistently_Run (IConsistently create f true) Signal [] (fails CancelledError)
| consistently_tick create f :
    consistently_Run (IConsistently create f true) Tau [] (PMonitor (MConsistently create f) false (spawn create)).

Inductive eventually_Run : Idle -> kind -> list StepOutput -> Proc -> Prop :=
| eventually_ready create f t : eventually_Run (IEventually create f t false) Ready [] (PIdle (IEventually create f t true))
| eventually_cancelled create f t : eventually_Run (IEventually create f t true) Signal [] (fails CancelledError)
| eventually_tick create f t :
    eventually_Run (IEventually create f t true) Tau [] (PMonitor (MEventually create f t) false (spawn create)).

(** The health check, before its startup check and when that has passed. *)
Inductive health_Run : Idle -> kind -> list StepOutput -> Proc -> Prop :=
| health_started startup liveness ls hs :
    health_Run (IHealthCheck startup liveness ls hs) Tau [Stdout ls ("Starting health monitoring of container" +:+ newline)]
      (PMonitor (MStartup liveness ls hs) false (spawn startup))
| health_healthy liveness ls hs :
    health_Run (IHealthy liveness ls hs) Ready [] (PMonitor (MLiveness ls hs) false (spawn liveness)).

Inductive readiness_Run : Idle -> kind -> list StepOutput -> Proc -> Prop :=
| readiness_started untilReady untilFailure ls :
    readiness_Run (IReadiness untilReady untilFailure ls) Ready
      [Stdout ls ("Starting readiness health monitoring of container" +:+ newline)]
      (PMonitor (MUntilReady untilReady untilFailure ls) false (spawn untilReady))
| readiness_sent isReady untilReady untilFailure ls :
    readiness_Run (ISendReadiness isReady untilReady untilFailure ls) Tau
      [SendReadiness isReady;
       Stdout ls ((if isReady then "Container passed the readiness health check. Container marked ready and added to route pool."
                   else "Container failed the readiness health check. Container marked not ready and removed from route pool.") +:+ newline)]
      (if isReady then PMonitor (MUntilFailure untilReady untilFailure ls) false (spawn untilFailure)
       else PMonitor (MUntilReady untilReady untilFailure ls) false (spawn untilReady))
| readiness_cancelled isReady untilReady untilFailure ls :
    readiness_Run (ISendReadiness isReady untilReady untilFailure ls) Signal [] (fails CancelledError).

Inductive idle_step : Idle -> kind -> list StepOutput -> Proc -> Prop :=
| idle_run i k out p : run_Run i k out p -> idle_step i k out p
| idle_download i k out p : download_Run i k out p -> idle_step i k out p
| idle_upload i k out p : upload_Run i k out p -> idle_step i k out p
| idle_consistently i k out p : consistently_Run i k out p -> idle_step i k out p
| idle_eventually i k out p : eventually_Run i k out p -> idle_step i k out p
| idle_health i k out p : health_Run i k out p -> idle_step i k out p
| idle_readiness i k out p : readiness_Run i k out p -> idle_step i k out p
| progress_started substep m :
    idle_step (IEmitProgress substep m) Tau
      (if bool_decide (em_start m = "") then [] else [Stdout (em_streamer m) (em_start m +:+ newline)])
      (PFrame (FEmitProgress m) (start substep))
| timed_nothing : idle_step ITimed Tau [SetupDuration true] (Done None false)
| throttle_worker substep : idle_step (IThrottle substep) Tau [] (start substep).

(** *** One part, called directly *)

Definition progress_output (m : Messages) (err : option StepError) : list StepOutput :=
  let s := em_streamer m in
  match err with
  | None => if bool_decide (em_success m = "") then [] else [Stdout s (em_success m +:+ newline)]
  | Some e =>
      if bool_decide (em_failure m = "") then []
      else [Stderr s (em_failure m)] ++
           match e with EmittableError msg _ => [Stderr s ": "; Stderr s msg] | _ => [] end ++
           [Stderr s newline]
  end.

(** [strings.TrimSpace], for the white space of ASCII. *)
Definition is_space (c : ascii) : bool := let n := N_of_ascii c in ((9 <=? n) && (n <=? 13) || (n =? 32))%N.
Fixpoint trim_left (s : string) : string :=
  match s with
  | String c rest => if is_space c then trim_left rest else s
  | "" => ""
  end.
Definition TrimSpace (s : string) : string := String.rev (trim_left (String.rev (trim_left s))).

(** The output of a check as its error; [output] is what the buffer holds. *)
Definition wrap_output (prefix : string) (e : StepError) (output : result string string) : StepError :=
  match output with
  | Err err => OtherError ("Error reading from process output buffer: " +:+ err)
  | Ok readerErr =>
      let msg := if bool_decide (readerErr = "") then "Failed to invoke process: " +:+ Error e else TrimSpace readerErr in
      EmittableError (if bool_decide (prefix = "") then msg else prefix +:+ ": " +:+ msg) (Some e)
  end.

Definition emittableMessage (timeout : Z) (substepErr : option StepError) : string :=
  "exceeded " +:+ Duration_String timeout +:+ " timeout" +:+
  match substepErr with Some (EmittableError msg _) => "; " +:+ msg | _ => "" end.

(** A signal that the part takes: from the step's own channel, or one that the
    step passes on. *)
Definition frame_accept (f : Frame) : option (Frame * kind) :=
  match f with
  | FEmitProgress _ | FOutputWrapper _ => Some (f, Signal)
  | FTimeout TForward t => Some (FTimeout TSelect t, Tau)
  | FTimeout TExpired t => Some (FTimeout TResult t, Tau)
  | FTry true cancelled => Some (FTry false cancelled, Tau)
  | _ => None
  end.

(** What the step does by itself: it takes a signal, or its timer fires. *)
Inductive frame_step (p : Proc) : Frame -> kind -> list StepOutput -> Proc -> Prop :=
| timeout_signalled t : frame_step p (FTimeout TSelect t) Signal [] (PFrame (FTimeout TForward t) p)
| timeout_expired t : frame_step p (FTimeout TSelect t) Tau [] (PFrame (FTimeout TExpired t) p)
| try_signalled : frame_step p (FTry false false) Signal [] (PFrame (FTry true true) p)
| background_signalled : frame_step p FBackground Signal [] (Done None true)
| timed_signalled : frame_step p FTimed Signal [SetupDuration true] (Done None true).

(** The part has returned. *)
Inductive frame_exit : Frame -> option StepError -> list StepOutput -> option StepError -> Prop :=
| progress_exit m err : frame_exit (FEmitProgress m) err (progress_output m err) err
| wrapper_success prefix : frame_exit (FOutputWrapper prefix) None [] None
| wrapper_failure prefix e output : frame_exit (FOutputWrapper prefix) (Some e) [] (Some (wrap_output prefix e output))
| timeout_exit t err : frame_exit (FTimeout TSelect t) err [] err
| timeout_result t err : frame_exit (FTimeout TResult t) err [] (Some (EmittableError (emittableMessage t err) err))
| try_exit buffered cancelled err : frame_exit (FTry buffered cancelled) err [] None
| background_exit err : frame_exit FBackground err [] err
| timed_exit err : frame_exit FTimed err [SetupDuration (bool_decide (err = None))] err.

(** *** One part at a time *)

Definition check_failure_metric (protocol : CheckProtocol) (ty : HealthcheckType) (err : option StepError) : list StepOutput :=
  match err, ty with
  | Some _, IsLivenessCheck =>
      [IncrementCounter match protocol with
                        | TCPProtocol => "TCPLivenessChecksFailedCount"
                        | HTTPProtocol => "HTTPLivenessChecksFailedCount"
                        end]
  | _, _ => []
  end.

(** The part has exited, [ready] or not, and no signal came. *)
Inductive serial_exit (ready : bool) : Monitor -> option StepError -> list StepOutput -> Proc -> Prop :=
| serial_next s rest closed :
    serial_exit ready (MSerial (s :: rest) closed) None [] (PMonitor (MSerial rest false) false (spawn s))
| serial_last closed : serial_exit ready (MSerial [] closed) None [] (Done None (ready && negb closed))
| serial_failed rest closed e :
    serial_exit ready (MSerial rest closed) (Some e) [] (Done (Some e) (bool_decide (rest = []) && ready && negb closed)).

Inductive consistently_exit : Monitor -> option StepError -> list StepOutput -> Proc -> Prop :=
| consistently_again create f : consistently_exit (MConsistently create f) None [] (PIdle (IConsistently create f true))
| consistently_failed create f e : consistently_exit (MConsistently create f) (Some e) [] (fails e).

Inductive eventually_exit : Monitor -> option StepError -> list StepOutput -> Proc -> Prop :=
| eventually_succeeded create f t : eventually_exit (MEventually create f t) None [] (Done None false)
| eventually_again create f t e : eventually_exit (MEventually create f t) (Some e) [] (PIdle (IEventually create f t true))
| eventually_timeout create f t e : (0 < t)%Z -> eventually_exit (MEventually create f t) (Some e) [] (fails e).

Inductive health_exit : Monitor -> option StepError -> list StepOutput -> Proc -> Prop :=
| startup_passed liveness ls hs :
    health_exit (MStartup liveness ls hs) None [Stdout ls ("Container became healthy" +:+ newline)] (PIdle (IHealthy liveness ls hs))
| startup_failed liveness ls hs e after :
    health_exit (MStartup liveness ls hs) (Some e)
      [Stderr hs (Error e +:+ newline);
       Stderr ls ("Failed after " +:+ Duration_String after +:+ ": startup health check never passed." +:+ newline)]
      (fails (EmittableError ("Instance never healthy after " +:+ Duration_String after +:+ ": " +:+ Error e) (Some e)))
| liveness_failed ls hs e :
    health_exit (MLiveness ls hs) (Some e)
      [Stderr hs (Error e +:+ newline); Stderr ls ("Container became unhealthy" +:+ newline)]
      (fails (EmittableError ("Instance became unhealthy: " +:+ Error e) (Some e)))
| liveness_nil ls hs : health_exit (MLiveness ls hs) None [] Panicked.

Inductive readiness_exit : Monitor -> option StepError -> list StepOutput -> Proc -> Prop :=
| until_ready_failed untilReady untilFailure ls e :
    readiness_exit (MUntilReady untilReady untilFailure ls) (Some e)
      [Stdout ls ("Failed to run the readiness check" +:+ newline)] (fails e)
| until_ready untilReady untilFailure ls :
    readiness_exit (MUntilReady untilReady untilFailure ls) None [] (PIdle (ISendReadiness true untilReady untilFailure ls))
| until_failure untilReady untilFailure ls e :
    readiness_exit (MUntilFailure untilReady untilFailure ls) (Some e) [] (PIdle (ISendReadiness false untilReady untilFailure ls))
| until_failure_nil untilReady untilFailure ls :
    readiness_exit (MUntilFailure untilReady untilFailure ls) None []
      (PMonitor (MUntilReady untilReady untilFailure ls) false (spawn untilReady)).

Inductive monitor_exit (ready : bool) : Monitor -> option StepError -> list StepOutput -> Proc -> Prop :=
| exit_serial m err out p : serial_exit ready m err out p -> monitor_exit ready m err out p
| exit_consistently m err out p : consistently_exit m err out p -> monitor_exit ready m err out p
| exit_eventually m err out p : eventually_exit m err out p -> monitor_exit ready m err out p
| exit_health m err out p : health_exit m err out p -> monitor_exit ready m err out p
| exit_readiness m err out p : readiness_exit m err out p -> monitor_exit ready m err out p
| metric_exit protocol ty closed err :
    monitor_exit ready (MCheckMetric protocol ty closed) err (check_failure_metric protocol ty err)
      (Done err (ready && negb closed)).

(** What is returned when the part exits after a signal. *)
Definition monitor_cancelled (m : Monitor) (err : option StepError) : option StepError :=
  match m with
  | MSerial _ _ | MConsistently _ _ | MEventually _ _ _ | MCheckMetric _ _ _ => err
  | _ => Some CancelledError
  end.

(** The goroutine that waits for the part to be ready: only for the last part of
    a serial step and for a check. *)
Definition monitor_ready (m : Monitor) : option Monitor :=
  match m with
  | MSerial [] false => Some (MSerial [] true)
  | MCheckMetric protocol ty false => Some (MCheckMetric protocol ty true)
  | _ => None
  end.

(** *** All parts at once *)

Definition set_kind (g : Group) (k : GroupKind) (aggregate : list StepError) : Group :=
  mkGroup k aggregate (g_signalled g) (g_ready g) (g_closed g).

(** The loop over the parts sees part [i] exit with [err]; the second component
    says that it cancels all parts. *)
Definition group_collect (g : Group) (i : nat) (err : option StepError) : option (Group * bool) :=
  let aggregated err := match err with Some e => Append (g_aggregate g) e | None => g_aggregate g end in
  match g_kind g with
  | GParallel next => if i =? next then Some (set_kind g (GParallel (S next)) (aggregated err), false) else None
  | GCodependent errorOnExit cancelOthers collected cancelled =>
      if bool_decide (i ∈ collected) then None
      else
        let err := if errorOnExit && bool_decide (err = None) then Some CodependentStepExitedError else err in
        let cancels := negb cancelled && (bool_decide (err <> None) || cancelOthers) in
        Some (set_kind g (GCodependent errorOnExit cancelOthers ({[i]} ∪ collected) (cancelled || cancels)) (aggregated err), cancels)
  end.

Definition group_collected (g : Group) : nat :=
  match g_kind g with
  | GParallel next => next
  | GCodependent _ _ collected _ => size collected
  end.

(** Case analyses of what a step without running parts does, and of the exit of a part. *)
Ltac idle_cases H :=
  inversion H; subst; clear H;
  repeat match goal with
  | H' : run_Run _ _ _ _ |- _ => inversion H'; subst; clear H'
  | H' : download_Run _ _ _ _ |- _ => inversion H'; subst; clear H'
  | H' : upload_Run _ _ _ _ |- _ => inversion H'; subst; clear H'
  | H' : consistently_Run _ _ _ _ |- _ => inversion H'; subst; clear H'
  | H' : eventually_Run _ _ _ _ |- _ => inversion H'; subst; clear H'
  | H' : health_Run _ _ _ _ |- _ => inversion H'; subst; clear H'
  | H' : readiness_Run _ _ _ _ |- _ => inversion H'; subst; clear H'
  end.
Ltac exit_cases H :=
  inversion H; subst; clear H;
  repeat match goal with
  | H' : serial_exit _ _ _ _ _ |- _ => inversion H'; subst; clear H'
  | H' : consistently_exit _ _ _ _ |- _ => inversion H'; subst; clear H'
  | H' : eventually_exit _ _ _ _ |- _ => inversion H'; subst; clear H'
  | H' : health_exit _ _ _ _ |- _ => inversion H'; subst; clear H'
  | H' : readiness_exit _ _ _ _ |- _ => inversion H'; subst; clear H'
  end.

Ltac idle_rule :=
  first [ apply idle_run; constructor | apply idle_download; constructor | apply idle_upload; constructor
        | apply idle_consistently; constructor | apply idle_eventually; constructor | apply idle_health; constructor
        | apply idle_readiness; constructor | apply progress_started | apply timed_nothing | apply throttle_worker ].

(** *** The transition relation *)

(** The ready channel of a process is closed, or may still be by a goroutine its
    runner has left behind. *)
Definition may_be_ready (c : Process Proc) : bool :=
  p_ready c || match p_proc c with Done _ late => late | _ => false end.

(** The steps below are the code's own; what timers, garden, the downloader and
    the uploader answer to a step without running parts is [answers]. *)
Section Transitions.
  Context (answers : Idle -> kind -> list StepOutput -> Proc -> Prop).

Inductive step : Proc -> kind -> list StepOutput -> Proc -> Prop :=
| step_idle i k out p : answers i k out p -> step (PIdle i) k out p
| step_part f p k out p' : step p k out p' -> k <> Signal -> step (PFrame f p) k out (PFrame f p')
| step_accept f f' k p out p' : step p Signal out p' -> frame_accept f = Some (f', k) -> step (PFrame f p) k out (PFrame f' p')
| step_frame f p k out q : frame_step p f k out q -> step (PFrame f p) k out q
| step_frame_exit f err late out err' : frame_exit f err out err' -> step (PFrame f (Done err late)) Tau out (Done err' late)
| step_process m b c out c' : child_step c out c' -> step (PMonitor m b c) Tau out (PMonitor m b c')
| step_monitor_signal m c : step (PMonitor m false c) Signal [] (PMonitor m true (send_signal c))
| step_monitor_exit m err late n r out p :
    monitor_exit (r || late) m err out p -> step (PMonitor m false (mkProcess (Done err late) n r)) Tau out p
| step_monitor_cancelled m err late n r :
    step (PMonitor m true (mkProcess (Done err late) n r)) Tau [] (Done (monitor_cancelled m err) ((r || late) && bool_decide (is_Some (monitor_ready m))))
| step_monitor_ready m m' b c : p_ready c = true -> monitor_ready m = Some m' -> step (PMonitor m b c) Ready [] (PMonitor m' b c)
| step_member g cs i c out c' : cs !! i = Some c -> child_step c out c' -> step (PGroup g cs) Tau out (PGroup g (<[i := c']> cs))
| step_group_signal g cs :
    g_signalled g = false ->
    step (PGroup g cs) Signal [] (PGroup (mkGroup (g_kind g) (g_aggregate g) true (g_ready g) (g_closed g)) (send_signal <$> cs))
| step_group_collect g g' cancels cs i err late n r :
    cs !! i = Some (mkProcess (Done err late) n r) -> group_collect g i err = Some (g', cancels) ->
    step (PGroup g cs) Tau [] (PGroup g' (if cancels : bool then send_signal <$> cs else cs))
| step_group_done g cs :
    group_collected g = length cs ->
    step (PGroup g cs) Tau [] (Done (ErrorOrNil (g_aggregate g)) (negb (g_closed g) && forallb may_be_ready cs))
| step_group_ready g cs c :
    cs !! g_ready g = Some c -> p_ready c = true ->
    step (PGroup g cs) Tau [] (PGroup (mkGroup (g_kind g) (g_aggregate g) (g_signalled g) (S (g_ready g)) (g_closed g)) cs)
| step_group_close g cs :
    g_ready g = length cs -> g_closed g = false ->
    step (PGroup g cs) Ready [] (PGroup (mkGroup (g_kind g) (g_aggregate g) (g_signalled g) (g_ready g) true) cs)
with child_step : Process Proc -> list StepOutput -> Process Proc -> Prop :=
| process_tau p out p' n r : step p Tau out p' -> child_step (mkProcess p n r) out (mkProcess p' n r)
| process_ready p out p' n r : step p Ready out p' -> child_step (mkProcess p n r) out (mkProcess p' n true)
| process_signal p out p' n r : step p Signal out p' -> child_step (mkProcess p (S n) r) out (mkProcess p' n r)
| process_late err n r : child_step (mkProcess (Done err true) n r) [] (mkProcess (Done err false) n true).
End Transitions.
