(* ===== verification/StepProps.v ===== *)
(** * Stopping and readiness of steps

    What a container's steps promise to the code that runs them: a step that has
    been signalled can always finish, whatever the processes in the container do,
    and it never crashes the executor, provided it has no timeout step and the
    liveness checks are there and do not end in success; a step is ready only
    after its health check has passed; groups return the errors of all parts.
    Timeout steps can block for ever, and a health check without checks crashes. *)
From Stdlib Require Import ZArith Lia.
From S2P Require Import Prelude GoStd Actions Executor StoreNode Steps.

(** ** Induction on steps and their states *)

Section StepInduction.
  Context (P : Step -> Prop).
  Context (HRun : forall r, P (SRun r)) (HDownload : forall m s, P (SDownload m s)) (HUpload : forall m s, P (SUpload m s)).
  Context (HEmit : forall s a b c st, P s -> P (SEmitProgress s a b c st)) (HTimeout : forall s t, P s -> P (STimeout s t)).
  Context (HTry : forall s, P s -> P (STry s)) (HParallel : forall l, Forall P l -> P (SParallel l)).
  Context (HCodependent : forall l a b, Forall P l -> P (SCodependent l a b)) (HSerial : forall l, Forall P l -> P (SSerial l)).
  Context (HTimed : forall o, from_option P True o -> P (STimed o)) (HBackground : forall s, P s -> P (SBackground s)).
  Context (HThrottle : forall s, P s -> P (SThrottle s)) (HConsistently : forall s f, P s -> P (SConsistentlySucceeds s f)).
  Context (HEventually : forall s f t, P s -> P (SEventuallySucceeds s f t)).
  Context (HHealth : forall s l a b, P s -> P l -> P (SHealthCheck s l a b)).
  Context (HReadiness : forall s f a, P s -> P f -> P (SReadinessHealthCheck s f a)).
  Context (HWrapper : forall s p, P s -> P (SOutputWrapper s p)).
  Context (HMetric : forall o a b, from_option P True o -> P (SEmitCheckFailureMetric o a b)).

Fixpoint Step_nested_ind (s : Step) : P s :=
  let all := fix all (l : list Step) : Forall P l :=
    match l with [] => Forall_nil_2 _ | s :: l => Forall_cons_2 _ _ _ (Step_nested_ind s) (all l) end in
  let opt := fun o : option Step =>
    match o return from_option P True o with Some s => Step_nested_ind s | None => I end in
  match s with
  | SRun r => HRun r
  | SDownload m st => HDownload m st
  | SUpload m st => HUpload m st
  | SEmitProgress s a b c st => HEmit s a b c st (Step_nested_ind s)
  | STimeout s t => HTimeout s t (Step_nested_ind s)
  | STry s => HTry s (Step_nested_ind s)
  | SParallel l => HParallel l (all l)
  | SCodependent l a b => HCodependent l a b (all l)
  | SSerial l => HSerial l (all l)
  | STimed o => HTimed o (opt o)
  | SBackground s => HBackground s (Step_nested_ind s)
  | SThrottle s => HThrottle s (Step_nested_ind s)
  | SConsistentlySucceeds s f => HConsistently s f (Step_nested_ind s)
  | SEventuallySucceeds s f t => HEventually s f t (Step_nested_ind s)
  | SHealthCheck s l a b => HHealth s l a b (Step_nested_ind s) (Step_nested_ind l)
  | SReadinessHealthCheck s f a => HReadiness s f a (Step_nested_ind s) (Step_nested_ind f)
  | SOutputWrapper s p => HWrapper s p (Step_nested_ind s)
  | SEmitCheckFailureMetric o a b => HMetric o a b (opt o)
  end.
End StepInduction.

Section ProcInduction.
  Context (P : Proc -> Prop).
  Context (HDone : forall err late, P (Done err late)) (HPanicked : P Panicked) (HIdle : forall i, P (PIdle i)).
  Context (HFrame : forall f p, P p -> P (PFrame f p)) (HMonitor : forall m b c, P (p_proc c) -> P (PMonitor m b c)).
  Context (HGroup : forall g cs, Forall (fun c => P (p_proc c)) cs -> P (PGroup g cs)).

Fixpoint Proc_nested_ind (p : Proc) : P p :=
  match p with
  | Done err late => HDone err late
  | Panicked => HPanicked
  | PIdle i => HIdle i
  | PFrame f p => HFrame f p (Proc_nested_ind p)
  | PMonitor m b c => HMonitor m b c (Proc_nested_ind (p_proc c))
  | PGroup g cs =>
      HGroup g cs ((fix all (cs : list (Process Proc)) : Forall (fun c => P (p_proc c)) cs :=
        match cs with
        | [] => Forall_nil_2 _
        | c :: cs => Forall_cons_2 _ _ _ (Proc_nested_ind (p_proc c)) (all cs)
        end) cs)
  end.
End ProcInduction.

Scheme step_minimality := Minimality for step Sort Prop
  with child_step_minimality := Minimality for child_step Sort Prop.
Combined Scheme step_child_ind from step_minimality, child_step_minimality.

(** ** Safe steps *)

(** What steps wait for without reading their signals, and whether they get it:
    a slot of the upload limiter and the file that garden streams out, and a
    worker for a throttled check. *)
Record Waits := mkWaits { w_uploads : bool; w_workers : bool }.

(** [never_zero] are the processes that do not end with status 0 by themselves;
    the health check's binary in its liveness mode is one. *)
Section Safe.
  Context (never_zero : RunSpec -> bool) (granted : Waits).

(** The step only ends with an error. *)
Fixpoint always_fails (s : Step) : bool :=
  match s with
  | SRun r => never_zero r
  | SOutputWrapper s _ => always_fails s
  | SEmitCheckFailureMetric (Some s) _ _ => always_fails s
  | SCodependent l _ _ => negb (bool_decide (length l = 0)) && forallb always_fails l
  | _ => false
  end.

(** A liveness check that does not end in success unless it is signalled. *)
Definition liveness_ok (s : Step) : bool :=
  match s with
  | SConsistentlySucceeds _ _ => true
  | s => always_fails s
  end.

(** No timeout steps, nothing that waits for what is not granted, and such a
    liveness check in every health check. *)
Fixpoint safe (s : Step) : bool :=
  match s with
  | SRun _ | SDownload _ _ => true
  | SUpload _ _ => w_uploads granted
  | STimeout _ _ => false
  | SThrottle s => w_workers granted && safe s
  | SEmitProgress s _ _ _ _ | STry s | SBackground s | SConsistentlySucceeds s _
  | SEventuallySucceeds s _ _ | SOutputWrapper s _ => safe s
  | SParallel l | SCodependent l _ _ | SSerial l => forallb safe l
  | STimed o | SEmitCheckFailureMetric o _ _ => match o with Some s => safe s | None => true end
  | SHealthCheck s l _ _ => safe s && safe l && liveness_ok l
  | SReadinessHealthCheck s f _ => safe s && safe f
  end.

(** ** The invariant *)

(** The errors steps return are never an empty [multierror]. *)
Definition proper (err : option StepError) : Prop := err <> Some (MultiError []).

(** [signalled] says that the step has had a signal. *)
Definition idle_inv (signalled : bool) (i : Idle) : Prop :=
  match i with
  | IRun _ ph => match ph with RTerminating | RKilled => signalled = true | _ => signalled = false end
  | IUpload _ _ (UUploading cancelled) => signalled = cancelled
  | IUpload _ _ _ => signalled = false /\ w_uploads granted = true
  | IDownload _ _ _ | ITimed => signalled = false
  | IThrottle s => signalled = false /\ w_workers granted = true /\ safe s = true
  | IEmitProgress s _ | IConsistently s _ _ | IEventually s _ _ _ => signalled = false /\ safe s = true
  | IHealthCheck s l _ _ => signalled = false /\ safe s = true /\ safe l = true /\ liveness_ok l = true
  | IHealthy l _ _ => signalled = false /\ safe l = true /\ liveness_ok l = true
  | IReadiness s f _ | ISendReadiness _ s f _ => signalled = false /\ safe s = true /\ safe f = true
  end.

Definition monitor_inv (m : Monitor) : Prop :=
  match m with
  | MSerial rest _ => forallb safe rest = true
  | MConsistently s _ | MEventually s _ _ => safe s = true
  | MStartup l _ _ => safe l = true /\ liveness_ok l = true
  | MUntilReady s f _ | MUntilFailure s f _ => safe s = true /\ safe f = true
  | MLiveness _ _ | MCheckMetric _ _ _ => True
  end.

Definition group_cancelled (g : Group) : bool :=
  match g_kind g with GCodependent _ _ _ cancelled => cancelled | GParallel _ => false end.

Definition group_inv (g : Group) (n : nat) : Prop :=
  match g_kind g with
  | GParallel next => next <= n
  | GCodependent _ _ collected _ => forall i, i ∈ collected -> i < n
  end.

Definition all_children (P : Process Proc -> Prop) (cs : list (Process Proc)) : Prop :=
  foldr (fun c rest => P c /\ rest) True cs.

(** States that only lead to an error. *)
Fixpoint failing (p : Proc) : Prop :=
  match p with
  | Done err _ => err <> None /\ proper err
  | PIdle (IRun r _) => never_zero r = true
  | PFrame (FOutputWrapper _) p => failing p
  | PMonitor (MCheckMetric _ _ _) _ c => failing (p_proc c)
  | PGroup g cs =>
      match g_kind g with
      | GCodependent _ _ _ _ => cs <> [] /\ (group_collected g = 0 \/ g_aggregate g <> []) /\
                                all_children (fun c => failing (p_proc c)) cs
      | GParallel _ => False
      end
  | _ => False
  end.

(** The states of a liveness check that has not been signalled. *)
Definition alive (p : Proc) : Prop :=
  failing p \/ match p with
               | PIdle (IConsistently _ _ _) | PMonitor (MConsistently _ _) false _ => True
               | _ => False
               end.

(** A part that is to stop has taken its signal, or still has one to take. *)
Fixpoint inv (signalled : bool) (p : Proc) {struct p} : Prop :=
  match p with
  | Done err _ => proper err
  | Panicked => False
  | PIdle i => idle_inv signalled i
  | PFrame f p =>
      match f with
      | FEmitProgress _ | FOutputWrapper _ => inv signalled p
      | FTimeout _ _ => False
      | FTry buffered cancelled => cancelled = signalled /\ (buffered = true -> signalled = true) /\ inv (signalled && negb buffered) p
      | FBackground | FTimed => signalled = false /\ inv false p
      end
  | PMonitor m cancelled c =>
      cancelled = signalled /\ monitor_inv m /\
      if signalled then inv true (p_proc c) \/ (0 < p_signals c /\ inv false (p_proc c))
      else p_signals c = 0 /\ inv false (p_proc c) /\ match m with MLiveness _ _ => alive (p_proc c) | _ => True end
  | PGroup g cs =>
      group_inv g (length cs) /\ g_signalled g = signalled /\
      if signalled || group_cancelled g
      then all_children (fun c => inv true (p_proc c) \/ (0 < p_signals c /\ inv false (p_proc c))) cs
      else all_children (fun c => p_signals c = 0 /\ inv false (p_proc c)) cs
  end.

Definition resting (c : Process Proc) : Prop := p_signals c = 0 /\ inv false (p_proc c).
Definition stopping (c : Process Proc) : Prop := inv true (p_proc c) \/ (0 < p_signals c /\ inv false (p_proc c)).
End Safe.

Lemma all_children_Forall (P : Process Proc -> Prop) (cs : list (Process Proc)) :
  all_children P cs <-> Forall P cs.
Proof. induction cs as [|c cs IH]; cbn; [done|]. by rewrite IH, Forall_cons. Qed.

Lemma proper_ErrorOrNil (aggregate : list StepError) : proper (ErrorOrNil aggregate).
Proof. by destruct aggregate. Qed.

Lemma proper_wrap_output (prefix : string) (e : StepError) (output : result string string) :
  proper (Some (wrap_output prefix e output)).
Proof. by destruct output. Qed.

Ltac solve_proper_error :=
  match goal with H : _ = (_, ?err) |- _ =>
    unfold process_exited, download_finished, upload_failed, upload_finished in H; by repeat case_match; simplify_eq
  end.

Lemma Append_not_nil (aggregate : list StepError) (e : StepError) : e <> MultiError [] -> Append aggregate e <> [].
Proof. intros He. destruct e as [| | | | |[|x l]|]; cbn; try done; intros [??]%app_nil; done. Qed.

(** What a step without running parts is answered. *)
Definition sound (never_zero : RunSpec -> bool) (answers : Idle -> kind -> list StepOutput -> Proc -> Prop) : Prop :=
  (forall i k out p, answers i k out p -> idle_step i k out p) /\
  (forall r ph k out late, never_zero r = true -> ~ answers (IRun r ph) k out (Done None late)).

Section Preservation.
  Context (never_zero : RunSpec -> bool) (granted : Waits) (answers : Idle -> kind -> list StepOutput -> Proc -> Prop).
  Context (Hsound : sound never_zero answers).

  #[local] Abbreviation inv := (inv never_zero granted).
  #[local] Abbreviation safe := (safe never_zero granted).
  #[local] Abbreviation failing := (failing never_zero).
  #[local] Abbreviation resting := (resting never_zero granted).
  #[local] Abbreviation stopping := (stopping never_zero granted).

Lemma all_children_start (f : Step -> bool) (Q : Proc -> Prop) (P : Process Proc -> Prop) (l : list Step) :
  Forall (fun s => f s = true -> Q (start s)) l -> forallb f l = true -> (forall s, Q (start s) -> P (spawn s)) ->
  all_children P ((fun s => mkProcess (start s) 0 false) <$> l).
Proof.
  intros H Hl HP. apply all_children_Forall, Forall_fmap. rewrite forallb_forall in Hl. rewrite Forall_forall in *.
  intros s Hin. apply HP, H, Hl; [done|]. by apply list_elem_of_In.
Qed.

Lemma failing_start (s : Step) : always_fails never_zero s = true -> failing (start s).
Proof.
  induction s using Step_nested_ind; cbn; try done.
  - intros [Hl Hs]%andb_prop. split; [|split; [by left|]].
    + destruct l; cbn in *; [done|done].
    + eapply all_children_start; [exact H|exact Hs|done].
  - destruct o as [s|]; cbn; [|done]. exact H.
Qed.

Lemma alive_start (s : Step) : liveness_ok never_zero s = true -> alive never_zero (start s).
Proof. destruct s; cbn [liveness_ok]; intros H; try (left; by apply failing_start). by right. Qed.

Lemma inv_start (s : Step) : safe s = true -> inv false (start s).
Proof.
  induction s using Step_nested_ind; cbn; rewrite ?andb_true_iff; try done; try tauto.
  - intros Hl. split; [cbn; lia|]. split; [done|]. eapply all_children_start; [exact H|exact Hl|done].
  - intros Hl. split; [cbn; set_solver|]. split; [done|]. eapply all_children_start; [exact H|exact Hl|done].
  - destruct l as [|s l]; cbn; rewrite ?andb_true_iff; [done|]. intros [Hs Hl]. inversion H; subst. eauto 7.
  - destruct o as [s|]; cbn in *; [|done]. eauto.
  - destruct o as [s|]; cbn in *; [|done]. eauto 7.
Qed.

(** *** A failing state stays one *)

Lemma failing_collect (g g' : Group) (i : nat) (err : option StepError) (cancels : bool) errorOnExit cancelOthers collected cancelled :
  g_kind g = GCodependent errorOnExit cancelOthers collected cancelled ->
  group_collect g i err = Some (g', cancels) -> err <> None -> proper err ->
  g_kind g' = GCodependent errorOnExit cancelOthers ({[i]} ∪ collected) true /\ g_aggregate g' <> [].
Proof.
  unfold group_collect. intros -> Hc Herr Hp. destruct err as [e|]; [|done].
  rewrite (bool_decide_false (Some e = None)), andb_false_r in Hc by done.
  rewrite (bool_decide_true (Some e <> None)) in Hc by done.
  case_bool_decide; [done|]. injection Hc as <- <-. cbn. split; [by destruct cancelled|]. apply Append_not_nil. intros ->. by apply Hp.
Qed.

Lemma failing_steps :
  (forall p k out p', step answers p k out p' -> failing p -> failing p') /\
  (forall c out c', child_step answers c out c' -> failing (p_proc c) -> failing (p_proc c')).
Proof.
  destruct Hsound as [Hidle Hzero]. apply step_child_ind; try done.
  - intros i k out p Ha Hf. destruct i; try done. pose proof (Hidle _ _ _ _ Ha) as Hi.
    idle_cases Hi; cbn; try done.
    match goal with H : process_exited _ _ _ _ _ = (_, ?e) |- _ =>
      split; [intros ->; by eapply Hzero|solve_proper_error] end.
  - intros f p k out p' _ IH _ Hf. destruct f; try done. by apply IH.
  - intros f f' k p out p' _ IH Ha Hf. destruct f; try done. cbn in Ha. simplify_eq. by apply IH.
  - intros f p k out q Hs Hf. destruct Hs; by cbn in Hf.
  - intros f err late out err' Hs Hf. destruct Hs; cbn in *; try (by destruct Hf). split; [done|apply proper_wrap_output].
  - intros m b c out c' _ IH Hf. destruct m; try done. by apply IH.
  - intros m err late n r out p Hs Hf. exit_cases Hs; cbn in *; try done.
  - intros m err late n r Hf. destruct m; cbn in *; try done.
  - intros m m' b c _ Hm Hf. destruct m as [| | | | | | |? ? []]; try done. by simplify_eq/=.
  - intros g cs i c out c' Hc _ IH. cbn. destruct (g_kind g) eqn:Hk; [done|]. intros (Hne & Hagg & Hall).
    rewrite all_children_Forall in *. split; [|split; [done|]].
    + intros Hn. apply Hne. apply (f_equal length) in Hn. rewrite length_insert in Hn. by destruct cs.
    + apply Forall_insert; [done|]. apply IH. by eapply Forall_lookup_1 in Hall.
  - intros g cs _. cbn. destruct (g_kind g) eqn:Hk; [done|]. intros (Hne & Hagg & Hall).
    rewrite all_children_Forall in *. split; [by destruct cs|]. split; [unfold group_collected in *; by rewrite Hk in Hagg|]. by apply Forall_fmap.
  - intros g g' cancels cs i err late n r Hc Hg. cbn. destruct (g_kind g) eqn:Hk; [done|]. intros (Hne & Hagg & Hall).
    rewrite all_children_Forall in *. pose proof (Forall_lookup_1 _ _ _ _ Hall Hc) as [He Hp]. 
    destruct (failing_collect _ _ _ _ _ _ _ _ _ Hk Hg He Hp) as [-> ?].
    split; [by destruct cancels, cs|]. split; [by right|]. rewrite all_children_Forall. destruct cancels; [|done]. by apply Forall_fmap.
  - intros g cs Hn. cbn. destruct (g_kind g) eqn:Hk; [done|]. intros (Hne & Hagg & Hall).
    destruct Hagg as [H0|Hagg]; [rewrite H0 in Hn; by destruct cs|]. split; [by destruct (g_aggregate g)|apply proper_ErrorOrNil].
Qed.

Lemma alive_step (p p' : Proc) (k : kind) (out : list StepOutput) :
  step answers p k out p' -> k <> Signal -> inv false p -> alive never_zero p -> alive never_zero p'.
Proof.
  intros Hs Hk Hinv [Hf|Hc]; [left; by eapply (proj1 failing_steps)|]. destruct p as [| |i| |m b c|]; try done.
  - destruct i; try done. inversion Hs as [? ? ? ? Ha| | | | | | | | | | | | | | |]; subst.
    apply (proj1 Hsound) in Ha. idle_cases Ha; try done; by right.
  - destruct m; try done. inversion Hs; subst; try done; [by right|].
    match goal with He : monitor_exit _ _ _ _ _ |- _ => exit_cases He end; [by right|]. left. cbn in *. split; [done|]. by destruct Hinv as (_ & _ & _ & ? & _).
Qed.

Lemma alive_child (c c' : Process Proc) (out : list StepOutput) :
  child_step answers c out c' -> resting c -> alive never_zero (p_proc c) -> alive never_zero (p_proc c').
Proof. intros Hs [H0 Hinv] Ha. destruct Hs; cbn in *; try done; by eapply alive_step. Qed.

(** *** The invariant is preserved *)

Definition after (signalled : bool) (k : kind) : bool := match k with Signal => true | _ => signalled end.

Lemma inv_spawn (m : Monitor) (s : Step) :
  monitor_inv never_zero granted m -> safe s = true -> match m with MLiveness _ _ => liveness_ok never_zero s = true | _ => True end ->
  inv false (PMonitor m false (spawn s)).
Proof.
  intros Hm Hs Hl. cbn. do 4 (split; [done || by apply inv_start|]). destruct m; try done. by apply alive_start.
Qed.

Lemma inv_idle (i : Idle) (k : kind) (out : list StepOutput) (p : Proc) (signalled : bool) :
  idle_step i k out p -> idle_inv never_zero granted signalled i -> inv (after signalled k) p.
Proof.
  intros Hs Hi. idle_cases Hs; cbn [idle_inv after] in Hi |- *; destruct_and?; subst; try done;
    try (by apply inv_start); try (by apply inv_spawn); try solve_proper_error.
  destruct isReady; by apply inv_spawn.
Qed.

Lemma inv_monitor_exit (r : bool) (m : Monitor) (err : option StepError) (out : list StepOutput) (p : Proc) :
  monitor_exit r m err out p -> monitor_inv never_zero granted m -> proper err ->
  match m with MLiveness _ _ => err <> None | _ => True end -> inv false p.
Proof.
  intros He Hm Hp Hl. exit_cases He; cbn in Hm; rewrite ?andb_true_iff in Hm; destruct_and?; try done; by apply inv_spawn.
Qed.

Lemma inv_group (signalled : bool) (g : Group) (cs : list (Process Proc)) :
  inv signalled (PGroup g cs) <->
  group_inv g (length cs) /\ g_signalled g = signalled /\
  Forall (if signalled || group_cancelled g then stopping else resting) cs.
Proof. cbn. destruct (signalled || group_cancelled g); by rewrite all_children_Forall. Qed.

Lemma inv_weaken (c : Process Proc) : resting c \/ stopping c -> stopping (send_signal c).
Proof. intros [[_ H]|[H|[_ H]]]; [right|left|right]; cbn; eauto with lia. Qed.

Lemma inv_collect (g g' : Group) (i n : nat) (err : option StepError) (cancels : bool) :
  group_collect g i err = Some (g', cancels) -> i < n -> group_inv g n ->
  group_inv g' n /\ g_signalled g' = g_signalled g /\ group_cancelled g' = group_cancelled g || cancels.
Proof.
  unfold group_collect, group_inv, group_cancelled. intros Hc Hi. destruct (g_kind g) as [next|a b collected cancelled].
  - destruct (Nat.eqb_spec i next); [|done]. intros Hn. simplify_eq/=. done.
  - case_bool_decide; [done|]. intros Hn. simplify_eq/=. split; [|done]. intros j [->%elem_of_singleton|?]%elem_of_union; [done|by apply Hn].
Qed.

Lemma inv_steps :
  (forall p k out p', step answers p k out p' -> forall signalled, inv signalled p -> inv (after signalled k) p') /\
  (forall c out c', child_step answers c out c' -> (resting c -> resting c') /\ (stopping c -> stopping c')).
Proof.
  apply step_child_ind.
  - intros i k out p Ha signalled Hi. apply (proj1 Hsound) in Ha. by eapply inv_idle.
  - intros f p k out p' _ IH Hk signalled Hf. destruct f, k; cbn in *; destruct_and?; split_and?; try done; by apply IH.
  - intros f f' k p out p' _ IH Ha signalled Hf.
    destruct f as [| |[] ?|[] ?| |]; cbn in Ha; simplify_eq; cbn in *; try done; try by eapply IH.
    destruct Hf as (-> & H & ?). rewrite H in * by done. cbn. split; [done|]. split; [done|]. by apply (IH false).
  - intros f p k out q Hs signalled Hf. destruct Hs; cbn in *; destruct_and?; by subst.
  - intros f err late out err' Hs signalled Hf. destruct Hs; cbn in *; destruct_and?; try done.
    apply proper_wrap_output.
  - intros m b c out c' Hs [IH1 IH2] signalled Hf. cbn in *. destruct Hf as (-> & ? & Hf).
    do 2 (split; [done|]). destruct signalled; [by apply IH2|]. destruct Hf as (H0 & Hi & Hl).
    destruct (IH1 (conj H0 Hi)) as [? ?]. do 2 (split; [done|]). destruct m; try done. by eapply alive_child.
  - intros m c signalled (<- & Hm & ? & ? & _). cbn. do 2 (split; [done|]). right. eauto with lia.
  - intros m err late n r out p He signalled (<- & Hm & _ & Hp & Hl). cbn in *. eapply inv_monitor_exit; try done.
    destruct m; try done. by destruct Hl as [[? _]|?].
  - intros m err late n r signalled (<- & Hm & H). cbn in *.
    assert (proper err) by (by destruct H as [?|[_ ?]]). by destruct m.
  - intros m m' b c _ Hm signalled (-> & H & ?). destruct m as [[] []| | | | | | |? ? []]; try done; by simplify_eq/=.
  - intros g cs i c out c' Hc _ [IH1 IH2] signalled. rewrite !inv_group, length_insert. intros (Hg & Hs & Hall). cbn.
    do 2 (split; [done|]). pose proof (Forall_lookup_1 _ _ _ _ Hall Hc). destruct (signalled || group_cancelled g);
      apply Forall_insert; eauto.
  - intros g cs Hs signalled. rewrite !inv_group, length_fmap. intros (Hg & _ & Hall). cbn.
    do 2 (split; [done|]). apply Forall_fmap. eapply Forall_impl; [exact Hall|]. intros c Hc. apply inv_weaken.
    destruct (signalled || group_cancelled g); eauto.
  - intros g g' cancels cs i err late n r Hc Hg signalled. rewrite !inv_group. intros (Hi & Hs & Hall). cbn [after].
    destruct (inv_collect _ _ _ (length cs) _ _ Hg) as (? & -> & ->); [by eapply lookup_lt_Some|done|].
    destruct cancels; rewrite ?orb_true_r, ?orb_false_r, ?length_fmap; [|done]. do 2 (split; [done|]).
    apply Forall_fmap. eapply Forall_impl; [exact Hall|]. intros c ?. apply inv_weaken.
    destruct (signalled || group_cancelled g); eauto.
  - intros g cs _ signalled _. apply proper_ErrorOrNil.
  - intros g cs c _ _ signalled. by rewrite !inv_group.
  - intros g cs _ _ signalled. by rewrite !inv_group.
  - intros p out p' n r _ IH. split; [intros [? H%IH]; by split|]. intros [H%IH|[? H%IH]]; [by left|by right].
  - intros p out p' n r _ IH. split; [intros [? H%IH]; by split|]. intros [H%IH|[? H%IH]]; [by left|by right].
  - intros p out p' n r _ IH. split; [by intros [? _]|]. intros [H%IH|[? H%IH]]; by left.
  - intros err n r. split; [done|]. intros [H|[? H]]; by left.
Qed.
End Preservation.

(** ** Progress *)

(** What happens to a step without the help of the container: a process that is
    not killed runs for ever, garden does not answer, nothing is downloaded, and
    nobody reads the readiness channel; uploads get a slot of the limiter and the
    file to upload, and throttled checks a worker, only when that is granted.  The
    step's own timers fire, a killed process may not even exit, and the uploader
    gives up when it is told to. *)
Section Unaided.
  Context (granted : Waits).

Definition unaided (i : Idle) (k : kind) (out : list StepOutput) (p : Proc) : Prop :=
  idle_step i k out p /\
  match i with
  | IRun _ RCreating | IRun _ RRunning | IDownload _ _ DLimiter | IDownload _ _ DPerforming
  | IUpload _ _ (UUploading false) | ISendReadiness _ _ _ _ => k = Signal
  | IUpload _ _ ULimiter | IUpload _ _ UPreparing => w_uploads granted = true
  | IThrottle _ => w_workers granted = true
  | IUpload _ _ (UUploading true) => p = fails CancelledError
  | IRun r RTerminating => p = PIdle (IRun r RKilled)
  | IRun _ RKilled => p = fails ExitTimeoutError
  | _ => True
  end.

Definition own (p p' : Proc) : Prop := exists k out, k <> Signal /\ step unaided p k out p'.
Definition child_own (c c' : Process Proc) : Prop := exists out, child_step unaided c out c'.

(** The step can end by itself; it can once it is signalled. *)
Definition ends (p : Proc) : Prop := exists err late, rtc own p (Done err late).
Definition stoppable (p : Proc) : Prop :=
  exists p1, rtc own p p1 /\
    ((exists err late, p1 = Done err late) \/ exists out p2, step unaided p1 Signal out p2 /\ ends p2).
Definition child_ends (c : Process Proc) : Prop :=
  exists err late n r, rtc child_own c (mkProcess (Done err late) n r).

Lemma own_tau (p p' : Proc) (out : list StepOutput) : step unaided p Tau out p' -> own p p'.
Proof. intros H. by exists Tau, out. Qed.

Lemma ends_own (p p' : Proc) : own p p' -> ends p' -> ends p.
Proof. intros H (err & late & Hr). exists err, late. by eapply rtc_l. Qed.

Lemma stoppable_own (p p' : Proc) : own p p' -> stoppable p' -> stoppable p.
Proof. intros H (p1 & Hr & Hp). exists p1. split; [by eapply rtc_l|done]. Qed.

Lemma stoppable_signal (p p' : Proc) (out : list StepOutput) : step unaided p Signal out p' -> ends p' -> stoppable p.
Proof. intros H He. exists p. split; [done|]. right. eauto. Qed.

Lemma ends_done (err : option StepError) (late : bool) : ends (Done err late).
Proof. by exists err, late. Qed.

Lemma stoppable_done (err : option StepError) (late : bool) : stoppable (Done err late).
Proof. exists (Done err late). split; [done|]. left. eauto. Qed.

Lemma frame_own (f : Frame) (p p' : Proc) : rtc own p p' -> rtc own (PFrame f p) (PFrame f p').
Proof. apply rtc_congruence. intros x y (k & out & Hk & Hs). exists k, out. split; [done|]. by constructor. Qed.

Lemma child_runs (p p' : Proc) (n : nat) (r : bool) :
  rtc own p p' -> exists r', rtc child_own (mkProcess p n r) (mkProcess p' n r').
Proof.
  intros H. revert r. induction H as [p|p q p' (k & out & Hk & Hs) _ IH]; intros r; [by exists r|].
  destruct k; [|done|].
  - destruct (IH r) as [r' ?]. exists r'. eapply rtc_l; [|done]. exists out. by constructor.
  - destruct (IH true) as [r' ?]. exists r'. eapply rtc_l; [|done]. exists out. by constructor.
Qed.

Lemma monitor_own (m : Monitor) (b : bool) (c c' : Process Proc) :
  rtc child_own c c' -> rtc own (PMonitor m b c) (PMonitor m b c').
Proof. apply (rtc_congruence (PMonitor m b)). intros x y (out & Hs). eapply own_tau. by constructor. Qed.

Lemma group_own (g : Group) (cs : list (Process Proc)) (i : nat) (c c' : Process Proc) :
  cs !! i = Some c -> rtc child_own c c' -> rtc own (PGroup g cs) (PGroup g (<[i := c']> cs)).
Proof.
  intros Hc H. revert cs Hc. induction H as [c|c d c' (out & Hs) _ IH]; intros cs Hc; [by rewrite list_insert_id|].
  eapply rtc_l; [eapply own_tau; by econstructor|]. rewrite <- (list_insert_insert_eq cs i c' d). apply IH.
  apply list_lookup_insert_eq. by eapply lookup_lt_Some.
Qed.

Lemma child_stops (c : Process Proc) : ends (p_proc c) \/ (0 < p_signals c /\ stoppable (p_proc c)) -> child_ends c.
Proof.
  destruct c as [p n r]. cbn. intros [(err & late & H)|[Hn (p1 & H & H1)]]; destruct (child_runs _ _ n r H) as [r' Hr].
  - by exists err, late, n, r'.
  - destruct H1 as [(err & late & ->)|(out & p2 & Hs & err & late & H2)]; [by exists err, late, n, r'|].
    destruct n as [|n]; [lia|]. destruct (child_runs _ _ n r' H2) as [r'' Hr'].
    exists err, late, n, r''. etrans; [exact Hr|]. eapply rtc_l; [|exact Hr']. exists out. by constructor.
Qed.

Lemma ends_frame (f : Frame) (p : Proc) :
  (forall err, exists out err', frame_exit f err out err') -> ends p -> ends (PFrame f p).
Proof.
  intros Hf (err & late & H). destruct (Hf err) as (out & err' & He). exists err', late.
  etrans; [by apply frame_own|]. apply rtc_once. eapply own_tau. by constructor.
Qed.

Lemma ends_pass (f : Frame) (p : Proc) : frame_accept f = Some (f, Signal) -> ends p -> ends (PFrame f p).
Proof.
  intros Hf. apply ends_frame. intros err. destruct f as [|pre|[]| []| |]; try done; [eauto using frame_exit|].
  destruct err as [e|]; [|eauto using frame_exit]. exists [], (Some (wrap_output pre e (Ok ""))). constructor.
Qed.

Lemma stoppable_pass (f : Frame) (p : Proc) : frame_accept f = Some (f, Signal) -> stoppable p -> stoppable (PFrame f p).
Proof.
  intros Hf (p1 & H & [(err & late & ->)|(out & p2 & Hs & He)]).
  - destruct (ends_pass f p Hf) as (err' & late' & H'); [by exists err, late|]. exists (Done err' late'). eauto.
  - exists (PFrame f p1). split; [by apply frame_own|]. right. exists out, (PFrame f p2). split; [by eapply step_accept|].
    by apply ends_pass.
Qed.

Lemma ends_try (b : bool) (p : Proc) : ends p -> ends (PFrame (FTry false b) p).
Proof. apply ends_frame. intros. eauto using frame_exit. Qed.

Lemma ends_try_buffered (b : bool) (p : Proc) : stoppable p -> ends (PFrame (FTry true b) p).
Proof.
  intros (p1 & H & [(err & late & ->)|(out & p2 & Hs & He)]).
  - apply ends_frame; [eauto using frame_exit|]. by exists err, late.
  - destruct (ends_try b p2 He) as (err & late & H2). exists err, late. etrans; [by apply frame_own|].
    eapply rtc_l; [|exact H2]. eapply own_tau. by eapply step_accept.
Qed.

Lemma ends_monitor (m : Monitor) (c : Process Proc) : child_ends c -> ends (PMonitor m true c).
Proof.
  intros (err & late & n & r & H). eexists _, _. etrans; [by apply monitor_own|]. apply rtc_once. eapply own_tau. constructor.
Qed.

Lemma stoppable_monitor (m : Monitor) (c : Process Proc) : stoppable (p_proc c) -> stoppable (PMonitor m false c).
Proof.
  intros H. eapply stoppable_signal; [constructor|]. apply ends_monitor, child_stops. right. cbn. split; [lia|done].
Qed.

(** *** Groups *)

Definition is_done (c : Process Proc) : Prop := match p_proc c with Done _ _ => True | _ => False end.

Lemma children_end (g : Group) (rest ended : list (Process Proc)) :
  Forall is_done ended -> Forall child_ends rest ->
  exists cs, length cs = length (ended ++ rest) /\ Forall is_done cs /\ rtc own (PGroup g (ended ++ rest)) (PGroup g cs).
Proof.
  revert ended. induction rest as [|c rest IH]; intros ended Hd Hr.
  - rewrite app_nil_r. by exists ended.
  - apply Forall_cons in Hr as [(err & late & n & r & Hc) Hr].
    destruct (IH (ended ++ [mkProcess (Done err late) n r])) as (cs & Hl & Hcs & H); [by apply Forall_app; repeat constructor|done|].
    exists cs. split; [rewrite Hl, !length_app; cbn; lia|]. split; [done|]. rewrite <- app_assoc in H. etrans; [|exact H].
    eapply (group_own g (ended ++ c :: rest) (length ended)) in Hc; [|by rewrite list_lookup_middle].
    by rewrite insert_app_r_alt, Nat.sub_diag in Hc by done.
Qed.

Lemma collected_le (g : Group) (n : nat) : group_inv g n -> group_collected g <= n.
Proof.
  unfold group_inv, group_collected. destruct (g_kind g) as [|? ? collected ?]; [done|]. intros H.
  rewrite <- (size_set_seq (C := gset nat) 0 n). apply subseteq_size. intros i Hi. apply elem_of_set_seq. split; [lia|]. by apply H.
Qed.

Lemma collect_next (g : Group) (n : nat) :
  group_inv g n -> group_collected g < n ->
  exists i, i < n /\ forall err, exists g' cancels, group_collect g i err = Some (g', cancels) /\ group_collected g' = S (group_collected g).
Proof.
  unfold group_inv, group_collected, group_collect. destruct (g_kind g) as [next|a b collected cancelled]; intros Hg Hn.
  - exists next. split; [done|]. intros err. rewrite Nat.eqb_refl. eauto.
  - assert (exists i, i < n /\ i ∉ collected) as (i & Hi & Hc).
    { destruct (decide (set_seq 0 n ⊆ collected)) as [Hs|Hs].
      - apply subseteq_size in Hs. rewrite size_set_seq in Hs. lia.
      - apply not_set_Forall_Exists in Hs as (i & [_ Hi]%elem_of_set_seq & Hc); [|apply _]. eauto. }
    exists i. split; [done|]. intros err. rewrite bool_decide_false by done. do 2 eexists. split; [done|]. cbn.
    rewrite size_union, size_singleton by set_solver. done.
Qed.

Lemma ends_collect (g : Group) (cs : list (Process Proc)) :
  group_inv g (length cs) -> Forall is_done cs -> ends (PGroup g cs).
Proof.
  intros Hg Hd. remember (length cs - group_collected g) as k eqn:Hk.
  revert g cs Hg Hd Hk. induction k as [|k IH]; intros g cs Hg Hd Hk; pose proof (collected_le _ _ Hg).
  - eexists _, _. apply rtc_once. eapply own_tau. apply step_group_done. lia.
  - destruct (collect_next g (length cs) Hg) as (i & Hi & Hc); [lia|].
    apply lookup_lt_is_Some_2 in Hi as [[p n r] Hp]. pose proof (Forall_lookup_1 _ _ _ _ Hd Hp) as Hdone.
    destruct p as [err late| | | | |]; try done. destruct (Hc err) as (g' & cancels & Hcol & Hn).
    eapply ends_own; [eapply own_tau; by eapply step_group_collect|].
    destruct (inv_collect g g' i (length cs) err cancels Hcol) as (Hg' & _ & _); [by eapply lookup_lt_Some|done|].
    apply IH; destruct cancels; rewrite ?length_fmap; try done; try lia. by apply Forall_fmap.
Qed.

Lemma ends_group (g : Group) (cs : list (Process Proc)) :
  group_inv g (length cs) -> Forall child_ends cs -> ends (PGroup g cs).
Proof.
  intros Hg Hc. destruct (children_end g cs [] (Forall_nil_2 _) Hc) as (cs' & Hl & Hd & H).
  destruct (ends_collect g cs') as (err & late & H'); [by rewrite Hl|done|]. exists err, late. by etrans.
Qed.

Lemma stoppable_group (g : Group) (cs : list (Process Proc)) :
  group_inv g (length cs) -> g_signalled g = false ->
  Forall (fun c => child_ends (send_signal c)) cs -> stoppable (PGroup g cs).
Proof.
  intros Hg Hs Hc. eapply stoppable_signal; [by constructor|]. apply ends_group; [by rewrite length_fmap|by apply Forall_fmap].
Qed.

(** *** All safe steps *)

Ltac idle_tau := eapply own_tau; apply step_idle; split; [idle_rule|done].
Ltac idle_ready := exists Ready; eexists; split; [done|]; apply step_idle; split; [idle_rule|done].
Ltac idle_signal := eapply stoppable_signal; [apply step_idle; split; [idle_rule; eauto|done]|].

Lemma upload_stoppable (model : UploadAction) (s : Streamer) (ph : UploadPhase) :
  match ph with
  | UUploading true => ends (PIdle (IUpload model s ph))
  | UUploading false => stoppable (PIdle (IUpload model s ph))
  | _ => w_uploads granted = true -> stoppable (PIdle (IUpload model s ph))
  end.
Proof.
  assert (Ht : ends (PIdle (IUpload model s (UUploading true)))).
  { eapply ends_own; [|apply (ends_done (Some CancelledError) false)]. eapply own_tau. apply step_idle. split; [|done].
    by apply idle_upload, (upload_done _ _ _ (Err "")). }
  assert (Hf : stoppable (PIdle (IUpload model s (UUploading false)))) by (by idle_signal).
  assert (Hp : w_uploads granted = true -> stoppable (PIdle (IUpload model s UPreparing))) by
    (intros Hw; eapply stoppable_own; [|exact Hf]; idle_tau).
  assert (Hl : w_uploads granted = true -> stoppable (PIdle (IUpload model s ULimiter))) by
    (intros Hw; eapply stoppable_own; [|by apply Hp]; idle_tau).
  destruct ph as [| | |[]]; try done. intros Hw. eapply stoppable_own; [|by apply Hl]. idle_ready.
Qed.

Lemma run_stops (r : RunSpec) (ph : RunPhase) :
  match ph with RTerminating | RKilled => ends (PIdle (IRun r ph)) | _ => stoppable (PIdle (IRun r ph)) end.
Proof.
  assert (Hk : ends (PIdle (IRun r RKilled))) by (eapply ends_own; [idle_tau|apply ends_done]).
  assert (Ht : ends (PIdle (IRun r RTerminating))) by (eapply ends_own; [|exact Hk]; idle_tau).
  destruct ph; try done; by (idle_signal; apply ends_done || done).
Qed.

Lemma simple_idle_stoppable (i : Idle) :
  match i with
  | IDownload _ _ _ | ITimed | IConsistently _ _ _ | IEventually _ _ _ _ | ISendReadiness _ _ _ _ => stoppable (PIdle i)
  | _ => True
  end.
Proof.
  destruct i; try done; try (by (idle_signal; apply ends_done)).
  - assert (Hl : stoppable (PIdle (IDownload model s DLimiter))) by (idle_signal; apply ends_done).
    destruct ph; [|done|idle_signal; apply ends_done]. eapply stoppable_own; [|exact Hl]. idle_ready.
  - eapply stoppable_own; [idle_tau|]. apply stoppable_done.
  - assert (Hl : stoppable (PIdle (IConsistently create frequency true))) by (idle_signal; apply ends_done).
    destruct ready; [done|]. eapply stoppable_own; [|exact Hl]. idle_ready.
  - assert (Hl : stoppable (PIdle (IEventually create frequency timeout true))) by (idle_signal; apply ends_done).
    destruct ready; [done|]. eapply stoppable_own; [|exact Hl]. idle_ready.
Qed.

Lemma stoppable_spawned (k : GroupKind) (l : list Step) :
  group_inv (new_group k) (length l) -> Forall (fun s => stoppable (start s)) l ->
  stoppable (PGroup (new_group k) ((fun s => mkProcess (start s) 0 false) <$> l)).
Proof.
  intros Hg Hl. apply stoppable_group; [by rewrite length_fmap|done|]. apply Forall_fmap. eapply Forall_impl; [exact Hl|].
  intros s Hs. apply child_stops. right. cbn. split; [lia|done].
Qed.

Section Stopping.
  Context (never_zero : RunSpec -> bool).

Lemma stoppable_start (s : Step) : safe never_zero granted s = true -> stoppable (start s).
Proof.
  induction s using Step_nested_ind; cbn [start safe]; rewrite ?andb_true_iff; intros Hs; try done.
  - apply (run_stops r RBefore).
  - apply (simple_idle_stoppable (IDownload m s DStart)).
  - by apply (upload_stoppable m s UStart).
  - eapply stoppable_own; [idle_tau|]. apply stoppable_pass; [done|auto].
  - eapply stoppable_signal; [apply step_frame; constructor|]. apply ends_try_buffered. auto.
  - apply stoppable_spawned; [cbn; lia|]. rewrite forallb_forall in Hs. rewrite Forall_forall in *.
    intros s Hin. apply H, Hs; [done|]. by apply list_elem_of_In.
  - apply stoppable_spawned; [cbn; set_solver|]. rewrite forallb_forall in Hs. rewrite Forall_forall in *.
    intros s Hin. apply H, Hs; [done|]. by apply list_elem_of_In.
  - destruct l as [|s l]; [apply stoppable_done|]. cbn in Hs. apply andb_prop in Hs as [Hs _].
    inversion H; subst. apply stoppable_monitor. auto.
  - destruct o as [s|]; [|apply (simple_idle_stoppable ITimed)].
    eapply stoppable_signal; [apply step_frame; constructor|]. apply ends_done.
  - eapply stoppable_signal; [apply step_frame; constructor|]. apply ends_done.
  - destruct Hs as [Hw Hs]. eapply stoppable_own; [idle_tau|]. auto.
  - apply (simple_idle_stoppable (IConsistently s f false)).
  - apply (simple_idle_stoppable (IEventually s f t false)).
  - eapply stoppable_own; [idle_tau|]. apply stoppable_monitor. apply IHs1, Hs.
  - eapply stoppable_own; [idle_ready|]. apply stoppable_monitor. apply IHs1, Hs.
  - apply stoppable_pass; [done|auto].
  - destruct o as [s|]; [|apply stoppable_done]. apply stoppable_monitor. auto.
Qed.

Definition can_stop (signalled : bool) (p : Proc) : Prop := if signalled then ends p else stoppable p.

Lemma can_stop_idle (signalled : bool) (i : Idle) : idle_inv never_zero granted signalled i -> can_stop signalled (PIdle i).
Proof.
  pose proof (simple_idle_stoppable i) as Hsimple. unfold can_stop.
  destruct i; cbn [idle_inv]; intros Hi.
  - pose proof (run_stops r ph). destruct ph; by subst.
  - by subst.
  - pose proof (upload_stoppable model s ph). destruct ph as [| | |[]]; destruct_and?; subst; auto.
  - destruct Hi as [-> Hs]. eapply stoppable_own; [idle_tau|]. apply stoppable_pass; [done|]. by apply stoppable_start.
  - by subst.
  - destruct Hi as (-> & Hw & Hs). eapply stoppable_own; [idle_tau|]. by apply stoppable_start.
  - by destruct Hi as [-> _].
  - by destruct Hi as [-> _].
  - destruct Hi as (-> & Hs & _). eapply stoppable_own; [idle_tau|]. apply stoppable_monitor. by apply stoppable_start.
  - destruct Hi as (-> & Hs & _). eapply stoppable_own; [idle_ready|]. apply stoppable_monitor. by apply stoppable_start.
  - destruct Hi as (-> & Hs & _). eapply stoppable_own; [idle_ready|]. apply stoppable_monitor. by apply stoppable_start.
  - by destruct Hi as [-> _].
Qed.

Lemma can_stop_inv (p : Proc) : forall signalled, inv never_zero granted signalled p -> can_stop signalled p.
Proof.
  induction p as [err late| |i|f p IH|m b c IH|g cs IH] using Proc_nested_ind; intros signalled Hi.
  - destruct signalled; [apply ends_done|apply stoppable_done].
  - done.
  - by apply can_stop_idle.
  - destruct f as [| | |buffered cancelled| |]; cbn in Hi; try done.
    + destruct signalled; [apply ends_pass|apply stoppable_pass]; by try apply (IH _ Hi).
    + destruct signalled; [apply ends_pass|apply stoppable_pass]; by try apply (IH _ Hi).
    + destruct Hi as (-> & Hb & Hi). destruct signalled.
      * destruct buffered; [apply ends_try_buffered, (IH _ Hi)|apply ends_try, (IH _ Hi)].
      * destruct buffered; [by discriminate Hb|]. eapply stoppable_signal; [apply step_frame; constructor|].
        apply ends_try_buffered, (IH _ Hi).
    + destruct Hi as [-> _]. eapply stoppable_signal; [apply step_frame; constructor|]. apply ends_done.
    + destruct Hi as [-> _]. eapply stoppable_signal; [apply step_frame; constructor|]. apply ends_done.
  - destruct Hi as (-> & _ & Hc). destruct signalled.
    + apply ends_monitor, child_stops. destruct Hc as [Hc|[Hn Hc]]; [left|right]; naive_solver.
    + apply stoppable_monitor. apply (IH false). by destruct Hc as (_ & ? & _).
  - apply inv_group in Hi as (Hg & Hs & Hc). destruct signalled.
    + apply ends_group; [done|]. rewrite Forall_forall in *. intros c Hin. apply child_stops.
      destruct (Hc c Hin) as [H|[Hn H]]; [left|right]; naive_solver.
    + apply stoppable_group; [done|done|]. rewrite Forall_forall in *. intros c Hin. apply child_stops. cbn.
      specialize (IH c Hin). specialize (Hc c Hin). cbn in Hc. destruct (group_cancelled g).
      * destruct Hc as [H|[Hn H]]; [left|right]; naive_solver eauto with lia.
      * right. split; [lia|]. apply (IH false), Hc.
Qed.
End Stopping.
End Unaided.

(** ** Runs *)

Abbreviation Trace := (list (kind * list StepOutput)).

Inductive steps (answers : Idle -> kind -> list StepOutput -> Proc -> Prop) (p : Proc) : Trace -> Proc -> Prop :=
| steps_nil : steps answers p [] p
| steps_snoc tr q k out q' : steps answers p tr q -> step answers q k out q' -> steps answers p (tr ++ [(k, out)]) q'.

Lemma steps_cons answers (p q r : Proc) (k : kind) (out : list StepOutput) (tr : Trace) :
  step answers p k out q -> steps answers q tr r -> steps answers p ((k, out) :: tr) r.
Proof.
  intros Hs. induction 1 as [|tr q' k' out' r _ IH Hs']; [apply (steps_snoc _ _ []) with (q := p); [constructor|done]|].
  rewrite app_comm_cons. by eapply steps_snoc.
Qed.

Lemma steps_app answers (p q r : Proc) (tr tr' : Trace) :
  steps answers p tr q -> steps answers q tr' r -> steps answers p (tr ++ tr') r.
Proof.
  intros H. induction 1 as [|tr' q' k' out' r _ IH Hs']; [by rewrite app_nil_r|]. rewrite app_assoc. by eapply steps_snoc.
Qed.

(** A panic of one part ends the executor. *)
Fixpoint crashed (p : Proc) : bool :=
  match p with
  | Done _ _ | PIdle _ => false
  | Panicked => true
  | PFrame _ p => crashed p
  | PMonitor _ _ c => crashed (p_proc c)
  | PGroup _ cs => existsb (fun c => crashed (p_proc c)) cs
  end.

Lemma inv_crashed (never_zero : RunSpec -> bool) (granted : Waits) (p : Proc) : forall signalled, inv never_zero granted signalled p -> crashed p = false.
Proof.
  induction p as [err late| |i|f p IH|m b c IH|g cs IH] using Proc_nested_ind; intros signalled Hi; try done.
  - destruct f; cbn in *; destruct_and?; naive_solver.
  - destruct Hi as (_ & _ & Hc). cbn. destruct signalled; naive_solver.
  - apply inv_group in Hi as (_ & _ & Hc). cbn. apply not_true_iff_false. rewrite existsb_exists. intros (c & Hin & Hcr).
    apply list_elem_of_In in Hin. rewrite Forall_forall in *. specialize (IH c Hin). specialize (Hc c Hin).
    destruct (signalled || group_cancelled g); [destruct Hc as [Hc|[_ Hc]]|destruct Hc as [_ Hc]]; apply IH in Hc; congruence.
Qed.

Definition signalled_in (tr : Trace) : bool := existsb (fun e => match e.1 with Signal => true | _ => false end) tr.

Lemma steps_inv (never_zero : RunSpec -> bool) (granted : Waits) answers (s : Step) (tr : Trace) (p : Proc) :
  sound never_zero answers -> safe never_zero granted s = true -> steps answers (start s) tr p -> inv never_zero granted (signalled_in tr) p.
Proof.
  intros Ha Hs. induction 1 as [|tr q k out q' _ IH Hstep]; [by eapply inv_start|].
  eapply (proj1 (inv_steps _ _ _ Ha)) in Hstep; [|exact IH]. unfold signalled_in in *. rewrite existsb_app. cbn.
  destruct k; cbn in Hstep |- *; by rewrite ?orb_true_r, ?orb_false_r.
Qed.

(** A container can always be stopped.  Take any step without timeout steps in
    which every health check has a liveness check that does not end in success,
    in which nothing waits for an upload or a worker unless that is granted, and any
    run of it: whatever garden, the container's processes, the downloader
    and the uploader answer, and whenever signals arrive.  Once a signal has been
    taken, the step can reach its end by its own moves and timers alone, with the
    processes in the container never exiting and garden never answering; before
    that, it can after one signal.  No signal is lost in any nesting of parallel,
    codependent, serial, try, throttled, background and health check steps. *)
Theorem signalled_step_stops (never_zero : RunSpec -> bool) (granted : Waits) answers (s : Step) (tr : Trace) (p : Proc) :
  sound never_zero answers -> safe never_zero granted s = true -> steps answers (start s) tr p ->
  if signalled_in tr then exists err late, rtc (own granted) p (Done err late) else stoppable granted p.
Proof.
  intros Ha Hs Hr. pose proof (can_stop_inv granted never_zero p _ (steps_inv _ _ _ _ _ _ Ha Hs Hr)) as H.
  unfold can_stop in H. by destruct (signalled_in tr).
Qed.

(** In any run of such a step no part panics, so that no container can take the
    executor down. *)
Theorem safe_step_never_panics (never_zero : RunSpec -> bool) (granted : Waits) answers (s : Step) (tr : Trace) (p : Proc) :
  sound never_zero answers -> safe never_zero granted s = true -> steps answers (start s) tr p -> crashed p = false.
Proof. intros Ha Hs Hr. by eapply inv_crashed, steps_inv. Qed.

(** *** What is excluded *)

Ltac one_step := eapply steps_snoc.

(** The states in which a timeout step waits for a part that reads no signals. *)
Definition blocked (p : Proc) : Prop :=
  exists t q, p = PFrame (FTimeout TExpired t) q /\
    match q with Done _ _ | PIdle (IRun _ RTerminating) | PIdle (IRun _ RKilled) => True | _ => False end.

Lemma blocked_step (p p' : Proc) (k : kind) (out : list StepOutput) : step idle_step p k out p' -> blocked p -> blocked p'.
Proof.
  intros Hs (t & q & -> & Hq). inversion Hs as [|? ? ? ? p1 H1|? ? ? ? ? p1 H1|? ? ? ? ? H1|? ? ? ? ? H1| | | | | | | | | | |]; subst.
  - exists t, p1. split; [done|]. destruct q as [| |i| | |]; try done; [inversion H1|]. inversion H1; subst.
    destruct i; try done. match goal with H : idle_step _ _ _ _ |- _ => idle_cases H end; done.
  - destruct q as [| |i| | |]; try done; [inversion H1|]. inversion H1; subst. destruct i as [? []| | | | | | | | | | |]; try done;
      match goal with H : idle_step _ _ _ _ |- _ => idle_cases H; naive_solver end.
  - inversion H1.
  - inversion H1.
Qed.

(** A timeout step can block for ever: a signal stops its process gracefully,
    and when the timeout passes during the graceful shutdown, the step tries to
    interrupt the process a second time, on a channel that nobody reads any more.
    From there no run ever ends, not even when the process exits. *)
Theorem timeout_step_blocks (r : RunSpec) (t : Z) :
  exists tr p, steps idle_step (start (STimeout (SRun r) t)) tr p /\ signalled_in tr = true /\
    forall tr' err late, ~ steps idle_step p tr' (Done err late).
Proof.
  eexists _, (PFrame (FTimeout TExpired t) (PIdle (IRun r RTerminating))). split; [|split].
  - one_step; [|apply step_frame; constructor]. one_step; [|apply (step_accept _ (FTimeout TForward t)); [apply step_idle, idle_run, run_signalled|done]].
    one_step; [|apply step_frame; constructor]. one_step; [|apply step_part; [apply step_idle, idle_run, run_created|done]].
    one_step; [|apply step_part; [apply step_idle, idle_run, run_create|done]]. constructor.
  - done.
  - intros tr' err late Hr.
    assert (blocked (Done err late)) as (? & ? & ? & _); [|done].
    remember (Done err late) as q eqn:Hq. clear Hq. induction Hr as [|? ? ? ? ? _ IH Hs]; [by repeat eexists|].
    by eapply blocked_step.
Qed.

(** A health check step without checks crashes the executor. *)
Lemma no_checks_panic (ls hs : Streamer) :
  exists tr, steps idle_step (start (SHealthCheck (SParallel []) (SCodependent [] false false) ls hs)) tr Panicked.
Proof.
  pose (g := new_group (GCodependent false false ∅ false)). pose (g' := new_group (GParallel 0)).
  eexists. one_step; [|apply (step_monitor_exit _ (MLiveness ls hs) None true 0 false), exit_health, liveness_nil].
  one_step; [|apply step_process, process_tau, (step_group_done _ g [] eq_refl)].
  one_step; [|apply step_idle, idle_health, (health_healthy (SCodependent [] false false))]. 
  one_step; [|apply (step_monitor_exit _ (MStartup (SCodependent [] false false) ls hs) None true 0 false), exit_health, startup_passed].
  one_step; [|apply step_process, process_tau, (step_group_done _ g' [] eq_refl)].
  one_step; [|apply step_idle, idle_health, (health_started (SParallel []))]. constructor.
Qed.
