(* ===== verification/StepResults.v ===== *)
(** * What steps return, and when they are ready

    Groups return the errors of all their parts, and only when all have ended; a
    serial step returns what its last part returned, all parts before it having
    succeeded; and a step that contains a health check is ready only after the
    container became healthy. *)
From Stdlib Require Import ZArith Lia.
From S2P Require Import Prelude GoStd Actions Executor StoreNode Steps StepProps.

#[global] Instance Streamer_eq_dec : EqDecision Streamer.
Proof. solve_decision. Defined.

(** ** Readiness *)

(** The step has a health check, writing to [ls], in a place that its own
    readiness waits for. *)
Fixpoint monitored (ls : Streamer) (s : Step) : bool :=
  match s with
  | SHealthCheck _ _ ls' _ => bool_decide (ls' = ls)
  | SParallel l | SCodependent l _ _ => existsb (monitored ls) l
  | SSerial l => (fix last l := match l with [] => false | [s] => monitored ls s | _ :: l => last l end) l
  | _ => false
  end.

Definition last_monitored (ls : Streamer) (l : list Step) : bool := monitored ls (SSerial l).

Definition becameHealthy (ls : Streamer) : StepOutput := Stdout ls ("Container became healthy" +:+ newline).

(** States in which the health check has not passed. *)
Fixpoint unready (ls : Streamer) (p : Proc) : Prop :=
  match p with
  | Done _ late => late = false
  | PIdle (IHealthCheck _ _ ls' _) | PMonitor (MStartup _ ls' _) _ _ => ls' = ls
  | PMonitor (MSerial rest closed) _ c =>
      closed = false /\ match rest with
                        | [] => p_ready c = false /\ unready ls (p_proc c)
                        | _ => last_monitored ls rest = true
                        end
  | PGroup g cs =>
      g_closed g = false /\
      (fix some n cs := match cs with
                        | [] => False
                        | c :: cs => (g_ready g <= n /\ p_ready c = false /\ unready ls (p_proc c)) \/ some (S n) cs
                        end) 0 cs
  | _ => False
  end.

Definition child_unready (ls : Streamer) (c : Process Proc) : Prop := p_ready c = false /\ unready ls (p_proc c).

Lemma unready_group (ls : Streamer) (g : Group) (cs : list (Process Proc)) :
  unready ls (PGroup g cs) <->
  g_closed g = false /\ exists i c, cs !! i = Some c /\ g_ready g <= i /\ child_unready ls c.
Proof.
  cbn. assert (H : forall n, (fix some n cs := match cs with
                        | [] => False
                        | c :: cs => (g_ready g <= n /\ p_ready c = false /\ unready ls (p_proc c)) \/ some (S n) cs
                        end) n cs <-> exists i c, cs !! i = Some c /\ g_ready g <= n + i /\ child_unready ls c).
  { induction cs as [|c cs IH]; intros n; [naive_solver|]. rewrite IH. clear IH. split.
    - intros [(? & ? & ?)|(i & c' & ? & ? & ?)]; [exists 0, c|exists (S i), c']; split_and?; try done; lia.
    - intros ([|i] & c' & Hc & Hn & Hu); [left|right].
      + injection Hc as ->. rewrite Nat.add_0_r in Hn. split; [done|exact Hu].
      + exists i, c'. split; [done|]. split; [lia|done]. }
  by rewrite H.
Qed.

Lemma unready_spawned (ls : Streamer) (k : GroupKind) (l : list Step) :
  Forall (fun s => monitored ls s = true -> unready ls (start s)) l -> existsb (monitored ls) l = true ->
  unready ls (PGroup (new_group k) ((fun s => mkProcess (start s) 0 false) <$> l)).
Proof.
  intros IH Hm. apply unready_group. split; [done|]. apply existsb_exists in Hm as (s & Hin & Hm).
  apply list_elem_of_In, list_elem_of_lookup in Hin as [i Hi]. exists i, (spawn s).
  rewrite list_lookup_fmap, Hi. split; [done|]. split; [cbn; lia|]. split; [done|].
  rewrite Forall_forall in IH. apply IH; [by eapply list_elem_of_lookup_2|done].
Qed.

Lemma unready_start (ls : Streamer) (s : Step) : monitored ls s = true -> unready ls (start s).
Proof.
  induction s as [| | | | | |l IH|l ? ? IH|l IH| | | | | |? ? ? ? _ _| | |] using Step_nested_ind; try done.
  - by apply unready_spawned.
  - by apply unready_spawned.
  - destruct l as [|s [|s' l]]; cbn [start monitored unready]; intros Hm; [done| |by split].
    inversion IH; subst. split; [done|]. cbn. auto.
  - cbn. by intros ?%bool_decide_eq_true.
Qed.

Section Readiness.
  Context (answers : Idle -> kind -> list StepOutput -> Proc -> Prop) (ls : Streamer).
  Context (Hidle : forall i k out p, answers i k out p -> idle_step i k out p).

(** An unready step does not close its ready channel, and stays unready until it
    reports that the container is healthy. *)
Lemma unready_steps :
  (forall p k out p', step answers p k out p' -> unready ls p ->
    k <> Ready /\ (becameHealthy ls ∈ out \/ unready ls p')) /\
  (forall c out c', child_step answers c out c' -> child_unready ls c -> becameHealthy ls ∈ out \/ child_unready ls c').
Proof.
  apply step_child_ind.
  - intros i k out p Ha Hu. destruct i; try done. apply Hidle in Ha. idle_cases Ha. split; [done|]. by right.
  - done.
  - done.
  - done.
  - done.
  - intros m b c out c' _ IH Hu. split; [done|]. destruct m as [rest closed| | |? ls' ?| | | |]; try done; [|by right].
    destruct Hu as [-> Hu]. destruct rest; [|by right]. destruct (IH Hu); [by left|by right].
  - intros m c Hu. split; [done|]. right. destruct m as [[] ?| | |? ls' ?| | | |]; try done. 
  - intros m err late n r out p He Hu. split; [done|]. exit_cases He; try done.
    + right. destruct Hu as [-> Hu]. destruct rest as [|s' rest]; [|by split]. split; [done|]. split; [done|]. by apply unready_start.
    + right. cbn in *. destruct Hu as (-> & -> & ->). done.
    + right. destruct Hu as [-> Hu]. destruct rest; [|done]. cbn in *. destruct Hu as [-> ->]. done.
    + left. cbn in Hu. subst. by apply list_elem_of_here.
    + by right.
  - intros m err late n r Hu. split; [done|]. right. destruct m as [[|s rest] ?| | |? ls' ?| | | |]; try done; cbn in *.
    + by destruct Hu as (-> & -> & ->).
    + by rewrite andb_false_r.
    + by rewrite andb_false_r.
  - intros m m' b c Hr Hm Hu. destruct m as [[] []| | |? ls' ?| | | |]; try done; cbn in *; destruct_and?; congruence.
  - intros g cs i c out c' Hc _ IH. rewrite !unready_group. intros (Hcl & j & d & Hd & Hj & Hu). split; [done|].
    destruct (decide (i = j)) as [->|Hne].
    + simplify_eq. destruct (IH Hu) as [?|?]; [by left|]. right. split; [done|]. exists j, c'.
      rewrite list_lookup_insert_eq by (by eapply lookup_lt_Some). done.
    + right. split; [done|]. exists j, d. by rewrite list_lookup_insert_ne.
  - intros g cs Hs. rewrite !unready_group. intros (Hcl & j & d & Hd & Hj & Hu). split; [done|]. right. split; [done|].
    exists j, (send_signal d). by rewrite list_lookup_fmap, Hd.
  - intros g g' cancels cs i err late n r Hc Hg. rewrite !unready_group. intros (Hcl & j & d & Hd & Hj & Hu). split; [done|]. right.
    assert (g_closed g' = g_closed g /\ g_ready g' = g_ready g) as [-> ->].
    { unfold group_collect in Hg. by repeat case_match; simplify_eq. }
    split; [done|]. destruct cancels; [|by exists j, d]. exists j, (send_signal d). by rewrite list_lookup_fmap, Hd.
  - intros g cs Hn. rewrite unready_group. intros (Hcl & j & d & Hd & Hj & Hr & Hu). split; [done|]. right. cbn.
    rewrite Hcl. cbn. apply not_true_iff_false. rewrite forallb_forall. intros Hall.
    assert (Hd' : may_be_ready d = true) by (by eapply Hall, list_elem_of_In, list_elem_of_lookup_2).
    unfold may_be_ready in Hd'. rewrite Hr in Hd'. destruct (p_proc d); try done. cbn in *. congruence.
  - intros g cs c Hc Hr. rewrite !unready_group. intros (Hcl & j & d & Hd & Hj & Hu). split; [done|]. right.
    split; [done|]. exists j, d. split; [done|]. split; [|done]. cbn. destruct (decide (g_ready g = j)) as [<-|?]; [|lia].
    simplify_eq. destruct Hu. congruence.
  - intros g cs Hr Hcl. rewrite !unready_group. intros (_ & j & d & Hd%lookup_lt_Some & Hj & Hu). lia.
  - intros p out p' n r _ IH [Hr Hu]. destruct (IH Hu) as [_ [?|?]]; [by left|by right].
  - intros p out p' n r _ IH [Hr Hu]. by destruct (IH Hu).
  - intros p out p' n r _ IH [Hr Hu]. destruct (IH Hu) as [_ [?|?]]; [by left|by right].
  - by intros err n r [? ?].
Qed.
End Readiness.

(** A container is never ready before it is healthy.  When a step has a health
    check in a place that its readiness waits for (the last part of a serial step,
    any part of a parallel or codependent step, at any depth), then in every run
    the ready channel is closed only after the line that the container became
    healthy has been written, also when the channel is closed by a goroutine that
    outlives the step. *)
Theorem ready_after_healthy answers (s : Step) (ls : Streamer) (tr : Trace) (p : Proc) :
  (forall i k out p, answers i k out p -> idle_step i k out p) ->
  monitored ls s = true -> steps answers (start s) tr p ->
  Ready ∈ (tr.*1) \/ (exists err, p = Done err true) ->
  exists before rest, tr = before ++ rest /\ Ready ∉ (before.*1) /\ becameHealthy ls ∈ concat (before.*2).
Proof.
  intros Ha Hm Hr Hready.
  assert (H : (exists before rest, tr = before ++ rest /\ Ready ∉ (before.*1) /\ becameHealthy ls ∈ concat (before.*2)) \/
              (Ready ∉ (tr.*1) /\ unready ls p)).
  { clear Hready. induction Hr as [|tr q k out q' Hr IH Hs]; [right; split; [set_solver|by apply unready_start]|].
    destruct IH as [(before & rest & -> & ?)|[Hn Hu]]; [left; exists before, (rest ++ [(k, out)]); by rewrite app_assoc|].
    destruct (proj1 (unready_steps answers ls Ha) _ _ _ _ Hs Hu) as [Hk [Hout|Hu']].
    - left. exists (tr ++ [(k, out)]), []. rewrite app_nil_r, !fmap_app, concat_app. cbn. set_solver.
    - right. rewrite fmap_app. set_solver. }
  destruct H as [?|[Hn Hu]]; [done|]. destruct Hready as [?|[err ->]]; done.
Qed.

(** ** Results *)

Section Results.
  Context (answers : Idle -> kind -> list StepOutput -> Proc -> Prop).

(** [s], run by itself, can get to [p], up to what it leaves behind. *)
Definition reaches (s : Step) (p : Proc) : Prop :=
  exists tr q, steps answers (start s) tr q /\
    match p, q with Done err _, Done err' _ => err = err' | _, _ => p = q end.

Definition returns (s : Step) (err : option StepError) : Prop := exists late, reaches s (Done err late).

Lemma reaches_start (s : Step) : reaches s (start s).
Proof. exists [], (start s). split; [constructor|]. by destruct (start s). Qed.

Lemma reaches_step (s : Step) (p p' : Proc) (k : kind) (out : list StepOutput) :
  reaches s p -> step answers p k out p' -> reaches s p'.
Proof.
  intros (tr & q & Hr & Hq) Hs. assert (p = q) as <- by (destruct p; try done; inversion Hs).
  exists (tr ++ [(k, out)]), p'. split; [by econstructor|]. by destruct p'.
Qed.

Lemma reaches_child (s : Step) (c c' : Process Proc) (out : list StepOutput) :
  reaches s (p_proc c) -> child_step answers c out c' -> reaches s (p_proc c').
Proof.
  intros Hr Hs. destruct Hs; cbn in *; try (by eapply reaches_step). destruct Hr as (tr & q & ? & ?). exists tr, q.
  split; [done|]. by destruct q.
Qed.

(** The result of part [i], as the group counts it. *)
Definition counted (k : GroupKind) (err : option StepError) : option StepError :=
  match k with
  | GCodependent true _ _ _ => Some (default CodependentStepExitedError err)
  | _ => err
  end.

Definition aggregate_all (k : GroupKind) (errs : list (option StepError)) : list StepError :=
  foldl (fun aggregate err => match counted k err with Some e => Append aggregate e | None => aggregate end) [] errs.

Definition collected_in (k : GroupKind) (order : list nat) : Prop :=
  match k with
  | GParallel next => order = seq 0 next
  | GCodependent _ _ collected _ => NoDup order /\ list_to_set order = collected
  end.

(** The parts run as they would alone; [order] are the parts collected so far. *)
Definition group_progress (l : list Step) (g : Group) (cs : list (Process Proc)) (order : list nat) (errs : list (option StepError)) : Prop :=
  Forall2 (fun s c => reaches s (p_proc c)) l cs /\ collected_in (g_kind g) order /\
  Forall2 (fun i err => exists c late, cs !! i = Some c /\ p_proc c = Done err late) order errs /\
  g_aggregate g = aggregate_all (g_kind g) errs.

Lemma aggregate_all_snoc (k : GroupKind) (errs : list (option StepError)) (err : option StepError) :
  aggregate_all k (errs ++ [err]) =
  match counted k err with Some e => Append (aggregate_all k errs) e | None => aggregate_all k errs end.
Proof. unfold aggregate_all. by rewrite foldl_app. Qed.

(** Only the kind's progress changes. *)
Definition same_kind (k k' : GroupKind) : Prop :=
  match k, k' with
  | GParallel _, GParallel _ => True
  | GCodependent a b _ _, GCodependent a' b' _ _ => a = a' /\ b = b'
  | _, _ => False
  end.

Lemma aggregate_all_same (k k' : GroupKind) (errs : list (option StepError)) :
  same_kind k k' -> aggregate_all k errs = aggregate_all k' errs.
Proof. destruct k as [|[] ?], k' as [|[] ?]; cbn; try done; by intros [? ?]. Qed.

Lemma collect_counts (g g' : Group) (i : nat) (err : option StepError) (cancels : bool) (order : list nat) :
  group_collect g i err = Some (g', cancels) -> collected_in (g_kind g) order ->
  collected_in (g_kind g') (order ++ [i]) /\ same_kind (g_kind g) (g_kind g') /\
  g_aggregate g' = match counted (g_kind g) err with Some e => Append (g_aggregate g) e | None => g_aggregate g end.
Proof.
  unfold group_collect. destruct (g_kind g) as [next|a b collected cancelled] eqn:Hk; intros Hg.
  - destruct (Nat.eqb_spec i next) as [->|]; [|done]. injection Hg as <- <-. cbn. intros ->. by rewrite <- seq_S.
  - case_bool_decide as Hi; [done|]. injection Hg as <- <-. cbn. intros [Hnd <-]. split; [|split; [done|]].
    + split; [|rewrite list_to_set_app_L; cbn; set_solver]. apply NoDup_app. split; [done|].
      split; [set_solver|apply NoDup_singleton].
    + destruct a, err as [e|]; cbn; try done; rewrite ?andb_false_r; by rewrite ?bool_decide_true by done.
Qed.

(** The parts may move, as long as those that have ended stay so. *)
Lemma group_progress_children l g cs cs' order errs :
  Forall2 (fun c c' => (forall s, reaches s (p_proc c) -> reaches s (p_proc c')) /\
                       forall err late, p_proc c = Done err late -> exists late', p_proc c' = Done err late') cs cs' ->
  group_progress l g cs order errs -> group_progress l g cs' order errs.
Proof.
  intros Hcs (Hl & Hc & Hd & Ha). split_and!; try done.
  - eapply Forall2_trans; [|exact Hl|exact Hcs]. cbn. intros s c c' ? [Hr _]. by apply Hr.
  - eapply Forall2_impl; [exact Hd|]. intros i err (c & late & Hi & Hp).
    destruct (Forall2_lookup_l _ _ _ _ _ Hcs Hi) as (c' & Hi' & _ & Hdone). destruct (Hdone _ _ Hp) as [late' ?]. eauto.
Qed.

Lemma send_signal_children (cs : list (Process Proc)) :
  Forall2 (fun c c' => (forall s, reaches s (p_proc c) -> reaches s (p_proc c')) /\
                       forall err late, p_proc c = Done err late -> exists late', p_proc c' = Done err late') cs (send_signal <$> cs).
Proof. apply Forall2_fmap_r, Forall_Forall2_diag, Forall_true. intros c. cbn. eauto. Qed.

Lemma member_children (cs : list (Process Proc)) (i : nat) (c c' : Process Proc) (out : list StepOutput) :
  cs !! i = Some c -> child_step answers c out c' ->
  Forall2 (fun c c' => (forall s, reaches s (p_proc c) -> reaches s (p_proc c')) /\
                       forall err late, p_proc c = Done err late -> exists late', p_proc c' = Done err late') cs (<[i := c']> cs).
Proof.
  intros Hi Hs. apply Forall2_same_length_lookup_2; [by rewrite length_insert|]. intros j d d' Hd.
  rewrite list_lookup_insert_Some. intros [(-> & <- & _)|[_ Hd']]; simplify_eq; [|eauto].
  split; [intros s Hr; by eapply reaches_child|]. intros err late Hp.
  destruct Hs as [p out p' n r Hs|p out p' n r Hs|p out p' n r Hs|err' n r]; cbn in *; subst; try (by inversion Hs).
  simplify_eq. eauto.
Qed.

Lemma group_progress_step l g cs order errs k out p' :
  step answers (PGroup g cs) k out p' -> group_progress l g cs order errs ->
  (exists g' cs' order' errs', p' = PGroup g' cs' /\ same_kind (g_kind g) (g_kind g') /\ group_progress l g' cs' order' errs') \/
  (exists late, p' = Done (ErrorOrNil (g_aggregate g)) late /\ group_collected g = length cs).
Proof.
  intros Hs Hp. assert (Hsame : same_kind (g_kind g) (g_kind g)) by (by destruct (g_kind g)).
  inversion Hs; subst; clear Hs; [left|left|left|right|left|left].
  - do 4 eexists. split; [done|]. split; [exact Hsame|]. eapply group_progress_children; [|exact Hp]. by eapply member_children.
  - do 4 eexists. split; [done|]. split; [exact Hsame|]. eapply group_progress_children; [apply send_signal_children|exact Hp].
  - destruct Hp as (Hl & Hc & Hd & Ha).
    match goal with H : group_collect _ _ _ = _ |- _ => destruct (collect_counts _ _ _ _ _ _ H Hc) as (Hc' & Hk & Ha') end.
    assert (Hg : group_progress l g' cs (order ++ [i]) (errs ++ [err])).
    { split_and!; try done; [apply Forall2_app; [done|]; constructor; [eauto|constructor]|].
      by rewrite Ha', <- (aggregate_all_same _ _ _ Hk), aggregate_all_snoc, <- Ha. }
    do 4 eexists. split; [done|]. split; [exact Hk|].
    destruct cancels; [|exact Hg]. eapply group_progress_children; [apply send_signal_children|exact Hg].
  - eauto.
  - do 4 eexists. split; [done|]. split; [exact Hsame|]. exact Hp.
  - do 4 eexists. split; [done|]. split; [exact Hsame|]. exact Hp.
Qed.

Lemma steps_group (l : list Step) (k : GroupKind) (tr : Trace) (p : Proc) :
  collected_in k [] ->
  steps answers (PGroup (new_group k) ((fun s => mkProcess (start s) 0 false) <$> l)) tr p ->
  (exists g cs order errs, p = PGroup g cs /\ same_kind k (g_kind g) /\ group_progress l g cs order errs) \/
  (exists g cs order errs late, p = Done (ErrorOrNil (g_aggregate g)) late /\ group_collected g = length cs /\
     same_kind k (g_kind g) /\ group_progress l g cs order errs).
Proof.
  intros Hk. induction 1 as [|tr q ki out q' _ IH Hs].
  - left. eexists _, _, [], []. split; [done|]. split; [by destruct k|]. split; [|by split].
    apply Forall2_fmap_r, Forall_Forall2_diag, Forall_true. intros s. apply reaches_start.
  - destruct IH as [(g & cs & order & errs & -> & Hkg & Hp)|(? & ? & ? & ? & ? & -> & _)]; [|by inversion Hs].
    destruct (group_progress_step _ _ _ _ _ _ _ _ Hs Hp) as [(g' & cs' & order' & errs' & -> & Hk' & Hp')|(late & -> & Hn)].
    + left. do 4 eexists. split; [done|]. split; [|exact Hp'].
      destruct k, (g_kind g), (g_kind g'); try done. cbn in *. destruct_and?. by subst.
    + right. by exists g, cs, order, errs, late.
Qed.

Lemma group_returns l g cs order errs :
  group_progress l g cs order errs ->
  Forall2 (fun i err => exists s, l !! i = Some s /\ returns s err) order errs.
Proof.
  intros (Hl & _ & Hd & _). eapply Forall2_impl; [exact Hd|]. intros i err (c & late & Hi & Hp).
  destruct (Forall2_lookup_r _ _ _ _ _ Hl Hi) as (s & Hs & Hr). rewrite Hp in Hr. exists s. split; [done|]. by exists late.
Qed.

Lemma group_order l g cs order errs :
  group_progress l g cs order errs -> group_collected g = length cs -> order ≡ₚ seq 0 (length l).
Proof.
  intros Hg Hn. pose proof (group_returns _ _ _ _ _ Hg) as Hret. destruct Hg as (Hl & Hc & _ & _).
  pose proof (Forall2_length _ _ _ Hl) as Hlen. unfold group_collected in Hn.
  destruct (g_kind g) as [next|a b collected cancelled]; cbn in Hc; [by subst; rewrite Hlen|].
  destruct Hc as [Hnd <-]. rewrite size_list_to_set in Hn by done. apply submseteq_length_Permutation.
  - apply NoDup_submseteq; [done|]. intros i [j Hj]%list_elem_of_lookup. apply elem_of_seq.
    destruct (Forall2_lookup_l _ _ _ _ _ Hret Hj) as (? & _ & s & Hs & _). apply lookup_lt_Some in Hs. lia.
  - rewrite length_seq. lia.
Qed.

(** A parallel step ends only when all its parts have ended, each as it could
    have by itself, and it returns their errors, all of them and in the order of
    the parts; it succeeds exactly when all parts do. *)
Theorem parallel_result (l : list Step) (tr : Trace) (err : option StepError) (late : bool) :
  steps answers (start (SParallel l)) tr (Done err late) ->
  exists errs, Forall2 returns l errs /\ err = ErrorOrNil (foldl Append [] (omap id errs)).
Proof.
  intros Hr. apply steps_group in Hr as [(? & ? & ? & ? & ? & _)|(g & cs & order & errs & late' & Hd & Hn & Hk & Hp)]; [done| |done].
  exists errs. pose proof (group_returns _ _ _ _ _ Hp) as Hret. pose proof (group_order _ _ _ _ _ Hp Hn) as Hperm.
  destruct Hp as (Hl & Hc & _ & Ha). destruct (g_kind g) as [next|]; [|done]. cbn in Hc. subst order.
  apply Permutation_length in Hperm. rewrite !length_seq in Hperm. subst next. split.
  - apply Forall2_same_length_lookup_2.
    { rewrite <- (Forall2_length _ _ _ Hret). by rewrite length_seq. }
    intros i s e Hs He. destruct (Forall2_lookup_r _ _ _ _ _ Hret He) as (j & Hj & s' & Hs' & Hret').
    apply lookup_seq in Hj as [-> _]. cbn in Hs'. by simplify_eq.
  - injection Hd as -> _. rewrite Ha. f_equal. unfold aggregate_all. generalize (@nil StepError). clear.
    induction errs as [|[e|] errs IH]; intros acc; cbn; [done| |]; apply IH.
Qed.

(** A codependent step ends only when all its parts have ended; it returns their
    errors in the order in which the parts ended, and where the step demands that
    its parts do not end, the success of a part counts as an error. *)
Theorem codependent_result (l : list Step) (errorOnExit cancelOthers : bool) (tr : Trace) (err : option StepError) (late : bool) :
  steps answers (start (SCodependent l errorOnExit cancelOthers)) tr (Done err late) ->
  exists order errs, order ≡ₚ seq 0 (length l) /\ Forall2 (fun i e => exists s, l !! i = Some s /\ returns s e) order errs /\
    err = ErrorOrNil (foldl Append [] (omap (fun e => if errorOnExit then Some (default CodependentStepExitedError e) else e) errs)).
Proof.
  intros Hr. apply steps_group in Hr as [(? & ? & ? & ? & ? & _)|(g & cs & order & errs & late' & Hd & Hn & Hk & Hp)]; [done| |split; [constructor|done]].
  exists order, errs. split; [by eapply group_order|]. split; [by eapply group_returns|].
  destruct Hp as (_ & _ & _ & Ha). injection Hd as -> _. rewrite Ha. f_equal.
  destruct (g_kind g) as [|a b collected cancelled]; [done|]. cbn in Hk. destruct Hk as [-> _].
  unfold aggregate_all. generalize (@nil StepError). clear.
  induction errs as [|e errs IH]; intros acc; cbn; [done|]. rewrite IH. by destruct a, e.
Qed.

(** A serial step: the parts before the one that runs have succeeded. *)
Definition serial_progress (l : list Step) (signalled : bool) (p : Proc) : Prop :=
  exists before s rest, l = before ++ s :: rest /\ Forall (fun s => returns s None) before /\
    match p with
    | PMonitor (MSerial rest' _) cancelled c => rest' = rest /\ cancelled = signalled /\ reaches s (p_proc c)
    | Done err _ => returns s err /\ (err = None -> rest = [] \/ signalled = true)
    | _ => False
    end.

Lemma serial_progress_step (l : list Step) (signalled : bool) (p p' : Proc) (k : kind) (out : list StepOutput) :
  step answers p k out p' -> serial_progress l signalled p -> serial_progress l (after signalled k) p'.
Proof.
  intros Hs (before & s & rest & -> & Hb & Hp). destruct p as [| | | |m cancelled c|]; try done; [inversion Hs|].
  destruct m as [rest' closed| | | | | | |]; try done. destruct Hp as (-> & -> & Hr). inversion Hs; subst; cbn [after].
  - exists before, s, rest. do 4 (split; [done|]). by eapply reaches_child.
  - by exists before, s, rest.
  - match goal with H : monitor_exit _ _ _ _ _ |- _ => exit_cases H end.
    + exists (before ++ [s]), s0, rest0. rewrite <- app_assoc. split; [done|]. rewrite Forall_app.
      split; [split; [done|]; constructor; [by exists late|constructor]|]. do 2 (split; [done|]). apply reaches_start.
    + exists before, s, []. do 2 (split; [done|]). split; [by exists late|]. by left.
    + exists before, s, rest. do 2 (split; [done|]). split; [by exists late|]. done.
  - exists before, s, rest. do 2 (split; [done|]). split; [by exists late|]. by right.
  - destruct rest as [|? ?], closed; try done. simplify_eq/=. by exists before, s, [].
Qed.

(** A serial step runs its parts one after the other: when it returns, all parts
    before some part have succeeded, and it returns what that part returned; it is
    the last part, unless it failed or a signal was taken. *)
Theorem serial_result (l : list Step) (tr : Trace) (err : option StepError) (late : bool) :
  l <> [] -> steps answers (start (SSerial l)) tr (Done err late) ->
  exists before s rest, l = before ++ s :: rest /\ Forall (fun s => returns s None) before /\ returns s err /\
    (err = None -> rest = [] \/ signalled_in tr = true).
Proof.
  intros Hl Hr. assert (H : serial_progress l (signalled_in tr) (Done err late)).
  { remember (Done err late) as p eqn:Hp. clear Hp. induction Hr as [|tr q k out q' _ IH Hs].
    - destruct l as [|s rest]; [done|]. exists [], s, rest. do 4 (split; [done|]). apply reaches_start.
    - apply (serial_progress_step _ _ _ _ _ _ Hs) in IH. unfold signalled_in in *. rewrite existsb_app. cbn.
      destruct k; cbn in IH |- *; by rewrite ?orb_true_r, ?orb_false_r. }
  destruct H as (before & s & rest & ? & ? & ? & ?). by exists before, s, rest.
Qed.
End Results.

Lemma codependent_cancelled answers (l : list Step) (errorOnExit cancelOthers : bool) (tr : Trace) (p : Proc) :
  steps answers (start (SCodependent l errorOnExit cancelOthers)) tr p ->
  match p with
  | PGroup g _ => match g_kind g with
                  | GCodependent _ _ _ cancelled => g_aggregate g = [] \/ cancelled = true
                  | GParallel _ => False
                  end
  | Done _ _ => True
  | _ => False
  end.
Proof.
  induction 1 as [|tr q k out q' _ IH Hs]; [by left|]. destruct q as [| | | | |g cs]; try done; [inversion Hs|].
  inversion Hs as [| | | | | | | | | | | |? g' cancels ? ? err ? ? ? ? Hg| | |]; subst; try done. unfold group_collect in Hg.
  destruct (g_kind g) as [next|a b collected cancelled]; [done|]. case_bool_decide; [done|]. injection Hg as <- <-.
  cbn. destruct cancelled; [by right|]. destruct IH as [IH|?]; [|done].
  destruct (if a && bool_decide (err = None) then Some CodependentStepExitedError else err) as [e|]; [|by left]. by right.
Qed.

(** When a part of a codependent step has failed, the others are told to stop:
    with no signal from outside, the step can end by the parts' own moves and
    timers alone.  One crash of the action, a sidecar or the monitor takes the
    whole container down. *)
Theorem codependent_failure_stops_all (never_zero : RunSpec -> bool) (granted : Waits) answers (l : list Step) (errorOnExit cancelOthers : bool)
    (tr : Trace) (g : Group) (cs : list (Process Proc)) :
  sound never_zero answers -> forallb (safe never_zero granted) l = true ->
  steps answers (start (SCodependent l errorOnExit cancelOthers)) tr (PGroup g cs) -> g_aggregate g <> [] ->
  exists err late, rtc (own granted) (PGroup g cs) (Done err late).
Proof.
  intros Ha Hs Hr Hagg. pose proof (steps_inv never_zero granted answers (SCodependent l errorOnExit cancelOthers) _ _ Ha Hs Hr) as Hi. apply inv_group in Hi as (Hg & _ & Hc).
  assert (Hcan : group_cancelled g = true).
  { apply codependent_cancelled in Hr. unfold group_cancelled. destruct (g_kind g); [done|]. by destruct Hr. }
  rewrite Hcan, orb_true_r in Hc. apply ends_group; [done|]. eapply Forall_impl; [exact Hc|]. intros c Hst. apply child_stops.
  destruct Hst as [H|[Hn H]]; apply can_stop_inv in H; eauto.
Qed.
