(* ===== verification/Transformer.v ===== *)
(** * From a container's actions to its steps

    [executor/depot/transformer]: the translation of the setup, the action, the
    sidecars, the monitor or the declarative health checks and the proxy of a
    container into one step, and what the translation guarantees: the action is
    run after the setup, and the container is ready when it is healthy. *)
From Stdlib Require Import ZArith Lia SpecFloat.
From S2P Require Import Prelude Float64 GoStd Actions Executor StoreNode Steps StepProps StepResults.
#[local] Open Scope go_scope.

(** ** The transformer *)

Record transformer := mkTransformer {
  t_sidecarRootFS : string;
  t_declarativeHealthCheckDefaultTimeout : Z;   (* durations, int64 nanoseconds *)
  t_emitHealthCheckMetrics : bool;
  t_healthyMonitoringInterval : Z;
  t_unhealthyMonitoringInterval : Z;
  t_gracefulShutdownInterval : Z;
  t_useContainerProxy : bool;
  t_drainWait : Z;
  t_enableContainerProxyHealthChecks : bool;
  t_proxyHealthCheckInterval : Z;
  t_postSetupHook : list string;
  t_postSetupUser : string }.

Inductive Option :=
| WithSidecarRootfs (sidecarRootFS : string)
| WithDeclarativeHealthChecks (timeout : Z)
| WithContainerProxy (drainWait : Z)
| WithProxyLivenessChecks (interval : Z)
| WithPostSetupHook (user : string) (hook : list string)
| WithDeclarativeHealthcheckFailureMetrics.

Definition DefaultDeclarativeHealthcheckRequestTimeout : Z := 1000.

Definition apply_option (t : transformer) (o : Option) : transformer :=
  let 'mkTransformer fs dt em h u g p dw ph pi hook user := t in
  match o with
  | WithSidecarRootfs fs => mkTransformer fs dt em h u g p dw ph pi hook user
  | WithDeclarativeHealthChecks timeout =>
      let timeout := if (timeout <=? 0)%Z then (DefaultDeclarativeHealthcheckRequestTimeout * Millisecond)%Z else timeout in
      mkTransformer fs timeout em h u g p dw ph pi hook user
  | WithContainerProxy drainWait => mkTransformer fs dt em h u g true drainWait ph pi hook user
  | WithProxyLivenessChecks interval => mkTransformer fs dt em h u g p dw true interval hook user
  | WithPostSetupHook user hook => mkTransformer fs dt em h u g p dw ph pi hook user
  | WithDeclarativeHealthcheckFailureMetrics => mkTransformer fs dt true h u g p dw ph pi hook user
  end.

Definition NewTransformer (healthy unhealthy graceful : Z) (opts : list Option) : transformer :=
  foldl apply_option (mkTransformer "" 0 false healthy unhealthy graceful false 0 false 0 [] "") opts.

(** The configuration of one call, and garden's container. *)
Record Config := mkConfig {
  cfg_ProxyTLSPorts : list Z;        (* uint16 *)
  cfg_BindMounts : list BindMount;
  cfg_Handle : string }.

(** ** Actions *)

Definition run_spec (t : transformer) (c : Container) (model : RunAction) (streamer : Streamer) (suppress : bool)
    (sidecar : SidecarSpec) : RunSpec :=
  {| rs_model := model; rs_streamer := streamer; rs_externalIP := ctr_ExternalIP c; rs_internalIP := ctr_InternalIP c;
     rs_internalIPv6 := ctr_InternalIPv6 c; rs_portMappings := ri_Ports (ctr_RunInfo c);
     rs_gracefulShutdownInterval := t_gracefulShutdownInterval t; rs_suppressExitStatusCode := suppress;
     rs_sidecar := sidecar |}.

Definition NewBufferStreamer : Streamer := BufferStreamer DefaultLogSource.

(** The steps of a list, unless one of them panics. *)
Definition all_steps {A} (f : A -> option Step) : list A -> option (list Step) :=
  fix all l := match l with
               | [] => Some []
               | a :: l => s ← f a; rest ← all l; Some (s :: rest)
               end.

(** [stepFor]; [None] is a panic, of a nil action or one without a value.  The
    buffers share their source name, which nothing reads. *)
Fixpoint stepFor (t : transformer) (c : Container) (suppress wrap : bool) (logStreamer : Streamer) (a : Action) {struct a}
    : option Step :=
  let sub (s : Streamer) (a : option Action) :=
    match a with Some a => stepFor t c suppress wrap s a | None => None end in
  let member (logSource : string) (a : option Action) :=
    if wrap then s ← sub NewBufferStreamer a; Some (SOutputWrapper s "")
    else sub (WithSource logStreamer logSource) a in
  match a with
  | ARun model => Some (SRun (run_spec t c model (WithSource logStreamer (ra_LogSource model)) suppress zeroSidecar))
  | ADownload model => Some (SDownload model (WithSource logStreamer (da_LogSource model)))
  | AUpload model => Some (SUpload model (WithSource logStreamer (ua_LogSource model)))
  | AEmitProgress a startMessage successMessage failureMessagePrefix logSource =>
      s ← sub logStreamer a;
      Some (SEmitProgress s startMessage successMessage failureMessagePrefix (WithSource logStreamer logSource))
  | ATimeout a logSource timeoutMs =>
      s ← sub (WithSource logStreamer logSource) a; Some (STimeout s (i64 (timeoutMs * Millisecond)))
  | ATry a logSource => s ← sub (WithSource logStreamer logSource) a; Some (STry s)
  | AParallel l logSource => l ← all_steps (member logSource) l; Some (SParallel l)
  | ACodependent l logSource => l ← all_steps (member logSource) l; Some (SCodependent l true false)
  | ASerial l _ => l ← all_steps (sub logStreamer) l; Some (SSerial l)
  | ANothing => None
  end.

Definition stepFor_nil (t : transformer) (c : Container) (suppress wrap : bool) (logStreamer : Streamer) (a : option Action)
    : option Step :=
  match a with Some a => stepFor t c suppress wrap logStreamer a | None => None end.

(** [overrideSuppressLogOutput] changes the action in place; [None] is the panic
    of a nil action. *)
Fixpoint overrideSuppressLogOutput (a : Action) : option Action :=
  let sub (a : option Action) := match a with Some a => Some <$> overrideSuppressLogOutput a | None => None end in
  let all := fix all (l : list (option Action)) :=
    match l with
    | [] => Some []
    | a :: l => a ← sub a; rest ← all l; Some (a :: rest)
    end in
  match a with
  | ARun r =>
      Some (ARun (mkRunAction (ra_Path r) (ra_Args r) (ra_Dir r) (ra_Env r) (ra_Nofile r) (ra_Nproc r) (ra_User r)
                    (ra_LogSource r) false (ra_VolumeMountedFiles r)))
  | ATry a ls => a ← sub a; Some (ATry a ls)
  | AParallel l ls => l ← all l; Some (AParallel l ls)
  | ASerial l ls => l ← all l; Some (ASerial l ls)
  | ACodependent l ls => l ← all l; Some (ACodependent l ls)
  | AEmitProgress a m1 m2 m3 ls => a ← sub a; Some (AEmitProgress a m1 m2 m3 ls)
  | ATimeout a ls t => a ← sub a; Some (ATimeout a ls t)
  | ADownload _ | AUpload _ | ANothing => Some a
  end.

(** ** Checks *)

Definition HealthLogSource : string := "HEALTH".
Definition healthCheckNofiles : Z := 1024.
Definition HealthCheckDstPath : string := "/etc/cf-assets/healthcheck".

(** [Check.Validate]: exactly one kind of check, with a port. *)
Definition check_port (ck : Check) : option Z :=
  match ck_HttpCheck ck, ck_TcpCheck ck with
  | Some _, Some _ => None
  | Some h, None => Some (hc_Port h)
  | None, Some tcp => Some (tc_Port tcp)
  | None, None => Some 0%Z
  end.
Definition check_valid (ck : Check) : bool :=
  match check_port ck with
  | Some port => ((0 <? port) && (port <=? 65535))%Z
  | None => false
  end.

Definition check_source (c : Container) : string :=
  match rw_CheckDefinition (ri_Work (ctr_RunInfo c)) with
  | Some def => if bool_decide (ckd_LogSource def = "") then HealthLogSource else ckd_LogSource def
  | None => HealthLogSource
  end.

Definition startTimeout (c : Container) : Z := i64 (rw_StartTimeoutMs (ri_Work (ctr_RunInfo c)) * Millisecond).

Definition check_args (c : Container) (path : string) (port timeout : Z) (protocol : CheckProtocol) (ty : HealthcheckType)
    (interval : Z) : list string :=
  ["-port=" +:+ pretty port; "-timeout=" +:+ pretty timeout +:+ "ms"] ++
  (if bool_decide (protocol = HTTPProtocol) then ["-uri=" +:+ path] else []) ++
  match ty with
  | IsStartupCheck => ["-startup-interval=" +:+ Duration_String interval;
                       "-startup-timeout=" +:+ Duration_String (startTimeout c)]
  | IsLivenessCheck => ["-liveness-interval=" +:+ Duration_String interval]
  | IsUntilSuccessReadinessCheck => ["-until-ready-interval=" +:+ Duration_String interval]
  | IsUntilFailureReadinessCheck => ["-readiness-interval=" +:+ Duration_String interval]
  end.

Definition check_run (t : transformer) (cfg : Config) (c : Container) (path sidecarName : string) (port timeout : Z)
    (protocol : CheckProtocol) (ty : HealthcheckType) (interval : Z) : RunSpec :=
  run_spec t c
    (mkRunAction (HealthCheckDstPath +:+ "/healthcheck") (check_args c path port timeout protocol ty interval) "" []
       (Some healthCheckNofiles) None "" (check_source c) false [])
    NewBufferStreamer true
    (mkSidecarSpec (t_sidecarRootFS t) sidecarName (cfg_BindMounts cfg) true).

Definition createCheck (t : transformer) (cfg : Config) (c : Container) (path sidecarName : string) (port timeout : Z)
    (protocol : CheckProtocol) (ty : HealthcheckType) (interval : Z) (prefix : string) (emitMetric : bool) : Step :=
  let wrapperStep := SOutputWrapper (SRun (check_run t cfg c path sidecarName port timeout protocol ty interval)) prefix in
  if emitMetric then SEmitCheckFailureMetric (Some wrapperStep) protocol ty else wrapperStep.

Definition applyCheckDefaults (t : transformer) (timeout interval : Z) (path : string) : Z * Z * string :=
  ((if (timeout <=? 0)%Z then (t_declarativeHealthCheckDefaultTimeout t ÷ Millisecond)%Z else timeout),
   (if (interval =? 0)%Z then t_healthyMonitoringInterval t else interval),
   (if bool_decide (path = "") then "/" else path)).

(** The protocol, port, timeout, interval and path of a valid check. *)
Definition check_settings (t : transformer) (ck : Check) : option (CheckProtocol * Z * Z * Z * string) :=
  if negb (check_valid ck) then None
  else match ck_HttpCheck ck, ck_TcpCheck ck with
       | Some h, _ =>
           let '(timeout, interval, path) :=
             applyCheckDefaults t (i64 (hc_RequestTimeoutMs h)) (i64 (i64 (hc_IntervalMs h) * Millisecond)) (hc_Path h) in
           Some (HTTPProtocol, hc_Port h, timeout, interval, path)
       | None, Some tcp =>
           let '(timeout, interval, _) :=
             applyCheckDefaults t (i64 (tc_ConnectTimeoutMs tcp)) (i64 (i64 (tc_IntervalMs tcp) * Millisecond)) "" in
           Some (TCPProtocol, tc_Port tcp, timeout, interval, "")
       | None, None => None
       end.

Definition sidecar_name (cfg : Config) (role : string) (index : nat) : string :=
  cfg_Handle cfg +:+ "-" +:+ role +:+ "-" +:+ pretty (Z.of_nat index).

Definition startupChecks (t : transformer) (cfg : Config) (c : Container) (checks : list Check) : list Step :=
  concat (imap (fun index ck =>
    match check_settings t ck with
    | Some (protocol, port, timeout, _, path) =>
        [createCheck t cfg c path (sidecar_name cfg "startup-healthcheck" index) port timeout protocol IsStartupCheck
           (t_unhealthyMonitoringInterval t) "" false]
    | None => []
    end) checks).

Definition livenessChecks (t : transformer) (cfg : Config) (c : Container) (checks : list Check) : list Step :=
  concat (imap (fun index ck =>
    match check_settings t ck with
    | Some (protocol, port, timeout, interval, path) =>
        [createCheck t cfg c path (sidecar_name cfg "liveness-healthcheck" index) port timeout protocol IsLivenessCheck
           interval "" (t_emitHealthCheckMetrics t)]
    | None => []
    end) checks).

Definition transformCheckDefinition (t : transformer) (cfg : Config) (c : Container) (logStreamer : Streamer)
    (proxyStartupChecks proxyLivenessChecks : list Step) (checks : list Check) : Step :=
  SHealthCheck (SParallel (proxyStartupChecks ++ startupChecks t cfg c checks))
    (SCodependent (livenessChecks t cfg c checks ++ proxyLivenessChecks) false false)
    logStreamer (WithSource logStreamer (check_source c)).

(** The readiness checks; the process that waits for a TCP check to succeed is
    named like the one that waits for it to fail. *)
Definition untilSuccessChecks (t : transformer) (cfg : Config) (c : Container) (checks : list Check) : list Step :=
  concat (imap (fun index ck =>
    match check_settings t ck with
    | Some (protocol, port, timeout, _, path) =>
        let role := if bool_decide (protocol = HTTPProtocol) then "until-ready-healthcheck" else "readiness-healthcheck" in
        [createCheck t cfg c path (sidecar_name cfg role index) port timeout protocol IsUntilSuccessReadinessCheck
           (t_unhealthyMonitoringInterval t) "" false]
    | None => []
    end) checks).

Definition untilFailureChecks (t : transformer) (cfg : Config) (c : Container) (checks : list Check) : list Step :=
  concat (imap (fun index ck =>
    match check_settings t ck with
    | Some (protocol, port, timeout, interval, path) =>
        [createCheck t cfg c path (sidecar_name cfg "readiness-healthcheck" index) port timeout protocol
           IsUntilFailureReadinessCheck interval "" false]
    | None => []
    end) checks).

Definition transformReadinessCheckDefinition (t : transformer) (cfg : Config) (c : Container) (logStreamer : Streamer)
    (checks : list Check) : result string Step :=
  match untilSuccessChecks t cfg c checks with
  | [] => Err "no-valid-readiness-checks"
  | successChecks =>
      Ok (SReadinessHealthCheck (SParallel successChecks) (SCodependent (untilFailureChecks t cfg c checks) true true)
            (WithSource logStreamer (check_source c)))
  end.

(** ** The proxy *)

(** [int(d.Seconds())]: the conversion of a float truncates. *)
Definition truncate (x : float64) : Z :=
  match x with
  | S754_finite s m e =>
      let v := (if 0 <=? e then Z.pos m * 2 ^ e else Z.pos m / 2 ^ (- e))%Z in
      if s then (- v)%Z else v
  | _ => 0%Z
  end.
Definition Seconds (d : Z) : float64 := fadd (of_int (d ÷ Second)) (fdiv (of_int (Z.rem d Second)) (of_int Second)).

Definition envoyRunAction (envoyArgs : list string) : RunAction :=
  mkRunAction "sh"
    ["-c"; "trap 'kill -9 0' TERM; /etc/cf-assets/envoy/envoy " +:+ join " " envoyArgs +:+ "& pid=$!; wait $pid"]
    "" [] None None "" "PROXY" false [].

Definition transformContainerProxyStep (t : transformer) (cfg : Config) (c : Container) (streamer : Streamer) : Step :=
  let envoyArgs := ["-c"; "/etc/cf-assets/envoy_config/envoy.yaml"; "--drain-time-s"; pretty (truncate (Seconds (t_drainWait t)));
                    "--log-level"; "critical"] in
  SBackground (SRun (run_spec t c (envoyRunAction envoyArgs) (WithSource streamer "PROXY") false
    (mkSidecarSpec (t_sidecarRootFS t) (cfg_Handle cfg +:+ "-envoy") (cfg_BindMounts cfg) false))).

Definition proxy_checks (t : transformer) (cfg : Config) (c : Container) (role : string) (ty : HealthcheckType) (interval : Z)
    (prefix : string) (emitMetric : bool) : list Step :=
  imap (fun idx port =>
    createCheck t cfg c "" (sidecar_name cfg role idx) port DefaultDeclarativeHealthcheckRequestTimeout TCPProtocol ty interval
      prefix emitMetric) (cfg_ProxyTLSPorts cfg).

Definition proxyStartupChecks (t : transformer) (cfg : Config) (c : Container) : list Step :=
  if t_useContainerProxy t then
    proxy_checks t cfg c "envoy-startup-healthcheck" IsStartupCheck (t_unhealthyMonitoringInterval t)
      "instance proxy failed to start" false
  else [].

Definition proxyLivenessChecks (t : transformer) (cfg : Config) (c : Container) : list Step :=
  if t_useContainerProxy t && t_enableContainerProxyHealthChecks t then
    proxy_checks t cfg c "envoy-liveness-healthcheck" IsLivenessCheck (t_proxyHealthCheckInterval t)
      "instance proxy health check failed" (t_emitHealthCheckMetrics t)
  else [].

(** ** The container's step *)

Definition NewMonitor (check : Step) (logStreamer : Streamer) (timeout healthyInterval unhealthyInterval : Z)
    (proxyStartupChecks : list Step) : Step :=
  let throttled := SThrottle check in
  SHealthCheck (SParallel (proxyStartupChecks ++ [SEventuallySucceeds throttled unhealthyInterval timeout]))
    (SConsistentlySucceeds throttled healthyInterval) logStreamer logStreamer.

Definition setup_step (t : transformer) (c : Container) (logStreamer : Streamer) : option Step :=
  match rw_Setup (ri_Work (ctr_RunInfo c)) with
  | Some a => s ← stepFor t c false false logStreamer a; Some (STimed (Some s))
  | None => Some (STimed None)
  end.

Definition post_setup (t : transformer) (c : Container) : list Step :=
  match t_postSetupHook t with
  | [] => []
  | path :: args =>
      [SRun (run_spec t c (mkRunAction path args "" [] None None (t_postSetupUser t) "" false []) NoopStreamer false zeroSidecar)]
  end.

(** The monitor and the readiness monitor.  The monitor's action is translated
    when the first check runs; its panic is counted here. *)
Definition monitors (t : transformer) (cfg : Config) (c : Container) (logStreamer : Streamer) : option (list Step * bool) :=
  let work := ri_Work (ctr_RunInfo c) in
  match rw_CheckDefinition work with
  | Some def =>
      let monitor := match ckd_Checks def with
                     | Some checks => [transformCheckDefinition t cfg c logStreamer (proxyStartupChecks t cfg c)
                                         (proxyLivenessChecks t cfg c) checks]
                     | None => []
                     end in
      match ckd_ReadinessChecks def with
      | Some checks =>
          match transformReadinessCheckDefinition t cfg c logStreamer checks with
          | Ok s => Some (monitor ++ [s], true)
          | Err _ => Some (monitor, false)
          end
      | None => Some (monitor, false)
      end
  | None =>
      match rw_Monitor work with
      | Some a =>
          a ← overrideSuppressLogOutput a;
          check ← stepFor t c true true logStreamer a;
          Some ([NewMonitor check logStreamer (startTimeout c) (t_healthyMonitoringInterval t)
                   (t_unhealthyMonitoringInterval t) (proxyStartupChecks t cfg c)], false)
      | None => Some ([], false)
      end
  end.

(** The action with its sidecars and monitors, and the proxy. *)
Definition long_lived (t : transformer) (cfg : Config) (c : Container) (logStreamer : Streamer) (action : Step)
    (sidecars monitors : list Step) : Step :=
  let substeps := action :: sidecars ++ monitors in
  let longLivedAction :=
    if 1 <? length substeps
    then SCodependent substeps false (0 <? length (rw_Sidecars (ri_Work (ctr_RunInfo c))))
    else action in
  if t_useContainerProxy t && ri_EnableContainerProxy (ctr_RunInfo c)
  then SCodependent [longLivedAction; transformContainerProxyStep t cfg c logStreamer] false true
  else longLivedAction.

(** [StepsRunner]: the step, and whether there is a readiness channel; [None] is a
    panic. *)
Definition StepsRunner (t : transformer) (cfg : Config) (c : Container) (logStreamer : Streamer)
    : option (result string (Step * bool)) :=
  let work := ri_Work (ctr_RunInfo c) in
  setup ← setup_step t c logStreamer;
  match rw_Action work with
  | None => Some (Err "container cannot have empty action")
  | Some a =>
      action ← stepFor t c false false logStreamer a;
      sidecars ← all_steps (fun sc => stepFor_nil t c false false logStreamer (sc_Action sc)) (rw_Sidecars work);
      m ← monitors t cfg c logStreamer;
      Some (Ok (SSerial ([setup] ++ post_setup t c ++ [long_lived t cfg c logStreamer action sidecars m.1]), m.2))
  end.
