(* ===== verification/TransformerProps.v ===== *)
(** * What a container's step guarantees

    The step that the transformer builds for a container, run by any interleaving:
    it can always be stopped, it is ready only when the container is healthy, its
    action runs after its setup, and the translation is defined on every action
    without nil parts. *)
From Stdlib Require Import ZArith Lia.
From S2P Require Import Prelude GoStd Actions Executor StoreNode Steps StepProps StepResults Transformer.

(** ** Induction on actions *)

Section ActionInduction.
  Context (P : Action -> Prop).
  Context (HDownload : forall d, P (ADownload d)) (HUpload : forall u, P (AUpload u)) (HRun : forall r, P (ARun r)).
  Context (HTimeout : forall a ls t, from_option P True a -> P (ATimeout a ls t)).
  Context (HEmit : forall a m1 m2 m3 ls, from_option P True a -> P (AEmitProgress a m1 m2 m3 ls)).
  Context (HTry : forall a ls, from_option P True a -> P (ATry a ls)).
  Context (HParallel : forall l ls, Forall (from_option P True) l -> P (AParallel l ls)).
  Context (HSerial : forall l ls, Forall (from_option P True) l -> P (ASerial l ls)).
  Context (HCodependent : forall l ls, Forall (from_option P True) l -> P (ACodependent l ls)).
  Context (HNothing : P ANothing).

Fixpoint Action_nested_ind (a : Action) : P a :=
  let opt := fun o : option Action => match o return from_option P True o with Some a => Action_nested_ind a | None => I end in
  let all := fix all (l : list (option Action)) : Forall (from_option P True) l :=
    match l with [] => Forall_nil_2 _ | o :: l => Forall_cons_2 _ _ _ (opt o) (all l) end in
  match a with
  | ADownload d => HDownload d
  | AUpload u => HUpload u
  | ARun r => HRun r
  | ATimeout a ls t => HTimeout a ls t (opt a)
  | AEmitProgress a m1 m2 m3 ls => HEmit a m1 m2 m3 ls (opt a)
  | ATry a ls => HTry a ls (opt a)
  | AParallel l ls => HParallel l ls (all l)
  | ASerial l ls => HSerial l ls (all l)
  | ACodependent l ls => HCodependent l ls (all l)
  | ANothing => HNothing
  end.
End ActionInduction.

(** A property of all parts of an action that are not nil; nil parts give [nil]. *)
Section ActionParts.
  Context (nil timeout nothing upload : bool).
Fixpoint all_parts (a : Action) : bool :=
  let part (a : option Action) := match a with Some a => all_parts a | None => nil end in
  match a with
  | ADownload _ | ARun _ => true
  | AUpload _ => upload
  | ATimeout a _ _ => timeout && part a
  | AEmitProgress a _ _ _ _ | ATry a _ => part a
  | AParallel l _ | ASerial l _ | ACodependent l _ => forallb part l
  | ANothing => nothing
  end.
End ActionParts.

(** No timeout actions, and uploads only if they are allowed; no nil actions and
    none without a value. *)
Definition timeout_free (uploads : bool) : Action -> bool := all_parts true false true uploads.
Definition complete_action : Action -> bool := all_parts false true false true.

(** ** The translation of actions *)

Lemma all_steps_Some {A} (f : A -> option Step) (l : list A) (ss : list Step) :
  all_steps f l = Some ss <-> Forall2 (fun a s => f a = Some s) l ss.
Proof.
  revert ss. induction l as [|a l IH]; intros ss; cbn.
  - split; [by intros [= <-]|]. by intros ->%Forall2_nil_inv_l.
  - rewrite bind_Some. setoid_rewrite bind_Some. split.
    + intros (s & Hs & rest & Hrest & [= <-]). constructor; [done|]. by apply IH.
    + intros (s & rest & Hs & Hrest & ->)%Forall2_cons_inv_l. exists s. split; [done|]. exists rest. split; [by apply IH|done].
Qed.

Lemma all_steps_defined {A} (f : A -> option Step) (l : list A) :
  is_Some (all_steps f l) <-> Forall (fun a => is_Some (f a)) l.
Proof.
  induction l as [|a l IH]; cbn; [done|]. rewrite Forall_cons, <- IH. destruct (f a) as [s|]; cbn.
  - destruct (all_steps f l); cbn; naive_solver.
  - split; [by intros [? ?]|by intros [[? ?] _]].
Qed.

Lemma forallb_Forall_iff {A} (f : A -> bool) (P : A -> Prop) (l : list A) :
  Forall (fun a => P a <-> f a = true) l -> Forall P l <-> forallb f l = true.
Proof. induction 1 as [|a l Ha _ IH]; cbn; [done|]. by rewrite Forall_cons, andb_true_iff, Ha, IH. Qed.

Lemma is_Some_bind {A B} (o : option A) (f : A -> B) : is_Some (x ← o; Some (f x)) <-> is_Some o.
Proof. destruct o; cbn; [naive_solver|]. split; by intros [? ?]. Qed.

Ltac part_case o IH := destruct o as [?|]; [apply IH|split; [by intros [? ?]|done]].

(** The translation of an action panics exactly when a part of the action is nil
    or has no value. *)
Theorem stepFor_panics_iff (t : transformer) (c : Container) (a : Action) : forall (suppress wrap : bool) (streamer : Streamer),
  is_Some (stepFor t c suppress wrap streamer a) <-> complete_action a = true.
Proof.
  induction a as [| | |a ls tm IH|a m1 m2 m3 ls IH|a ls IH|l ls IH|l ls IH|l ls IH|] using Action_nested_ind;
    intros suppress wrap streamer; cbn; try (split; [done|intros _; eexists; reflexivity]); rewrite ?is_Some_bind.
  - part_case a IH.
  - part_case a IH.
  - part_case a IH.
  - rewrite all_steps_defined. apply forallb_Forall_iff. eapply Forall_impl; [exact IH|]. intros o Ho.
    destruct wrap; rewrite ?is_Some_bind; part_case o Ho.
  - rewrite all_steps_defined. apply forallb_Forall_iff. eapply Forall_impl; [exact IH|]. intros o Ho. part_case o Ho.
  - rewrite all_steps_defined. apply forallb_Forall_iff. eapply Forall_impl; [exact IH|]. intros o Ho.
    destruct wrap; rewrite ?is_Some_bind; part_case o Ho.
  - split; [by intros [? ?]|done].
Qed.

Lemma members_safe {A} (never_zero : RunSpec -> bool) (granted : Waits) (part : A -> bool) (f : A -> option Step) (l : list A) (ss : list Step) :
  Forall (fun a => forall s, part a = true -> f a = Some s -> safe never_zero granted s = true) l ->
  forallb part l = true -> all_steps f l = Some ss -> forallb (safe never_zero granted) ss = true.
Proof.
  intros IH Hp Hs. apply all_steps_Some in Hs. revert Hp. induction Hs as [|a s l ss Ha _ IHs]; cbn; [done|].
  apply Forall_cons in IH as [Hsafe IH]. rewrite !andb_true_iff. intros [? ?]. split; [by apply Hsafe|by apply IHs].
Qed.

(** Without timeout actions the steps are safe. *)
Lemma stepFor_safe (never_zero : RunSpec -> bool) (granted : Waits) (t : transformer) (c : Container) (a : Action) :
  forall (suppress wrap : bool) (streamer : Streamer) (s : Step),
  timeout_free (w_uploads granted) a = true -> stepFor t c suppress wrap streamer a = Some s -> safe never_zero granted s = true.
Proof.
  induction a as [| | |a ls tm IH|a m1 m2 m3 ls IH|a ls IH|l ls IH|l ls IH|l ls IH|] using Action_nested_ind;
    intros suppress wrap streamer s Ht Hs; cbn in Hs; try (by injection Hs as <-); try done;
    apply bind_Some in Hs as (s' & Hs & [= <-]); cbn [safe].
  - destruct a as [a|]; [eapply IH; [exact Ht|exact Hs]|done].
  - destruct a as [a|]; [eapply IH; [exact Ht|exact Hs]|done].
  - eapply members_safe; [|exact Ht|exact Hs]. eapply Forall_impl; [exact IH|]. intros [a|] Ho s Ha; cbn in *.
    + destruct wrap; [|by apply Ho]. intros (s0 & Hs0 & [= <-])%bind_Some. cbn [safe]. eapply Ho; [exact Ha|exact Hs0].
    + by destruct wrap.
  - eapply members_safe; [|exact Ht|exact Hs]. eapply Forall_impl; [exact IH|]. intros [a|] Ho s Ha; cbn in *; [by apply Ho|done].
  - eapply members_safe; [|exact Ht|exact Hs]. eapply Forall_impl; [exact IH|]. intros [a|] Ho s Ha; cbn in *.
    + destruct wrap; [|by apply Ho]. intros (s0 & Hs0 & [= <-])%bind_Some. cbn [safe]. eapply Ho; [exact Ha|exact Hs0].
    + by destruct wrap.
Qed.

(** [overrideSuppressLogOutput] of a list of parts. *)
Lemma override_list (uploads : bool) (l l' : list (option Action)) (part : option Action -> bool) :
  Forall (from_option (fun a => forall a', overrideSuppressLogOutput a = Some a' -> timeout_free uploads a' = timeout_free uploads a) True) l ->
  (forall a, part (Some a) = timeout_free uploads a) ->
  (fix all l := match l with
                | [] => Some []
                | a :: l => a ← match a with Some a => Some <$> overrideSuppressLogOutput a | None => None end;
                            rest ← all l; Some (a :: rest)
                end) l = Some l' ->
  forallb part l' = forallb part l.
Proof.
  intros IH Hp. revert l'. induction IH as [|o l Ho _ IH]; intros l' Hl; [by injection Hl as <-|].
  apply bind_Some in Hl as (o' & Ho' & Hl). apply bind_Some in Hl as (rest & Hrest & [= <-]). cbn.
  destruct o as [a|]; [|done]. apply fmap_Some in Ho' as (a' & Ha & ->). by rewrite !Hp, (Ho _ Ha), (IH _ Hrest).
Qed.

Lemma override_timeout_free (uploads : bool) (a a' : Action) :
  overrideSuppressLogOutput a = Some a' -> timeout_free uploads a' = timeout_free uploads a.
Proof.
  revert a'. induction a as [| | |a ls tm IH|a m1 m2 m3 ls IH|a ls IH|l ls IH|l ls IH|l ls IH|] using Action_nested_ind;
    intros a' Ha; cbn in Ha; try (by injection Ha as <-); apply bind_Some in Ha as (x & Hx & [= <-]); cbn; try done.
  - destruct a as [a|]; [|done]. apply fmap_Some in Hx as (b & Hb & ->). by apply IH.
  - destruct a as [a|]; [|done]. apply fmap_Some in Hx as (b & Hb & ->). by apply IH.
  - by eapply override_list.
  - by eapply override_list.
  - by eapply override_list.
Qed.

(** ** The container's step is safe *)

(** The health check's binary, asked to run until the check fails. *)
Definition is_liveness (r : RunSpec) : bool :=
  bool_decide (ra_Path (rs_model r) = HealthCheckDstPath +:+ "/healthcheck") &&
  existsb (fun arg => String.eqb (String.substring 0 19 arg) "-liveness-interval=") (ra_Args (rs_model r)).

(** No timeout actions in what the container runs; no uploads, and no monitor
    action, whose runs are throttled, unless what they wait for is granted. *)
Definition container_timeout_free (granted : Waits) (c : Container) : bool :=
  let work := ri_Work (ctr_RunInfo c) in
  let part (a : option Action) := match a with Some a => timeout_free (w_uploads granted) a | None => true end in
  part (rw_Setup work) && part (rw_Action work) && part (rw_Monitor work) &&
  forallb (fun sc => part (sc_Action sc)) (rw_Sidecars work) &&
  (w_workers granted || bool_decide (rw_Monitor work = None) || bool_decide (rw_CheckDefinition work <> None)).

(** A declared list of checks has a valid one, or the proxy is checked. *)
Definition watched (t : transformer) (cfg : Config) (c : Container) : bool :=
  match rw_CheckDefinition (ri_Work (ctr_RunInfo c)) with
  | Some (mkCheckDefinition (Some checks) _ _) =>
      existsb check_valid checks ||
      (t_useContainerProxy t && t_enableContainerProxyHealthChecks t && negb (bool_decide (length (cfg_ProxyTLSPorts cfg) = 0)))
  | _ => true
  end.

Lemma Forall_concat_imap {A B} (P : B -> Prop) (f : nat -> A -> list B) (l : list A) :
  (forall i x, Forall P (f i x)) -> Forall P (concat (imap f l)).
Proof.
  revert f. induction l as [|x l IH]; intros f Hf; cbn; [constructor|]. apply Forall_app. split; [apply Hf|]. apply IH. intros i. apply Hf.
Qed.

Lemma Forall_imap {A B} (P : B -> Prop) (f : nat -> A -> B) (l : list A) : (forall i x, P (f i x)) -> Forall P (imap f l).
Proof. revert f. induction l as [|x l IH]; intros f Hf; cbn; constructor; [apply Hf|]. apply IH. intros i. apply Hf. Qed.

Lemma concat_imap_not_nil {A B} (p : A -> bool) (f : nat -> A -> list B) (l : list A) :
  (forall i x, p x = true -> f i x <> []) -> existsb p l = true -> concat (imap f l) <> [].
Proof.
  revert f. induction l as [|x l IH]; intros f Hf; cbn; [done|]. intros [Hx|Hl]%orb_prop [H1 H2]%app_nil; [by apply (Hf 0 x Hx)|].
  apply (IH (f ∘ S)); [|done|done]. intros i. apply Hf.
Qed.

Lemma check_settings_valid (t : transformer) (ck : Check) : check_valid ck = true -> is_Some (check_settings t ck).
Proof.
  unfold check_settings. intros Hv. rewrite Hv. cbn. destruct ck as [[tcp|] [h|]]; cbn; try (eexists; reflexivity). done.
Qed.

Section CheckSteps.
  Context (granted : Waits) (t : transformer) (cfg : Config) (c : Container).

Lemma createCheck_safe path name port timeout protocol ty interval pre emit :
  safe is_liveness granted (createCheck t cfg c path name port timeout protocol ty interval pre emit) = true.
Proof. by destruct emit. Qed.

Lemma createCheck_liveness path name port timeout protocol interval pre emit :
  always_fails is_liveness (createCheck t cfg c path name port timeout protocol IsLivenessCheck interval pre emit) = true.
Proof.
  assert (H : is_liveness (check_run t cfg c path name port timeout protocol IsLivenessCheck interval) = true).
  { unfold is_liveness. rewrite bool_decide_true by done. cbn [andb]. apply existsb_exists.
    exists ("-liveness-interval=" +:+ Duration_String interval). split; [|by destruct (Duration_String interval)]. apply list_elem_of_In. cbn -[elem_of].
    do 2 right. apply elem_of_app. right. by apply list_elem_of_here. }
  by destruct emit.
Qed.

Abbreviation all_safe l := (Forall (fun s => safe is_liveness granted s = true) l).
Abbreviation all_fail l := (Forall (fun s => always_fails is_liveness s = true) l).

Ltac check_steps := apply Forall_concat_imap; intros i ck; destruct (check_settings t ck) as [[[[[? ?] ?] ?] ?]|]; repeat constructor;
  apply createCheck_safe || apply createCheck_liveness.

Lemma checks_safe (checks : list Check) :
  all_safe (startupChecks t cfg c checks) /\ all_safe (livenessChecks t cfg c checks) /\
  all_safe (untilSuccessChecks t cfg c checks) /\ all_safe (untilFailureChecks t cfg c checks) /\
  all_safe (proxyStartupChecks t cfg c) /\ all_safe (proxyLivenessChecks t cfg c).
Proof.
  split_and!; try check_steps; unfold proxyStartupChecks, proxyLivenessChecks; repeat case_match; try done;
    apply Forall_imap; intros; apply createCheck_safe.
Qed.

Lemma liveness_fails (checks : list Check) :
  all_fail (livenessChecks t cfg c checks) /\ all_fail (proxyLivenessChecks t cfg c).
Proof.
  split; [check_steps|]. unfold proxyLivenessChecks. case_match; [|done]. apply Forall_imap. intros. apply createCheck_liveness.
Qed.
End CheckSteps.

Lemma forallb_Forall_true {A} (f : A -> bool) (l : list A) : Forall (fun x => f x = true) l -> forallb f l = true.
Proof. induction 1 as [|x l Hx _ IH]; cbn; [done|]. by rewrite Hx, IH. Qed.

Lemma checks_monitor_safe (granted : Waits) (t : transformer) (cfg : Config) (c : Container) (ls : Streamer) (checks : list Check) :
  existsb check_valid checks ||
  (t_useContainerProxy t && t_enableContainerProxyHealthChecks t && negb (bool_decide (length (cfg_ProxyTLSPorts cfg) = 0))) = true ->
  safe is_liveness granted (transformCheckDefinition t cfg c ls (proxyStartupChecks t cfg c) (proxyLivenessChecks t cfg c) checks) = true.
Proof.
  intros Hw. destruct (checks_safe granted t cfg c checks) as (H1 & H2 & _ & _ & H3 & H4). destruct (liveness_fails t cfg c checks) as [H5 H6].
  unfold transformCheckDefinition. cbn [safe liveness_ok always_fails].
  rewrite !forallb_app, !(forallb_Forall_true (safe is_liveness granted)) by done. cbn [andb].
  rewrite !(forallb_Forall_true (always_fails is_liveness)) by done. rewrite andb_true_r.
  rewrite bool_decide_false; [done|]. rewrite length_zero_iff_nil. intros [Hl Hp]%app_nil.
  apply orb_prop in Hw as [Hw|Hw].
  - revert Hl. apply (concat_imap_not_nil check_valid); [|done]. intros i ck Hv.
    destruct (check_settings_valid t ck Hv) as [[[[[? ?] ?] ?] ?] ->]. done.
  - apply andb_prop in Hw as [Hw Hports]. unfold proxyLivenessChecks in Hp. rewrite Hw in Hp.
    unfold proxy_checks in Hp. by destruct (cfg_ProxyTLSPorts cfg).
Qed.

Lemma monitors_safe (granted : Waits) (t : transformer) (cfg : Config) (c : Container) (ls : Streamer) (m : list Step * bool) :
  match rw_Monitor (ri_Work (ctr_RunInfo c)) with Some a => timeout_free (w_uploads granted) a | None => true end = true ->
  w_workers granted || bool_decide (rw_Monitor (ri_Work (ctr_RunInfo c)) = None) ||
    bool_decide (rw_CheckDefinition (ri_Work (ctr_RunInfo c)) <> None) = true ->
  watched t cfg c = true -> monitors t cfg c ls = Some m -> forallb (safe is_liveness granted) m.1 = true.
Proof.
  unfold monitors, watched. intros Ht Hwork Hw Hm. destruct (rw_CheckDefinition _) as [[checks source readiness]|]; cbn in Hm.
  - assert (Hc : forallb (safe is_liveness granted) (match checks with
        | Some checks => [transformCheckDefinition t cfg c ls (proxyStartupChecks t cfg c) (proxyLivenessChecks t cfg c) checks]
        | None => [] end) = true).
    { destruct checks as [checks|]; [|done]. cbn [forallb]. rewrite andb_true_r. by apply checks_monitor_safe. }
    destruct readiness as [rchecks|]; [|by simplify_eq]. unfold transformReadinessCheckDefinition in Hm.
    destruct (checks_safe granted t cfg c rchecks) as (_ & _ & H1 & H2 & _).
    destruct (untilSuccessChecks t cfg c rchecks) as [|s l]; simplify_eq; [done|]. cbn [fst]. rewrite forallb_app, Hc.
    cbn. apply forallb_Forall_true in H1, H2. cbn in H1. by rewrite H1, H2.
  - destruct (rw_Monitor _) as [a|] in Hm, Ht, Hwork; [|by simplify_eq]. rewrite !bool_decide_false, !orb_false_r in Hwork by naive_solver. apply bind_Some in Hm as (a' & Ha & Hm).
    apply bind_Some in Hm as (s & Hs & [= <-]). apply (override_timeout_free (w_uploads granted)) in Ha. rewrite <- Ha in Ht.
    destruct (checks_safe granted t cfg c []) as (_ & _ & _ & _ & H3 & _). apply (stepFor_safe is_liveness granted) in Hs; [|done]. cbn.
    rewrite forallb_app, (forallb_Forall_true (safe is_liveness granted)) by done. cbn. by rewrite Hwork, Hs.
Qed.

Lemma container_safe (granted : Waits) (t : transformer) (cfg : Config) (c : Container) (ls : Streamer) (s : Step) (readiness : bool) :
  container_timeout_free granted c = true -> watched t cfg c = true -> StepsRunner t cfg c ls = Some (Ok (s, readiness)) ->
  safe is_liveness granted s = true.
Proof.
  unfold container_timeout_free, StepsRunner. rewrite !andb_true_iff. intros [[[[Hsetup Haction] Hmonitor] Hsidecars] Hworkers] Hw Hr.
  apply bind_Some in Hr as (setup & Hs & Hr). destruct (rw_Action _) as [a|] in Hr, Haction; [|done].
  apply bind_Some in Hr as (action & Ha & Hr). apply bind_Some in Hr as (sidecars & Hsc & Hr).
  apply bind_Some in Hr as (m & Hm & [= <- <-]). apply (monitors_safe granted) in Hm; [|done..].
  apply (stepFor_safe is_liveness granted) in Ha; [|done].
  assert (Hset : safe is_liveness granted setup = true).
  { unfold setup_step in Hs. destruct (rw_Setup _) as [b|] in Hs, Hsetup; [|by simplify_eq].
    apply bind_Some in Hs as (s & Hs & [= <-]). cbn. by apply (stepFor_safe _ _ _ _ _ _ _ _ _ Hsetup Hs). }
  assert (Hside : forallb (safe is_liveness granted) sidecars = true).
  { eapply members_safe; [|exact Hsidecars|exact Hsc]. apply Forall_true. intros sc s Hp.
    destruct (sc_Action sc) as [b|]; cbn; [|done]. by apply stepFor_safe. }
  assert (Hlong : safe is_liveness granted (long_lived t cfg c ls action sidecars m.1) = true).
  { unfold long_lived. set (l := if 1 <? _ then _ else _). assert (Hl : safe is_liveness granted l = true).
    { unfold l. destruct (1 <? _); [|done]. cbn. by rewrite Ha, forallb_app, Hside, Hm. }
    destruct (_ && _); [|done]. cbn. by rewrite Hl. }
  change (safe is_liveness granted setup && forallb (safe is_liveness granted) (post_setup t c ++ [long_lived t cfg c ls action sidecars m.1]) = true).
  rewrite forallb_app, Hset. cbn [forallb andb]. rewrite Hlong. unfold post_setup. by destruct (t_postSetupHook t).
Qed.


(** ** Readiness and results *)

Lemma container_monitored (t : transformer) (cfg : Config) (c : Container) (ls : Streamer) (s : Step) (readiness : bool) :
  (exists def checks, rw_CheckDefinition (ri_Work (ctr_RunInfo c)) = Some def /\ ckd_Checks def = Some checks) \/
  (rw_CheckDefinition (ri_Work (ctr_RunInfo c)) = None /\ rw_Monitor (ri_Work (ctr_RunInfo c)) <> None) ->
  StepsRunner t cfg c ls = Some (Ok (s, readiness)) -> monitored ls s = true.
Proof.
  unfold StepsRunner. intros Hc Hr. apply bind_Some in Hr as (setup & _ & Hr). destruct (rw_Action _) as [a|]; [|done].
  apply bind_Some in Hr as (action & _ & Hr). apply bind_Some in Hr as (sidecars & _ & Hr).
  apply bind_Some in Hr as (m & Hm & [= <- <-]).
  assert (H : existsb (monitored ls) m.1 = true).
  { unfold monitors in Hm. destruct Hc as [(def & checks & Hd & Hck)|[Hd Hmon]]; rewrite Hd in Hm.
    - rewrite Hck in Hm. assert (Hh : forall rest, existsb (monitored ls) (transformCheckDefinition t cfg c ls
          (proxyStartupChecks t cfg c) (proxyLivenessChecks t cfg c) checks :: rest) = true).
      { intros rest. cbn. by rewrite bool_decide_true. }
      repeat case_match; simplify_eq; apply Hh.
    - destruct (rw_Monitor _); [|done]. apply bind_Some in Hm as (a' & _ & Hm). apply bind_Some in Hm as (s & _ & [= <-]).
      cbn. by rewrite bool_decide_true. }
  assert (Hl : monitored ls (long_lived t cfg c ls action sidecars m.1) = true).
  { unfold long_lived. assert (Hn : 1 < length (action :: sidecars ++ m.1)).
    { cbn. rewrite length_app. destruct m.1; [done|]. cbn. lia. }
    apply Nat.ltb_lt in Hn. rewrite Hn. set (l := SCodependent (action :: _) _ _).
    assert (Hl : monitored ls l = true) by (cbn; by rewrite existsb_app, H, !orb_true_r).
    clearbody l. destruct (_ && _); [|done]. cbn. by rewrite Hl. }
  unfold post_setup. destruct (t_postSetupHook t); exact Hl.
Qed.

(** A check definition without a list of checks puts the monitor action out of
    use: the container's step has no health check then. *)
Lemma monitor_ignored (t : transformer) (cfg : Config) (c : Container) (ls : Streamer) (def : CheckDefinition) :
  rw_CheckDefinition (ri_Work (ctr_RunInfo c)) = Some def -> ckd_Checks def = None ->
  exists l readiness, monitors t cfg c ls = Some (l, readiness) /\ existsb (monitored ls) l = false.
Proof.
  intros Hd Hc. unfold monitors. rewrite Hd, Hc. destruct (ckd_ReadinessChecks def) as [checks|]; [|by eexists _, _].
  unfold transformReadinessCheckDefinition. destruct (untilSuccessChecks t cfg c checks); by eexists _, _.
Qed.


(** A container whose declared checks are all invalid, and whose proxy is not
    checked, crashes the executor once its processes have started. *)
Theorem invalid_checks_panic (t : transformer) (cfg : Config) (c : Container) (ls : Streamer) (checks : list Check) :
  t_useContainerProxy t = false -> forallb (fun ck => negb (check_valid ck)) checks = true ->
  exists tr, steps idle_step
    (start (transformCheckDefinition t cfg c ls (proxyStartupChecks t cfg c) (proxyLivenessChecks t cfg c) checks)) tr Panicked.
Proof.
  intros Hp Hc. unfold transformCheckDefinition, proxyStartupChecks, proxyLivenessChecks. rewrite Hp.
  assert (H : forall (f : nat -> Check -> list Step), (forall i ck, check_valid ck = false -> f i ck = []) -> concat (imap f checks) = []).
  { clear Hp. induction checks as [|ck checks IH]; intros f Hf; [done|]. cbn in Hc |- *. apply andb_prop in Hc as [Hck Hc].
    rewrite Hf by (by apply negb_true_iff). cbn. apply IH; [done|]. intros i. apply Hf. }
  assert (Hs : forall ck, check_valid ck = false -> check_settings t ck = None) by (intros ck Hv; unfold check_settings; by rewrite Hv).
  unfold startupChecks, livenessChecks. rewrite !H by (intros i ck Hv; by rewrite Hs).
  apply no_checks_panic.
Qed.

(** A container that is stopped during its setup ends without an error: the step
    that times the setup takes the signal and returns success at once, without
    waiting for the setup, and the container's step returns that. *)
Theorem cancelled_setup_succeeds (t : transformer) (cfg : Config) (c : Container) (ls : Streamer) (s : Step) (readiness : bool) (a : Action) :
  rw_Setup (ri_Work (ctr_RunInfo c)) = Some a -> StepsRunner t cfg c ls = Some (Ok (s, readiness)) ->
  exists late, steps idle_step (start s) [(Signal, []); (Tau, [SetupDuration true]); (Tau, [])] (Done None late).
Proof.
  unfold StepsRunner, setup_step. intros Ha Hr. rewrite Ha in Hr. apply bind_Some in Hr as (setup & Hs & Hr).
  apply bind_Some in Hs as (s' & _ & [= <-]). destruct (rw_Action _) as [b|]; [|done].
  apply bind_Some in Hr as (action & _ & Hr). apply bind_Some in Hr as (sidecars & _ & Hr).
  apply bind_Some in Hr as (m & _ & [= <- <-]). cbn [app start].
  set (rest := post_setup t c ++ _). eexists. eapply steps_cons; [apply step_monitor_signal|].
  eapply steps_cons; [apply step_process, process_signal, step_frame, timed_signalled|].
  eapply steps_cons; [apply step_monitor_cancelled|]. constructor.
Qed.
