(* ===== verification/StepExamples.v ===== *)
(** * Runs of a container's steps

    A container with a setup, an action, a sidecar, declared checks and a proxy,
    translated by the transformer, and runs of its step. *)
From Stdlib Require Import ZArith Lia.
From S2P Require Import Prelude GoStd Actions Executor StoreNode Steps StepProps StepResults Transformer TransformerProps.

(** ** Containers *)

Definition sx_run (path : string) : RunAction := mkRunAction path ["--verbose"] "" [] None None "vcap" "APP" false [].
Definition sx_download : DownloadAction := mkDownloadAction "app" "http://files/droplet" "/home" "key" "STG" "vcap" "" "".

Definition sx_check (port : Z) : Check := mkCheck None (Some (mkHTTPCheck port 0 "/health" 0)).

Definition sx_transformer : transformer :=
  NewTransformer (30 * Second) (Second / 2) (10 * Second)
    [WithSidecarRootfs "preloaded:cflinuxfs4"; WithDeclarativeHealthChecks 0; WithContainerProxy (5 * Second)].
Definition sx_plain : transformer := NewTransformer (30 * Second) (Second / 2) (10 * Second) [].

Definition sx_config : Config := mkConfig [61001%Z] [] "handle".
Definition sx_streamer : Streamer := LogStreamer "CELL".

Definition sx_container (setup : option Action) (def : CheckDefinition) (sidecars : list Sidecar) : Container :=
  set_RunInfo (NewContainerFromResource "guid" (mkEResource 128 512 1024) None)
    (mkRunInfo "preloaded:cflinuxfs4" 10 [mkPortMapping 8080 61000 61001 61002] [] (mkLogConfig "" 0 "" None) None false [] [] "" []
       None "" "" true []
       (mkRunWork "" 0 60000 setup (Some (ARun (sx_run "/app"))) None (Some def) [] [] sidecars 0)).

Definition sx_web : Container :=
  sx_container (Some (ASerial [Some (ADownload sx_download)] "")) (mkCheckDefinition (Some [sx_check 8080]) "" None)
    [mkSidecar (Some (ARun (sx_run "/sidecar"))) 0 0].

Definition sx_unchecked : Container := sx_container None (mkCheckDefinition (Some [sx_check 0]) "" None) [].

Definition runner (t : transformer) (c : Container) : Step :=
  match StepsRunner t sx_config c sx_streamer with Some (Ok (s, _)) => s | _ => SSerial [] end.

(** What the health check is asked to run. *)
Lemma sx_check_args :
  check_args sx_web "/health" 8080 1000 HTTPProtocol IsStartupCheck (Second / 2) =
  ["-port=8080"; "-timeout=1000ms"; "-uri=/health"; "-startup-interval=500ms"; "-startup-timeout=1m0s"].
Proof. vm_compute. reflexivity. Qed.

(** ** Witnesses *)

Lemma sound_unaided granted : sound is_liveness (unaided granted).
Proof.
  split; [by intros i k out p [? _]|]. intros r ph k out late _ [Hs Hu].
  destruct ph; subst; try done; idle_cases Hs; naive_solver.
Qed.


Ltac forward := eapply steps_cons.
Ltac member i := eapply (step_member _ _ _ i); [reflexivity|].

(** The container with an invalid check becomes healthy at once. *)
Lemma sx_becomes_ready : exists tr p, steps idle_step (start (runner sx_plain sx_unchecked)) tr p /\ Ready ∈ tr.*1.
Proof.
  replace (runner sx_plain sx_unchecked) with
    (SSerial [STimed None;
       SCodependent [SRun (run_spec sx_plain sx_unchecked (sx_run "/app") (LogStreamer "APP") false zeroSidecar);
                     SHealthCheck (SParallel []) (SCodependent [] false false) sx_streamer (LogStreamer "HEALTH")] false false])
    by (vm_compute; reflexivity).
  eexists _, _. split.
  - forward; [apply step_process, process_tau, step_idle, timed_nothing|].
    forward; [apply step_monitor_exit, exit_serial, serial_next|].
    forward; [apply step_process, process_tau; member 0; apply process_tau, step_idle, idle_run, run_create|]. cbn.
    forward; [apply step_process, process_tau; member 0; apply process_ready, step_idle, idle_run, run_created|]. cbn.
    forward; [apply step_process, process_tau; member 1; apply process_tau, step_idle, idle_health, health_started|]. cbn.
    forward; [apply step_process, process_tau; member 1; apply process_tau, step_process, process_tau, step_group_done; reflexivity|]. cbn.
    forward; [apply step_process, process_tau; member 1; apply process_tau, step_monitor_exit, exit_health, startup_passed|]. cbn.
    forward; [apply step_process, process_tau; member 1; apply process_ready, step_idle, idle_health, health_healthy|]. cbn.
    forward; [apply step_process, process_tau; eapply step_group_ready; reflexivity|]. cbn.
    forward; [apply step_process, process_tau; eapply step_group_ready; reflexivity|]. cbn.
    forward; [apply step_process, process_ready; eapply step_group_close; reflexivity|]. cbn.
    forward; [eapply step_monitor_ready; reflexivity|]. constructor.
  - cbn. do 11 right. by left.
Qed.


Lemma invalid_checks_panic_witness : exists tr, steps idle_step
  (start (transformCheckDefinition sx_plain sx_config sx_unchecked sx_streamer [] [] [sx_check 0])) tr Panicked.
Proof. apply (invalid_checks_panic sx_plain sx_config sx_unchecked sx_streamer [sx_check 0]); vm_compute; reflexivity. Defined.

Lemma cancelled_setup_succeeds_witness : exists late,
  steps idle_step (start (runner sx_transformer sx_web)) [(Signal, []); (Tau, [SetupDuration true]); (Tau, [])] (Done None late).
Proof. eapply (cancelled_setup_succeeds sx_transformer sx_config sx_web sx_streamer); vm_compute; reflexivity. Defined.

(** *** Groups and sequences *)

Definition sx_spec (path : string) : RunSpec := run_spec sx_plain sx_web (sx_run path) sx_streamer false zeroSidecar.

(** The action cannot be created, and the sidecar is cancelled. *)
Lemma sx_codependent_fails : exists tr g cs,
  steps idle_step (start (SCodependent [SRun (sx_spec "/app"); SRun (sx_spec "/sidecar")] false true)) tr (PGroup g cs) /\
  g_aggregate g = [OtherError "no space"] /\ exists tr' err late, steps idle_step (PGroup g cs) tr' (Done err late).
Proof.
  eexists _, _, _. split; [|split].
  - forward; [member 0; apply process_tau, step_idle, idle_run, run_create|]. cbn.
    forward; [member 0; apply process_tau, step_idle, idle_run, (run_create_failed _ "no space")|]. cbn.
    forward; [eapply (step_group_collect _ _ _ _ _ 0); reflexivity|]. cbn. constructor.
  - reflexivity.
  - eexists _, _, _. forward; [member 1; apply process_signal, step_idle, idle_run, run_cancelled; by left|]. cbn.
    forward; [eapply (step_group_collect _ _ _ _ _ 1); reflexivity|]. cbn.
    forward; [apply step_group_done; vm_compute; reflexivity|]. constructor.
Qed.

Lemma codependent_result_witness : exists order errs,
  order ≡ₚ seq 0 2 /\ Forall2 (fun i e => exists s, [SRun (sx_spec "/app"); SRun (sx_spec "/sidecar")] !! i = Some s /\ returns idle_step s e) order errs.
Proof.
  destruct sx_codependent_fails as (tr & g & cs & H1 & _ & tr' & err & late & H2).
  destruct (codependent_result idle_step [SRun (sx_spec "/app"); SRun (sx_spec "/sidecar")] false true (tr ++ tr') err late)
    as (order & errs & Ho & Hr & _); [by eapply steps_app|]. exists order, errs. split; [exact Ho|exact Hr].
Defined.

Lemma codependent_failure_stops_all_witness : exists g cs err late,
  g_aggregate g = [OtherError "no space"] /\ rtc (own (mkWaits false false)) (PGroup g cs) (Done err late).
Proof.
  destruct sx_codependent_fails as (tr & g & cs & H1 & Ha & _).
  destruct (codependent_failure_stops_all (fun _ => false) (mkWaits false false) idle_step [SRun (sx_spec "/app"); SRun (sx_spec "/sidecar")] false true tr g cs)
    as (err & late & H); [split; [done|done]|vm_compute; reflexivity|exact H1|by rewrite Ha|].
  exists g, cs, err, late. split; [exact Ha|exact H].
Defined.

(** The first part succeeds, and the second fails. *)
Lemma sx_serial_fails : exists tr err late,
  steps idle_step (start (SSerial [STimed None; SRun (sx_spec "/app")])) tr (Done err late).
Proof.
  eexists _, _, _. forward; [apply step_process, process_tau, step_idle, timed_nothing|].
  forward; [apply step_monitor_exit, exit_serial, serial_next|].
  forward; [apply step_process, process_tau, step_idle, idle_run, run_create|].
  forward; [apply step_process, process_tau, step_idle, idle_run, (run_create_failed _ "no space")|].
  forward; [apply step_monitor_exit, exit_serial, serial_failed|]. constructor.
Qed.

Lemma serial_result_witness : exists before s rest err,
  [STimed None; SRun (sx_spec "/app")] = before ++ s :: rest /\ Forall (fun s => returns idle_step s None) before /\ returns idle_step s err.
Proof.
  destruct sx_serial_fails as (tr & err & late & Hr).
  destruct (serial_result idle_step [STimed None; SRun (sx_spec "/app")] tr err late) as (before & s & rest & H1 & H2 & H3 & _);
    [done|exact Hr|]. exists before, s, rest, err. split; [exact H1|split; [exact H2|exact H3]].
Defined.
