(* ===== verification/Hashes.v ===== *)
(** * Hash functions

    MD5, SHA-1 and SHA-256 of Go's standard library, hexadecimal encoding, and the
    validator of checksums of cacheddownloader/hash_validator.go.  Bytes are
    characters; words are integers modulo 2^32. *)
From Stdlib Require Import ZArith Lia Ascii List.
From S2P Require Import Prelude.
#[local] Open Scope Z_scope.

(** ** Words and bytes *)

Definition w32 (z : Z) : Z := z mod 2 ^ 32.
Definition add32 (a b : Z) : Z := w32 (a + b).
Definition not32 (a : Z) : Z := Z.lxor a (2 ^ 32 - 1).
Definition rotl (n x : Z) : Z := Z.lor (w32 (Z.shiftl x n)) (Z.shiftr x (32 - n)).
Definition rotr (n x : Z) : Z := rotl (32 - n) x.

Definition byte_of (z : Z) : ascii := ascii_of_N (Z.to_N (z mod 256)).
Definition of_byte (a : ascii) : Z := Z.of_N (N_of_ascii a).

(** The bytes of a word, the least significant one first. *)
Fixpoint bytes_le (n : nat) (z : Z) : list ascii :=
  match n with O => [] | S n => byte_of z :: bytes_le n (Z.shiftr z 8) end.
Definition bytes_be (n : nat) (z : Z) : list ascii := rev (bytes_le n z).

Definition word_le (l : list ascii) : Z := foldr (fun a z => of_byte a + 256 * z) 0 l.
Definition word_be (l : list ascii) : Z := word_le (rev l).

Fixpoint chunks (k : nat) (fuel : nat) (l : list ascii) : list (list ascii) :=
  match fuel, l with
  | S fuel, _ :: _ => take k l :: chunks k fuel (drop k l)
  | _, _ => []
  end.

(** The message with its padding: a bit, zeros, and the length in bits. *)
Definition padded (length_bytes : Z -> list ascii) (msg : list ascii) : list ascii :=
  let n := Z.of_nat (length msg) in
  msg ++ byte_of 128 :: replicate (Z.to_nat ((55 - n) mod 64)) (byte_of 0) ++ length_bytes (8 * n mod 2 ^ 64).

Definition blocks (word : list ascii -> Z) (msg : list ascii) : list (list Z) :=
  (fun block => word <$> chunks 4 16 block) <$> chunks 64 (length msg) msg.

(** ** MD5 *)

Definition md5_table : list Z :=
  [0xd76aa478; 0xe8c7b756; 0x242070db; 0xc1bdceee; 0xf57c0faf; 0x4787c62a; 0xa8304613; 0xfd469501;
   0x698098d8; 0x8b44f7af; 0xffff5bb1; 0x895cd7be; 0x6b901122; 0xfd987193; 0xa679438e; 0x49b40821;
   0xf61e2562; 0xc040b340; 0x265e5a51; 0xe9b6c7aa; 0xd62f105d; 0x02441453; 0xd8a1e681; 0xe7d3fbc8;
   0x21e1cde6; 0xc33707d6; 0xf4d50d87; 0x455a14ed; 0xa9e3e905; 0xfcefa3f8; 0x676f02d9; 0x8d2a4c8a;
   0xfffa3942; 0x8771f681; 0x6d9d6122; 0xfde5380c; 0xa4beea44; 0x4bdecfa9; 0xf6bb4b60; 0xbebfbc70;
   0x289b7ec6; 0xeaa127fa; 0xd4ef3085; 0x04881d05; 0xd9d4d039; 0xe6db99e5; 0x1fa27cf8; 0xc4ac5665;
   0xf4292244; 0x432aff97; 0xab9423a7; 0xfc93a039; 0x655b59c3; 0x8f0ccc92; 0xffeff47d; 0x85845dd1;
   0x6fa87e4f; 0xfe2ce6e0; 0xa3014314; 0x4e0811a1; 0xf7537e82; 0xbd3af235; 0x2ad7d2bb; 0xeb86d391].

Definition md5_shifts : list (list Z) := [[7; 12; 17; 22]; [5; 9; 14; 20]; [4; 11; 16; 23]; [6; 10; 15; 21]].

Definition md5_round (i : nat) (b c d : Z) : Z * nat :=
  match (i / 16)%nat with
  | 0%nat => (Z.lor (Z.land b c) (Z.land (not32 b) d), i)
  | 1%nat => (Z.lor (Z.land d b) (Z.land (not32 d) c), (5 * i + 1) mod 16)%nat
  | 2%nat => (Z.lxor (Z.lxor b c) d, (3 * i + 5) mod 16)%nat
  | _ => (Z.lxor c (Z.lor b (not32 d)), (7 * i) mod 16)%nat
  end.

Definition md5_step (x : list Z) (s : Z * Z * Z * Z) (i : nat) : Z * Z * Z * Z :=
  let '(a, b, c, d) := s in
  let '(f, g) := md5_round i b c d in
  let sum := add32 (add32 a f) (add32 (nth i md5_table 0) (nth g x 0)) in
  (d, add32 b (rotl (nth (i mod 4) (nth (i / 16) md5_shifts []) 0) sum), b, c).

Definition md5_block (s : Z * Z * Z * Z) (x : list Z) : Z * Z * Z * Z :=
  let '(a, b, c, d) := s in
  let '(a', b', c', d') := foldl (md5_step x) s (seq 0 64) in
  (add32 a a', add32 b b', add32 c c', add32 d d').

Definition md5 (msg : list ascii) : list ascii :=
  let '(a, b, c, d) := foldl md5_block (0x67452301, 0xefcdab89, 0x98badcfe, 0x10325476) (blocks word_le (padded (bytes_le 8) msg)) in
  bytes_le 4 a ++ bytes_le 4 b ++ bytes_le 4 c ++ bytes_le 4 d.

(** ** SHA-1 *)

(** The schedule, the last word first. *)
Fixpoint sha1_schedule (n : nat) (w : list Z) : list Z :=
  match n with
  | O => w
  | S n => sha1_schedule n (rotl 1 (Z.lxor (Z.lxor (nth 2 w 0) (nth 7 w 0)) (Z.lxor (nth 13 w 0) (nth 15 w 0))) :: w)
  end.

Definition sha1_round (i : nat) (b c d : Z) : Z * Z :=
  match (i / 20)%nat with
  | 0%nat => (Z.lor (Z.land b c) (Z.land (not32 b) d), 0x5a827999)
  | 1%nat => (Z.lxor (Z.lxor b c) d, 0x6ed9eba1)
  | 2%nat => (Z.lor (Z.land (Z.lor b c) d) (Z.land b c), 0x8f1bbcdc)
  | _ => (Z.lxor (Z.lxor b c) d, 0xca62c1d6)
  end.

Definition sha1_step (s : Z * Z * Z * Z * Z) (iw : nat * Z) : Z * Z * Z * Z * Z :=
  let '(a, b, c, d, e) := s in
  let '(f, k) := sha1_round (fst iw) b c d in
  (add32 (add32 (rotl 5 a) f) (add32 e (add32 k (snd iw))), a, rotl 30 b, c, d).

Definition sha1_block (s : Z * Z * Z * Z * Z) (x : list Z) : Z * Z * Z * Z * Z :=
  let '(a, b, c, d, e) := s in
  let '(a', b', c', d', e') := foldl sha1_step s (zip (seq 0 80) (rev (sha1_schedule 64 (rev x)))) in
  (add32 a a', add32 b b', add32 c c', add32 d d', add32 e e').

Definition sha1 (msg : list ascii) : list ascii :=
  let '(a, b, c, d, e) := foldl sha1_block (0x67452301, 0xefcdab89, 0x98badcfe, 0x10325476, 0xc3d2e1f0)
                            (blocks word_be (padded (bytes_be 8) msg)) in
  bytes_be 4 a ++ bytes_be 4 b ++ bytes_be 4 c ++ bytes_be 4 d ++ bytes_be 4 e.

(** ** SHA-256 *)

(** The constants: 32 bits of the fractional parts of the cube roots of the first 64
    primes, and of the square roots of the first 8. *)
Definition prime (n : nat) : bool := forallb (fun d => negb (n mod d =? 0)%nat) (seq 2 (n - 2)).
Definition primes : list Z := Eval vm_compute in Z.of_nat <$> filter (fun n => prime n = true) (seq 2 310).

(** The largest number below [2 ^ bits] whose power is at most [x], bit by bit. *)
Fixpoint root (power : Z) (bits : nat) (x acc : Z) : Z :=
  match bits with
  | O => acc
  | S bits =>
      let next := acc + 2 ^ Z.of_nat bits in
      root power bits x (if next ^ power <=? x then next else acc)
  end.
Definition fractional_bits (power p : Z) : Z := w32 (root power 40 (p * 2 ^ (32 * power)) 0).

Definition sha256_table : list Z := Eval vm_compute in fractional_bits 3 <$> primes.
Definition sha256_init : list Z := Eval vm_compute in fractional_bits 2 <$> take 8 primes.

Fixpoint sha256_schedule (n : nat) (w : list Z) : list Z :=
  match n with
  | O => w
  | S n =>
      let v1 := nth 1 w 0 in
      let v2 := nth 14 w 0 in
      let t1 := Z.lxor (Z.lxor (rotr 17 v1) (rotr 19 v1)) (Z.shiftr v1 10) in
      let t2 := Z.lxor (Z.lxor (rotr 7 v2) (rotr 18 v2)) (Z.shiftr v2 3) in
      sha256_schedule n (add32 (add32 t1 (nth 6 w 0)) (add32 t2 (nth 15 w 0)) :: w)
  end.

Record Sha256 := mkSha256 { s_a : Z; s_b : Z; s_c : Z; s_d : Z; s_e : Z; s_f : Z; s_g : Z; s_h : Z }.

Definition sha256_step (s : Sha256) (kw : Z * Z) : Sha256 :=
  let '(mkSha256 a b c d e f g h) := s in
  let t1 := add32 (add32 h (Z.lxor (Z.lxor (rotr 6 e) (rotr 11 e)) (rotr 25 e)))
              (add32 (Z.lxor (Z.land e f) (Z.land (not32 e) g)) (add32 (fst kw) (snd kw))) in
  let t2 := add32 (Z.lxor (Z.lxor (rotr 2 a) (rotr 13 a)) (rotr 22 a))
              (Z.lxor (Z.lxor (Z.land a b) (Z.land a c)) (Z.land b c)) in
  mkSha256 (add32 t1 t2) a b c (add32 d t1) e f g.

Definition sha256_block (s : Sha256) (x : list Z) : Sha256 :=
  let r := foldl sha256_step s (zip sha256_table (rev (sha256_schedule 48 (rev x)))) in
  mkSha256 (add32 (s_a s) (s_a r)) (add32 (s_b s) (s_b r)) (add32 (s_c s) (s_c r)) (add32 (s_d s) (s_d r))
    (add32 (s_e s) (s_e r)) (add32 (s_f s) (s_f r)) (add32 (s_g s) (s_g r)) (add32 (s_h s) (s_h r)).

Definition sha256 (msg : list ascii) : list ascii :=
  let h i := nth i sha256_init 0 in
  let s := foldl sha256_block (mkSha256 (h 0) (h 1) (h 2) (h 3) (h 4) (h 5) (h 6) (h 7))%nat
             (blocks word_be (padded (bytes_be 8) msg)) in
  bytes_be 4 (s_a s) ++ bytes_be 4 (s_b s) ++ bytes_be 4 (s_c s) ++ bytes_be 4 (s_d s) ++
  bytes_be 4 (s_e s) ++ bytes_be 4 (s_f s) ++ bytes_be 4 (s_g s) ++ bytes_be 4 (s_h s).

(** ** Hexadecimal *)

Definition hex_digit (n : N) : ascii := ascii_of_N (if (n <? 10)%N then 48 + n else 87 + n).

Definition fromHexChar (c : ascii) : option N :=
  let n := N_of_ascii c in
  if ((48 <=? n) && (n <=? 57))%N then Some (n - 48)%N
  else if ((97 <=? n) && (n <=? 102))%N then Some (n - 87)%N
  else if ((65 <=? n) && (n <=? 70))%N then Some (n - 55)%N
  else None.

(** The verb [%x] on bytes, and [hex.DecodeString]. *)
Definition EncodeToString (l : list ascii) : list ascii :=
  l ≫= fun a => [hex_digit (N_of_ascii a / 16); hex_digit (N_of_ascii a mod 16)].

Fixpoint DecodeString (l : list ascii) : option (list ascii) :=
  match l with
  | [] => Some []
  | a :: b :: rest =>
      h ← fromHexChar a; d ← fromHexChar b; out ← DecodeString rest; Some (ascii_of_N (16 * h + d) :: out)
  | [_] => None
  end.

Example md5_abc : String.string_of_list_ascii (EncodeToString (md5 (String.list_ascii_of_string "abc"))) = "900150983cd24fb0d6963f7d28e17f72"%string.
Proof. vm_compute. reflexivity. Qed.
Example sha1_abc : String.string_of_list_ascii (EncodeToString (sha1 (String.list_ascii_of_string "abc"))) = "a9993e364706816aba3e25717850c26c9cd0d89d"%string.
Proof. vm_compute. reflexivity. Qed.
Example sha256_abc : String.string_of_list_ascii (EncodeToString (sha256 (String.list_ascii_of_string "abc"))) =
  "ba7816bf8f01cfea414140de5dae2223b00361a396177a9cb410ff61f20015ad"%string.
Proof. vm_compute. reflexivity. Qed.
Example md5_long : String.string_of_list_ascii (EncodeToString (md5 (String.list_ascii_of_string
  "12345678901234567890123456789012345678901234567890123456789012345678901234567890"))) = "57edf4a22be3c955ac49da2e2107b67a"%string.
Proof. vm_compute. reflexivity. Qed.
Example sha256_long : String.string_of_list_ascii (EncodeToString (sha256 (String.list_ascii_of_string
  "abcdbcdecdefdefgefghfghighijhijkijkljklmklmnlmnomnopnopq"))) =
  "248d6a61d20638b8e5c026930c3e6039a33ce45964ff2167f6ecedd419db06c1"%string.
Proof. vm_compute. reflexivity. Qed.

(** ** The validator of checksums *)

#[local] Open Scope string_scope.

Record ChecksumInfoType := mkChecksumInfo { ci_Algorithm : string; ci_Value : string }.
Record ChecksumFailedError := mkChecksumFailed { cf_msg : string; cf_expected : string; cf_received : string }.

Definition ChecksumFailedError_Error (e : ChecksumFailedError) : string :=
  "Checksum failed: '" +:+ cf_msg e +:+ "', expected '" +:+ cf_expected e +:+ "', got '" +:+ cf_received e +:+ "'".

(** The hash, with what has been written to it. *)
Record hashValidator := mkValidator { hv_algorithm : string; hv_hash : list ascii -> list ascii; hv_written : list ascii }.

Definition NewHashValidator (algorithm : string) : result ChecksumFailedError hashValidator :=
  if bool_decide (algorithm = "md5") then Ok (mkValidator algorithm md5 [])
  else if bool_decide (algorithm = "sha1") then Ok (mkValidator algorithm sha1 [])
  else if bool_decide (algorithm = "sha256") then Ok (mkValidator algorithm sha256 [])
  else Err (mkChecksumFailed "algorithm invalid" "[md5, sha1, sha256]" algorithm).

Definition Write (v : hashValidator) (l : list ascii) : hashValidator :=
  mkValidator (hv_algorithm v) (hv_hash v) (hv_written v ++ l)%list.
Definition Sum (v : hashValidator) : list ascii := hv_hash v (hv_written v).

Definition quote_char : ascii := ascii_of_nat 34.
Definition quote_string : string := String quote_char "".

Definition quoted_hex (l : list ascii) : string := quote_string +:+ String.string_of_list_ascii (EncodeToString l) +:+ quote_string.

Definition HexValueForByteArray (algorithm : string) (content : list ascii) : result ChecksumFailedError string :=
  match NewHashValidator algorithm with
  | Ok v => Ok (quoted_hex (Sum (Write v content)))
  | Err e => Err e
  end.

Definition HexValue (algorithm content : string) : result ChecksumFailedError string :=
  HexValueForByteArray algorithm (String.list_ascii_of_string content).

Definition expectedLength (v : hashValidator) : option nat :=
  if bool_decide (hv_algorithm v = "md5") then Some 32%nat
  else if bool_decide (hv_algorithm v = "sha1") then Some 40%nat
  else if bool_decide (hv_algorithm v = "sha256") then Some 64%nat
  else None.

(** [strings.Trim] of quotes. *)
Fixpoint trim_quotes_left (l : list ascii) : list ascii :=
  match l with
  | a :: rest => if bool_decide (a = quote_char) then trim_quotes_left rest else l
  | [] => []
  end.
Definition trim_quotes (l : list ascii) : list ascii := rev (trim_quotes_left (rev (trim_quotes_left l))).

Definition convertToChecksum (v : hashValidator) (checksumValue : string) : option (list ascii) :=
  let checksumValue := trim_quotes (String.list_ascii_of_string checksumValue) in
  match expectedLength v with
  | Some n => if bool_decide (length checksumValue = n) then DecodeString checksumValue else None
  | None => None
  end.

Definition Validate (v : hashValidator) (checksumValue : string) : option ChecksumFailedError :=
  match convertToChecksum v checksumValue with
  | None => Some (mkChecksumFailed "checksum missing or invalid" "a valid checksum" checksumValue)
  | Some byteValue =>
      if bool_decide (byteValue = Sum v) then None
      else Some (mkChecksumFailed "checksum mismatch" checksumValue (quoted_hex (Sum v)))
  end.

(** ** Checksums are exact *)

Lemma length_bytes_le (n : nat) (z : Z) : length (bytes_le n z) = n.
Proof. revert z. induction n as [|n IH]; intros z; [done|]. cbn. by rewrite IH. Qed.

Lemma length_bytes_be (n : nat) (z : Z) : length (bytes_be n z) = n.
Proof. unfold bytes_be. by rewrite length_rev, length_bytes_le. Qed.

Lemma length_md5 (msg : list ascii) : length (md5 msg) = 16%nat.
Proof. unfold md5. destruct (foldl _ _ _) as [[[a b] c] d]. by rewrite !length_app, !length_bytes_le. Qed.

Lemma length_sha1 (msg : list ascii) : length (sha1 msg) = 20%nat.
Proof. unfold sha1. destruct (foldl _ _ _) as [[[[a b] c] d] e]. by rewrite !length_app, !length_bytes_be. Qed.

Lemma length_sha256 (msg : list ascii) : length (sha256 msg) = 32%nat.
Proof. unfold sha256. by rewrite !length_app, !length_bytes_be. Qed.

Lemma fromHexChar_hex_digit (n : N) : (n < 16)%N -> fromHexChar (hex_digit n) = Some n.
Proof.
  intros Hn. assert (Hin : n ∈ N.of_nat <$> seq 0 16).
  { apply list_elem_of_fmap. exists (N.to_nat n). split; [lia|]. apply elem_of_seq. lia. }
  assert (Hall : forallb (fun n => bool_decide (fromHexChar (hex_digit n) = Some n)) (N.of_nat <$> seq 0 16) = true) by (vm_compute; reflexivity).
  rewrite forallb_forall in Hall. by apply list_elem_of_In, Hall, bool_decide_eq_true in Hin.
Qed.

Lemma hex_digit_quote (n : N) : (n < 16)%N -> hex_digit n <> quote_char.
Proof. intros Hn Hq. apply (f_equal fromHexChar) in Hq. by rewrite fromHexChar_hex_digit in Hq. Qed.

Lemma DecodeString_EncodeToString (l : list ascii) : DecodeString (EncodeToString l) = Some l.
Proof.
  induction l as [|a l IH]; [done|]. cbn. fold (EncodeToString l). pose proof (N_ascii_bounded a).
  assert (N_of_ascii a / 16 < 16)%N by (apply N.Div0.div_lt_upper_bound; lia). assert (N_of_ascii a mod 16 < 16)%N by (by apply N.mod_lt).
  rewrite !fromHexChar_hex_digit by done. cbn. rewrite IH. cbn. by rewrite <- N.div_mod, ascii_N_embedding.
Qed.

Lemma length_DecodeString (l out : list ascii) : DecodeString l = Some out -> length l = (2 * length out)%nat.
Proof.
  revert out. induction l as [l IH] using (induction_ltof1 _ (@length ascii)). unfold ltof in IH.
  destruct l as [|a [|b rest]]; intros out; cbn; [by intros [= <-]|done|]. intros Hd.
  apply bind_Some in Hd as (h & _ & Hd). apply bind_Some in Hd as (d & _ & Hd). apply bind_Some in Hd as (o & Ho & [= <-]).
  apply IH in Ho; cbn in *; lia.
Qed.

Lemma trim_quotes_left_id (l : list ascii) : Forall (fun a => a <> quote_char) l -> trim_quotes_left l = l.
Proof. destruct 1 as [|a l Ha _]; [done|]. cbn. by rewrite bool_decide_false. Qed.

Lemma trim_quotes_quoted (l : list ascii) :
  Forall (fun a => a <> quote_char) l -> trim_quotes (quote_char :: l ++ [quote_char]) = l.
Proof.
  intros Hl. unfold trim_quotes. cbn [trim_quotes_left]. rewrite bool_decide_true by done.
  destruct l as [|a l]; [by vm_compute|]. inversion Hl as [|? ? Ha Hr]; subst.
  replace (trim_quotes_left ((a :: l) ++ [quote_char])) with ((a :: l) ++ [quote_char])%list by (cbn; by rewrite bool_decide_false).
  rewrite rev_app_distr. cbn [rev app trim_quotes_left]. rewrite bool_decide_true by done.
  change (rev l ++ [a])%list with (rev (a :: l)). rewrite trim_quotes_left_id, rev_involutive; [done|]. by apply Forall_rev.
Qed.

Lemma EncodeToString_plain (l : list ascii) : Forall (fun a => a <> quote_char) (EncodeToString l).
Proof.
  induction l as [|a l IH]; [constructor|]. cbn. pose proof (N_ascii_bounded a).
  assert (N_of_ascii a / 16 < 16)%N by (apply N.Div0.div_lt_upper_bound; lia). assert (N_of_ascii a mod 16 < 16)%N by (by apply N.mod_lt).
  constructor; [by apply hex_digit_quote|]. constructor; [by apply hex_digit_quote|done].
Qed.

Lemma list_ascii_app (s t : string) :
  String.list_ascii_of_string (s +:+ t) = (String.list_ascii_of_string s ++ String.list_ascii_of_string t)%list.
Proof. induction s as [|a s IH]; [done|]. cbn. by rewrite <- IH. Qed.

Lemma NewHashValidator_Ok (algorithm : string) (v : hashValidator) :
  NewHashValidator algorithm = Ok v ->
  hv_written v = [] /\ exists n, expectedLength v = Some (2 * n)%nat /\ forall msg, length (hv_hash v msg) = n.
Proof.
  unfold NewHashValidator. intros Hv. repeat case_bool_decide; subst; try done; injection Hv as <-; (split; [done|]).
  - exists 16%nat. split; [done|apply length_md5].
  - exists 20%nat. split; [done|apply length_sha1].
  - exists 32%nat. split; [done|apply length_sha256].
Qed.

(** C34: A download is accepted exactly when its checksum is right.  For each of the
    three algorithms, [Validate] accepts a value when, and only when, the value
    without its quotes is the hexadecimal encoding, in either case, of the hash of
    what was written; the values that [HexValue] returns are accepted. *)
Theorem checksum_exact (algorithm : string) (v : hashValidator) (content : list ascii) :
  NewHashValidator algorithm = Ok v ->
  (forall value, Validate (Write v content) value = None <->
    DecodeString (trim_quotes (String.list_ascii_of_string value)) = Some (hv_hash v content)) /\
  forall value, HexValueForByteArray algorithm content = Ok value -> Validate (Write v content) value = None.
Proof.
  intros Hv. destruct (NewHashValidator_Ok _ _ Hv) as (Hw & n & Hn & Hlen).
  assert (Hs : Sum (Write v content) = hv_hash v content) by (unfold Sum, Write; cbn; by rewrite Hw).
  assert (Hiff : forall value, Validate (Write v content) value = None <->
    DecodeString (trim_quotes (String.list_ascii_of_string value)) = Some (hv_hash v content)).
  { intros value. unfold Validate, convertToChecksum. change (expectedLength (Write v content)) with (expectedLength v). rewrite Hn, Hs.
    set (t := trim_quotes _). split; [by intros; repeat case_match; case_bool_decide; simplify_eq; case_bool_decide; congruence|].
    intros Hd. pose proof (length_DecodeString _ _ Hd) as Hl. rewrite Hlen in Hl. rewrite bool_decide_true by done. rewrite Hd.
    by rewrite bool_decide_true. }
  split; [done|]. intros value. unfold HexValueForByteArray. rewrite Hv, Hs. intros [= <-]. apply Hiff. unfold quoted_hex.
  rewrite !list_ascii_app, String.list_ascii_of_string_of_list_ascii. cbn [String.list_ascii_of_string quote_string app].
  rewrite trim_quotes_quoted by apply EncodeToString_plain. apply DecodeString_EncodeToString.
Qed.

Lemma checksum_exact_witness :
  Validate (Write (mkValidator "md5" md5 []) (String.list_ascii_of_string "abc")) "900150983CD24FB0D6963F7D28E17F72" = None.
Proof.
  destruct (checksum_exact "md5" (mkValidator "md5" md5 []) (String.list_ascii_of_string "abc") eq_refl) as [H _].
  apply H. vm_compute. reflexivity.
Defined.
