(* ===== verification/FileCache.v ===== *)
(** * The cache of downloads

    [cacheddownloader/file_cache.go]: downloads are kept in a directory, as
    tarballs, as expanded directories or as both, with counts of the readers and
    the directories in use; entries that are not in use are evicted, oldest first,
    when room is needed.  Entries are shared: the maps of current and of replaced
    entries, and the readers that are still open, refer to them, so they live in a
    heap.  Every operation holds the cache's lock and is atomic; clients interleave
    them in any order. *)
From Stdlib Require Import ZArith Lia Ascii.
From S2P Require Import Prelude GoStd.
#[local] Open Scope go_scope.

(** ** The state *)

Record CachingInfoType := mkCachingInfo { ETag : string; LastModified : string }.
Definition noCachingInfo : CachingInfoType := mkCachingInfo "" "".

Record FileCacheEntry := mkEntry {
  e_Size : Z;                        (* int64 *)
  e_Access : Z;                      (* nanoseconds *)
  e_CachingInfo : CachingInfoType;
  e_FilePath : string;
  e_ExpandedDirectoryPath : string;
  e_directoryInUseCount : Z;
  e_fileInUseCount : Z }.

Definition set_Size (e : FileCacheEntry) (z : Z) : FileCacheEntry :=
  mkEntry z (e_Access e) (e_CachingInfo e) (e_FilePath e) (e_ExpandedDirectoryPath e) (e_directoryInUseCount e) (e_fileInUseCount e).
Definition set_Access (e : FileCacheEntry) (t : Z) : FileCacheEntry :=
  mkEntry (e_Size e) t (e_CachingInfo e) (e_FilePath e) (e_ExpandedDirectoryPath e) (e_directoryInUseCount e) (e_fileInUseCount e).
Definition set_FilePath (e : FileCacheEntry) (p : string) : FileCacheEntry :=
  mkEntry (e_Size e) (e_Access e) (e_CachingInfo e) p (e_ExpandedDirectoryPath e) (e_directoryInUseCount e) (e_fileInUseCount e).
Definition set_Directory (e : FileCacheEntry) (p : string) : FileCacheEntry :=
  mkEntry (e_Size e) (e_Access e) (e_CachingInfo e) (e_FilePath e) p (e_directoryInUseCount e) (e_fileInUseCount e).
Definition set_directoryInUse (e : FileCacheEntry) (n : Z) : FileCacheEntry :=
  mkEntry (e_Size e) (e_Access e) (e_CachingInfo e) (e_FilePath e) (e_ExpandedDirectoryPath e) n (e_fileInUseCount e).
Definition set_fileInUse (e : FileCacheEntry) (n : Z) : FileCacheEntry :=
  mkEntry (e_Size e) (e_Access e) (e_CachingInfo e) (e_FilePath e) (e_ExpandedDirectoryPath e) (e_directoryInUseCount e) n.

(** What is on disk under a path: a tarball, all of it or what was written before
    an error, or a directory. *)
Inductive Node := Tarball (whole : bool) | Directory.
Abbreviation Disk := (gmap string Node).

#[global] Instance Node_eq_dec : EqDecision Node.
Proof. solve_decision. Defined.

Record FileCache := mkFileCache {
  fc_CachedPath : string;
  fc_maxSizeInBytes : Z;             (* int64 *)
  fc_minimumPartitionFreeBytes : Z;  (* int64 *)
  fc_Entries : gmap string nat;      (* references to the heap *)
  fc_OldEntries : gmap string nat;
  fc_Seq : N;                        (* uint64 *)
  fc_heap : gmap nat FileCacheEntry;
  fc_disk : Disk }.

Definition NewCache (dir : string) (maxSizeInBytes minimumPartitionFreeBytes : Z) : FileCache :=
  mkFileCache dir maxSizeInBytes minimumPartitionFreeBytes ∅ ∅ 0 ∅ ∅.

Definition set_Entries (c : FileCache) (m : gmap string nat) : FileCache :=
  mkFileCache (fc_CachedPath c) (fc_maxSizeInBytes c) (fc_minimumPartitionFreeBytes c) m (fc_OldEntries c) (fc_Seq c) (fc_heap c) (fc_disk c).
Definition set_OldEntries (c : FileCache) (m : gmap string nat) : FileCache :=
  mkFileCache (fc_CachedPath c) (fc_maxSizeInBytes c) (fc_minimumPartitionFreeBytes c) (fc_Entries c) m (fc_Seq c) (fc_heap c) (fc_disk c).
Definition set_entry (c : FileCache) (ref : nat) (de : Disk * FileCacheEntry) : FileCache :=
  mkFileCache (fc_CachedPath c) (fc_maxSizeInBytes c) (fc_minimumPartitionFreeBytes c) (fc_Entries c) (fc_OldEntries c) (fc_Seq c)
    (<[ref := de.2]> (fc_heap c)) de.1.

(** The answers of the operating system to one call, and the time. *)
Record IO := mkIO {
  io_now : Z;
  io_rename : bool;
  io_create : bool;
  io_open : bool;
  io_tar : bool;                     (* compressor.WriteTar *)
  io_seek : bool;
  io_extract : bool;                 (* extractor.Extract *)
  io_rm : string -> bool;            (* os.RemoveAll removes the path *)
  io_free : FileCache -> Z;          (* FreeSpaceFunc *)
  io_order : gmap string nat -> list string }.   (* the order of a range over the map *)

Inductive CacheError := EntryNotFound | AlreadyClosed | IOError.

(** ** Entries *)

Section EntryOperations.
  Context (io : IO).

Definition RemoveAll (d : Disk) (path : string) : Disk :=
  if bool_decide (path = "") then d else if io_rm io path then delete path d else d.

Definition inUse (e : FileCacheEntry) : bool := ((0 <? e_directoryInUseCount e) || (0 <? e_fileInUseCount e))%Z.

Definition decrementDirectoryInUseCount (de : Disk * FileCacheEntry) : Disk * FileCacheEntry :=
  let e := set_directoryInUse de.2 (e_directoryInUseCount de.2 - 1) in
  if ((e_directoryInUseCount e <? 0) || ((e_directoryInUseCount e =? 0) && (0 <? e_fileInUseCount e)))%Z then
    (RemoveAll de.1 (e_ExpandedDirectoryPath e),
     let e := set_Directory e "" in if (0 <? e_fileInUseCount e)%Z then set_Size e (e_Size e ÷ 2) else e)
  else (de.1, e).

Definition decrementFileInUseCount (de : Disk * FileCacheEntry) : Disk * FileCacheEntry :=
  let e := set_fileInUse de.2 (e_fileInUseCount de.2 - 1) in
  if ((e_fileInUseCount e <? 0) || ((e_fileInUseCount e =? 0) && (0 <? e_directoryInUseCount e)))%Z then
    (RemoveAll de.1 (e_FilePath e), if (0 <? e_directoryInUseCount e)%Z then set_Size e (e_Size e ÷ 2) else e)
  else (de.1, e).

Definition decrementUse (de : Disk * FileCacheEntry) : Disk * FileCacheEntry :=
  decrementDirectoryInUseCount (decrementFileInUseCount de).

Definition fileDoesNotExist (d : Disk) (e : FileCacheEntry) : bool := bool_decide (d !! e_FilePath e = None).
Definition dirDoesNotExist (d : Disk) (e : FileCacheEntry) : bool :=
  bool_decide (e_ExpandedDirectoryPath e = "") || bool_decide (d !! e_ExpandedDirectoryPath e = None).

(** [os.Create] and [WriteTar] of the directory; without a directory the latter
    writes the root of the file system. *)
Definition write_tarball (de : Disk * FileCacheEntry) : (Disk * FileCacheEntry) * bool :=
  let '(d, e) := de in
  if negb (io_create io) then (de, false)
  else if negb (io_tar io && (bool_decide (e_ExpandedDirectoryPath e = "") || negb (dirDoesNotExist d e)))
  then ((<[e_FilePath e := Tarball false]> d, e), false)
  else
    let d := <[e_FilePath e := Tarball true]> d in
    if (e_directoryInUseCount e =? 0)%Z then ((RemoveAll d (e_ExpandedDirectoryPath e), e), true)
    else ((d, set_Size e (i64 (e_Size e * 2))), true).

(** [readCloser]; whether a reader is returned. *)
Definition readCloser (de : Disk * FileCacheEntry) : (Disk * FileCacheEntry) * bool :=
  let '(de, opened) := if fileDoesNotExist de.1 de.2 then write_tarball de else (de, io_open io) in
  if opened then ((de.1, set_fileInUse de.2 (e_fileInUseCount de.2 + 1)), io_seek io) else (de, false).

(** [expandedDirectory]; the path, or an error. *)
Definition expandedDirectory (de : Disk * FileCacheEntry) : (Disk * FileCacheEntry) * option string :=
  let used (de : Disk * FileCacheEntry) :=
    ((de.1, set_directoryInUse de.2 (e_directoryInUseCount de.2 + 1)), Some (e_ExpandedDirectoryPath de.2)) in
  let '(d, e) := de in
  if dirDoesNotExist d e then
    let path := e_FilePath e +:+ ".d" in
    if io_extract io && negb (fileDoesNotExist d e) then
      let d := <[path := Directory]> d in
      used (if (e_fileInUseCount e =? 0)%Z then RemoveAll d (e_FilePath e) else d, set_Directory e path)
    else ((RemoveAll d path, set_Directory e ""), None)
  else used (d, e).

(** ** The cache *)

Definition lookup_entry (c : FileCache) (key : string) : option (nat * FileCacheEntry) :=
  ref ← fc_Entries c !! key; e ← fc_heap c !! ref; Some (ref, e).

Definition updateOldEntries (c : FileCache) (key : string) (ref : nat) : FileCache :=
  match fc_heap c !! ref with
  | Some e =>
      if negb (bool_decide (e_ExpandedDirectoryPath e = "")) then
        set_OldEntries c (<[key +:+ e_ExpandedDirectoryPath e := ref]> (fc_OldEntries c))
      else if negb (inUse e) then set_OldEntries c (delete (key +:+ e_ExpandedDirectoryPath e) (fc_OldEntries c))
      else c
  | None => c
  end.

(** [decrementUse] of an entry of the heap, and [updateOldEntries]. *)
Definition retire (c : FileCache) (key : string) (ref : nat) : FileCache :=
  match fc_heap c !! ref with
  | Some e => updateOldEntries (set_entry c ref (decrementUse (fc_disk c, e))) key ref
  | None => c
  end.

Definition remove (c : FileCache) (key : string) : FileCache :=
  match fc_Entries c !! key with
  | Some ref => let c := retire c key ref in set_Entries c (delete key (fc_Entries c))
  | None => c
  end.

Definition usedSpace (c : FileCache) : Z :=
  map_fold (fun _ ref space => match fc_heap c !! ref with Some e => i64 (space + e_Size e) | None => space end) 0%Z (fc_Entries c).

(** The last time there is, in nanoseconds. *)
Definition maxTime : Z :=
  let unixToInternal := ((1969 * 365 + 1969 / 4 - 1969 / 100 + 1969 / 400) * 24 * 60 * 60)%Z in
  ((2 ^ 63 - 1 - unixToInternal) * 10 ^ 9 + 999999999)%Z.

(** The oldest entry that is not in use, by the order of the map. *)
Definition oldest (c : FileCache) (excludedCacheKey : string) : option (string * FileCacheEntry) :=
  foldl (fun best key =>
    match lookup_entry c key with
    | Some (_, e) =>
        if bool_decide (e_Access e < match best with Some (_, b) => e_Access b | None => maxTime end)%Z &&
           negb (bool_decide (key = excludedCacheKey)) && negb (inUse e)
        then Some (key, e) else best
    | None => best
    end) None (io_order io (fc_Entries c)).

Definition crowded (c : FileCache) (usedSpace size : Z) : bool :=
  (fc_maxSizeInBytes c <? i64 (usedSpace + size))%Z ||
  ((0 <? fc_minimumPartitionFreeBytes c) && (io_free io c <? fc_minimumPartitionFreeBytes c))%Z.

(** The loop of [makeRoom]; each round removes an entry, so that one more than the
    number of entries is enough. *)
Fixpoint make_room_loop (fuel : nat) (c : FileCache) (usedSpace size : Z) (excludedCacheKey : string) : FileCache :=
  match fuel with
  | 0 => c
  | S fuel =>
      if crowded c usedSpace size then
        match oldest c excludedCacheKey with
        | Some (key, e) => make_room_loop fuel (remove c key) (i64 (usedSpace - e_Size e)) size excludedCacheKey
        | None => c
        end
      else c
  end.

Definition makeRoom (c : FileCache) (size : Z) (excludedCacheKey : string) : FileCache :=
  make_room_loop (S (base.size (fc_Entries c))) c (usedSpace c) size excludedCacheKey.

(** ** The operations *)

Definition MakeRoom (c : FileCache) : FileCache := makeRoom c 0 "".

Definition uniqueName (c : FileCache) (key : string) : string :=
  (fc_CachedPath c +:+ "/" +:+ key +:+ "-" +:+ pretty (io_now io)) +:+ "-" +:+ pretty (fc_Seq c).

(** The part that [Add] and [AddDirectory] share: the entry, and its reference,
    before it is opened; [None] when the file cannot be moved into the cache. *)
Definition add_entry (c : FileCache) (key : string) (size : Z) (info : CachingInfoType) : FileCache * option nat :=
  let oldEntry := fc_Entries c !! key in
  let c := makeRoom c size "" in
  let c := mkFileCache (fc_CachedPath c) (fc_maxSizeInBytes c) (fc_minimumPartitionFreeBytes c) (fc_Entries c) (fc_OldEntries c)
             ((fc_Seq c + 1) mod 2 ^ 64) (fc_heap c) (fc_disk c) in
  if negb (io_rename io) then (c, None)
  else
    let cachePath := uniqueName c key in
    let ref := fresh (dom (fc_heap c)) in
    let c := set_entry c ref (<[cachePath := Tarball true]> (fc_disk c), mkEntry size (io_now io) info cachePath "" 0 0) in
    let c := set_Entries c (<[key := ref]> (fc_Entries c)) in
    (match oldEntry with Some old => retire c key old | None => c end, Some ref).

Definition Add (c : FileCache) (key : string) (size : Z) (info : CachingInfoType) : FileCache * result CacheError nat :=
  match add_entry c key size info with
  | (c, Some ref) =>
      match fc_heap c !! ref with
      | Some e => let '(de, ok) := readCloser (fc_disk c, e) in (set_entry c ref de, if ok then Ok ref else Err IOError)
      | None => (c, Err IOError)
      end
  | (c, None) => (c, Err IOError)
  end.

Definition AddDirectory (c : FileCache) (key : string) (size : Z) (info : CachingInfoType)
    : FileCache * result CacheError (nat * string) :=
  match add_entry c key size info with
  | (c, Some ref) =>
      match fc_heap c !! ref with
      | Some e =>
          let '(de, path) := expandedDirectory (fc_disk c, e) in
          (set_entry c ref de, match path with Some path => Ok (ref, path) | None => Err IOError end)
      | None => (c, Err IOError)
      end
  | (c, None) => (c, Err IOError)
  end.

Definition Get (c : FileCache) (key : string) : FileCache * result CacheError (nat * CachingInfoType) :=
  match lookup_entry c key with
  | None => (c, Err EntryNotFound)
  | Some (ref, e) =>
      let c := if fileDoesNotExist (fc_disk c) e then makeRoom c (e_Size e) key else c in
      let e := default e (fc_heap c !! ref) in
      let '(de, ok) := readCloser (fc_disk c, set_Access e (io_now io)) in
      (set_entry c ref de, if ok then Ok (ref, e_CachingInfo e) else Err IOError)
  end.

Definition GetDirectory (c : FileCache) (key : string) : FileCache * result CacheError (nat * string * CachingInfoType) :=
  match lookup_entry c key with
  | None => (c, Err EntryNotFound)
  | Some (ref, e) =>
      let expanding := dirDoesNotExist (fc_disk c) e in
      let c := if expanding then makeRoom c (e_Size e) key else c in
      let e := default e (fc_heap c !! ref) in
      let e := if expanding then set_Size e (i64 (e_Size e * 2)) else e in
      let '(de, path) := expandedDirectory (fc_disk c, set_Access e (io_now io)) in
      match path with
      | None => (set_entry c ref de, Err IOError)
      | Some dir =>
          let e := if expanding && fileDoesNotExist de.1 de.2 then set_Size de.2 (e_Size de.2 ÷ 2) else de.2 in
          (set_entry c ref (de.1, e), Ok (ref, dir, e_CachingInfo e))
      end
  end.

Definition Remove (c : FileCache) (key : string) : FileCache := remove c key.

(** The end of a reader: the entry it was opened from, current or not. *)
Definition close_reader (c : FileCache) (ref : nat) : FileCache :=
  match fc_heap c !! ref with
  | Some e => set_entry c ref (decrementFileInUseCount (fc_disk c, e))
  | None => c
  end.

Definition close_old (c : FileCache) (oldKey : string) (ref : nat) (e : FileCacheEntry) : FileCache :=
  let '(d, e) := decrementDirectoryInUseCount (fc_disk c, e) in
  if inUse e then set_entry c ref (d, e)
  else
    let d := RemoveAll (RemoveAll d (e_ExpandedDirectoryPath e)) (e_FilePath e) in
    let c := set_entry c ref (d, set_FilePath (set_Directory e "") "") in
    set_OldEntries c (delete oldKey (fc_OldEntries c)).

Definition CloseDirectory (c : FileCache) (key dirPath : string) : FileCache * option CacheError :=
  let old :=
    match fc_OldEntries c !! (key +:+ dirPath) with
    | Some ref => match fc_heap c !! ref with
                  | Some e => (close_old c (key +:+ dirPath) ref e, None)
                  | None => (c, Some EntryNotFound)
                  end
    | None => (c, Some EntryNotFound)
    end in
  match lookup_entry c key with
  | Some (ref, e) =>
      if bool_decide (e_ExpandedDirectoryPath e = dirPath) then
        if (e_directoryInUseCount e =? 0)%Z then (c, Some AlreadyClosed)
        else (set_entry c ref (decrementDirectoryInUseCount (fc_disk c, e)), None)
      else old
  | None => old
  end.
End EntryOperations.
