(* ===== verification/FileCacheProps.v ===== *)
(** * What is in use stays in the cache

    Clients open readers and directories and close each of them once, in any
    interleaving, while downloads replace entries and room is made for them.  The
    counts of a current entry are those of its users, and what they use is on disk.
    For replaced entries this fails: the directory is deleted when the first of
    several users closes it. *)
From Stdlib Require Import ZArith Lia Ascii.
From S2P Require Import Prelude GoStd FileCache.

(** ** Unique names *)

Definition is_digit (a : ascii) : bool := let n := N_of_ascii a in ((48 <=? n) && (n <=? 57))%N.
Fixpoint digits (s : string) : bool :=
  match s with
  | "" => true
  | String a s => is_digit a && digits s
  end.

Lemma pretty_N_char_digit (x : N) : is_digit (pretty_N_char (x mod 10)) = true.
Proof.
  assert (H : (x mod 10 < 10)%N) by (apply N.mod_lt; lia). revert H. generalize (x mod 10)%N. intros y H.
  assert (Hy : (y = 0 \/ y = 1 \/ y = 2 \/ y = 3 \/ y = 4 \/ y = 5 \/ y = 6 \/ y = 7 \/ y = 8 \/ y = 9)%N) by lia.
  by destruct Hy as [->|[->|[->|[->|[->|[->|[->|[->|[->| ->]]]]]]]]].
Qed.

Lemma digits_pretty (n : N) : digits (pretty n) = true.
Proof.
  assert (H : forall s, digits s = true -> digits (pretty_N_go n s) = true).
  { induction (N.lt_wf_0 n) as [n _ IH]; intros s Hs. destruct (decide (n = 0%N)) as [->|Hn]; [by rewrite pretty_N_go_0|].
    rewrite pretty_N_go_step by lia. apply IH; [apply N.div_lt; lia|]. cbn. by rewrite pretty_N_char_digit. }
  unfold pretty, pretty_N. destruct (decide (n = 0%N)) as [->|Hn]; [done|]. by apply H.
Qed.

(** What follows the last dash. *)
Fixpoint after_dash (s : string) : option string :=
  match s with
  | "" => None
  | String a s =>
      match after_dash s with
      | Some t => Some t
      | None => if Ascii.eqb a "-" then Some s else None
      end
  end.

Lemma after_dash_digits (s : string) : digits s = true -> after_dash s = None.
Proof.
  induction s as [|a s IH]; cbn; [done|]. intros [Ha Hs]%andb_prop. rewrite IH by done.
  destruct (Ascii.eqb_spec a "-"); [|done]. by subst.
Qed.

Lemma after_dash_app (a x : string) : after_dash x = None -> after_dash (a +:+ "-" +:+ x) = Some x.
Proof.
  intros Hx. induction a as [|b a IH].
  - change (after_dash (String "-" x) = Some x). cbn [after_dash]. by rewrite Hx.
  - change (after_dash (String b (a +:+ "-" +:+ x)) = Some x). cbn [after_dash]. by rewrite IH.
Qed.

Lemma digits_dot (s : string) : digits (s +:+ ".d") = false.
Proof.
  induction s as [|a s IH]; [done|]. change (is_digit a && digits (s +:+ ".d") = false). by rewrite IH, andb_false_r.
Qed.

Lemma after_dash_dot (x : string) : digits x = true -> after_dash (x +:+ ".d") = None.
Proof.
  induction x as [|a x IH]; [done|]. cbn [digits]. intros [Ha Hx]%andb_prop.
  change (after_dash (String a (x +:+ ".d")) = None). cbn [after_dash]. rewrite IH by done.
  destruct (Ascii.eqb_spec a "-"); [|done]. by subst.
Qed.

Lemma string_app_inj_r (a b t : string) : a +:+ t = b +:+ t -> a = b.
Proof.
  assert (Hlen : forall u, String.length (u +:+ t) = String.length u + String.length t).
  { induction u as [|x u IH]; [done|]. change (S (String.length (u +:+ t)) = S (String.length u + String.length t)). by rewrite IH. }
  intros H. pose proof (f_equal String.length H) as Hl. rewrite !Hlen in Hl. revert b H Hl.
  induction a as [|x a IH]; intros [|y b] H Hl; [done|cbn in Hl; lia|cbn in Hl; lia|].
  assert (H' : String x (a +:+ t) = String y (b +:+ t)) by exact H. simplify_eq. f_equal. apply IH; [done|]. cbn in Hl. lia.
Qed.

(** The paths under which entries are stored, with the number in their name. *)
Definition path_of (dir key : string) (t : Z) (n : N) : string :=
  (dir +:+ "/" +:+ key +:+ "-" +:+ pretty t) +:+ "-" +:+ pretty n.

Lemma path_of_after_dash (dir key : string) (t : Z) (n : N) : after_dash (path_of dir key t n) = Some (pretty n).
Proof. apply after_dash_app, after_dash_digits, digits_pretty. Qed.

Lemma path_of_inj (dir key key' : string) (t t' : Z) (n n' : N) : path_of dir key t n = path_of dir key' t' n' -> n = n'.
Proof. intros H. apply (f_equal after_dash) in H. rewrite !path_of_after_dash in H. by simplify_eq. Qed.

Lemma path_of_not_directory (dir key key' : string) (t t' : Z) (n n' : N) :
  path_of dir key t n +:+ ".d" <> path_of dir key' t' n'.
Proof.
  intros H. apply (f_equal after_dash) in H. rewrite path_of_after_dash in H. unfold path_of in H.
  rewrite string_app_assoc, (string_app_assoc "-") in H.
  rewrite after_dash_app in H by (apply after_dash_dot, digits_pretty). injection H as H.
  pose proof (digits_dot (pretty n)) as Hd. by rewrite H, digits_pretty in Hd.
Qed.

(** ** One entry *)

Definition own_path (e : FileCacheEntry) (p : string) : Prop := p = e_FilePath e \/ p = e_FilePath e +:+ ".d".
Definition shape (e : FileCacheEntry) : Prop :=
  e_ExpandedDirectoryPath e = "" \/ e_ExpandedDirectoryPath e = e_FilePath e +:+ ".d".

(** An operation on an entry changes only its own files. *)
Definition touches (de de' : Disk * FileCacheEntry) : Prop :=
  e_FilePath de'.2 = e_FilePath de.2 /\ shape de'.2 /\ forall p, ~ own_path de.2 p -> de'.1 !! p = de.1 !! p.

(** An entry with [readers] open readers and [dirs] open directories. *)
Definition entry_ok (readers dirs : nat) (de : Disk * FileCacheEntry) : Prop :=
  let '(d, e) := de in
  e_FilePath e <> "" /\ shape e /\ e_directoryInUseCount e = Z.of_nat dirs /\ (Z.of_nat readers <= e_fileInUseCount e)%Z /\
  (dirs <> 0 -> e_ExpandedDirectoryPath e <> "" /\ is_Some (d !! e_ExpandedDirectoryPath e)) /\
  ((0 < e_fileInUseCount e)%Z -> is_Some (d !! e_FilePath e)) /\
  (is_Some (d !! e_FilePath e) \/ (e_ExpandedDirectoryPath e <> "" /\ is_Some (d !! e_ExpandedDirectoryPath e))).

Lemma path_not_directory (p : string) : p +:+ ".d" <> p.
Proof. intros H. induction p as [|a p IH]; [done|]. apply IH. assert (H' : String a (p +:+ ".d") = String a p) by exact H. by simplify_eq. Qed.

Section Entry.
  Context (io : IO).

Lemma RemoveAll_other (d : Disk) (path p : string) : p <> path -> RemoveAll io d path !! p = d !! p.
Proof. intros Hp. unfold RemoveAll. repeat case_match; try done. by rewrite lookup_delete_ne. Qed.

Lemma touches_refl (d : Disk) (e : FileCacheEntry) : shape e -> touches (d, e) (d, e).
Proof. by split. Qed.

Lemma touches_trans (x y z : Disk * FileCacheEntry) : touches x y -> touches y z -> touches x z.
Proof.
  intros (H1 & H2 & H3) (H4 & H5 & H6). split; [by rewrite H4|]. split; [done|]. intros p Hp. rewrite H6, H3; [done|done|].
  unfold own_path in *. by rewrite H1.
Qed.

Lemma own_directory (e : FileCacheEntry) (p : string) : shape e -> ~ own_path e p -> p <> "" -> p <> e_ExpandedDirectoryPath e.
Proof. intros [->| ->] Hp; [done|]. unfold own_path in Hp. naive_solver. Qed.

Lemma RemoveAll_directory (d : Disk) (e : FileCacheEntry) (p : string) :
  shape e -> ~ own_path e p -> RemoveAll io d (e_ExpandedDirectoryPath e) !! p = d !! p.
Proof.
  intros [->| ->] Hp; [done|]. apply RemoveAll_other. unfold own_path in Hp. naive_solver.
Qed.

Lemma touches_decrementDirectory (d : Disk) (e : FileCacheEntry) : shape e -> touches (d, e) (decrementDirectoryInUseCount io (d, e)).
Proof.
  intros Hs. unfold decrementDirectoryInUseCount. case_match; [|by split]. split; [by case_match|].
  split; [left; by case_match|]. intros p Hp. cbn in *. by apply RemoveAll_directory.
Qed.

Lemma touches_decrementFile (d : Disk) (e : FileCacheEntry) : shape e -> touches (d, e) (decrementFileInUseCount io (d, e)).
Proof.
  intros Hs. unfold decrementFileInUseCount. case_match; [|by split]. split; [by case_match|].
  split; [by case_match|]. intros p Hp. cbn in *. apply RemoveAll_other. unfold own_path in Hp. naive_solver.
Qed.

Lemma touches_decrementUse (d : Disk) (e : FileCacheEntry) : shape e -> touches (d, e) (decrementUse io (d, e)).
Proof.
  intros Hs. unfold decrementUse. pose proof (touches_decrementFile d e Hs) as H. eapply touches_trans; [exact H|].
  destruct (decrementFileInUseCount io (d, e)) as [d' e']. apply touches_decrementDirectory, H.
Qed.

Lemma touches_readCloser (d : Disk) (e : FileCacheEntry) : shape e -> touches (d, e) (readCloser io (d, e)).1.
Proof.
  intros Hs. unfold readCloser. cbn [fst snd]. destruct (fileDoesNotExist d e) eqn:Hf; [|destruct (io_open io); by split_and!].
  assert (Hw : touches (d, e) (write_tarball io (d, e)).1).
  { unfold write_tarball. assert (Hi : forall b p, ~ own_path e p -> <[e_FilePath e := Tarball b]> d !! p = d !! p).
    { intros b p Hp. rewrite lookup_insert_ne; [done|]. unfold own_path in Hp. naive_solver. }
    repeat case_match; cbn; split_and!; try done; cbn; intros p Hp; rewrite ?RemoveAll_directory by done; try done; by apply Hi. }
  destruct (write_tarball io (d, e)) as [[d' e'] []]; exact Hw.
Qed.

Lemma touches_expandedDirectory (d : Disk) (e : FileCacheEntry) : shape e -> touches (d, e) (expandedDirectory io (d, e)).1.
Proof.
  intros Hs. unfold expandedDirectory. repeat case_match; cbn; split_and!; cbn; try done; try (by right); try (by left).
  - intros p Hp. unfold own_path in Hp. rewrite RemoveAll_other by naive_solver. rewrite lookup_insert_ne by naive_solver. done.
  - intros p Hp. unfold own_path in Hp. rewrite lookup_insert_ne by naive_solver. done.
  - intros p Hp. unfold own_path in Hp. rewrite RemoveAll_other by naive_solver. done.
Qed.

Lemma RemoveAll_keeps (d : Disk) (path p : string) : p <> path -> is_Some (d !! p) -> is_Some (RemoveAll io d path !! p).
Proof. intros Hp. by rewrite RemoveAll_other. Qed.

Lemma shape_not_file (e : FileCacheEntry) : shape e -> e_ExpandedDirectoryPath e <> "" -> e_ExpandedDirectoryPath e <> e_FilePath e.
Proof. intros [->| ->] H; [done|]. apply path_not_directory. Qed.

Lemma close_directory_ok (readers dirs : nat) (d : Disk) (e : FileCacheEntry) :
  entry_ok readers (S dirs) (d, e) -> entry_ok readers dirs (decrementDirectoryInUseCount io (d, e)).
Proof.
  intros (Hp & Hs & Hd & Hr & Hdir & Hfile & Hor). unfold decrementDirectoryInUseCount. cbn. destruct Hdir as [Hne Hdir]; [done|].
  pose proof (shape_not_file e Hs Hne) as Hnf. case_match eqn:Hc.
  - assert (dirs = 0 /\ (0 < e_fileInUseCount e)%Z) as [-> Hf] by lia.
    rewrite (proj2 (Z.ltb_lt _ _) Hf). cbn. split_and!; try done; try lia; [by left| |].
    + intros _. apply RemoveAll_keeps; [done|]. by apply Hfile.
    + left. apply RemoveAll_keeps; [done|]. by apply Hfile.
  - cbn. split_and!; try done; lia.
Qed.

Lemma close_reader_ok (readers dirs : nat) (d : Disk) (e : FileCacheEntry) :
  entry_ok (S readers) dirs (d, e) -> entry_ok readers dirs (decrementFileInUseCount io (d, e)).
Proof.
  intros (Hp & Hs & Hd & Hr & Hdir & Hfile & Hor). unfold decrementFileInUseCount. cbn. case_match eqn:Hc.
  - assert (dirs <> 0 /\ (e_fileInUseCount e - 1 = 0)%Z) as [Hn Hf] by lia. destruct (Hdir Hn) as [Hne Hsome].
    pose proof (shape_not_file e Hs Hne) as Hnf. rewrite (proj2 (Z.ltb_lt _ _)) by (cbn; lia). cbn.
    split_and!; try done; try lia.
    + intros _. split; [done|]. by apply RemoveAll_keeps.
    + right. split; [done|]. by apply RemoveAll_keeps.
  - cbn. split_and!; try done; try lia. intros H. apply Hfile. lia.
Qed.

Lemma open_reader_ok (readers dirs : nat) (d : Disk) (e : FileCacheEntry) :
  entry_ok readers dirs (d, e) ->
  entry_ok (if (readCloser io (d, e)).2 then S readers else readers) dirs (readCloser io (d, e)).1.
Proof.
  intros (Hp & Hs & Hd & Hr & Hdir & Hfile & Hor). unfold readCloser. cbn [fst snd].
  destruct (fileDoesNotExist d e) eqn:Hx.
  - apply bool_decide_eq_true in Hx. destruct Hor as [[? Hor]|[Hne Hsome]]; [congruence|].
    assert (Hf0 : (e_fileInUseCount e <= 0)%Z).
    { destruct (Z.ltb_spec 0 (e_fileInUseCount e)) as [Hlt|]; [|done]. destruct (Hfile Hlt) as [? ?]. congruence. }
    pose proof (shape_not_file e Hs Hne) as Hnf. unfold write_tarball. destruct (io_create io); [|by split_and!; auto].
    assert (Hdir' : forall b, is_Some ((<[e_FilePath e := Tarball b]> d) !! e_ExpandedDirectoryPath e)).
    { intros b. by rewrite lookup_insert_ne. }
    cbn [negb]. destruct (negb (io_tar io && _)).
    + cbn. split_and!; try done.
      * intros _. rewrite lookup_insert_eq. eauto.
      * left. rewrite lookup_insert_eq. eauto.
    + assert (He : exists d' sz, (if (e_directoryInUseCount e =? 0)%Z
          then (RemoveAll io (<[e_FilePath e := Tarball true]> d) (e_ExpandedDirectoryPath e), e, true)
          else (<[e_FilePath e := Tarball true]> d, set_Size e (i64 (e_Size e * 2)), true)) = (d', set_Size e sz, true) /\
          is_Some (d' !! e_FilePath e) /\ (dirs <> 0 -> is_Some (d' !! e_ExpandedDirectoryPath e))).
      { destruct (Z.eqb_spec (e_directoryInUseCount e) 0).
        - eexists _, (e_Size e). split; [by destruct e|]. split; [|lia]. apply RemoveAll_keeps; [done|]. rewrite lookup_insert_eq. eauto.
        - eexists _, _. split; [done|]. split; [rewrite lookup_insert_eq; eauto|]. intros _. apply Hdir'. }
      destruct He as (d' & sz & -> & Hf & Hd'). destruct (io_seek io); cbn; split_and!; try done; try lia; try (by left); auto.
  - apply bool_decide_eq_false in Hx. destruct (io_open io); [|by split_and!; auto].
    destruct (io_seek io); cbn; split_and!; try done; try lia; intros; apply not_eq_None_Some, Hx.
Qed.

Lemma open_directory_ok (readers dirs : nat) (d : Disk) (e : FileCacheEntry) :
  entry_ok readers dirs (d, e) ->
  match expandedDirectory io (d, e) with
  | (de, Some path) => entry_ok readers (S dirs) de /\ path = e_ExpandedDirectoryPath de.2 /\
                       (dirs <> 0 -> path = e_ExpandedDirectoryPath e)
  | (de, None) => entry_ok readers dirs de /\ dirs = 0
  end.
Proof.
  intros (Hp & Hs & Hd & Hr & Hdir & Hfile & Hor). unfold expandedDirectory.
  destruct (dirDoesNotExist d e) eqn:Hx.
  - assert (dirs = 0) as ->.
    { destruct (decide (dirs = 0)) as [|Hn]; [done|]. destruct (Hdir Hn) as [Hne [x Hsome]].
      unfold dirDoesNotExist in Hx. apply orb_prop in Hx as [Hx|Hx]; apply bool_decide_eq_true in Hx; congruence. }
    assert (Hf : is_Some (d !! e_FilePath e)).
    { destruct Hor as [?|[Hne [x Hsome]]]; [done|]. unfold dirDoesNotExist in Hx.
      apply orb_prop in Hx as [Hx|Hx]; apply bool_decide_eq_true in Hx; congruence. }
    pose proof (path_not_directory (e_FilePath e)) as Hne.
    assert (Hne' : e_FilePath e +:+ ".d" <> "") by (by destruct (e_FilePath e)).
    destruct (io_extract io && _).
    + split; [|done]. cbn.
      assert (Hd' : is_Some ((if (e_fileInUseCount e =? 0)%Z then RemoveAll io (<[e_FilePath e +:+ ".d":=Directory]> d) (e_FilePath e)
          else <[e_FilePath e +:+ ".d":=Directory]> d) !! (e_FilePath e +:+ ".d"))).
      { case_match; [apply RemoveAll_keeps; [done|]|]; rewrite lookup_insert_eq; eauto. }
      split_and!; try done; try lia; try (by right); auto.
      intros Hlt. destruct (Z.eqb_spec (e_fileInUseCount e) 0); [lia|]. by rewrite lookup_insert_ne.
    + split; [|done]. cbn. assert (Hk : is_Some (RemoveAll io d (e_FilePath e +:+ ".d") !! e_FilePath e)) by (by apply RemoveAll_keeps).
      split_and!; try done; auto. by left.
  - assert (Hdx : e_ExpandedDirectoryPath e <> "" /\ is_Some (d !! e_ExpandedDirectoryPath e)).
    { unfold dirDoesNotExist in Hx. apply orb_false_iff in Hx as [H1 H2]. apply bool_decide_eq_false in H1, H2.
      split; [done|]. by apply not_eq_None_Some. }
    cbn. split; [|done]. split_and!; try done; lia.
Qed.
End Entry.

Lemma entry_ok_disk (readers dirs : nat) (d d' : Disk) (e : FileCacheEntry) :
  (forall p, own_path e p -> d' !! p = d !! p) -> entry_ok readers dirs (d, e) -> entry_ok readers dirs (d', e).
Proof.
  intros Hd (Hp & Hs & Hc & Hr & Hdir & Hfile & Hor).
  assert (Hf : d' !! e_FilePath e = d !! e_FilePath e) by (apply Hd; by left).
  assert (He : e_ExpandedDirectoryPath e <> "" -> d' !! e_ExpandedDirectoryPath e = d !! e_ExpandedDirectoryPath e).
  { intros Hne. apply Hd. right. by destruct Hs. }
  split_and!; try done.
  - intros Hn. destruct (Hdir Hn) as [Hne ?]. split; [done|]. by rewrite He.
  - by rewrite Hf.
  - rewrite Hf. destruct Hor as [?|[Hne ?]]; [by left|right]. split; [done|]. by rewrite He.
Qed.

(** ** The cache and its clients *)

(** Who uses what: the entries of the open readers, and for each open directory the
    key, the entry and the path. *)
Abbreviation Handle := (string * nat * string)%type.

Lemma filter_none {A} (P : A -> Prop) `{!forall x, Decision (P x)} (l : list A) : (forall x, x ∈ l -> ~ P x) -> filter P l = [].
Proof.
  induction l as [|x l IH]; intros Hl; [done|]. rewrite filter_cons_False by (apply Hl, list_elem_of_here).
  apply IH. intros y Hy. by apply Hl, list_elem_of_further.
Qed.

Definition readers_of (r : nat) (readers : list nat) : nat := length (filter (fun r' => r' = r) readers).
Definition dirs_of (r : nat) (dirs : list Handle) : nat := length (filter (fun h => h.1.2 = r) dirs).

Definition named (c : FileCache) (p : string) : Prop :=
  exists key t n, p = path_of (fc_CachedPath c) key t n /\ (n <= fc_Seq c)%N.

Record cache_inv (c : FileCache) (readers : list nat) (dirs : list Handle) : Prop := {
  ci_named : forall r e, fc_heap c !! r = Some e ->
    (e_FilePath e = "" /\ e_ExpandedDirectoryPath e = "") \/ (named c (e_FilePath e) /\ shape e);
  ci_unique : forall r r' e e', fc_heap c !! r = Some e -> fc_heap c !! r' = Some e' -> r <> r' -> e_FilePath e <> "" ->
    e_FilePath e <> e_FilePath e';
  ci_refs : forall key r, fc_Entries c !! key = Some r -> is_Some (fc_heap c !! r);
  ci_inj : forall key key' r, fc_Entries c !! key = Some r -> fc_Entries c !! key' = Some r -> key = key';
  ci_old : forall v r, fc_OldEntries c !! v = Some r -> is_Some (fc_heap c !! r) /\ forall key, fc_Entries c !! key <> Some r;
  ci_dirs : forall key r p, (key, r, p) ∈ dirs -> is_Some (fc_heap c !! r) /\ (exists q, named c q /\ p = q +:+ ".d") /\
    forall r' e', fc_heap c !! r' = Some e' -> r' <> r -> p <> e_FilePath e' +:+ ".d";
  ci_readers : forall r, r ∈ readers -> is_Some (fc_heap c !! r);
  ci_current : forall key r e, fc_Entries c !! key = Some r -> fc_heap c !! r = Some e ->
    entry_ok (readers_of r readers) (dirs_of r dirs) (fc_disk c, e) /\
    forall key' p, (key', r, p) ∈ dirs -> key' = key /\ p = e_ExpandedDirectoryPath e }.

Lemma named_not_empty (c : FileCache) (p : string) : named c p -> p <> "" /\ p <> ".d".
Proof.
  intros (key & t & n & -> & _). pose proof (path_of_after_dash (fc_CachedPath c) key t n) as H.
  split; intros Hp; rewrite Hp in H; done.
Qed.

Lemma named_not_directory (c : FileCache) (p q : string) : named c p -> named c q -> p +:+ ".d" <> q.
Proof. intros (? & ? & ? & -> & _) (? & ? & ? & -> & _). apply path_of_not_directory. Qed.

Lemma directory_not_empty (p : string) : p <> "" -> p +:+ ".d" <> ".d" /\ p +:+ ".d" <> "".
Proof. intros Hp. split; [|by destruct p]. intros H. apply Hp. by apply (string_app_inj_r _ "" ".d"). Qed.

(** The files of different entries are different. *)
Lemma other_paths (c : FileCache) readers dirs (r r' : nat) (e e' : FileCacheEntry) (p : string) :
  cache_inv c readers dirs -> fc_heap c !! r = Some e -> fc_heap c !! r' = Some e' -> r <> r' -> e_FilePath e' <> "" ->
  own_path e' p -> ~ own_path e p.
Proof.
  intros Hi He He' Hne Hp Ho. destruct (ci_named _ _ _ Hi r' e' He') as [[? _]|[Hn' _]]; [done|].
  pose proof (ci_unique _ _ _ Hi r' r e' e He' He (not_eq_sym Hne) Hp) as Hu.
  destruct (named_not_empty _ _ Hn') as [Hx1 Hx2]. destruct (directory_not_empty _ Hp) as [Hx3 Hx4].
  destruct (ci_named _ _ _ Hi r e He) as [[Hz _]|[Hn _]].
  - unfold own_path in *. rewrite Hz. change ("" +:+ ".d") with ".d". destruct Ho as [-> | ->]; intros [?|?]; done.
  - pose proof (named_not_directory _ _ _ Hn Hn') as H1. pose proof (named_not_directory _ _ _ Hn' Hn) as H2.
    destruct Ho as [-> | ->]; intros [Hq|Hq]; try done. by apply string_app_inj_r in Hq.
Qed.

(** *** Changing one entry *)

Lemma inv_set_entry (c : FileCache) readers dirs readers' dirs' (r : nat) (e : FileCacheEntry) (de : Disk * FileCacheEntry) :
  cache_inv c readers dirs -> fc_heap c !! r = Some e ->
  (e_FilePath de.2 = e_FilePath e /\ shape de.2 /\ (e_FilePath e = "" -> e_ExpandedDirectoryPath de.2 = "")) \/
  (e_FilePath de.2 = "" /\ e_ExpandedDirectoryPath de.2 = "") ->
  (forall p, ~ own_path e p -> de.1 !! p = fc_disk c !! p) ->
  (forall r', r' <> r -> readers_of r' readers' = readers_of r' readers /\ dirs_of r' dirs' = dirs_of r' dirs) ->
  (forall r', r' ∈ readers' -> r' = r \/ r' ∈ readers) ->
  (forall h, h ∈ dirs' -> h ∈ dirs \/ (h.1.2 = r /\ h.2 = e_FilePath e +:+ ".d" /\ named c (e_FilePath e))) ->
  (forall key, fc_Entries c !! key = Some r ->
     entry_ok (readers_of r readers') (dirs_of r dirs') de /\
     forall key' p, (key', r, p) ∈ dirs' -> key' = key /\ p = e_ExpandedDirectoryPath de.2) ->
  cache_inv (set_entry c r de) readers' dirs'.
Proof.
  intros Hi He Hpath Hdisk Hcount Hreaders Hdirs Hcur.
  assert (Hshape : (e_FilePath de.2 = "" /\ e_ExpandedDirectoryPath de.2 = "") \/ (named c (e_FilePath de.2) /\ shape de.2)).
  { destruct Hpath as [(H3 & H4 & H5)|?]; [|by left]. destruct (ci_named _ _ _ Hi r e He) as [[H1 H2]|[H1 H2]].
    - left. split; [congruence|auto].
    - right. by rewrite H3. }
  assert (Hfile : e_FilePath de.2 = e_FilePath e \/ e_FilePath de.2 = "") by naive_solver.
  constructor; cbn.
  - intros r' e' Hr'. apply lookup_insert_Some in Hr' as [[<- <-]|[Hne Hr']]; [exact Hshape|]. by apply (ci_named _ _ _ Hi r').
  - intros r1 r2 e1 e2 H1 H2 Hne Hp. apply lookup_insert_Some in H1 as [[<- <-]|[Hn1 H1]], H2 as [[<- <-]|[Hn2 H2]]; [done| | |].
    + destruct Hfile as [Hf|]; [|done]. rewrite Hf in *. by apply (ci_unique _ _ _ Hi r r2).
    + destruct Hfile as [Hf|Hf]; rewrite Hf; [by apply (ci_unique _ _ _ Hi r1 r)|done].
    + by apply (ci_unique _ _ _ Hi r1 r2).
  - intros key r' Hr'. destruct (decide (r = r')) as [<-|]; [rewrite lookup_insert_eq; eauto|].
    rewrite lookup_insert_ne by done. by apply (ci_refs _ _ _ Hi key).
  - apply (ci_inj _ _ _ Hi).
  - intros v r' Hv. destruct (ci_old _ _ _ Hi v r' Hv). split; [|done].
    destruct (decide (r = r')) as [<-|]; [rewrite lookup_insert_eq; eauto|by rewrite lookup_insert_ne].
  - intros key r1 p Hin.
    assert (Hh : is_Some (<[r:=de.2]> (fc_heap c) !! r1) /\ (exists q, named c q /\ p = q +:+ ".d") /\
        forall r' e', fc_heap c !! r' = Some e' -> r' <> r1 -> p <> e_FilePath e' +:+ ".d").
    { destruct (Hdirs _ Hin) as [Hold|(Hr & Hp & Hn)]; cbn in *.
      - destruct (ci_dirs _ _ _ Hi _ _ _ Hold) as (Hs & Hq & Hd). split_and!; try done.
        destruct (decide (r = r1)) as [<-|]; [rewrite lookup_insert_eq; eauto|by rewrite lookup_insert_ne].
      - subst. rewrite lookup_insert_eq. split_and!; eauto. intros r' e' Hr' Hne Heq. apply string_app_inj_r in Heq.
        apply (ci_unique _ _ _ Hi r r' e e' He Hr'); [done| |done]. by apply (named_not_empty c). }
    destruct Hh as (H1 & (q & Hq & ->) & H3). split_and!; eauto. intros r' e' Hr' Hne.
    apply lookup_insert_Some in Hr' as [[<- <-]|[Hn Hr']]; [|by apply (H3 r')]. destruct Hfile as [Hf|Hf]; rewrite Hf; [by apply (H3 r e)|].
    by apply directory_not_empty, (named_not_empty c).
  - intros r1 Hin. destruct (decide (r = r1)) as [<-|]; [rewrite lookup_insert_eq; eauto|]. rewrite lookup_insert_ne by done.
    destruct (Hreaders _ Hin) as [?|?]; [done|]. by apply (ci_readers _ _ _ Hi).
  - intros key r1 e1 Hk H1. apply lookup_insert_Some in H1 as [[<- <-]|[Hne H1]]; [by destruct de; apply Hcur|].
    destruct (Hcount r1 (not_eq_sym Hne)) as [-> ->]. destruct (ci_current _ _ _ Hi _ _ _ Hk H1) as [Hok Hh]. split.
    + eapply entry_ok_disk; [|exact Hok]. intros p Hp. apply Hdisk. eapply other_paths; [exact Hi|exact He|exact H1|done| |exact Hp].
      apply Hok.
    + intros key' p Hin. apply Hh. by destruct (Hdirs _ Hin) as [?|[? _]].
Qed.

(** *** Removing and replacing entries *)

Lemma inv_drop (c : FileCache) readers dirs (key : string) :
  cache_inv c readers dirs -> cache_inv (set_Entries c (delete key (fc_Entries c))) readers dirs.
Proof.
  intros Hi. destruct Hi as [H1 H2 H3 H4 H5 H6 H7 H8]. constructor; cbn; try done.
  - intros k r [_ Hk]%lookup_delete_Some. by apply (H3 k).
  - intros k k' r [_ Hk]%lookup_delete_Some [_ Hk']%lookup_delete_Some. by apply (H4 k k' r).
  - intros v r Hv. destruct (H5 v r Hv) as [? Hn]. split; [done|]. intros k [_ Hk]%lookup_delete_Some. by apply (Hn k).
  - intros k r e [_ Hk]%lookup_delete_Some. by apply H8.
Qed.

Lemma inv_old (c : FileCache) readers dirs (m : gmap string nat) :
  cache_inv c readers dirs -> (forall v r, m !! v = Some r -> is_Some (fc_heap c !! r) /\ forall key, fc_Entries c !! key <> Some r) ->
  cache_inv (set_OldEntries c m) readers dirs.
Proof. intros Hi Hm. destruct Hi. by constructor. Qed.

Section Operations.
  Context (io : IO).

Lemma decrementUse_empty (d : Disk) (e : FileCacheEntry) :
  e_ExpandedDirectoryPath e = "" -> e_ExpandedDirectoryPath (decrementUse io (d, e)).2 = "".
Proof.
  intros He. unfold decrementUse, decrementFileInUseCount, decrementDirectoryInUseCount. repeat case_match; simplify_eq; by cbn in *.
Qed.

Lemma inv_retire (c : FileCache) readers dirs (key : string) (r : nat) :
  cache_inv c readers dirs -> (forall k, fc_Entries c !! k <> Some r) -> cache_inv (retire io c key r) readers dirs.
Proof.
  intros Hi Hr. unfold retire. destruct (fc_heap c !! r) as [e|] eqn:He; [|done].
  assert (Hs : shape e) by (destruct (ci_named _ _ _ Hi r e He) as [[_ ?]|[_ ?]]; [by left|done]).
  destruct (touches_decrementUse io (fc_disk c) e Hs) as (Hp & Hs' & Hd).
  assert (Hi' : cache_inv (set_entry c r (decrementUse io (fc_disk c, e))) readers dirs).
  { eapply (inv_set_entry c readers dirs readers dirs r e); try done; eauto.
    - left. split_and!; try done. intros Hz. apply decrementUse_empty.
      destruct (ci_named _ _ _ Hi r e He) as [[_ ?]|[Hn _]]; [done|]. by destruct (named_not_empty _ _ Hn).
    - intros k Hk. by destruct (Hr k). }
  unfold updateOldEntries. cbn. rewrite lookup_insert_eq. repeat case_match; try done; apply inv_old; try done; cbn.
  - intros v r' [[_ <-]|[_ Hv]]%lookup_insert_Some; [|by apply (ci_old _ _ _ Hi' v)]. rewrite lookup_insert_eq. eauto.
  - intros v r' [_ Hv]%lookup_delete_Some. by apply (ci_old _ _ _ Hi' v).
Qed.

Lemma retire_Entries (c : FileCache) (key : string) (r : nat) : fc_Entries (retire io c key r) = fc_Entries c.
Proof. unfold retire, updateOldEntries. by repeat case_match. Qed.

Lemma retire_set_Entries (c : FileCache) (key : string) (r : nat) (m : gmap string nat) :
  retire io (set_Entries c m) key r = set_Entries (retire io c key r) m.
Proof. unfold retire, updateOldEntries. cbn. by repeat case_match; simplify_eq/=. Qed.

Lemma inv_remove (c : FileCache) readers dirs (key : string) :
  cache_inv c readers dirs -> cache_inv (remove io c key) readers dirs.
Proof.
  intros Hi. unfold remove. destruct (fc_Entries c !! key) as [r|] eqn:Hk; [|done].
  rewrite retire_Entries, <- retire_set_Entries. apply inv_retire; [by apply inv_drop|]. cbn.
  intros k [Hne Hk']%lookup_delete_Some. by apply Hne, (ci_inj _ _ _ Hi key k r).
Qed.

Lemma inv_make_room_loop (fuel : nat) (c : FileCache) readers dirs (used size : Z) (excluded : string) :
  cache_inv c readers dirs -> cache_inv (make_room_loop io fuel c used size excluded) readers dirs.
Proof.
  revert c used. induction fuel as [|fuel IH]; intros c used Hi; cbn; [done|]. destruct (crowded io c used size); [|done].
  destruct (oldest io c excluded) as [[key e]|]; [|done]. by apply IH, inv_remove.
Qed.

Lemma inv_makeRoom (c : FileCache) readers dirs (size : Z) (excluded : string) :
  cache_inv c readers dirs -> cache_inv (makeRoom io c size excluded) readers dirs.
Proof. apply inv_make_room_loop. Qed.

Definition bump (c : FileCache) : FileCache :=
  mkFileCache (fc_CachedPath c) (fc_maxSizeInBytes c) (fc_minimumPartitionFreeBytes c) (fc_Entries c) (fc_OldEntries c)
    ((fc_Seq c + 1) mod 2 ^ 64) (fc_heap c) (fc_disk c).

Lemma inv_bump (c : FileCache) readers dirs : (fc_Seq c + 1 < 2 ^ 64)%N -> cache_inv c readers dirs -> cache_inv (bump c) readers dirs.
Proof.
  intros Hseq Hi. assert (Hn : forall p, named c p -> named (bump c) p).
  { intros p (key & t & n & -> & Hn). exists key, t, n. split; [done|]. cbn. rewrite N.mod_small by done. lia. }
  destruct Hi as [H1 H2 H3 H4 H5 H6 H7 H8]. constructor; try done.
  - intros r e He. destruct (H1 r e He) as [?|[? ?]]; eauto.
  - intros key r p Hin. destruct (H6 _ _ _ Hin) as (? & (q & ? & ->) & ?). split_and!; eauto.
Qed.

(** The new entry: its path is new. *)
Lemma inv_new (c : FileCache) readers dirs (key : string) (size : Z) (info : CachingInfoType) (r : nat) :
  (fc_Seq c + 1 < 2 ^ 64)%N -> cache_inv c readers dirs -> fc_heap c !! r = None ->
  let path := uniqueName io (bump c) key in
  cache_inv (set_Entries (set_entry (bump c) r (<[path := Tarball true]> (fc_disk c), mkEntry size (io_now io) info path "" 0 0))
               (<[key := r]> (fc_Entries c))) readers dirs.
Proof.
  intros Hseq Hi Hr path. pose proof (inv_bump c readers dirs Hseq Hi) as Hb.
  assert (Hpath : path = path_of (fc_CachedPath c) key (io_now io) (fc_Seq c + 1)).
  { unfold path, uniqueName, path_of. cbn. by rewrite N.mod_small. }
  assert (Hnew : forall q, named c q -> q <> path).
  { intros q (k & t & n & -> & Hn) Heq. rewrite Hpath in Heq. apply path_of_inj in Heq. lia. }
  assert (Hnamed : named (bump c) path).
  { exists key, (io_now io), (fc_Seq c + 1)%N. split; [done|]. cbn. rewrite N.mod_small by done. lia. }
  assert (readers_of r readers = 0 /\ dirs_of r dirs = 0 /\ forall k p, (k, r, p) ∉ dirs) as (Hnr & Hnd & Hndirs).
  { split_and!.
    - apply length_zero_iff_nil, filter_none. intros r' Hin ->. destruct (ci_readers _ _ _ Hi r Hin). congruence.
    - apply length_zero_iff_nil, filter_none. intros [[k r'] p] Hin Hr'. cbn in Hr'. subst.
      destruct (ci_dirs _ _ _ Hi k r p Hin) as [[? ?] _]. congruence.
    - intros k p Hin. destruct (ci_dirs _ _ _ Hi k r p Hin) as [[? ?] _]. congruence. }
  assert (Hold : forall k, fc_Entries c !! k <> Some r).
  { intros k Hk. destruct (ci_refs _ _ _ Hi k r Hk). congruence. }
  constructor; cbn.
  - intros r' e' [[<- <-]|[_ He]]%lookup_insert_Some; [right; split; [done|by left]|]. by apply (ci_named _ _ _ Hb r').
  - assert (Hu : forall r' e', fc_heap c !! r' = Some e' -> e_FilePath e' <> path).
    { intros r' e' He'. destruct (ci_named _ _ _ Hi r' e' He') as [[-> _]|[Hn _]]; [|by apply Hnew].
      by destruct (named_not_empty _ _ Hnamed). }
    intros r1 r2 e1 e2 [[<- <-]|[Hn1 H1]]%lookup_insert_Some [[<- <-]|[Hn2 H2]]%lookup_insert_Some Hne Hp; cbn; try done.
    + apply not_eq_sym. by apply (Hu r2).
    + by apply (Hu r1).
    + by apply (ci_unique _ _ _ Hi r1 r2).
  - intros k r' [[<- <-]|[_ Hk]]%lookup_insert_Some; [rewrite lookup_insert_eq; eauto|].
    rewrite lookup_insert_ne by (intros <-; by apply (Hold k)). by apply (ci_refs _ _ _ Hi k).
  - intros k k' r' [[<- <-]|[Hn Hk]]%lookup_insert_Some [[<- Heq]|[Hn' Hk']]%lookup_insert_Some; try done.
    + by destruct (Hold k').
    + subst. by destruct (Hold k).
    + by apply (ci_inj _ _ _ Hi k k' r').
  - intros v r' Hv. destruct (ci_old _ _ _ Hi v r' Hv) as [Hs Hn]. assert (r <> r') by (intros <-; destruct Hs; congruence).
    split; [by rewrite lookup_insert_ne|]. intros k [[_ ?]|[_ Hk]]%lookup_insert_Some; [done|by apply (Hn k)].
  - intros k r' p Hin. assert (r <> r') by (intros <-; by apply (Hndirs k p)).
    destruct (ci_dirs _ _ _ Hb _ _ _ Hin) as (Hs & Hq & Hd). split; [by rewrite lookup_insert_ne|]. split; [done|].
    intros r2 e2 [[<- <-]|[_ H2]]%lookup_insert_Some Hne; [|by apply (Hd r2)]. cbn. intros Heq.
    destruct (ci_dirs _ _ _ Hi _ _ _ Hin) as (_ & (q & Hq' & ->) & _). apply string_app_inj_r in Heq. by apply (Hnew q).
  - intros r' Hin. assert (r <> r') by (intros <-; destruct (ci_readers _ _ _ Hi r Hin); congruence).
    rewrite lookup_insert_ne by done. by apply (ci_readers _ _ _ Hi).
  - intros k r' e' [[<- <-]|[Hnk Hk]]%lookup_insert_Some; [rewrite lookup_insert_eq; intros [= <-]|].
    + rewrite Hnr, Hnd. split; [|intros k' p Hin; by destruct (Hndirs k' p)]. cbn. rewrite lookup_insert_eq.
      split_and!; try done; eauto; [by apply (named_not_empty (bump c))|by left].
    + assert (r <> r') by (intros <-; by apply (Hold k)). rewrite lookup_insert_ne by done. intros He.
      destruct (ci_current _ _ _ Hi _ _ _ Hk He) as [Hok Hh]. split; [|done]. eapply entry_ok_disk; [|exact Hok].
      intros p Hp. rewrite lookup_insert_ne; [done|]. destruct (ci_named _ _ _ Hi r' e' He) as [[Hz _]|[Hn _]]; [by destruct Hok|].
      destruct Hp as [-> | ->]; [by apply not_eq_sym, Hnew|]. apply not_eq_sym. apply (named_not_directory (bump c)); [|done].
      destruct (ci_named _ _ _ Hb r' e' He) as [[Hz _]|[Hn' _]]; [by destruct Hok|done].
Qed.

(** What making room leaves alone. *)
Definition framed (c c' : FileCache) : Prop :=
  fc_CachedPath c' = fc_CachedPath c /\ fc_Seq c' = fc_Seq c /\ fc_Entries c' ⊆ fc_Entries c /\
  forall r, is_Some (fc_heap c !! r) -> is_Some (fc_heap c' !! r).

Lemma remove_framed (c : FileCache) (key : string) : framed c (remove io c key).
Proof.
  unfold remove. destruct (fc_Entries c !! key) as [r|]; [|done]. rewrite retire_Entries. split_and!; cbn.
  - unfold retire, updateOldEntries. by repeat case_match.
  - unfold retire, updateOldEntries. by repeat case_match.
  - apply delete_subseteq.
  - intros r' Hr'. unfold retire, updateOldEntries. repeat case_match; try done; cbn; apply lookup_insert_is_Some'; by right.
Qed.

Lemma makeRoom_framed (c : FileCache) (size : Z) (excluded : string) : framed c (makeRoom io c size excluded).
Proof.
  unfold makeRoom. generalize (usedSpace c). generalize (S (base.size (fc_Entries c))). intros fuel. revert c.
  induction fuel as [|fuel IH]; intros c used; cbn; [done|]. destruct (crowded io c used size); [|done].
  destruct (oldest io c excluded) as [[key e]|]; [|done]. destruct (remove_framed c key) as (H1 & H2 & H3 & H7).
  destruct (IH (remove io c key) (i64 (used - e_Size e))) as (H4 & H5 & H6 & H8). split_and!; [congruence|congruence|by etrans|auto].
Qed.

(** The oldest entry is one that is not in use, and not the excluded one. *)
Lemma oldest_spec (c : FileCache) (excluded key : string) (e : FileCacheEntry) :
  oldest io c excluded = Some (key, e) ->
  key <> excluded /\ inUse e = false /\ exists r, lookup_entry c key = Some (r, e).
Proof.
  unfold oldest. set (f := fun best key => _). assert (H : forall l best, (forall k b, best = Some (k, b) ->
      k <> excluded /\ inUse b = false /\ exists r, lookup_entry c k = Some (r, b)) ->
    foldl f best l = Some (key, e) -> key <> excluded /\ inUse e = false /\ exists r, lookup_entry c key = Some (r, e)).
  { induction l as [|k l IH]; cbn; intros best Hb Hf; [by apply Hb|]. eapply IH; [|exact Hf]. unfold f.
    destruct (lookup_entry c k) as [[r b]|] eqn:Hk; [|exact Hb]. case_match eqn:Hc; [|exact Hb].
    intros k' b' [= <- <-]. apply andb_prop in Hc as [[_ Hx]%andb_prop Hu]. apply negb_true_iff in Hx, Hu.
    apply bool_decide_eq_false in Hx. eauto. }
  by apply H.
Qed.

(** *** Opening *)

Lemma entry_ok_same (readers dirs : nat) (d : Disk) (e e' : FileCacheEntry) :
  e_FilePath e' = e_FilePath e -> e_ExpandedDirectoryPath e' = e_ExpandedDirectoryPath e ->
  e_directoryInUseCount e' = e_directoryInUseCount e -> e_fileInUseCount e' = e_fileInUseCount e ->
  entry_ok readers dirs (d, e) -> entry_ok readers dirs (d, e').
Proof. intros H1 H2 H3 H4. unfold entry_ok, shape. by rewrite H1, H2, H3, H4. Qed.

Lemma readers_of_cons (r r' : nat) (readers : list nat) :
  readers_of r (r' :: readers) = if decide (r' = r) then S (readers_of r readers) else readers_of r readers.
Proof. unfold readers_of. rewrite filter_cons. by destruct (decide (r' = r)). Qed.

Lemma dirs_of_cons (r : nat) (h : Handle) (dirs : list Handle) :
  dirs_of r (h :: dirs) = if decide (h.1.2 = r) then S (dirs_of r dirs) else dirs_of r dirs.
Proof. unfold dirs_of. rewrite filter_cons. by destruct (decide (h.1.2 = r)). Qed.

Lemma inv_open_reader (c : FileCache) readers dirs (key : string) (r : nat) (e : FileCacheEntry) (t : Z) :
  cache_inv c readers dirs -> fc_Entries c !! key = Some r -> fc_heap c !! r = Some e ->
  let res := readCloser io (fc_disk c, set_Access e t) in
  cache_inv (set_entry c r res.1) (if res.2 then r :: readers else readers) dirs.
Proof.
  intros Hi Hk He. destruct (ci_current _ _ _ Hi _ _ _ Hk He) as [Hok Hh].
  assert (Hs : shape e) by apply Hok. destruct (touches_readCloser io (fc_disk c) (set_Access e t) Hs) as (H1 & H2 & H3).
  pose proof (entry_ok_same _ _ _ e (set_Access e t) eq_refl eq_refl eq_refl eq_refl Hok) as Hok'.
  pose proof (open_reader_ok io _ _ _ _ Hok') as Hopen. cbn zeta.
  assert (Hexp : e_ExpandedDirectoryPath (readCloser io (fc_disk c, set_Access e t)).1.2 = e_ExpandedDirectoryPath e).
  { unfold readCloser, write_tarball. cbn. by repeat case_match; simplify_eq/=. }
  destruct (readCloser io (fc_disk c, set_Access e t)) as [de ok]. cbn in *.
  eapply (inv_set_entry c readers dirs _ dirs r e de Hi He); cbn.
  - left. split_and!; try done. intros Hz. by destruct Hok.
  - done.
  - intros r' Hne. split; [|done]. destruct ok; [|done]. by rewrite readers_of_cons, decide_False.
  - intros r' Hin. destruct ok; [|by right]. apply elem_of_cons in Hin as [->|?]; [by left|by right].
  - by left.
  - intros key' Hk'. assert (key' = key) as -> by (by eapply (ci_inj _ _ _ Hi)). split.
    + destruct ok; [|exact Hopen]. by rewrite readers_of_cons, decide_True.
    + intros k p Hin. rewrite Hexp. by apply Hh.
Qed.

Lemma inv_open_directory (c : FileCache) readers dirs (key : string) (r : nat) (e e' : FileCacheEntry) (z : FileCacheEntry -> Z) :
  cache_inv c readers dirs -> fc_Entries c !! key = Some r -> fc_heap c !! r = Some e ->
  e_FilePath e' = e_FilePath e -> e_ExpandedDirectoryPath e' = e_ExpandedDirectoryPath e ->
  e_directoryInUseCount e' = e_directoryInUseCount e -> e_fileInUseCount e' = e_fileInUseCount e ->
  match expandedDirectory io (fc_disk c, e') with
  | (de, Some path) => cache_inv (set_entry c r (de.1, set_Size de.2 (z de.2))) readers ((key, r, path) :: dirs)
  | (de, None) => cache_inv (set_entry c r de) readers dirs
  end.
Proof.
  intros Hi Hk He E1 E2 E3 E4. destruct (ci_current _ _ _ Hi _ _ _ Hk He) as [Hok Hh].
  pose proof (entry_ok_same _ _ _ e e' E1 E2 E3 E4 Hok) as Hok'. assert (Hs : shape e') by apply Hok'.
  destruct (touches_expandedDirectory io (fc_disk c) e' Hs) as (H1 & H2 & H3).
  pose proof (open_directory_ok io _ _ _ _ Hok') as Hopen.
  assert (Hne : e_FilePath e <> "") by apply Hok.
  assert (Hown : forall p, ~ own_path e p -> ~ own_path e' p) by (unfold own_path; by rewrite E1).
  destruct (expandedDirectory io (fc_disk c, e')) as [[d e2] [path|]]; cbn in *.
  - destruct Hopen as (Hok2 & -> & Hsame). assert (Hx : e_ExpandedDirectoryPath e2 = e_FilePath e +:+ ".d").
    { destruct Hok2 as (_ & Hs2 & _ & _ & Hd & _). destruct (Hd ltac:(done)) as [Hn _]. destruct Hs2 as [?| ->]; [done|]. by rewrite H1, E1. }
    eapply (inv_set_entry c readers dirs _ _ r e _ Hi He).
    + left. split_and!; [by cbn; rewrite H1|exact H2|done].
    + intros p Hp. by apply H3, Hown.
    + intros r' Hr'. split; [done|]. rewrite dirs_of_cons, decide_False; [done|]. cbn. by apply not_eq_sym.
    + by right.
    + intros h [->|Hin]%elem_of_cons; [right|by left]. split_and!; try done.
      destruct (ci_named _ _ _ Hi r e He) as [[? _]|[? _]]; done.
    + intros key' Hk'. assert (key' = key) as -> by (by eapply (ci_inj _ _ _ Hi)). rewrite dirs_of_cons, decide_True by done.
      split; [by eapply entry_ok_same; [| | | |exact Hok2]|]. intros k p [[= -> ->]|Hin]%elem_of_cons; [done|].
      destruct (Hh k p Hin) as [-> ->]. split; [done|]. cbn. rewrite Hsame, E2; [done|]. unfold dirs_of. intros Hz.
      apply length_zero_iff_nil in Hz. assert (Hf : (key, r, e_ExpandedDirectoryPath e) ∈ filter (fun h : Handle => h.1.2 = r) dirs)
        by (by apply list_elem_of_filter). rewrite Hz in Hf. by apply not_elem_of_nil in Hf.
  - destruct Hopen as [Hok2 Hz]. eapply (inv_set_entry c readers dirs _ _ r e _ Hi He); cbn; try done.
    + left. split_and!; [by rewrite H1|exact H2|done].
    + intros p Hp. by apply H3, Hown.
    + by right.
    + by left.
    + intros key' Hk'. assert (key' = key) as -> by (by eapply (ci_inj _ _ _ Hi)). split; [exact Hok2|].
      intros k p Hin. unfold dirs_of in Hz. apply length_zero_iff_nil in Hz.
      assert (Hf : (k, r, p) ∈ filter (fun h : Handle => h.1.2 = r) dirs) by (by apply list_elem_of_filter).
      rewrite Hz in Hf. by apply not_elem_of_nil in Hf.
Qed.

(** *** The operations *)

Lemma inv_add_entry (c : FileCache) readers dirs (key : string) (size : Z) (info : CachingInfoType) :
  (fc_Seq c + 1 < 2 ^ 64)%N -> cache_inv c readers dirs ->
  match add_entry io c key size info with
  | (c', Some r) => cache_inv c' readers dirs /\ fc_Entries c' !! key = Some r
  | (c', None) => cache_inv c' readers dirs
  end.
Proof.
  intros Hseq Hi. unfold add_entry. destruct (makeRoom_framed c size "") as (Hp & Hs & Hsub & Hheap).
  pose proof (inv_makeRoom c readers dirs size "" Hi) as Hm. set (m := makeRoom io c size "") in *. fold (bump m).
  destruct (io_rename io); cbn [negb]; [|apply inv_bump; [by rewrite Hs|done]].
  set (r := fresh (dom (fc_heap (bump m)))).
  assert (Hr : fc_heap m !! r = None) by (apply not_elem_of_dom, (is_fresh (dom (fc_heap (bump m))))).
  pose proof (inv_new m readers dirs key size info r ltac:(by rewrite Hs) Hm Hr) as Hnew.
  destruct (fc_Entries c !! key) as [old|] eqn:Hold; [|split; [exact Hnew|apply lookup_insert_eq]].
  split; [|rewrite retire_Entries; apply lookup_insert_eq]. apply inv_retire; [exact Hnew|]. cbn.
  intros k [[_ Heq]|[Hne Hk]]%lookup_insert_Some.
  - destruct (Hheap old) as [e He]; [by apply (ci_refs _ _ _ Hi key)|]. congruence.
  - apply Hne. apply (ci_inj _ _ _ Hi key k old); [done|]. by eapply lookup_weaken.
Qed.

Lemma inv_Add (c : FileCache) readers dirs (key : string) (size : Z) (info : CachingInfoType) :
  (fc_Seq c + 1 < 2 ^ 64)%N -> cache_inv c readers dirs ->
  match Add io c key size info with
  | (c', Ok r) => cache_inv c' (r :: readers) dirs
  | (c', Err _) => cache_inv c' readers dirs
  end.
Proof.
  intros Hseq Hi. pose proof (inv_add_entry c readers dirs key size info Hseq Hi) as Ha. unfold Add.
  destruct (add_entry io c key size info) as [c' [r|]]; [|done]. destruct Ha as [Hi' Hk].
  destruct (fc_heap c' !! r) as [e|] eqn:He; [|done].
  pose proof (inv_open_reader c' readers dirs key r e (e_Access e) Hi' Hk He) as Ho. cbn zeta in Ho.
  replace (set_Access e (e_Access e)) with e in Ho by (by destruct e). destruct (readCloser io (fc_disk c', e)) as [de []]; done.
Qed.

Lemma set_Size_same (e : FileCacheEntry) : set_Size e (e_Size e) = e.
Proof. by destruct e. Qed.

Lemma inv_AddDirectory (c : FileCache) readers dirs (key : string) (size : Z) (info : CachingInfoType) :
  (fc_Seq c + 1 < 2 ^ 64)%N -> cache_inv c readers dirs ->
  match AddDirectory io c key size info with
  | (c', Ok (r, path)) => cache_inv c' readers ((key, r, path) :: dirs)
  | (c', Err _) => cache_inv c' readers dirs
  end.
Proof.
  intros Hseq Hi. pose proof (inv_add_entry c readers dirs key size info Hseq Hi) as Ha. unfold AddDirectory.
  destruct (add_entry io c key size info) as [c' [r|]]; [|done]. destruct Ha as [Hi' Hk].
  destruct (fc_heap c' !! r) as [e|] eqn:He; [|done].
  pose proof (inv_open_directory c' readers dirs key r e e e_Size Hi' Hk He eq_refl eq_refl eq_refl eq_refl) as Ho.
  destruct (expandedDirectory io (fc_disk c', e)) as [[d e'] [path|]]; [|done]. cbn in Ho. by rewrite set_Size_same in Ho.
Qed.

Lemma make_room_loop_excluded (fuel : nat) (c : FileCache) (used size : Z) (key : string) (r : nat) :
  fc_Entries c !! key = Some r -> fc_Entries (make_room_loop io fuel c used size key) !! key = Some r.
Proof.
  revert c used. induction fuel as [|fuel IH]; intros c used Hr; cbn; [done|]. destruct (crowded io c used size); [|done].
  destruct (oldest io c key) as [[k e']|] eqn:Ho; [|done]. apply IH. destruct (oldest_spec _ _ _ _ Ho) as (Hne & _).
  unfold remove. destruct (fc_Entries c !! k); [|done]. rewrite retire_Entries. cbn. by rewrite lookup_delete_ne.
Qed.

(** Room is made for an entry without touching it. *)
Lemma room_for (c : FileCache) readers dirs (key : string) (r : nat) (e : FileCacheEntry) (b : bool) (size : Z) :
  cache_inv c readers dirs -> lookup_entry c key = Some (r, e) ->
  let c' := if b then makeRoom io c size key else c in
  cache_inv c' readers dirs /\ fc_Entries c' !! key = Some r /\ is_Some (fc_heap c' !! r).
Proof.
  intros Hi Hk. assert (Hr : fc_Entries c !! key = Some r).
  { unfold lookup_entry in Hk. apply bind_Some in Hk as (r' & Hr' & Hk). apply bind_Some in Hk as (e' & _ & [= -> ->]). done. }
  cbn zeta. destruct b; [|split_and!; try done; by apply (ci_refs _ _ _ Hi key)].
  split; [by apply inv_makeRoom|]. destruct (makeRoom_framed c size key) as (_ & _ & _ & Hheap).
  split; [|by apply Hheap, (ci_refs _ _ _ Hi key)]. by apply make_room_loop_excluded.
Qed.

Lemma inv_Get (c : FileCache) readers dirs (key : string) :
  cache_inv c readers dirs ->
  match Get io c key with
  | (c', Ok (r, _)) => cache_inv c' (r :: readers) dirs
  | (c', Err _) => cache_inv c' readers dirs
  end.
Proof.
  intros Hi. unfold Get. destruct (lookup_entry c key) as [[r e]|] eqn:Hk; [|done].
  destruct (room_for c readers dirs key r e (fileDoesNotExist (fc_disk c) e) (e_Size e) Hi Hk) as (Hi' & Hr & [e' He']).
  set (c' := if fileDoesNotExist _ _ then _ else _) in *. rewrite He'. change (default e (Some e')) with e'.
  pose proof (inv_open_reader c' readers dirs key r e' (io_now io) Hi' Hr He') as Ho. cbn zeta in Ho.
  destruct (readCloser io (fc_disk c', set_Access e' (io_now io))) as [de []]; done.
Qed.

Lemma inv_GetDirectory (c : FileCache) readers dirs (key : string) :
  cache_inv c readers dirs ->
  match GetDirectory io c key with
  | (c', Ok (r, path, _)) => cache_inv c' readers ((key, r, path) :: dirs)
  | (c', Err _) => cache_inv c' readers dirs
  end.
Proof.
  intros Hi. unfold GetDirectory. destruct (lookup_entry c key) as [[r e]|] eqn:Hk; [|done].
  destruct (room_for c readers dirs key r e (dirDoesNotExist (fc_disk c) e) (e_Size e) Hi Hk) as (Hi' & Hr & [e' He']).
  set (expanding := dirDoesNotExist (fc_disk c) e) in *. set (c' := if expanding then _ else _) in *. rewrite He'. change (default e (Some e')) with e'.
  set (e2 := set_Access _ _).
  assert (Hsame : e_FilePath e2 = e_FilePath e' /\ e_ExpandedDirectoryPath e2 = e_ExpandedDirectoryPath e' /\
    e_directoryInUseCount e2 = e_directoryInUseCount e' /\ e_fileInUseCount e2 = e_fileInUseCount e') by (by destruct expanding).
  destruct Hsame as (E1 & E2 & E3 & E4). destruct (expandedDirectory io (fc_disk c', e2)) as [de [path|]] eqn:Hx.
  - pose proof (inv_open_directory c' readers dirs key r e' e2
      (fun e => if expanding && fileDoesNotExist de.1 de.2 then (e_Size de.2 ÷ 2)%Z else e_Size e) Hi' Hr He' E1 E2 E3 E4) as Ho.
    rewrite Hx in Ho. destruct (expanding && fileDoesNotExist de.1 de.2); [done|]. by rewrite set_Size_same in Ho.
  - pose proof (inv_open_directory c' readers dirs key r e' e2 e_Size Hi' Hr He' E1 E2 E3 E4) as Ho. by rewrite Hx in Ho.
Qed.

Lemma inv_permutation (c : FileCache) readers readers' dirs dirs' :
  readers ≡ₚ readers' -> dirs ≡ₚ dirs' -> cache_inv c readers dirs -> cache_inv c readers' dirs'.
Proof.
  intros Hr Hd Hi. destruct Hi as [H1 H2 H3 H4 H5 H6 H7 H8].
  assert (Hro : forall r, readers_of r readers' = readers_of r readers) by (intros r; unfold readers_of; by rewrite Hr).
  assert (Hdo : forall r, dirs_of r dirs' = dirs_of r dirs) by (intros r; unfold dirs_of; by rewrite Hd).
  constructor; try done.
  - intros key r p. rewrite <- Hd. apply H6.
  - intros r. rewrite <- Hr. apply H7.
  - intros key r e Hk He. rewrite Hro, Hdo. destruct (H8 key r e Hk He) as [? Hh]. split; [done|].
    intros key' p. rewrite <- Hd. apply Hh.
Qed.

Lemma decrementDirectory_path (d : Disk) (e : FileCacheEntry) :
  let e' := (decrementDirectoryInUseCount io (d, e)).2 in
  e_ExpandedDirectoryPath e' = e_ExpandedDirectoryPath e \/ e_ExpandedDirectoryPath e' = "" /\ (e_directoryInUseCount e' <= 0)%Z.
Proof. unfold decrementDirectoryInUseCount. cbn. case_match eqn:Hc; [right|by left]. case_match; cbn; split; try done; lia. Qed.

Lemma inv_close_reader (c : FileCache) readers dirs (r : nat) :
  cache_inv c (r :: readers) dirs -> cache_inv (close_reader io c r) readers dirs.
Proof.
  intros Hi. unfold close_reader. destruct (ci_readers _ _ _ Hi r) as [e He]; [by apply list_elem_of_here|]. rewrite He.
  assert (Hs : shape e) by (destruct (ci_named _ _ _ Hi r e He) as [[_ ?]|[_ ?]]; [by left|done]).
  destruct (touches_decrementFile io (fc_disk c) e Hs) as (H1 & H2 & H3).
  assert (Hx : e_ExpandedDirectoryPath (decrementFileInUseCount io (fc_disk c, e)).2 = e_ExpandedDirectoryPath e).
  { unfold decrementFileInUseCount. by repeat case_match. }
  eapply (inv_set_entry c (r :: readers) dirs readers dirs r e _ Hi He).
  - left. split_and!; [exact H1|exact H2|]. intros Hz. rewrite Hx.
    destruct (ci_named _ _ _ Hi r e He) as [[_ ?]|[Hn _]]; [done|]. by destruct (named_not_empty _ _ Hn).
  - exact H3.
  - intros r' Hne. split; [|done]. by rewrite readers_of_cons, decide_False.
  - intros r' Hin. right. by apply list_elem_of_further.
  - by left.
  - intros key Hk. destruct (ci_current _ _ _ Hi _ _ _ Hk He) as [Hok Hh]. split; [|by rewrite Hx].
    rewrite readers_of_cons, decide_True in Hok by done. by apply close_reader_ok.
Qed.

(** A user of an entry that is no longer current leaves. *)
Lemma inv_leave (c : FileCache) readers dirs (key : string) (r : nat) (p : string) :
  cache_inv c readers ((key, r, p) :: dirs) -> (forall k, fc_Entries c !! k <> Some r) -> cache_inv c readers dirs.
Proof.
  intros Hi Hr. destruct Hi as [H1 H2 H3 H4 H5 H6 H7 H8]. constructor; try done.
  - intros key' r' p' Hin. by apply (H6 key'), list_elem_of_further.
  - intros key' r' e Hk He. destruct (H8 _ _ _ Hk He) as [Hok Hh]. rewrite dirs_of_cons, decide_False in Hok by (intros <-; by apply (Hr key')).
    split; [done|]. intros k q Hin. by apply Hh, list_elem_of_further.
Qed.

Lemma inv_close_old (c : FileCache) readers dirs (v : string) (r : nat) (e : FileCacheEntry) :
  cache_inv c readers dirs -> fc_OldEntries c !! v = Some r -> fc_heap c !! r = Some e ->
  cache_inv (close_old io c v r e) readers dirs.
Proof.
  intros Hi Hv He. destruct (ci_old _ _ _ Hi v r Hv) as [_ Hr].
  assert (Hs : shape e) by (destruct (ci_named _ _ _ Hi r e He) as [[_ ?]|[_ ?]]; [by left|done]).
  destruct (touches_decrementDirectory io (fc_disk c) e Hs) as (H1 & H2 & H3). pose proof (decrementDirectory_path (fc_disk c) e) as Hx.
  unfold close_old. destruct (decrementDirectoryInUseCount io (fc_disk c, e)) as [d e']. cbn in *.
  assert (Hz : e_FilePath e = "" -> e_ExpandedDirectoryPath e' = "").
  { intros Hz. destruct (ci_named _ _ _ Hi r e He) as [[_ Hy]|[Hn _]]; [|by destruct (named_not_empty _ _ Hn)].
    destruct Hx as [->|[? _]]; done. }
  destruct (inUse e').
  - eapply (inv_set_entry c readers dirs readers dirs r e (d, e') Hi He); try done; eauto. intros k Hk. by destruct (Hr k).
  - apply inv_old; cbn.
    + eapply (inv_set_entry c readers dirs readers dirs r e _ Hi He); try done; eauto.
      * intros p Hp. cbn. rewrite RemoveAll_other by (rewrite H1; unfold own_path in Hp; naive_solver).
        assert (Hp' : ~ own_path e' p) by (unfold own_path; by rewrite H1). rewrite RemoveAll_directory by done. by apply H3.
      * intros k Hk. by destruct (Hr k).
    + intros v' r' [_ Hv']%lookup_delete_Some. destruct (ci_old _ _ _ Hi v' r' Hv') as [Hs' Hn]. split; [|done].
      apply lookup_insert_is_Some'. by right.
Qed.

Lemma inv_CloseDirectory (c : FileCache) readers dirs (key : string) (r : nat) (p : string) :
  cache_inv c readers ((key, r, p) :: dirs) -> cache_inv (CloseDirectory io c key p).1 readers dirs.
Proof.
  intros Hi. assert (Hin : (key, r, p) ∈ (key, r, p) :: dirs) by apply list_elem_of_here.
  destruct (ci_dirs _ _ _ Hi _ _ _ Hin) as ([e He] & (q & Hq & Hp) & Hother).
  assert (Hold : (forall k, fc_Entries c !! k <> Some r) -> cache_inv (match fc_OldEntries c !! (key +:+ p) with
      | Some ref => match fc_heap c !! ref with
                    | Some e => (close_old io c (key +:+ p) ref e, None)
                    | None => (c, Some EntryNotFound)
                    end
      | None => (c, Some EntryNotFound)
      end).1 readers dirs).
  { intros Hr. pose proof (inv_leave _ _ _ _ _ _ Hi Hr) as Hi'. destruct (fc_OldEntries c !! (key +:+ p)) as [r'|] eqn:Hv; [|done].
    destruct (fc_heap c !! r') as [e'|] eqn:He'; [|done]. by apply inv_close_old. }
  assert (Hcur : forall k, fc_Entries c !! k = Some r -> lookup_entry c key = Some (r, e) /\ e_ExpandedDirectoryPath e = p).
  { intros k Hk. destruct (ci_current _ _ _ Hi _ _ _ Hk He) as [_ Hh]. destruct (Hh key p Hin) as [-> ->].
    unfold lookup_entry. by rewrite Hk; cbn; rewrite He. }
  unfold CloseDirectory. destruct (lookup_entry c key) as [[r2 e2]|] eqn:Hl; [|apply Hold; intros k Hk; by destruct (Hcur k Hk)].
  assert (Hr2 : fc_Entries c !! key = Some r2 /\ fc_heap c !! r2 = Some e2).
  { unfold lookup_entry in Hl. apply bind_Some in Hl as (r' & Hr' & Hl). apply bind_Some in Hl as (e' & He' & [= -> ->]). done. }
  destruct Hr2 as [Hr2 He2]. case_bool_decide as Hpath.
  - destruct (ci_current _ _ _ Hi _ _ _ Hr2 He2) as [Hok Hh].
    assert (r2 = r) as ->.
    { destruct (decide (r2 = r)) as [|Hne]; [done|]. destruct (Hother r2 e2 He2 Hne). destruct Hok as (_ & [Hs|Hs] & _); [|congruence].
      rewrite Hs in Hpath. destruct (named_not_empty _ _ Hq) as [Hq' _]. destruct (directory_not_empty _ Hq'). congruence. }
    simplify_eq. rewrite dirs_of_cons, decide_True in Hok by done.
    assert (Hc : (e_directoryInUseCount e =? 0)%Z = false) by (apply Z.eqb_neq; destruct Hok as (_ & _ & Hd & _); lia).
    rewrite Hc. cbn [fst].
    assert (Hs : shape e) by apply Hok. destruct (touches_decrementDirectory io (fc_disk c) e Hs) as (H1 & H2 & H3).
    eapply (inv_set_entry c readers _ readers dirs r e _ Hi He).
    + left. split_and!; [exact H1|exact H2|]. intros Hz. by destruct Hok.
    + exact H3.
    + intros r' Hne. split; [done|]. rewrite dirs_of_cons, decide_False; [done|]. by apply not_eq_sym.
    + by right.
    + intros h Hh'. left. by apply list_elem_of_further.
    + intros k Hk. assert (k = key) as -> by (by eapply (ci_inj _ _ _ Hi)). pose proof (close_directory_ok io _ _ _ _ Hok) as Hok'.
      split; [exact Hok'|]. intros k' p' Hin'. destruct (Hh k' p') as [-> ->]; [by apply list_elem_of_further|]. split; [done|].
      destruct (decrementDirectory_path (fc_disk c) e) as [->|[_ Hle]]; [done|]. exfalso.
      destruct (decrementDirectoryInUseCount io (fc_disk c, e)) as [d e']. destruct Hok' as (_ & _ & Hd & _). cbn in Hle.
      assert (Hz : dirs_of r dirs = 0) by lia. apply length_zero_iff_nil in Hz.
      assert (Hf : (key, r, e_ExpandedDirectoryPath e) ∈ filter (fun h : Handle => h.1.2 = r) dirs) by (by apply list_elem_of_filter).
      rewrite Hz in Hf. by apply not_elem_of_nil in Hf.
  - apply Hold. intros k Hk. destruct (Hcur k Hk) as [[= -> ->] ?]. done.
Qed.
End Operations.
