(* ===== verification/FileCacheRuns.v ===== *)
(** * Runs of the cache

    Any interleaving of the clients' operations: what a client of a current entry
    uses stays on disk; making room evicts the oldest entries that nobody uses, and
    stops when there is room or all that is left is in use.  A run in which a
    replaced directory is deleted under one of its users, and what errors leave
    behind. *)
From Stdlib Require Import ZArith Lia.
From S2P Require Import Prelude GoStd FileCache FileCacheProps.

(** ** Clients *)

Record World := mkWorld { w_cache : FileCache; w_readers : list nat; w_dirs : list Handle }.

Definition valid_io (io : IO) : Prop := forall m, io_order io m ≡ₚ (map_to_list m).*1.

Inductive client_step : World -> World -> Prop :=
| do_Get io w key :
    let res := Get io (w_cache w) key in
    client_step w (mkWorld res.1 (match res.2 with Ok (r, _) => r :: w_readers w | Err _ => w_readers w end) (w_dirs w))
| do_GetDirectory io w key :
    let res := GetDirectory io (w_cache w) key in
    client_step w (mkWorld res.1 (w_readers w) (match res.2 with Ok (r, p, _) => (key, r, p) :: w_dirs w | Err _ => w_dirs w end))
| do_Add io w key size info :
    (fc_Seq (w_cache w) + 1 < 2 ^ 64)%N ->
    let res := Add io (w_cache w) key size info in
    client_step w (mkWorld res.1 (match res.2 with Ok r => r :: w_readers w | Err _ => w_readers w end) (w_dirs w))
| do_AddDirectory io w key size info :
    (fc_Seq (w_cache w) + 1 < 2 ^ 64)%N ->
    let res := AddDirectory io (w_cache w) key size info in
    client_step w (mkWorld res.1 (w_readers w) (match res.2 with Ok (r, p) => (key, r, p) :: w_dirs w | Err _ => w_dirs w end))
| do_Remove io w key : client_step w (mkWorld (Remove io (w_cache w) key) (w_readers w) (w_dirs w))
| do_MakeRoom io w : client_step w (mkWorld (MakeRoom io (w_cache w)) (w_readers w) (w_dirs w))
| do_close_reader io w r readers :
    w_readers w ≡ₚ r :: readers -> client_step w (mkWorld (close_reader io (w_cache w) r) readers (w_dirs w))
| do_CloseDirectory io w key r p dirs :
    w_dirs w ≡ₚ (key, r, p) :: dirs -> client_step w (mkWorld (CloseDirectory io (w_cache w) key p).1 (w_readers w) dirs).

Definition world_inv (w : World) : Prop := cache_inv (w_cache w) (w_readers w) (w_dirs w).

Lemma world_inv_step (w w' : World) : client_step w w' -> world_inv w -> world_inv w'.
Proof.
  unfold world_inv. intros Hs Hi.
  destruct Hs as [io w key res|io w key res|io w key size info Hseq res|io w key size info Hseq res|io w key|io w|io w r readers Hp|io w key r p dirs Hp];
    cbn [w_cache w_readers w_dirs].
  - pose proof (inv_Get io _ _ _ key Hi) as H. unfold res. destruct (Get io (w_cache w) key) as [c [[r i]|e]]; exact H.
  - pose proof (inv_GetDirectory io _ _ _ key Hi) as H. unfold res. destruct (GetDirectory io (w_cache w) key) as [c [[[r p] i]|e]]; exact H.
  - pose proof (inv_Add io _ _ _ key size info Hseq Hi) as H. unfold res. destruct (Add io (w_cache w) key size info) as [c [r|e]]; exact H.
  - pose proof (inv_AddDirectory io _ _ _ key size info Hseq Hi) as H. unfold res.
    destruct (AddDirectory io (w_cache w) key size info) as [c [[r p]|e]]; exact H.
  - by apply inv_remove.
  - by apply inv_makeRoom.
  - apply inv_close_reader. by eapply inv_permutation.
  - eapply inv_CloseDirectory. by eapply inv_permutation.
Qed.

Lemma world_inv_init (dir : string) (maxSize minFree : Z) : world_inv (mkWorld (NewCache dir maxSize minFree) [] []).
Proof.
  constructor; cbn; try (by intros * ?%lookup_empty_Some); try (by intros * ?%not_elem_of_nil).
Qed.

Definition reachable (w : World) : Prop :=
  exists dir maxSize minFree, rtc client_step (mkWorld (NewCache dir maxSize minFree) [] []) w.

Lemma reachable_inv (w : World) : reachable w -> world_inv w.
Proof.
  intros (dir & maxSize & minFree & Hr). pose proof (world_inv_init dir maxSize minFree) as Hi.
  induction Hr as [|? ? ? Hs _ IH]; [done|]. by apply IH, (world_inv_step _ _ Hs).
Qed.

(** C10: What is in use stays in the cache.  Whatever clients do, in whatever order,
    and whatever the operating system answers: as long as an entry is current, its
    count of directories is the number of clients that have its directory open and
    have not closed it, each of them under the entry's key, and the directory they
    were given is on disk; its count of readers is at least the number of open
    readers, and when there are any, the tarball they read is on disk.  Some copy of
    the download is always there. *)
Theorem in_use_stays (w : World) (key : string) (r : nat) (e : FileCacheEntry) :
  reachable w -> fc_Entries (w_cache w) !! key = Some r -> fc_heap (w_cache w) !! r = Some e ->
  e_directoryInUseCount e = Z.of_nat (dirs_of r (w_dirs w)) /\
  (Z.of_nat (readers_of r (w_readers w)) <= e_fileInUseCount e)%Z /\
  (forall key' p, (key', r, p) ∈ w_dirs w -> key' = key /\ is_Some (fc_disk (w_cache w) !! p)) /\
  (r ∈ w_readers w -> is_Some (fc_disk (w_cache w) !! e_FilePath e)) /\
  (is_Some (fc_disk (w_cache w) !! e_FilePath e) \/ is_Some (fc_disk (w_cache w) !! e_ExpandedDirectoryPath e)).
Proof.
  intros Hw Hk He. apply reachable_inv in Hw. destruct (ci_current _ _ _ Hw _ _ _ Hk He) as [Hok Hh].
  destruct Hok as (_ & _ & Hd & Hr & Hdir & Hfile & Hor). split_and!; try done; [| |by destruct Hor as [?|[_ ?]]; eauto].
  - intros key' p Hin. destruct (Hh key' p Hin) as [-> ->]. split; [done|]. apply Hdir. unfold dirs_of. intros Hz.
    apply length_zero_iff_nil in Hz. assert (Hf : (key, r, e_ExpandedDirectoryPath e) ∈ filter (fun h : Handle => h.1.2 = r) (w_dirs w))
      by (by apply list_elem_of_filter). rewrite Hz in Hf. by apply not_elem_of_nil in Hf.
  - intros Hin. apply Hfile. enough (readers_of r (w_readers w) <> 0) by lia. unfold readers_of. intros Hz.
    apply length_zero_iff_nil in Hz. assert (Hf : r ∈ filter (fun r' => r' = r) (w_readers w)) by (by apply list_elem_of_filter).
    rewrite Hz in Hf. by apply not_elem_of_nil in Hf.
Qed.

Lemma client_step_eq (w w1 w2 : World) : client_step w w1 -> w1 = w2 -> client_step w w2.
Proof. by intros H <-. Qed.

(** ** A replaced directory *)

Definition ok_io (t : Z) : IO :=
  mkIO t true true true true true true (fun _ => true) (fun _ => 0%Z) (fun m => (map_to_list m).*1).

Definition fx_info (tag : string) : CachingInfoType := mkCachingInfo tag "".
Definition fx_dir : string := "/cache".
Definition fx_key : string := "0cc175b9".

(** Two containers use the directory of a download, a new version of it is
    downloaded, and one of the containers is done. *)
Definition fx_first : FileCache := (AddDirectory (ok_io 1) (NewCache fx_dir 1000 0) fx_key 100 (fx_info "v1")).1.
Definition fx_shared : FileCache := (GetDirectory (ok_io 2) fx_first fx_key).1.
Definition fx_replaced : FileCache := (AddDirectory (ok_io 3) fx_shared fx_key 100 (fx_info "v2")).1.
Definition fx_path : string := "/cache/0cc175b9-1-1.d".
Definition fx_closed : FileCache := (CloseDirectory (ok_io 4) fx_replaced fx_key fx_path).1.

(** A directory can be deleted while a container uses it.  When an entry with
    two users is replaced by a newer download, its count no longer includes the
    cache's own reference; the first user to close the directory brings it to zero,
    and it is deleted under the second, whose own close then finds no entry. *)
Theorem replaced_directory_deleted_in_use :
  exists w r, reachable w /\ (fx_key, r, fx_path) ∈ w_dirs w /\ fc_disk (w_cache w) !! fx_path = None /\
    forall io, (CloseDirectory io (w_cache w) fx_key fx_path).2 = Some EntryNotFound.
Proof.
  pose (old := (fx_key, 0, fx_path)). pose (new := (fx_key, 1, "/cache/0cc175b9-3-2.d")).
  exists (mkWorld fx_closed [] [new; old]), 0. split; [|split; [|split]].
  - exists fx_dir, 1000%Z, 0%Z.
    apply rtc_l with (mkWorld fx_first [] [old]).
    { eapply client_step_eq; [apply (do_AddDirectory (ok_io 1) _ fx_key 100 (fx_info "v1"))|]; vm_compute; reflexivity. }
    apply rtc_l with (mkWorld fx_shared [] [old; old]).
    { eapply client_step_eq; [apply (do_GetDirectory (ok_io 2) _ fx_key)|]; vm_compute; reflexivity. }
    apply rtc_l with (mkWorld fx_replaced [] [new; old; old]).
    { eapply client_step_eq; [apply (do_AddDirectory (ok_io 3) _ fx_key 100 (fx_info "v2"))|]; vm_compute; reflexivity. }
    apply rtc_once. eapply client_step_eq; [apply (do_CloseDirectory (ok_io 4) _ fx_key 0 fx_path [new; old]), perm_swap|].
    vm_compute; reflexivity.
  - apply list_elem_of_further, list_elem_of_here.
  - vm_compute. reflexivity.
  - intros io. vm_compute. reflexivity.
Qed.

(** ** Making room *)

Lemma i64_add_l (a b : Z) : i64 (i64 a + b) = i64 (a + b).
Proof.
  unfold i64, wrap_signed. change (64 - 1)%Z with 63%Z.
  replace ((a + 2 ^ 63) mod 2 ^ 64 - 2 ^ 63 + b + 2 ^ 63)%Z with ((a + 2 ^ 63) mod 2 ^ 64 + b)%Z by lia.
  rewrite Zplus_mod_idemp_l. by replace (a + 2 ^ 63 + b)%Z with (a + b + 2 ^ 63)%Z by lia.
Qed.

Definition add_size (c : FileCache) (kr : string * nat) (space : Z) : Z :=
  match fc_heap c !! kr.2 with Some e => i64 (space + e_Size e) | None => space end.

Lemma add_size_comm (c : FileCache) (x y : string * nat) (z : Z) : add_size c x (add_size c y z) = add_size c y (add_size c x z).
Proof.
  unfold add_size. destruct (fc_heap c !! x.2), (fc_heap c !! y.2); try done. rewrite !i64_add_l. f_equal. lia.
Qed.

Lemma usedSpace_foldr (c : FileCache) : usedSpace c = foldr (add_size c) 0%Z (map_to_list (fc_Entries c)).
Proof. unfold usedSpace. rewrite map_fold_foldr. apply foldr_ext; try done. by intros [k r] z. Qed.

Lemma foldr_add_size_range (c : FileCache) (l : list (string * nat)) : in_i64 (foldr (add_size c) 0%Z l).
Proof. induction l as [|x l IH]; [done|]. cbn. unfold add_size at 1. destruct (fc_heap c !! x.2); [apply i64_range|done]. Qed.

Section MakeRoom.
  Context (io : IO) (Hio : valid_io io).

Lemma retire_other (c : FileCache) (key : string) (r r' : nat) : r' <> r -> fc_heap (retire io c key r) !! r' = fc_heap c !! r'.
Proof. intros Hne. unfold retire, updateOldEntries. repeat case_match; cbn; try done; by rewrite lookup_insert_ne. Qed.

Lemma remove_heap (c : FileCache) (key : string) (r r' : nat) :
  fc_Entries c !! key = Some r -> r' <> r -> fc_heap (remove io c key) !! r' = fc_heap c !! r'.
Proof. intros Hk Hne. unfold remove. rewrite Hk. by apply retire_other. Qed.

Lemma remove_Entries (c : FileCache) (key : string) : fc_Entries (remove io c key) = delete key (fc_Entries c).
Proof.
  unfold remove. destruct (fc_Entries c !! key) eqn:Hk; [cbn; by rewrite retire_Entries|]. by rewrite delete_id.
Qed.

(** No entry is current for two keys. *)
Definition one_key (c : FileCache) : Prop :=
  forall key key' r, fc_Entries c !! key = Some r -> fc_Entries c !! key' = Some r -> key = key'.

Lemma one_key_remove (c : FileCache) (key : string) : one_key c -> one_key (remove io c key).
Proof. intros Hi k k' r. rewrite remove_Entries, !lookup_delete_Some. intros [_ Hk] [_ Hk']. by eapply Hi. Qed.

Lemma usedSpace_remove (c : FileCache) (key : string) (r : nat) (e : FileCacheEntry) :
  one_key c -> fc_Entries c !! key = Some r -> fc_heap c !! r = Some e ->
  usedSpace (remove io c key) = i64 (usedSpace c - e_Size e).
Proof.
  intros Hi Hk He. rewrite !usedSpace_foldr, remove_Entries.
  pose proof (foldr_permutation_proper eq (add_size c) 0%Z (add_size_comm c) _ _ (map_to_list_delete _ _ _ Hk)) as Hp.
  rewrite <- Hp. cbn. unfold add_size at 2. cbn. rewrite He. unfold Z.sub. rewrite i64_add_l.
  assert (Heq : foldr (add_size (remove io c key)) 0%Z (map_to_list (delete key (fc_Entries c))) =
    foldr (add_size c) 0%Z (map_to_list (delete key (fc_Entries c)))).
  { assert (Hl : Forall (fun kr => kr.2 <> r) (map_to_list (delete key (fc_Entries c)))).
    { apply Forall_forall. intros [k r'] Hin. apply elem_of_map_to_list, lookup_delete_Some in Hin as [Hne Hk']. cbn.
      intros ->. by apply Hne, (Hi key k r). }
    clear Hp. induction Hl as [|x l Hx _ IH]; [done|]. cbn. rewrite IH. unfold add_size. by rewrite (remove_heap c key r). }
  rewrite Heq. replace (_ + e_Size e + - e_Size e)%Z with (foldr (add_size c) 0%Z (map_to_list (delete key (fc_Entries c)))) by lia.
  symmetry. apply i64_id, foldr_add_size_range.
Qed.

Lemma lookup_entry_Some (c : FileCache) (key : string) (r : nat) (e : FileCacheEntry) :
  lookup_entry c key = Some (r, e) <-> fc_Entries c !! key = Some r /\ fc_heap c !! r = Some e.
Proof.
  unfold lookup_entry. rewrite bind_Some. setoid_rewrite bind_Some. split; [intros (r' & ? & e' & ? & [= <- <-]); done|].
  intros [? ?]. eauto.
Qed.

(** The choice of the loop: nobody older could be removed. *)
Definition candidate (excluded key : string) (e : FileCacheEntry) : Prop :=
  key <> excluded /\ inUse e = false /\ (e_Access e < maxTime)%Z.

Lemma oldest_min (c : FileCache) (excluded key : string) (r : nat) (e : FileCacheEntry) :
  lookup_entry c key = Some (r, e) -> candidate excluded key e ->
  exists k b, oldest io c excluded = Some (k, b) /\ (e_Access b <= e_Access e)%Z.
Proof.
  intros Hk (Hne & Hu & Ht). assert (Hin : key ∈ io_order io (fc_Entries c)).
  { rewrite (Hio _). apply list_elem_of_fmap. exists (key, r). split; [done|]. apply elem_of_map_to_list. by apply lookup_entry_Some in Hk as []. }
  unfold oldest. set (f := fun best key => _).
  assert (Hmono : forall l best k b, best = Some (k, b) -> exists k' b', foldl f best l = Some (k', b') /\ (e_Access b' <= e_Access b)%Z).
  { induction l as [|x l IH]; cbn; intros best k b ->; [by exists k, b|]. unfold f at 2.
    destruct (lookup_entry c x) as [[r' b']|]; [|by eapply IH]. case_match eqn:Hc; [|by eapply IH].
    destruct (IH (Some (x, b')) x b' eq_refl) as (k'' & b'' & -> & ?). exists k'', b''. split; [done|].
    apply andb_prop in Hc as [[Hc%bool_decide_eq_true _]%andb_prop _]. lia. }
  apply list_elem_of_split in Hin as (l1 & l2 & ->). rewrite foldl_app. cbn. generalize (foldl f None l1). intros best.
  assert (Hf : f best key = Some (key, e) \/ exists k b, f best key = Some (k, b) /\ (e_Access b <= e_Access e)%Z).
  { unfold f. rewrite Hk, (bool_decide_false (key = excluded)), Hu by done. cbn. rewrite !andb_true_r. case_bool_decide; [by left|].
    right. destruct best as [[k b]|]; [|lia]. exists k, b. split; [done|lia]. }
  destruct Hf as [->|(k & b & -> & Hle)].
  - by eapply Hmono.
  - destruct (Hmono l2 _ k b eq_refl) as (k' & b' & -> & ?). exists k', b'. split; [done|lia].
Qed.

Lemma oldest_candidate (c : FileCache) (excluded key : string) (e : FileCacheEntry) :
  oldest io c excluded = Some (key, e) -> candidate excluded key e.
Proof.
  intros Ho. destruct (oldest_spec _ _ _ _ _ Ho) as (? & ? & _). split_and!; try done. revert Ho. unfold oldest. set (f := fun best key => _).
  assert (Hl : forall l best, (forall k b, best = Some (k, b) -> (e_Access b < maxTime)%Z) ->
    foldl f best l = Some (key, e) -> (e_Access e < maxTime)%Z); [|by apply Hl].
  induction l as [|k l IH]; cbn; intros best Hb Hf; [by eapply Hb|]. eapply IH; [|exact Hf]. unfold f.
  destruct (lookup_entry c k) as [[r b]|] eqn:Hk; [|exact Hb]. case_match eqn:Hc; [|exact Hb].
  intros k' b' [= <- <-]. apply andb_prop in Hc as [[Hx%bool_decide_eq_true _]%andb_prop _].
  destruct best as [[k' b']|]; [|done]. specialize (Hb _ _ eq_refl). lia.
Qed.

Lemma lookup_remove (c : FileCache) (key key' : string) (r : nat) (e : FileCacheEntry) :
  one_key c ->
  lookup_entry (remove io c key) key' = Some (r, e) <-> key' <> key /\ lookup_entry c key' = Some (r, e).
Proof.
  intros Hi. rewrite !lookup_entry_Some, remove_Entries, lookup_delete_Some.
  assert (Hh : key <> key' -> fc_Entries c !! key' = Some r -> fc_heap (remove io c key) !! r = fc_heap c !! r).
  { intros Hne Hk'. destruct (fc_Entries c !! key) as [r0|] eqn:Hk; [|unfold remove; by rewrite Hk].
    apply (remove_heap c key r0); [done|]. intros ->. by apply Hne, (Hi _ _ r0). }
  split; [intros [[? ?] ?]|intros [? [? ?]]]; (rewrite Hh in * by done) || rewrite Hh by done; done.
Qed.

(** What making room leaves of the entries [c] had. *)
Record room_made (c c' : FileCache) (size : Z) (excluded : string) : Prop := {
  rm_only : forall key r e, lookup_entry c' key = Some (r, e) -> lookup_entry c key = Some (r, e);
  rm_evicted : forall key r e, lookup_entry c key = Some (r, e) -> lookup_entry c' key = None ->
    candidate excluded key e /\
    forall key' r' e', lookup_entry c' key' = Some (r', e') -> candidate excluded key' e' -> (e_Access e <= e_Access e')%Z;
  rm_enough : crowded io c' (usedSpace c') size = false \/
    forall key r e, lookup_entry c' key = Some (r, e) -> ~ candidate excluded key e;
  rm_needed : crowded io c (usedSpace c) size = false -> c' = c;
  rm_each : exists keys, c' = foldl (remove io) c keys /\
    forall before key after, keys = before ++ key :: after ->
      is_Some (lookup_entry (foldl (remove io) c before) key) /\
      crowded io (foldl (remove io) c before) (usedSpace (foldl (remove io) c before)) size = true }.

Lemma room_made_loop (fuel : nat) (c : FileCache) (size : Z) (excluded : string) :
  one_key c -> base.size (fc_Entries c) < fuel ->
  room_made c (make_room_loop io fuel c (usedSpace c) size excluded) size excluded.
Proof.
  revert c. induction fuel as [|fuel IH]; intros c Hi Hf; [lia|]. cbn [make_room_loop].
  destruct (crowded io c (usedSpace c) size) eqn:Hc.
  2: { split; [done|congruence|by left|done|]. exists []. split; [done|]. by intros [] ? ? ?. }
  destruct (oldest io c excluded) as [[key e]|] eqn:Ho.
  2: { split; [done|congruence| |done|exists []; split; [done|by intros [] ? ? ?]]. right. intros key r e Hk He. destruct (oldest_min _ _ _ _ _ Hk He) as (? & ? & ? & _). congruence. }
  destruct (oldest_spec _ _ _ _ _ Ho) as (_ & _ & r & Hk). pose proof (proj1 (lookup_entry_Some _ _ _ _) Hk) as [Hr He].
  rewrite <- (usedSpace_remove c key r e Hi Hr He).
  destruct (IH (remove io c key)) as [H1 H2 H3 H4 (keys & H5 & H6)]; [by apply one_key_remove| |].
  { rewrite remove_Entries. pose proof (map_size_delete_Some key (fc_Entries c) (mk_is_Some _ _ Hr)). assert (base.size (fc_Entries c) <> 0) by (intros Hz%map_size_empty_inv; by rewrite Hz, lookup_empty in Hr). lia. }
  set (c' := make_room_loop _ _ _ _ _ _) in *. split; [| |done|congruence|].
  - intros k r' e' Hk'. by apply (lookup_remove c key), H1.
  - intros k r' e' Hk' Hnone. destruct (decide (k = key)) as [->|Hne].
    + replace e' with e by congruence. split; [by eapply oldest_candidate|]. intros k' r'' e'' Hk'' Hcand.
      apply H1, (lookup_remove c) in Hk'' as [_ Hk'']; [|done].
      destruct (oldest_min _ _ _ _ _ Hk'' Hcand) as (? & ? & ? & ?). congruence.
    + apply (H2 k r'); [|done]. by apply (lookup_remove c).
  - exists (key :: keys). split; [done|]. intros [|k before] k' after [= <- Hks]; cbn [foldl]; [|by eapply H6].
    split; [by eexists|done].
Qed.
End MakeRoom.

(** C22: Making room evicts only entries that nobody uses, oldest first, and as many
    as are needed: in every cache a run can reach, what [makeRoom] leaves is part of
    what was there, unchanged; an entry that is gone was not in use, was not the
    excluded one, and is no younger than any evictable entry that stays; the entries
    are evicted one by one, each while what was left did not fit yet, so that nothing
    is evicted when there is room already; and afterwards either the cache with the new
    size fits its limits, or everything that is left is in use or excluded. *)
Theorem makeRoom_spec (w : World) (io : IO) (size : Z) (excluded : string) :
  reachable w -> valid_io io ->
  room_made io (w_cache w) (makeRoom io (w_cache w) size excluded) size excluded.
Proof. intros Hw Hio. apply room_made_loop; [done|exact (ci_inj _ _ _ (reachable_inv _ Hw))|lia]. Qed.

(** ** Examples *)

Definition fx_key2 : string := "92eb5ffe".

Definition fx_runs : World := mkWorld fx_shared [] [(fx_key, 0, fx_path); (fx_key, 0, fx_path)].

Lemma fx_runs_reachable : reachable fx_runs.
Proof.
  exists fx_dir, 1000%Z, 0%Z. apply rtc_l with (mkWorld fx_first [] [(fx_key, 0, fx_path)]); [|apply rtc_once].
  - eapply client_step_eq; [apply (do_AddDirectory (ok_io 1) _ fx_key 100 (fx_info "v1"))|]; vm_compute; reflexivity.
  - eapply client_step_eq; [apply (do_GetDirectory (ok_io 2) _ fx_key)|]; vm_compute; reflexivity.
Qed.

Lemma in_use_stays_witness :
  match lookup_entry fx_shared fx_key with
  | Some (r, e) => e_directoryInUseCount e = 2%Z /\ is_Some (fc_disk fx_shared !! fx_path)
  | None => False
  end.
Proof.
  destruct (lookup_entry fx_shared fx_key) as [[r e]|] eqn:Hk; [|by vm_compute in Hk].
  assert (Hr : r = 0) by (vm_compute in Hk; congruence). subst r.
  destruct (proj1 (lookup_entry_Some _ _ _ _) Hk) as [Hr He].
  destruct (in_use_stays fx_runs fx_key 0 e fx_runs_reachable Hr He) as (Hd & _ & Hp & _). split; [exact Hd|].
  apply (Hp fx_key fx_path), list_elem_of_here.
Defined.

(** Two files were fetched, and are closed; a third one needs the room of one of them. *)
Definition fx_two : FileCache :=
  close_reader (ok_io 3) (close_reader (ok_io 3)
    (Add (ok_io 2) (Add (ok_io 1) (NewCache fx_dir 1000 0) fx_key 400 (fx_info "a")).1 fx_key2 500 (fx_info "b")).1 1) 0.

Definition fx_idle : World := mkWorld fx_two [] [].

Lemma fx_two_reachable : reachable fx_idle.
Proof.
  exists fx_dir, 1000%Z, 0%Z. set (a := (Add (ok_io 1) (NewCache fx_dir 1000 0) fx_key 400 (fx_info "a")).1).
  set (b := (Add (ok_io 2) a fx_key2 500 (fx_info "b")).1).
  apply rtc_l with (mkWorld a [0] []).
  { eapply client_step_eq; [apply (do_Add (ok_io 1) _ fx_key 400 (fx_info "a"))|]; vm_compute; reflexivity. }
  apply rtc_l with (mkWorld b [1; 0] []).
  { eapply client_step_eq; [apply (do_Add (ok_io 2) _ fx_key2 500 (fx_info "b"))|]; vm_compute; reflexivity. }
  apply rtc_l with (mkWorld (close_reader (ok_io 3) b 1) [0] []).
  { eapply client_step_eq; [apply (do_close_reader (ok_io 3) _ 1 [0]); reflexivity|]. reflexivity. }
  apply rtc_once. eapply client_step_eq; [apply (do_close_reader (ok_io 3) _ 0 []); reflexivity|]. vm_compute. reflexivity.
Qed.

Lemma makeRoom_spec_witness :
  room_made (ok_io 4) (w_cache fx_idle) (makeRoom (ok_io 4) (w_cache fx_idle) 300 "") 300 "" /\
  fc_Entries (makeRoom (ok_io 4) fx_two 300 "") = {[ fx_key2 := 1 ]}.
Proof.
  split; [|vm_compute; reflexivity]. exact (makeRoom_spec fx_idle (ok_io 4) 300 "" fx_two_reachable (fun m => Permutation_refl _)).
Defined.

(** ** What errors leave behind *)

(** A directory that cannot be extracted doubles the size that the entry is counted
    with, at every attempt. *)
Lemma failed_expansion_inflates_size (io : IO) (c : FileCache) (key : string) (r : nat) (e : FileCacheEntry) :
  lookup_entry c key = Some (r, e) -> dirDoesNotExist (fc_disk c) e = true -> crowded io c (usedSpace c) (e_Size e) = false ->
  io_extract io = false ->
  (GetDirectory io c key).2 = Err IOError /\
  exists e', lookup_entry (GetDirectory io c key).1 key = Some (r, e') /\ e_Size e' = i64 (e_Size e * 2).
Proof.
  intros Hk Hd Hc Hx. pose proof (proj1 (lookup_entry_Some _ _ _ _) Hk) as [Hr He]. unfold GetDirectory. rewrite Hk. cbn zeta.
  unfold makeRoom. cbn [make_room_loop]. rewrite Hc, Hd. rewrite He. change (default e (Some e)) with e. unfold expandedDirectory.
  assert (Hd' : dirDoesNotExist (fc_disk c) (set_Access (set_Size e (i64 (e_Size e * 2))) (io_now io)) = true) by exact Hd.
  rewrite Hd', Hx. cbn. split; [done|]. eexists. split; [apply lookup_entry_Some; cbn; rewrite lookup_insert_eq; done|done].
Qed.

(** A tarball whose writing failed half way is served by the next [Get]. *)
Lemma partial_tarball_served (io io' : IO) (de : Disk * FileCacheEntry) :
  fileDoesNotExist de.1 de.2 = true -> io_create io = true -> io_tar io = false -> io_open io' = true -> io_seek io' = true ->
  (readCloser io de).2 = false /\
  (readCloser io' (readCloser io de).1).2 = true /\
  (readCloser io' (readCloser io de).1).1.1 !! e_FilePath de.2 = Some (Tarball false).
Proof.
  destruct de as [d e]. cbn [fst snd]. intros Hf Hc Ht Ho Hs.
  assert (Hr : readCloser io (d, e) = ((<[e_FilePath e := Tarball false]> d, e), false)).
  { unfold readCloser. cbn [fst snd]. rewrite Hf. unfold write_tarball. by rewrite Hc, Ht. }
  rewrite Hr. split; [done|]. cbn [fst snd]. unfold readCloser. cbn [fst snd]. unfold fileDoesNotExist.
  rewrite lookup_insert_eq, bool_decide_false, Ho by done. cbn. split; [done|apply lookup_insert_eq].
Qed.
