(* ===== verification/ReplacedEntries.v ===== *)
(** * Replaced directories

    An entry that is replaced while its directory is in use is kept until its users
    have closed it.  As long as nobody reads tarballs, the cache keeps such an entry
    only while somebody has its directory open, so that it keeps none when all
    directories are closed. *)
From Stdlib Require Import ZArith Lia.
From S2P Require Import Prelude GoStd FileCache FileCacheProps FileCacheRuns.

(** ** The invariant *)

Lemma dirs_of_in (r : nat) (dirs : list Handle) key p : (key, r, p) ∈ dirs -> 0 < dirs_of r dirs.
Proof.
  intros Hin. unfold dirs_of. assert (Hf : (key, r, p) ∈ filter (fun h : Handle => h.1.2 = r) dirs) by (by apply list_elem_of_filter).
  destruct (filter _ dirs); [by apply not_elem_of_nil in Hf|cbn; lia].
Qed.

(** An entry that is kept for the users of its directory: they find it under the key
    they have, and it is counted less often than it is used. *)
Definition kept (c : FileCache) (dirs : list Handle) (v : string) (r : nat) : Prop :=
  exists e, fc_heap c !! r = Some e /\ (e_fileInUseCount e <= 0)%Z /\
    (e_directoryInUseCount e < Z.of_nat (dirs_of r dirs))%Z /\ 0 < dirs_of r dirs /\
    forall key p, (key, r, p) ∈ dirs -> key +:+ p = v.

Definition old_inv (c : FileCache) (dirs : list Handle) : Prop := forall v r, fc_OldEntries c !! v = Some r -> kept c dirs v r.

(** An entry that can be retired under a key. *)
Definition retirable (c : FileCache) (dirs : list Handle) (key : string) (r : nat) : Prop :=
  (exists e, fc_heap c !! r = Some e /\ (e_fileInUseCount e <= 0)%Z /\ (e_directoryInUseCount e <= Z.of_nat (dirs_of r dirs))%Z /\
     forall key' p, (key', r, p) ∈ dirs -> key' = key /\ p = e_ExpandedDirectoryPath e) /\
  forall v, fc_OldEntries c !! v <> Some r.

Lemma old_set_entry c dirs r de : (forall v, fc_OldEntries c !! v <> Some r) -> old_inv c dirs -> old_inv (set_entry c r de) dirs.
Proof.
  intros Hr Hi v r' Hv. destruct (Hi v r' Hv) as (e & He & H). exists e. split; [|done]. cbn.
  rewrite lookup_insert_ne; [done|]. intros ->. by apply (Hr v).
Qed.

Lemma old_open c dirs key r p : (forall v, fc_OldEntries c !! v <> Some r) -> old_inv c dirs -> old_inv c ((key, r, p) :: dirs).
Proof.
  intros Hr Hi v r' Hv. destruct (Hi v r' Hv) as (e & He & H1 & H2 & H3 & H4). assert (r <> r') as Hne by (intros ->; by apply (Hr v)).
  exists e. rewrite dirs_of_cons, decide_False by done. split_and!; try done.
  intros key' p' [[= -> -> ->]|Hin]%elem_of_cons; [done|]. by apply H4.
Qed.

Section Retiring.
  Context (io : IO).

Lemma decrementUse_file d e : e_fileInUseCount (decrementUse io (d, e)).2 = (e_fileInUseCount e - 1)%Z.
Proof. unfold decrementUse, decrementFileInUseCount, decrementDirectoryInUseCount. repeat case_match; by simplify_eq/=. Qed.
Lemma decrementUse_dir d e : e_directoryInUseCount (decrementUse io (d, e)).2 = (e_directoryInUseCount e - 1)%Z.
Proof. unfold decrementUse, decrementFileInUseCount, decrementDirectoryInUseCount. repeat case_match; by simplify_eq/=. Qed.
Lemma decrementUse_path d e :
  e_ExpandedDirectoryPath (decrementUse io (d, e)).2 = "" \/
  e_ExpandedDirectoryPath (decrementUse io (d, e)).2 = e_ExpandedDirectoryPath e /\ (0 < e_directoryInUseCount e)%Z.
Proof.
  unfold decrementUse, decrementFileInUseCount, decrementDirectoryInUseCount. repeat case_match; simplify_eq/=; try (by left);
    right; (split; [done|]); match goal with H : (_ || _) = false |- _ => apply orb_false_iff in H as [H _] end; lia.
Qed.

Lemma old_retire c dirs key r : old_inv c dirs -> retirable c dirs key r -> old_inv (retire io c key r) dirs.
Proof.
  intros Hi [(e & He & Hf & Hd & Hh) Hr]. unfold retire. rewrite He. set (de := decrementUse io (fc_disk c, e)).
  pose proof (old_set_entry c dirs r de Hr Hi) as Hi'. unfold updateOldEntries. cbn [fc_heap set_entry]. rewrite lookup_insert_eq.
  pose proof (decrementUse_file (fc_disk c) e) as E1. pose proof (decrementUse_dir (fc_disk c) e) as E2.
  pose proof (decrementUse_path (fc_disk c) e) as E3. fold de in E1, E2, E3. case_bool_decide as Hp; cbn [negb].
  - destruct (inUse de.2); cbn [negb]; [done|]. intros v r' Hv. cbn in Hv. apply lookup_delete_Some in Hv as [_ Hv]. by apply Hi'.
  - destruct E3 as [?|[E3 E4]]; [done|]. intros v r' Hv. cbn in Hv.
    apply lookup_insert_Some in Hv as [[<- <-]|[_ Hv]]; [|by apply Hi'].
    exists de.2. cbn. rewrite lookup_insert_eq. split_and!; [done|lia|lia|lia|].
    intros key' p [-> ->]%Hh. by rewrite E3.
Qed.

(** Nobody reads a tarball. *)
Definition unread (c : FileCache) : Prop := forall r e, fc_heap c !! r = Some e -> (e_fileInUseCount e <= 0)%Z.

Lemma unread_set_entry c r de : unread c -> (e_fileInUseCount de.2 <= 0)%Z -> unread (set_entry c r de).
Proof. intros Hu Hde r' e'. cbn. rewrite lookup_insert_Some. intros [[_ <-]|[_ He]]; [done|by eapply Hu]. Qed.

Lemma unread_retire c key r : unread c -> unread (retire io c key r).
Proof.
  intros Hu. unfold retire. destruct (fc_heap c !! r) as [e|] eqn:He; [|done]. specialize (Hu r e He) as Hf.
  pose proof (unread_set_entry c r (decrementUse io (fc_disk c, e)) Hu) as Hu'. rewrite decrementUse_file in Hu'.
  unfold updateOldEntries. repeat case_match; apply Hu'; lia.
Qed.

Lemma unread_remove c key : unread c -> unread (remove io c key).
Proof. intros Hu. unfold remove. destruct (fc_Entries c !! key); [|done]. by apply unread_retire. Qed.

Lemma current_retirable c readers dirs key r :
  cache_inv c readers dirs -> unread c -> fc_Entries c !! key = Some r -> retirable c dirs key r.
Proof.
  intros Hi Hu Hk. destruct (ci_refs _ _ _ Hi _ _ Hk) as [e He]. destruct (ci_current _ _ _ Hi _ _ _ Hk He) as [Hok Hh]. split.
  - exists e. split_and!; [done|by eapply Hu| |done]. destruct Hok as (_ & _ & -> & _). lia.
  - intros v Hv. by apply (ci_old _ _ _ Hi v r Hv) in Hk.
Qed.

Lemma old_remove c readers dirs key : cache_inv c readers dirs -> unread c -> old_inv c dirs -> old_inv (remove io c key) dirs.
Proof.
  intros Hi Hu Ho. unfold remove. destruct (fc_Entries c !! key) as [r|] eqn:Hk; [|done].
  exact (old_retire c dirs key r Ho (current_retirable c readers dirs key r Hi Hu Hk)).
Qed.

(** An entry that nobody uses is not kept when it is removed. *)
Lemma retire_lookup c key r e v r' : fc_heap c !! r = Some e -> fc_OldEntries (retire io c key r) !! v = Some r' ->
  fc_OldEntries c !! v = Some r' \/ (r' = r /\ (0 < e_directoryInUseCount e)%Z).
Proof.
  intros He. unfold retire. rewrite He. unfold updateOldEntries. cbn [fc_heap set_entry]. rewrite lookup_insert_eq.
  pose proof (decrementUse_path (fc_disk c) e) as Hp. case_bool_decide as Hd; cbn [negb].
  - destruct (inUse _); cbn [negb]; [by left|]. cbn. intros [_ Hv]%lookup_delete_Some. by left.
  - destruct Hp as [?|[_ Hp]]; [done|]. cbn. intros [[_ <-]|[_ Hv]]%lookup_insert_Some; [by right|by left].
Qed.

Lemma retirable_remove c readers dirs key r key' r' e' :
  cache_inv c readers dirs -> lookup_entry c key' = Some (r', e') -> inUse e' = false ->
  retirable c dirs key r -> retirable (remove io c key') dirs key r.
Proof.
  intros Hi Hl Hn [(e & He & Hf & Hd & Hh) Hr]. apply lookup_entry_Some in Hl as [Hk' He'].
  destruct (ci_current _ _ _ Hi _ _ _ Hk' He') as [(_ & _ & Hc & _) _]. unfold inUse in Hn. apply orb_false_iff in Hn as [Hn _].
  unfold remove. rewrite Hk'. split.
  - destruct (decide (r = r')) as [<-|Hne].
    + assert (e' = e) as -> by congruence. exists (decrementUse io (fc_disk c, e)).2. unfold retire. rewrite He. cbn.
      assert (Hnone : forall key p, (key, r, p) ∉ dirs) by (intros k p Hin%dirs_of_in; lia). split_and!.
      * unfold updateOldEntries. cbn. rewrite lookup_insert_eq. repeat case_match; apply lookup_insert_eq.
      * rewrite decrementUse_file. lia.
      * rewrite decrementUse_dir. lia.
      * intros k p Hin. by destruct (Hnone k p).
    + exists e. cbn. by rewrite retire_other.
  - intros v Hv. apply (retire_lookup c key' r' e') in Hv as [Hv|[_ ?]]; [by apply (Hr v)|lia|done].
Qed.

Lemma make_room_old fuel c readers dirs used size excluded :
  cache_inv c readers dirs -> unread c -> old_inv c dirs ->
  let c' := make_room_loop io fuel c used size excluded in
  unread c' /\ old_inv c' dirs /\ forall key r, retirable c dirs key r -> retirable c' dirs key r.
Proof.
  revert c used. induction fuel as [|fuel IH]; intros c used Hi Hu Ho; cbn [make_room_loop]; [done|].
  destruct (crowded io c used size); [|done]. destruct (oldest io c excluded) as [[k e]|] eqn:Hold; [|done].
  destruct (oldest_spec _ _ _ _ _ Hold) as (_ & Hn & r' & Hl).
  destruct (IH (remove io c k) (i64 (used - e_Size e))) as (H1 & H2 & H3);
    [by apply inv_remove|by apply unread_remove|by eapply old_remove|]. split_and!; [done|done|].
  intros key r Hr. by eapply H3, retirable_remove.
Qed.

Lemma makeRoom_old c readers dirs size excluded :
  cache_inv c readers dirs -> unread c -> old_inv c dirs ->
  let c' := makeRoom io c size excluded in
  unread c' /\ old_inv c' dirs /\ forall key r, retirable c dirs key r -> retirable c' dirs key r.
Proof. apply make_room_old. Qed.

Lemma add_entry_old c readers dirs key size info :
  cache_inv c readers dirs -> unread c -> old_inv c dirs ->
  unread (add_entry io c key size info).1 /\ old_inv (add_entry io c key size info).1 dirs.
Proof.
  intros Hi Hu Ho. unfold add_entry. destruct (makeRoom_old c readers dirs size "" Hi Hu Ho) as (Hu' & Ho' & Hr').
  set (m := makeRoom io c size "") in *. fold (bump m). destruct (io_rename io); cbn [negb fst]; [|done].
  set (ref := fresh (dom (fc_heap (bump m)))). assert (Hfresh : fc_heap m !! ref = None) by (apply not_elem_of_dom, (is_fresh (dom (fc_heap (bump m))))).
  assert (Hold : forall v, fc_OldEntries m !! v <> Some ref) by (intros v Hv; destruct (Ho' v ref Hv) as (e & He & _); congruence).
  match goal with |- context [set_Entries (set_entry (bump m) ref ?de) _] => set (new := de) end.
  assert (Hu2 : unread (set_entry (bump m) ref new)) by (by apply unread_set_entry).
  assert (Ho2 : old_inv (set_entry (bump m) ref new) dirs) by (by apply (old_set_entry (bump m))).
  destruct (fc_Entries c !! key) as [old|] eqn:Hk; [|done]. cbn [fst].
  split; [by apply unread_retire|]. apply old_retire; [done|].
  destruct (Hr' key old (current_retirable _ _ _ _ _ Hi Hu Hk)) as [(e & He & H) Hr]. split; [|done].
  exists e. cbn. rewrite lookup_insert_ne by congruence. done.
Qed.
(** ** The operations on directories *)

Definition tidy (c : FileCache) (dirs : list Handle) : Prop := unread c /\ old_inv c dirs.

Lemma tidy_permutation c dirs dirs' : dirs ≡ₚ dirs' -> tidy c dirs -> tidy c dirs'.
Proof.
  intros Hp [Hu Ho]. split; [done|]. intros v r Hv. destruct (Ho v r Hv) as (e & H). exists e. unfold dirs_of in *. rewrite <- Hp.
  destruct H as (? & ? & ? & ? & Hh). split_and!; try done. intros key p. rewrite <- Hp. apply Hh.
Qed.

Lemma expandedDirectory_file d e : e_fileInUseCount (expandedDirectory io (d, e)).1.2 = e_fileInUseCount e.
Proof. unfold expandedDirectory. by repeat case_match; simplify_eq/=. Qed.

(** A current entry is opened. *)
Lemma tidy_open c readers dirs key r de : cache_inv c readers dirs -> fc_Entries c !! key = Some r -> (e_fileInUseCount de.2 <= 0)%Z ->
  tidy c dirs -> tidy (set_entry c r de) dirs /\ forall p, tidy (set_entry c r de) ((key, r, p) :: dirs).
Proof.
  intros Hi Hk Hf [Hu Ho]. assert (Hr : forall v, fc_OldEntries c !! v <> Some r) by (intros v Hv; by apply (ci_old _ _ _ Hi v r Hv) in Hk).
  assert (unread (set_entry c r de)) by (by apply unread_set_entry). assert (old_inv (set_entry c r de) dirs) by (by apply old_set_entry).
  split; [done|]. intros p. split; [done|]. by apply old_open.
Qed.

Lemma tidy_GetDirectory c readers dirs key : cache_inv c readers dirs -> tidy c dirs ->
  match GetDirectory io c key with
  | (c', Ok (r, path, _)) => tidy c' ((key, r, path) :: dirs)
  | (c', Err _) => tidy c' dirs
  end.
Proof.
  intros Hi Ht. unfold GetDirectory. destruct (lookup_entry c key) as [[r e]|] eqn:Hk; [|done].
  destruct (room_for io c readers dirs key r e (dirDoesNotExist (fc_disk c) e) (e_Size e) Hi Hk) as (Hi' & Hr & [e' He']).
  assert (Ht' : tidy (if dirDoesNotExist (fc_disk c) e then makeRoom io c (e_Size e) key else c) dirs).
  { destruct Ht as [Hu Ho]. destruct (dirDoesNotExist _ _); [|done]. by destruct (makeRoom_old c readers dirs (e_Size e) key Hi Hu Ho) as (? & ? & _). }
  set (expanding := dirDoesNotExist (fc_disk c) e) in *. set (c' := if expanding then _ else _) in *. rewrite He'. change (default e (Some e')) with e'.
  set (e2 := set_Access _ _). pose proof (expandedDirectory_file (fc_disk c') e2) as Hf.
  assert (Hf' : (e_fileInUseCount e2 <= 0)%Z) by (subst e2; destruct expanding; exact (proj1 Ht' r e' He')).
  destruct (expandedDirectory io (fc_disk c', e2)) as [de [path|]]; cbn [fst] in Hf; rewrite <- Hf in Hf'.
  - eapply (tidy_open c' readers dirs key r); [done|done| |done]. cbn [snd].
    by destruct (expanding && _).
  - eapply (tidy_open c' readers dirs key r); [done|done|exact Hf'|done].
Qed.

Lemma tidy_AddDirectory c readers dirs key size info : (fc_Seq c + 1 < 2 ^ 64)%N -> cache_inv c readers dirs -> tidy c dirs ->
  match AddDirectory io c key size info with
  | (c', Ok (r, path)) => tidy c' ((key, r, path) :: dirs)
  | (c', Err _) => tidy c' dirs
  end.
Proof.
  intros Hseq Hi [Hu Ho]. pose proof (inv_add_entry io c readers dirs key size info Hseq Hi) as Ha.
  pose proof (add_entry_old c readers dirs key size info Hi Hu Ho) as Ht. unfold AddDirectory.
  destruct (add_entry io c key size info) as [c' [r|]]; [|done]. cbn [fst] in Ht. destruct Ha as [Hi' Hk].
  destruct (fc_heap c' !! r) as [e|] eqn:He; [|done]. pose proof (expandedDirectory_file (fc_disk c') e) as Hf.
  destruct (expandedDirectory io (fc_disk c', e)) as [de [path|]]; cbn in Hf;
    (eapply (tidy_open c' readers dirs key r); [done|done|rewrite Hf; exact (proj1 Ht r e He)|done]).
Qed.

Lemma tidy_Remove c readers dirs key : cache_inv c readers dirs -> tidy c dirs -> tidy (Remove io c key) dirs.
Proof. intros Hi [Hu Ho]. split; [by apply unread_remove|by eapply old_remove]. Qed.

Lemma tidy_MakeRoom c readers dirs : cache_inv c readers dirs -> tidy c dirs -> tidy (MakeRoom io c) dirs.
Proof. intros Hi [Hu Ho]. by destruct (makeRoom_old c readers dirs 0 "" Hi Hu Ho) as (? & ? & _). Qed.

(** *** Closing *)

Lemma decrementDirectory_counts d e :
  e_fileInUseCount (decrementDirectoryInUseCount io (d, e)).2 = e_fileInUseCount e /\
  e_directoryInUseCount (decrementDirectoryInUseCount io (d, e)).2 = (e_directoryInUseCount e - 1)%Z.
Proof. unfold decrementDirectoryInUseCount. by repeat case_match; simplify_eq/=. Qed.

(** A user of an entry that is not kept leaves. *)
Lemma old_leave c dirs key r p : (forall v, fc_OldEntries c !! v <> Some r) -> old_inv c ((key, r, p) :: dirs) -> old_inv c dirs.
Proof.
  intros Hr Ho v r' Hv. destruct (Ho v r' Hv) as (e & He & H1 & H2 & H3 & H4). assert (r <> r') by (intros ->; by apply (Hr v)).
  rewrite dirs_of_cons, decide_False in H2, H3 by done. exists e. split_and!; try done. intros k q Hin. apply H4. by right.
Qed.

(** What is kept is closed by one of its users, or by a user of something else. *)
Lemma tidy_close_old c dirs key r p r' e' : tidy c ((key, r, p) :: dirs) -> fc_OldEntries c !! (key +:+ p) = Some r' -> fc_heap c !! r' = Some e' ->
  tidy (close_old io c (key +:+ p) r' e') dirs.
Proof.
  intros [Hu Ho] Hv He'. destruct (decrementDirectory_counts (fc_disk c) e') as [Hf Hd]. pose proof (Hu r' e' He') as Hf'.
  assert (Hmine : forall v, fc_OldEntries c !! v = Some r -> v = key +:+ p /\ r' = r).
  { intros v Hv'. destruct (Ho v r Hv') as (_ & _ & _ & _ & _ & Hh). assert (key +:+ p = v) as <- by (apply Hh; by left).
    rewrite Hv in Hv'. by injection Hv'. }
  unfold close_old. destruct (decrementDirectoryInUseCount io (fc_disk c, e')) as [d e2]. cbn in Hf, Hd.
  assert (Hother : forall v q, q <> r' -> fc_OldEntries c !! v = Some q -> kept c dirs v q).
  { intros v q Hne Hq. destruct (Ho v q Hq) as (e & He & H1 & H2 & H3 & H4). assert (r <> q) by (intros <-; by destruct (Hmine v Hq)).
    rewrite dirs_of_cons, decide_False in H2, H3 by done. exists e. split_and!; try done. intros k x Hin. apply H4. by right. }
  assert (Hset : forall de v q, q <> r' -> fc_OldEntries c !! v = Some q -> kept (set_entry c r' de) dirs v q).
  { intros de v q Hne Hq. destruct (Hother v q Hne Hq) as (e & He & H). exists e. split; [|done]. cbn. by rewrite lookup_insert_ne. }
  assert (Hone : forall v, fc_OldEntries c !! v = Some r' -> v = key +:+ p).
  { intros v Hv'. destruct (Ho v r' Hv') as (e & _ & _ & _ & Hpos & Hh). destruct (Ho _ r' Hv) as (_ & _ & _ & _ & _ & Hh').
    unfold dirs_of in Hpos. destruct (filter (fun h : Handle => h.1.2 = r') ((key, r, p) :: dirs)) as [|[[k q] x] l] eqn:Hl; [cbn in Hpos; lia|].
    assert (Hin : (k, q, x) ∈ filter (fun h : Handle => h.1.2 = r') ((key, r, p) :: dirs)) by (rewrite Hl; by left).
    apply list_elem_of_filter in Hin as [Hq Hin]. cbn in Hq. subst q. by rewrite <- (Hh k x Hin), <- (Hh' k x Hin). }
  destruct (inUse e2) eqn:Huse; split.
  - apply unread_set_entry; [done|cbn; lia].
  - intros v q Hq. destruct (decide (q = r')) as [->|Hne]; [|by apply Hset]. destruct (Ho v r' Hq) as (e & He & H1 & H2 & H3 & H4).
    exists e2. cbn. rewrite lookup_insert_eq. unfold inUse in Huse. assert (e = e') as -> by congruence.
    assert (Hge : dirs_of r' ((key, r, p) :: dirs) <= S (dirs_of r' dirs)) by (rewrite dirs_of_cons; case_decide; lia).
    split_and!; [done|lia|lia|lia|]. intros k x Hin. apply H4. by right.
  - apply unread_set_entry; [done|cbn; lia].
  - intros v q Hq. cbn in Hq. apply lookup_delete_Some in Hq as [Hne Hq]. apply Hset; [|done]. intros ->. by apply Hne, eq_sym, Hone.
Qed.

(** A directory that is the current entry's was opened from it. *)
Lemma current_directory c readers dirs key r p r' e' : cache_inv c readers ((key, r, p) :: dirs) ->
  lookup_entry c key = Some (r', e') -> e_ExpandedDirectoryPath e' = p -> r' = r.
Proof.
  intros Hi [Hk He]%lookup_entry_Some Hp. destruct (ci_dirs _ _ _ Hi key r p) as (_ & (q & Hq & ->) & Hother); [by left|].
  destruct (ci_current _ _ _ Hi _ _ _ Hk He) as [(_ & Hs & _) _]. destruct (decide (r' = r)) as [|Hne]; [done|].
  destruct (Hother r' e' He Hne). destruct Hs as [Hs|Hs]; [|congruence]. rewrite Hs in Hp.
  destruct (named_not_empty _ _ Hq) as [Hq' _]. destruct (directory_not_empty _ Hq'). congruence.
Qed.

Lemma tidy_CloseDirectory c readers dirs key r p : cache_inv c readers ((key, r, p) :: dirs) -> tidy c ((key, r, p) :: dirs) ->
  tidy (CloseDirectory io c key p).1 dirs.
Proof.
  intros Hi [Hu Ho]. unfold CloseDirectory.
  assert (Hold : tidy (match fc_OldEntries c !! (key +:+ p) with
      | Some ref => match fc_heap c !! ref with
                    | Some e => (close_old io c (key +:+ p) ref e, None)
                    | None => (c, Some EntryNotFound)
                    end
      | None => (c, Some EntryNotFound)
      end).1 dirs).
  { destruct (fc_OldEntries c !! (key +:+ p)) as [r'|] eqn:Hv.
    - destruct (Ho _ _ Hv) as (e & He & _). rewrite He. by eapply tidy_close_old.
    - split; [done|]. eapply old_leave; [|exact Ho]. intros v Hv'. destruct (Ho v r Hv') as (_ & _ & _ & _ & _ & Hh).
      assert (key +:+ p = v) as <- by (apply Hh; by left). cbn in Hv'. by rewrite Hv in Hv'. }
  destruct (lookup_entry c key) as [[r' e']|] eqn:Hl; [|done]. case_bool_decide as Hp; [|done].
  assert (r' = r) as -> by (by eapply current_directory). apply lookup_entry_Some in Hl as [Hk He].
  assert (Hr : forall v, fc_OldEntries c !! v <> Some r) by (intros v Hv; by apply (ci_old _ _ _ Hi v r Hv) in Hk).
  apply old_leave in Ho; [|done]. destruct (_ =? _)%Z; [done|]. split; [|by apply old_set_entry].
  apply unread_set_entry; [done|]. rewrite (proj1 (decrementDirectory_counts _ _)). exact (Hu r e' He).
Qed.
End Retiring.

(** When nobody has a directory open, none is kept. *)
Lemma tidy_closed c : tidy c [] -> fc_OldEntries c = ∅.
Proof.
  intros [_ Ho]. apply map_eq. intros v. rewrite lookup_empty. destruct (fc_OldEntries c !! v) as [r|] eqn:Hv; [|done].
  destruct (Ho v r Hv) as (_ & _ & _ & _ & Hpos & _). unfold dirs_of in Hpos. cbn in Hpos. lia.
Qed.

Lemma tidy_init dir maxSize minFree : tidy (NewCache dir maxSize minFree) [].
Proof. split; intros ? ?; [intros Hr|intros Hr]; cbn in Hr; by rewrite lookup_empty in Hr. Qed.
