(* ===== verification/Downloader.v ===== *)
(** * The downloader

    cacheddownloader/downloader.go: a conditional request, the copy of its body to a
    temporary file with its checksum, and the retries.  What the network and the
    operating system answer is a value; the temporary files that are left behind are
    part of the state. *)
From Stdlib Require Import ZArith Lia Ascii.
From S2P Require Import Prelude GoStd Hashes FileCache.
#[local] Open Scope go_scope.

(** ** Errors *)

Inductive DownloadError :=
| DownloadCancelledError (source : string) (duration written : Z) (additionalError : option DownloadError)
| DownloadChecksumFailed (e : ChecksumFailedError)
| DownloadStatus (code : Z)
| DownloadFailure (text : string).

Definition NoBytesReceived : Z := -1.

Fixpoint DownloadError_Error (e : DownloadError) : string :=
  match e with
  | DownloadCancelledError source duration written additional =>
      "Download cancelled: source '" +:+ source +:+ "', duration '" +:+ Duration_String duration +:+ "'" +:+
      (if bool_decide (written = NoBytesReceived) then "" else ", bytes '" +:+ pretty written +:+ "'") +:+
      match additional with Some e => ", Error: " +:+ DownloadError_Error e | None => "" end
  | DownloadChecksumFailed e => ChecksumFailedError_Error e
  | DownloadStatus code => "Download failed: Status code " +:+ pretty code
  | DownloadFailure text => text
  end.

(** ** One attempt *)

Record Response := mkResponse { r_StatusCode : Z; r_ETag : string; r_LastModified : string; r_Body : list ascii }.

(** The answers to one attempt: building the request, performing it, whether the
    download is found to be cancelled when that or the copy fails, creating the file,
    preparing it, copying the body ([x_written] bytes when that fails), and removing
    the file after an error. *)
Record Exchange := mkExchange {
  x_request : option string;
  x_do : result string Response;
  x_create : result string string;
  x_prepare : option string;         (* Seek and Truncate *)
  x_copy : option string;
  x_written : Z;
  x_cancelled : bool;
  x_duration : Z;
  x_remove : bool }.

(** The headers of a conditional request. *)
Definition request_headers (info : CachingInfoType) : list (string * string) :=
  (if bool_decide (ETag info = "") then [] else [("If-None-Match", ETag info)]) ++
  (if bool_decide (LastModified info = "") then [] else [("If-Modified-Since", LastModified info)]).

Definition StatusOK : Z := 200.
Definition StatusNotModified : Z := 304.

Section Attempt.
  Context (x : Exchange).

Definition cancelled_or (source : string) (written : Z) (err : string) : DownloadError :=
  if x_cancelled x then DownloadCancelledError source (x_duration x) written (Some (DownloadFailure err)) else DownloadFailure err.

(** The body of [copyToDestinationFile], without its deferred part. *)
Definition copy_body (path : string) (resp : Response) (checksum : ChecksumInfoType) : result DownloadError (string * CachingInfoType) :=
  match x_prepare x with
  | Some err => Err (DownloadFailure err)
  | None =>
      match (if bool_decide (ci_Algorithm checksum <> "") || bool_decide (ci_Value checksum <> "")
             then match NewHashValidator (ci_Algorithm checksum) with Ok v => Ok (Some v) | Err e => Err e end
             else Ok None) with
      | Err e => Err (DownloadChecksumFailed e)
      | Ok checksumValidator =>
          match x_copy x with
          | Some err => Err (cancelled_or "copy-body" (x_written x) err)
          | None =>
              match (checksumValidator ≫= fun v => Validate (Write v (r_Body resp)) (ci_Value checksum)) with
              | Some e => Err (DownloadChecksumFailed e)
              | None => Ok (path, mkCachingInfo (r_ETag resp) (r_LastModified resp))
              end
          end
      end
  end.

(** The file is removed when there is an error. *)
Definition copyToDestinationFile (temps : gset string) (path : string) (resp : Response) (checksum : ChecksumInfoType)
    : gset string * result DownloadError (string * CachingInfoType) :=
  match copy_body path resp checksum with
  | Ok r => (temps, Ok r)
  | Err e => (if x_remove x then temps ∖ {[path]} else temps, Err e)
  end.

(** The empty path stands for a download that is not needed. *)
Definition fetchToFile (temps : gset string) (checksum : ChecksumInfoType) : gset string * result DownloadError (string * CachingInfoType) :=
  match x_request x, x_do x with
  | Some err, _ => (temps, Err (DownloadFailure err))
  | None, Err err => (temps, Err (cancelled_or "fetch-request" NoBytesReceived err))
  | None, Ok resp =>
      if (r_StatusCode resp =? StatusNotModified)%Z then (temps, Ok ("", noCachingInfo))
      else if negb (r_StatusCode resp =? StatusOK)%Z then (temps, Err (DownloadStatus (r_StatusCode resp)))
      else
        match x_create x with
        | Err err => (temps, Err (DownloadFailure err))
        | Ok path => copyToDestinationFile ({[path]} ∪ temps) path resp checksum
        end
  end.
End Attempt.

(** ** Retries *)

Definition MAX_DOWNLOAD_ATTEMPTS : nat := 4.
Definition RETRY_WAIT_MIN : Z := 500 * Millisecond.
Definition RETRY_WAIT_MAX : Z := 5 * Second.
Definition MAX_JITTER : Z := 200 * Millisecond.

(** The product is exact in a float64, a duration times a power of two; [random] is
    below 100. *)
Definition backoff (minRetry maxRetry : Z) (attemptNum : nat) (random : Z) : Z :=
  let mult := (2 ^ Z.of_nat attemptNum * minRetry)%Z in
  let sleep := if bool_decide (mult < 2 ^ 63)%Z && bool_decide (mult <= maxRetry)%Z then mult else maxRetry in
  (sleep + MAX_JITTER ÷ 100 * random)%Z.

Definition retried (e : DownloadError) : bool :=
  match e with DownloadCancelledError _ _ _ _ | DownloadChecksumFailed _ => false | _ => true end.

(** What the server answers to the headers of each attempt. *)
Abbreviation Server := (nat -> list (string * string) -> Exchange).

Section Download.
  Context (server : Server) (random : nat -> Z).
  Context (cachingInfoIn : CachingInfoType) (checksum : ChecksumInfoType).

Fixpoint download_loop (n attempt : nat) (temps : gset string) : gset string * list Z * result DownloadError (string * CachingInfoType) :=
  let '(temps, r) := fetchToFile (server attempt (request_headers cachingInfoIn)) temps checksum in
  match r with
  | Ok out => (temps, [], Ok out)
  | Err e =>
      if retried e then
        let sleep := backoff RETRY_WAIT_MIN RETRY_WAIT_MAX attempt (random attempt) in
        match n with
        | 0 => (temps, [sleep], Err e)
        | S n => let '(temps, sleeps, r) := download_loop n (S attempt) temps in (temps, sleep :: sleeps, r)
        end
      else (temps, [], Err e)
  end.

(** [Download], once it has passed the barrier: the files, the times it slept, and
    the result. *)
Definition Download (temps : gset string) : gset string * list Z * result DownloadError (string * CachingInfoType) :=
  download_loop (MAX_DOWNLOAD_ATTEMPTS - 1) 0 temps.
End Download.

(** ** What a download leaves *)

(** Files that cannot be told from ones that are there are not created, and what is
    to be removed can be. *)
Definition clean (x : Exchange) (temps : gset string) : Prop :=
  x_remove x = true /\ forall path, x_create x = Ok path -> path <> "" /\ path ∉ temps.

Definition with_file (path : string) (temps : gset string) : gset string :=
  if bool_decide (path = "") then temps else {[path]} ∪ temps.

Lemma fetchToFile_temps (x : Exchange) (temps : gset string) (checksum : ChecksumInfoType) :
  clean x temps ->
  (fetchToFile x temps checksum).1 =
    match (fetchToFile x temps checksum).2 with Ok (path, _) => with_file path temps | Err _ => temps end.
Proof.
  intros [Hr Hc]. unfold fetchToFile. destruct (x_request x); [done|]. destruct (x_do x) as [resp|]; [|done].
  destruct (r_StatusCode resp =? StatusNotModified)%Z; [done|]. destruct (negb _); [done|].
  destruct (x_create x) as [path|] eqn:Hx; [|done]. destruct (Hc path eq_refl) as [Hne Hnew]. unfold copyToDestinationFile.
  destruct (copy_body x path resp checksum) as [[p info]|e] eqn:Hb; cbn.
  - assert (p = path) as ->. { unfold copy_body in Hb. repeat case_match; by simplify_eq. }
    unfold with_file. by rewrite bool_decide_false.
  - rewrite Hr. set_solver.
Qed.

Lemma fetchToFile_result (x : Exchange) (temps temps' : gset string) (checksum : ChecksumInfoType) :
  (fetchToFile x temps checksum).2 = (fetchToFile x temps' checksum).2.
Proof. unfold fetchToFile, copyToDestinationFile. repeat case_match; done. Qed.

(** A file that a download returns was answered with status 200 and the caching
    information, and its content has the checksum that was asked for. *)
Definition intact (x : Exchange) (checksum : ChecksumInfoType) (path : string) (info : CachingInfoType) : Prop :=
  exists resp, x_do x = Ok resp /\
    if bool_decide (path = "") then r_StatusCode resp = StatusNotModified
    else r_StatusCode resp = StatusOK /\ x_create x = Ok path /\ x_copy x = None /\
         info = mkCachingInfo (r_ETag resp) (r_LastModified resp) /\
         (ci_Algorithm checksum <> "" \/ ci_Value checksum <> "" ->
          exists v, NewHashValidator (ci_Algorithm checksum) = Ok v /\ Validate (Write v (r_Body resp)) (ci_Value checksum) = None).

Lemma fetchToFile_intact (x : Exchange) (temps : gset string) (checksum : ChecksumInfoType) (path : string) (info : CachingInfoType) :
  (forall path, x_create x = Ok path -> path <> "") -> (fetchToFile x temps checksum).2 = Ok (path, info) -> intact x checksum path info.
Proof.
  intros Hne. unfold fetchToFile, intact. destruct (x_request x); [done|]. destruct (x_do x) as [resp|]; [|done].
  destruct (r_StatusCode resp =? StatusNotModified)%Z eqn:H304.
  { intros [= <- <-]. exists resp. split; [done|]. rewrite bool_decide_true by done. lia. }
  destruct (r_StatusCode resp =? StatusOK)%Z eqn:H200; [|done]. cbn. destruct (x_create x) as [p|] eqn:Hx; [|done].
  unfold copyToDestinationFile. destruct (copy_body x p resp checksum) as [r|] eqn:Hb; [|done]. cbn. intros [= ->]. unfold copy_body in Hb.
  destruct (x_prepare x); [done|]. exists resp. split; [done|].
  destruct (bool_decide (ci_Algorithm checksum <> "") || bool_decide (ci_Value checksum <> "")) eqn:Hsum.
  - destruct (NewHashValidator (ci_Algorithm checksum)) as [v|]; [|done]. destruct (x_copy x); [done|]. cbn in Hb.
    destruct (Validate _ _) eqn:Hv; [done|]. simplify_eq. rewrite bool_decide_false by (by apply Hne). split_and!; try done; [lia|]. eauto.
  - apply orb_false_elim in Hsum as [Ha Hv]. rewrite !bool_decide_eq_false in Ha, Hv.
    destruct (x_copy x); [done|]. cbn in Hb. simplify_eq. rewrite bool_decide_false by (by apply Hne).
    split_and!; try done; [lia|]. by intros [?|?].
Qed.

Section Outcome.
  Context (server : Server) (random : nat -> Z) (info : CachingInfoType) (checksum : ChecksumInfoType) (temps : gset string).
  Context (Hclean : forall i, clean (server i (request_headers info)) temps).

Definition answer (i : nat) : result DownloadError (string * CachingInfoType) :=
  (fetchToFile (server i (request_headers info)) ∅ checksum).2.
Definition wait (i : nat) : Z := backoff RETRY_WAIT_MIN RETRY_WAIT_MAX i (random i).
Definition to_retry (r : result DownloadError (string * CachingInfoType)) : bool := match r with Err e => retried e | Ok _ => false end.

Lemma download_loop_outcome (n attempt : nat) :
  exists k, k <= n /\ (forall i, i < k -> to_retry (answer (attempt + i)) = true) /\
    (to_retry (answer (attempt + k)) = true -> k = n) /\
    download_loop server random info checksum n attempt temps =
      (match answer (attempt + k) with Ok (path, _) => with_file path temps | Err _ => temps end,
       wait <$> seq attempt (k + if to_retry (answer (attempt + k)) then 1 else 0), answer (attempt + k)).
Proof.
  revert attempt. induction n as [|n IH]; intros attempt; cbn [download_loop];
    pose proof (fetchToFile_temps _ _ checksum (Hclean attempt)) as Ht;
    pose proof (fetchToFile_result (server attempt (request_headers info)) temps ∅ checksum) as Hr; fold (answer attempt) in Hr;
    destruct (fetchToFile _ temps checksum) as [temps' r]; cbn in Ht, Hr; subst r temps'.
  - exists 0. rewrite Nat.add_0_r. split_and!; [lia|lia|done|]. cbn. destruct (answer attempt) as [[path i]|e]; [done|]. cbn.
    by destruct (retried e).
  - destruct (to_retry (answer attempt)) eqn:Hretry.
    + destruct (answer attempt) as [?|e] eqn:Ha; [done|]. cbn in Hretry. rewrite Hretry.
      destruct (IH (S attempt)) as (k & Hk & Hbefore & Hlast & ->). exists (S k). rewrite <- Nat.add_succ_comm.
      split_and!; [lia| |intros; f_equal; auto|done]. intros [|i] Hi; [by rewrite Nat.add_0_r, Ha|].
      rewrite <- Nat.add_succ_comm. apply Hbefore. lia.
    + exists 0. rewrite Nat.add_0_r. split_and!; [lia|lia|congruence|]. cbn. rewrite Hretry. cbn.
      destruct (answer attempt) as [[path i]|e]; [done|]. cbn in Hretry. by rewrite Hretry.
Qed.
End Outcome.

(** What a download does.  It makes at most four attempts, another one only after
    an error that is neither a cancellation nor a wrong checksum, and sleeps between
    them; its result is that of the last attempt it made.  When it fails no file is
    left behind, and when it succeeds its file is the only new one, its content was
    received completely with status 200, and has the checksum that was asked for. *)
Theorem Download_outcome (server : Server) (random : nat -> Z) (info : CachingInfoType) (checksum : ChecksumInfoType) (temps : gset string) :
  (forall i, clean (server i (request_headers info)) temps) ->
  exists k, k < MAX_DOWNLOAD_ATTEMPTS /\
    (forall i, i < k -> to_retry (answer server info checksum i) = true) /\
    (to_retry (answer server info checksum k) = true -> S k = MAX_DOWNLOAD_ATTEMPTS) /\
    let '(temps', sleeps, r) := Download server random info checksum temps in
    r = answer server info checksum k /\ sleeps = wait random <$> seq 0 (if to_retry r then S k else k) /\
    match r with
    | Err _ => temps' = temps
    | Ok (path, out) => temps' = with_file path temps /\ intact (server k (request_headers info)) checksum path out
    end.
Proof.
  intros Hclean. destruct (download_loop_outcome server random info checksum temps Hclean (MAX_DOWNLOAD_ATTEMPTS - 1) 0) as (k & Hk & Hb & Hl & Hd).
  cbn [Nat.add] in *. exists k. split_and!; [unfold MAX_DOWNLOAD_ATTEMPTS in *; lia|done|intros; rewrite (Hl H); done|].
  unfold Download. rewrite Hd. split; [done|]. split; [f_equal; f_equal; destruct (to_retry _); lia|].
  destruct (answer server info checksum k) as [[path out]|e] eqn:Ha; [|done]. split; [done|].
  eapply fetchToFile_intact; [|exact Ha]. intros p Hp. by apply Hclean in Hp as [? _].
Qed.

(** A server that is overloaded at first. *)
Definition dx_exchange (code : Z) : Exchange :=
  mkExchange None (Ok (mkResponse code "v1" "" (String.list_ascii_of_string "abc"))) (Ok "/cache/temp/a-1") None None 0 false 0 true.
Definition dx_server : Server := fun i _ => dx_exchange (if bool_decide (i = 0) then 503 else StatusOK).
Definition dx_checksum : ChecksumInfoType := mkChecksumInfo "md5" "900150983cd24fb0d6963f7d28e17f72".

Lemma Download_outcome_witness :
  exists k, k < MAX_DOWNLOAD_ATTEMPTS /\ answer dx_server noCachingInfo dx_checksum k = Ok ("/cache/temp/a-1", mkCachingInfo "v1" "").
Proof.
  destruct (Download_outcome dx_server (fun _ => 7%Z) noCachingInfo dx_checksum ∅) as (k & Hk & _ & _ & Hd).
  - intros i. split; [done|]. intros path [= <-]. split; [done|set_solver].
  - exists k. split; [done|].
    assert (Hr : (Download dx_server (fun _ => 7%Z) noCachingInfo dx_checksum ∅).2 = Ok ("/cache/temp/a-1", mkCachingInfo "v1" ""))
      by (vm_compute; reflexivity).
    destruct (Download dx_server (fun _ => 7%Z) noCachingInfo dx_checksum ∅) as [[temps sleeps] r]. destruct Hd as [<- _]. exact Hr.
Defined.
