(* ===== verification/CachedDownloader.v ===== *)
(** * The cached downloader

    cacheddownloader/cached_downloader.go: fetches of files and of directories
    through the cache, each a goroutine that waits for the limiter of its key, looks
    the key up, asks the server whether the entry is current, and then returns the
    entry or replaces it.  Fetches, and the clients that close what they were given,
    interleave; the file cache is the one of the file FileCache. *)
From Stdlib Require Import ZArith Lia Ascii.
From S2P Require Import Prelude GoStd Hashes FileCache Downloader.
#[local] Open Scope go_scope.

(** ** Populating *)

Inductive FetchError :=
| FetchCache (e : CacheError)
| FetchDownload (e : DownloadError)
| FetchIO (text : string)
| MissingCacheKeyErr
| MissingCacheHeadersErr.

Record download := mkDownload { dl_path : string; dl_size : Z; dl_cachingInfo : CachingInfoType }.

Definition isCacheable (info : CachingInfoType) : bool :=
  negb (bool_decide (ETag info = "")) || negb (bool_decide (LastModified info = "")).

(** The answers of the server and of the operating system while the cache is
    populated: the size of the downloaded file, the file for the transformed one, and
    what the transformer returns. *)
Record PopulateEnv := mkPopulateEnv {
  pe_server : Server;
  pe_random : nat -> Z;
  pe_stat : result string Z;
  pe_create : result string string;
  pe_close : option string;
  pe_transform : result string Z;
  pe_remove : bool }.

Inductive Populated :=
| PopulateFailed (e : FetchError)
| CacheIsWarm
| Fresh (d : download) (size : Z).

Definition populateCache (env : PopulateEnv) (temps : gset string) (cachingInfo : CachingInfoType) (checksum : ChecksumInfoType)
    : gset string * Populated :=
  let '(temps, _, r) := Download (pe_server env) (pe_random env) cachingInfo checksum temps in
  match r with
  | Err e => (temps, PopulateFailed (FetchDownload e))
  | Ok (filename, info) =>
      if bool_decide (filename = "") then (temps, CacheIsWarm)
      else
        match pe_stat env with
        | Err e => (temps, PopulateFailed (FetchIO e))
        | Ok size =>
            let removed (temps : gset string) := if pe_remove env then temps ∖ {[filename]} else temps in
            match pe_create env with
            | Err e => (removed temps, PopulateFailed (FetchIO e))
            | Ok cachedFile =>
                let temps := {[cachedFile]} ∪ temps in
                match pe_close env, pe_transform env with
                | Some e, _ | None, Err e => (removed temps, PopulateFailed (FetchIO e))
                | None, Ok cachedSize => (removed temps, Fresh (mkDownload cachedFile cachedSize info) size)
                end
            end
        end
  end.

(** ** Fetches *)

(** What a fetch asks for; [f_key] is the key in the cache. *)
Record FetchRequest := mkFetch { f_directory : bool; f_key : string; f_checksum : ChecksumInfoType }.

(** What it found in the cache, and what it returns. *)
Inductive Held := HeldReader (r : nat) | HeldDirectory (r : nat) (path : string).
Inductive Fetched :=
| FetchedHeld (h : Held) (size : Z)
| FetchedTemp (path : string) (size : Z).

(** Where a fetch is: before it asks for its limiter, waiting for the one of
    another fetch, holding its own one before the lookup, at the barrier of the
    downloader and past it, with a result of that, after it closed what it had
    found, and returning.  A fetch without a key is only at the barrier and past it. *)
Inductive Phase :=
| FUncached
| FUncachedDownload
| FStart
| FBlocked (limiter : nat)
| FLookup (limiter : nat)
| FBarrier (limiter : nat) (current : result CacheError Held) (info : CachingInfoType)
| FDownload (limiter : nat) (current : result CacheError Held) (info : CachingInfoType)
| FAbandon (limiter : nat) (current : option Held) (e : FetchError)
| FStale (limiter : nat) (current : option Held) (d : download) (size : Z)
| FStore (limiter : nat) (d : download) (size : Z)
| FReturn (limiter : nat) (r : result FetchError Fetched)
| FDone (r : result FetchError Fetched).

Abbreviation Fetch := (FetchRequest * Phase)%type.

(** What the fetches share: the cache, the temporary files, the limiters in progress
    and the ones that are closed, the slots of the downloader's barrier, and what
    clients have been given and have not closed. *)
Record Shared := mkShared {
  sh_cache : FileCache;
  sh_temps : gset string;
  sh_inProgress : gmap string nat;
  sh_closed : gset nat;
  sh_slots : nat;
  sh_readers : list nat;
  sh_dirs : list (string * nat * string);
  sh_files : list string }.

Definition set_cache (s : Shared) (c : FileCache) : Shared :=
  mkShared c (sh_temps s) (sh_inProgress s) (sh_closed s) (sh_slots s) (sh_readers s) (sh_dirs s) (sh_files s).
Definition set_temps (s : Shared) (temps : gset string) : Shared :=
  mkShared (sh_cache s) temps (sh_inProgress s) (sh_closed s) (sh_slots s) (sh_readers s) (sh_dirs s) (sh_files s).
Definition set_slots (s : Shared) (n : nat) : Shared :=
  mkShared (sh_cache s) (sh_temps s) (sh_inProgress s) (sh_closed s) n (sh_readers s) (sh_dirs s) (sh_files s).

Definition current_held (current : result CacheError Held) : option Held := match current with Ok h => Some h | Err _ => None end.

(** [Get] or [GetDirectory]. *)
Definition look_up (io : IO) (c : FileCache) (f : FetchRequest) : FileCache * result CacheError Held * CachingInfoType :=
  if f_directory f then
    match GetDirectory io c (f_key f) with
    | (c, Ok (r, path, info)) => (c, Ok (HeldDirectory r path), info)
    | (c, Err e) => (c, Err e, noCachingInfo)
    end
  else
    match Get io c (f_key f) with
    | (c, Ok (r, info)) => (c, Ok (HeldReader r), info)
    | (c, Err e) => (c, Err e, noCachingInfo)
    end.

(** The end of [populateCache]. *)
Definition populated (limiter : nat) (current : result CacheError Held) (p : Populated) : Phase :=
  match p with
  | PopulateFailed e => FAbandon limiter (current_held current) e
  | CacheIsWarm => FReturn limiter (match current with Ok h => Ok (FetchedHeld h 0) | Err e => Err (FetchCache e) end)
  | Fresh d size => FStale limiter (current_held current) d size
  end.

(** Closing what was found. *)
Definition close_held (io : IO) (c : FileCache) (key : string) (current : option Held) : FileCache :=
  match current with
  | Some (HeldReader r) => close_reader io c r
  | Some (HeldDirectory r path) => (CloseDirectory io c key path).1
  | None => c
  end.

(** Opening a temporary file; [opened] is the error of that. *)
Definition tempFileRemoveOnClose (opened : option string) (path : string) (size : Z) : result FetchError Fetched :=
  match opened with Some err => Err (FetchIO err) | None => Ok (FetchedTemp path size) end.

(** [Add] or [AddDirectory], which move the file into the cache, or [Remove] of an
    entry that must not be cached. *)
Definition store (io : IO) (opened : option string) (c : FileCache) (temps : gset string) (f : FetchRequest) (d : download) (size : Z)
    : FileCache * gset string * result FetchError Fetched :=
  let moved := if io_rename io then temps ∖ {[dl_path d]} else temps in
  if isCacheable (dl_cachingInfo d) then
    if f_directory f then
      match AddDirectory io c (f_key f) (dl_size d) (dl_cachingInfo d) with
      | (c, Ok (r, path)) => (c, moved, Ok (FetchedHeld (HeldDirectory r path) size))
      | (c, Err e) => (c, moved, Err (FetchCache e))
      end
    else
      match Add io c (f_key f) (dl_size d) (dl_cachingInfo d) with
      | (c, Ok r) => (c, moved, Ok (FetchedHeld (HeldReader r) size))
      | (c, Err e) => (c, moved, Err (FetchCache e))
      end
  else
    let c := Remove io c (f_key f) in
    if f_directory f then (c, temps, Err MissingCacheHeadersErr)
    else (c, temps, tempFileRemoveOnClose opened (dl_path d) size).

(** [Fetch] and [FetchAsDirectory]. *)
Definition cache_key (cacheKey : string) : string :=
  String.string_of_list_ascii (EncodeToString (md5 (String.list_ascii_of_string cacheKey))).

Definition begin_fetch (directory : bool) (cacheKey : string) (checksum : ChecksumInfoType) : Fetch :=
  if bool_decide (cacheKey = "") then
    (mkFetch directory "" checksum, if directory then FDone (Err MissingCacheKeyErr) else FUncached)
  else (mkFetch directory (cache_key cacheKey) checksum, FStart).

(** The end of [fetchUncachedFile]: without a download there is no file to open. *)
Definition uncached (opened : option string) (p : Populated) : result FetchError Fetched :=
  match p with
  | PopulateFailed e => Err e
  | CacheIsWarm => Err (FetchIO "open : no such file or directory")
  | Fresh d size => tempFileRemoveOnClose opened (dl_path d) size
  end.

Definition cancelled_at (source : string) (duration : Z) : FetchError :=
  FetchDownload (DownloadCancelledError source duration NoBytesReceived None).

(** The client has what a fetch returns. *)
Definition deliver (f : FetchRequest) (r : result FetchError Fetched) (s : Shared) : Shared :=
  let '(readers, dirs, files) :=
    match r with
    | Ok (FetchedHeld (HeldReader r) _) => (r :: sh_readers s, sh_dirs s, sh_files s)
    | Ok (FetchedHeld (HeldDirectory r path) _) => (sh_readers s, (f_key f, r, path) :: sh_dirs s, sh_files s)
    | Ok (FetchedTemp path _) => (sh_readers s, sh_dirs s, path :: sh_files s)
    | Err _ => (sh_readers s, sh_dirs s, sh_files s)
    end in
  mkShared (sh_cache s) (sh_temps s) (sh_inProgress s) (sh_closed s) (sh_slots s) readers dirs files.

Definition set_limiters (s : Shared) (inProgress : gmap string nat) (closed : gset nat) : Shared :=
  mkShared (sh_cache s) (sh_temps s) inProgress closed (sh_slots s) (sh_readers s) (sh_dirs s) (sh_files s).

(** [os.CreateTemp] makes new files. *)
Definition new_files (env : PopulateEnv) (temps : gset string) : Prop :=
  (forall i headers path, x_create (pe_server env i headers) = Ok path -> path <> "" /\ path ∉ temps) /\
  (forall path, pe_create env = Ok path -> path <> "" /\ path ∉ temps).

Inductive fetch_step (f : FetchRequest) : Shared -> Phase -> Shared -> Phase -> Prop :=
| uncached_barrier s n : sh_slots s = S n -> fetch_step f s FUncached (set_slots s n) FUncachedDownload
| uncached_cancelled s duration : fetch_step f s FUncached s (FDone (Err (cancelled_at "download-barrier" duration)))
| uncached_done s env opened temps p :
    new_files env (sh_temps s) -> populateCache env (sh_temps s) noCachingInfo (f_checksum f) = (temps, p) ->
    let s' := set_slots (set_temps s temps) (S (sh_slots s)) in
    fetch_step f s FUncachedDownload (deliver f (uncached opened p) s') (FDone (uncached opened p))
| fetch_acquire s l :
    sh_inProgress s !! f_key f = None -> l ∉ sh_closed s -> (forall key, sh_inProgress s !! key <> Some l) ->
    fetch_step f s FStart (set_limiters s (<[f_key f := l]> (sh_inProgress s)) (sh_closed s)) (FLookup l)
| fetch_block s l : sh_inProgress s !! f_key f = Some l -> fetch_step f s FStart s (FBlocked l)
| fetch_wake s l : l ∈ sh_closed s -> fetch_step f s (FBlocked l) s FStart
| fetch_cancelled s l duration : fetch_step f s (FBlocked l) s (FDone (Err (cancelled_at "acquire-limiter" duration)))
| fetch_lookup s l io c current info :
    look_up io (sh_cache s) f = (c, current, info) -> fetch_step f s (FLookup l) (set_cache s c) (FBarrier l current info)
| fetch_barrier s l current info n :
    sh_slots s = S n -> fetch_step f s (FBarrier l current info) (set_slots s n) (FDownload l current info)
| fetch_barrier_cancelled s l current info duration :
    fetch_step f s (FBarrier l current info) s (populated l current (PopulateFailed (cancelled_at "download-barrier" duration)))
| fetch_downloaded s l current info env temps p :
    new_files env (sh_temps s) -> populateCache env (sh_temps s) info (f_checksum f) = (temps, p) ->
    fetch_step f s (FDownload l current info) (set_slots (set_temps s temps) (S (sh_slots s))) (populated l current p)
| fetch_abandoned s l io current e :
    fetch_step f s (FAbandon l current e) (set_cache s (close_held io (sh_cache s) (f_key f) current)) (FReturn l (Err e))
| fetch_stale s l io current d size :
    fetch_step f s (FStale l current d size) (set_cache s (close_held io (sh_cache s) (f_key f) current)) (FStore l d size)
| fetch_stored s l io opened d size c temps r :
    (fc_Seq (sh_cache s) + 1 < 2 ^ 64)%N -> store io opened (sh_cache s) (sh_temps s) f d size = (c, temps, r) ->
    fetch_step f s (FStore l d size) (set_temps (set_cache s c) temps) (FReturn l r)
| fetch_release s l r :
    fetch_step f s (FReturn l r) (deliver f r (set_limiters s (delete (f_key f) (sh_inProgress s)) ({[l]} ∪ sh_closed s))) (FDone r).

(** ** The system *)

Abbreviation Sys := (Shared * list Fetch)%type.

Inductive sys_step : Sys -> Sys -> Prop :=
| sys_fetch s l i f ph s' ph' : l !! i = Some (f, ph) -> fetch_step f s ph s' ph' -> sys_step (s, l) (s', <[i := (f, ph')]> l)
| sys_begin s l directory cacheKey checksum : sys_step (s, l) (s, l ++ [begin_fetch directory cacheKey checksum])
| sys_close_reader s l io r readers :
    sh_readers s ≡ₚ r :: readers ->
    sys_step (s, l) (mkShared (close_reader io (sh_cache s) r) (sh_temps s) (sh_inProgress s) (sh_closed s) (sh_slots s)
                       readers (sh_dirs s) (sh_files s), l)
| sys_CloseDirectory s l io key r path dirs :
    sh_dirs s ≡ₚ (key, r, path) :: dirs ->
    sys_step (s, l) (mkShared (CloseDirectory io (sh_cache s) key path).1 (sh_temps s) (sh_inProgress s) (sh_closed s) (sh_slots s)
                       (sh_readers s) dirs (sh_files s), l)
| sys_close_file s l (removed : bool) path files :
    sh_files s ≡ₚ path :: files ->
    sys_step (s, l) (mkShared (sh_cache s) (if removed then sh_temps s ∖ {[path]} else sh_temps s) (sh_inProgress s) (sh_closed s) (sh_slots s)
                       (sh_readers s) (sh_dirs s) files, l)
| sys_MakeRoom s l io : sys_step (s, l) (set_cache s (MakeRoom io (sh_cache s)), l).

Definition New (cache : FileCache) (maxConcurrentDownloads : nat) : Shared :=
  mkShared cache ∅ ∅ ∅ maxConcurrentDownloads [] [] [].
