(* ===== verification/CachedDownloaderProps.v ===== *)
(** * Fetches through the cache

    Every run of the cached downloader is a run of the file cache, in which nothing
    that was opened is lost; there is one fetch for each key at a time, and a fetch
    that waits will be woken; and an entry that a server confirms is still the
    current one, on disk. *)
From Stdlib Require Import ZArith Lia.
From S2P Require Import Prelude GoStd Hashes FileCache FileCacheProps FileCacheRuns Downloader CachedDownloader.

(** ** Fetches as clients of the cache *)

(** What a fetch has open. *)
Definition held (ph : Phase) : option Held :=
  match ph with
  | FBarrier _ current _ | FDownload _ current _ => current_held current
  | FAbandon _ current _ | FStale _ current _ _ => current
  | FReturn _ (Ok (FetchedHeld h _)) => Some h
  | _ => None
  end.

Definition held_readers (f : Fetch) : list nat := match held f.2 with Some (HeldReader r) => [r] | _ => [] end.
Definition held_dirs (f : Fetch) : list Handle :=
  match held f.2 with Some (HeldDirectory r path) => [(f_key f.1, r, path)] | _ => [] end.

(** The cache's clients are the downloader's clients and its fetches. *)
Definition client_of (x : Sys) (w : World) : Prop :=
  w_cache w = sh_cache x.1 /\
  w_readers w ≡ₚ sh_readers x.1 ++ (x.2 ≫= held_readers) /\
  w_dirs w ≡ₚ sh_dirs x.1 ++ (x.2 ≫= held_dirs).

(** The same, with one fetch apart from the others. *)
Definition client_with (f : Fetch) (s : Shared) (R : list nat) (D : list Handle) (w : World) : Prop :=
  w_cache w = sh_cache s /\ w_readers w ≡ₚ held_readers f ++ sh_readers s ++ R /\ w_dirs w ≡ₚ held_dirs f ++ sh_dirs s ++ D.

Lemma client_of_split (s : Shared) (l1 l2 : list Fetch) (f : Fetch) (w : World) :
  client_of (s, l1 ++ f :: l2) w <-> client_with f s ((l1 ++ l2) ≫= held_readers) ((l1 ++ l2) ≫= held_dirs) w.
Proof.
  assert (H : forall {A} (g : Fetch -> list A) (l : list A), l ++ ((l1 ++ f :: l2) ≫= g) ≡ₚ g f ++ l ++ ((l1 ++ l2) ≫= g)).
  { intros A g l. rewrite !bind_app. cbn. solve_Permutation. }
  unfold client_of, client_with. cbn [fst snd]. by rewrite !H.
Qed.

Lemma held_populated (l : nat) (current : result CacheError Held) (p : Populated) :
  held (populated l current p) = current_held current.
Proof. by destruct p, current. Qed.

Lemma client_same (f f' : Fetch) (s s' : Shared) (R : list nat) (D : list Handle) (w : World) :
  client_with f s R D w -> f.1 = f'.1 -> held f.2 = held f'.2 -> sh_cache s = sh_cache s' -> sh_readers s = sh_readers s' -> sh_dirs s = sh_dirs s' ->
  exists w', rtc client_step w w' /\ client_with f' s' R D w'.
Proof.
  intros (Hc & Hr & Hd) Hf Hh H1 H2 H3. exists w. split; [done|]. unfold client_with, held_readers, held_dirs in *.
  rewrite <- Hf, <- Hh, <- H1, <- H2, <- H3. done.
Qed.

Lemma client_lookup (f : FetchRequest) (s : Shared) (l : nat) (io : IO) (c : FileCache) current info R D (w : World) :
  look_up io (sh_cache s) f = (c, current, info) -> client_with (f, FLookup l) s R D w ->
  exists w', rtc client_step w w' /\ client_with (f, FBarrier l current info) (set_cache s c) R D w'.
Proof.
  intros Hl (Hc & Hr & Hd). cbn in Hr, Hd. unfold look_up in Hl. destruct (f_directory f).
  - pose proof (do_GetDirectory io w (f_key f)) as Hs. rewrite Hc in Hs.
    destruct (GetDirectory io (sh_cache s) (f_key f)) as [c' [[[r p] i]|e]]; simplify_eq; cbn in Hs;
      (eexists; split; [apply rtc_once, Hs|]); split_and!; cbn; try done. by rewrite Hd.
  - pose proof (do_Get io w (f_key f)) as Hs. rewrite Hc in Hs.
    destruct (Get io (sh_cache s) (f_key f)) as [c' [[r i]|e]]; simplify_eq; cbn in Hs;
      (eexists; split; [apply rtc_once, Hs|]); split_and!; cbn; try done. by rewrite Hr.
Qed.

Lemma client_close (f : FetchRequest) (s : Shared) (ph ph' : Phase) (io : IO) R D (w : World) :
  held ph' = None -> client_with (f, ph) s R D w ->
  exists w', rtc client_step w w' /\ client_with (f, ph') (set_cache s (close_held io (sh_cache s) (f_key f) (held ph))) R D w'.
Proof.
  intros Hn (Hc & Hr & Hd). unfold client_with, held_readers, held_dirs in *. cbn [fst snd] in *. rewrite Hn.
  destruct (held ph) as [[r|r path]|]; cbn in *; [| |by exists w].
  - eexists. split; [apply rtc_once, (do_close_reader io w r _ Hr)|]. cbn. by rewrite Hc.
  - eexists. split; [apply rtc_once, (do_CloseDirectory io w _ _ _ _ Hd)|]. cbn. by rewrite Hc.
Qed.

Lemma client_store (f : FetchRequest) (s : Shared) (l : nat) (io : IO) (opened : option string) d size c temps r R D (w : World) :
  (fc_Seq (sh_cache s) + 1 < 2 ^ 64)%N -> store io opened (sh_cache s) (sh_temps s) f d size = (c, temps, r) ->
  client_with (f, FStore l d size) s R D w ->
  exists w', rtc client_step w w' /\ client_with (f, FReturn l r) (set_temps (set_cache s c) temps) R D w'.
Proof.
  intros Hq Hst (Hc & Hr & Hd). cbn in Hr, Hd. unfold store in Hst. rewrite <- Hc in Hq. destruct (isCacheable _); [destruct (f_directory f)|].
  - pose proof (do_AddDirectory io w (f_key f) (dl_size d) (dl_cachingInfo d) Hq) as Hs. rewrite Hc in Hs.
    destruct (AddDirectory io (sh_cache s) (f_key f) (dl_size d) (dl_cachingInfo d)) as [c' [[q p]|e]]; simplify_eq; cbn in Hs;
      (eexists; split; [apply rtc_once, Hs|]); split_and!; cbn; try done. by rewrite Hd.
  - pose proof (do_Add io w (f_key f) (dl_size d) (dl_cachingInfo d) Hq) as Hs. rewrite Hc in Hs.
    destruct (Add io (sh_cache s) (f_key f) (dl_size d) (dl_cachingInfo d)) as [c' [q|e]]; simplify_eq; cbn in Hs;
      (eexists; split; [apply rtc_once, Hs|]); split_and!; cbn; try done. by rewrite Hr.
  - exists (mkWorld (Remove io (w_cache w) (f_key f)) (w_readers w) (w_dirs w)). split; [apply rtc_once, do_Remove|].
    rewrite Hc. destruct (f_directory f); [|destruct opened]; simplify_eq; split_and!; done.
Qed.

Lemma client_release (f : FetchRequest) (s : Shared) (ph : Phase) r R D (w : World) :
  held ph = match r with Ok (FetchedHeld h _) => Some h | _ => None end -> client_with (f, ph) s R D w ->
  client_with (f, FDone r) (deliver f r s) R D w.
Proof.
  intros Hh (Hc & Hr & Hd). unfold client_with, held_readers, held_dirs in *. cbn [fst snd] in *. rewrite Hh in *.
  destruct r as [[[r|r path] size|path size]|e]; cbn in *; split_and!; done.
Qed.

Lemma client_fetch (f : FetchRequest) (s s' : Shared) (ph ph' : Phase) R D (w : World) :
  fetch_step f s ph s' ph' -> client_with (f, ph) s R D w ->
  exists w', rtc client_step w w' /\ client_with (f, ph') s' R D w'.
Proof.
  intros Hs Hw. destruct Hs; try (by eapply client_same).
  - exists w. split; [done|]. apply client_release with (ph := FUncachedDownload); [|done]. by destruct p, opened.
  - by eapply client_lookup.
  - eapply client_same; try done. cbn. by rewrite held_populated.
  - by apply (client_close f s (FAbandon l current e) _ io).
  - by apply (client_close f s (FStale l current d size) _ io).
  - by eapply client_store.
  - exists w. split; [done|]. by apply client_release with (ph := FReturn l r).
Qed.

(** The system's steps are steps of the cache, or none. *)
Lemma client_sys (x y : Sys) (w : World) :
  sys_step x y -> client_of x w -> exists w', rtc client_step w w' /\ client_of y w'.
Proof.
  intros Hs Hw. destruct Hs as [s l i f ph s' ph' Hi Hs|s l directory cacheKey checksum|s l io r readers Hp|s l io key r path dirs Hp|s l removed path files Hp|s l io].
  - rewrite <- (take_drop_middle _ _ _ Hi) in Hw. apply client_of_split in Hw.
    destruct (client_fetch _ _ _ _ _ _ _ _ Hs Hw) as (w' & Hr & Hw'). exists w'. split; [done|].
    rewrite insert_take_drop by (by eapply lookup_lt_Some). by apply client_of_split.
  - exists w. split; [done|]. destruct Hw as (Hc & Hr & Hd). unfold client_of, begin_fetch. cbn [fst snd].
    rewrite !bind_app. cbn. destruct (bool_decide _), directory; cbn; by rewrite !app_nil_r.
  - destruct Hw as (Hc & Hr & Hd). cbn [fst snd] in *. rewrite Hp in Hr. eexists. split; [apply rtc_once, (do_close_reader io w _ _ Hr)|].
    split_and!; cbn; [by rewrite Hc|done|done].
  - destruct Hw as (Hc & Hr & Hd). cbn [fst snd] in *. rewrite Hp in Hd. eexists. split; [apply rtc_once, (do_CloseDirectory io w _ _ _ _ Hd)|].
    split_and!; cbn; [by rewrite Hc|done|done].
  - by exists w.
  - destruct Hw as (Hc & Hr & Hd). eexists. split; [apply rtc_once, (do_MakeRoom io w)|]. split_and!; cbn; [by rewrite Hc|done|done].
Qed.

Definition sys_reachable (x : Sys) : Prop :=
  exists dir maxSize minFree n, rtc sys_step (New (NewCache dir maxSize minFree) n, []) x.

Lemma sys_reachable_client (x : Sys) : sys_reachable x -> exists w, reachable w /\ client_of x w.
Proof.
  intros (dir & maxSize & minFree & n & Hr).
  assert (H : exists w, rtc client_step (mkWorld (NewCache dir maxSize minFree) [] []) w /\ client_of x w).
  { apply (rtc_ind_r (fun x => exists w, rtc client_step (mkWorld (NewCache dir maxSize minFree) [] []) w /\ client_of x w) _) with (3 := Hr).
    - by eexists.
    - intros y z _ Hs (w & Hw & Hc). destruct (client_sys _ _ _ Hs Hc) as (w' & Hw' & Hc'). exists w'. split; [by etrans|done]. }
  destruct H as (w & Hw & Hc). exists w. split; [by exists dir, maxSize, minFree|done].
Qed.

(** A directory of a current entry is counted as often as it is in use. *)
Lemma counts_balanced (x : Sys) (key : string) (r : nat) (e : FileCacheEntry) :
  sys_reachable x -> fc_Entries (sh_cache x.1) !! key = Some r -> fc_heap (sh_cache x.1) !! r = Some e ->
  e_directoryInUseCount e = Z.of_nat (dirs_of r (sh_dirs x.1) + dirs_of r (x.2 ≫= held_dirs)).
Proof.
  intros Hx Hk He. destruct (sys_reachable_client x Hx) as (w & Hw & Hcache & _ & Hd). rewrite <- Hcache in Hk, He.
  destruct (ci_current _ _ _ (reachable_inv w Hw) _ _ _ Hk He) as [(_ & _ & -> & _) _]. f_equal.
  unfold dirs_of. by rewrite Hd, filter_app, length_app.
Qed.

Lemma done_holds_nothing (l : list Fetch) : Forall (fun f => exists r, f.2 = FDone r) l -> l ≫= held_dirs = [].
Proof. induction 1 as [|[f ph] l [q Hq] _ IH]; [done|]. cbn in *. subst ph. by rewrite IH. Qed.

Lemma counts_zero (x : Sys) (key : string) (r : nat) (e : FileCacheEntry) :
  sys_reachable x -> fc_Entries (sh_cache x.1) !! key = Some r -> fc_heap (sh_cache x.1) !! r = Some e ->
  sh_dirs x.1 = [] -> Forall (fun f => exists r, f.2 = FDone r) x.2 -> e_directoryInUseCount e = 0%Z.
Proof.
  intros Hx Hk He Hnone Hdone. by rewrite (counts_balanced x key r e Hx Hk He), Hnone, done_holds_nothing.
Qed.

(** Fetches use the cache as its clients do, and lose nothing.  Whatever fetches
    run at the same time, and however they end, every run of the cached downloader is
    a run of the file cache whose open readers and directories are those that its
    clients have been given and have not closed, and those that fetches in progress
    have found.  In particular a directory of a current entry is counted exactly as
    often as it is in use, and when no fetch is in progress and the clients have closed
    everything, it is not counted as in use at all. *)
Theorem fetches_balanced (x : Sys) :
  sys_reachable x ->
  exists w, reachable w /\ client_of x w /\
    forall key r e, fc_Entries (sh_cache x.1) !! key = Some r -> fc_heap (sh_cache x.1) !! r = Some e ->
      e_directoryInUseCount e = Z.of_nat (dirs_of r (sh_dirs x.1) + dirs_of r (x.2 ≫= held_dirs)) /\
      (sh_dirs x.1 = [] -> Forall (fun f => exists r, f.2 = FDone r) x.2 -> e_directoryInUseCount e = 0%Z).
Proof.
  intros Hx. destruct (sys_reachable_client x Hx) as (w & Hw & Hc). exists w. split; [done|]. split; [done|]. intros key r e Hk He.
  split; [by eapply counts_balanced|by eapply counts_zero].
Qed.

(** ** Limiters *)

(** The limiter a fetch holds, and whether it has a slot of the downloader. *)
Definition holds (ph : Phase) : option nat :=
  match ph with
  | FLookup l | FBarrier l _ _ | FDownload l _ _ | FAbandon l _ _ | FStale l _ _ _ | FStore l _ _ | FReturn l _ => Some l
  | _ => None
  end.
Definition slot (f : Fetch) : nat := match f.2 with FUncachedDownload | FDownload _ _ _ => 1 | _ => 0 end.

Record limits_inv (n : nat) (x : Sys) : Prop := {
  li_holder : forall i f ph l, x.2 !! i = Some (f, ph) -> holds ph = Some l ->
    sh_inProgress x.1 !! f_key f = Some l /\ l ∉ sh_closed x.1;
  li_held : forall key l, sh_inProgress x.1 !! key = Some l ->
    exists i f ph, x.2 !! i = Some (f, ph) /\ holds ph = Some l /\ f_key f = key;
  li_unique : forall i j f g ph ph' l, x.2 !! i = Some (f, ph) -> x.2 !! j = Some (g, ph') -> holds ph = Some l -> holds ph' = Some l -> i = j;
  li_blocked : forall i f l, x.2 !! i = Some (f, FBlocked l) -> l ∈ sh_closed x.1 \/ sh_inProgress x.1 !! f_key f = Some l;
  li_slots : sh_slots x.1 + sum_list_with slot x.2 = n }.

Lemma holds_populated (l : nat) (current : result CacheError Held) (p : Populated) : holds (populated l current p) = Some l.
Proof. by destruct p, current. Qed.

(** What a step does to the limiters. *)
Lemma fetch_step_limits (f : FetchRequest) (s s' : Shared) (ph ph' : Phase) :
  fetch_step f s ph s' ph' ->
  (holds ph' = holds ph /\ sh_inProgress s' = sh_inProgress s /\ sh_closed s' = sh_closed s) \/
  (exists l, holds ph = None /\ holds ph' = Some l /\ sh_inProgress s !! f_key f = None /\ l ∉ sh_closed s /\
     (forall key, sh_inProgress s !! key <> Some l) /\ sh_inProgress s' = <[f_key f := l]> (sh_inProgress s) /\ sh_closed s' = sh_closed s) \/
  (exists l, holds ph = Some l /\ holds ph' = None /\ sh_inProgress s' = delete (f_key f) (sh_inProgress s) /\ sh_closed s' = {[l]} ∪ sh_closed s).
Proof.
  intros Hs. destruct Hs; try (left; by split_and!); try (by left; rewrite ?holds_populated; split_and!).
  - left. unfold s'. destruct p, opened; by split_and!.
  - right. left. exists l. by split_and!.
  - right. right. exists l. destruct r as [[[]|]|]; by split_and!.
Qed.

Lemma fetch_step_blocked (f : FetchRequest) (s s' : Shared) (ph : Phase) (l : nat) :
  fetch_step f s ph s' (FBlocked l) -> s' = s /\ sh_inProgress s !! f_key f = Some l.
Proof. intros Hs. inversion Hs; subst; try done; by destruct p, current. Qed.

Lemma fetch_step_slots (f : FetchRequest) (s s' : Shared) (ph ph' : Phase) :
  fetch_step f s ph s' ph' ->
  sh_slots s' + slot (f, ph') = sh_slots s + slot (f, ph).
Proof.
  intros Hs. destruct Hs; cbn; try done; try lia.
  - unfold s'. destruct p, opened; cbn; lia.
  - destruct p, current; cbn; lia.
  - destruct r as [[[]|]|]; cbn; lia.
Qed.

Lemma slots_insert (l : list Fetch) (i : nat) (f f' : Fetch) :
  l !! i = Some f -> sum_list_with slot (<[i := f']> l) + slot f = sum_list_with slot l + slot f'.
Proof.
  intros Hi. rewrite insert_take_drop by (by eapply lookup_lt_Some). rewrite <- (take_drop_middle _ _ _ Hi) at 3.
  rewrite !sum_list_with_app. cbn. lia.
Qed.

Lemma limits_fetch (n : nat) (s s' : Shared) (l : list Fetch) (i : nat) (f : FetchRequest) (ph ph' : Phase) :
  l !! i = Some (f, ph) -> fetch_step f s ph s' ph' -> limits_inv n (s, l) -> limits_inv n (s', <[i := (f, ph')]> l).
Proof.
  intros Hi Hs [H1 H2 H3 H4 H5]. cbn [fst snd] in *.
  assert (Hlk : forall j g q, <[i := (f, ph')]> l !! j = Some (g, q) -> (j = i /\ g = f /\ q = ph') \/ (j <> i /\ l !! j = Some (g, q))).
  { intros j g q [(-> & [= <- <-] & _)|[? ?]]%list_lookup_insert_Some; [by left|right; split; congruence]. }
  assert (Hnew : <[i := (f, ph')]> l !! i = Some (f, ph')) by (apply list_lookup_insert_eq; by eapply lookup_lt_Some).
  assert (Hslots : sh_slots s' + sum_list_with slot (<[i := (f, ph')]> l) = n).
  { pose proof (fetch_step_slots _ _ _ _ _ Hs). pose proof (slots_insert l i _ (f, ph') Hi). lia. }
  destruct (fetch_step_limits _ _ _ _ _ Hs) as [(Hh & Hp & Hc)|[(k & Hh & Hh' & Hnone & Hk & Hfresh & Hp & Hc)|(k & Hh & Hh' & Hp & Hc)]];
    split; cbn [fst snd]; rewrite ?Hp, ?Hc; try done.
  - intros j g q k Hj Hq. destruct (Hlk _ _ _ Hj) as [(-> & -> & ->)|[_ Hj']]; [|by eapply H1]. rewrite Hh in Hq. by eapply H1.
  - intros key k Hk. destruct (H2 key k Hk) as (j & g & q & Hj & Hq & Hg). destruct (decide (j = i)) as [->|Hne].
    + simplify_eq. exists i, f, ph'. by rewrite Hh.
    + exists j, g, q. by rewrite list_lookup_insert_ne.
  - intros j j' g g' q q' k Hj Hj' Hq Hq'.
    assert (Hold : forall j g q, <[i := (f, ph')]> l !! j = Some (g, q) -> holds q = Some k -> exists q, l !! j = Some (g, q) /\ holds q = Some k).
    { clear -Hlk Hh Hi. intros j g q Hj Hq. destruct (Hlk _ _ _ Hj) as [(-> & -> & ->)|[_ ?]]; [|eauto]. rewrite Hh in Hq. eauto. }
    destruct (Hold _ _ _ Hj Hq) as (? & ? & ?), (Hold _ _ _ Hj' Hq') as (? & ? & ?). by eapply H3.
  - intros j g k Hj. destruct (Hlk _ _ _ Hj) as [(-> & -> & <-)|[_ Hj']]; [|by eapply H4]. right. by apply (fetch_step_blocked _ _ _ _ _ Hs).
  - intros j g q k' Hj Hq. destruct (Hlk _ _ _ Hj) as [(-> & -> & ->)|[_ Hj']].
    + rewrite Hh' in Hq. simplify_eq. rewrite lookup_insert_eq. done.
    + destruct (H1 _ _ _ _ Hj' Hq) as [Hin ?]. split; [|done]. rewrite lookup_insert_ne; [done|]. congruence.
  - intros key k'. rewrite lookup_insert_Some. intros [[<- <-]|[Hne Hin]]; [by exists i, f, ph'|].
    destruct (H2 _ _ Hin) as (j & g & q & Hj & Hq & Hg). exists j, g, q. rewrite list_lookup_insert_ne; [done|]. intros ->. simplify_eq.
  - assert (Hother : forall j g q k', l !! j = Some (g, q) -> holds q = Some k' -> k' <> k).
    { intros j g q k' Hj Hq ->. destruct (H1 _ _ _ _ Hj Hq) as [Hin _]. by apply Hfresh in Hin. }
    intros j j' g g' q q' k' Hj Hj' Hq Hq'. destruct (Hlk _ _ _ Hj) as [(-> & -> & ->)|[? Hl]], (Hlk _ _ _ Hj') as [(-> & -> & ->)|[? Hl']].
    + done.
    + rewrite Hh' in Hq. simplify_eq. by destruct (Hother _ _ _ _ Hl' Hq').
    + rewrite Hh' in Hq'. simplify_eq. by destruct (Hother _ _ _ _ Hl Hq).
    + by eapply H3.
  - intros j g k' Hj. destruct (Hlk _ _ _ Hj) as [(-> & -> & <-)|[_ Hj']]; [done|].
    destruct (H4 _ _ _ Hj') as [?|Hin]; [by left|]. right. rewrite lookup_insert_ne; [done|]. congruence.
  - intros j g q k' Hj Hq. destruct (Hlk _ _ _ Hj) as [(-> & -> & ->)|[Hne Hj']]; [congruence|].
    destruct (H1 _ _ _ _ Hj' Hq) as [Hin Hcl], (H1 _ _ _ _ Hi Hh) as [Hin' _].
    assert (k' <> k) by (intros ->; by eapply Hne, H3). split; [|set_solver]. rewrite lookup_delete_ne; [done|]. congruence.
  - intros key k'. rewrite lookup_delete_Some. intros [Hne Hin]. destruct (H2 _ _ Hin) as (j & g & q & Hj & Hq & Hg).
    exists j, g, q. rewrite list_lookup_insert_ne; [done|]. intros ->. simplify_eq.
  - intros j j' g g' q q' k' Hj Hj' Hq Hq'. destruct (Hlk _ _ _ Hj) as [(-> & -> & ->)|[? Hl]]; [congruence|].
    destruct (Hlk _ _ _ Hj') as [(-> & -> & ->)|[? Hl']]; [congruence|]. by eapply H3.
  - intros j g k' Hj. destruct (Hlk _ _ _ Hj) as [(-> & -> & <-)|[_ Hj']].
    { destruct (fetch_step_blocked _ _ _ _ _ Hs) as [-> Hin]. by rewrite Hp, lookup_delete_eq in Hin. }
    destruct (H4 _ _ _ Hj') as [?|Hin]; [left; set_solver|]. destruct (H1 _ _ _ _ Hi Hh) as [Hin' _].
    destruct (decide (f_key g = f_key f)) as [He|?]; [|right; by rewrite lookup_delete_ne]. left. rewrite He in Hin. simplify_eq. set_solver.
Qed.

Lemma limits_sys (n : nat) (x y : Sys) : sys_step x y -> limits_inv n x -> limits_inv n y.
Proof.
  intros Hs Hx. destruct Hs as [s l i f ph s' ph' Hi Hs|s l directory cacheKey checksum| | | |]; [by eapply limits_fetch| |by destruct Hx..].
  destruct Hx as [H1 H2 H3 H4 H5]. cbn [fst snd] in *. set (b := begin_fetch directory cacheKey checksum).
  assert (Hb : holds b.2 = None /\ (forall l, b.2 <> FBlocked l) /\ slot b = 0).
  { unfold b, begin_fetch. by destruct (bool_decide _), directory. }
  destruct Hb as (Hb1 & Hb2 & Hb3).
  assert (Hlk : forall i g q, (l ++ [b]) !! i = Some (g, q) -> l !! i = Some (g, q) \/ (g, q) = b).
  { intros i g q [?|[_ Hq]]%lookup_app_Some; [by left|right]. apply list_lookup_singleton_Some in Hq as [_ ->]. done. }
  split; cbn [fst snd].
  - intros i g q k Hi Hq. destruct (Hlk _ _ _ Hi) as [?|Heq]; [by eapply H1|]. rewrite <- Heq in Hb1. cbn in Hb1; congruence.
  - intros key k Hk. destruct (H2 _ _ Hk) as (i & g & q & Hi & Hq). exists i, g, q. split; [by apply lookup_app_l_Some|done].
  - intros i j g g' q q' k Hi Hj Hq Hq'. destruct (Hlk _ _ _ Hi) as [Hi'|Heq]; [|rewrite <- Heq in Hb1; cbn in Hb1; congruence].
    destruct (Hlk _ _ _ Hj) as [Hj'|Heq]; [by eapply H3|rewrite <- Heq in Hb1; cbn in Hb1; congruence].
  - intros i g k Hi. destruct (Hlk _ _ _ Hi) as [?|Heq]; [by eapply H4|]. rewrite <- Heq in Hb2. by destruct (Hb2 k).
  - rewrite sum_list_with_app. cbn. lia.
Qed.

Lemma limits_reachable (x : Sys) : sys_reachable x -> exists n, limits_inv n x.
Proof.
  intros (dir & maxSize & minFree & n & Hr). exists n.
  apply (rtc_ind_r (limits_inv n) _) with (3 := Hr); [|by intros y z _ Hs; apply limits_sys].
  split; cbn; try done; try lia; by intros * ?%lookup_empty_Some || intros * [=].
Qed.

(** One fetch for each key at a time, and no lost wake-ups.  Of all the fetches
    that have passed the limiter of a key and have not returned, there is at most one
    for each key; a fetch that waits for a limiter waits for one that is closed, so
    that it goes on, or for the one of a fetch of the same key that is still in
    progress and closes it when it returns. *)
Theorem one_fetch_per_key (x : Sys) :
  sys_reachable x ->
  (forall i j f g ph ph', x.2 !! i = Some (f, ph) -> x.2 !! j = Some (g, ph') -> f_key f = f_key g ->
     is_Some (holds ph) -> is_Some (holds ph') -> i = j) /\
  (forall i f l, x.2 !! i = Some (f, FBlocked l) ->
     l ∈ sh_closed x.1 \/ exists j g ph, x.2 !! j = Some (g, ph) /\ holds ph = Some l /\ f_key g = f_key f).
Proof.
  intros Hx. destruct (limits_reachable x Hx) as [n [H1 H2 H3 H4 _]]. split.
  - intros i j f g ph ph' Hi Hj Hk [l Hl] [l' Hl']. destruct (H1 _ _ _ _ Hi Hl) as [Hin _], (H1 _ _ _ _ Hj Hl') as [Hin' _].
    rewrite Hk in Hin. simplify_eq. by eapply H3.
  - intros i f l Hi. destruct (H4 _ _ _ Hi) as [?|Hin]; [by left|]. right. by apply H2.
Qed.
