(* ===== verification/FetchProps.v ===== *)
(** * What a fetch holds is current

    While a fetch holds the limiter of its key, the entry it has found or added stays
    the current entry of the key: it is in use, so that making room for others does
    not evict it, and no other fetch of the key runs.  So when the server confirms the
    validators that were sent, they are those of the entry that is returned. *)
From Stdlib Require Import ZArith Lia.
From S2P Require Import Prelude GoStd Hashes FileCache FileCacheProps FileCacheRuns Downloader CachedDownloader CachedDownloaderProps.

(** ** Operations of others leave an entry in use *)

(** The key still has the entry, with the same validators. *)
Definition kept (c c' : FileCache) (key : string) (r : nat) : Prop :=
  fc_Entries c' !! key = Some r /\ (e_CachingInfo <$> fc_heap c' !! r) = (e_CachingInfo <$> fc_heap c !! r).

Section Kept.
  Context (io : IO) (c : FileCache) (readers : list nat) (dirs : list Handle) (Hi : cache_inv c readers dirs).
  Context (key : string) (r : nat) (e : FileCacheEntry) (Hk : lookup_entry c key = Some (r, e)).

Lemma kept_refl : kept c c key r.
Proof using Hk. by apply lookup_entry_Some in Hk as [? ?]. Qed.

Lemma kept_lookup (c' : FileCache) : lookup_entry c' key = Some (r, e) -> kept c c' key r.
Proof using Hk. intros [? He']%lookup_entry_Some. pose proof (proj1 (lookup_entry_Some _ _ _ _) Hk) as [_ He]. split; [done|]. by rewrite He, He'. Qed.

Lemma kept_remove (key' : string) : key' <> key -> kept c (remove io c key') key r.
Proof using Hi Hk. intros Hne. apply kept_lookup, lookup_remove; [exact (ci_inj _ _ _ Hi)|]. by split; [apply not_eq_sym|]. Qed.

Lemma kept_close_reader (r' : nat) : kept c (close_reader io c r') key r.
Proof using Hk.
  unfold close_reader. destruct (fc_heap c !! r') as [e'|] eqn:He'; [|apply kept_refl]. apply lookup_entry_Some in Hk as [Hr He].
  split; [done|]. cbn. destruct (decide (r = r')) as [->|?]; [|by rewrite lookup_insert_ne by congruence].
  rewrite lookup_insert_eq, He'. cbn. f_equal. unfold decrementFileInUseCount. by repeat case_match.
Qed.

Lemma decrementDirectory_info (de : Disk * FileCacheEntry) : e_CachingInfo (decrementDirectoryInUseCount io de).2 = e_CachingInfo de.2.
Proof. unfold decrementDirectoryInUseCount. by repeat case_match. Qed.

Lemma kept_set_entry (r' : nat) (e' : FileCacheEntry) (de : Disk * FileCacheEntry) :
  fc_heap c !! r' = Some e' -> e_CachingInfo de.2 = e_CachingInfo e' -> kept c (set_entry c r' de) key r.
Proof using Hk.
  intros He' Hinfo. apply lookup_entry_Some in Hk as [Hr He]. split; [done|]. cbn.
  destruct (decide (r = r')) as [->|?]; [|by rewrite lookup_insert_ne by congruence]. rewrite lookup_insert_eq, He'. cbn. by rewrite Hinfo.
Qed.

Lemma kept_CloseDirectory (key' path : string) : kept c (CloseDirectory io c key' path).1 key r.
Proof using Hk.
  assert (Hold : kept c (match fc_OldEntries c !! (key' +:+ path) with
                         | Some ref => match fc_heap c !! ref with
                                       | Some e => (close_old io c (key' +:+ path) ref e, None)
                                       | None => (c, Some EntryNotFound) end
                         | None => (c, Some EntryNotFound) end).1 key r).
  { destruct (fc_OldEntries c !! _) as [r'|]; [|apply kept_refl]. destruct (fc_heap c !! r') as [e'|] eqn:He'; [|apply kept_refl]. cbn.
    unfold close_old. pose proof (decrementDirectory_info (fc_disk c, e')) as Hinfo. destruct (decrementDirectoryInUseCount io (fc_disk c, e')) as [d e2].
    destruct (inUse e2); by apply (kept_set_entry r' e'). }
  unfold CloseDirectory. destruct (lookup_entry c key') as [[r' e']|] eqn:Hk'; [|exact Hold]. case_bool_decide; [|exact Hold].
  destruct (e_directoryInUseCount e' =? 0)%Z; [apply kept_refl|]. cbn. apply lookup_entry_Some in Hk' as [_ He'].
  apply (kept_set_entry r' e'); [done|]. apply decrementDirectory_info.
Qed.

Context (Hu : inUse e = true).

Lemma makeRoom_in_use (size : Z) (excluded : string) : lookup_entry (makeRoom io c size excluded) key = Some (r, e).
Proof using Hi Hk Hu.
  unfold makeRoom. generalize (usedSpace c). generalize (S (base.size (fc_Entries c))). intros fuel. clear -Hi Hk Hu. revert c Hi Hk.
  induction fuel as [|fuel IH]; intros c Hi Hk used; cbn [make_room_loop]; [done|]. destruct (crowded io c used size); [|done].
  destruct (oldest io c excluded) as [[k e']|] eqn:Ho; [|done]. destruct (oldest_spec _ _ _ _ _ Ho) as (_ & Hu' & r' & Hk').
  apply IH; [by apply inv_remove|]. apply (lookup_remove io c); [exact (ci_inj _ _ _ Hi)|]. split; [|done]. intros ->. congruence.
Qed.
End Kept.

Section Others.
  Context (io : IO) (c : FileCache) (readers : list nat) (dirs : list Handle) (Hi : cache_inv c readers dirs).
  Context (key : string) (r : nat) (e : FileCacheEntry) (Hk : lookup_entry c key = Some (r, e)) (Hu : inUse e = true).
  Context (key' : string) (Hne : key' <> key).

Lemma kept_after (m : FileCache) (r' : nat) (de : Disk * FileCacheEntry) :
  lookup_entry m key = Some (r, e) -> r' <> r -> kept c (set_entry m r' de) key r.
Proof using Hk.
  intros [Hr He]%lookup_entry_Some Hr'. apply (kept_lookup c _ _ _ Hk), lookup_entry_Some. split; [done|]. cbn. by rewrite lookup_insert_ne.
Qed.

Lemma room_for_other (b : bool) (size : Z) (r' : nat) :
  fc_Entries c !! key' = Some r' ->
  let m := if b then makeRoom io c size key' else c in lookup_entry m key = Some (r, e) /\ r' <> r.
Proof using Hi Hk Hu Hne.
  intros Hr'. split; [destruct b; [by eapply makeRoom_in_use|done]|]. intros ->. apply lookup_entry_Some in Hk as [Hr _].
  by apply Hne, (ci_inj _ _ _ Hi key' key r).
Qed.

Lemma kept_Get : kept c (Get io c key').1 key r.
Proof using Hi Hk Hu Hne.
  unfold Get. destruct (lookup_entry c key') as [[r' e']|] eqn:Hk'; [|by eapply kept_refl]. apply lookup_entry_Some in Hk' as [Hr' _].
  destruct (room_for_other (fileDoesNotExist (fc_disk c) e') (e_Size e') r' Hr') as [Hm Hrr]. cbn zeta.
  match goal with |- context [if ?b then makeRoom ?i ?c ?s ?k else ?c] => set (m := if b then makeRoom i c s k else c) in * end.
  destruct (readCloser io _) as [de []]; by apply kept_after.
Qed.

Lemma kept_GetDirectory : kept c (GetDirectory io c key').1 key r.
Proof using Hi Hk Hu Hne.
  unfold GetDirectory. destruct (lookup_entry c key') as [[r' e']|] eqn:Hk'; [|by eapply kept_refl]. apply lookup_entry_Some in Hk' as [Hr' _].
  destruct (room_for_other (dirDoesNotExist (fc_disk c) e') (e_Size e') r' Hr') as [Hm Hrr]. cbn zeta.
  match goal with |- context [if ?b then makeRoom ?i ?c ?s ?k else ?c] => set (m := if b then makeRoom i c s k else c) in * end.
  destruct (expandedDirectory io _) as [de [path|]]; by apply kept_after.
Qed.

Lemma add_entry_other (size : Z) (info : CachingInfoType) :
  lookup_entry (add_entry io c key' size info).1 key = Some (r, e) /\
  forall r', (add_entry io c key' size info).2 = Some r' -> r' <> r.
Proof using Hi Hk Hu Hne.
  unfold add_entry. pose proof (makeRoom_in_use io c readers dirs Hi key r e Hk Hu size "") as Hm. fold (bump (makeRoom io c size "")).
  set (m := makeRoom io c size "") in *. pose proof (proj1 (lookup_entry_Some _ _ _ _) Hm) as [Hmr Hme].
  destruct (io_rename io); cbn [negb]; [|split; [by apply lookup_entry_Some|done]]. set (n := fresh (dom (fc_heap (bump m)))).
  assert (Hn : n <> r). { intros Hn. apply (is_fresh (dom (fc_heap (bump m)))). fold n. rewrite Hn. by apply elem_of_dom_2 in Hme. }
  cbn [fst snd]. split; [|by intros ? [= <-]]. apply lookup_entry_Some. destruct (fc_Entries c !! key') as [old|] eqn:Hold.
  - rewrite retire_Entries. assert (old <> r).
    { intros ->. apply lookup_entry_Some in Hk as [Hr _]. by apply Hne, (ci_inj _ _ _ Hi key' key r). }
    rewrite retire_other by done. cbn. by rewrite !lookup_insert_ne by congruence.
  - cbn. by rewrite !lookup_insert_ne by congruence.
Qed.

Lemma kept_Add (size : Z) (info : CachingInfoType) : kept c (Add io c key' size info).1 key r.
Proof using Hi Hk Hu Hne.
  unfold Add. destruct (add_entry_other size info) as [Hm Hrr]. destruct (add_entry io c key' size info) as [m [r'|]]; [|by eapply kept_lookup].
  cbn [fst snd] in *. specialize (Hrr r' eq_refl). destruct (fc_heap m !! r'); [|by eapply kept_lookup].
  destruct (readCloser io _) as [de []]; by apply kept_after.
Qed.

Lemma kept_AddDirectory (size : Z) (info : CachingInfoType) : kept c (AddDirectory io c key' size info).1 key r.
Proof using Hi Hk Hu Hne.
  unfold AddDirectory. destruct (add_entry_other size info) as [Hm Hrr]. destruct (add_entry io c key' size info) as [m [r'|]]; [|by eapply kept_lookup].
  cbn [fst snd] in *. specialize (Hrr r' eq_refl). destruct (fc_heap m !! r'); [|by eapply kept_lookup].
  destruct (expandedDirectory io _) as [de [path|]]; by apply kept_after.
Qed.
End Others.

(** ** What an operation returns *)

Lemma readCloser_info (io : IO) (de : Disk * FileCacheEntry) : e_CachingInfo (readCloser io de).1.2 = e_CachingInfo de.2.
Proof. destruct de as [d e]. unfold readCloser, write_tarball. by repeat case_match; simplify_eq/=. Qed.

Lemma expandedDirectory_info (io : IO) (de : Disk * FileCacheEntry) : e_CachingInfo (expandedDirectory io de).1.2 = e_CachingInfo de.2.
Proof. destruct de as [d e]. unfold expandedDirectory. by repeat case_match; simplify_eq/=. Qed.

Definition ref_of (h : Held) : nat := match h with HeldReader r | HeldDirectory r _ => r end.

(** The key has this entry, with these validators. *)
Definition current_entry (c : FileCache) (key : string) (r : nat) (info : CachingInfoType) : Prop :=
  fc_Entries c !! key = Some r /\ (e_CachingInfo <$> fc_heap c !! r) = Some info.

Lemma current_set_entry (m : FileCache) (key : string) (r : nat) (de : Disk * FileCacheEntry) (info : CachingInfoType) :
  fc_Entries m !! key = Some r -> e_CachingInfo de.2 = info -> current_entry (set_entry m r de) key r info.
Proof. intros Hr <-. split; [done|]. cbn. by rewrite lookup_insert_eq. Qed.

Lemma look_up_current (io : IO) (c : FileCache) readers dirs (f : FetchRequest) (c' : FileCache) (h : Held) (info : CachingInfoType) :
  cache_inv c readers dirs -> look_up io c f = (c', Ok h, info) -> current_entry c' (f_key f) (ref_of h) info.
Proof.
  intros Hi. unfold look_up. destruct (f_directory f).
  - unfold GetDirectory. destruct (lookup_entry c (f_key f)) as [[r e]|] eqn:Hk; [|done].
    destruct (room_for io c readers dirs (f_key f) r e (dirDoesNotExist (fc_disk c) e) (e_Size e) Hi Hk) as (_ & Hr & _). cbn zeta in *.
    match goal with |- context [if ?b then makeRoom ?i ?c ?s ?k else ?c] => set (m := if b then makeRoom i c s k else c) in * end.
    destruct (expandedDirectory io _) as [de [path|]]; [|done]. intros [= <- <- <-]. apply current_set_entry; [done|]. by case_match.
  - unfold Get. destruct (lookup_entry c (f_key f)) as [[r e]|] eqn:Hk; [|done].
    destruct (room_for io c readers dirs (f_key f) r e (fileDoesNotExist (fc_disk c) e) (e_Size e) Hi Hk) as (_ & Hr & _). cbn zeta in *.
    match goal with |- context [if ?b then makeRoom ?i ?c ?s ?k else ?c] => set (m := if b then makeRoom i c s k else c) in * end.
    set (e' := default e (fc_heap m !! r)). pose proof (readCloser_info io (fc_disk m, set_Access e' (io_now io))) as Hinfo.
    destruct (readCloser io _) as [de []]; [|done]. intros [= <- <- <-]. by apply current_set_entry.
Qed.

Lemma store_current (io : IO) opened (c : FileCache) readers dirs temps (f : FetchRequest) d size c' temps' (h : Held) (size' : Z) :
  cache_inv c readers dirs -> (fc_Seq c + 1 < 2 ^ 64)%N -> store io opened c temps f d size = (c', temps', Ok (FetchedHeld h size')) ->
  fc_Entries c' !! f_key f = Some (ref_of h).
Proof.
  intros Hi Hq. unfold store. pose proof (inv_add_entry io c readers dirs (f_key f) (dl_size d) (dl_cachingInfo d) Hq Hi) as Ha.
  destruct (isCacheable _); [|by destruct (f_directory f), opened]. unfold AddDirectory, Add.
  destruct (add_entry io c (f_key f) (dl_size d) (dl_cachingInfo d)) as [m [r|]]; [|by destruct (f_directory f)]. destruct Ha as [_ Hr].
  destruct (fc_heap m !! r) as [e|]; [|by destruct (f_directory f)]. destruct (f_directory f).
  - destruct (expandedDirectory io _) as [de [path|]]; [|done]. by intros [= <- <- <- <-].
  - destruct (readCloser io _) as [de []]; [|done]. by intros [= <- <- <- <-].
Qed.

(** ** The invariant *)

(** The validators that a fetch sends. *)
Definition sent (ph : Phase) : option CachingInfoType :=
  match ph with FBarrier _ _ info | FDownload _ _ info => Some info | _ => None end.

Definition holds_current (s : Shared) (f : Fetch) : Prop :=
  forall h, held f.2 = Some h ->
    fc_Entries (sh_cache s) !! f_key f.1 = Some (ref_of h) /\
    forall info, sent f.2 = Some info -> current_entry (sh_cache s) (f_key f.1) (ref_of h) info.

Lemma holds_current_kept (s s' : Shared) (f : Fetch) :
  (forall h, held f.2 = Some h -> kept (sh_cache s) (sh_cache s') (f_key f.1) (ref_of h)) -> holds_current s f -> holds_current s' f.
Proof.
  intros Hk Hc h Hh. destruct (Hk h Hh) as [Hr Hi], (Hc h Hh) as [_ Hs]. split; [done|]. intros info Hinfo. split; [done|].
  rewrite Hi. by apply Hs.
Qed.

Lemma held_populated_sent (l : nat) current (p : Populated) : sent (populated l current p) = None.
Proof. by destruct p, current. Qed.

Lemma current_own (f : FetchRequest) (s s' : Shared) (ph ph' : Phase) readers dirs :
  fetch_step f s ph s' ph' -> cache_inv (sh_cache s) readers dirs -> holds_current s (f, ph) -> holds_current s' (f, ph').
Proof.
  intros Hs Hi Hc h Hh. cbn [fst snd] in *. destruct Hs; try done; try (by apply Hc); try (by split; [apply Hc|]).
  - destruct current as [h'|]; [|done]. simplify_eq/=. destruct (look_up_current _ _ _ _ _ _ _ _ Hi H) as [Hr He]. split; [done|].
    intros ? [= <-]. done.
  - rewrite held_populated in Hh. rewrite held_populated_sent. split; [|done]. by apply Hc.
  - destruct r as [[h' size'|]|]; try done. simplify_eq/=. split; [|done]. by eapply store_current.
Qed.

Lemma current_other (f : FetchRequest) (s s' : Shared) (ph ph' : Phase) readers dirs (key : string) (r : nat) (e : FileCacheEntry) :
  fetch_step f s ph s' ph' -> cache_inv (sh_cache s) readers dirs -> lookup_entry (sh_cache s) key = Some (r, e) -> inUse e = true ->
  (is_Some (holds ph) -> f_key f <> key) -> kept (sh_cache s) (sh_cache s') key r.
Proof.
  intros Hs Hi Hk Hu Hne. assert (Hrefl : kept (sh_cache s) (sh_cache s) key r) by (by eapply kept_refl).
  destruct Hs; try done; try specialize (Hne (ltac:(eauto))).
  - unfold s'. by destruct p, opened.
  - unfold look_up in H. destruct (f_directory f).
    + pose proof (kept_GetDirectory io _ _ _ Hi key r e Hk Hu (f_key f) Hne) as Hg.
      destruct (GetDirectory io (sh_cache s) (f_key f)) as [? [[[] ?]|]]; by simplify_eq.
    + pose proof (kept_Get io _ _ _ Hi key r e Hk Hu (f_key f) Hne) as Hg. destruct (Get io (sh_cache s) (f_key f)) as [? [[]|]]; by simplify_eq.
  - destruct current as [[r'|r' path]|]; [by eapply kept_close_reader|by eapply kept_CloseDirectory|done].
  - destruct current as [[r'|r' path]|]; [by eapply kept_close_reader|by eapply kept_CloseDirectory|done].
  - unfold store in H0. destruct (isCacheable _); [destruct (f_directory f)|].
    + pose proof (kept_AddDirectory io _ _ _ Hi key r e Hk Hu (f_key f) Hne (dl_size d) (dl_cachingInfo d)) as Hg.
      destruct (AddDirectory io (sh_cache s) (f_key f) (dl_size d) (dl_cachingInfo d)) as [? [[]|]]; by simplify_eq.
    + pose proof (kept_Add io _ _ _ Hi key r e Hk Hu (f_key f) Hne (dl_size d) (dl_cachingInfo d)) as Hg.
      destruct (Add io (sh_cache s) (f_key f) (dl_size d) (dl_cachingInfo d)) as [? [|]]; by simplify_eq.
    + pose proof (kept_remove io _ _ _ Hi key r e Hk (f_key f) Hne) as Hg. destruct (f_directory f); by simplify_eq.
  - by destruct r0 as [[[]|]|].
Qed.

Lemma readers_of_pos (r : nat) (l : list nat) : r ∈ l -> readers_of r l <> 0.
Proof.
  unfold readers_of. intros Hin Hz. apply length_zero_iff_nil in Hz.
  assert (Hf : r ∈ filter (fun r' => r' = r) l) by (by apply list_elem_of_filter). rewrite Hz in Hf. by apply not_elem_of_nil in Hf.
Qed.

Lemma dirs_of_pos (key : string) (r : nat) (path : string) (l : list Handle) : (key, r, path) ∈ l -> dirs_of r l <> 0.
Proof.
  unfold dirs_of. intros Hin Hz. apply length_zero_iff_nil in Hz.
  assert (Hf : (key, r, path) ∈ filter (fun h : Handle => h.1.2 = r) l) by (by apply list_elem_of_filter). rewrite Hz in Hf. by apply not_elem_of_nil in Hf.
Qed.

(** What a fetch holds, as the cache's client. *)
Lemma held_handle (x : Sys) (w : World) (i : nat) (f : Fetch) (h : Held) :
  client_of x w -> x.2 !! i = Some f -> held f.2 = Some h ->
  match h with HeldReader r => r ∈ w_readers w | HeldDirectory r path => (f_key f.1, r, path) ∈ w_dirs w end.
Proof.
  intros (_ & Hr & Hd) Hf%list_elem_of_lookup_2 Hh. destruct h as [r|r path]; [rewrite Hr|rewrite Hd]; apply elem_of_app; right;
    apply list_elem_of_bind; exists f; (split; [|done]); unfold held_readers, held_dirs; rewrite Hh; apply list_elem_of_here.
Qed.

Lemma held_in_use (x : Sys) (w : World) (i : nat) (f : Fetch) (h : Held) :
  reachable w -> client_of x w -> x.2 !! i = Some f -> held f.2 = Some h -> fc_Entries (sh_cache x.1) !! f_key f.1 = Some (ref_of h) ->
  exists e, lookup_entry (sh_cache x.1) (f_key f.1) = Some (ref_of h, e) /\ inUse e = true.
Proof.
  intros Hw Hc Hf Hh Hk. pose proof (held_handle x w i f h Hc Hf Hh) as Hin. destruct Hc as (Hcache & _ & _).
  apply reachable_inv in Hw as Hi. destruct (ci_refs _ _ _ Hi (f_key f.1) (ref_of h)) as [e He]; [by rewrite Hcache|].
  exists e. rewrite <- Hcache in *. split; [by apply lookup_entry_Some|].
  destruct (ci_current _ _ _ Hi _ _ _ Hk He) as [(_ & _ & Hd & Hr & _) _]. unfold inUse. apply orb_true_iff.
  destruct h as [r|r path]; cbn in *.
  - right. apply readers_of_pos in Hin. apply Z.ltb_lt. lia.
  - left. apply dirs_of_pos in Hin. apply Z.ltb_lt. lia.
Qed.

Lemma sys_reachable_step (x y : Sys) : sys_reachable x -> sys_step x y -> sys_reachable y.
Proof. intros (dir & maxSize & minFree & n & Hr) Hs. exists dir, maxSize, minFree, n. by eapply rtc_r. Qed.

Lemma current_sys (x y : Sys) :
  sys_reachable x -> sys_step x y -> Forall (holds_current x.1) x.2 -> Forall (holds_current y.1) y.2.
Proof.
  intros Hx Hs Hall. destruct (sys_reachable_client x Hx) as (w & Hw & Hc). destruct (limits_reachable x Hx) as [n [H1 _ H3 _ _]].
  pose proof (reachable_inv w Hw) as Hi. unfold world_inv in Hi. pose proof Hc as (Hcache & _ & _). rewrite Hcache in Hi.
  rewrite Forall_lookup in Hall. assert (Hkeep : forall s', (forall i f h, x.2 !! i = Some f -> held f.2 = Some h ->
      kept (sh_cache x.1) (sh_cache s') (f_key f.1) (ref_of h)) -> Forall (holds_current s') x.2).
  { intros s' Hk. apply Forall_lookup. intros i f Hf. apply holds_current_kept with x.1; [by eauto|by eapply Hall]. }
  assert (Huse : forall i f h, x.2 !! i = Some f -> held f.2 = Some h ->
      exists e, lookup_entry (sh_cache x.1) (f_key f.1) = Some (ref_of h, e) /\ inUse e = true).
  { intros i f h Hf Hh. eapply held_in_use; try done. by apply (Hall i f Hf h). }
  destruct Hs as [s l i f ph s' ph' Hl Hs|s l directory cacheKey checksum|s l io r readers Hp|s l io key r path dirs Hp|s l removed path files Hp|s l io];
    cbn [fst snd] in *.
  - apply Forall_lookup. intros j g [(-> & <- & _)|[Hne Hj]]%list_lookup_insert_Some; [by eapply current_own; [| |by eapply Hall]|].
    apply holds_current_kept with s; [|by eapply Hall]. intros h Hh. destruct (Huse j g h Hj Hh) as (e & Hk & Hu).
    eapply current_other; try done. intros [k Hk'] Heq. assert (Hg : exists k', holds g.2 = Some k').
    { destruct g as [g q]. cbn in *. destruct q; try done; eauto. }
    destruct Hg as [k' Hg]. apply Hne. destruct g as [g q]. destruct (H1 _ _ _ _ Hl Hk') as [Hin _], (H1 _ _ _ _ Hj Hg) as [Hin' _].
    cbn in Heq. rewrite Heq in Hin. simplify_eq. by eapply H3.
  - apply Forall_app. split; [by apply Forall_lookup|]. constructor; [|constructor]. intros h. unfold begin_fetch.
    by destruct (bool_decide _), directory.
  - apply Hkeep. intros i f h Hf Hh. destruct (Huse i f h Hf Hh) as (e & Hk & _). by eapply kept_close_reader.
  - apply Hkeep. intros i f h Hf Hh. destruct (Huse i f h Hf Hh) as (e & Hk & _). by eapply kept_CloseDirectory.
  - apply Hkeep. intros i f h Hf Hh. destruct (Huse i f h Hf Hh) as (e & Hk & _). by eapply kept_refl.
  - apply Hkeep. intros i f h Hf Hh. destruct (Huse i f h Hf Hh) as (e & Hk & Hu). eapply kept_lookup; [done|]. by eapply makeRoom_in_use.
Qed.

Lemma current_reachable (x : Sys) : sys_reachable x -> Forall (holds_current x.1) x.2.
Proof.
  intros (dir & maxSize & minFree & n & Hr). apply (rtc_ind_r (fun x => Forall (holds_current x.1) x.2) _) with (3 := Hr); [constructor|].
  intros y z Hy Hs. apply current_sys; [|done]. by exists dir, maxSize, minFree, n.
Qed.

