(* ===== verification/FetchRuns.v ===== *)
(** * Runs of the cached downloader

    A temporary file that is never removed: a directory whose server sends no
    validators is downloaded, cannot be cached, and its file stays until the process
    restarts.  Concrete runs for the theorems on fetches. *)
From Stdlib Require Import ZArith Lia.
From S2P Require Import Prelude GoStd Hashes FileCache FileCacheProps FileCacheRuns Downloader CachedDownloader CachedDownloaderProps FetchProps.

(** ** Files nobody knows *)

Lemma fetchToFile_keeps (x : Exchange) (temps temps0 : gset string) (checksum : ChecksumInfoType) :
  (forall path, x_create x = Ok path -> path ∉ temps0) -> temps0 ⊆ temps ->
  temps0 ⊆ (fetchToFile x temps checksum).1 /\
  forall path info, (fetchToFile x temps checksum).2 = Ok (path, info) -> path = "" \/ path ∉ temps0.
Proof.
  intros Hnew Hsub. unfold fetchToFile. destruct (x_request x); [done|]. destruct (x_do x) as [resp|]; [|done].
  destruct (_ =? _)%Z; [split; [done|]; intros ? ? [= <- <-]; by left|]. destruct (negb _); [done|]. destruct (x_create x) as [p|] eqn:Hx; [|done].
  specialize (Hnew p eq_refl). unfold copyToDestinationFile. destruct (copy_body x p resp checksum) as [[p' i]|e] eqn:Hb; cbn.
  - split; [set_solver|]. intros ? ? [= <- <-]. right. unfold copy_body in Hb. repeat case_match; by simplify_eq.
  - split; [|done]. destruct (x_remove x); set_solver.
Qed.

Lemma download_loop_keeps (server : Server) random info checksum (temps0 : gset string) :
  (forall i headers path, x_create (server i headers) = Ok path -> path ∉ temps0) ->
  forall n attempt temps, temps0 ⊆ temps ->
  temps0 ⊆ (download_loop server random info checksum n attempt temps).1.1 /\
  forall path out, (download_loop server random info checksum n attempt temps).2 = Ok (path, out) -> path = "" \/ path ∉ temps0.
Proof.
  intros Hnew n. induction n as [|n IH]; intros attempt temps Hsub; cbn [download_loop];
    destruct (fetchToFile_keeps (server attempt (request_headers info)) temps temps0 checksum (Hnew _ _) Hsub) as [Ht Hr];
    destruct (fetchToFile _ temps checksum) as [temps' [[path out]|e]]; cbn in Ht, Hr; try done; (destruct (retried e); [|done]); [done|].
  destruct (IH (S attempt) temps' Ht) as [Ht' Hr']. destruct (download_loop _ _ _ _ n (S attempt) temps') as [[? ?] ?]. done.
Qed.

Lemma populateCache_keeps (env : PopulateEnv) (temps temps' : gset string) info checksum (p : Populated) :
  new_files env temps -> populateCache env temps info checksum = (temps', p) ->
  temps ⊆ temps' /\ match p with Fresh d _ => dl_path d ∉ temps | _ => True end.
Proof.
  intros [Hs Hc]. unfold populateCache. destruct (download_loop_keeps (pe_server env) (pe_random env) info checksum temps) with (n := MAX_DOWNLOAD_ATTEMPTS - 1)
    (attempt := 0) (temps := temps) as [Ht Hr]; [naive_solver|done|].
  fold (Download (pe_server env) (pe_random env) info checksum temps) in Ht, Hr.
  destruct (Download _ _ _ _ _) as [[t sleeps] [[filename out]|e]]; cbn in Ht, Hr; [|by intros [= <- <-]].
  case_bool_decide; [by intros [= <- <-]|]. destruct (Hr filename out eq_refl) as [?|Hf]; [done|].
  destruct (pe_stat env); [|by intros [= <- <-]]. destruct (pe_create env) as [cached|] eqn:Hx.
  - destruct (Hc cached eq_refl) as [_ Hn]. destruct (pe_close env), (pe_transform env), (pe_remove env); intros [= <- <-]; (split; [set_solver|done]).
  - destruct (pe_remove env); intros [= <- <-]; (split; [set_solver|done]).
Qed.

(** The file of a fetch that is stored, or handed out. *)
Definition file_of (ph : Phase) : option string :=
  match ph with
  | FStale _ _ d _ | FStore _ d _ => Some (dl_path d)
  | FReturn _ (Ok (FetchedTemp path _)) => Some path
  | _ => None
  end.

Record forgotten (path : string) (x : Sys) : Prop := {
  fg_there : path ∈ sh_temps x.1;
  fg_files : path ∉ sh_files x.1;
  fg_fetches : Forall (fun f => file_of f.2 <> Some path) x.2 }.

Lemma forgotten_fetch (path : string) (f : FetchRequest) (s s' : Shared) (ph ph' : Phase) :
  fetch_step f s ph s' ph' -> path ∈ sh_temps s -> path ∉ sh_files s -> file_of ph <> Some path ->
  path ∈ sh_temps s' /\ path ∉ sh_files s' /\ file_of ph' <> Some path.
Proof.
  intros Hs Ht Hf Hp. destruct Hs as [| |s env opened temps p Hn Hpop s'| | | | | | | |s l current info env temps p Hn Hpop| | |s l io opened d size c temps r Hq Hst|s l r];
    try done.
  - destruct (populateCache_keeps _ _ _ _ _ _ Hn Hpop) as [Hsub Hd]. unfold s'.
    destruct p as [| |d size], opened; cbn; split_and!; try done; try set_solver.
  - destruct (populateCache_keeps _ _ _ _ _ _ Hn Hpop) as [Hsub Hd]. split_and!; [set_solver|done|]. destruct p, current; cbn; try done; congruence.
  - cbn in Hp. assert (Hne : dl_path d <> path) by congruence. unfold store in Hst.
    destruct (isCacheable _); [destruct (f_directory f)|].
    + destruct (AddDirectory _ _ _ _ _) as [? [[]|]]; simplify_eq; (split_and!; [cbn; case_match; set_solver|done..]).
    + destruct (Add _ _ _ _ _) as [? []]; simplify_eq; (split_and!; [cbn; case_match; set_solver|done..]).
    + destruct (f_directory f); [by simplify_eq|]. unfold tempFileRemoveOnClose in Hst. destruct opened; simplify_eq; split_and!; try done; cbn; congruence.
  - destruct r as [[[]|]|]; cbn in *; split_and!; try done; set_solver.
Qed.

Lemma forgotten_sys (path : string) (x y : Sys) : sys_step x y -> forgotten path x -> forgotten path y.
Proof.
  intros Hs [Ht Hf Hall].
  destruct Hs as [s l i f ph s' ph' Hl Hs|s l directory cacheKey checksum|s l io r readers Hp|s l io key r q dirs Hp|s l removed q files Hp|s l io]; cbn in *; try done.
  - destruct (forgotten_fetch path _ _ _ _ _ Hs Ht Hf) as (? & ? & ?).
    { by apply (Forall_lookup_1 _ _ _ _ Hall Hl). }
    split; cbn; try done. by apply Forall_insert.
  - split; cbn; try done. apply Forall_app. split; [done|]. constructor; [|constructor]. unfold begin_fetch. by destruct (bool_decide _), directory.
  - rewrite Hp in Hf. apply not_elem_of_cons in Hf as [Hne Hf]. split; cbn; try done. destruct removed; set_solver.
Qed.

(** ** Runs *)

Definition fr_checksum : ChecksumInfoType := mkChecksumInfo "" "".
Definition fr_file : string := "/cache/temp/transformed1".

(** A server that answers with these validators. *)
Definition fr_env (etag : string) : PopulateEnv :=
  mkPopulateEnv (fun _ _ => mkExchange None (Ok (mkResponse StatusOK etag "" (String.list_ascii_of_string "abc"))) (Ok "/cache/temp/a1") None None 0 false 0 true)
    (fun _ => 0%Z) (Ok 3%Z) (Ok fr_file) None (Ok 10%Z) true.

Definition fr_new : Shared := New (NewCache "/cache" 1000 0) 2.
Definition fr_request : FetchRequest := mkFetch true "8ce4b16b22b58894aa86c421e8759df3" fr_checksum.

(** The fetch of a directory, up to its return. *)
Definition fr_acquired : Shared := set_limiters fr_new {[ f_key fr_request := 0 ]} ∅.
Definition fr_download (etag : string) : download := mkDownload fr_file 10 (mkCachingInfo etag "").
Definition fr_downloaded : Shared := set_temps fr_acquired {[ fr_file ]}.

Lemma fr_new_files (etag : string) : new_files (fr_env etag) ∅.
Proof. split; [intros i headers path [= <-]|intros path [= <-]]; (split; [done|set_solver]). Qed.

Lemma sys_step_eq (x y z : Sys) : sys_step x y -> y = z -> sys_step x z.
Proof. by intros ? <-. Qed.

Lemma fr_run (etag : string) :
  rtc sys_step (fr_new, []) (fr_downloaded, [(fr_request, FStore 0 (fr_download etag) 3)]).
Proof.
  apply rtc_l with (fr_new, [(fr_request, FStart)]).
  { eapply sys_step_eq; [apply (sys_begin fr_new [] true "k" fr_checksum)|]. vm_compute. reflexivity. }
  apply rtc_l with (fr_acquired, [(fr_request, FLookup 0)]).
  { eapply sys_step_eq; [eapply (sys_fetch _ _ 0); [reflexivity|apply (fetch_acquire _ _ 0); [reflexivity|set_solver|by intros key]]|]. vm_compute. reflexivity. }
  apply rtc_l with (fr_acquired, [(fr_request, FBarrier 0 (Err EntryNotFound) noCachingInfo)]).
  { eapply sys_step_eq; [eapply (sys_fetch _ _ 0); [reflexivity|apply (fetch_lookup _ _ 0 (ok_io 1)); reflexivity]|]. vm_compute. reflexivity. }
  apply rtc_l with (set_slots fr_acquired 1, [(fr_request, FDownload 0 (Err EntryNotFound) noCachingInfo)]).
  { eapply sys_step_eq; [eapply (sys_fetch _ _ 0); [reflexivity|by apply (fetch_barrier _ _ 0 _ _ 1)]|]. vm_compute. reflexivity. }
  apply rtc_l with (fr_downloaded, [(fr_request, FStale 0 None (fr_download etag) 3)]).
  { eapply sys_step_eq; [eapply (sys_fetch _ _ 0); [reflexivity|apply (fetch_downloaded _ _ 0 _ _ (fr_env etag)); [apply fr_new_files|reflexivity]]|]. vm_compute. reflexivity. }
  apply rtc_once. eapply sys_step_eq; [eapply (sys_fetch _ _ 0); [reflexivity|apply (fetch_stale _ _ 0 (ok_io 2))]|]. vm_compute. reflexivity.
Qed.

(** The server sent no validators: the fetch fails. *)
Definition fr_failed : Sys := (set_limiters fr_downloaded ∅ {[ 0 ]}, [(fr_request, FDone (Err MissingCacheHeadersErr))]).

Lemma fr_failed_reachable : sys_reachable fr_failed.
Proof.
  exists "/cache", 1000%Z, 0%Z, 2. etrans; [apply (fr_run "")|].
  apply rtc_l with (fr_downloaded, [(fr_request, FReturn 0 (Err MissingCacheHeadersErr))]); [|apply rtc_once].
  - eapply sys_step_eq; [eapply (sys_fetch _ _ 0); [reflexivity|apply (fetch_stored _ _ 0 (ok_io 3) None); [done|reflexivity]]|]. vm_compute. reflexivity.
  - eapply sys_step_eq; [eapply (sys_fetch _ _ 0); [reflexivity|apply fetch_release]|]. vm_compute. reflexivity.
Qed.

(** A directory that cannot be cached leaves its download behind.  When a server
    sends neither an ETag nor a date, fetching a directory fails after the download;
    then no fetch is in progress and no client has anything open, but the transformed
    file is still there, and stays in every run that follows. *)
Theorem uncacheable_directory_leaks :
  sys_reachable fr_failed /\ Forall (fun f => exists r, f.2 = FDone r) fr_failed.2 /\
  sh_readers fr_failed.1 = [] /\ sh_dirs fr_failed.1 = [] /\ sh_files fr_failed.1 = [] /\
  forall y, rtc sys_step fr_failed y -> fr_file ∈ sh_temps y.1.
Proof.
  split; [apply fr_failed_reachable|]. split; [by repeat econstructor|]. do 3 (split; [done|]). intros y Hy.
  apply (rtc_ind_r (forgotten fr_file) fr_failed) with (3 := Hy); [|by intros ? ? _; apply forgotten_sys].
  split; cbn; [set_solver|set_solver|by repeat constructor].
Qed.

(** With validators the directory is added, and a second fetch waits for the first. *)
Definition fr_cache : FileCache := (AddDirectory (ok_io 3) (sh_cache fr_new) (f_key fr_request) 10 (mkCachingInfo "v1" "")).1.
Definition fr_path : string := "/cache/8ce4b16b22b58894aa86c421e8759df3-3-1.d".
Definition fr_returns : Phase := FReturn 0 (Ok (FetchedHeld (HeldDirectory 0 fr_path) 3)).
Definition fr_added : Shared := set_cache fr_acquired fr_cache.
Definition fr_two : Sys := (fr_added, [(fr_request, fr_returns); (fr_request, FBlocked 0)]).

Lemma fr_two_reachable : sys_reachable fr_two.
Proof.
  exists "/cache", 1000%Z, 0%Z, 2. etrans; [apply (fr_run "v1")|].
  apply rtc_l with (fr_added, [(fr_request, fr_returns)]).
  { eapply sys_step_eq; [eapply (sys_fetch _ _ 0); [reflexivity|apply (fetch_stored _ _ 0 (ok_io 3) None); [done|vm_compute; reflexivity]]|]. vm_compute. reflexivity. }
  apply rtc_l with (fr_added, [(fr_request, fr_returns); (fr_request, FStart)]).
  { eapply sys_step_eq; [apply (sys_begin fr_added _ true "k" fr_checksum)|]. vm_compute. reflexivity. }
  apply rtc_once. eapply sys_step_eq; [eapply (sys_fetch _ _ 1); [reflexivity|apply (fetch_block _ _ 0)]|]; vm_compute; reflexivity.
Qed.

Lemma fetches_balanced_witness : exists w, reachable w /\ client_of fr_two w /\
  match lookup_entry (sh_cache fr_two.1) (f_key fr_request) with Some (_, e) => e_directoryInUseCount e = 1%Z | None => False end.
Proof.
  destruct (fetches_balanced fr_two fr_two_reachable) as (w & Hw & Hc & He). exists w. split; [exact Hw|]. split; [exact Hc|].
  destruct (lookup_entry (sh_cache fr_two.1) (f_key fr_request)) as [[r e]|] eqn:Hk; [|by vm_compute in Hk].
  assert (Hr0 : r = 0) by (vm_compute in Hk; congruence). subst r.
  destruct (proj1 (lookup_entry_Some _ _ _ _) Hk) as [Hr Hh]. exact (proj1 (He _ _ _ Hr Hh)).
Defined.

Lemma one_fetch_per_key_witness : exists j g ph, fr_two.2 !! j = Some (g, ph) /\ holds ph = Some 0 /\ f_key g = f_key fr_request.
Proof.
  destruct (one_fetch_per_key fr_two fr_two_reachable) as [_ H]. destruct (H 1 fr_request 0 eq_refl) as [Hc|Hc]; [|exact Hc].
  cbn in Hc. by apply elem_of_empty in Hc.
Defined.

