(* ===== verification/CacheState.v ===== *)
(** * The saved state of the cache

    cacheddownloader/cached_downloader.go [SaveState] and [RecoverState]: when the
    process stops, the entries are written to a file; when it starts, they are read
    back, what is on disk and belongs to no entry is removed, and room is made.  The
    JSON of a cache has its exported fields, so that the counts of users are not in
    it; a file that is not JSON leaves the new cache as it is.  (JSON in which some
    value has another type, which would be read in part, is not modelled.) *)
From Stdlib Require Import ZArith Lia.
From S2P Require Import Prelude FileCache FileCacheProps FileCacheRuns.

Record saved_state := mkSaved {
  sv_CachedPath : string;
  sv_Entries : gmap string FileCacheEntry;
  sv_OldEntries : gmap string FileCacheEntry;
  sv_Seq : N }.

(** The exported fields of an entry. *)
Definition exported (e : FileCacheEntry) : FileCacheEntry :=
  mkEntry (e_Size e) (e_Access e) (e_CachingInfo e) (e_FilePath e) (e_ExpandedDirectoryPath e) 0 0.

Definition SaveState (c : FileCache) : saved_state :=
  let entries (m : gmap string nat) := omap (fun ref => exported <$> fc_heap c !! ref) m in
  mkSaved (fc_CachedPath c) (entries (fc_Entries c)) (entries (fc_OldEntries c)) (fc_Seq c).

(** What the operating system answers: whether the file can be opened and what is in
    it, the entries of the directory in the order in which they are listed, and
    whether the temporary directory can be made. *)
Inductive Listing := Listed (paths : list string) | NoDirectory | NotListed.
Record StateIO := mkStateIO {
  st_open : bool;
  st_file : option (option saved_state);
  st_listing : Listing;
  st_mkdir : bool }.

(** Decoding makes new entries. *)
Definition load (m : gmap string FileCacheEntry) (from : nat) : gmap string nat * gmap nat FileCacheEntry :=
  (list_to_map (imap (fun i ke => (ke.1, from + i)) (map_to_list m)), list_to_map (imap (fun i ke => (from + i, ke.2)) (map_to_list m))).
Definition decode (c : FileCache) (sv : saved_state) : FileCache :=
  let '(entries, heap) := load (sv_Entries sv) 0 in
  let '(old, oldheap) := load (sv_OldEntries sv) (base.size (sv_Entries sv)) in
  mkFileCache (sv_CachedPath sv) (fc_maxSizeInBytes c) (fc_minimumPartitionFreeBytes c) entries old (sv_Seq sv) (heap ∪ oldheap) (fc_disk c).

Definition trackedFiles (c : FileCache) : gset string :=
  list_to_set (map_to_list (fc_Entries c) ≫= (fun kr =>
    match fc_heap c !! kr.2 with Some e => [e_FilePath e; e_ExpandedDirectoryPath e] | None => [] end)).

Section Recover.
Context (io : IO).

(** The loop over the directory; it ends at the first path that cannot be removed. *)
Fixpoint prune (tracked : gset string) (paths : list string) (d : Disk) : Disk * bool :=
  match paths with
  | [] => (d, true)
  | p :: paths =>
      if bool_decide (p ∈ tracked) then prune tracked paths d
      else if io_rm io p then prune tracked paths (delete p d)
      else (d, false)
  end.

Definition with_disk (c : FileCache) (d : Disk) : FileCache :=
  mkFileCache (fc_CachedPath c) (fc_maxSizeInBytes c) (fc_minimumPartitionFreeBytes c) (fc_Entries c) (fc_OldEntries c) (fc_Seq c) (fc_heap c) d.

(** The counts of the current entries. *)
Definition reset_counts (c : FileCache) : FileCache :=
  mkFileCache (fc_CachedPath c) (fc_maxSizeInBytes c) (fc_minimumPartitionFreeBytes c) (fc_Entries c) (fc_OldEntries c) (fc_Seq c)
    (map_imap (fun r e => Some (if bool_decide (r ∈ (map_to_list (fc_Entries c)).*2) then exported e else e)) (fc_heap c)) (fc_disk c).

(** [RecoverState]; whether it succeeds.  The error of a directory that does not exist
    is passed over, and returned in the end. *)
Definition RecoverState (st : StateIO) (c : FileCache) : FileCache * bool :=
  if negb (st_open st) then (c, false)
  else
    let c := reset_counts (match st_file st with Some (Some sv) => decode c sv | _ => c end) in
    match st_listing st with
    | NotListed => (c, false)
    | NoDirectory => (MakeRoom io c, false)
    | Listed paths =>
        match prune (trackedFiles c) paths (fc_disk c) with
        | (d, false) => (with_disk c d, false)
        | (d, true) => (MakeRoom io (with_disk c d), st_mkdir st)
        end
    end.
End Recover.

(** ** Loading *)

Lemma elem_of_imap_pair {A B} (f : nat -> A -> B) (l : list A) (y : B) : y ∈ imap f l <-> exists i x, l !! i = Some x /\ y = f i x.
Proof.
  rewrite list_elem_of_lookup. split.
  - intros [i Hi]. rewrite list_lookup_imap in Hi. destruct (l !! i) eqn:Hl; [|done]. cbn in Hi. simplify_eq. by eexists _, _.
  - intros (i & x & Hl & ->). exists i. by rewrite list_lookup_imap, Hl.
Qed.

Lemma load_Entries (m : gmap string FileCacheEntry) (from : nat) (key : string) (r : nat) :
  (load m from).1 !! key = Some r <-> exists i e, map_to_list m !! i = Some (key, e) /\ r = from + i.
Proof.
  unfold load. cbn. rewrite <- elem_of_list_to_map.
  - rewrite elem_of_imap_pair. split; [intros (i & [k e] & Hl & [= -> ->]); by eexists _, _|intros (i & e & Hl & ->); by exists i, (key, e)].
  - assert (Hk : (imap (fun i ke => (ke.1, from + i)) (map_to_list m)).*1 = (map_to_list m).*1).
    { rewrite fmap_imap. unfold compose. cbn. apply list_eq. intros i. rewrite list_lookup_imap, list_lookup_fmap. by destruct (map_to_list m !! i). }
    rewrite Hk. apply NoDup_fst_map_to_list.
Qed.

Lemma load_heap (m : gmap string FileCacheEntry) (from r : nat) (e : FileCacheEntry) :
  (load m from).2 !! r = Some e <-> exists i key, map_to_list m !! i = Some (key, e) /\ r = from + i.
Proof.
  unfold load. cbn. rewrite <- elem_of_list_to_map.
  - rewrite elem_of_imap_pair. split; [intros (i & [k e'] & Hl & [= -> ->]); by eexists _, _|intros (i & k & Hl & ->); by exists i, (k, e)].
  - rewrite fmap_imap. unfold compose. cbn. apply NoDup_alt. intros i j x. rewrite !list_lookup_imap.
    destruct (map_to_list m !! i), (map_to_list m !! j); cbn; intros; simplify_eq. lia.
Qed.

Lemma exported_idem (e : FileCacheEntry) : exported (exported e) = exported e.
Proof. done. Qed.

Lemma sv_Entries_Some (c : FileCache) (key : string) (e : FileCacheEntry) :
  sv_Entries (SaveState c) !! key = Some e <-> exists r e0, lookup_entry c key = Some (r, e0) /\ e = exported e0.
Proof.
  unfold SaveState, lookup_entry. cbn. rewrite lookup_omap. destruct (fc_Entries c !! key) as [r|]; cbn; [|naive_solver].
  destruct (fc_heap c !! r) as [e0|]; cbn; [|naive_solver]. split; [intros [= <-]; by eexists _, _|]. by intros (r' & e0' & [= <- <-] & ->).
Qed.

(** The current entries of a cache that was decoded. *)
Lemma decode_lookup (c0 : FileCache) (sv : saved_state) (key : string) (r : nat) (e : FileCacheEntry) :
  lookup_entry (decode c0 sv) key = Some (r, e) <-> map_to_list (sv_Entries sv) !! r = Some (key, e).
Proof.
  unfold lookup_entry, decode. destruct (load (sv_Entries sv) 0) as [entries heap] eqn:Hl, (load (sv_OldEntries sv) _) as [old oldheap] eqn:Ho. cbn.
  assert (He : forall k r, entries !! k = Some r <-> exists i e, map_to_list (sv_Entries sv) !! i = Some (k, e) /\ r = 0 + i)
    by (intros; rewrite <- load_Entries, Hl; done).
  assert (Hh : forall r e, heap !! r = Some e <-> exists i k, map_to_list (sv_Entries sv) !! i = Some (k, e) /\ r = 0 + i)
    by (intros; rewrite <- load_heap, Hl; done).
  split.
  - destruct (entries !! key) as [r'|] eqn:Hk; [|done]. cbn. apply He in Hk as (i & e' & Hi & ->). cbn.
    assert (Hheap : heap !! i = Some e') by (apply Hh; by exists i, key). rewrite (lookup_union_Some_l _ _ _ _ Hheap). cbn. by intros [= <- <-].
  - intros Hi. rewrite (proj2 (He key r)) by (by exists r, e). cbn.
    rewrite (lookup_union_Some_l heap oldheap r e); [done|]. apply Hh. by exists r, key.
Qed.

Lemma decode_one_key (c0 : FileCache) (sv : saved_state) : one_key (decode c0 sv).
Proof.
  intros key key' r. unfold decode. destruct (load (sv_Entries sv) 0) as [entries heap] eqn:Hl, (load (sv_OldEntries sv) _) as [old oldheap].
  assert (He : forall k r, entries !! k = Some r <-> exists i e, map_to_list (sv_Entries sv) !! i = Some (k, e) /\ r = 0 + i)
    by (intros; rewrite <- load_Entries, Hl; done).
  cbn [fc_Entries]. rewrite !He. intros (i & e & Hi & ->) (j & e' & Hj & Hij). cbn in Hij. by simplify_eq.
Qed.

Lemma reset_lookup (c : FileCache) (key : string) (r : nat) (e : FileCacheEntry) :
  lookup_entry (reset_counts c) key = Some (r, e) <-> exists e0, lookup_entry c key = Some (r, e0) /\ e = exported e0.
Proof.
  unfold lookup_entry, reset_counts. cbn. destruct (fc_Entries c !! key) as [r'|] eqn:Hk; cbn; [|naive_solver].
  rewrite map_lookup_imap. destruct (fc_heap c !! r') as [e0|]; cbn; [|naive_solver]. rewrite bool_decide_true.
  - naive_solver.
  - apply list_elem_of_fmap. exists (key, r'). split; [done|]. by apply elem_of_map_to_list.
Qed.

Lemma tracked_Some (c : FileCache) (p : string) :
  p ∈ trackedFiles c <-> exists key r e, lookup_entry c key = Some (r, e) /\ (p = e_FilePath e \/ p = e_ExpandedDirectoryPath e).
Proof.
  unfold trackedFiles, lookup_entry. rewrite elem_of_list_to_set, list_elem_of_bind. split.
  - intros ([key r] & Hp & Hk%elem_of_map_to_list). cbn in *. destruct (fc_heap c !! r) as [e|] eqn:He; [|by apply not_elem_of_nil in Hp].
    exists key, r, e. rewrite Hk. cbn. rewrite He. split; [done|]. set_solver.
  - intros (key & r & e & Hl & Hp). destruct (fc_Entries c !! key) as [r'|] eqn:Hk; [|done]. cbn in Hl.
    destruct (fc_heap c !! r') as [e'|] eqn:He; [|done]. cbn in Hl. simplify_eq. exists (key, r). cbn. rewrite He. split; [set_solver|].
    by apply elem_of_map_to_list.
Qed.

Section Recovered.
Context (io : IO) (removes : forall p, io_rm io p = true).

Lemma prune_spec (tracked : gset string) (paths : list string) (d : Disk) :
  (prune io tracked paths d).2 = true /\
  forall p, (prune io tracked paths d).1 !! p = if decide (p ∈ paths /\ p ∉ tracked) then None else d !! p.
Proof.
  revert d. induction paths as [|q paths IH]; intros d; cbn [prune].
  { split; [done|]. intros p. rewrite decide_False; [done|]. intros [Hp _]. by apply not_elem_of_nil in Hp. }
  rewrite removes. case_bool_decide as Hq; [|destruct (IH (delete q d)) as [H1 H2]]; [destruct (IH d) as [H1 H2]|]; (split; [done|]); intros p; rewrite H2.
  - apply decide_ext. set_solver.
  - destruct (decide (p = q)) as [->|Hne].
    + rewrite (decide_True (P := q ∈ q :: paths /\ _)) by set_solver. rewrite lookup_delete_eq. by destruct (decide _).
    + rewrite lookup_delete_ne by done. apply decide_ext. set_solver.
Qed.

(** C32: A cache that was saved and is recovered in a new process, when the saved state
    is read back and every file that is to be removed can be removed: every entry is
    there again, without users, with the same files; a tarball or a directory of it is
    on disk; nothing is on disk that belongs to no entry; and room is made only when the
    new limits demand it, entry by entry, oldest first. *)
Theorem state_recovered (w : World) (dir : string) (maxSize minFree : Z) (paths : list string) :
  reachable w -> valid_io io ->
  (forall p, p ∈ paths <-> is_Some (fc_disk (w_cache w) !! p)) ->
  exists c, RecoverState io (mkStateIO true (Some (Some (SaveState (w_cache w)))) (Listed paths) true)
      (with_disk (NewCache dir maxSize minFree) (fc_disk (w_cache w))) = (MakeRoom io c, true) /\
    (forall key e, (exists r, lookup_entry c key = Some (r, e)) <-> (exists r e0, lookup_entry (w_cache w) key = Some (r, e0) /\ e = exported e0)) /\
    (forall key r e, lookup_entry c key = Some (r, e) -> FileCacheProps.entry_ok 0 0 (fc_disk c, e)) /\
    (forall p, is_Some (fc_disk c !! p) -> exists key r e, lookup_entry c key = Some (r, e) /\ (p = e_FilePath e \/ p = e_ExpandedDirectoryPath e)) /\
    room_made io c (MakeRoom io c) 0 "".
Proof.
  intros Hw Hio Hpaths. set (sv := SaveState (w_cache w)). set (c0 := with_disk (NewCache dir maxSize minFree) (fc_disk (w_cache w))).
  set (c1 := reset_counts (decode c0 sv)). assert (Hdisk : fc_disk c1 = fc_disk (w_cache w)).
  { unfold c1, decode. by destruct (load _ 0), (load _ (base.size _)). }
  assert (Hlook : forall key r e, lookup_entry c1 key = Some (r, e) <-> map_to_list (sv_Entries sv) !! r = Some (key, e)).
  { intros key r e. unfold c1. rewrite reset_lookup. setoid_rewrite decode_lookup. split.
    - intros (e0 & Hr & ->). assert (Hs : sv_Entries sv !! key = Some e0) by (apply elem_of_map_to_list; by eapply list_elem_of_lookup_2).
      apply sv_Entries_Some in Hs as (? & e1 & _ & ->). done.
    - intros Hr. exists e. split; [done|]. assert (Hs : sv_Entries sv !! key = Some e) by (apply elem_of_map_to_list; by eapply list_elem_of_lookup_2).
      apply sv_Entries_Some in Hs as (? & e1 & _ & ->). done. }
  assert (Hkeys : forall key e, (exists r, lookup_entry c1 key = Some (r, e)) <-> exists r e0, lookup_entry (w_cache w) key = Some (r, e0) /\ e = exported e0).
  { intros key e. rewrite <- sv_Entries_Some. setoid_rewrite Hlook. rewrite <- elem_of_map_to_list, list_elem_of_lookup. done. }
  destruct (prune_spec (trackedFiles c1) paths (fc_disk c1)) as [Hok Hd].
  exists (with_disk c1 (prune io (trackedFiles c1) paths (fc_disk c1)).1).
  assert (Hsame : forall d key, lookup_entry (with_disk c1 d) key = lookup_entry c1 key) by done.
  split_and!.
  - unfold RecoverState. cbn -[prune trackedFiles reset_counts decode]. fold sv c0 c1.
    by destruct (prune io (trackedFiles c1) paths (fc_disk c1)) as [d ok]; cbn in Hok; subst ok.
  - intros key e. setoid_rewrite Hsame. apply Hkeys.
  - intros key r e. rewrite Hsame. intros Hl. destruct (proj1 (Hkeys key e)) as (r0 & e0 & H0 & ->); [by exists r|].
    apply lookup_entry_Some in H0 as [Hk0 He0]. destruct (ci_current _ _ _ (reachable_inv w Hw) _ _ _ Hk0 He0) as [(H1 & H2 & _ & _ & _ & _ & H3) _].
    assert (Htr : forall p, p = e_FilePath e0 \/ p = e_ExpandedDirectoryPath e0 ->
      (prune io (trackedFiles c1) paths (fc_disk c1)).1 !! p = fc_disk (w_cache w) !! p).
    { intros p Hp. rewrite Hd, Hdisk, decide_False; [done|]. intros [_ Hn]. apply Hn, tracked_Some. by exists key, r, (exported e0). }
    unfold FileCacheProps.entry_ok. cbn. rewrite !Htr by tauto. split_and!; try done; lia.
  - intros p. cbn [fc_disk with_disk]. rewrite Hd. destruct (decide _) as [|Hn]; [by intros [? ?]|]. rewrite Hdisk. intros Hp. apply Hpaths in Hp.
    assert (Hin : p ∈ trackedFiles c1) by (destruct (decide (p ∈ trackedFiles c1)); [done|]; by exfalso; apply Hn).
    by apply tracked_Some.
  - apply room_made_loop; [done| |lia]. exact (decode_one_key c0 sv).
Qed.
End Recovered.

(** All paths of a disk. *)
Lemma listing_spec (d : Disk) (p : string) : p ∈ (map_to_list d).*1 <-> is_Some (d !! p).
Proof.
  rewrite list_elem_of_fmap. split.
  - intros ([q n] & -> & Hin%elem_of_map_to_list). by exists n.
  - intros [n Hn]. exists (p, n). split; [done|]. by apply elem_of_map_to_list.
Qed.

(** Two users of a directory when the process stops, none when it is recovered. *)
Lemma state_recovered_witness :
  exists c, RecoverState (ok_io 5) (mkStateIO true (Some (Some (SaveState (w_cache fx_runs)))) (Listed (map_to_list (fc_disk (w_cache fx_runs))).*1) true)
      (with_disk (NewCache fx_dir 1000 0) (fc_disk (w_cache fx_runs))) = (MakeRoom (ok_io 5) c, true) /\
    (exists r e, lookup_entry c fx_key = Some (r, e) /\ e_directoryInUseCount e = 0%Z).
Proof.
  destruct (state_recovered (ok_io 5) (fun _ => eq_refl) fx_runs fx_dir 1000 0 (map_to_list (fc_disk (w_cache fx_runs))).*1 fx_runs_reachable) as (c & Hc & Hk & _).
  - intros m. reflexivity.
  - exact (listing_spec (fc_disk (w_cache fx_runs))).
  - exists c. split; [exact Hc|].
    destruct (lookup_entry (w_cache fx_runs) fx_key) as [[r0 e0]|] eqn:Hl; [|vm_compute in Hl; discriminate Hl].
    destruct (proj2 (Hk fx_key (exported e0))) as [r Hr]; [exists r0, e0; split; [exact Hl|reflexivity]|]. exists r, (exported e0). split; [exact Hr|reflexivity].
Defined.
