(* ===== verification/LogStream.v ===== *)
(** * Cutting log messages

    executor/depot/log_streamer/stream_destination.go: what a container writes is cut
    into messages at the ends of lines and at the largest size of a message, between
    characters.  unicode/utf8 is modelled as far as the cutting uses it; bytes are
    numbers below 256.  The limits and the streamers are in LogStreamer.v. *)
From Stdlib Require Import ZArith Lia.
From S2P Require Import Prelude GoStd Executor.
#[local] Open Scope N_scope.

Abbreviation bytes := (list N).

(** ** unicode/utf8 *)

Definition RuneError : N := 0xFFFD.
Definition RuneSelf : N := 0x80.
Definition UTFMax : nat := 4.

(** The size of the encoding that starts with a byte, and the range of the second
    byte; [None] for a byte that starts none. *)
Definition first (p0 : N) : option (nat * N * N) :=
  if (0xC2 <=? p0) && (p0 <=? 0xDF) then Some (2%nat, 0x80, 0xBF)
  else if p0 =? 0xE0 then Some (3%nat, 0xA0, 0xBF)
  else if p0 =? 0xED then Some (3%nat, 0x80, 0x9F)
  else if (0xE1 <=? p0) && (p0 <=? 0xEF) then Some (3%nat, 0x80, 0xBF)
  else if p0 =? 0xF0 then Some (4%nat, 0x90, 0xBF)
  else if (0xF1 <=? p0) && (p0 <=? 0xF3) then Some (4%nat, 0x80, 0xBF)
  else if p0 =? 0xF4 then Some (4%nat, 0x80, 0x8F)
  else None.

Definition continuation (b : N) : bool := (0x80 <=? b) && (b <=? 0xBF).
Definition bits (b mask : N) (shift : N) : N := N.shiftl (N.land b mask) shift.

Definition DecodeRune (p : bytes) : N * nat :=
  match p with
  | [] => (RuneError, 0%nat)
  | p0 :: rest =>
      if p0 <? RuneSelf then (p0, 1%nat)
      else
        match first p0 with
        | None => (RuneError, 1%nat)
        | Some (sz, lo, hi) =>
            match rest with
            | b1 :: rest =>
                if negb ((lo <=? b1) && (b1 <=? hi)) then (RuneError, 1%nat)
                else if (sz <=? 2)%nat then (N.lor (bits p0 0x1F 6) (bits b1 0x3F 0), 2%nat)
                else
                  match rest with
                  | b2 :: rest =>
                      if negb (continuation b2) then (RuneError, 1%nat)
                      else if (sz <=? 3)%nat then (N.lor (bits p0 0x0F 12) (N.lor (bits b1 0x3F 6) (bits b2 0x3F 0)), 3%nat)
                      else
                        match rest with
                        | b3 :: _ =>
                            if negb (continuation b3) then (RuneError, 1%nat)
                            else (N.lor (bits p0 0x07 18) (N.lor (bits b1 0x3F 12) (N.lor (bits b2 0x3F 6) (bits b3 0x3F 0))), 4%nat)
                        | [] => (RuneError, 1%nat)
                        end
                  | [] => (RuneError, 1%nat)
                  end
            | [] => (RuneError, 1%nat)
            end
        end
  end.

Definition RuneStart (b : N) : bool := negb (N.land b 0xC0 =? 0x80).

(** The number of bytes from the last start of a rune to the end, at most [lim]
    bytes back and one more when there is none; [back] bytes were seen. *)
Fixpoint rune_back (lim : nat) (before : bytes) (back : nat) : nat :=
  match lim, before with
  | S lim, b :: before => if RuneStart b then S back else rune_back lim before (S back)
  | O, _ :: _ => S back
  | _, [] => back
  end.

(** [DecodeLastRune]; the bytes are given from the last one to the first. *)
Definition decode_last (p : bytes) : N * nat :=
  match p with
  | [] => (RuneError, 0%nat)
  | b :: before =>
      if b <? RuneSelf then (b, 1%nat)
      else
        let n := rune_back (UTFMax - 1) before 1 in
        let '(r, size) := DecodeRune (rev (take n p)) in
        if (size =? n)%nat then (r, size) else (RuneError, 1%nat)
  end.
Definition DecodeLastRune (p : bytes) : N * nat := decode_last (reverse p).

Lemma DecodeLastRune_rev (p : bytes) : DecodeLastRune p = decode_last (rev p).
Proof. unfold DecodeLastRune, reverse. by rewrite <- rev_alt. Qed.

(** The range over a string: the positions and the runes. *)
Fixpoint range_string (fuel : nat) (i : nat) (s : bytes) : list (nat * N) :=
  match fuel, s with
  | S fuel, _ :: _ =>
      let '(r, size) := DecodeRune s in (i, r) :: range_string fuel (i + size) (drop size s)
  | _, _ => []
  end.

(** ** Cutting messages *)

Definition MAX_MESSAGE_SIZE : nat := Z.to_nat 61440.

(** How many bytes are cut from the end of the buffer, at most three. *)
Fixpoint bytes_to_cut (tries : nat) (buffer : bytes) (cut : nat) : nat :=
  match tries with
  | O => cut
  | S tries =>
      if (DecodeLastRune (take (length buffer - cut) buffer)).1 =? RuneError then bytes_to_cut tries buffer (S cut) else cut
  end.

(** [appendToBuffer]: the buffer, and what remains of the message. *)
Definition appendToBuffer (buffer message : bytes) : bytes * bytes :=
  if (MAX_MESSAGE_SIZE <=? length message + length buffer)%nat then
    let remainingSpaceInBuffer := (MAX_MESSAGE_SIZE - length buffer)%nat in
    let appended := buffer ++ take remainingSpaceInBuffer message in
    let bytesToCut := bytes_to_cut 3 appended 0 in
    if (remainingSpaceInBuffer <? bytesToCut)%nat then (take (length appended - remainingSpaceInBuffer) appended, message)
    else (take (length appended - bytesToCut) appended, drop (remainingSpaceInBuffer - bytesToCut) message)
  else (buffer ++ message, []).

(** [flush] takes the buffer as a message, unless it is empty. *)
Definition flush (buffer : bytes) : list bytes := match buffer with [] => [] | _ => [buffer] end.

(** The loop of [processString]: the buffer and the messages that were flushed. *)
Fixpoint process_loop (fuel : nat) (buffer message : bytes) : option (bytes * list bytes) :=
  match fuel with
  | O => None
  | S fuel =>
      match appendToBuffer buffer message with
      | (buffer, []) => Some (buffer, [])
      | (buffer, message) => '(b, msgs) ← process_loop fuel [] message; Some (b, flush buffer ++ msgs)
      end
  end.

Definition processString (buffer message : bytes) (terminates : bool) : option (bytes * list bytes) :=
  '(buffer, msgs) ← process_loop (S (S (length message))) buffer message;
  Some (if terminates then ([], msgs ++ flush buffer) else (buffer, msgs)).

Definition newline (r : N) : bool := (r =? 10) || (r =? 13).

(** [processMessage]: the loop over the runes, with the start of the current line, and
    the rest of the message. *)
Fixpoint process_runes (message : bytes) (runes : list (nat * N)) (start : nat) (buffer : bytes) : option (bytes * list bytes) :=
  match runes with
  | [] =>
      if (start <? length message)%nat then processString buffer (drop start message) false else Some (buffer, [])
  | (i, ch) :: runes =>
      if newline ch then
        '(buffer, msgs) ← processString buffer (take (i - start) (drop start message)) true;
        '(buffer, rest) ← process_runes message runes (S i) buffer;
        Some (buffer, msgs ++ rest)
      else process_runes message runes start buffer
  end.

Definition processMessage (buffer message : bytes) : option (bytes * list bytes) :=
  process_runes message (range_string (length message) 0 message) 0 buffer.

(** ** Lines *)

Lemma max_big : (4 <= MAX_MESSAGE_SIZE)%nat.
Proof. unfold MAX_MESSAGE_SIZE. lia. Qed.

#[global] Opaque MAX_MESSAGE_SIZE.

Lemma bytes_to_cut_le (tries : nat) (buffer : bytes) (cut : nat) : (cut <= bytes_to_cut tries buffer cut <= cut + tries)%nat.
Proof.
  revert cut. induction tries as [|tries IH]; intros cut; cbn; [lia|]. destruct (_ =? _); [|lia]. specialize (IH (S cut)). lia.
Qed.

(** Nothing is lost, and the buffer never holds more than a message. *)
Lemma appendToBuffer_spec (buffer message b m : bytes) :
  (length buffer <= MAX_MESSAGE_SIZE)%nat -> appendToBuffer buffer message = (b, m) ->
  b ++ m = buffer ++ message /\ (length b <= MAX_MESSAGE_SIZE)%nat /\ (length m <= length message)%nat /\
  (buffer = [] -> m <> [] -> (length m < length message)%nat) /\ (m <> [] -> (MAX_MESSAGE_SIZE - 3 <= length b)%nat).
Proof.
  intros Hb. unfold appendToBuffer. destruct (Nat.leb_spec MAX_MESSAGE_SIZE (length message + length buffer)) as [Hl|Hl].
  - set (rem := (MAX_MESSAGE_SIZE - length buffer)%nat). pose proof (bytes_to_cut_le 3 (buffer ++ take rem message) 0) as Hc.
    set (cut := bytes_to_cut 3 _ 0) in *. assert (Hr : length (take rem message) = rem) by (rewrite length_take; lia).
    pose proof max_big as Hmax. rewrite length_app, Hr. destruct (Nat.ltb_spec rem cut) as [Hlt|Hge]; intros [= <- <-].
    + replace (length buffer + rem - rem)%nat with (length buffer) by lia. rewrite take_app_length.
      split_and!; [done|lia|lia| |lia]. intros ->. cbn in *. lia.
    + rewrite take_app_ge by lia. replace (length buffer + rem - cut - length buffer)%nat with (rem - cut)%nat by lia.
      rewrite take_take, Nat.min_l by lia. rewrite <- app_assoc, take_drop. split_and!; [done| | | |].
      * rewrite length_app, length_take. lia.
      * rewrite length_drop. lia.
      * intros -> _. cbn in *. rewrite length_drop. lia.
      * intros _. rewrite length_app, length_take. lia.
  - intros [= <- <-]. rewrite app_nil_r. split_and!; [done|rewrite length_app; lia|cbn; lia|done|done].
Qed.

(** The lines of a text: those that end, and the last one. *)
Fixpoint split_lines (text : bytes) : list bytes * bytes :=
  match text with
  | [] => ([], [])
  | c :: text =>
      let '(lines, rest) := split_lines text in
      if newline c then ([] :: lines, rest)
      else match lines with [] => ([], c :: rest) | l :: lines => ((c :: l) :: lines, rest) end
  end.

Lemma split_lines_plain (seg text : bytes) :
  Forall (fun c => newline c = false) seg ->
  split_lines (seg ++ text) =
    match split_lines text with ([], rest) => ([], seg ++ rest) | (l :: lines, rest) => ((seg ++ l) :: lines, rest) end.
Proof.
  induction 1 as [|c seg Hc _ IH]; cbn; [by destruct (split_lines text) as [[] ?]|]. rewrite IH, Hc. by destruct (split_lines text) as [[] ?].
Qed.

Lemma N_between (lo hi : N) (P : N -> bool) (x : N) :
  forallb P (N.of_nat <$> seq (N.to_nat lo) (N.to_nat (hi - lo + 1))) = true -> lo <= x <= hi -> P x = true.
Proof.
  rewrite forallb_forall. intros H Hx. apply H, list_elem_of_In, list_elem_of_fmap. exists (N.to_nat x). split; [lia|]. apply elem_of_seq. lia.
Qed.

Ltac between lo hi P x :=
  assert (P x = true) by (apply (N_between lo hi P); [vm_compute; reflexivity|lia]).

Lemma lor_big (a b : N) : 7 <= N.log2 a \/ 7 <= N.log2 b -> newline (N.lor a b) = false.
Proof.
  intros H. assert (Hl : 7 <= N.log2 (N.lor a b)) by (rewrite N.log2_lor; lia). assert (128 <= N.lor a b).
  { destruct (N.eq_dec (N.lor a b) 0) as [Hz|Hz]; [by rewrite Hz in Hl|]. apply N.log2_le_pow2 in Hl; [exact Hl|lia]. }
  unfold newline. destruct (N.eqb_spec (N.lor a b) 10), (N.eqb_spec (N.lor a b) 13); lia.
Qed.

Lemma bits_log2 (b mask shift k : N) : k <= N.log2 (N.land b mask) + shift -> N.land b mask <> 0 -> k <= N.log2 (bits b mask shift).
Proof. intros Hk Hz. unfold bits. rewrite N.log2_shiftl; lia. Qed.

Lemma high_plain (b : N) : 0x80 <= b -> newline b = false.
Proof. intros Hb. unfold newline. destruct (N.eqb_spec b 10), (N.eqb_spec b 13); lia. Qed.

Ltac leads :=
  unfold first; repeat match goal with
  | |- context [if (?a <=? ?b) && (?c <=? ?d) then _ else _] => destruct (N.leb_spec a b), (N.leb_spec c d); cbn [andb]
  | |- context [if ?a =? ?b then _ else _] => destruct (N.eqb_spec a b)
  end; intros Hf; simplify_eq/=.

(** The sizes and the ranges of the encodings; the rune has a bit above the ASCII
    ones in its first or in its second byte. *)
Definition wide (p0 b1 : N) (sz : nat) : bool :=
  match sz with
  | 2%nat => negb (N.land p0 0x1F =? 0) && (7 <=? N.log2 (N.land p0 0x1F) + 6)
  | 3%nat => negb (N.land p0 0x0F =? 0) || negb (N.land b1 0x3F =? 0) && (7 <=? N.log2 (N.land b1 0x3F) + 6)
  | _ => negb (N.land p0 0x07 =? 0) || negb (N.land b1 0x3F =? 0)
  end.

Lemma first_wide (p0 b1 : N) (sz : nat) (lo hi : N) :
  first p0 = Some (sz, lo, hi) -> lo <= b1 <= hi -> (2 <= sz <= 4)%nat /\ 0x80 <= lo /\ hi <= 0xBF /\ wide p0 b1 sz = true.
Proof.
  leads; intros Hb; (split_and!; [lia|lia|lia|lia|]).
  all: first
    [ reflexivity
    | apply (N_between 0xC2 0xDF (fun p => wide p b1 2)); [vm_compute; reflexivity|lia]
    | apply (N_between 0xE1 0xEF (fun p => wide p b1 3)); [vm_compute; reflexivity|lia]
    | apply (N_between 0xF1 0xF3 (fun p => wide p b1 4)); [vm_compute; reflexivity|lia]
    | apply (N_between 0xA0 0xBF (fun b => wide 0xE0 b 3)); [vm_compute; reflexivity|lia]
    | apply (N_between 0x90 0xBF (fun b => wide 0xF0 b 4)); [vm_compute; reflexivity|lia] ].
Qed.

(** A rune that ends a line is one byte, and no byte of another rune ends one. *)
Definition line_safe (p : bytes) (r : N) (size : nat) : Prop :=
  match p with
  | [] => False
  | c :: _ =>
      (1 <= size <= length p)%nat /\ (newline c = true -> r = c /\ size = 1%nat) /\
      (newline c = false -> newline r = false /\ Forall (fun b => newline b = false) (take size p))
  end.

Lemma safe_error (c : N) (rest : bytes) : 0x80 <= c -> line_safe (c :: rest) RuneError 1.
Proof.
  intros Hc. apply high_plain in Hc. cbn. rewrite take_0. split_and!; [lia|lia|congruence|]. intros _. by repeat constructor.
Qed.

Lemma safe_wide (p0 : N) (more rest : bytes) (a b : N) :
  0x80 <= p0 -> Forall (fun b => 0x80 <= b) more -> 7 <= N.log2 a \/ 7 <= N.log2 b ->
  line_safe (p0 :: more ++ rest) (N.lor a b) (S (length more)).
Proof.
  intros Hp Hm Hl. apply high_plain in Hp. cbn. split_and!; [lia|rewrite length_app; lia|congruence|]. intros _.
  split; [by apply lor_big|]. rewrite take_app_length. constructor; [done|]. by eapply Forall_impl; [exact Hm|]; intros; apply high_plain.
Qed.

Lemma continuation_high (b : N) : continuation b = true -> 0x80 <= b.
Proof. unfold continuation. rewrite andb_true_iff, N.leb_le. tauto. Qed.

Lemma DecodeRune_lines (c : N) (rest : bytes) : line_safe (c :: rest) (DecodeRune (c :: rest)).1 (DecodeRune (c :: rest)).2.
Proof.
  cbn [DecodeRune]. destruct (N.ltb_spec c RuneSelf) as [Hc|Hc].
  { cbn. rewrite take_0. split_and!; [lia|lia|done|]. intros Hn. by repeat constructor. }
  destruct (first c) as [[[sz lo] hi]|] eqn:Hf; [|by apply safe_error]. destruct rest as [|b1 rest]; [by apply safe_error|].
  destruct (N.leb_spec lo b1) as [H1|], (N.leb_spec b1 hi) as [H2|]; cbn [negb andb]; try by apply safe_error.
  destruct (first_wide _ _ _ _ _ Hf (conj H1 H2)) as (Hsz & Hlo & Hhi & Hw).
  assert (H8 : 0x80 <= b1) by lia.
  destruct sz as [|[|[|[|[|?]]]]]; try lia; cbn [Nat.leb wide] in *.
  - apply andb_true_iff in Hw as [Hz Hw]. apply negb_true_iff, N.eqb_neq in Hz. apply N.leb_le in Hw.
    apply (safe_wide c [b1]); [done|by repeat constructor|]. left. by apply bits_log2.
  - destruct rest as [|b2 rest]; [by apply safe_error|]. destruct (continuation b2) eqn:H3; cbn [negb]; [|by apply safe_error].
    apply continuation_high in H3. apply (safe_wide c [b1; b2]); [done|by repeat constructor|].
    apply orb_true_iff in Hw as [Hz|Hw]; [left; apply negb_true_iff, N.eqb_neq in Hz; apply bits_log2; [lia|done]|].
    apply andb_true_iff in Hw as [Hz Hw]. apply negb_true_iff, N.eqb_neq in Hz. apply N.leb_le in Hw.
    right. rewrite N.log2_lor. pose proof (bits_log2 b1 0x3F 6 7 Hw Hz). lia.
  - destruct rest as [|b2 rest]; [by apply safe_error|]. destruct (continuation b2) eqn:H3; cbn [negb]; [|by apply safe_error].
    destruct rest as [|b3 rest]; [by apply safe_error|]. destruct (continuation b3) eqn:H4; cbn [negb]; [|by apply safe_error].
    apply continuation_high in H3, H4. apply (safe_wide c [b1; b2; b3]); [done|by repeat constructor|].
    apply orb_true_iff in Hw as [Hz|Hz]; apply negb_true_iff, N.eqb_neq in Hz; [left; apply bits_log2; [lia|done]|].
    right. rewrite N.log2_lor. pose proof (bits_log2 b1 0x3F 12 7 ltac:(lia) Hz). lia.
Qed.

(** ** Writes

    What a text does line by line. *)
Fixpoint feed (buffer : bytes) (lines : list bytes) (rest : bytes) : option (bytes * list bytes) :=
  match lines with
  | [] => match rest with [] => Some (buffer, []) | _ => processString buffer rest false end
  | l :: lines =>
      '(buffer, msgs) ← processString buffer l true;
      '(buffer, more) ← feed buffer lines rest;
      Some (buffer, msgs ++ more)
  end.

Lemma runes_end (pre seg buffer : bytes) :
  Forall (fun c => newline c = false) seg ->
  process_runes (pre ++ seg ++ []) [] (length pre) buffer = (let '(lines, last) := split_lines (seg ++ []) in feed buffer lines last).
Proof.
  intros Hseg. rewrite split_lines_plain by done. cbn [process_runes split_lines feed]. rewrite !app_nil_r, drop_app_length, length_app.
  destruct (Nat.ltb_spec (length pre) (length pre + length seg)), seg; cbn [length] in *; done || lia.
Qed.

Lemma process_runes_feed (fuel : nat) (pre seg rest buffer : bytes) :
  (length rest <= fuel)%nat -> Forall (fun c => newline c = false) seg ->
  process_runes (pre ++ seg ++ rest) (range_string fuel (length (pre ++ seg)) rest) (length pre) buffer =
    (let '(lines, last) := split_lines (seg ++ rest) in feed buffer lines last).
Proof.
  revert pre seg rest buffer. induction fuel as [|fuel IH]; intros pre seg rest buffer Hf Hseg.
  { destruct rest; [by apply runes_end|cbn in Hf; lia]. }
  destruct rest as [|c rest]; [by apply runes_end|]. cbn [range_string].
  pose proof (DecodeRune_lines c rest) as Hs. destruct (DecodeRune (c :: rest)) as [r size]. destruct Hs as (Hsize & Hnl & Hpl).
  cbn [fst snd] in *. cbn [process_runes]. destruct (newline c) eqn:Hc.
  - destruct (Hnl eq_refl) as [-> ->]. rewrite Hc, split_lines_plain by done. cbn [split_lines drop].
    rewrite length_app, drop_app_length, Nat.add_sub', take_app_length, drop_0.
    destruct (split_lines rest) as [lines last] eqn:Hl. rewrite Hc, app_nil_r. cbn [feed].
    destruct (processString buffer seg true) as [[b msgs]|]; [cbn|done].
    specialize (IH (pre ++ seg ++ [c]) [] rest b ltac:(cbn in Hf; lia) (Forall_nil_2 _)).
    cbn [app] in IH. rewrite Hl, app_nil_r, !length_app, <- !app_assoc in IH. cbn [length app] in IH.
    by replace (length pre + length seg + 1)%nat with (length pre + (length seg + 1))%nat by lia;
      replace (S (length pre + length seg)) with (length pre + (length seg + 1))%nat by lia; rewrite IH.
  - destruct (Hpl eq_refl) as [-> Ht].
    specialize (IH pre (seg ++ take size (c :: rest)) (drop size (c :: rest)) buffer).
    rewrite <- !app_assoc, take_drop in IH.
    replace (length (pre ++ seg) + size)%nat with (length (pre ++ seg ++ take size (c :: rest))) by (rewrite !length_app, length_take_le; lia).
    apply IH; [|by apply Forall_app].
    rewrite length_drop. cbn [length] in *. lia.
Qed.

Lemma processMessage_feed (buffer message : bytes) :
  processMessage buffer message = (let '(lines, last) := split_lines message in feed buffer lines last).
Proof. exact (process_runes_feed (length message) [] [] message buffer (le_n _) (Forall_nil_2 _)). Qed.

(** ** Characters

    A character is the encoding of a rune other than U+FFFD, a text a sequence of
    characters. *)
Definition is_char (ch : bytes) : Prop := ch <> [] /\ exists r, DecodeRune ch = (r, length ch) /\ r <> RuneError.

Inductive utf8 : bytes -> Prop :=
| utf8_nil : utf8 []
| utf8_char ch rest : is_char ch -> utf8 rest -> utf8 (ch ++ rest).

(** A character is an ASCII byte, or a byte that starts an encoding and the bytes it
    asks for. *)
Inductive char_form : bytes -> Prop :=
| form_ascii a : a < 0x80 -> char_form [a]
| form_wide a b lo hi more sz :
    0x80 <= a -> first a = Some (sz, lo, hi) -> (lo <= b <= hi) -> Forall (fun c => continuation c = true) more ->
    sz = S (S (length more)) -> char_form (a :: b :: more).

Lemma char_forms (ch : bytes) : is_char ch -> char_form ch.
Proof.
  intros [Hne (r & Hd & Hr)]. destruct ch as [|a ch]; [done|]. cbn [DecodeRune] in Hd.
  destruct (N.ltb_spec a RuneSelf) as [Ha|Ha]; [simplify_eq/=; destruct ch; [by constructor|done]|].
  destruct (first a) as [[[sz lo] hi]|] eqn:Hf; [|congruence]. destruct ch as [|b ch]; [congruence|].
  destruct (N.leb_spec lo b) as [H1|], (N.leb_spec b hi) as [H2|]; cbn [negb andb] in Hd; try congruence.
  destruct (first_wide _ _ _ _ _ Hf (conj H1 H2)) as (Hsz & _).
  destruct sz as [|[|[|[|[|?]]]]]; try lia; cbn [Nat.leb] in Hd.
  - injection Hd as _ Hlen. destruct ch; [|done]. by apply (form_wide a b lo hi [] 2).
  - destruct ch as [|c ch]; [congruence|]. destruct (continuation c) eqn:Hc; cbn [negb] in Hd; [|congruence].
    injection Hd as _ Hlen. destruct ch; [|done]. apply (form_wide a b lo hi [c] 3); try done. by repeat constructor.
  - destruct ch as [|c ch]; [congruence|]. destruct (continuation c) eqn:Hc; cbn [negb] in Hd; [|congruence].
    destruct ch as [|d ch]; [congruence|]. destruct (continuation d) eqn:Hd'; cbn [negb] in Hd; [|congruence].
    injection Hd as _ Hlen. destruct ch; [|done]. apply (form_wide a b lo hi [c; d] 4); try done. by repeat constructor.
Qed.

Lemma DecodeRune_app (ch rest : bytes) (r : N) : ch <> [] -> DecodeRune ch = (r, length ch) -> r <> RuneError -> DecodeRune (ch ++ rest) = (r, length ch).
Proof.
  intros Hne Hd Hr. destruct ch as [|a ch]; [done|]. cbn [DecodeRune app] in *.
  repeat match goal with
  | H : (if ?c then _ else _) = _ |- _ => destruct c; [try congruence|try congruence]
  | H : match ?x with Some _ => _ | None => _ end = _ |- _ => destruct x as [[[??]?]|]; [|congruence]
  | H : match ?x with [] => _ | _ => _ end = _ |- _ => destruct x as [|? ?]; [congruence|cbn [app]]
  end.
Qed.

Lemma rune_starts (b : N) : b < 0x80 \/ 0xC2 <= b <= 0xF4 -> RuneStart b = true.
Proof.
  intros [Hb|Hb]; [apply (N_between 0 0x7F RuneStart)|apply (N_between 0xC2 0xF4 RuneStart)]; solve [vm_compute; reflexivity|lia].
Qed.

Lemma continuation_not_start (b : N) : 0x80 <= b <= 0xBF -> RuneStart b = false.
Proof. intros Hb. apply negb_true_iff. apply (N_between 0x80 0xBF (fun b => negb (RuneStart b))); [vm_compute; reflexivity|lia]. Qed.

Lemma first_leads (a : N) (x : nat * N * N) : first a = Some x -> 0xC2 <= a <= 0xF4.
Proof. leads; lia. Qed.

Lemma char_shape (ch : bytes) :
  is_char ch -> exists a more, ch = a :: more /\ RuneStart a = true /\ Forall (fun b => RuneStart b = false) more /\ (length more <= 3)%nat /\
    (more <> [] -> Forall (fun b => 0x80 <= b) ch) /\ (more = [] -> a < 0x80).
Proof.
  intros Hch. apply char_forms in Hch. destruct Hch as [a Ha|a b lo hi more sz Ha Hf Hb Hm Hsz].
  { exists a, []. split_and!; try done; [apply rune_starts; by left|cbn; lia]. }
  destruct (first_wide _ _ _ _ _ Hf Hb) as (Hs & Hlo & Hhi & _). exists a, (b :: more).
  assert (Hcont : Forall (fun c => 0x80 <= c <= 0xBF) more).
  { eapply Forall_impl; [exact Hm|]. cbn. unfold continuation. intros c. rewrite andb_true_iff, !N.leb_le. lia. }
  split_and!; try done; [by apply rune_starts; right; eapply first_leads| |cbn; lia|].
  - constructor; [apply continuation_not_start; lia|]. eapply Forall_impl; [exact Hcont|]. apply continuation_not_start.
  - intros _. repeat constructor; [lia|lia|]. eapply Forall_impl; [exact Hcont|]. cbn. lia.
Qed.

Lemma rune_back_to (more before : bytes) (a : N) (lim back : nat) :
  Forall (fun b => RuneStart b = false) more -> RuneStart a = true -> (length more <= lim)%nat ->
  rune_back lim (more ++ a :: before) back = (back + S (length more))%nat.
Proof.
  intros Hm Ha. revert lim back. induction Hm as [|b more Hb _ IH]; intros lim back Hl; cbn in *.
  { destruct lim; cbn; [lia|]. rewrite Ha. lia. }
  destruct lim; [lia|]. cbn. rewrite Hb, IH; lia.
Qed.

Lemma DecodeLastRune_char (q ch : bytes) (r : N) :
  is_char ch -> DecodeRune ch = (r, length ch) -> DecodeLastRune (q ++ ch) = (r, length ch).
Proof.
  intros Hch Hd. destruct (char_shape ch Hch) as (a & more & -> & Ha & Hm & Hl & Hhi & Hlo).
  rewrite DecodeLastRune_rev, rev_app_distr. cbn [rev]. destruct more as [|l more _] using rev_ind.
  { specialize (Hlo eq_refl). cbn in Hd |- *. unfold RuneSelf in *. destruct (N.ltb_spec a 0x80); [done|lia]. }
  rewrite rev_app_distr. cbn [rev app decode_last]. specialize (Hhi ltac:(by destruct more)).
  rewrite <- (app_assoc (rev more)). cbn [app]. rewrite length_app in Hl. cbn in Hl.
  assert (Hl8 : 0x80 <= l). { rewrite Forall_forall in Hhi. apply Hhi. set_solver. }
  unfold RuneSelf. destruct (N.ltb_spec l 0x80); [lia|]. apply Forall_app in Hm as [Hm _].
  rewrite rune_back_to; [|by apply Forall_rev|done|rewrite length_rev; cbn; lia].
  assert (Ht : take (1 + S (length (rev more))) (l :: rev more ++ a :: rev q) = rev (a :: more ++ [l])).
  { cbn [rev Nat.add]. rewrite rev_app_distr. cbn [rev app]. change (a :: rev q) with ([a] ++ rev q). rewrite app_assoc.
    cbn [take]. f_equal. rewrite take_app_le by (rewrite length_app; cbn; lia). apply take_ge. rewrite length_app. cbn. lia. }
  rewrite Ht, rev_involutive, Hd. cbn [length]. rewrite length_app, length_rev. cbn [length].
  by rewrite (proj2 (Nat.eqb_eq _ _)) by lia.
Qed.

Lemma DecodeRune_partial (pr post : bytes) : is_char (pr ++ post) -> pr <> [] -> post <> [] -> DecodeRune pr = (RuneError, 1%nat).
Proof.
  intros Hch Hpr Hpost. apply char_forms in Hch. inversion Hch as [a Ha Heq|a b lo hi more sz Ha Hf Hb Hm Hsz Heq].
  { destruct pr as [|x [|]], post; simplify_eq/=. }
  destruct (first_wide _ _ _ _ _ Hf Hb) as (Hs & _).
  destruct pr as [|x pr]; [done|]. injection Heq as <- Heq. cbn [DecodeRune].
  unfold RuneSelf. destruct (N.ltb_spec a 0x80); [lia|]. rewrite Hf. destruct pr as [|y pr]; [done|]. injection Heq as <- Heq.
  destruct (N.leb_spec lo b), (N.leb_spec b hi); try lia. cbn [negb andb]. subst sz more. rewrite length_app in *. rewrite Forall_app in Hm.
  assert (0 < length post)%nat by (destruct post; [done|cbn; lia]).
  destruct pr as [|c pr]; cbn [length] in *; [by destruct (Nat.leb_spec (S (S (0 + length post))) 2); [lia|]|].
  destruct Hm as [Hm _]. inversion Hm as [|?? Hc Hm']; subst. rewrite Hc. cbn [negb].
  destruct (Nat.leb_spec (S (S (S (length pr) + length post))) 2); [lia|].
  destruct (Nat.leb_spec (S (S (S (length pr) + length post))) 3); [lia|]. destruct pr as [|d pr]; [done|]. cbn [length] in *. lia.
Qed.

Lemma utf8_app (p q : bytes) : utf8 p -> utf8 q -> utf8 (p ++ q).
Proof. induction 1 as [|ch p Hch _ IH]; [done|]. intros Hq. rewrite <- app_assoc. constructor; auto. Qed.

Lemma utf8_last (q : bytes) : utf8 q -> q = [] \/ exists q' ch, q = q' ++ ch /\ is_char ch.
Proof.
  induction 1 as [|ch q Hch _ IH]; [by left|right]. destruct IH as [->|(q' & ch' & -> & Hch')]; [by exists [], ch; rewrite app_nil_r|].
  exists (ch ++ q'), ch'. by rewrite app_assoc.
Qed.

Lemma take_back (more before : bytes) (l a : N) : rev (take (1 + S (length more)) (l :: more ++ a :: before)) = a :: rev more ++ [l].
Proof.
  change (a :: before) with ([a] ++ before). rewrite (app_assoc more). cbn [take Nat.add].
  rewrite take_app_le by (rewrite length_app; cbn; lia). rewrite take_ge by (rewrite length_app; cbn; lia).
  cbn [rev]. by rewrite rev_app_distr.
Qed.

Lemma DecodeLastRune_partial (q pr post : bytes) :
  utf8 q -> is_char (pr ++ post) -> pr <> [] -> post <> [] -> (DecodeLastRune (q ++ pr)).1 = RuneError.
Proof.
  intros Hq Hch Hpr Hpost. pose proof (DecodeRune_partial _ _ Hch Hpr Hpost) as Hd.
  destruct (char_shape _ Hch) as (a & more & Heq & Ha & Hm & Hl & Hhi & _). destruct pr as [|x pr]; [done|].
  injection Heq as -> <-. specialize (Hhi ltac:(destruct pr, post; done)). rewrite DecodeLastRune_rev, rev_app_distr. cbn [rev].
  destruct pr as [|l pr _] using rev_ind.
  - cbn [decode_last rev app]. inversion Hhi; subst. unfold RuneSelf. destruct (N.ltb_spec a 0x80); [lia|].
    apply utf8_last in Hq as [->|(q' & ch & -> & Hc)]; [cbn -[DecodeRune]; by rewrite Hd|].
    destruct (char_shape _ Hc) as (c & more & -> & Hcs & Hms & Hls & _). rewrite rev_app_distr. cbn [rev]. rewrite <- app_assoc. cbn [app].
    rewrite rune_back_to; [|by apply Forall_rev|done|by rewrite length_rev]. rewrite take_back, rev_involutive.
    destruct Hc as [? (r & Hr & Hne)]. change (c :: more ++ [a]) with ((c :: more) ++ [a]).
    rewrite (DecodeRune_app (c :: more) [a] r) by done. cbn [length]. rewrite length_rev.
    by rewrite (proj2 (Nat.eqb_neq _ _)) by lia.
  - rewrite rev_app_distr. cbn [rev app decode_last]. rewrite <- (app_assoc (rev pr)). cbn [app].
    assert (Hl8 : 0x80 <= l). { rewrite Forall_forall in Hhi. apply Hhi. set_solver. }
    unfold RuneSelf. destruct (N.ltb_spec l 0x80); [lia|]. rewrite !Forall_app in Hm. rewrite !length_app in Hl. cbn in Hl.
    rewrite rune_back_to; [|apply Forall_rev; tauto|done|rewrite length_rev; cbn; lia].
    rewrite take_back, rev_involutive, Hd. by rewrite (proj2 (Nat.eqb_neq _ _)) by lia.
Qed.

(** A text cut anywhere: characters, and a part of the next one. *)
Lemma utf8_cut (text : bytes) (k : nat) :
  utf8 text -> (k <= length text)%nat ->
  exists q pr post, take k text = q ++ pr /\ drop k text = post /\ utf8 q /\ utf8 (pr ++ post) /\ (length pr <= 3)%nat /\
    (pr <> [] -> exists ch post' , ch <> [] /\ is_char (pr ++ ch) /\ post = ch ++ post').
Proof.
  intros Ht. revert k. induction Ht as [|ch text Hch Ht IH]; intros k Hk.
  { exists [], [], []. cbn in *. rewrite take_nil, drop_nil. split_and!; try done; try constructor. cbn. lia. }
  destruct (decide (length ch <= k)%nat) as [Hge|Hlt].
  - destruct (IH (k - length ch)%nat) as (q & pr & post & Hq & Hp & Hu & Hrest & Hl & Hne); [rewrite length_app in Hk; lia|].
    exists (ch ++ q), pr, post. rewrite take_app_ge, drop_app_ge, Hq, <- app_assoc by done. split_and!; try done. by constructor.
  - rewrite take_app_le, drop_app_le by lia. exists [], (take k ch), (drop k ch ++ text).
    rewrite app_assoc, take_drop. split_and!; try done; [constructor|by constructor| |].
    + destruct (char_shape _ Hch) as (a & more & -> & _ & _ & ? & _). rewrite length_take. cbn in *. lia.
    + intros _. exists (drop k ch), text. rewrite take_drop. split_and!; try done.
      intros Hd. apply (f_equal length) in Hd. rewrite length_drop in Hd. cbn in Hd. lia.
Qed.

Lemma bytes_to_cut_char (q : bytes) (tries cut : nat) (buffer : bytes) :
  utf8 q -> q <> [] -> take (length buffer - cut) buffer = q -> bytes_to_cut tries buffer cut = cut.
Proof.
  intros Hu Hne Hq. destruct tries; cbn; [done|]. rewrite Hq. apply utf8_last in Hu as [->|(q' & ch & -> & Hch)]; [done|].
  destruct (Hch) as [_ (r & Hd & Hr)]. rewrite (DecodeLastRune_char q' ch r) by done. cbn. by rewrite (proj2 (N.eqb_neq _ _)).
Qed.

Lemma take_last_part (q l : bytes) : take (length (q ++ l) - length l) (q ++ l) = q.
Proof. rewrite length_app, Nat.add_sub. apply take_app_length. Qed.

Lemma bytes_to_cut_partial (q d l ch : bytes) (k : nat) :
  utf8 q -> q <> [] -> is_char ((d ++ l) ++ ch) -> ch <> [] ->
  bytes_to_cut (length d + k) (q ++ d ++ l) (length l) = (length d + length l)%nat.
Proof.
  intros Hu Hne. revert l. induction d as [|x d IH] using rev_ind; intros l Hch Hpost.
  { apply (bytes_to_cut_char q); [done|done|apply take_last_part]. }
  rewrite length_app. cbn [length]. rewrite Nat.add_1_r. cbn [bytes_to_cut Nat.add]. rewrite (app_assoc q (d ++ [x]) l), take_last_part.
  rewrite (DecodeLastRune_partial q (d ++ [x]) (l ++ ch)); [|done|by rewrite app_assoc|by destruct d|by destruct l].
  rewrite N.eqb_refl, <- !app_assoc. cbn [app]. change (S (length l)) with (length (x :: l)). rewrite IH; [cbn; lia| |done].
  by rewrite <- (app_assoc d [x] l) in Hch.
Qed.

Lemma appendToBuffer_utf8 (buffer message b m : bytes) :
  (length buffer <= MAX_MESSAGE_SIZE)%nat -> utf8 buffer -> utf8 message -> appendToBuffer buffer message = (b, m) -> utf8 b /\ utf8 m.
Proof.
  intros Hb Hub Hum. unfold appendToBuffer. destruct (Nat.leb_spec MAX_MESSAGE_SIZE (length message + length buffer)) as [Hbig|Hsmall].
  2:{ intros [= <- <-]. split; [by apply utf8_app|constructor]. }
  set (k := (MAX_MESSAGE_SIZE - length buffer)%nat). assert (Hk : (k <= length message)%nat) by lia.
  assert (Hlen : (length (buffer ++ take k message) = MAX_MESSAGE_SIZE)%nat) by (rewrite length_app, length_take_le; lia).
  destruct (utf8_cut message k Hum Hk) as (q & pr & post & Hq & Hp & Huq & Hrest & Hl & Hne).
  assert (Hcut : bytes_to_cut 3 (buffer ++ take k message) 0 = length pr).
  { pose proof max_big. rewrite Hq, length_app, length_app in Hlen. assert (Hn : buffer ++ q <> []) by (destruct buffer, q; cbn in *; try done; lia).
    rewrite Hq, app_assoc. destruct pr as [|x pr].
    - rewrite app_nil_r. apply (bytes_to_cut_char (buffer ++ q)); [by apply utf8_app|done|]. by rewrite Nat.sub_0_r, firstn_all.
    - destruct Hne as (ch & post' & Hch & Hc & _); [done|].
      pose proof (bytes_to_cut_partial (buffer ++ q) (x :: pr) [] ch (3 - length (x :: pr)) (utf8_app _ _ Hub Huq) Hn) as Hpart.
      rewrite app_nil_r in Hpart. specialize (Hpart Hc Hch). cbn [length] in *. by replace (S (length pr) + (3 - S (length pr)))%nat with 3%nat in Hpart by lia; rewrite Hpart, Nat.add_0_r. }
  rewrite Hcut. assert (Hkl : length (take k message) = k) by (rewrite length_take_le; lia).
  assert (Hpr : (length pr <= k)%nat) by (rewrite <- Hkl, Hq, length_app; lia).
  destruct (Nat.ltb_spec k (length pr)); [lia|]. intros [= <- <-]. rewrite Hq, (app_assoc buffer), take_last_part. split; [by apply utf8_app|].
  enough (drop (k - length pr) message = pr ++ post) as -> by done.
  rewrite <- (take_drop k message) at 1. rewrite Hq, Hp, <- app_assoc. rewrite Hq, length_app in Hkl.
  replace (k - length pr)%nat with (length q) by lia. apply drop_app_length.
Qed.

(** ** What a line becomes

    A segment of the text is cut into messages that are full, up to the bytes of one
    character, and a last one. *)
Definition full (m : bytes) : Prop := (MAX_MESSAGE_SIZE - 3 <= length m <= MAX_MESSAGE_SIZE)%nat.
Definition cut (seg : bytes) (msgs : list bytes) (last : bytes) : Prop :=
  concat msgs ++ last = seg /\ Forall full msgs /\ (length last <= MAX_MESSAGE_SIZE)%nat.

Lemma cut_app (seg more : bytes) (msgs msgs' : list bytes) (last last' : bytes) :
  cut seg msgs last -> cut (last ++ more) msgs' last' -> cut (seg ++ more) (msgs ++ msgs') last'.
Proof.
  intros (<- & Hf & _) (Heq & Hf' & Hl). unfold cut. rewrite concat_app, <- !app_assoc, Heq.
  split; [done|]. split; [by apply Forall_app|done].
Qed.

Lemma process_loop_spec (fuel : nat) (buffer message : bytes) :
  (length buffer <= MAX_MESSAGE_SIZE)%nat -> (length message + (if buffer is [] then 1 else 2) <= fuel)%nat ->
  exists b msgs, process_loop fuel buffer message = Some (b, msgs) /\ cut (buffer ++ message) msgs b /\
    (utf8 buffer -> utf8 message -> Forall utf8 msgs /\ utf8 b).
Proof.
  revert buffer message. induction fuel as [|fuel IH]; intros buffer message Hb Hf; [destruct buffer; lia|]. cbn [process_loop].
  destruct (appendToBuffer buffer message) as [b m] eqn:Ha. destruct (appendToBuffer_spec _ _ _ _ Hb Ha) as (Heq & Hlb & Hlm & Hprog & Hfull).
  pose proof (fun H H' => appendToBuffer_utf8 _ _ _ _ Hb H H' Ha) as Hu.
  destruct m as [|c m]; [exists b, []; rewrite app_nil_r in Heq; split_and!; [done|by repeat split|]; intros H1 H2; by destruct (Hu H1 H2)|].
  destruct (IH [] (c :: m)) as (b' & msgs & -> & Hcut & Hu'); [cbn; lia| |].
  { destruct buffer as [|x buffer]; cbn [length] in *; [|lia]. specialize (Hprog eq_refl ltac:(done)). lia. }
  specialize (Hfull ltac:(done)). pose proof max_big. destruct b as [|x b]; [cbn in Hfull; lia|].
  eexists _, _. split; [done|]. rewrite <- Heq. split.
  - apply (cut_app _ _ [x :: b] _ []); [|done]. unfold cut. cbn. rewrite !app_nil_r. split; [done|]. split; [|lia]. by apply Forall_singleton.
  - intros H1 H2. destruct (Hu H1 H2) as [H3 H4]. destruct (Hu' utf8_nil H4). split; [|done]. by constructor.
Qed.

Lemma processString_open (buffer message : bytes) :
  (length buffer <= MAX_MESSAGE_SIZE)%nat ->
  exists b msgs, processString buffer message false = Some (b, msgs) /\ cut (buffer ++ message) msgs b /\
    (utf8 buffer -> utf8 message -> Forall utf8 msgs /\ utf8 b).
Proof.
  intros Hb. unfold processString. destruct (process_loop_spec (S (S (length message))) buffer message Hb) as (b & msgs & -> & H).
  { destruct buffer; lia. }
  by exists b, msgs.
Qed.

Lemma processString_line (buffer message : bytes) :
  (length buffer <= MAX_MESSAGE_SIZE)%nat ->
  exists b msgs, processString buffer message true = Some ([], msgs ++ flush b) /\ cut (buffer ++ message) msgs b /\
    (utf8 buffer -> utf8 message -> Forall utf8 (msgs ++ flush b)).
Proof.
  intros Hb. unfold processString. destruct (process_loop_spec (S (S (length message))) buffer message Hb) as (b & msgs & -> & Hc & Hu).
  { destruct buffer; lia. }
  exists b, msgs. split_and!; [done|done|]. intros H1 H2. destruct (Hu H1 H2) as [H3 H4]. apply Forall_app. split; [done|].
  destruct b; by repeat constructor.
Qed.

Lemma split_lines_utf8 (text : bytes) : utf8 text -> Forall utf8 (split_lines text).1 /\ utf8 (split_lines text).2.
Proof.
  induction 1 as [|ch text Hch Ht IH]; [by repeat constructor|]. destruct Hch as [Hne (r & Hd & Hr)].
  destruct ch as [|c ch]; [done|]. pose proof (DecodeRune_lines c ch) as Hs. rewrite Hd in Hs. destruct Hs as (_ & Hnl & Hpl). cbn [fst snd] in *.
  destruct (newline c) eqn:Hc.
  - destruct (Hnl eq_refl) as [_ Hlen]. destruct ch; [|done]. cbn. destruct (split_lines text) as [lines rest]. rewrite Hc. cbn in *.
    split; [constructor; [constructor|]|]; tauto.
  - destruct (Hpl eq_refl) as [_ Ht']. rewrite firstn_all in Ht'. rewrite (split_lines_plain (c :: ch)) by done.
    assert (is_char (c :: ch)) by (split; [done|by exists r]).
    destruct (split_lines text) as [[|l lines] rest]; cbn [fst snd] in *; destruct IH as [H1 H2].
    + split; [constructor|]. by constructor.
    + inversion H1; subst. split; [|done]. constructor; [by constructor|done].
Qed.

(** ** Where a character is cut all the same

    The encoding of U+FFFD decodes to [RuneError] too: behind one, the loop goes back
    three bytes into it. *)
Lemma replacement_cut :
  let a := repeat 97 (MAX_MESSAGE_SIZE - 4) in
  DecodeRune [0xEF; 0xBF; 0xBD] = (RuneError, 3%nat) /\
  appendToBuffer [] (a ++ [0xEF; 0xBF; 0xBD; 0xC3; 0xA9]) = (a ++ [0xEF], [0xBF; 0xBD; 0xC3; 0xA9]).
Proof. cbn zeta. apply (bool_decide_unpack _). vm_compute. exact I. Qed.

(** A character of which one write has the first byte and the next write the others:
    the buffer is flushed with the first byte. *)
Lemma straddling_cut :
  let a := repeat 97 (MAX_MESSAGE_SIZE - 2) in
  appendToBuffer [] (a ++ [0xE2]) = (a ++ [0xE2], []) /\
  appendToBuffer (a ++ [0xE2]) [0x82; 0xAC] = (a ++ [0xE2], [0x82; 0xAC]).
Proof. cbn zeta. apply (bool_decide_unpack _). vm_compute. exact I. Qed.
