(* ===== verification/LogStreamer.v ===== *)
(** * Log streams of a container

    executor/depot/log_streamer: the streamers of a container ([New], and [WithSource]
    for each action) share the tags and one rate limiter.  Every message that
    stream_destination.go cuts (LogStream.v) passes the limiter and is sent with the
    name of its source and the tags.  The clock and the tokens of the buckets of
    golang.org/x/time/rate, one answer for each call of [Limit], are the argument
    [env]. *)
From Stdlib Require Import ZArith Lia Ascii.
From Stdlib Require String.
From S2P Require Import Prelude Float64 GoStd Executor LogStream.

(** ** log_rate_limiter.go *)

Record logRateLimiter := mkLimiter {
  maxLogLinesPerSecond : Z;
  maxLogBytesPerSecond : Z;
  logMetricsEmitInterval : Z;
  lastOverage : Z;
  bytesEmittedLastInterval : Z }.

Definition newLogRateLimiter (now maxLogLinesPerSecond maxLogBytesPerSecond logMetricsEmitInterval : Z) : logRateLimiter :=
  mkLimiter maxLogLinesPerSecond maxLogBytesPerSecond logMetricsEmitInterval (now - Second) 0.

(** The calls of the metron client. *)
Inductive call :=
| SendAppLog (message : bytes) (sourceName : string) (tags : gmap string string)
| SendAppErrorLog (message : bytes) (sourceName : string) (tags : gmap string string)
| IncrementCounter (name : string)
| SendAppLogRate (rate limit : float64) (tags : gmap string string).

(** What a call of [Limit] meets: the time when it starts, whether the bucket of bytes
    holds tokens for a message, whether the bucket of lines holds one, and the time
    after a report. *)
Record LimitEnv := mkLimitEnv {
  le_now : Z;
  le_bytes : Z -> bool;
  le_line : bool;
  le_after : Z }.

Definition text_bytes (s : string) : bytes := N_of_ascii <$> String.list_ascii_of_string s.

Definition AppInstanceExceededLogRateLimitCount : string := "AppInstanceExceededLogRateLimitCount".

Definition bytes_message (r : logRateLimiter) : string :=
  "app instance exceeded log rate limit (" +:+ strconv_Itoa (maxLogBytesPerSecond r) +:+ " bytes/sec)".
Definition lines_message (r : logRateLimiter) : string :=
  "app instance exceeded log rate limit (" +:+ strconv_Itoa (maxLogLinesPerSecond r) +:+ " log-lines/sec) set by platform operator".

Definition reportOverlimit (sourceName reportMessage : string) (tags : gmap string string) : list call :=
  [IncrementCounter AppInstanceExceededLogRateLimitCount; SendAppLog (text_bytes reportMessage) sourceName tags].

(** [AllowN] of the two limiters: a limiter with an infinite rate allows everything,
    another one nothing that is larger than its burst. *)
Definition bytes_AllowN (e : LimitEnv) (r : logRateLimiter) (n : Z) : bool :=
  if (-1 <? maxLogBytesPerSecond r)%Z then (n <=? maxLogBytesPerSecond r)%Z && le_bytes e n else true.
Definition lines_Allow (e : LimitEnv) (r : logRateLimiter) : bool :=
  if (0 <? maxLogLinesPerSecond r)%Z then (1 <=? maxLogLinesPerSecond r)%Z && le_line e else true.

Definition with_lastOverage (r : logRateLimiter) (t : Z) : logRateLimiter :=
  mkLimiter (maxLogLinesPerSecond r) (maxLogBytesPerSecond r) (logMetricsEmitInterval r) t (bytesEmittedLastInterval r).
Definition with_bytesEmitted (r : logRateLimiter) (n : Z) : logRateLimiter :=
  mkLimiter (maxLogLinesPerSecond r) (maxLogBytesPerSecond r) (logMetricsEmitInterval r) (lastOverage r) n.

(** [Limit]: the error, the limiter, and the calls of the report. *)
Definition Limit (e : LimitEnv) (tags : gmap string string) (r : logRateLimiter) (sourceName : string) (logLength : Z) :
    option string * logRateLimiter * list call :=
  if (maxLogBytesPerSecond r =? 0)%Z then (Some "Not allowed to log", r, [])
  else if (le_now e <? lastOverage r + Second)%Z then (Some "timeout for overage", r, [])
  else if negb (bytes_AllowN e r logLength) then
    (Some (bytes_message r), with_lastOverage r (le_after e), reportOverlimit sourceName (bytes_message r) tags)
  else if negb (lines_Allow e r) then
    (Some (lines_message r), with_lastOverage r (le_after e), reportOverlimit sourceName (lines_message r) tags)
  else (None, with_bytesEmitted r (u64 (bytesEmittedLastInterval r + u64 logLength)), []).

(** [Duration.Seconds] *)
Definition Duration_Seconds (d : Z) : float64 :=
  fadd (of_int (Z.quot d Second)) (fdiv (of_int (Z.rem d Second)) (of_int Second)).

(** A tick of [emitMetrics]. *)
Definition emit_tick (tags : gmap string string) (r : logRateLimiter) : logRateLimiter * call :=
  (with_bytesEmitted r 0,
   SendAppLogRate (fdiv (of_int (bytesEmittedLastInterval r)) (Duration_Seconds (logMetricsEmitInterval r)))
     (of_int (maxLogBytesPerSecond r)) tags).

(** ** Destinations and streamers *)

Inductive Log_Type := Log_OUT | Log_ERR.

Record streamDestination := mkDestination {
  sd_sourceName : string;
  sd_messageType : Log_Type;
  sd_buffer : bytes }.

Definition newStreamDestination (sourceName : string) (messageType : Log_Type) : streamDestination :=
  mkDestination sourceName messageType [].
Definition withSource (d : streamDestination) (sourceName : string) : streamDestination :=
  mkDestination sourceName (sd_messageType d) [].

Record logStreamer := mkStreamer { ls_stdout : streamDestination; ls_stderr : streamDestination }.

Definition SourceName (e : logStreamer) : string := sd_sourceName (ls_stdout e).
Definition destination (e : logStreamer) (t : Log_Type) : streamDestination :=
  match t with Log_OUT => ls_stdout e | Log_ERR => ls_stderr e end.
Definition with_buffer (e : logStreamer) (t : Log_Type) (b : bytes) : logStreamer :=
  match t with
  | Log_OUT => mkStreamer (mkDestination (sd_sourceName (ls_stdout e)) (sd_messageType (ls_stdout e)) b) (ls_stderr e)
  | Log_ERR => mkStreamer (ls_stdout e) (mkDestination (sd_sourceName (ls_stderr e)) (sd_messageType (ls_stderr e)) b)
  end.

Definition WithSource (e : logStreamer) (sourceName : string) : logStreamer :=
  let sourceName := if decide (sourceName = "") then SourceName e else sourceName in
  mkStreamer (withSource (ls_stdout e) sourceName) (withSource (ls_stderr e) sourceName).

(** bbs/models [GetSourceNameAndTagsForLogging] *)
Definition GetSourceNameAndTagsForLogging (l : LogConfig) : string * gmap string string :=
  let sourceName := if decide (log_SourceName l = "") then "LOG" else log_SourceName l in
  let tags := default ∅ (log_Tags l) in
  let tags := match tags !! "source_id" with Some _ => tags | None => <["source_id" := log_Guid l]> tags end in
  let tags := match tags !! "instance_id" with Some _ => tags | None => <["instance_id" := strconv_Itoa (log_Index l)]> tags end in
  (sourceName, tags).

(** ** The logs of a container

    The trace has an entry for each message that was flushed, with the error of [Limit]
    and the calls that were made, and one for each report of the rate. *)
Inductive entry :=
| Flushed (stream : nat) (t : Log_Type) (message : bytes) (at_call : nat) (err : option string) (calls : list call)
| Rate (c : call).

Record logs := mkLogs {
  lg_streams : list logStreamer;
  lg_tags : gmap string string;
  lg_limiter : logRateLimiter;
  lg_calls : nat;
  lg_stopped : bool;
  lg_trace : list entry }.

(** [New]; the streamer of a configuration without a guid does nothing. *)
Definition New (now : Z) (config : LogConfig) (maxLogLinesPerSecond maxLogBytesPerSecond metricReportInterval : Z) : option logs :=
  if decide (log_Guid config = "") then None
  else
    let '(sourceName, tags) := GetSourceNameAndTagsForLogging config in
    Some (mkLogs [mkStreamer (newStreamDestination sourceName Log_OUT) (newStreamDestination sourceName Log_ERR)] tags
      (newLogRateLimiter now maxLogLinesPerSecond maxLogBytesPerSecond metricReportInterval) 0 false []).

Inductive op :=
| Write (stream : nat) (t : Log_Type) (data : bytes)
| Flush (stream : nat)
| MakeSource (stream : nat) (sourceName : string)
| UpdateTags (tags : gmap string string)
| Stop (stream : nat)
| Tick.

Section Logs.
Variable env : nat -> LimitEnv.

Definition send (t : Log_Type) (msg : bytes) (sourceName : string) (tags : gmap string string) : call :=
  match t with Log_OUT => SendAppLog msg sourceName tags | Log_ERR => SendAppErrorLog msg sourceName tags end.

(** The second part of [flush], for a message that was taken from the buffer. *)
Definition deliver (stream : nat) (d : streamDestination) (w : logs) (msg : bytes) : logs :=
  let k := lg_calls w in
  let '(err, limiter, report) := Limit (env k) (lg_tags w) (lg_limiter w) (sd_sourceName d) (Z.of_nat (length msg)) in
  let calls := match err with Some _ => report | None => report ++ [send (sd_messageType d) msg (sd_sourceName d) (lg_tags w)] end in
  mkLogs (lg_streams w) (lg_tags w) limiter (S k) (lg_stopped w) (lg_trace w ++ [Flushed stream (sd_messageType d) msg k err calls]).

Definition set_buffer (stream : nat) (t : Log_Type) (b : bytes) (w : logs) : logs :=
  mkLogs (alter (fun e => with_buffer e t b) stream (lg_streams w)) (lg_tags w) (lg_limiter w) (lg_calls w) (lg_stopped w) (lg_trace w).

(** [streamDestination.Write] and [lockAndFlush]. *)
Definition write (stream : nat) (t : Log_Type) (data : bytes) (w : logs) : option logs :=
  e ← lg_streams w !! stream;
  '(b, msgs) ← processMessage (sd_buffer (destination e t)) data;
  Some (set_buffer stream t b (foldl (deliver stream (destination e t)) w msgs)).
Definition lockAndFlush (stream : nat) (t : Log_Type) (w : logs) : option logs :=
  e ← lg_streams w !! stream;
  Some (set_buffer stream t [] (foldl (deliver stream (destination e t)) w (flush (sd_buffer (destination e t))))).

Definition exec (w : logs) (o : op) : option logs :=
  match o with
  | Write stream t data => write stream t data w
  | Flush stream => w ← lockAndFlush stream Log_OUT w; lockAndFlush stream Log_ERR w
  | MakeSource stream sourceName =>
      e ← lg_streams w !! stream;
      Some (mkLogs (lg_streams w ++ [WithSource e sourceName]) (lg_tags w) (lg_limiter w) (lg_calls w) (lg_stopped w) (lg_trace w))
  | UpdateTags tags => Some (mkLogs (lg_streams w) tags (lg_limiter w) (lg_calls w) (lg_stopped w) (lg_trace w))
  | Stop stream =>
      (* only the streamer that New made has the context of the limiter *)
      Some (mkLogs (lg_streams w) (lg_tags w) (lg_limiter w) (lg_calls w) (lg_stopped w || (stream =? 0)%nat) (lg_trace w))
  | Tick =>
      if lg_stopped w || (logMetricsEmitInterval (lg_limiter w) <=? 0)%Z then Some w
      else
        let '(limiter, c) := emit_tick (lg_tags w) (lg_limiter w) in
        Some (mkLogs (lg_streams w) (lg_tags w) limiter (lg_calls w) (lg_stopped w) (lg_trace w ++ [Rate c]))
  end.

Fixpoint run (w : logs) (ops : list op) : option logs :=
  match ops with [] => Some w | o :: ops => w ← exec w o; run w ops end.
End Logs.

(** ** What was written

    The segments of a stream that ended, by the end of a line or a flush, and the open
    one. *)
Definition write_text (s : list bytes * bytes) (data : bytes) : list bytes * bytes :=
  match split_lines data with
  | ([], rest) => (s.1, s.2 ++ rest)
  | (l :: lines, rest) => (s.1 ++ (s.2 ++ l) :: lines, rest)
  end.

#[global] Instance log_type_eq_dec : EqDecision Log_Type.
Proof. solve_decision. Defined.

Definition segments_step (stream : nat) (t : Log_Type) (s : list bytes * bytes) (o : op) : list bytes * bytes :=
  match o with
  | Write i t' data => if decide (i = stream /\ t' = t) then write_text s data else s
  | Flush i => if decide (i = stream) then (s.1 ++ [s.2], []) else s
  | _ => s
  end.
Definition segments (stream : nat) (t : Log_Type) (ops : list op) : list bytes * bytes := foldl (segments_step stream t) ([], []) ops.

(** The operations use the streamers that exist. *)
Definition op_valid (n : nat) (o : op) : bool :=
  match o with Write i _ _ | Flush i | MakeSource i _ | Stop i => (i <? n)%nat | UpdateTags _ | Tick => true end.
Fixpoint ops_valid (n : nat) (ops : list op) : bool :=
  match ops with
  | [] => true
  | o :: ops => op_valid n o && ops_valid (match o with MakeSource _ _ => S n | _ => n end) ops
  end.

Definition writes_text (o : op) : Prop := match o with Write _ _ data => utf8 data | _ => True end.

(** The messages of a stream, in order. *)
Definition entry_message (stream : nat) (t : Log_Type) (e : entry) : list bytes :=
  match e with Flushed i t' m _ _ _ => if decide (i = stream /\ t' = t) then [m] else [] | Rate _ => [] end.
Definition messages (stream : nat) (t : Log_Type) (trace : list entry) : list bytes := trace ≫= entry_message stream t.

(** The messages are the segments, cut. *)
Definition delivered (closed : list bytes) (open : bytes) (msgs : list bytes) (buffer : bytes) : Prop :=
  exists groups last,
    msgs = concat groups ++ last /\ cut open last buffer /\
    Forall2 (fun seg g => exists ms m, g = ms ++ flush m /\ cut seg ms m) closed groups.

Lemma cut_nil (b : bytes) : (length b <= MAX_MESSAGE_SIZE)%nat -> cut b [] b.
Proof. intros Hb. by split_and!; [|constructor|]. Qed.

Lemma cut_empty : cut [] [] [].
Proof. apply cut_nil. cbn. lia. Qed.

Lemma delivered_init : delivered [] [] [] [].
Proof. exists [], []. split_and!; [done|apply cut_empty|constructor]. Qed.

Lemma delivered_close (closed : list bytes) (open l : bytes) (msgs ms : list bytes) (buffer b : bytes) :
  delivered closed open msgs buffer -> cut (buffer ++ l) ms b -> delivered (closed ++ [open ++ l]) [] (msgs ++ ms ++ flush b) [].
Proof.
  intros (groups & last & -> & Hc & Hg) Hl. exists (groups ++ [last ++ ms ++ flush b]), [].
  split_and!; [by rewrite concat_app; cbn; rewrite !app_nil_r, <- !app_assoc|apply cut_empty|].
  apply Forall2_app; [done|]. constructor; [|constructor]. exists (last ++ ms), b. split; [by rewrite app_assoc|].
  by eapply cut_app.
Qed.

Lemma delivered_more (closed : list bytes) (open l : bytes) (msgs ms : list bytes) (buffer b : bytes) :
  delivered closed open msgs buffer -> cut (buffer ++ l) ms b -> delivered closed (open ++ l) (msgs ++ ms) b.
Proof.
  intros (groups & last & -> & Hc & Hg) Hl. exists groups, (last ++ ms).
  split_and!; [by rewrite app_assoc|by eapply cut_app|done].
Qed.

Lemma delivered_buffer closed open msgs buffer : delivered closed open msgs buffer -> (length buffer <= MAX_MESSAGE_SIZE)%nat.
Proof. by intros (groups & last & _ & (_ & _ & Hb) & _). Qed.

(** The state of a stream; [P] says that what was written is text. *)
Definition stream_ok (P : Prop) (s : list bytes * bytes) (msgs : list bytes) (buffer : bytes) : Prop :=
  delivered s.1 s.2 msgs buffer /\ (P -> Forall utf8 msgs /\ utf8 buffer).

Lemma stream_close (P : Prop) closed open msgs buffer (l : bytes) :
  stream_ok P (closed, open) msgs buffer -> (P -> utf8 l) ->
  exists m, processString buffer l true = Some ([], m) /\ stream_ok P (closed ++ [open ++ l], []) (msgs ++ m) [].
Proof.
  intros [Hd Hu] Hl. destruct (processString_line buffer l (delivered_buffer _ _ _ _ Hd)) as (b & ms & -> & Hc & Hm).
  exists (ms ++ flush b). split; [done|]. split; [by eapply delivered_close|]. intros HP. destruct (Hu HP) as [Hmsgs Hb].
  split; [|constructor]. apply Forall_app. split; [done|]. apply Hm; auto.
Qed.

Lemma feed_ok (P : Prop) (lines : list bytes) (rest : bytes) closed msgs (buffer open : bytes) :
  stream_ok P (closed, open) msgs buffer -> (P -> Forall utf8 lines /\ utf8 rest) ->
  exists b m, feed buffer lines rest = Some (b, m) /\
    stream_ok P (match lines with [] => (closed, open ++ rest) | l :: lines => (closed ++ (open ++ l) :: lines, rest) end) (msgs ++ m) b.
Proof.
  revert closed msgs buffer open. induction lines as [|l lines IH]; intros closed msgs buffer open Hs Hp; cbn [feed].
  - destruct rest as [|c rest]; [by exists buffer, []; rewrite !app_nil_r|]. destruct Hs as [Hd Hu].
    destruct (processString_open buffer (c :: rest) (delivered_buffer _ _ _ _ Hd)) as (b & ms & -> & Hc & Hm).
    exists b, ms. split; [done|]. split; [by eapply delivered_more|]. intros HP. destruct (Hu HP), (Hp HP), Hm; auto. by split; [apply Forall_app|].
  - destruct (stream_close P closed open msgs buffer l Hs) as (m & -> & Hs').
    { intros HP. destruct (Hp HP) as [Hf _]. by inversion Hf. }
    cbn. destruct (IH _ _ _ _ Hs') as (b & ms & -> & Hs'').
    { intros HP. destruct (Hp HP) as [Hf ?]. by inversion Hf. }
    cbn. exists b, (m ++ ms). split; [done|]. rewrite app_assoc. destruct lines; [done|]. by rewrite <- app_assoc in Hs''.
Qed.

Lemma processMessage_ok (P : Prop) s msgs (buffer data : bytes) :
  stream_ok P s msgs buffer -> (P -> utf8 data) ->
  exists b m, processMessage buffer data = Some (b, m) /\ stream_ok P (write_text s data) (msgs ++ m) b.
Proof.
  intros Hs Hd. rewrite processMessage_feed. unfold write_text. destruct s as [closed open]. pose proof (split_lines_utf8 data) as Hu.
  destruct (split_lines data) as [lines rest]. apply (feed_ok P lines rest); auto.
Qed.

Lemma flush_ok (P : Prop) s msgs (buffer : bytes) :
  stream_ok P s msgs buffer -> stream_ok P (s.1 ++ [s.2], []) (msgs ++ flush buffer) [].
Proof.
  destruct s as [closed open]. intros [Hd Hu]. split.
  - pose proof (delivered_close _ _ [] _ [] _ buffer Hd) as Hc. rewrite !app_nil_r in Hc. apply Hc, cut_nil. by eapply delivered_buffer.
  - intros HP. destruct (Hu HP). split; [|constructor]. apply Forall_app. split; [done|]. destruct buffer; by repeat constructor.
Qed.

(** ** Runs *)

Definition same_type (e : logStreamer) : Prop := forall t, sd_messageType (destination e t) = t.

Lemma with_buffer_type e t b : same_type e -> same_type (with_buffer e t b).
Proof. intros He t'. specialize (He t'). by destruct t, t'. Qed.

Lemma with_buffer_same e t b : sd_buffer (destination (with_buffer e t b) t) = b.
Proof. by destruct t. Qed.

Lemma with_buffer_other e t t' b : t <> t' -> destination (with_buffer e t b) t' = destination e t'.
Proof. by destruct t, t'. Qed.

Lemma with_buffer_name e t t' b : sd_sourceName (destination (with_buffer e t b) t') = sd_sourceName (destination e t').
Proof. by destruct t, t'. Qed.

(** The invariant: every stream has what its segments say. *)
Record logs_ok (P : Prop) (S : nat -> Log_Type -> list bytes * bytes) (w : logs) : Prop := mkLogsOk {
  lo_live : forall i t e, lg_streams w !! i = Some e ->
    same_type e /\ stream_ok P (S i t) (messages i t (lg_trace w)) (sd_buffer (destination e t));
  lo_none : forall i t, lg_streams w !! i = None -> S i t = ([], []) /\ messages i t (lg_trace w) = [] }.

Lemma messages_app i t a b : messages i t (a ++ b) = messages i t a ++ messages i t b.
Proof. apply bind_app. Qed.

Section Runs.
Variable env : nat -> LimitEnv.

(** Delivering appends one entry for each message. *)
Lemma deliver_trace i d msgs w :
  let w' := foldl (deliver env i d) w msgs in
  lg_streams w' = lg_streams w /\ lg_tags w' = lg_tags w /\ lg_stopped w' = lg_stopped w /\
  forall j t, messages j t (lg_trace w') =
    messages j t (lg_trace w) ++ (if decide (i = j /\ sd_messageType d = t) then msgs else []).
Proof.
  cbn zeta. revert w. induction msgs as [|m msgs IH]; intros w; cbn [foldl].
  { split_and!; try done. intros j t. destruct (decide _); by rewrite app_nil_r. }
  destruct (IH (deliver env i d w m)) as (-> & -> & -> & Hm). unfold deliver in *.
  destruct (Limit _ _ _ _ _) as [[err limiter] report]. cbn [lg_streams lg_tags lg_stopped lg_trace] in *. split_and!; try done.
  intros j t. rewrite Hm, messages_app, <- app_assoc. f_equal. cbn. rewrite app_nil_r. by destruct (decide _).
Qed.

(** A step of one destination. *)
Lemma destination_step P S w i t e b msgs s' :
  logs_ok P S w -> lg_streams w !! i = Some e ->
  stream_ok P s' (messages i t (lg_trace w) ++ msgs) b ->
  logs_ok P (fun j t' => if decide (i = j /\ t = t') then s' else S j t')
    (set_buffer i t b (foldl (deliver env i (destination e t)) w msgs)).
Proof.
  intros [Hl Hn] He Hs. destruct (deliver_trace i (destination e t) msgs w) as (Hst & _ & _ & Hm).
  destruct (Hl i t e He) as [Hty _]. specialize (Hty t). rewrite Hty in Hm.
  split; cbn [set_buffer lg_streams lg_trace]; rewrite Hst; intros j t'; [intros e'|]; rewrite Hm; destruct (decide (i = j)) as [<-|Hij].
  - rewrite list_lookup_alter_eq, He. cbn. intros [= <-]. destruct (Hl i t' e He) as [Hty' Hs']. split; [by apply with_buffer_type|].
    destruct (decide (t = t')) as [<-|Ht]; [rewrite !decide_True, with_buffer_same by done; done|].
    rewrite !decide_False by naive_solver. rewrite app_nil_r, with_buffer_other by done. done.
  - rewrite list_lookup_alter_ne by done. intros He'. rewrite !decide_False by naive_solver. rewrite app_nil_r. by apply Hl.
  - rewrite list_lookup_alter_eq, He. done.
  - rewrite list_lookup_alter_ne by done. intros Hnone. rewrite !decide_False by naive_solver. rewrite app_nil_r. by apply Hn.
Qed.

Lemma logs_ok_ext P S S' w : (forall i t, S i t = S' i t) -> logs_ok P S w -> logs_ok P S' w.
Proof. intros Heq [Hl Hn]. split; intros; rewrite <- Heq; auto. Qed.

Lemma lockAndFlush_ok P S w i t e :
  logs_ok P S w -> lg_streams w !! i = Some e ->
  exists w', lockAndFlush env i t w = Some w' /\ length (lg_streams w') = length (lg_streams w) /\
    logs_ok P (fun j t' => if decide (i = j /\ t = t') then ((S i t).1 ++ [(S i t).2], []) else S j t') w'.
Proof.
  intros Hok He. unfold lockAndFlush. rewrite He. cbn. eexists. split; [done|]. split.
  { cbn. rewrite length_alter. by destruct (deliver_trace i (destination e t) (flush (sd_buffer (destination e t))) w) as (-> & _). }
  apply destination_step; [done|done|]. apply flush_ok. by apply (lo_live _ _ _ Hok).
Qed.

Lemma exec_ok (P : Prop) S w o :
  logs_ok P S w -> op_valid (length (lg_streams w)) o = true -> (P -> writes_text o) ->
  exists w', exec env w o = Some w' /\
    length (lg_streams w') = (match o with MakeSource _ _ => Datatypes.S (length (lg_streams w)) | _ => length (lg_streams w) end) /\
    logs_ok P (fun i t => segments_step i t (S i t) o) w'.
Proof.
  intros Hok Hv Ht. destruct o as [i t data|i|i name|tags|i|]; cbn [op_valid exec] in *.
  - apply Nat.ltb_lt, lookup_lt_is_Some in Hv as [e He]. unfold write. rewrite He. cbn [option_bind mbind].
    destruct (lo_live _ _ _ Hok i t e He) as [_ Hs]. destruct (processMessage_ok P _ _ _ data Hs Ht) as (b & m & -> & Hs').
    eexists. split; [done|]. split.
    { cbn. rewrite length_alter. by destruct (deliver_trace i (destination e t) m w) as (-> & _). }
    eapply logs_ok_ext; [|by apply destination_step]. intros j t'. cbn. destruct (decide _) as [[<- <-]|]; [done|done].
  - apply Nat.ltb_lt, lookup_lt_is_Some in Hv as [e He].
    destruct (lockAndFlush_ok P S w i Log_OUT e Hok He) as (w1 & -> & Hlen & Hok1). cbn [option_bind mbind].
    assert (is_Some (lg_streams w1 !! i)) as [e1 He1] by (apply lookup_lt_is_Some; rewrite Hlen; by eapply lookup_lt_Some).
    destruct (lockAndFlush_ok P _ w1 i Log_ERR e1 Hok1 He1) as (w2 & -> & Hlen2 & Hok2).
    eexists. split; [done|]. split; [congruence|]. eapply logs_ok_ext; [|exact Hok2]. intros j t'. cbn.
    destruct t'; repeat case_decide; naive_solver.
  - apply Nat.ltb_lt, lookup_lt_is_Some in Hv as [e He]. rewrite He. cbn. eexists. split; [done|].
    cbn [lg_streams]. rewrite length_app, Nat.add_1_r. split; [done|]. destruct Hok as [Hl Hn]. split; cbn [lg_streams lg_trace]; intros j t'.
    + intros e'. rewrite lookup_app_Some. intros [He'|[Hge He']]; [by apply Hl|].
      apply lookup_ge_None in Hge. destruct (Hn j t' Hge) as [-> ->]. apply list_lookup_singleton_Some in He' as [_ <-].
      destruct (Hl i t' e He) as [Hty _]. split; [intros t''; specialize (Hty t''); by destruct t''|]. destruct t'; (split; [apply delivered_init|]; intros _; split; constructor).
    + rewrite lookup_ge_None, length_app. intros Hge. apply Hn, lookup_ge_None. cbn in Hge. lia.
  - eexists. split; [done|]. split; [done|]. by destruct Hok as [Hl Hn]; split.
  - eexists. split; [done|]. split; [done|]. by destruct Hok as [Hl Hn]; split.
  - destruct (_ || _); [by exists w|]. cbn. eexists. split; [done|]. split; [done|].
    destruct Hok as [Hl Hn]. split; cbn [lg_streams lg_trace]; intros; rewrite messages_app; cbn; rewrite app_nil_r; auto.
Qed.

Lemma run_ok (P : Prop) ops S w :
  logs_ok P S w -> ops_valid (length (lg_streams w)) ops = true -> (P -> Forall writes_text ops) ->
  exists w', run env w ops = Some w' /\ logs_ok P (fun i t => foldl (segments_step i t) (S i t) ops) w'.
Proof.
  revert S w. induction ops as [|o ops IH]; intros S w Hok Hv Ht; cbn [run foldl ops_valid] in *; [by exists w|].
  apply andb_true_iff in Hv as [Hv Hvs]. destruct (exec_ok P S w o Hok Hv) as (w1 & -> & Hlen & Hok1).
  { intros HP. specialize (Ht HP). by inversion Ht. }
  cbn. apply (IH _ w1 Hok1); [rewrite Hlen; by destruct o|]. intros HP. specialize (Ht HP). by inversion Ht.
Qed.

(** What holds of every delivery and of every other change holds of every run. *)
Section Invariant.
Variable I : logs -> Prop.
Hypothesis I_deliver : forall i e t w m,
  I w -> lg_streams w !! i = Some e -> I (deliver env i (destination e t) w m).
Hypothesis I_buffer : forall i t b w, I w -> I (set_buffer i t b w).
Hypothesis I_streams : forall w i e name, I w -> lg_streams w !! i = Some e ->
  I (mkLogs (lg_streams w ++ [WithSource e name]) (lg_tags w) (lg_limiter w) (lg_calls w) (lg_stopped w) (lg_trace w)).
Hypothesis I_tags : forall w tags stopped, I w ->
  I (mkLogs (lg_streams w) tags (lg_limiter w) (lg_calls w) stopped (lg_trace w)).
Hypothesis I_tick : forall w, I w ->
  I (mkLogs (lg_streams w) (lg_tags w) (emit_tick (lg_tags w) (lg_limiter w)).1 (lg_calls w) (lg_stopped w)
       (lg_trace w ++ [Rate (emit_tick (lg_tags w) (lg_limiter w)).2])).

Lemma delivers_inv i e t msgs w :
  I w -> lg_streams w !! i = Some e -> I (foldl (deliver env i (destination e t)) w msgs).
Proof.
  revert w. induction msgs as [|m msgs IH]; intros w Hw He; cbn; [done|]. apply IH; [by apply I_deliver|].
  unfold deliver. by destruct (Limit _ _ _ _ _) as [[? ?] ?].
Qed.

Lemma lockAndFlush_inv i t w w' : I w -> lockAndFlush env i t w = Some w' -> I w'.
Proof.
  intros Hw. unfold lockAndFlush. destruct (lg_streams w !! i) as [e|] eqn:He; [|done]. intros [= <-]. by apply I_buffer, delivers_inv.
Qed.

Lemma run_inv ops w w' : I w -> run env w ops = Some w' -> I w'.
Proof.
  revert w. induction ops as [|o ops IH]; intros w Hw; cbn [run]; [by intros [= <-]|].
  destruct (exec env w o) as [w1|] eqn:Ho; [cbn|done]. apply IH. destruct o as [i t data|i|i name|tags|i|]; cbn [exec] in Ho.
  - unfold write in Ho. destruct (lg_streams w !! i) as [e|] eqn:He; [|done]. cbn in Ho.
    destruct (processMessage _ _) as [[b msgs]|]; [|done]. injection Ho as <-. by apply I_buffer, delivers_inv.
  - destruct (lockAndFlush env i Log_OUT w) as [w2|] eqn:H1; [|done]. cbn in Ho.
    eapply lockAndFlush_inv; [|exact Ho]. by eapply lockAndFlush_inv.
  - destruct (lg_streams w !! i) eqn:He; [|done]. injection Ho as <-. by eapply I_streams.
  - injection Ho as <-. by apply I_tags.
  - injection Ho as <-. by apply I_tags.
  - destruct (_ || _); [by injection Ho as <-|]. injection Ho as <-. by apply I_tick.
Qed.
End Invariant.

(** ** Limits *)

(** The bytes that were sent since the last report of the rate. *)
Definition emitted (trace : list entry) : Z :=
  foldl (fun n e => match e with Rate _ => 0%Z | Flushed _ _ m _ None _ => (n + Z.of_nat (length m))%Z | Flushed _ _ _ _ (Some _) _ => n end) 0%Z trace.

(** An entry is a message that was sent, from the source of its stream; or one that
    was dropped, with a report or without a word. *)
Definition entry_ok (streams : list logStreamer) (lines bytes : Z) (e : entry) : Prop :=
  match e with
  | Rate c => exists r l tags, c = SendAppLogRate r l tags
  | Flushed i t m k None calls =>
      bytes <> 0%Z /\ ((-1 < bytes)%Z -> (Z.of_nat (length m) <= bytes)%Z) /\
      exists s tags, streams !! i = Some s /\ calls = [send t m (sd_sourceName (destination s t)) tags]
  | Flushed i t m k (Some err) calls =>
      (0 <= bytes \/ 0 < lines)%Z /\
      (calls = [] \/ bytes <> 0%Z /\ exists s tags, streams !! i = Some s /\ calls = reportOverlimit (sd_sourceName (destination s t)) err tags)
  end.

Definition speaks (e : entry) (k : nat) : Prop := match e with Flushed _ _ _ k' _ calls => k' = k /\ calls <> [] | Rate _ => False end.
Definition reports (e : entry) (k : nat) : Prop :=
  match e with Flushed _ _ _ k' (Some _) calls => k' = k /\ calls <> [] | _ => False end.

Definition same_names (streams streams' : list logStreamer) : Prop :=
  forall i s, streams !! i = Some s -> exists s', streams' !! i = Some s' /\ forall t, sd_sourceName (destination s' t) = sd_sourceName (destination s t).

Lemma entry_ok_names streams streams' lines bytes e : same_names streams streams' -> entry_ok streams lines bytes e -> entry_ok streams' lines bytes e.
Proof.
  intros Hn. destruct e as [i t m k [err|] calls|c]; cbn; [| |done].
  - intros [Hl [->|(Hb & s & tags & Hs & ->)]]; (split; [done|]); [by left|right]. destruct (Hn i s Hs) as (s' & Hs' & Ht).
    split; [done|]. exists s', tags. by rewrite Ht.
  - intros (Hb & Hm & s & tags & Hs & ->). destruct (Hn i s Hs) as (s' & Hs' & Ht). split_and!; [done|done|]. exists s', tags. by rewrite Ht.
Qed.

Section Limits.
Context (start lines bytes : Z).
Hypothesis clock : forall k, (start <= le_now (env k) <= le_after (env k))%Z.

Definition silent (trace : list entry) : Prop :=
  forall a b ea eb k k', (a < b)%nat -> trace !! a = Some ea -> trace !! b = Some eb -> reports ea k -> speaks eb k' ->
    (le_after (env k) + Second <= le_now (env k'))%Z.

Record limits_inv (w : logs) : Prop := mkLimitsInv {
  li_lines : maxLogLinesPerSecond (lg_limiter w) = lines;
  li_bytes : maxLogBytesPerSecond (lg_limiter w) = bytes;
  li_start : lastOverage (lg_limiter w) = (start - Second)%Z \/ (0 <= bytes \/ 0 < lines)%Z;
  li_types : Forall same_type (lg_streams w);
  li_entries : Forall (entry_ok (lg_streams w) lines bytes) (lg_trace w);
  li_last : forall e k, e ∈ lg_trace w -> reports e k -> (le_after (env k) <= lastOverage (lg_limiter w))%Z;
  li_silent : silent (lg_trace w);
  li_emitted : bytesEmittedLastInterval (lg_limiter w) = u64 (emitted (lg_trace w)) }.

Lemma silent_snoc trace e last :
  silent trace -> (forall e k, e ∈ trace -> reports e k -> (le_after (env k) <= last)%Z) ->
  (forall k, speaks e k -> (last + Second <= le_now (env k))%Z) -> silent (trace ++ [e]).
Proof.
  intros Hs Hl He a b ea eb k k' Hab Ha Hb Hr Hsp. apply lookup_app_Some in Hb as [Hb|[Hge Hb]].
  - rewrite lookup_app_l in Ha by (apply lookup_lt_Some in Hb; lia). by eapply (Hs a b).
  - apply list_lookup_singleton_Some in Hb as [Hb <-]. rewrite lookup_app_l in Ha by lia.
    specialize (He k' Hsp). specialize (Hl ea k (list_elem_of_lookup_2 _ _ _ Ha) Hr). lia.
Qed.

Lemma emitted_snoc trace e : emitted (trace ++ [e]) =
  match e with Rate _ => 0%Z | Flushed _ _ m _ None _ => (emitted trace + Z.of_nat (length m))%Z | Flushed _ _ _ _ (Some _) _ => emitted trace end.
Proof. unfold emitted. by rewrite foldl_app. Qed.

(** What [Limit] decides. *)
Lemma Limit_spec e tags r name n err r' calls :
  Limit e tags r name n = (err, r', calls) ->
  maxLogLinesPerSecond r' = maxLogLinesPerSecond r /\ maxLogBytesPerSecond r' = maxLogBytesPerSecond r /\
  match err with
  | None => calls = [] /\ maxLogBytesPerSecond r <> 0%Z /\ ((-1 < maxLogBytesPerSecond r)%Z -> (n <= maxLogBytesPerSecond r)%Z) /\
      (lastOverage r + Second <= le_now e)%Z /\ lastOverage r' = lastOverage r /\
      bytesEmittedLastInterval r' = u64 (bytesEmittedLastInterval r + u64 n)
  | Some err =>
      bytesEmittedLastInterval r' = bytesEmittedLastInterval r /\
      ((calls = [] /\ r' = r /\ (maxLogBytesPerSecond r = 0 \/ le_now e < lastOverage r + Second)%Z) \/
       (calls = reportOverlimit name err tags /\ maxLogBytesPerSecond r <> 0%Z /\ (0 <= maxLogBytesPerSecond r \/ 0 < maxLogLinesPerSecond r)%Z /\
        (lastOverage r + Second <= le_now e)%Z /\ lastOverage r' = le_after e))
  end.
Proof.
  unfold Limit, bytes_AllowN, lines_Allow. destruct (Z.eqb_spec (maxLogBytesPerSecond r) 0); [intros [= <- <- <-]; naive_solver|].
  destruct (Z.ltb_spec (le_now e) (lastOverage r + Second)); [intros [= <- <- <-]; naive_solver|].
  destruct (Z.ltb_spec (-1) (maxLogBytesPerSecond r)) as [Hb|Hb]; [destruct (Z.leb_spec n (maxLogBytesPerSecond r)) as [Hle|Hgt]; [destruct (le_bytes e n)|]|]; cbn [negb andb];
    [|intros [= <- <- <-]; cbn; split_and!; try done; right; split_and!; (done || lia)..|];
    (destruct (Z.ltb_spec 0 (maxLogLinesPerSecond r)); [destruct (_ <=? _)%Z, (le_line e)|]; cbn [negb andb]; intros [= <- <- <-]; cbn;
     split_and!; try done; try lia; right; split_and!; (done || lia)).
Qed.

Lemma same_names_refl streams : same_names streams streams.
Proof. intros i s Hs. by exists s. Qed.

Lemma deliver_limits i e t w m : limits_inv w -> lg_streams w !! i = Some e -> limits_inv (deliver env i (destination e t) w m).
Proof.
  intros [Hli Hby Hst Hty Hen Hla Hsi Hem] He. pose proof (proj1 (Forall_lookup _ _) Hty i e He t) as Ht.
  unfold deliver. rewrite Ht. destruct (Limit _ _ _ _ _) as [[err r'] calls] eqn:HL. apply Limit_spec in HL as (H1 & H2 & Hcase).
  pose proof (clock (lg_calls w)) as Hc. destruct err as [err|].
  - destruct Hcase as [Hem' [(-> & -> & Hdrop)|(-> & Hnz & Hlim & Hnow & Hover)]].
    + split; cbn [lg_limiter lg_streams lg_trace]; try done.
      * apply Forall_app. split; [done|]. apply Forall_singleton. split; [|by left]. rewrite Hby in Hdrop. lia.
      * intros e' k. rewrite elem_of_app, list_elem_of_singleton. intros [Hin| ->]; [by apply Hla|by intros [_ ?]].
      * apply (silent_snoc _ _ (lastOverage (lg_limiter w))); [done|done|]. by intros k [_ ?].
      * by rewrite emitted_snoc.
    + split; cbn [lg_limiter lg_streams lg_trace]; try congruence.
      * right. by rewrite <- Hby, <- Hli.
      * apply Forall_app. split; [done|]. apply Forall_singleton. rewrite Hby, Hli in *. split; [done|right]. split; [done|]. by exists e, (lg_tags w).
      * intros e' k. rewrite elem_of_app, list_elem_of_singleton, Hover. intros [Hin| ->]; [|by intros [<- _]].
        intros Hr. specialize (Hla e' k Hin Hr). unfold Second in *. lia.
      * apply (silent_snoc _ _ (lastOverage (lg_limiter w))); [done|done|]. by intros k [<- _].
      * rewrite emitted_snoc. congruence.
  - destruct Hcase as (-> & Hnz & Hfit & Hnow & Hover & Hem'). split; cbn [lg_limiter lg_streams lg_trace]; try congruence.
    + apply Forall_app. split; [done|]. apply Forall_singleton. rewrite Hby in *. split_and!; [done|done|]. by exists e, (lg_tags w).
    + intros e' k. rewrite elem_of_app, list_elem_of_singleton, Hover. intros [Hin| ->]; [by apply Hla|done].
    + apply (silent_snoc _ _ (lastOverage (lg_limiter w))); [done|done|]. by intros k [<- _].
    + rewrite emitted_snoc, Hem', Hem. unfold u64, wrap_unsigned. by rewrite <- Z.add_mod.
Qed.

Lemma streams_limits w streams tags stopped :
  limits_inv w -> same_names (lg_streams w) streams -> Forall same_type streams ->
  limits_inv (mkLogs streams tags (lg_limiter w) (lg_calls w) stopped (lg_trace w)).
Proof.
  intros [Hli Hby Hst Hty Hen Hla Hsi Hem] Hn Ht. split; cbn [lg_limiter lg_streams lg_trace]; try done.
  eapply Forall_impl; [exact Hen|]. intros e. by apply entry_ok_names.
Qed.

Lemma run_limits ops w w' : limits_inv w -> run env w ops = Some w' -> limits_inv w'.
Proof.
  apply run_inv; clear w w'.
  - intros i e t w m. apply deliver_limits.
  - intros i t b w Hw. apply streams_limits; [done| |].
    + intros j s Hs. destruct (decide (i = j)) as [<-|]; [rewrite list_lookup_alter_eq, Hs|rewrite list_lookup_alter_ne by done; by exists s].
      eexists. split; [done|]. intros t'. apply with_buffer_name.
    + apply Forall_alter; [apply li_types, Hw|]. intros s _. apply with_buffer_type.
  - intros w i e name Hw He. apply streams_limits; [done| |].
    + intros j s Hs. exists s. by rewrite lookup_app_l by by eapply lookup_lt_Some.
    + apply Forall_app. split; [apply li_types, Hw|]. apply Forall_singleton. intros t.
      pose proof (proj1 (Forall_lookup _ _) (li_types _ Hw) i e He t). by destruct t.
  - intros w tags stopped Hw. apply streams_limits; [done|apply same_names_refl|apply li_types, Hw].
  - intros w [Hli Hby Hst Hty Hen Hla Hsi Hem]. split; cbn [lg_limiter lg_streams lg_trace emit_tick fst snd with_bytesEmitted]; try done.
    + apply Forall_app. split; [done|]. apply Forall_singleton. by eexists _, _, _.
    + intros e k. rewrite elem_of_app, list_elem_of_singleton. intros [Hin| ->]; [by apply Hla|done].
    + by apply (silent_snoc _ _ (lastOverage (lg_limiter w))).
    + by rewrite emitted_snoc.
Qed.
End Limits.
End Runs.

(** The logs of a container after some operations. *)
Definition container_logs (env : nat -> LimitEnv) (now : Z) (config : LogConfig) (lines bytes interval : Z) (ops : list op) : option logs :=
  w ← New now config lines bytes interval; run env w ops.

Lemma New_logs now config lines bytes interval :
  log_Guid config <> "" ->
  exists name tags, New now config lines bytes interval =
    Some (mkLogs [mkStreamer (newStreamDestination name Log_OUT) (newStreamDestination name Log_ERR)] tags
      (newLogRateLimiter now lines bytes interval) 0 false []).
Proof.
  intros Hg. unfold New. rewrite decide_False by done. destruct (GetSourceNameAndTagsForLogging config) as [name tags]. by exists name, tags.
Qed.

Lemma logs_ok_init P name tags limiter :
  logs_ok P (fun _ _ => ([], [])) (mkLogs [mkStreamer (newStreamDestination name Log_OUT) (newStreamDestination name Log_ERR)] tags limiter 0 false []).
Proof.
  split; cbn [lg_streams lg_trace]; [|done]. intros i t e [_ <-]%list_lookup_singleton_Some.
  split; [by intros []|]. destruct t; (split; [apply delivered_init|]; intros _; split; constructor).
Qed.

Lemma logs_return env now config lines bytes interval ops :
  log_Guid config <> "" -> ops_valid 1 ops = true ->
  exists w, container_logs env now config lines bytes interval ops = Some w /\ logs_ok (Forall writes_text ops) (fun i t => segments i t ops) w.
Proof.
  intros Hg Hv. destruct (New_logs now config lines bytes interval Hg) as (name & tags & Hnew). unfold container_logs. rewrite Hnew. cbn [option_bind mbind].
  by apply (run_ok env (Forall writes_text ops) ops (fun _ _ => ([], []))); [apply logs_ok_init| |].
Qed.

(** C16: Whatever is written to the streams of a container, in whatever pieces, every
    stream gets the lines that were written to it: its messages are, in order, the
    segments between the ends of lines and the flushes, each of them cut only where a
    message is full up to a character, without an empty one; what is not yet sent is
    in the buffer.  When what is written is UTF-8 without U+FFFD, so is every
    message. *)
Theorem log_lines_delivered env now config lines bytes interval ops :
  log_Guid config <> "" -> ops_valid 1 ops = true ->
  exists w, container_logs env now config lines bytes interval ops = Some w /\
    forall i t e, lg_streams w !! i = Some e ->
      delivered (segments i t ops).1 (segments i t ops).2 (messages i t (lg_trace w)) (sd_buffer (destination e t)) /\
      (Forall writes_text ops -> Forall utf8 (messages i t (lg_trace w))).
Proof.
  intros Hg Hv. destruct (logs_return env now config lines bytes interval ops Hg Hv) as (w & Hw & Hok). exists w. split; [done|].
  intros i t e He. destruct (lo_live _ _ _ Hok i t e He) as [_ [Hd Hu]]. split; [done|]. intros HP. by destruct (Hu HP).
Qed.

(** C33: The rate limiter, when the streams that share it write one after the other (the
    time of the last report is not synchronised): every message is sent once, from the
    source of its stream, or dropped; it is dropped only when there is a limit, no
    message is sent that is larger than the limit of bytes, nothing at all when the limit
    is zero; in the second after a report nothing is sent and nothing reported; and the
    counter of the rate has the bytes that were sent since it was last reported. *)
Theorem log_limits env now config lines bytes interval ops :
  log_Guid config <> "" -> ops_valid 1 ops = true -> (forall k, (now <= le_now (env k) <= le_after (env k))%Z) ->
  exists w, container_logs env now config lines bytes interval ops = Some w /\
    Forall (entry_ok (lg_streams w) lines bytes) (lg_trace w) /\ silent env (lg_trace w) /\
    bytesEmittedLastInterval (lg_limiter w) = u64 (emitted (lg_trace w)).
Proof.
  intros Hg Hv Hc. destruct (logs_return env now config lines bytes interval ops Hg Hv) as (w & Hw & _). exists w. split; [done|].
  enough (limits_inv env now lines bytes w) as [] by done.
  destruct (New_logs now config lines bytes interval Hg) as (name & tags & Hnew). unfold container_logs in Hw. rewrite Hnew in Hw.
  eapply (run_limits env now lines bytes Hc); [|exact Hw]. split; try done; [by left|..].
  - apply Forall_singleton. by intros [].
  - intros e k He. by apply not_elem_of_nil in He.
Qed.

(** ** Examples *)

Definition config0 : LogConfig := mkLogConfig "app" 3 "" (Some {["source_id" := "web"]}).
Definition env0 (k : nat) : LimitEnv :=
  mkLimitEnv (Z.of_nat k * 400000000) (fun n => (n <=? 8)%Z) true (Z.of_nat k * 400000000 + 5).
Definition ops0 : list op :=
  [Write 0 Log_OUT (text_bytes "one"); MakeSource 0 "APP"; UpdateTags {["source_id" := "new"]};
   Write 1 Log_ERR [226%N; 130%N; 172%N; 13%N]; Write 0 Log_OUT [49%N; 10%N; 50%N]; Write 0 Log_ERR (text_bytes "too long a line" ++ [10%N]);
   Flush 0; Tick; Write 1 Log_OUT (text_bytes "again" ++ [10%N; 10%N])].

Lemma log_lines_delivered_witness :
  segments 0 Log_OUT ops0 = ([text_bytes "one1"; text_bytes "2"], []) /\
  exists w, container_logs env0 0 config0 0 12 1000000000 ops0 = Some w /\
    forall i t e, lg_streams w !! i = Some e ->
      delivered (segments i t ops0).1 (segments i t ops0).2 (messages i t (lg_trace w)) (sd_buffer (destination e t)) /\
      (Forall writes_text ops0 -> Forall utf8 (messages i t (lg_trace w))).
Proof. split; [vm_compute; reflexivity|]. apply log_lines_delivered; [done|reflexivity]. Defined.

Lemma log_limits_witness :
  (w ← container_logs env0 0 config0 0 12 1000000000 ops0; Some ((fun e => match e with Flushed _ _ _ _ (Some _) _ => true | _ => false end) <$> lg_trace w)) =
    Some [false; false; true; true; false; true] /\
  exists w, container_logs env0 0 config0 0 12 1000000000 ops0 = Some w /\
    Forall (entry_ok (lg_streams w) 0 12) (lg_trace w) /\ silent env0 (lg_trace w) /\
    bytesEmittedLastInterval (lg_limiter w) = u64 (emitted (lg_trace w)).
Proof.
  split; [vm_compute; reflexivity|]. apply log_limits; [done|reflexivity|]. intros k. unfold env0. cbn [le_now le_after]. lia.
Defined.
