(* ===== verification/WorkPool.v ===== *)
(** * Work pools

    workpool/workpool.go.  The calls of [Submit] and [Stop], the
    workers and their works interleave in any order: a state has the program counters
    of the calls and of the workers, and a step is a statement of one of them that the
    others can see.  A queue is a buffered channel; the capacity of every pool that
    gets work is at least one.  Works are values of [W] that end. *)
From Stdlib Require Import ZArith Lia Wellfounded.
From S2P Require Import Prelude GoStd.

Section WorkPool.
Context {W : Type}.

Record WorkPool := mkPool {
  workQueue : list W;
  queue_cap : nat;
  stopping : bool;
  stopped : bool;
  maxWorkers : nat;
  numWorkers : nat }.

Definition newWorkPoolWithPending (maxWorkers pending : nat) : WorkPool :=
  mkPool [] (maxWorkers + pending) false false maxWorkers 0.

Definition NewWorkPool (maxWorkers : Z) : result string WorkPool :=
  if (maxWorkers <? 1)%Z then Err ("must provide positive maxWorkers; provided " +:+ strconv_Itoa maxWorkers)
  else Ok (newWorkPoolWithPending (Z.to_nat maxWorkers) 0).

Definition with_queue (p : WorkPool) (q : list W) : WorkPool :=
  mkPool q (queue_cap p) (stopping p) (stopped p) (maxWorkers p) (numWorkers p).
Definition with_stop (p : WorkPool) (closed : bool) : WorkPool :=
  mkPool (workQueue p) (queue_cap p) closed true (maxWorkers p) (numWorkers p).
Definition with_workers (p : WorkPool) (n : nat) : WorkPool :=
  mkPool (workQueue p) (queue_cap p) (stopping p) (stopped p) (maxWorkers p) n.

(** Where a call is; a call that has returned is gone. *)
Inductive pool_call :=
| Submit_check (w : W)
| Submit_select (w : W)
| Submit_sent
| Submit_add
| Submit_drain
| Stop_cas
| Stop_close
| Stop_drain.

Inductive worker := WCheck | WSelect | WRun (w : W) | WInner | WLeave.

(** [done] and [dropped] are the works that have run, and those that never will. *)
Record pool_state := mkPoolState {
  ps_pool : WorkPool;
  ps_workers : list worker;
  ps_calls : list pool_call;
  ps_submitted : list W;
  ps_done : list W;
  ps_dropped : list W }.

Definition new_state (p : WorkPool) : pool_state := mkPoolState p [] [] [] [] [].

(** A call makes a step: the pool, what it becomes, the workers it starts and the
    works it drops. *)
Inductive call_step (p : WorkPool) : pool_call -> WorkPool -> list pool_call -> list worker -> list W -> Prop :=
| Submit_stopped w : stopped p = true -> call_step p (Submit_check w) p [] [] [w]
| Submit_running w : stopped p = false -> call_step p (Submit_check w) p [Submit_select w] [] []
| Submit_send w : (length (workQueue p) < queue_cap p)%nat ->
    call_step p (Submit_select w) (with_queue p (workQueue p ++ [w])) [Submit_sent] [] []
| Submit_stopping w : stopping p = true -> call_step p (Submit_select w) p [] [] [w]
| Submit_late : stopped p = true -> call_step p Submit_sent p [Submit_drain] [] []
| Submit_worker : stopped p = false -> call_step p Submit_sent p [Submit_add] [] []
| addWorker_full : numWorkers p = maxWorkers p -> call_step p Submit_add p [] [] []
| addWorker_starts : numWorkers p <> maxWorkers p -> call_step p Submit_add (with_workers p (S (numWorkers p))) [] [WCheck] []
| drain_takes c w q : c = Submit_drain \/ c = Stop_drain -> workQueue p = w :: q -> call_step p c (with_queue p q) [c] [] [w]
| drain_ends c : c = Submit_drain \/ c = Stop_drain -> workQueue p = [] -> call_step p c p [] [] []
| Stop_again : stopped p = true -> call_step p Stop_cas p [] [] []
| Stop_first : stopped p = false -> call_step p Stop_cas (with_stop p (stopping p)) [Stop_close] [] []
| Stop_closes : call_step p Stop_close (with_stop p true) [Stop_drain] [] [].

(** A worker makes a step: the pool, what it becomes, and the works it has run. *)
Inductive worker_step (p : WorkPool) : worker -> WorkPool -> list worker -> list W -> Prop :=
| worker_stopped : stopped p = true -> worker_step p WCheck p [WLeave] []
| worker_goes_on : stopped p = false -> worker_step p WCheck p [WSelect] []
| worker_stopping : stopping p = true -> worker_step p WSelect p [WLeave] []
| worker_takes w q : workQueue p = w :: q -> worker_step p WSelect (with_queue p q) [WRun w] []
| worker_runs w : worker_step p (WRun w) p [WInner] [w]
| worker_next w q : workQueue p = w :: q -> worker_step p WInner (with_queue p q) [WRun w] []
| worker_breaks : stopping p = true -> worker_step p WInner p [WCheck] []
| worker_no_work : workQueue p = [] -> stopping p = false -> worker_step p WInner p [WCheck] []
| worker_leaves : worker_step p WLeave (with_workers p (numWorkers p - 1)) [] [].

(** The steps of the pool, and those of its clients. *)
Inductive internal_step : pool_state -> pool_state -> Prop :=
| step_call p ws l c l' sub don dro p' c' ws' dro' :
    call_step p c p' c' ws' dro' ->
    internal_step (mkPoolState p ws (l ++ c :: l') sub don dro) (mkPoolState p' (ws ++ ws') (l ++ c' ++ l') sub don (dro ++ dro'))
| step_worker p l w l' cs sub don dro p' w' don' :
    worker_step p w p' w' don' ->
    internal_step (mkPoolState p (l ++ w :: l') cs sub don dro) (mkPoolState p' (l ++ w' ++ l') cs sub (don ++ don') dro).

Definition begin_submit (w : W) (s : pool_state) : pool_state :=
  mkPoolState (ps_pool s) (ps_workers s) (ps_calls s ++ [Submit_check w]) (ps_submitted s ++ [w]) (ps_done s) (ps_dropped s).
Definition begin_stop (s : pool_state) : pool_state :=
  mkPoolState (ps_pool s) (ps_workers s) (ps_calls s ++ [Stop_cas]) (ps_submitted s) (ps_done s) (ps_dropped s).

Inductive pool_step : pool_state -> pool_state -> Prop :=
| pool_internal s s' : internal_step s s' -> pool_step s s'
| pool_submit s w : pool_step s (begin_submit w s)
| pool_stop s : pool_step s (begin_stop s).

(** ** Termination *)

Definition call_weight (c : pool_call) : nat :=
  match c with
  | Submit_check _ => 11 | Submit_select _ => 10 | Submit_sent => 5 | Submit_add => 4 | Submit_drain => 1
  | Stop_cas => 3 | Stop_close => 2 | Stop_drain => 1
  end.
Definition worker_weight (w : worker) : nat := match w with WRun _ => 5 | WInner => 4 | WCheck => 3 | WSelect => 2 | WLeave => 1 end.
Definition weight (s : pool_state) : nat :=
  4 * length (workQueue (ps_pool s)) + sum_list_with call_weight (ps_calls s) + sum_list_with worker_weight (ps_workers s).

Lemma internal_step_weight s s' : internal_step s s' -> (weight s' < weight s)%nat.
Proof.
  destruct 1 as [p ws l c l' sub don dro p' c' ws' dro' Hc|p l w l' cs sub don dro p' w' don' Hw]; unfold weight; cbn -[Nat.mul].
  - rewrite !sum_list_with_app. cbn. destruct Hc as [| | | | | | | |c w q Hc Hq|c Hc Hq| | |]; cbn -[Nat.mul]; rewrite ?length_app; cbn -[Nat.mul]; try lia.
    + rewrite Hq. cbn -[Nat.mul]. lia.
    + destruct Hc as [-> | ->]; cbn; lia.
  - rewrite !sum_list_with_app. cbn. destruct Hw as [| | |w q Hq| |w q Hq| | |]; cbn -[Nat.mul]; try rewrite Hq; cbn -[Nat.mul]; lia.
Qed.

(** ** Invariant *)

(** The works of the calls that have not sent theirs, and of the workers. *)
Definition call_works (c : pool_call) : list W := match c with Submit_check w | Submit_select w => [w] | _ => [] end.
Definition worker_works (w : worker) : list W := match w with WRun w => [w] | _ => [] end.
Definition pending (s : pool_state) : list W := ps_calls s ≫= call_works.
Definition running (s : pool_state) : list W := ps_workers s ≫= worker_works.

Definition after_stop (c : pool_call) : Prop := match c with Submit_drain | Stop_close | Stop_drain => True | _ => False end.
Definition will_add (c : pool_call) : Prop := match c with Submit_sent | Submit_add => True | _ => False end.
Definition closes (c : pool_call) : Prop := match c with Stop_close => True | _ => False end.
Definition will_drain (c : pool_call) : Prop := match c with Submit_sent => True | c => after_stop c end.

Record pool_inv (s : pool_state) : Prop := mkPoolInv {
  pi_count : numWorkers (ps_pool s) = length (ps_workers s);
  pi_max : (numWorkers (ps_pool s) <= maxWorkers (ps_pool s))%nat;
  pi_works : ps_submitted s ≡ₚ pending s ++ workQueue (ps_pool s) ++ running s ++ ps_done s ++ ps_dropped s;
  pi_positive : (0 < maxWorkers (ps_pool s) /\ 0 < queue_cap (ps_pool s))%nat \/ ps_submitted s = [];
  pi_running : stopped (ps_pool s) = false ->
    stopping (ps_pool s) = false /\ ps_dropped s = [] /\ Forall (fun c => ~ after_stop c) (ps_calls s) /\
    Forall (fun w => w <> WLeave) (ps_workers s);
  pi_closing : stopped (ps_pool s) = true -> stopping (ps_pool s) = true \/ Exists closes (ps_calls s);
  pi_served : workQueue (ps_pool s) <> [] -> stopped (ps_pool s) = false -> ps_workers s <> [] \/ Exists will_add (ps_calls s);
  pi_drained : workQueue (ps_pool s) <> [] -> stopped (ps_pool s) = true -> Exists will_drain (ps_calls s) }.

Lemma call_step_inv p ws l c l' sub don dro p' c' ws' dro' :
  call_step p c p' c' ws' dro' -> pool_inv (mkPoolState p ws (l ++ c :: l') sub don dro) ->
  pool_inv (mkPoolState p' (ws ++ ws') (l ++ c' ++ l') sub don (dro ++ dro')).
Proof.
  intros Hc [Hcount Hmax Hworks Hpos Hrun Hclos Hserv Hdrain]. unfold pending, running in *. cbn in *.
  rewrite ?Exists_app, ?Exists_cons, ?Forall_app, ?Forall_cons, ?bind_app in *. cbn in *.
  destruct Hc as [w Hs|w Hs|w Hs|w Hs|Hs|Hs|Hs|Hs|c w q [-> | ->] Hq|c [-> | ->] Hq|Hs|Hs|]; cbn in *.
  all: split; unfold pending, running; cbn.
  all: rewrite ?length_app, ?Exists_app, ?Exists_cons, ?Forall_app, ?Forall_cons, ?bind_app, ?app_nil_r, ?Forall_nil; cbn.
  all: try solve [lia|tauto|intros; congruence].
  all: try solve [rewrite Hworks, ?Hq; cbn; solve_Permutation].
  all: try solve [intros; destruct (stopped p); try congruence; tauto].
  all: try solve [intros; rewrite Hq in *; tauto].
  - intros Hf. destruct (Hrun Hf) as [Hst _]. congruence.
  - intros Hne _. left. intros ->. cbn in Hcount. destruct Hpos as [[? _]| ->]; [lia|].
    apply Permutation_nil_l in Hworks. apply (f_equal length) in Hworks. rewrite !length_app in Hworks. destruct (workQueue p); [done|cbn in Hworks; lia].
  - intros Hf. destruct (Hrun Hf) as (? & ? & [? ?] & ?). split_and!; try done. tauto.
  - intros _ _. left. by destruct ws.
Qed.

Lemma worker_step_inv p l w l' cs sub don dro p' w' don' :
  worker_step p w p' w' don' -> pool_inv (mkPoolState p (l ++ w :: l') cs sub don dro) ->
  pool_inv (mkPoolState p' (l ++ w' ++ l') cs sub (don ++ don') dro).
Proof.
  intros Hw [Hcount Hmax Hworks Hpos Hrun Hclos Hserv Hdrain]. unfold pending, running in *. cbn in *.
  rewrite ?Forall_app, ?Forall_cons, ?bind_app, ?length_app in *. cbn in *.
  destruct Hw as [Hs|Hs|Hs|w q Hq|w|w q Hq|Hs|Hq Hs|]; cbn in *.
  all: split; unfold pending, running; cbn.
  all: rewrite ?length_app, ?Forall_app, ?Forall_cons, ?bind_app, ?app_nil_r, ?Forall_nil; cbn.
  all: try solve [lia|tauto|intros; congruence].
  all: try solve [rewrite Hworks, ?Hq; cbn; solve_Permutation].
  all: try solve [intros Hf; destruct (Hrun Hf) as (? & ? & ? & ? & ? & ?); split_and!; congruence].
  all: try solve [intros _ _; left; by destruct l].
  all: intros _; rewrite Hq in Hdrain; by apply Hdrain.
Qed.

Lemma internal_step_inv s s' : internal_step s s' -> pool_inv s -> pool_inv s'.
Proof. destruct 1; [by eapply call_step_inv|by eapply worker_step_inv]. Qed.

Lemma new_state_inv max pend : pool_inv (new_state (newWorkPoolWithPending max pend)).
Proof. split; cbn; try done; try lia; try by right. Qed.

Lemma begin_submit_inv w s :
  (0 < maxWorkers (ps_pool s))%nat -> (0 < queue_cap (ps_pool s))%nat -> pool_inv s -> pool_inv (begin_submit w s).
Proof.
  intros H1 H2 [Hcount Hmax Hworks Hpos Hrun Hclos Hserv Hdrain]. split; unfold pending, running in *; cbn; rewrite ?Exists_app; try tauto.
  - rewrite Hworks, bind_app. cbn. solve_Permutation.
  - intros Hf. destruct (Hrun Hf) as (? & ? & ? & ?). split_and!; try done. apply Forall_app. split; [done|]. constructor; [cbn; tauto|constructor].
Qed.

Lemma begin_stop_inv s : pool_inv s -> pool_inv (begin_stop s).
Proof.
  intros [Hcount Hmax Hworks Hpos Hrun Hclos Hserv Hdrain]. split; unfold pending, running in *; cbn; rewrite ?Exists_app; try tauto.
  - by rewrite bind_app, app_nil_r.
  - intros Hf. destruct (Hrun Hf) as (? & ? & ? & ?). split_and!; try done. apply Forall_app. split; [done|]. constructor; [cbn; tauto|constructor].
Qed.

(** ** Settled pools

    A pool that can make no step of its own. *)
Definition settled (s : pool_state) : Prop := forall s', ~ internal_step s s'.

Lemma settled_calls s c : settled s -> c ∈ ps_calls s ->
  exists w, c = Submit_select w /\ (queue_cap (ps_pool s) <= length (workQueue (ps_pool s)))%nat /\ stopping (ps_pool s) = false.
Proof.
  intros Hs Hc. destruct s as [p ws cs sub don dro]. cbn in *. apply list_elem_of_split in Hc as (l & l' & ->).
  assert (Hno : forall p' c' ws' dro', ~ call_step p c p' c' ws' dro') by (intros p' c' ws' dro' H; by eapply Hs, step_call).
  destruct c; try (by exfalso; destruct (stopped p) eqn:?; eapply Hno; constructor);
    try (exfalso; destruct (workQueue p) as [|x q] eqn:Hq;
         [eapply Hno; apply drain_ends; [tauto|done]|eapply Hno; eapply drain_takes; [tauto|exact Hq]]; fail).
  - exists w. split; [done|]. split.
    + destruct (decide (length (workQueue p) < queue_cap p)%nat); [|lia]. by exfalso; eapply Hno, Submit_send.
    + destruct (stopping p) eqn:?; [|done]. by exfalso; eapply Hno, Submit_stopping.
  - exfalso. destruct (decide (numWorkers p = maxWorkers p)); eapply Hno; by constructor.
Qed.

Lemma settled_workers s w : settled s -> w ∈ ps_workers s ->
  w = WSelect /\ workQueue (ps_pool s) = [] /\ stopping (ps_pool s) = false.
Proof.
  intros Hs Hw. destruct s as [p ws cs sub don dro]. cbn in *. apply list_elem_of_split in Hw as (l & l' & ->).
  assert (Hno : forall p' w' don', ~ worker_step p w p' w' don') by (intros p' w' don' H; by eapply Hs, step_worker).
  destruct w; try by (exfalso; destruct (stopped p) eqn:?; eapply Hno; constructor).
  - split; [done|]. split; [destruct (workQueue p) eqn:?; [done|]; exfalso; eapply Hno; by econstructor|].
    destruct (stopping p) eqn:?; [|done]. exfalso. eapply Hno. by apply worker_stopping.
  - exfalso. destruct (workQueue p) eqn:?; [destruct (stopping p) eqn:?; eapply Hno; by constructor|].
    eapply Hno. by eapply worker_next.
Qed.

Lemma settled_spec s : pool_inv s -> settled s ->
  ps_calls s = [] /\ workQueue (ps_pool s) = [] /\ running s = [] /\ ps_submitted s ≡ₚ ps_done s ++ ps_dropped s /\
  (stopped (ps_pool s) = false -> ps_dropped s = []) /\ (stopped (ps_pool s) = true -> ps_workers s = []).
Proof.
  intros Hinv Hs. pose proof (settled_calls s) as Hcalls. pose proof (settled_workers s) as Hworkers.
  assert (Hno : forall P, Exists P (ps_calls s) -> exists w, P (Submit_select w)).
  { intros P (c & Hc & HP)%Exists_exists. destruct (Hcalls c Hs Hc) as (w & -> & _). by exists w. }
  assert (Hstop : stopped (ps_pool s) = true -> stopping (ps_pool s) = true).
  { intros Ht. destruct (pi_closing _ Hinv Ht) as [|He]; [done|]. by destruct (Hno _ He). }
  assert (Hq : workQueue (ps_pool s) = []).
  { destruct (workQueue (ps_pool s)) as [|w q] eqn:Hq; [done|exfalso]. destruct (stopped (ps_pool s)) eqn:Ht.
    - pose proof (pi_drained _ Hinv ltac:(by rewrite Hq) Ht) as He. by destruct (Hno _ He).
    - destruct (pi_served _ Hinv ltac:(by rewrite Hq) Ht) as [Hne|He]; [|by destruct (Hno _ He)].
      destruct (ps_workers s) as [|x ws] eqn:Hws; [done|]. destruct (Hworkers x Hs) as (_ & ? & _); [set_solver|congruence]. }
  assert (Hr : running s = []).
  { apply elem_of_nil_inv. intros w (x & Hx & Hin)%list_elem_of_bind. apply Hworkers in Hin as (-> & _); [|done]. by apply not_elem_of_nil in Hx. }
  assert (Hc : ps_calls s = []).
  { apply elem_of_nil_inv. intros c Hc. destruct (Hcalls c Hs Hc) as (w & -> & Hcap & _). rewrite Hq in Hcap. cbn in Hcap.
    destruct (pi_positive _ Hinv) as [[_ ?]|Hsub]; [lia|]. pose proof (pi_works _ Hinv) as Hp. rewrite Hsub in Hp. apply Permutation_nil_l in Hp.
    assert (w ∈ pending s) by (apply list_elem_of_bind; exists (Submit_select w); split; [apply list_elem_of_singleton|]; done).
    symmetry in Hp. apply app_nil in Hp as [Hp _]. rewrite Hp in *. by eapply not_elem_of_nil. }
  split_and!; [done|done|done| |by intros Ht; apply (pi_running _ Hinv Ht)|].
  - rewrite (pi_works _ Hinv). unfold pending. by rewrite Hc, Hq, Hr.
  - intros Ht. apply elem_of_nil_inv. intros x Hx. destruct (Hworkers x Hs Hx) as (_ & _ & Hf). rewrite Hstop in Hf; done.
Qed.

Lemma running_le s : (length (running s) <= length (ps_workers s))%nat.
Proof. unfold running. induction (ps_workers s) as [|[] l IH]; cbn; lia. Qed.

Lemma internal_step_const s s' : internal_step s s' ->
  maxWorkers (ps_pool s') = maxWorkers (ps_pool s) /\ queue_cap (ps_pool s') = queue_cap (ps_pool s) /\ ps_submitted s' = ps_submitted s.
Proof. destruct 1 as [???????????? Hc|??????????? Hw]; cbn; [by destruct Hc|by destruct Hw]. Qed.

Lemma internal_steps_inv s s' : rtc internal_step s s' -> pool_inv s -> pool_inv s' /\ ps_submitted s' = ps_submitted s.
Proof.
  induction 1 as [|s s1 s' Hs _ IH]; [done|]. intros Hinv. destruct (internal_step_const _ _ Hs) as (_ & _ & <-).
  apply IH. by eapply internal_step_inv.
Qed.

Lemma pool_settles s : sn internal_step s.
Proof. apply (wf_projected lt weight); [|apply lt_wf]. intros x y. apply internal_step_weight. Qed.

Lemma pool_reachable max p s : NewWorkPool max = Ok p -> rtc pool_step (new_state p) s ->
  pool_inv s /\ maxWorkers (ps_pool s) = Z.to_nat max.
Proof.
  unfold NewWorkPool. destruct (Z.ltb_spec max 1); [done|]. intros [= <-] Hr.
  enough (pool_inv s /\ maxWorkers (ps_pool s) = Z.to_nat max /\ queue_cap (ps_pool s) = (Z.to_nat max + 0)%nat) by tauto.
  apply (rtc_ind_r (fun s => pool_inv s /\ maxWorkers (ps_pool s) = Z.to_nat max /\ queue_cap (ps_pool s) = (Z.to_nat max + 0)%nat) _) with (3 := Hr).
  { by split; [apply new_state_inv|]. }
  clear s Hr. intros s s' _ Hs (Hinv & Hm & Hc). destruct Hs as [s s' Hs|s w|s].
  - destruct (internal_step_const _ _ Hs) as (-> & -> & _). split; [by eapply internal_step_inv|done].
  - split; [apply begin_submit_inv; [lia|lia|done]|done].
  - split; [by apply begin_stop_inv|done].
Qed.

(** C17: A pool, whoever submits work and stops it, at whatever time: never do more works
    run than it has workers, and every work is in exactly one place.  Without further
    calls it always comes to rest, and then every call has returned; as long as it was
    not stopped every submitted work has been run, exactly once; after a stop every
    work has been run or dropped and no worker is left. *)
Theorem pool_runs_all max p s :
  NewWorkPool max = Ok p -> rtc pool_step (new_state p) s ->
  (length (running s) <= Z.to_nat max)%nat /\
  ps_submitted s ≡ₚ pending s ++ workQueue (ps_pool s) ++ running s ++ ps_done s ++ ps_dropped s /\
  sn internal_step s /\
  forall s', rtc internal_step s s' -> settled s' ->
    ps_calls s' = [] /\ workQueue (ps_pool s') = [] /\
    (if stopped (ps_pool s') then ps_workers s' = [] /\ ps_submitted s ≡ₚ ps_done s' ++ ps_dropped s' else ps_submitted s ≡ₚ ps_done s').
Proof.
  intros Hp Hr. destruct (pool_reachable _ _ _ Hp Hr) as [Hinv Hm]. split_and!.
  - rewrite <- Hm. etrans; [apply running_le|]. rewrite <- (pi_count _ Hinv). apply (pi_max _ Hinv).
  - apply (pi_works _ Hinv).
  - apply pool_settles.
  - intros s' Hs' Hset. destruct (internal_steps_inv _ _ Hs' Hinv) as [Hinv' <-].
    destruct (settled_spec _ Hinv' Hset) as (-> & -> & _ & Hsub & Hd & Hw). split_and!; [done|done|].
    destruct (stopped (ps_pool s')); [by rewrite Hw|]. by rewrite (Hd eq_refl), app_nil_r in Hsub.
Qed.
End WorkPool.
#[global] Arguments WorkPool : clear implicits.
#[global] Arguments pool_call : clear implicits.
#[global] Arguments worker : clear implicits.
#[global] Arguments pool_state : clear implicits.
