(* ===== verification/Throttler.v ===== *)
(** * Throttlers

    workpool/throttler.go: [Work] submits its works one after the other to a pool of
    its own (WorkPool.v), waits until all have run, and stops the pool. *)
From Stdlib Require Import ZArith Lia.
From S2P Require Import Prelude GoStd WorkPool.

Section Throttler.
Context {W : Type}.

(** Where [Work] is: between two submissions, in one, waiting for the works, in
    [Stop], or returned. *)
Inductive phase := TLoop (rest : list W) | TSubmit (rest : list W) | TWait | TStop | TReturned.

Definition NewThrottler (maxWorkers : Z) (works : list W) : result string (WorkPool W) :=
  if (maxWorkers <? 1)%Z then Err ("must provide positive maxWorkers; provided " +:+ strconv_Itoa maxWorkers)
  else Ok (if (Z.of_nat (length works) <? maxWorkers)%Z then newWorkPoolWithPending (length works) 0
           else newWorkPoolWithPending (Z.to_nat maxWorkers) (length works - Z.to_nat maxWorkers)).

(** [Work] in a pool. *)
Inductive throttle_step (works : list W) : phase * pool_state W -> phase * pool_state W -> Prop :=
| throttle_pool ph s s' : internal_step s s' -> throttle_step works (ph, s) (ph, s')
| throttle_submit w rest s : throttle_step works (TLoop (w :: rest), s) (TSubmit rest, begin_submit w s)
| throttle_next rest s : ps_calls s = [] -> throttle_step works (TSubmit rest, s) (TLoop rest, s)
| throttle_loop_ends s : throttle_step works (TLoop [], s) (TWait, s)
| throttle_waited s : length (ps_done s) = length works -> throttle_step works (TWait, s) (TStop, begin_stop s)
| throttle_stopped s : ps_calls s = [] -> throttle_step works (TStop, s) (TReturned, s).

Definition phase_weight (ph : phase) : nat :=
  match ph with TLoop rest => 20 * length rest + 10 | TSubmit rest => 20 * length rest + 11 | TWait => 9 | TStop => 2 | TReturned => 0 end.

Lemma throttle_settles works x : sn (throttle_step works) x.
Proof.
  apply (wf_projected lt (fun x => phase_weight x.1 + weight x.2)); [|apply lt_wf]. intros y z Hs.
  destruct Hs as [ph s s' Hs|w rest s|rest s Hc|s|s Hl|s Hc]; cbn -[Nat.mul weight].
  { apply internal_step_weight in Hs. lia. }
  all: unfold weight, begin_submit, begin_stop; cbn -[Nat.mul]; rewrite ?sum_list_with_app; cbn -[Nat.mul]; lia.
Qed.

(** The calls of [Submit] have no part in a stop. *)
Definition stop_call (c : pool_call W) : Prop := match c with Stop_cas | Stop_close | Stop_drain => True | _ => False end.
Definition cas_call (c : pool_call W) : Prop := match c with Stop_cas => True | _ => False end.

Definition phase_ok (works : list W) (ph : phase) (s : pool_state W) : Prop :=
  match ph with
  | TLoop rest | TSubmit rest => ps_submitted s ++ rest = works /\ stopped (ps_pool s) = false /\ Forall (fun c => ~ stop_call c) (ps_calls s)
  | TWait => ps_submitted s = works /\ stopped (ps_pool s) = false /\ Forall (fun c => ~ stop_call c) (ps_calls s)
  | TStop => ps_submitted s = works /\ (length works <= length (ps_done s))%nat /\ (stopped (ps_pool s) = true \/ Exists cas_call (ps_calls s))
  | TReturned => ps_submitted s = works /\ (length works <= length (ps_done s))%nat /\ stopped (ps_pool s) = true
  end.

Lemma not_stop_step s s' : internal_step s s' -> stopped (ps_pool s) = false -> Forall (fun c => ~ stop_call c) (ps_calls s) ->
  stopped (ps_pool s') = false /\ Forall (fun c => ~ stop_call c) (ps_calls s').
Proof.
  destruct 1 as [p ws l c l' sub don dro p' c' ws' dro' Hc|p l w l' cs sub don dro p' w' don' Hw]; cbn; intros Hs.
  - rewrite !Forall_app, Forall_cons. intros (Hl & Hn & Hl').
    destruct Hc as [| | | | | | | |? ? ? [-> | ->]|? [-> | ->]| | |]; cbn in *; try tauto; (split; [done|]); split_and!; try done; by constructor.
  - by destruct Hw.
Qed.

Lemma stop_step s s' : internal_step s s' ->
  (length (ps_done s) <= length (ps_done s'))%nat /\ (stopped (ps_pool s) = true -> stopped (ps_pool s') = true) /\
  (Exists cas_call (ps_calls s) -> stopped (ps_pool s') = true \/ Exists cas_call (ps_calls s')).
Proof.
  destruct 1 as [p ws l c l' sub don dro p' c' ws' dro' Hc|p l w l' cs sub don dro p' w' don' Hw]; cbn.
  - rewrite !Exists_app, Exists_cons. split; [lia|]. destruct Hc as [| | | | | | | |? ? ? [-> | ->]|? [-> | ->]| | |]; cbn; rewrite ?Exists_cons; tauto.
  - rewrite length_app. split; [lia|]. destruct Hw; cbn; tauto.
Qed.

Definition pool_fits (max : Z) (works : list W) (s : pool_state W) : Prop :=
  (maxWorkers (ps_pool s) <= Z.to_nat max)%nat /\ (works <> [] -> 0 < maxWorkers (ps_pool s) /\ 0 < queue_cap (ps_pool s))%nat.

Definition throttle_inv (max : Z) (works : list W) (x : phase * pool_state W) : Prop :=
  pool_inv x.2 /\ phase_ok works x.1 x.2 /\ pool_fits max works x.2.

Lemma throttle_step_inv max works x y : throttle_step works x y -> throttle_inv max works x -> throttle_inv max works y.
Proof.
  intros Hs (Hinv & Hph & Hfit). destruct Hs as [ph s s' Hs|w rest s|rest s Hc|s|s Hl|s Hc]; cbn [fst snd] in *; unfold throttle_inv; cbn [fst snd].
  - destruct (internal_step_const _ _ Hs) as (Hm & Hcap & Hsub). split; [by eapply internal_step_inv|]. split; [|unfold pool_fits; by rewrite Hm, Hcap].
    destruct (stop_step _ _ Hs) as (Hd & Hst & Hcas).
    destruct ph; cbn in *; rewrite Hsub; destruct Hph as (H1 & H2 & H3); (split; [done|]); try (by eapply not_stop_step); (split; [lia|]); tauto.
  - destruct Hph as (Hw & Hst & Hf). destruct (proj2 Hfit) as [Hm Hcap]; [intros ->; by destruct (ps_submitted s)|].
    split; [by apply begin_submit_inv|]. split; [|done]. cbn. rewrite <- app_assoc. split_and!; [done|done|]. apply Forall_app. split; [done|].
    constructor; [cbn; tauto|constructor].
  - done.
  - destruct Hph as (Hw & Hst & Hf). rewrite app_nil_r in Hw. by split_and!.
  - destruct Hph as (Hw & Hst & Hf). split; [by apply begin_stop_inv|]. split; [|done]. cbn. split_and!; [done|lia|right]. rewrite Exists_app, Exists_cons. cbn. tauto.
  - destruct Hph as (Hw & Hd & [Hst|He]); [by split_and!|]. rewrite Hc in He. by inversion He.
Qed.

Lemma NewThrottler_inv max works p : NewThrottler max works = Ok p -> throttle_inv max works (TLoop works, new_state p).
Proof.
  unfold NewThrottler. destruct (Z.ltb_spec max 1); [done|]. intros [= <-]. unfold throttle_inv, pool_fits. cbn [fst snd].
  destruct (Z.ltb_spec (Z.of_nat (length works)) max); (split; [apply new_state_inv|]); cbn; split_and!; try done; try lia; try (by constructor);
    destruct works; try done; cbn in *; lia.
Qed.

Lemma done_all (works : list W) (s : pool_state W) : pool_inv s -> ps_submitted s = works -> (length works <= length (ps_done s))%nat ->
  ps_done s ≡ₚ works /\ ps_dropped s = [].
Proof.
  intros Hinv Hsub Hl. pose proof (pi_works _ Hinv) as Hp. rewrite Hsub in Hp. pose proof (Permutation_length Hp) as Hlen. rewrite !length_app in Hlen.
  destruct (pending s); [|cbn in Hlen; lia]. destruct (workQueue (ps_pool s)); [|cbn in Hlen; lia]. destruct (running s); [|cbn in Hlen; lia].
  destruct (ps_dropped s); [|cbn in Hlen; lia]. rewrite app_nil_r in Hp. by split.
Qed.

(** [Work] at rest has returned: it never blocks for ever. *)
Lemma throttle_returns max works ph s : throttle_inv max works (ph, s) -> (forall y, ~ throttle_step works (ph, s) y) -> ph = TReturned.
Proof.
  intros (Hinv & Hph & _) Hno. cbn [fst snd] in *.
  assert (Hset : settled s) by (intros s' Hs; eapply Hno; by apply throttle_pool).
  destruct (settled_spec _ Hinv Hset) as (Hc & _ & _ & Hsub & Hd & _). destruct ph as [[|w rest]|rest| | |]; [| | | | |done]; exfalso; eapply Hno.
  - apply throttle_loop_ends.
  - apply throttle_submit.
  - by apply throttle_next.
  - destruct Hph as (Hw & Hst & _). apply throttle_waited. rewrite (Hd Hst), app_nil_r, Hw in Hsub. symmetry. by apply Permutation_length.
  - by apply throttle_stopped.
Qed.

(** C31: A throttler runs every one of its works exactly once, no more than the number of
    workers at the same time, whatever the order in which the works, the workers and
    the submissions go on; [Work] always returns, and only when all works have run;
    then no worker is left behind. *)
Theorem throttler_runs_all max works p ph s :
  NewThrottler max works = Ok p -> rtc (throttle_step works) (TLoop works, new_state p) (ph, s) ->
  (length (running s) <= Z.to_nat max)%nat /\ sn (throttle_step works) (ph, s) /\
  (ph = TReturned -> ps_done s ≡ₚ works) /\
  ((forall y, ~ throttle_step works (ph, s) y) -> ph = TReturned /\ ps_workers s = []).
Proof.
  intros Hp Hr. assert (Hinv : throttle_inv max works (ph, s)).
  { apply (rtc_ind_r (throttle_inv max works) _) with (3 := Hr); [by apply NewThrottler_inv|]. intros y z _ Hs. by apply throttle_step_inv. }
  destruct (Hinv) as (Hpi & Hph & [Hm _]). cbn [fst snd] in *. split_and!.
  - etrans; [apply running_le|]. rewrite <- (pi_count _ Hpi). etrans; [apply (pi_max _ Hpi)|done].
  - apply throttle_settles.
  - intros ->. destruct Hph as (H1 & H2 & _). by apply (done_all works s).
  - intros Hno. pose proof (throttle_returns _ _ _ _ Hinv Hno) as ->. split; [done|]. destruct Hph as (_ & _ & Hst).
    assert (Hset : settled s) by (intros s' Hs; eapply Hno; by apply throttle_pool). by apply (settled_spec _ Hpi Hset).
Qed.
End Throttler.

(** ** Examples *)

Lemma pool_runs_all_witness :
  let s := mkPoolState (with_workers (newWorkPoolWithPending 1 0) 1) [WRun 7%nat] [] [7%nat] [] [] in
  NewWorkPool (W := nat) 1 = Ok (newWorkPoolWithPending 1 0) /\ rtc pool_step (new_state (newWorkPoolWithPending 1 0)) s /\
  (length (running s) <= 1)%nat /\ sn internal_step s.
Proof.
  cbn zeta. split; [reflexivity|].
  assert (Hr : rtc pool_step (new_state (newWorkPoolWithPending 1 0)) (mkPoolState (with_workers (newWorkPoolWithPending 1 0) 1) [WRun 7%nat] [] [7%nat] [] [])).
  { eapply rtc_l; [apply (pool_submit _ 7%nat)|].
    eapply rtc_l; [apply pool_internal, (step_call _ _ [] _ []), Submit_running; reflexivity|].
    eapply rtc_l; [apply pool_internal, (step_call _ _ [] _ []), Submit_send; cbn; lia|].
    eapply rtc_l; [apply pool_internal, (step_call _ _ [] _ []), Submit_worker; reflexivity|].
    eapply rtc_l; [apply pool_internal, (step_call _ _ [] _ []), addWorker_starts; cbn; lia|].
    eapply rtc_l; [apply pool_internal, (step_worker _ [] _ []), worker_goes_on; reflexivity|].
    eapply rtc_l; [apply pool_internal, (step_worker _ [] _ []), worker_takes; reflexivity|]. apply rtc_refl. }
  split; [exact Hr|]. destruct (pool_runs_all 1 _ _ eq_refl Hr) as (H1 & _ & H3 & _). by split.
Defined.

Lemma throttler_runs_all_witness :
  let s := begin_submit 7%nat (new_state (newWorkPoolWithPending 2 1)) in
  NewThrottler 2 [7%nat; 8%nat; 9%nat] = Ok (newWorkPoolWithPending 2 1) /\
  rtc (throttle_step [7; 8; 9]%nat) (TLoop [7; 8; 9]%nat, new_state (newWorkPoolWithPending 2 1)) (TSubmit [8; 9]%nat, s) /\
  (length (running s) <= 2)%nat /\ sn (throttle_step [7; 8; 9]%nat) (TSubmit [8; 9]%nat, s).
Proof.
  cbn zeta. split; [reflexivity|].
  assert (Hr : rtc (throttle_step [7; 8; 9]%nat) (TLoop [7; 8; 9]%nat, new_state (newWorkPoolWithPending 2 1))
    (TSubmit [8; 9]%nat, begin_submit 7%nat (new_state (newWorkPoolWithPending 2 1)))) by apply rtc_once, throttle_submit.
  split; [exact Hr|]. destruct (throttler_runs_all 2 _ _ _ _ eq_refl Hr) as (H1 & H2 & _). by split.
Defined.
