(* ===== verification/DependencyManager.v ===== *)
(** * Dependency manager

    executor/depot/containerstore/dependencymanager.go: the cached dependencies of a
    container are fetched by goroutines, no more of them at a time than a limiter that
    all containers share allows.  The fetches are those of CachedDownloader.v, among
    fetches and clients of other containers.  [url.Parse] and [bytefmt.ByteSize] are
    parameters. *)
From Stdlib Require Import ZArith Lia.
From S2P Require Import Prelude GoStd Executor StoreNode LogStreamer Hashes FileCache Downloader CachedDownloader.

Inductive DependencyError := UrlError (text : string) | DependencyFetch (e : FetchError).

Record cachedBindMount := mkCachedBindMount { cbm_CacheKey : string; cbm_BindMount : BindMount }.

(** helpers.go [newBindMount] *)
Definition newBindMount (src dst : string) : BindMount := mkBindMount src dst BindMountModeRO BindMountOriginHost.

Definition NewBindMounts : BindMounts := mkBindMounts [] [].
Definition AddBindMount (b : BindMounts) (m : cachedBindMount) : BindMounts :=
  mkBindMounts (CacheKeys b ++ [mkBindMountCacheKey (cbm_CacheKey m) (bm_SrcPath (cbm_BindMount m))])
    (GardenBindMounts b ++ [cbm_BindMount m]).

(** Where the goroutine of a mount is, and the fetch it has started; its deferred
    functions return the token and are done at once. *)
Inductive gphase :=
| GWait
| GStart
| GFetch
| GSend (r : result DependencyError cachedBindMount)
| GRelease
| GDone.
Record goroutine := mkGoroutine { g_phase : gphase; g_fetch : option nat }.

(** The loop of [DownloadCachedDependencies]: receiving, waiting for the goroutines
    after an error, receiving the rest, and what it returned. *)
Inductive mphase :=
| MLoop (mounts : BindMounts) (completed : nat)
| MWait (mounts : BindMounts) (err : DependencyError)
| MRest (mounts : BindMounts) (err : DependencyError)
| MReturned (mounts : BindMounts) (err : option DependencyError).

Record manager := mkManager {
  m_sys : Sys;
  m_tokens : nat;
  m_goroutines : list goroutine;
  m_mountChan : list cachedBindMount;
  m_errChan : list DependencyError;
  m_cancel : bool;
  m_main : mphase;
  m_log : list (string * string) }.

Section Manager.
Variable parse : string -> option string.    (* the error of url.Parse *)
Variable ByteSize : Z -> string.
Variable logConfig : LogConfig.
Variable mounts : list CachedDependency.

Definition total : nat := length mounts.

(** The messages of [downloadCachedDependency] have the source of the mount. *)
Definition app_log (mount : CachedDependency) (text : string) : list (string * string) :=
  let sourceName := if decide (cd_LogSource mount = "") then (GetSourceNameAndTagsForLogging logConfig).1 else cd_LogSource mount in
  if decide (cd_Name mount = "") then [] else [(text, sourceName)].

Definition downloading (mount : CachedDependency) : list (string * string) := app_log mount ("Downloading " +:+ cd_Name mount +:+ "...").
Definition failed (mount : CachedDependency) : list (string * string) := app_log mount ("Downloading " +:+ cd_Name mount +:+ " failed").
Definition downloaded (mount : CachedDependency) (size : Z) : list (string * string) :=
  app_log mount (if (size =? 0)%Z then "Downloaded " +:+ cd_Name mount
                 else "Downloaded " +:+ cd_Name mount +:+ " (" +:+ ByteSize (u64 size) +:+ ")").

(** What [FetchAsDirectory] returns, and what becomes of it; a fetch of a directory
    returns nothing but a directory. *)
Definition fetched_dir (r : result FetchError Fetched) : result FetchError (string * Z) :=
  match r with
  | Ok (FetchedHeld (HeldDirectory _ path) size) => Ok (path, size)
  | Ok (FetchedHeld (HeldReader _) size) | Ok (FetchedTemp _ size) => Ok ("", size)
  | Err e => Err e
  end.
Definition dependency_result (mount : CachedDependency) (r : result FetchError Fetched) : result DependencyError cachedBindMount :=
  match fetched_dir r with
  | Ok (dirPath, _) => Ok (mkCachedBindMount (cd_CacheKey mount) (newBindMount dirPath (cd_To mount)))
  | Err e => Err (DependencyFetch e)
  end.
Definition result_log (mount : CachedDependency) (r : result FetchError Fetched) : list (string * string) :=
  match fetched_dir r with Ok (_, size) => downloaded mount size | Err _ => failed mount end.

Definition begin_dependency (mount : CachedDependency) : Fetch :=
  begin_fetch true (cd_CacheKey mount) (mkChecksumInfo (cd_ChecksumAlgorithm mount) (cd_ChecksumValue mount)).

Definition DownloadCachedDependencies (sys : Sys) (tokens : nat) : manager :=
  mkManager sys tokens ((fun _ => mkGoroutine GWait None) <$> mounts) [] [] false
    (if (total =? 0)%nat then MReturned NewBindMounts None else MLoop NewBindMounts 0) [].

(** A goroutine makes a step: the system, the tokens, what it sends, and what it logs. *)
Inductive goroutine_step (mount : CachedDependency) (sys : Sys) (tokens : nat) :
    goroutine -> Sys -> nat -> goroutine -> list cachedBindMount -> list DependencyError -> list (string * string) -> Prop :=
| g_limiter n f : tokens = S n -> goroutine_step mount sys tokens (mkGoroutine GWait f) sys n (mkGoroutine GStart f) [] [] (downloading mount)
| g_parse_error f err : parse (cd_From mount) = Some err ->
    goroutine_step mount sys tokens (mkGoroutine GStart f) sys tokens (mkGoroutine (GSend (Err (UrlError err))) f) [] [] (failed mount)
| g_fetch_starts f : parse (cd_From mount) = None ->
    goroutine_step mount sys tokens (mkGoroutine GStart f) (sys.1, sys.2 ++ [begin_dependency mount]) tokens
      (mkGoroutine GFetch (Some (length sys.2))) [] [] []
| g_fetched j f r : sys.2 !! j = Some (f, FDone r) ->
    goroutine_step mount sys tokens (mkGoroutine GFetch (Some j)) sys tokens (mkGoroutine (GSend (dependency_result mount r)) (Some j)) [] []
      (result_log mount r)
| g_send_error e f : goroutine_step mount sys tokens (mkGoroutine (GSend (Err e)) f) sys tokens (mkGoroutine GRelease f) [] [e] []
| g_send_mount m f : goroutine_step mount sys tokens (mkGoroutine (GSend (Ok m)) f) sys tokens (mkGoroutine GRelease f) [m] [] []
| g_release f : goroutine_step mount sys tokens (mkGoroutine GRelease f) sys (S tokens) (mkGoroutine GDone f) [] [] [].

(** The loop makes a step: what it takes from the channels and becomes. *)
Inductive main_step (all_done : Prop) : mphase -> list cachedBindMount -> list DependencyError -> bool ->
    mphase -> list cachedBindMount -> list DependencyError -> bool -> Prop :=
| main_error acc n ms e es c : main_step all_done (MLoop acc n) ms (e :: es) c (MWait acc e) ms es true
| main_mount acc n m ms es c :
    main_step all_done (MLoop acc n) (m :: ms) es c
      (if (total =? S n)%nat then MReturned (AddBindMount acc m) None else MLoop (AddBindMount acc m) (S n)) ms es c
| main_waited acc e ms es c : all_done -> main_step all_done (MWait acc e) ms es c (MRest acc e) ms es c
| main_rest acc e m ms es c : main_step all_done (MRest acc e) (m :: ms) es c (MRest (AddBindMount acc m) e) ms es c
| main_returns acc e es c : main_step all_done (MRest acc e) [] es c (MReturned acc (Some e)) [] es c.

Definition all_done (l : list goroutine) : Prop := Forall (fun g => g_phase g = GDone) l.

(** The steps of the manager; whoever else uses the cache makes steps of his own, and
    other containers take and return tokens. *)
Inductive manager_step : manager -> manager -> Prop :=
| step_goroutine sys tokens l i mount g ms es c main log sys' tokens' g' ms' es' log' :
    mounts !! i = Some mount -> l !! i = Some g ->
    goroutine_step mount sys tokens g sys' tokens' g' ms' es' log' ->
    manager_step (mkManager sys tokens l ms es c main log)
      (mkManager sys' tokens' (<[i := g']> l) (ms ++ ms') (es ++ es') c main (log ++ log'))
| step_main sys tokens l ms es c main log ms' es' c' main' :
    main_step (all_done l) main ms es c main' ms' es' c' ->
    manager_step (mkManager sys tokens l ms es c main log) (mkManager sys tokens l ms' es' c' main' log).

Inductive shared_step : manager -> manager -> Prop :=
| step_own w w' : manager_step w w' -> shared_step w w'
| step_cache sys sys' tokens l ms es c main log :
    sys_step sys sys' -> shared_step (mkManager sys tokens l ms es c main log) (mkManager sys' tokens l ms es c main log)
| step_token sys tokens tokens' l ms es c main log :
    shared_step (mkManager sys tokens l ms es c main log) (mkManager sys tokens' l ms es c main log).

(** [ReleaseCachedDependencies]: every directory is closed; errors other than those of
    a directory that is not there any more are joined. *)
Fixpoint ReleaseCachedDependencies (ios : nat -> IO) (c : FileCache) (keys : list BindMountCacheKey) : FileCache * list CacheError :=
  match keys with
  | [] => (c, [])
  | key :: keys =>
      let '(c, err) := CloseDirectory (ios 0%nat) c (cache_key (bk_CacheKey key)) (bk_Dir key) in
      let '(c, errs) := ReleaseCachedDependencies (fun i => ios (S i)) c keys in
      (c, match err with None | Some AlreadyClosed | Some EntryNotFound => errs | Some e => e :: errs end)
  end.

(** ** What was fetched *)

Definition outcome (sys : Sys) (mount : CachedDependency) (g : goroutine) : option (result DependencyError cachedBindMount) :=
  match g_fetch g with
  | Some j => match sys.2 !! j with Some (_, FDone r) => Some (dependency_result mount r) | _ => None end
  | None => err ← parse (cd_From mount); Some (Err (UrlError err))
  end.

Definition has_sent (g : goroutine) : bool := match g_phase g with GRelease | GDone => true | _ => false end.
Definition sent (sys : Sys) (mount : CachedDependency) (g : goroutine) : option (result DependencyError cachedBindMount) :=
  if has_sent g then outcome sys mount g else None.
Definition sents (sys : Sys) (l : list goroutine) : list (option (result DependencyError cachedBindMount)) := zip_with (sent sys) mounts l.

Definition as_mount (o : option (result DependencyError cachedBindMount)) : option cachedBindMount :=
  match o with Some (Ok m) => Some m | _ => None end.
Definition as_error (o : option (result DependencyError cachedBindMount)) : option DependencyError :=
  match o with Some (Err e) => Some e | _ => None end.

(** The goroutine of a mount knows what became of it. *)
Definition goroutine_ok (sys : Sys) (mount : CachedDependency) (g : goroutine) : Prop :=
  match g_phase g with
  | GWait | GStart => g_fetch g = None
  | GFetch => exists j, g_fetch g = Some j /\ is_Some (sys.2 !! j)
  | GSend r => outcome sys mount g = Some r
  | GRelease | GDone => is_Some (outcome sys mount g)
  end.

Definition main_ok (l : list goroutine) (main : mphase) (ms rec : list cachedBindMount) (errs : list DependencyError) : Prop :=
  match main with
  | MLoop acc n => acc = foldl AddBindMount NewBindMounts rec /\ n = length rec /\ (n < total)%nat /\ errs = []
  | MWait acc e => acc = foldl AddBindMount NewBindMounts rec /\ errs = [e]
  | MRest acc e => acc = foldl AddBindMount NewBindMounts rec /\ errs = [e] /\ all_done l
  | MReturned acc None => acc = foldl AddBindMount NewBindMounts rec /\ errs = [] /\ length rec = total
  | MReturned acc (Some e) => acc = foldl AddBindMount NewBindMounts rec /\ errs = [e] /\ all_done l /\ ms = []
  end.

Definition manager_inv (w : manager) : Prop :=
  Forall2 (goroutine_ok (m_sys w)) mounts (m_goroutines w) /\
  exists rec errs,
    rec ++ m_mountChan w ≡ₚ omap as_mount (sents (m_sys w) (m_goroutines w)) /\
    errs ++ m_errChan w ≡ₚ omap as_error (sents (m_sys w) (m_goroutines w)) /\
    main_ok (m_goroutines w) (m_main w) (m_mountChan w) rec errs.

(** Fetches that are done stay as they are. *)
Lemma sys_lookup_stable (x y : Sys) j f ph : sys_step x y -> x.2 !! j = Some (f, ph) ->
  exists ph', y.2 !! j = Some (f, ph') /\ forall r, ph = FDone r -> ph' = FDone r.
Proof.
  intros Hs Hj. destruct Hs as [s l i f' ph' s' ph'' Hi Hs| | | | |]; cbn in *; try (by eexists).
  - destruct (decide (i = j)) as [->|Hij]; [|rewrite list_lookup_insert_ne by done; by eexists].
    rewrite list_lookup_insert_eq by (by eapply lookup_lt_Some). rewrite Hi in Hj. simplify_eq. eexists. split; [done|].
    intros r ->. inversion Hs.
  - exists ph. split; [|done]. rewrite lookup_app_l; [done|by eapply lookup_lt_Some].
Qed.

Definition extends (x y : Sys) : Prop :=
  forall j f ph, x.2 !! j = Some (f, ph) -> exists ph', y.2 !! j = Some (f, ph') /\ forall r, ph = FDone r -> ph' = FDone r.

Lemma outcome_extends x y mount g r : extends x y -> outcome x mount g = Some r -> outcome y mount g = Some r.
Proof.
  intros He. unfold outcome. destruct (g_fetch g) as [j|]; [|done]. destruct (x.2 !! j) as [[f ph]|] eqn:Hj; [|done].
  destruct (He _ _ _ Hj) as (ph' & -> & Hd). destruct ph; try done. by rewrite (Hd _ eq_refl).
Qed.

Lemma goroutine_ok_extends x y mount g : extends x y -> goroutine_ok x mount g -> goroutine_ok y mount g.
Proof.
  intros He. unfold goroutine_ok. destruct (g_phase g); try done.
  - intros (j & -> & [[f ph] Hj]). exists j. split; [done|]. destruct (He _ _ _ Hj) as (ph' & -> & _). done.
  - by apply outcome_extends.
  - intros [r Hr]. exists r. by eapply outcome_extends.
  - intros [r Hr]. exists r. by eapply outcome_extends.
Qed.

Lemma sents_extends x y l : extends x y -> Forall2 (goroutine_ok x) mounts l -> sents y l = sents x l.
Proof.
  intros He. unfold sents. induction 1 as [|mount g ms l Hg _ IH]; cbn; [done|]. rewrite IH. f_equal. unfold sent.
  destruct (has_sent g) eqn:Hh; [|done]. unfold goroutine_ok, has_sent in *.
  assert (is_Some (outcome x mount g)) as [r Hr] by (by destruct (g_phase g)). rewrite Hr. by eapply outcome_extends.
Qed.

Lemma omap_insert_none {A B} (h : A -> option B) (l : list A) i x x' :
  l !! i = Some x -> h x' = h x -> omap h (<[i := x']> l) = omap h l.
Proof. revert i. induction l as [|y l IH]; intros [|i] Hi Hx; simplify_eq/=; [by rewrite Hx|]. by rewrite (IH i). Qed.

Lemma omap_insert_some {A B} (h : A -> option B) (l : list A) i x x' b :
  l !! i = Some x -> h x = None -> h x' = Some b -> omap h (<[i := x']> l) ≡ₚ omap h l ++ [b].
Proof.
  revert i. induction l as [|y l IH]; intros [|i] Hi Hx Hx'; simplify_eq/=; [rewrite Hx', Hx; solve_Permutation|].
  destruct (h y); rewrite (IH i) by done; done.
Qed.

Lemma sents_insert sys l i mount g : mounts !! i = Some mount -> sents sys (<[i := g]> l) = <[i := sent sys mount g]> (sents sys l).
Proof. intros Hm. unfold sents. rewrite insert_zip_with. by rewrite (list_insert_id mounts i mount Hm). Qed.

Lemma goroutine_step_spec mount sys tokens g sys' tokens' g' ms es log :
  goroutine_step mount sys tokens g sys' tokens' g' ms es log -> goroutine_ok sys mount g ->
  extends sys sys' /\ goroutine_ok sys' mount g' /\ g_phase g <> GDone /\
  ((ms = [] /\ es = [] /\ sent sys' mount g' = sent sys' mount g) \/
   (sent sys' mount g = None /\ ((exists m, ms = [m] /\ es = [] /\ sent sys' mount g' = Some (Ok m)) \/
                                 (exists e, ms = [] /\ es = [e] /\ sent sys' mount g' = Some (Err e))))).
Proof.
  assert (Hrefl : extends sys sys) by (intros j f ph Hj; by exists ph).
  destruct 1 as [n f Ht|f err Hp|f Hp|j f r Hj|e f|m f|f]; unfold goroutine_ok, sent; cbn; intros Hg.
  - split_and!; try done. by left.
  - subst f. split_and!; try done; [unfold outcome; cbn; by rewrite Hp|by left].
  - split; [|split_and!; try done; [|by left]].
    + intros j' f' ph' Hj. exists ph'. cbn. by rewrite lookup_app_l by by eapply lookup_lt_Some.
    + eexists. split; [done|]. rewrite lookup_app_r, Nat.sub_diag by done. done.
  - split_and!; try done; [unfold outcome; cbn; by rewrite Hj|by left].
  - split_and!; try done. right. split; [done|]. right. by exists e.
  - split_and!; try done. right. split; [done|]. left. by exists m.
  - split_and!; try done. by left.
Qed.

Lemma goroutine_manager_inv sys tokens l i mount g ms es c main log sys' tokens' g' ms' es' log' :
  mounts !! i = Some mount -> l !! i = Some g -> goroutine_step mount sys tokens g sys' tokens' g' ms' es' log' ->
  manager_inv (mkManager sys tokens l ms es c main log) ->
  manager_inv (mkManager sys' tokens' (<[i := g']> l) (ms ++ ms') (es ++ es') c main (log ++ log')).
Proof.
  intros Hm Hl Hs (Hok & rec & errs & Hms & Hes & Hmain). cbn in *. pose proof (Forall2_lookup_lr _ _ _ _ _ _ Hok Hm Hl) as Hg.
  destruct (goroutine_step_spec _ _ _ _ _ _ _ _ _ _ Hs Hg) as (He & Hg' & Hnd & Hcase).
  rewrite <- (sents_extends sys sys' l He Hok) in Hms, Hes.
  assert (Hs0 : sents sys' l !! i = Some (sent sys' mount g)) by (unfold sents; by rewrite lookup_zip_with, Hm; cbn; rewrite Hl).
  split; cbn.
  { rewrite <- (list_insert_id mounts i mount Hm). apply Forall2_insert; [|done]. eapply Forall2_impl; [exact Hok|]. intros; by eapply goroutine_ok_extends. }
  exists rec, errs. rewrite (sents_insert sys' l i mount g' Hm), !app_assoc, Hms, Hes. split_and!.
  - destruct Hcase as [(-> & -> & Hsame)|[Hnone [(m & -> & -> & Hsome)|(e & -> & -> & Hsome)]]].
    + by rewrite app_nil_r, (omap_insert_none _ _ _ _ _ Hs0) by by rewrite Hsame.
    + by rewrite (omap_insert_some _ _ _ _ _ m Hs0) by by rewrite ?Hnone, ?Hsome.
    + by rewrite app_nil_r, (omap_insert_none _ _ _ _ _ Hs0) by by rewrite Hnone, Hsome.
  - destruct Hcase as [(-> & -> & Hsame)|[Hnone [(m & -> & -> & Hsome)|(e & -> & -> & Hsome)]]].
    + by rewrite app_nil_r, (omap_insert_none _ _ _ _ _ Hs0) by by rewrite Hsame.
    + by rewrite app_nil_r, (omap_insert_none _ _ _ _ _ Hs0) by by rewrite Hnone, Hsome.
    + by rewrite (omap_insert_some _ _ _ _ _ e Hs0) by by rewrite ?Hnone, ?Hsome.
  - assert (Hnall : ~ all_done l) by (intros Hall; by apply Hnd, (Forall_lookup_1 _ _ _ _ Hall Hl)).
    destruct main as [| | |acc [e|]]; cbn in *; try done; naive_solver.
Qed.

Lemma main_manager_inv sys tokens l ms es c main log ms' es' c' main' :
  main_step (all_done l) main ms es c main' ms' es' c' ->
  manager_inv (mkManager sys tokens l ms es c main log) -> manager_inv (mkManager sys tokens l ms' es' c' main' log).
Proof.
  intros Hs (Hok & rec & errs & Hms & Hes & Hmain). split; [done|]. cbn in *.
  destruct Hs as [acc n ms e es c|acc n m ms es c|acc e ms es c Hall|acc e m ms es c|acc e es c]; cbn in *.
  - destruct Hmain as (-> & _ & _ & ->). by exists rec, [e].
  - destruct Hmain as (-> & -> & Hlt & ->). exists (rec ++ [m]), []. rewrite <- app_assoc. split_and!; [done|done|].
    destruct (Nat.eqb_spec total (S (length rec))) as [Heq|Hne]; cbn; rewrite foldl_app, length_app; cbn; split_and!; try done; lia.
  - destruct Hmain as (-> & ->). by exists rec, [e].
  - destruct Hmain as (-> & -> & Hall). exists (rec ++ [m]), [e]. rewrite <- app_assoc, foldl_app. by split_and!.
  - destruct Hmain as (-> & -> & Hall). by exists rec, [e].
Qed.

Lemma shared_step_inv w w' : shared_step w w' -> manager_inv w -> manager_inv w'.
Proof.
  destruct 1 as [w w' Hs|sys sys' tokens l ms es c main log Hs|].
  - destruct Hs as [sys tokens l i mount g ms es c main log sys' tokens' g' ms' es' log' Hm Hl Hs|sys tokens l ms es c main log ms' es' c' main' Hs].
    + by apply goroutine_manager_inv with mount g.
    + by apply main_manager_inv.
  - intros (Hok & rec & errs & Hms & Hes & Hmain). assert (He : extends sys sys') by (intros j f ph; by apply sys_lookup_stable).
    cbn in *. rewrite <- (sents_extends sys sys' l He Hok) in Hms, Hes. split; [|by exists rec, errs].
    eapply Forall2_impl; [exact Hok|]. intros; by eapply goroutine_ok_extends.
  - done.
Qed.

Lemma manager_init_inv sys tokens : manager_inv (DownloadCachedDependencies sys tokens).
Proof.
  split; cbn.
  - apply Forall2_fmap_r. by induction mounts; constructor.
  - exists [], []. assert (Hn : forall {B} (h : _ -> option B), h None = None -> omap h (sents sys ((fun _ => mkGoroutine GWait None) <$> mounts)) = []).
    { intros B h Hh. unfold sents. induction mounts as [|m ms IH]; cbn; [done|]. unfold sent at 1. cbn. by rewrite Hh. }
    rewrite !Hn by done. split_and!; [done|done|]. unfold total. destruct (Nat.eqb_spec (length mounts) 0); cbn; unfold total; split_and!; try done; lia.
Qed.

(** What the goroutines have come to. *)
Definition outcomes (w : manager) : list (option (result DependencyError cachedBindMount)) :=
  zip_with (outcome (m_sys w)) mounts (m_goroutines w).

Lemma sents_all (w : manager) : Forall2 (goroutine_ok (m_sys w)) mounts (m_goroutines w) ->
  Forall (fun g => has_sent g = true) (m_goroutines w) ->
  sents (m_sys w) (m_goroutines w) = outcomes w /\ Forall is_Some (outcomes w).
Proof.
  intros Hok. unfold sents, outcomes. induction Hok as [|mount g ms l Hg _ IH]; intros Hall; [by split; [|constructor]|].
  apply Forall_cons in Hall as [Hh Hall]. destruct (IH Hall) as [Heq Hsome]. cbn. unfold sent at 1. rewrite Hh, Heq. split; [done|].
  constructor; [|done]. unfold goroutine_ok, has_sent in *. by destruct (g_phase g).
Qed.

Lemma omap_mount_all (l : list (option (result DependencyError cachedBindMount))) :
  (length l <= length (omap as_mount l))%nat -> Forall (fun o => exists m, o = Some (Ok m)) l.
Proof.
  assert (Hle : forall l, (length (omap as_mount l) <= length l)%nat).
  { intros l'. induction l' as [|[[m|e]|] l' IH]; cbn; lia. }
  induction l as [|o l IH]; intros Hlen; [constructor|]. destruct o as [[m|e]|]; cbn in Hlen; [constructor; [by exists m|apply IH; lia]|..];
    specialize (Hle l); lia.
Qed.

Lemma sents_lookup sys l i o : sents sys l !! i = Some o -> exists mount g, mounts !! i = Some mount /\ l !! i = Some g /\ o = sent sys mount g.
Proof.
  unfold sents. rewrite lookup_zip_with. destruct (mounts !! i) as [mount|]; [|done]. cbn. destruct (l !! i) as [g|]; [|done].
  intros [= <-]. by exists mount, g.
Qed.

Lemma returned_sent (w : manager) acc err : manager_inv w -> m_main w = MReturned acc err -> Forall (fun g => has_sent g = true) (m_goroutines w).
Proof.
  intros (Hok & rec & errs & Hms & _ & Hmain) Hret. rewrite Hret in Hmain. destruct err as [e|]; cbn in Hmain.
  - destruct Hmain as (_ & _ & Hall & _). eapply Forall_impl; [exact Hall|]. intros g Hg. unfold has_sent. by rewrite Hg.
  - destruct Hmain as (_ & _ & Hlen). pose proof (Forall2_length _ _ _ Hok) as Hl.
    assert (Hall : Forall (fun o => exists m, o = Some (Ok m)) (sents (m_sys w) (m_goroutines w))).
    { apply omap_mount_all. rewrite <- (Permutation_length Hms), length_app, Hlen. unfold sents, total. rewrite length_zip_with. lia. }
    apply Forall_lookup. intros i g Hg. pose proof (lookup_lt_Some _ _ _ Hg) as Hi.
    destruct (lookup_lt_is_Some_2 mounts i) as [mount Hm]; [lia|].
    assert (Hs : sents (m_sys w) (m_goroutines w) !! i = Some (sent (m_sys w) mount g)).
    { unfold sents. by rewrite lookup_zip_with, Hm; cbn; rewrite Hg. }
    destruct (Forall_lookup_1 _ _ _ _ Hall Hs) as [m Hsent]. unfold sent in Hsent. by destruct (has_sent g).
Qed.

(** What is returned. *)
Lemma returned_spec (w : manager) acc err : manager_inv w -> m_main w = MReturned acc err ->
  Forall is_Some (outcomes w) /\
  exists got, acc = foldl AddBindMount NewBindMounts got /\ got ≡ₚ omap as_mount (outcomes w) /\
    match err with None => omap as_error (outcomes w) = [] | Some e => e ∈ omap as_error (outcomes w) end.
Proof.
  intros Hinv Hret. pose proof (returned_sent w acc err Hinv Hret) as Hall. destruct Hinv as (Hok & rec & errs & Hms & Hes & Hmain).
  destruct (sents_all w Hok Hall) as [Heq Hsome]. rewrite Heq in Hms, Hes. rewrite Hret in Hmain. split; [done|]. exists rec.
  destruct err as [e|]; cbn in Hmain.
  - destruct Hmain as (-> & -> & _ & Hnil). rewrite Hnil, app_nil_r in Hms. split_and!; [done|done|]. rewrite <- Hes. set_solver.
  - destruct Hmain as (-> & -> & Hlen). pose proof (Permutation_length Hms) as Hl. rewrite length_app, Hlen in Hl.
    assert (Htot : length (outcomes w) = total) by (unfold outcomes, total; rewrite length_zip_with, <- (Forall2_length _ _ _ Hok); lia).
    assert (Hoks : Forall (fun o => exists m, o = Some (Ok m)) (outcomes w)) by (apply omap_mount_all; rewrite <- Hl, Htot; lia).
    assert (Hle : length (omap as_mount (outcomes w)) = length (outcomes w) /\ omap as_error (outcomes w) = []).
    { clear -Hoks. induction Hoks as [|o l [m ->] _ [H1 H2]]; cbn; [done|]. by rewrite H1, H2. }
    destruct Hle as [Hle ->]. split_and!; [done| |done]. destruct (m_mountChan w); [by rewrite app_nil_r in Hms|cbn in Hl; lia].
Qed.

Lemma manager_reachable sys tokens w : rtc shared_step (DownloadCachedDependencies sys tokens) w -> manager_inv w.
Proof.
  intros Hr. apply (rtc_ind_r manager_inv _) with (3 := Hr); [apply manager_init_inv|]. intros y z _ Hs. by apply shared_step_inv.
Qed.

(** Where the manager waits: for a token, or for a fetch. *)
Definition waits (w : manager) (g : goroutine) : Prop :=
  match g_phase g with
  | GWait => m_tokens w = 0%nat
  | GFetch => exists j f ph, g_fetch g = Some j /\ (m_sys w).2 !! j = Some (f, ph) /\ forall r, ph <> FDone r
  | GDone => True
  | _ => False
  end.

Lemma goroutine_waits w i mount g : manager_inv w -> (forall w', ~ manager_step w w') -> mounts !! i = Some mount -> m_goroutines w !! i = Some g -> waits w g.
Proof.
  intros (Hok & _) Hno Hm Hl. pose proof (Forall2_lookup_lr _ _ _ _ _ _ Hok Hm Hl) as Hg. destruct w as [sys tokens l ms es c main log]. cbn in *.
  assert (Hstuck : forall sys' tokens' g' ms' es' log', ~ goroutine_step mount sys tokens g sys' tokens' g' ms' es' log').
  { intros sys' tokens' g' ms' es' log' Hs. by eapply Hno, step_goroutine. }
  destruct g as [[] f]; unfold waits, goroutine_ok in *; cbn in *.
  - destruct tokens; [done|]. exfalso. eapply Hstuck. by apply g_limiter.
  - exfalso. destruct (parse (cd_From mount)) eqn:Hp; eapply Hstuck; [by apply g_parse_error|by apply g_fetch_starts].
  - destruct Hg as (j & -> & [[f' ph] Hj]). exists j, f', ph. split_and!; [done|done|]. intros r ->. eapply Hstuck. by eapply g_fetched.
  - exfalso. destruct r; eapply Hstuck; constructor.
  - exfalso. eapply Hstuck. constructor.
  - done.
Qed.

Lemma main_progress w : manager_inv w -> all_done (m_goroutines w) -> (forall w', ~ manager_step w w') -> exists acc err, m_main w = MReturned acc err.
Proof.
  intros (Hok & rec & errs & Hms & Hes & Hmain) Hall Hno. destruct w as [sys tokens l ms es c main log]. cbn in *.
  assert (Hstuck : forall main' ms' es' c', ~ main_step (all_done l) main ms es c main' ms' es' c').
  { intros main' ms' es' c' Hs. by eapply Hno, step_main. }
  destruct main as [acc n|acc e|acc e|acc err]; [| | |by eexists _, _]; exfalso.
  - destruct es; [|by eapply Hstuck, main_error]. destruct ms; [|by eapply Hstuck, main_mount].
    destruct Hmain as (_ & -> & Hlt & ->). rewrite app_nil_r in *.
    destruct (sents_all (mkManager sys tokens l [] [] c (MLoop acc (length rec)) log) Hok) as [Heq Hsome].
    { eapply Forall_impl; [exact Hall|]. intros g Hg. unfold has_sent. by rewrite Hg. }
    cbn in Heq. rewrite Heq in *. symmetry in Hes. apply Permutation_nil_r in Hes.
    assert (Hlen : length (outcomes (mkManager sys tokens l [] [] c (MLoop acc (length rec)) log)) = total).
    { unfold outcomes, total. rewrite length_zip_with. cbn. rewrite <- (Forall2_length _ _ _ Hok). lia. }
    assert (length (omap as_mount (outcomes (mkManager sys tokens l [] [] c (MLoop acc (length rec)) log))) = total); [|rewrite (Permutation_length Hms) in Hlt; lia].
    rewrite <- Hlen. clear -Hsome Hes. induction Hsome as [|o os [[m|e] ->] _ IH]; cbn in *; [done| |done]. by rewrite IH.
  - by eapply Hstuck, main_waited.
  - destruct ms; eapply Hstuck; constructor.
Qed.
End Manager.
