(* ===== verification/DependencyProps.v ===== *)
(** * Dependencies and the cache

    What [DownloadCachedDependencies] returns, and that nothing stays in use: when the
    keys it returned are released, with or without an error, the cache counts no user
    of any directory. *)
From Stdlib Require Import ZArith Lia.
From S2P Require Import Prelude GoStd Executor StoreNode Hashes FileCache FileCacheProps FileCacheRuns ReplacedEntries Downloader CachedDownloader CachedDownloaderProps FetchRuns DependencyManager.

Section Solo.
Variable parse : string -> option string.
Variable ByteSize : Z -> string.
Variable logConfig : LogConfig.
Variable mounts : list CachedDependency.
#[local] Abbreviation manager_step := (manager_step parse ByteSize logConfig mounts).
#[local] Abbreviation shared_step := (shared_step parse ByteSize logConfig mounts).
#[local] Abbreviation manager_inv := (manager_inv parse mounts).

(** A manager that has the cache for itself; space is reclaimed at any time. *)
Inductive solo_step : manager -> manager -> Prop :=
| solo_own w w' : manager_step w w' -> solo_step w w'
| solo_fetch s l i f ph s' ph' tokens gs ms es c main log :
    l !! i = Some (f, ph) -> fetch_step f s ph s' ph' ->
    solo_step (mkManager (s, l) tokens gs ms es c main log) (mkManager (s', <[i := (f, ph')]> l) tokens gs ms es c main log)
| solo_ReclaimCacheSpace s l io tokens gs ms es c main log :
    solo_step (mkManager (s, l) tokens gs ms es c main log)
      (mkManager (set_cache s (MakeRoom io (sh_cache s)), l) tokens gs ms es c main log).

Lemma solo_shared w w' : solo_step w w' -> shared_step w w'.
Proof.
  destruct 1 as [w w' Hs|s l i f ph s' ph' tokens gs ms es c main log Hi Hs|].
  - by apply step_own.
  - apply step_cache. by eapply sys_fetch.
  - apply step_cache. apply sys_MakeRoom.
Qed.

(** ** Fetches of directories *)

Definition is_directory (h : Held) : Prop := match h with HeldDirectory _ _ => True | HeldReader _ => False end.
Definition returns_directory (r : result FetchError Fetched) : Prop :=
  match r with Ok (FetchedHeld h _) => is_directory h | Ok (FetchedTemp _ _) => False | Err _ => True end.

Definition directory_phase (ph : Phase) : Prop :=
  match ph with
  | FUncached | FUncachedDownload => False
  | FBarrier _ (Ok h) _ | FDownload _ (Ok h) _ | FAbandon _ (Some h) _ | FStale _ (Some h) _ _ => is_directory h
  | FReturn _ r | FDone r => returns_directory r
  | _ => True
  end.

Lemma directory_populated l current p :
  (forall h, current = Ok h -> is_directory h) -> directory_phase (populated l current p).
Proof. intros H. destruct p, current as [h|]; cbn; auto. Qed.

Lemma directory_step f s ph s' ph' : fetch_step f s ph s' ph' -> f_directory f = true -> directory_phase ph -> directory_phase ph'.
Proof.
  intros Hs Hf. destruct Hs; cbn; try done; intros Hd.
  - unfold look_up in H. rewrite Hf in H. destruct (GetDirectory _ _ _) as [c' [[[r p] i]|e]]; by simplify_eq.
  - by destruct current.
  - apply directory_populated. by intros h ->.
  - unfold store in H0. rewrite Hf in H0. destruct (isCacheable _); [destruct (AddDirectory _ _ _ _ _) as [c' [[r' p]|e]]|]; by simplify_eq.
Qed.

(** *** Replaced directories *)

(** The directories that clients and fetches have open. *)
Definition all_dirs (x : Sys) : list Handle := sh_dirs x.1 ++ (x.2 ≫= held_dirs).

Lemma reachable_cache x : sys_reachable x -> exists readers, cache_inv (sh_cache x.1) readers (all_dirs x).
Proof.
  intros Hx. destruct (sys_reachable_client x Hx) as (w & Hw & <- & _ & Hd). exists (w_readers w).
  eapply inv_permutation; [done|exact Hd|]. by apply reachable_inv.
Qed.

Lemma tidy_close_held io f (s : Shared) readers D current :
  match current with Some h => is_directory h | None => True end ->
  let mine := match current with Some (HeldDirectory r path) => [(f_key f, r, path)] | _ => [] end in
  cache_inv (sh_cache s) readers (mine ++ D) -> tidy (sh_cache s) (mine ++ D) -> tidy (close_held io (sh_cache s) (f_key f) current) D.
Proof. destruct current as [[r|r path]|]; cbn; [done| |done]. intros _. apply tidy_CloseDirectory. Qed.

Lemma fetch_tidy f s ph s' ph' readers D :
  fetch_step f s ph s' ph' -> f_directory f = true -> directory_phase ph ->
  cache_inv (sh_cache s) readers (held_dirs (f, ph) ++ sh_dirs s ++ D) -> tidy (sh_cache s) (held_dirs (f, ph) ++ sh_dirs s ++ D) ->
  tidy (sh_cache s') (held_dirs (f, ph') ++ sh_dirs s' ++ D).
Proof.
  intros Hs Hf Hph Hi Ht. destruct Hs; try done.
  - pose proof (tidy_GetDirectory io _ _ _ (f_key f) Hi Ht) as Hg. unfold look_up in H. rewrite Hf in H.
    destruct (GetDirectory io (sh_cache s) (f_key f)) as [c' [[[r p] i]|e]]; by simplify_eq.
  - unfold held_dirs in *. cbn [snd] in *. by rewrite held_populated.
  - apply (tidy_close_held io f s readers (sh_dirs s ++ D) current); by destruct current as [[]|].
  - apply (tidy_close_held io f s readers (sh_dirs s ++ D) current); by destruct current as [[]|].
  - pose proof (tidy_AddDirectory io _ _ _ (f_key f) (dl_size d) (dl_cachingInfo d) H Hi Ht) as Ha.
    pose proof (tidy_Remove io _ _ _ (f_key f) Hi Ht) as Hr. unfold store in H0. rewrite Hf in H0.
    destruct (isCacheable _); [destruct (AddDirectory _ _ _ _ _) as [c' [[r' p]|e]]|]; by simplify_eq.
  - destruct r as [[[r|r path] size|path size]|e]; by cbn in *.
Qed.

Lemma sys_fetch_tidy s l i f ph s' ph' :
  sys_reachable (s, l) -> l !! i = Some (f, ph) -> f_directory f = true -> directory_phase ph -> fetch_step f s ph s' ph' ->
  tidy (sh_cache s) (all_dirs (s, l)) -> tidy (sh_cache s') (all_dirs (s', <[i := (f, ph')]> l)).
Proof.
  intros Hr Hi Hf Hph Hs Ht. destruct (reachable_cache _ Hr) as [readers Hc].
  assert (Hsplit : forall x dirs, all_dirs (x, take i l ++ dirs :: drop (S i) l) ≡ₚ
    held_dirs dirs ++ sh_dirs x ++ ((take i l ++ drop (S i) l) ≫= held_dirs)).
  { intros x y. unfold all_dirs. cbn [fst snd]. rewrite !bind_app. cbn. solve_Permutation. }
  rewrite insert_take_drop by (by eapply lookup_lt_Some). rewrite <- (take_drop_middle _ _ _ Hi) in Hc, Ht.
  eapply tidy_permutation; [symmetry; apply Hsplit|]. eapply fetch_tidy; [done..| |].
  - eapply inv_permutation; [done|apply Hsplit|exact Hc].
  - eapply tidy_permutation; [apply Hsplit|exact Ht].
Qed.

(** ** Who has which directory *)

Definition done_dirs (f : Fetch) : list (string * nat * string) :=
  match f.2 with FDone (Ok (FetchedHeld (HeldDirectory r path) _)) => [(f_key f.1, r, path)] | _ => [] end.

Definition nth_dirs (l : list Fetch) (j : nat) : list (string * nat * string) := default [] (done_dirs <$> l !! j).

Lemma nth_dirs_app (l : list Fetch) (f : Fetch) (js : list nat) :
  Forall (fun j => (j < length l)%nat) js -> js ≫= nth_dirs (l ++ [f]) = js ≫= nth_dirs l.
Proof. induction 1 as [|j js Hj _ IH]; cbn; [done|]. rewrite IH. unfold nth_dirs. by rewrite lookup_app_l. Qed.

Lemma dirs_by_index (l : list Fetch) : l ≫= done_dirs = seq 0 (length l) ≫= nth_dirs l.
Proof.
  induction l as [|f l IH] using rev_ind; [done|]. rewrite bind_app, length_app. cbn [length]. rewrite Nat.add_1_r, seq_S, bind_app.
  rewrite nth_dirs_app, <- IH by (apply Forall_forall; intros j Hj%elem_of_seq; lia).
  f_equal. cbn. unfold nth_dirs. rewrite lookup_app_r, Nat.sub_diag by lia. done.
Qed.

Record solo_inv (w : manager) : Prop := mkSoloInv {
  so_dirs : sh_dirs (m_sys w).1 ≡ₚ (m_sys w).2 ≫= done_dirs;
  so_fetches : omap g_fetch (m_goroutines w) ≡ₚ seq 0 (length (m_sys w).2);
  so_mounts : Forall2 (fun mount g => forall j, g_fetch g = Some j ->
    exists ph, (m_sys w).2 !! j = Some ((begin_dependency mount).1, ph) /\
      (cd_CacheKey mount = "" -> exists e, ph = FDone (Err e))) mounts (m_goroutines w);
  so_phases : Forall (fun f => f_directory f.1 = true /\ directory_phase f.2) (m_sys w).2 }.

Lemma fetch_step_dirs f s ph s' ph' : fetch_step f s ph s' ph' ->
  sh_dirs s' ≡ₚ done_dirs (f, ph') ++ sh_dirs s /\ done_dirs (f, ph) = [].
Proof.
  destruct 1; cbn; try done.
  - destruct (uncached opened p) as [[[r|r path] size|path size]|e]; done.
  - by destruct p, current.
  - destruct r as [[[r|r path] size|path size]|e]; done.
Qed.

Lemma goroutine_solo_inv sys tokens l i mount g ms es c main log sys' tokens' g' ms' es' log' :
  mounts !! i = Some mount -> l !! i = Some g -> goroutine_step parse ByteSize logConfig mount sys tokens g sys' tokens' g' ms' es' log' ->
  goroutine_ok parse sys mount g -> solo_inv (mkManager sys tokens l ms es c main log) ->
  solo_inv (mkManager sys' tokens' (<[i := g']> l) (ms ++ ms') (es ++ es') c main (log ++ log')).
Proof.
  intros Hm Hl Hs Hok [Hd Hf Hmo Hph]. cbn in *.
  assert (Hcase : (sys' = sys /\ g_fetch g' = g_fetch g) \/
    (sys' = (sys.1, sys.2 ++ [begin_dependency mount]) /\ g_fetch g = None /\ g_fetch g' = Some (length sys.2))).
  { destruct Hs; cbn; try (by left). right. by split_and!. }
  destruct Hcase as [(-> & Hg)|(-> & Hn & Hg)].
  - split; cbn; [done| | |done].
    + by rewrite (omap_insert_none _ _ _ _ _ Hl).
    + rewrite <- (list_insert_id mounts i mount Hm). apply Forall2_insert; [done|]. rewrite Hg. exact (Forall2_lookup_lr _ _ _ _ _ _ Hmo Hm Hl).
  - assert (Hb : done_dirs (begin_dependency mount) = [] /\ f_directory (begin_dependency mount).1 = true /\ directory_phase (begin_dependency mount).2).
    { unfold begin_dependency, begin_fetch. by destruct (bool_decide _). }
    destruct Hb as (Hb & Hb1 & Hb2). split; cbn.
    + rewrite bind_app. cbn. by rewrite Hb, !app_nil_r.
    + rewrite (omap_insert_some _ _ _ _ _ _ Hl Hn Hg), Hf, length_app. cbn [length]. by rewrite Nat.add_1_r, seq_S.
    + rewrite <- (list_insert_id mounts i mount Hm). apply Forall2_insert.
      * eapply Forall2_impl; [exact Hmo|]. cbn. intros mo g0 H j Hj. destruct (H j Hj) as (ph & Hph' & He). exists ph.
        by rewrite lookup_app_l by by eapply lookup_lt_Some.
      * rewrite Hg. intros j [= <-]. rewrite lookup_app_r, Nat.sub_diag by done. cbn. eexists. split; [by rewrite <- surjective_pairing|].
        intros Hk. unfold begin_dependency, begin_fetch. rewrite bool_decide_true by done. by eexists.
    + apply Forall_app. split; [done|]. by constructor.
Qed.

Lemma solo_step_inv w w' : solo_step w w' -> manager_inv w -> solo_inv w -> solo_inv w'.
Proof.
  intros Hs (Hok & _) Hinv. destruct Hs as [w w' Hs|s l i f ph s' ph' tokens gs ms es c main log Hi Hs|].
  - destruct Hs as [sys tokens l i mount g ms es c main log sys' tokens' g' ms' es' log' Hm Hl Hs|sys tokens l ms es c main log ms' es' c' main' Hs].
    + eapply goroutine_solo_inv; [exact Hm|exact Hl|exact Hs| |exact Hinv]. exact (Forall2_lookup_lr _ _ _ _ _ _ Hok Hm Hl).
    + by destruct Hinv.
  - destruct Hinv as [Hd Hf Hmo Hph]. cbn in *. destruct (fetch_step_dirs _ _ _ _ _ Hs) as [Hd' Hn].
    destruct (Forall_lookup_1 _ _ _ _ Hph Hi) as [Hdir Hdp]. split; cbn.
    + rewrite Hd', Hd, insert_take_drop by (by eapply lookup_lt_Some). rewrite <- (take_drop_middle _ _ _ Hi) at 1.
      rewrite !bind_app. cbn. rewrite Hn. cbn. solve_Permutation.
    + by rewrite length_insert.
    + eapply Forall2_impl; [exact Hmo|]. cbn. intros mo g H j Hj. destruct (H j Hj) as (ph0 & Hph0 & He).
      destruct (decide (i = j)) as [->|]; [|rewrite list_lookup_insert_ne by done; by exists ph0].
      exists ph'. rewrite list_lookup_insert_eq by (by eapply lookup_lt_Some). simplify_eq. split; [done|].
      intros Hk. destruct (He Hk) as [e ->]. inversion Hs.
    + apply Forall_insert; [done|]. split; [done|]. by eapply directory_step.
  - by destruct Hinv.
Qed.

Lemma solo_init_inv s tokens : sh_dirs s = [] -> solo_inv (DownloadCachedDependencies mounts (s, []) tokens).
Proof.
  intros Hs. split; cbn; [by rewrite Hs| | |constructor].
  - by induction mounts.
  - apply Forall2_fmap_r. by induction mounts; constructor.
Qed.

(** ** Releasing *)

(** The directory of a key. *)
Definition key_dir (k : BindMountCacheKey) (d : string * nat * string) : Prop :=
  d.1.1 = cache_key (bk_CacheKey k) /\ d.2 = bk_Dir k.

Lemma release_steps ios s l keys dirs :
  sys_reachable (s, l) -> tidy (sh_cache s) (all_dirs (s, l)) -> sh_dirs s ≡ₚ dirs -> Forall2 key_dir keys dirs ->
  exists s', sys_reachable (s', l) /\ tidy (sh_cache s') (all_dirs (s', l)) /\ sh_dirs s' = [] /\
    ReleaseCachedDependencies ios (sh_cache s) keys = (sh_cache s', []).
Proof.
  intros Hr Ht Hd Hk. revert ios s Hr Ht Hd. induction Hk as [|k [[key r] path] keys dirs [Hkey Hpath] _ IH]; intros ios s Hr Ht Hd.
  - exists s. split_and!; [done|done|by apply Permutation_nil_r|done].
  - cbn in Hkey, Hpath. subst key path. cbn [ReleaseCachedDependencies].
    set (s1 := mkShared (CloseDirectory (ios 0%nat) (sh_cache s) (cache_key (bk_CacheKey k)) (bk_Dir k)).1 (sh_temps s) (sh_inProgress s)
                 (sh_closed s) (sh_slots s) (sh_readers s) dirs (sh_files s)).
    assert (Hr1 : sys_reachable (s1, l)).
    { destruct Hr as (dir & maxSize & minFree & n & Hr). exists dir, maxSize, minFree, n. eapply rtc_r; [exact Hr|]. by eapply sys_CloseDirectory. }
    assert (Ht1 : tidy (sh_cache s1) (all_dirs (s1, l))).
    { destruct (reachable_cache _ Hr) as [readers Hc]. unfold all_dirs in *. cbn [fst snd sh_dirs s1] in *.
      pose proof (Permutation_app_tail (l ≫= held_dirs) Hd) as Hp. eapply tidy_CloseDirectory; [by eapply inv_permutation, Hc|by eapply tidy_permutation]. }
    destruct (IH (fun i => ios (S i)) s1 Hr1 Ht1) as (s' & Hr' & Ht' & Hd' & Hrel); [done|]. exists s'. split_and!; [done|done|done|].
    assert (Herr : (CloseDirectory (ios 0%nat) (sh_cache s) (cache_key (bk_CacheKey k)) (bk_Dir k)).2 <> Some IOError).
    { unfold CloseDirectory. by repeat case_match. }
    cbn [sh_cache s1] in Hrel. destruct (CloseDirectory _ _ _ _) as [c err]. cbn in Hrel, Herr. rewrite Hrel. by destruct err as [[]|].
Qed.

Definition mount_key (m : cachedBindMount) : BindMountCacheKey := mkBindMountCacheKey (cbm_CacheKey m) (bm_SrcPath (cbm_BindMount m)).

Lemma AddBindMount_all got acc :
  CacheKeys (foldl AddBindMount acc got) = CacheKeys acc ++ (mount_key <$> got) /\
  GardenBindMounts (foldl AddBindMount acc got) = GardenBindMounts acc ++ (cbm_BindMount <$> got).
Proof.
  revert acc. induction got as [|m got IH]; intros acc; cbn; [by rewrite !app_nil_r|].
  destruct (IH (AddBindMount acc m)) as [-> ->]. cbn. by rewrite <- !app_assoc.
Qed.

Definition goroutine_dirs (l : list Fetch) (g : goroutine) : list (string * nat * string) := default [] (nth_dirs l <$> g_fetch g).

Lemma goroutine_dirs_omap l gs : omap g_fetch gs ≫= nth_dirs l = gs ≫= goroutine_dirs l.
Proof. induction gs as [|g gs IH]; cbn; [done|]. unfold goroutine_dirs at 1. destruct (g_fetch g); cbn; by rewrite IH. Qed.

Lemma outcome_dirs sys mount g :
  (forall j, g_fetch g = Some j -> exists ph, sys.2 !! j = Some ((begin_dependency mount).1, ph) /\ (cd_CacheKey mount = "" -> exists e, ph = FDone (Err e))) ->
  Forall (fun f => f_directory f.1 = true /\ directory_phase f.2) sys.2 -> is_Some (outcome parse sys mount g) ->
  Forall2 key_dir (mount_key <$> option_list (as_mount (outcome parse sys mount g))) (goroutine_dirs sys.2 g).
Proof.
  intros Hm Hph [r Hr]. unfold outcome, goroutine_dirs in *. destruct (g_fetch g) as [j|].
  - destruct (Hm j eq_refl) as (ph & Hj & Hkey). cbn. unfold nth_dirs. rewrite Hj in *. destruct (Forall_lookup_1 _ _ _ _ Hph Hj) as [_ Hd].
    destruct ph as [| | | | | | | | | | |r']; simplify_eq/=. destruct r' as [[[?|q path] size|]|e]; cbn in *; try done; try by constructor.
    constructor; [|constructor]. split; [|done]. cbn. unfold begin_dependency, begin_fetch.
    case_bool_decide as Hc; [|done]. destruct (Hkey Hc) as [e He]. done.
  - destruct (parse (cd_From mount)); simplify_eq/=. constructor.
Qed.

Lemma outcomes_dirs sys gs ms :
  Forall2 (fun mount g => forall j, g_fetch g = Some j ->
    exists ph, sys.2 !! j = Some ((begin_dependency mount).1, ph) /\ (cd_CacheKey mount = "" -> exists e, ph = FDone (Err e))) ms gs ->
  Forall (fun f => f_directory f.1 = true /\ directory_phase f.2) sys.2 -> Forall is_Some (zip_with (outcome parse sys) ms gs) ->
  Forall2 key_dir (mount_key <$> omap as_mount (zip_with (outcome parse sys) ms gs)) (gs ≫= goroutine_dirs sys.2).
Proof.
  intros Hm Hph. induction Hm as [|mount g ms gs Hg _ IH]; cbn; [constructor|]. intros Hs. apply Forall_cons in Hs as [Hs Hss].
  pose proof (outcome_dirs sys mount g Hg Hph Hs) as H1. specialize (IH Hss).
  destruct (as_mount (outcome parse sys mount g)) as [m|]; cbn in *; exact (Forall2_app H1 IH).
Qed.

Lemma solo_tidy w w' : solo_step w w' -> solo_inv w -> sys_reachable (m_sys w) ->
  tidy (sh_cache (m_sys w).1) (all_dirs (m_sys w)) -> tidy (sh_cache (m_sys w').1) (all_dirs (m_sys w')).
Proof.
  intros Hs [_ _ _ Hph] Hr Ht. destruct Hs as [w w' Hs|s l i f ph s' ph' tokens gs ms es c main log Hi Hs|s l io]; cbn in *.
  - destruct Hs as [sys tk l i mount g ms es c main log sys' tk' g' ms' es' log' Hmo Hl Hs|]; [|done].
    destruct Hs; cbn in *; try done. unfold all_dirs in *. cbn [fst snd]. rewrite bind_app. cbn.
    unfold begin_dependency, begin_fetch. destruct (bool_decide _); cbn; by rewrite !app_nil_r.
  - destruct (Forall_lookup_1 _ _ _ _ Hph Hi) as [Hf Hp]. by eapply sys_fetch_tidy.
  - destruct (reachable_cache _ Hr) as [readers Hc]. by eapply tidy_MakeRoom.
Qed.

(** A manager that has returned, in a cache of its own. *)
Lemma solo_returned dir maxSize minFree n tokens w :
  rtc solo_step (DownloadCachedDependencies mounts (New (NewCache dir maxSize minFree) n, []) tokens) w ->
  manager_inv w /\ solo_inv w /\ sys_reachable (m_sys w) /\ tidy (sh_cache (m_sys w).1) (all_dirs (m_sys w)).
Proof.
  intros Hr. apply (rtc_ind_r (fun w => manager_inv w /\ solo_inv w /\ sys_reachable (m_sys w) /\
    tidy (sh_cache (m_sys w).1) (all_dirs (m_sys w))) _) with (3 := Hr).
  - split; [apply manager_init_inv|]. split; [by apply solo_init_inv|]. split; [by exists dir, maxSize, minFree, n|apply tidy_init].
  - intros y z _ Hs (Hm & Hi & Hsys & Ht). split; [by eapply shared_step_inv, Hm; apply solo_shared|]. split; [by eapply solo_step_inv|].
    split; [|by eapply solo_tidy].
    destruct Hsys as (dir' & maxSize' & minFree' & n' & Hrun). exists dir', maxSize', minFree', n'.
    destruct Hs as [y z Hs|s l i f ph s' ph' tokens' gs ms es c main log Hi' Hs|s l io]; cbn in *.
    + destruct Hs as [sys tk l i mount g ms es c main log sys' tk' g' ms' es' log' Hmo Hl Hs|]; [|done].
      destruct Hs; cbn in *; try done. eapply rtc_r; [exact Hrun|]. destruct sys as [s l0]. apply sys_begin.
    + eapply rtc_r; [exact Hrun|]. by eapply sys_fetch.
    + eapply rtc_r; [exact Hrun|]. apply sys_MakeRoom.
Qed.

Lemma fetches_done w : solo_inv w -> Forall is_Some (outcomes parse mounts w) -> Forall (fun f => exists r, f.2 = FDone r) (m_sys w).2.
Proof.
  intros [Hd Hf Hmo Hph] Hs. apply Forall_lookup. intros j f Hj. pose proof (lookup_lt_Some _ _ _ Hj) as Hlt.
  assert (Hin : j ∈ omap g_fetch (m_goroutines w)) by (rewrite Hf; apply elem_of_seq; lia).
  apply list_elem_of_omap in Hin as (g & Hg & Hgj). apply list_elem_of_lookup in Hg as [i Hi].
  destruct (lookup_lt_is_Some_2 mounts i) as [mount Hm]; [rewrite (Forall2_length _ _ _ Hmo); by eapply lookup_lt_Some|].
  assert (Ho : outcomes parse mounts w !! i = Some (outcome parse (m_sys w) mount g)).
  { unfold outcomes. by rewrite lookup_zip_with, Hm; cbn; rewrite Hi. }
  destruct (Forall_lookup_1 _ _ _ _ Hs Ho) as [r Hr]. unfold outcome in Hr. rewrite Hgj, Hj in Hr. destruct f as [f ph].
  destruct ph; try done. by eexists.
Qed.
End Solo.

(** C29: What [DownloadCachedDependencies] returns, whatever else happens to the cache and
    to the limiter at the same time: every mount has come to something; the bind
    mounts are those of exactly the fetches that succeeded, also when there is an
    error, so that the caller can release them; there is no error when all of them
    succeeded, and otherwise it is the error of one that failed.  It never waits but
    for a token or for a fetch. *)
Theorem dependencies_accounted parse ByteSize logConfig mounts sys tokens w :
  rtc (shared_step parse ByteSize logConfig mounts) (DownloadCachedDependencies mounts sys tokens) w ->
  (forall acc err, m_main w = MReturned acc err ->
    Forall is_Some (outcomes parse mounts w) /\
    exists got, got ≡ₚ omap as_mount (outcomes parse mounts w) /\
      CacheKeys acc = mount_key <$> got /\ GardenBindMounts acc = cbm_BindMount <$> got /\
      match err with None => omap as_error (outcomes parse mounts w) = [] | Some e => e ∈ omap as_error (outcomes parse mounts w) end) /\
  ((forall w', ~ manager_step parse ByteSize logConfig mounts w w') ->
    Forall (waits w) (m_goroutines w) /\
    (Forall (fun g => g_phase g = GDone) (m_goroutines w) -> exists acc err, m_main w = MReturned acc err)).
Proof.
  intros Hr. pose proof (manager_reachable _ _ _ _ _ _ _ Hr) as Hinv. split.
  - intros acc err Hret. destruct (returned_spec _ _ _ _ _ Hinv Hret) as (Hsome & got & -> & Hgot & Herr). split; [done|]. exists got.
    destruct (AddBindMount_all got NewBindMounts) as [-> ->]. by split_and!.
  - intros Hno. split; [|intros Hall; by eapply main_progress]. apply Forall_lookup. intros i g Hg.
    destruct (lookup_lt_is_Some_2 mounts i) as [mount Hm]; [destruct Hinv as [Hok _]; rewrite (Forall2_length _ _ _ Hok); by eapply lookup_lt_Some|].
    by eapply goroutine_waits.
Qed.

(** C12: Nothing stays in use: when a container has downloaded its dependencies into a cache
    of its own, with or without an error, and releases the keys it was given, whatever
    the operating system answers, there is no error, the cache counts no user of the
    directory of any entry any more, and it keeps no entry that was replaced while it
    was in use. *)
Theorem dependencies_released parse ByteSize logConfig mounts dir maxSize minFree n tokens w acc err ios :
  rtc (solo_step parse ByteSize logConfig mounts) (DownloadCachedDependencies mounts (New (NewCache dir maxSize minFree) n, []) tokens) w ->
  m_main w = MReturned acc err ->
  exists c, ReleaseCachedDependencies ios (sh_cache (m_sys w).1) (CacheKeys acc) = (c, []) /\
    (forall key r e, fc_Entries c !! key = Some r -> fc_heap c !! r = Some e -> e_directoryInUseCount e = 0%Z) /\
    fc_OldEntries c = ∅.
Proof.
  intros Hr Hret. destruct (solo_returned _ _ _ _ _ _ _ _ _ _ Hr) as (Hinv & Hsolo & Hsys & Htidy).
  destruct (returned_spec _ _ _ _ _ Hinv Hret) as (Hsome & got & -> & Hgot & _). destruct (AddBindMount_all got NewBindMounts) as [-> _]. cbn [CacheKeys NewBindMounts app].
  pose proof (outcomes_dirs parse (m_sys w) (m_goroutines w) mounts (so_mounts _ _ Hsolo) (so_phases _ _ Hsolo) Hsome) as Hkeys.
  apply (fmap_Permutation mount_key) in Hgot. symmetry in Hgot. destruct (Permutation_Forall2 Hgot Hkeys) as (dirs & Hp & Hk).
  destruct (m_sys w) as [s l] eqn:Hw. cbn [fst snd] in *.
  assert (Hdirs : sh_dirs s ≡ₚ dirs).
  { rewrite <- Hp, <- goroutine_dirs_omap. pose proof (so_dirs _ _ Hsolo) as Hd. pose proof (so_fetches _ _ Hsolo) as Hf. rewrite Hw in *. cbn [fst snd] in *.
    by rewrite Hd, Hf, dirs_by_index. }
  destruct (release_steps ios s l _ dirs Hsys Htidy Hdirs Hk) as (s' & Hs' & Ht' & Hnil & Hrel).
  pose proof (fetches_done parse mounts w Hsolo Hsome) as Hdone. rewrite Hw in Hdone. cbn [snd] in Hdone.
  exists (sh_cache s'). split_and!; [done|intros key r e Hk' He; by eapply (counts_zero (s', l))|].
  apply tidy_closed. unfold all_dirs in Ht'. cbn [fst snd] in Ht'. rewrite Hnil in Ht'. by rewrite done_holds_nothing in Ht'.
Qed.

(** ** Runs of the dependency manager

    Concrete downloads for the theorems on dependencies: one that succeeds, through
    the whole of a fetch, and one whose URL is wrong. *)

Definition dr_parse (url : string) : option string := if bool_decide (url = "%") then Some "invalid URL escape" else None.
Definition dr_size (n : Z) : string := strconv_Itoa n +:+ "B".
Definition dr_config : LogConfig := mkLogConfig "app" 0 "" None.
Definition dr_mount : CachedDependency := mkCachedDependency "lib" "http://lib" "/lib" "k" "" "" "".

Abbreviation dr_step := (solo_step dr_parse dr_size dr_config [dr_mount]).

Lemma dr_step_eq (x y z : manager) : dr_step x y -> y = z -> dr_step x z.
Proof. by intros ? <-. Qed.

(** The manager while its fetch goes on. *)
Definition dr_log : list (string * string) := [("Downloading lib...", "LOG")].
Definition dr_at (s : Shared) (ph : Phase) : manager :=
  mkManager (s, [(fr_request, ph)]) 0 [mkGoroutine GFetch (Some 0%nat)] [] [] false (MLoop NewBindMounts 0) dr_log.

Definition dr_stored := Eval vm_compute in store (ok_io 3) None (sh_cache fr_downloaded) (sh_temps fr_downloaded) fr_request (fr_download "v1") 3.
Definition dr_result : result FetchError Fetched := dr_stored.2.
Definition dr_returning : Shared := set_temps (set_cache fr_downloaded dr_stored.1.1) dr_stored.1.2.
Definition dr_released : Shared := deliver fr_request dr_result (set_limiters dr_returning (delete (f_key fr_request) (sh_inProgress dr_returning)) ({[0%nat]} ∪ sh_closed dr_returning)).

Lemma dr_fetch_run : rtc dr_step (DownloadCachedDependencies [dr_mount] (fr_new, []) 1) (dr_at dr_released (FDone dr_result)).
Proof.
  apply rtc_l with (mkManager (fr_new, []) 0 [mkGoroutine GStart None] [] [] false (MLoop NewBindMounts 0) dr_log).
  { eapply dr_step_eq; [apply solo_own; eapply (step_goroutine _ _ _ _ _ _ _ 0); [reflexivity|reflexivity|by apply g_limiter]|]. vm_compute. reflexivity. }
  apply rtc_l with (dr_at fr_new FStart).
  { eapply dr_step_eq; [apply solo_own; eapply (step_goroutine _ _ _ _ _ _ _ 0); [reflexivity|reflexivity|by apply g_fetch_starts]|]. vm_compute. reflexivity. }
  apply rtc_l with (dr_at fr_acquired (FLookup 0)).
  { eapply dr_step_eq; [eapply (solo_fetch _ _ _ _ _ _ 0); [reflexivity|apply (fetch_acquire _ _ 0); [reflexivity|set_solver|by intros key]]|]. vm_compute. reflexivity. }
  apply rtc_l with (dr_at fr_acquired (FBarrier 0 (Err EntryNotFound) noCachingInfo)).
  { eapply dr_step_eq; [eapply (solo_fetch _ _ _ _ _ _ 0); [reflexivity|apply (fetch_lookup _ _ 0 (ok_io 1)); reflexivity]|]. vm_compute. reflexivity. }
  apply rtc_l with (dr_at (set_slots fr_acquired 1) (FDownload 0 (Err EntryNotFound) noCachingInfo)).
  { eapply dr_step_eq; [eapply (solo_fetch _ _ _ _ _ _ 0); [reflexivity|by apply (fetch_barrier _ _ 0 _ _ 1)]|]. vm_compute. reflexivity. }
  apply rtc_l with (dr_at fr_downloaded (FStale 0 None (fr_download "v1") 3)).
  { eapply dr_step_eq; [eapply (solo_fetch _ _ _ _ _ _ 0); [reflexivity|apply (fetch_downloaded _ _ 0 _ _ (fr_env "v1")); [apply fr_new_files|reflexivity]]|]. vm_compute. reflexivity. }
  apply rtc_l with (dr_at fr_downloaded (FStore 0 (fr_download "v1") 3)).
  { eapply dr_step_eq; [eapply (solo_fetch _ _ _ _ _ _ 0); [reflexivity|apply (fetch_stale _ _ 0 (ok_io 2))]|]. vm_compute. reflexivity. }
  apply rtc_l with (dr_at dr_returning (FReturn 0 dr_result)).
  { eapply dr_step_eq; [eapply (solo_fetch _ _ _ _ _ _ 0); [reflexivity|apply (fetch_stored _ _ 0 (ok_io 3) None); [done|reflexivity]]|]. vm_compute. reflexivity. }
  apply rtc_once. eapply dr_step_eq; [eapply (solo_fetch _ _ _ _ _ _ 0); [reflexivity|apply fetch_release]|]. vm_compute. reflexivity.
Qed.

(** What it returns. *)
Definition dr_got : cachedBindMount := Eval vm_compute in
  match dependency_result dr_mount dr_result with Ok m => m | Err _ => mkCachedBindMount "" (newBindMount "" "") end.
Definition dr_end : manager :=
  mkManager (dr_released, [(fr_request, FDone dr_result)]) 0 [mkGoroutine GRelease (Some 0%nat)] [] [] false
    (MReturned (AddBindMount NewBindMounts dr_got) None) (dr_log ++ [("Downloaded lib (3B)", "LOG")]).

Lemma dr_run : rtc dr_step (DownloadCachedDependencies [dr_mount] (fr_new, []) 1) dr_end.
Proof.
  etrans; [apply dr_fetch_run|].
  apply rtc_l with (mkManager (dr_released, [(fr_request, FDone dr_result)]) 0 [mkGoroutine (GSend (Ok dr_got)) (Some 0%nat)] [] [] false
    (MLoop NewBindMounts 0) (dr_log ++ [("Downloaded lib (3B)", "LOG")])).
  { eapply dr_step_eq; [apply solo_own; eapply (step_goroutine _ _ _ _ _ _ _ 0); [reflexivity|reflexivity|apply (g_fetched _ _ _ _ _ _ 0 fr_request dr_result); reflexivity]|]. vm_compute. reflexivity. }
  apply rtc_l with (mkManager (dr_released, [(fr_request, FDone dr_result)]) 0 [mkGoroutine GRelease (Some 0%nat)] [dr_got] [] false
    (MLoop NewBindMounts 0) (dr_log ++ [("Downloaded lib (3B)", "LOG")])).
  { eapply dr_step_eq; [apply solo_own; eapply (step_goroutine _ _ _ _ _ _ _ 0); [reflexivity|reflexivity|apply g_send_mount]|]. vm_compute. reflexivity. }
  apply rtc_once. eapply dr_step_eq; [apply solo_own, step_main, main_mount|]. vm_compute. reflexivity.
Qed.

Lemma rtc_shared w w' : rtc dr_step w w' -> rtc (shared_step dr_parse dr_size dr_config [dr_mount]) w w'.
Proof. apply rtc_subrel. intros x y. apply solo_shared. Qed.

Lemma dependencies_accounted_witness :
  rtc (shared_step dr_parse dr_size dr_config [dr_mount]) (DownloadCachedDependencies [dr_mount] (fr_new, []) 1) dr_end /\
  exists got, got ≡ₚ omap as_mount (outcomes dr_parse [dr_mount] dr_end) /\ [mount_key dr_got] = mount_key <$> got.
Proof.
  pose proof (rtc_shared _ _ dr_run) as Hr. split; [exact Hr|].
  destruct (dependencies_accounted _ _ _ _ _ _ _ Hr) as [Hret _].
  destruct (Hret _ _ eq_refl) as (_ & got & Hgot & Hkeys & _). by exists got.
Defined.

Lemma dependencies_released_witness :
  rtc dr_step (DownloadCachedDependencies [dr_mount] (fr_new, []) 1) dr_end /\
  exists c, ReleaseCachedDependencies (fun i => ok_io (Z.of_nat i + 4)) (sh_cache (m_sys dr_end).1) [mount_key dr_got] = (c, []) /\
    (forall key r e, fc_Entries c !! key = Some r -> fc_heap c !! r = Some e -> e_directoryInUseCount e = 0%Z) /\
    fc_OldEntries c = ∅.
Proof. split; [exact dr_run|]. exact (dependencies_released _ _ _ _ _ _ _ _ _ _ _ _ _ dr_run eq_refl). Defined.

(** The directory is in use until it is released. *)
Example dr_in_use : match fc_heap (sh_cache (m_sys dr_end).1) !! 0%nat with Some e => e_directoryInUseCount e = 1%Z | None => False end.
Proof. vm_compute. reflexivity. Qed.
