(* ===== verification/GardenHealth.v ===== *)
(** * Garden health checks

    executor/gardenhealth: the checker runs a process in a container of its own, with
    retries (checker.go); the runner repeats that, with a timeout, and tells the
    executor whether the cell is healthy (runner.go).  Garden keeps the containers
    with the tag of the health check; a call of it fails when the argument [garden]
    says so, with or without its effect. *)
From Stdlib Require Import ZArith Lia.
From S2P Require Import Prelude GoStd.

(** ** checker.go *)

Inductive HealthError :=
| ContainerNotFoundError (handle : string)
| GardenError (text : string)
| UnrecoverableError (text : string)
| HealthcheckFailedError (code : Z)
| HealthcheckTimeoutError.

Definition HealthError_Error (e : HealthError) : string :=
  match e with
  | ContainerNotFoundError handle => "unknown handle: " +:+ handle
  | GardenError text | UnrecoverableError text => text
  | HealthcheckFailedError code => "Healthcheck exited with " +:+ strconv_Itoa code
  | HealthcheckTimeoutError => "garden healthcheck timed out"
  end.

Definition ErrConcurrentDestroy : string := "container already being destroyed".
Definition HealthcheckPrefix : string := "check-".

(** How a call of garden goes: it works, or fails after it had its effect or not.  The
    number is the exit code of a process that is waited for. *)
Inductive answer := Works (code : Z) | Fails (e : HealthError) (happened : bool).

(** Garden, and the calls it was sent. *)
Inductive garden_call := Containers | Destroy (handle : string) | Create (handle : string) | Run | Wait.
Record garden_state := mkGarden { gs_containers : gset string; gs_calls : list garden_call }.

Section Checker.
Variable garden : nat -> answer.       (* the answer to the n-th call *)
Variable order : gset string -> list string.

Definition G (A : Type) : Type := garden_state -> garden_state * result HealthError A.
#[local] Abbreviation next s := (garden (length (gs_calls s))).
Definition called (s : garden_state) (c : garden_call) (containers : gset string) : garden_state :=
  mkGarden containers (gs_calls s ++ [c]).

Definition garden_Containers : G (list string) := fun s =>
  match next s with
  | Works _ => (called s Containers (gs_containers s), Ok (order (gs_containers s)))
  | Fails e _ => (called s Containers (gs_containers s), Err e)
  end.
Definition garden_Destroy (handle : string) : G unit := fun s =>
  if bool_decide (handle ∈ gs_containers s) then
    match next s with
    | Works _ => (called s (Destroy handle) (gs_containers s ∖ {[handle]}), Ok ())
    | Fails e happened => (called s (Destroy handle) (if happened then gs_containers s ∖ {[handle]} else gs_containers s), Err e)
    end
  else (called s (Destroy handle) (gs_containers s), Err (ContainerNotFoundError handle)).
Definition garden_Create (handle : string) : G unit := fun s =>
  if bool_decide (handle ∈ gs_containers s) then
    (called s (Create handle) (gs_containers s), Err (GardenError ("Handle '" +:+ handle +:+ "' already in use")))
  else
    match next s with
    | Works _ => (called s (Create handle) ({[handle]} ∪ gs_containers s), Ok ())
    | Fails e happened => (called s (Create handle) (if happened then {[handle]} ∪ gs_containers s else gs_containers s), Err e)
    end.
Definition garden_Run : G unit := fun s =>
  (called s Run (gs_containers s), match next s with Works _ => Ok () | Fails e _ => Err e end).
Definition garden_Wait : G Z := fun s =>
  (called s Wait (gs_containers s), match next s with Works code => Ok code | Fails e _ => Err e end).

Definition maxRetries : nat := 3.

(** [retryOnFail]; the command runs at least once. *)
Fixpoint retry {A} (n : nat) (cmd : G A) : G A := fun s =>
  match cmd s with
  | (s, Ok a) => (s, Ok a)
  | (s, Err e) => match n with O => (s, Err e) | S n => retry n cmd s end
  end.
Definition retryOnFail {A} (cmd : G A) : G A := retry (maxRetries - 1) cmd.

(** A destruction of a container that is being destroyed already is not an error. *)
Definition already_destroyed (cmd : G unit) : G unit := fun s =>
  match cmd s with
  | (s, Err e) => if bool_decide (HealthError_Error e = ErrConcurrentDestroy) then (s, Ok ()) else (s, Err e)
  | r => r
  end.

Definition list_containers : G (list string) := retryOnFail garden_Containers.

Fixpoint destroyContainers (containers : list string) : G unit := fun s =>
  match containers with
  | [] => (s, Ok ())
  | handle :: containers =>
      match retryOnFail (already_destroyed (garden_Destroy handle)) s with
      | (s, Ok _) => destroyContainers containers s
      | (s, Err e) => (s, Err e)
      end
  end.

Definition create (guid : string) : G unit := retryOnFail (garden_Create guid).

(** [destroyContainer]: errors but that of a container that is not there cannot be
    recovered from. *)
Definition destroyContainer (guid : string) : G unit := fun s =>
  match garden_Destroy guid s with
  | (s, Err (ContainerNotFoundError handle)) => (s, Err (ContainerNotFoundError handle))
  | (s, Err e) => (s, Err (UnrecoverableError (HealthError_Error e)))
  | r => r
  end.
Definition cleanupDestroy (guid : string) : G unit := retryOnFail (already_destroyed (destroyContainer guid)).

(** The part of [Healthcheck] between the creation and the cleanup. *)
Definition run_and_wait : G unit := fun s =>
  match retryOnFail garden_Run s with
  | (s, Err e) => (s, Err e)
  | (s, Ok _) =>
      match retryOnFail garden_Wait s with
      | (s, Err e) => (s, Err e)
      | (s, Ok exitCode) => (s, if (exitCode =? 0)%Z then Ok () else Err (HealthcheckFailedError exitCode))
      end
  end.

Definition Healthcheck (guid : string) : G unit := fun s =>
  let guid := HealthcheckPrefix +:+ guid in
  match list_containers s with
  | (s, Err e) => (s, Err e)
  | (s, Ok containers) =>
      match destroyContainers containers s with
      | (s, Err e) => (s, Err e)
      | (s, Ok _) =>
          match create guid s with
          | (s, Err e) => (s, Err e)
          | (s, Ok _) =>
              let '(s, result) := run_and_wait s in
              match cleanupDestroy guid s with
              | (s, Err e) => (s, Err e)
              | (s, Ok _) => (s, result)
              end
          end
      end
  end.

Definition Cancel : garden_state -> garden_state := fun s =>
  match list_containers s with
  | (s, Err _) => s
  | (s, Ok containers) => (destroyContainers containers s).1
  end.

(** ** What a check does *)

(** A command makes at most [n] calls and relates the containers before and after. *)
Definition command {A} (n : nat) (R : gset string -> result HealthError A -> gset string -> Prop) (cmd : G A) : Prop :=
  forall s, exists calls, gs_calls (cmd s).1 = gs_calls s ++ calls /\ (length calls <= n)%nat /\
    R (gs_containers s) (cmd s).2 (gs_containers (cmd s).1).

Lemma command_retry {A} (n k : nat) (R : gset string -> result HealthError A -> gset string -> Prop) (cmd : G A) :
  command n R cmd -> (forall x e y r z, R x (Err e) y -> R y r z -> R x r z) -> command (S k * n) R (retry k cmd).
Proof.
  intros Hc Ht. induction k as [|k IH]; intros s; cbn [retry]; destruct (Hc s) as (calls & H1 & H2 & H3);
    destruct (cmd s) as [s1 [a|e]]; cbn in H1, H3 |- *; try (by exists calls; split_and!; [|lia|]).
  destruct (IH s1) as (calls' & H4 & H5 & H6). exists (calls ++ calls'). rewrite H4, H1, app_assoc, length_app. split_and!; [done|lia|by eapply Ht].
Qed.

Definition keeps {A} (x : gset string) (r : result HealthError A) (y : gset string) : Prop := y = x.

Lemma Containers_command : command 1 (fun x r y => y = x /\ forall l, r = Ok l -> l = order x) garden_Containers.
Proof.
  intros s. unfold garden_Containers. destruct (garden _); cbn; (exists [Containers]; split_and!; [done|cbn; lia|done|]); [by intros l [= <-]|done].
Qed.

Lemma Run_command : command 1 keeps garden_Run.
Proof. intros s. unfold garden_Run. exists [Run]. by split_and!; [|cbn; lia|]. Qed.

Lemma Wait_command : command 1 keeps garden_Wait.
Proof. intros s. unfold garden_Wait. exists [Wait]. by split_and!; [|cbn; lia|]. Qed.

Lemma Create_command (guid : string) :
  command 1 (fun x r y => x ⊆ y /\ y ⊆ {[guid]} ∪ x /\ (r = Ok () -> guid ∈ y)) (garden_Create guid).
Proof.
  intros s. unfold garden_Create. case_bool_decide; [|destruct (garden _) as [|e []]]; cbn;
    (exists [Create guid]; split_and!; [done|cbn; lia|set_solver|set_solver|]); try done; set_solver.
Qed.

Hypothesis order_all : forall X, order X ≡ₚ elements X.
Hypothesis no_others : forall n e happened, garden n = Fails e happened -> HealthError_Error e <> ErrConcurrentDestroy.

(** Destroying: a success removes the container. *)
Definition destroys (guid : string) (x : gset string) (r : result HealthError unit) (y : gset string) : Prop :=
  x ∖ {[guid]} ⊆ y /\ y ⊆ x /\ (r = Ok () -> guid ∉ y).

Lemma destroys_trans guid x e y r z : destroys guid x (Err e) y -> destroys guid y r z -> destroys guid x r z.
Proof. unfold destroys. intros (? & ? & _) (? & ? & ?). split_and!; [set_solver|set_solver|done]. Qed.

Lemma Destroy_error (guid : string) s s' e : garden_Destroy guid s = (s', Err e) -> HealthError_Error e <> ErrConcurrentDestroy.
Proof.
  unfold garden_Destroy. case_bool_decide; [|by intros [= <- <-]]. destruct (garden _) as [|e' h] eqn:Hg; [done|].
  intros [= <- <-]. by eapply no_others.
Qed.

Lemma Destroy_command (guid : string) : command 1 (destroys guid) (garden_Destroy guid).
Proof.
  intros s. unfold garden_Destroy, destroys. case_bool_decide; [destruct (garden _) as [|e []]|]; cbn;
    (exists [Destroy guid]; split_and!; [done|cbn; lia|set_solver|set_solver|]); try done; set_solver.
Qed.

Lemma already_destroyed_command (guid : string) (cmd : G unit) :
  command 1 (destroys guid) cmd -> (forall s s' e, cmd s = (s', Err e) -> HealthError_Error e <> ErrConcurrentDestroy) ->
  command 1 (destroys guid) (already_destroyed cmd).
Proof.
  intros Hc He s. unfold already_destroyed. specialize (Hc s). destruct (cmd s) as [s' [[]|e]] eqn:Hs; [done|].
  by rewrite bool_decide_false by (by eapply He).
Qed.

Lemma destroyContainer_command (guid : string) : command 1 (destroys guid) (destroyContainer guid).
Proof.
  intros s. unfold destroyContainer. pose proof (Destroy_command guid s) as H. destruct (garden_Destroy guid s) as [s' [[]|[]]]; try done;
    destruct H as (calls & H1 & H2 & H3 & H4 & _); by exists calls; split_and!.
Qed.

Lemma destroyContainer_error (guid : string) s s' e : destroyContainer guid s = (s', Err e) -> HealthError_Error e <> ErrConcurrentDestroy.
Proof.
  unfold destroyContainer. destruct (garden_Destroy guid s) as [s1 [[]|e1]] eqn:Hd; [done|]. apply Destroy_error in Hd.
  destruct e1; intros [= <- <-]; done.
Qed.

Lemma destroy_retried (guid : string) : command 3 (destroys guid) (retryOnFail (already_destroyed (garden_Destroy guid))).
Proof. apply (command_retry 1 2); [apply already_destroyed_command; [apply Destroy_command|apply Destroy_error]|intros; by eapply destroys_trans]. Qed.

Lemma cleanup_command (guid : string) : command 3 (destroys guid) (cleanupDestroy guid).
Proof.
  apply (command_retry 1 2); [apply already_destroyed_command; [apply destroyContainer_command|apply destroyContainer_error]|intros; by eapply destroys_trans].
Qed.

Lemma destroyContainers_command (l : list string) :
  command (3 * length l) (fun x r y => y ⊆ x /\ (r = Ok () -> forall h, h ∈ l -> h ∉ y)) (destroyContainers l).
Proof.
  induction l as [|h l IH]; intros s; cbn [destroyContainers].
  { exists []. rewrite app_nil_r. split_and!; [done|cbn; lia|done|]. intros _ h Hh. by apply not_elem_of_nil in Hh. }
  destruct (destroy_retried h s) as (calls & H1 & H2 & H3 & H4 & H5). destruct (retryOnFail _ s) as [s1 [[]|e]]; cbn in H1, H3, H4, H5.
  - destruct (IH s1) as (calls' & H6 & H7 & H8 & H9). exists (calls ++ calls'). rewrite H6, H1, app_assoc, length_app. cbn [length].
    split_and!; [done|lia|set_solver|]. intros Hr h' Hin. apply elem_of_cons in Hin as [->|Hin]; [|by apply H9]. specialize (H5 eq_refl). set_solver.
  - exists calls. cbn [length]. split_and!; [done|lia|set_solver|done].
Qed.

Lemma run_and_wait_command :
  command 6 (fun x r y => y = x) run_and_wait /\
  forall s s', run_and_wait s = (s', Ok ()) -> exists k, gs_calls s' !! k = Some Wait /\ garden k = Works 0.
Proof.
  assert (Hrun : command 3 keeps (retryOnFail garden_Run)) by (apply (command_retry 1 2); [apply Run_command|unfold keeps; congruence]).
  assert (Hwait : command 3 keeps (retryOnFail garden_Wait)) by (apply (command_retry 1 2); [apply Wait_command|unfold keeps; congruence]).
  split.
  - intros s. unfold run_and_wait. destruct (Hrun s) as (calls & H1 & H2 & H3). destruct (retryOnFail garden_Run s) as [s1 [[]|e]]; cbn [fst snd] in *.
    2:{ exists calls. by split_and!; [|lia|]. }
    destruct (Hwait s1) as (calls' & H4 & H5 & H6). unfold keeps in *. destruct (retryOnFail garden_Wait s1) as [s2 [c|e]]; cbn [fst snd] in *;
      (exists (calls ++ calls'); rewrite H4, H1, app_assoc, length_app; split_and!; [done|lia|congruence]).
  - intros s s'. unfold run_and_wait. destruct (retryOnFail garden_Run s) as [s1 [[]|e]]; [|done].
    destruct (retryOnFail garden_Wait s1) as [s2 [c|e]] eqn:Hw; [|done]. destruct (Z.eqb_spec c 0) as [->|]; [|done]. intros [= <-].
    clear Hrun Hwait. unfold retryOnFail in Hw. revert s1 Hw. generalize (maxRetries - 1)%nat. intros n. induction n as [|n IH]; intros s1; cbn [retry]; unfold garden_Wait at 1;
      destruct (garden (length (gs_calls s1))) as [code|e] eqn:Hg; cbn.
    + intros [= <- ->]. exists (length (gs_calls s1)). cbn. by rewrite lookup_app_r, Nat.sub_diag by lia.
    + done.
    + intros [= <- ->]. exists (length (gs_calls s1)). cbn. by rewrite lookup_app_r, Nat.sub_diag by lia.
    + apply IH.
Qed.

Lemma lookup_calls (l calls : list garden_call) (k : nat) (c : garden_call) : l !! k = Some c -> (l ++ calls) !! k = Some c.
Proof. intros Hk. rewrite lookup_app_l; [done|]. by eapply lookup_lt_Some. Qed.

(** The whole check. *)
Lemma Healthcheck_spec (guid : string) (s : garden_state) :
  exists calls, gs_calls (Healthcheck guid s).1 = gs_calls s ++ calls /\ (length calls <= 3 * (size (gs_containers s) + 5))%nat /\
    gs_containers (Healthcheck guid s).1 ⊆ {[HealthcheckPrefix +:+ guid]} ∪ gs_containers s /\
    ((Healthcheck guid s).2 = Ok () ->
      gs_containers (Healthcheck guid s).1 = ∅ /\ exists k, gs_calls (Healthcheck guid s).1 !! k = Some Wait /\ garden k = Works 0).
Proof.
  unfold Healthcheck. assert (Hlist : command 3 (fun x r y => y = x /\ forall l, r = Ok l -> l = order x) list_containers).
  { apply (command_retry 1 2); [apply Containers_command|]. intros x e y r z [-> _] H. exact H. }
  assert (Hcreate : forall g, command 3 (fun x r y => x ⊆ y /\ y ⊆ {[g]} ∪ x /\ (r = Ok () -> g ∈ y)) (create g)).
  { intros g. apply (command_retry 1 2); [apply Create_command|]. intros x e y r z (? & ? & _) (? & ? & ?). split_and!; [set_solver|set_solver|done]. }
  destruct (Hlist s) as (c1 & H1 & L1 & Hs1 & Ho). destruct (list_containers s) as [s1 [l|e]]; cbn [fst snd] in *.
  2:{ exists c1. split_and!; [done|lia|set_solver|done]. }
  specialize (Ho l eq_refl). assert (Hlen : length l = size (gs_containers s)) by (subst l; by rewrite order_all).
  destruct (destroyContainers_command l s1) as (c2 & H2 & L2 & Hs2 & Hd). destruct (destroyContainers l s1) as [s2 [[]|e]]; cbn [fst snd] in *.
  2:{ exists (c1 ++ c2). rewrite H2, H1, app_assoc, length_app. split_and!; [done|lia|set_solver|done]. }
  assert (Hempty : gs_containers s2 = ∅).
  { apply elem_of_equiv_empty_L. intros h Hh. apply (Hd eq_refl h); [|done]. subst l. rewrite order_all. apply elem_of_elements. rewrite <- Hs1. set_solver. }
  destruct (Hcreate (HealthcheckPrefix +:+ guid) s2) as (c3 & H3 & L3 & _ & Hs3 & _). destruct (create _ s2) as [s3 [[]|e]]; cbn [fst snd] in *.
  2:{ exists ((c1 ++ c2) ++ c3). rewrite H3, H2, H1, !app_assoc, !length_app. split_and!; [done|lia|set_solver|done]. }
  destruct run_and_wait_command as [Hrw Hok]. specialize (Hok s3). destruct (Hrw s3) as (c4 & H4 & L4 & Hs4). destruct (run_and_wait s3) as [s4 r]; cbn [fst snd] in *.
  destruct (cleanup_command (HealthcheckPrefix +:+ guid) s4) as (c5 & H5 & L5 & _ & Hs5 & Hc). destruct (cleanupDestroy _ s4) as [s5 [[]|e]]; cbn [fst snd] in *;
    (exists ((((c1 ++ c2) ++ c3) ++ c4) ++ c5); rewrite H5, H4, H3, H2, H1, !app_assoc, !length_app; split_and!; [done|lia|set_solver|]); [|done].
  intros ->. split; [specialize (Hc eq_refl); set_solver|]. destruct (Hok s4 eq_refl) as (k & Hk & Hg). exists k. split; [|done].
  rewrite H4, H3, H2, H1 in Hk. by apply lookup_calls.
Qed.
End Checker.

(** A health check passes only if a process has run in a new container and has exited
    with 0, and then no health check container is left; it never leaves others behind
    than those that were there and its own; and it makes at most three calls for each
    thing it does.  Nobody else destroys the containers. *)
Theorem healthcheck_outcome garden order guid s s' r :
  (forall X, order X ≡ₚ elements X) ->
  (forall n e happened, garden n = Fails e happened -> HealthError_Error e <> ErrConcurrentDestroy) ->
  Healthcheck garden order guid s = (s', r) ->
  (length (gs_calls s') <= length (gs_calls s) + 3 * (size (gs_containers s) + 5))%nat /\
  gs_containers s' ⊆ {[HealthcheckPrefix +:+ guid]} ∪ gs_containers s /\
  (r = Ok () -> gs_containers s' = ∅ /\ exists k, gs_calls s' !! k = Some Wait /\ garden k = Works 0).
Proof.
  intros Ho Hn H. destruct (Healthcheck_spec garden order Ho Hn guid s) as (calls & H1 & H2 & H3 & H4). rewrite H in *. cbn [fst snd] in *.
  rewrite H1, length_app in *. split_and!; [lia|done|done].
Qed.

(** ** runner.go *)

Inductive timer := TimerOff | TimerArmed | TimerFired.
Inductive runner_phase := RInitial | RLoop | RReturned (err : option HealthError).

(** What the runner has seen of a check. *)
Inductive event := CheckPassed | CheckPassedLate | CheckFailed (e : HealthError) | CheckTimedOut.

Record runner := mkRunner {
  rn_phase : runner_phase;
  rn_timeout : timer;                      (* healthcheckTimeout *)
  rn_start : timer;                        (* startHealthcheck *)
  rn_running : nat;                        (* the goroutines of healthcheckCycle *)
  rn_complete : list (option HealthError); (* healthcheckComplete *)
  rn_healthy : bool;                       (* the executor's *)
  rn_cancels : nat;
  rn_metrics : list (string * Z);
  rn_seen : list event }.

Definition GardenHealthCheckFailedMetric : string := "GardenHealthCheckFailed".
Definition CellUnhealthyMetric : string := "CellUnhealthy".

Definition emitUnhealthyCellMetric (healthy : bool) : string * Z := (GardenHealthCheckFailedMetric, if healthy then 0%Z else 1%Z).

(** [setHealthy] and [setUnhealthy]. *)
Definition set_health (r : runner) (healthy : bool) (seen : event) : runner :=
  mkRunner (rn_phase r) (rn_timeout r) (rn_start r) (rn_running r) (rn_complete r) healthy (rn_cancels r)
    (rn_metrics r ++ [emitUnhealthyCellMetric healthy]) (rn_seen r ++ [seen]).
Definition timed_out (r : runner) : runner :=
  let r := set_health r false CheckTimedOut in
  mkRunner (rn_phase r) TimerOff (rn_start r) (rn_running r) (rn_complete r) (rn_healthy r) (S (rn_cancels r))
    (rn_metrics r ++ [(CellUnhealthyMetric, 1%Z)]) (rn_seen r).
Definition goes_to (r : runner) (phase : runner_phase) : runner :=
  mkRunner phase (rn_timeout r) (rn_start r) (rn_running r) (rn_complete r) (rn_healthy r) (rn_cancels r) (rn_metrics r) (rn_seen r).
Definition set_timers (r : runner) (timeout start : timer) : runner :=
  mkRunner (rn_phase r) timeout start (rn_running r) (rn_complete r) (rn_healthy r) (rn_cancels r) (rn_metrics r) (rn_seen r).
Definition set_checks (r : runner) (running : nat) (complete : list (option HealthError)) : runner :=
  mkRunner (rn_phase r) (rn_timeout r) (rn_start r) running complete (rn_healthy r) (rn_cancels r) (rn_metrics r) (rn_seen r).

(** [Run] with the health the executor starts with. *)
Definition start_runner (healthy : bool) : runner := mkRunner RInitial TimerArmed TimerOff 1 [] healthy 0 [] [].

(** The timers and the goroutine of the check. *)
Inductive outside_step (r : runner) : runner -> Prop :=
| timeout_fires : rn_timeout r = TimerArmed -> outside_step r (set_timers r TimerFired (rn_start r))
| start_fires : rn_start r = TimerArmed -> outside_step r (set_timers r (rn_timeout r) TimerFired)
| check_ends n err : rn_running r = S n -> rn_complete r = [] -> outside_step r (set_checks r n [err]).

(** The first loop. *)
Inductive initial_step (r : runner) : runner -> Prop :=
| initial_signal : initial_step r (goes_to r (RReturned None))
| initial_timeout : rn_timeout r = TimerFired -> initial_step r (goes_to (timed_out r) (RReturned (Some HealthcheckTimeoutError)))
| initial_unrecoverable text rest :
    rn_complete r = Some (UnrecoverableError text) :: rest ->
    initial_step r (goes_to (set_health (set_checks r (rn_running r) rest) false (CheckFailed (UnrecoverableError text)))
                      (RReturned (Some (UnrecoverableError text))))
| initial_failed e rest :
    rn_complete r = Some e :: rest -> (forall text, e <> UnrecoverableError text) ->
    initial_step r (set_health (set_checks r (S (rn_running r)) rest) false (CheckFailed e))
| initial_passed rest :
    rn_complete r = None :: rest ->
    initial_step r (goes_to (set_timers (set_health (set_checks r (rn_running r) rest) true CheckPassed) TimerOff TimerArmed) RLoop).

(** The loop; stopping the timeout reports whether it was in time: it was when the timer
    had not fired, it was not when its firing has been handled, and it may be either when
    it has fired and nobody has received from its channel. *)
Inductive loop_step (r : runner) : runner -> Prop :=
| loop_signal : loop_step r (goes_to r (RReturned None))
| loop_start : rn_start r = TimerFired -> loop_step r (set_checks (set_timers r TimerArmed TimerOff) (S (rn_running r)) (rn_complete r))
| loop_timeout : rn_timeout r = TimerFired -> loop_step r (timed_out r)
| loop_emit :
    loop_step r (mkRunner (rn_phase r) (rn_timeout r) (rn_start r) (rn_running r) (rn_complete r) (rn_healthy r) (rn_cancels r)
                   (rn_metrics r ++ [emitUnhealthyCellMetric (rn_healthy r)]) (rn_seen r))
| loop_passed rest :
    rn_complete r = None :: rest -> rn_timeout r <> TimerOff ->
    loop_step r (set_timers (set_health (set_checks r (rn_running r) rest) true CheckPassed) TimerOff TimerArmed)
| loop_passed_late rest :
    rn_complete r = None :: rest -> rn_timeout r <> TimerArmed ->
    loop_step r (mkRunner (rn_phase r) TimerOff TimerArmed (rn_running r) rest (rn_healthy r) (rn_cancels r) (rn_metrics r)
                   (rn_seen r ++ [CheckPassedLate]))
| loop_failed e rest :
    rn_complete r = Some e :: rest ->
    loop_step r (set_timers (set_health (set_checks r (rn_running r) rest) false (CheckFailed e)) TimerOff TimerArmed).

Inductive runner_step (r : runner) : runner -> Prop :=
| runner_outside r' : outside_step r r' -> runner_step r r'
| runner_initial r' : rn_phase r = RInitial -> initial_step r r' -> runner_step r r'
| runner_loop r' : rn_phase r = RLoop -> loop_step r r' -> runner_step r r'.

(** The health that follows from what was seen. *)
Definition verdict (healthy : bool) (e : event) : bool :=
  match e with CheckPassed => true | CheckPassedLate => healthy | CheckFailed _ | CheckTimedOut => false end.

Definition started (r : runner) : nat := match rn_start r with TimerOff => 0 | _ => 1 end.

Definition failed_metrics (r : runner) : list Z := omap (fun m => if decide (m.1 = GardenHealthCheckFailedMetric) then Some m.2 else None) (rn_metrics r).
#[global] Arguments failed_metrics : simpl never.

Record runner_inv (h : bool) (r : runner) : Prop := mkRunnerInv {
  ri_one : match rn_phase r with
           | RInitial => rn_running r + length (rn_complete r) = 1 /\ rn_start r = TimerOff /\ rn_timeout r <> TimerOff
           | RLoop => rn_running r + length (rn_complete r) + started r = 1
           | RReturned _ => True
           end;
  ri_health : rn_healthy r = foldl verdict h (rn_seen r);
  ri_overdue : match rn_phase r with RReturned _ => True | _ => rn_running r + length (rn_complete r) = 1 -> rn_timeout r <> TimerOff \/ rn_healthy r = false end;
  ri_phase : match rn_phase r with
             | RInitial => CheckPassed ∉ rn_seen r /\ CheckPassedLate ∉ rn_seen r
             | RLoop => CheckPassed ∈ rn_seen r
             | RReturned None => True
             | RReturned (Some e) => CheckPassed ∉ rn_seen r /\ rn_healthy r = false /\
                 match e with HealthcheckTimeoutError => CheckTimedOut ∈ rn_seen r | _ => CheckFailed e ∈ rn_seen r end
             end;
  ri_metrics : rn_seen r <> [] -> last (failed_metrics r) = Some (if rn_healthy r then 0 else 1)%Z }.

Lemma failed_metrics_snoc (r r' : runner) : rn_metrics r' = rn_metrics r ++ [emitUnhealthyCellMetric (rn_healthy r')] ->
  last (failed_metrics r') = Some (if rn_healthy r' then 0 else 1)%Z.
Proof. intros Hm. unfold failed_metrics. rewrite Hm, omap_app. cbn -[decide]. rewrite decide_True by done. apply last_snoc. Qed.

Lemma failed_metrics_other (r r' : runner) : rn_metrics r' = (rn_metrics r ++ [emitUnhealthyCellMetric (rn_healthy r')]) ++ [(CellUnhealthyMetric, 1%Z)] ->
  last (failed_metrics r') = Some (if rn_healthy r' then 0 else 1)%Z.
Proof. intros Hm. unfold failed_metrics. rewrite Hm, !omap_app. cbn -[decide]. rewrite decide_True, decide_False, app_nil_r by done. apply last_snoc. Qed.

Lemma not_seen (l : list event) (e e' : event) : e <> e' -> e ∉ l -> e ∉ l ++ [e'].
Proof. intros Hne Hl. rewrite elem_of_app, list_elem_of_singleton. naive_solver. Qed.

Lemma outside_inv h r r' : outside_step r r' -> runner_inv h r -> runner_inv h r'.
Proof.
  intros Hs [Hone Hh Ho Hp Hm]. destruct Hs as [Ht|Ht|n err Hr Hc]; split; cbn in *; try done.
  - destruct (rn_phase r); [|exact Hone|done]. by destruct Hone as (? & ? & _).
  - destruct (rn_phase r); try done; intros _; by left.
  - destruct (rn_phase r) eqn:Hph; [destruct Hone as (? & Hst & _); congruence| |done]. unfold started in *. cbn. by rewrite Ht in Hone.
  - unfold started in *. rewrite Hr, Hc in Hone. destruct (rn_phase r); cbn in *; [|lia|done]. destruct Hone as (? & ? & ?). split_and!; [lia|done..].
  - rewrite Hr, Hc in Ho. destruct (rn_phase r); cbn in *; try done; intros; apply Ho; lia.
Qed.

Lemma initial_runner_inv h r r' : rn_phase r = RInitial -> initial_step r r' -> runner_inv h r -> runner_inv h r'.
Proof.
  intros Hph Hs [Hone Hh Ho Hp Hm]. rewrite Hph in *. destruct Hone as (Hone & Hst & Hti). destruct Hp as [Hp1 Hp2].
  destruct Hs as [|Ht|text rest Hc|e rest Hc Hne|rest Hc]; split; cbn; rewrite ?Hph, ?foldl_app; cbn; rewrite <- ?Hh; try done.
  all: try (intros _; by apply (failed_metrics_snoc r)).
  - split_and!; [by apply not_seen|done|set_solver].
  - intros _. by apply (failed_metrics_other r).
  - split_and!; [by apply not_seen|done|set_solver].
  - rewrite Hc in Hone. cbn in *. split_and!; [lia|done|done].
  - by right.
  - split; by apply not_seen.
  - rewrite Hc in Hone. unfold started. cbn in *. lia.
  - rewrite Hc in Hone. cbn in Hone. lia.
  - set_solver.
Qed.

Lemma loop_inv h r r' : rn_phase r = RLoop -> loop_step r r' -> runner_inv h r -> runner_inv h r'.
Proof.
  intros Hph Hs [Hone Hh Ho Hp Hm]. rewrite Hph in *. unfold started in Hone.
  destruct Hs as [|Ht|Ht| |rest Hc Ht|rest Hc Ht|e rest Hc]; split; cbn; rewrite ?Hph, ?foldl_app; cbn; rewrite <- ?Hh; try done.
  all: try (intros _; by apply (failed_metrics_snoc r)).
  all: try (rewrite Hc in Hone; cbn in Hone; unfold started; cbn; by destruct (rn_start r); cbn in *; lia).
  all: try set_solver.
  - rewrite Ht in Hone. lia.
  - intros _. by apply (failed_metrics_other r).
  - intros _. match goal with |- last (failed_metrics ?x) = _ => exact (failed_metrics_snoc r x eq_refl) end.
  - intros _. rewrite <- Hm; [done|]. intros Hz. rewrite Hz in Hp. by apply not_elem_of_nil in Hp.
Qed.

Lemma runner_reachable h r : rtc runner_step (start_runner h) r -> runner_inv h r.
Proof.
  intros Hr. apply (rtc_ind_r (runner_inv h) _) with (3 := Hr).
  - split; cbn; try done; [by left|by split; apply not_elem_of_nil].
  - intros y z _ [z' Hs|z' Hp Hs|z' Hp Hs] Hi; [by eapply outside_inv|by eapply initial_runner_inv|by eapply loop_inv].
Qed.


(** Before the first check has ended the cell is as healthy as the executor says it is
    when it starts. *)
Lemma unchecked_cell_healthy : exists r, rtc runner_step (start_runner true) r /\ rn_seen r = [] /\ rn_healthy r = true /\ rn_phase r = RInitial.
Proof. by exists (start_runner true). Qed.

(** ** Examples *)

Definition gh_order (X : gset string) : list string := elements X.
(** The first creation fails, the other calls work. *)
Definition gh_garden (n : nat) : answer := if (n =? 2)%nat then Fails (GardenError "timeout") false else Works 0.

Lemma healthcheck_outcome_witness :
  let s := mkGarden {["check-old"]} [] in
  (Healthcheck gh_garden gh_order "new" s).2 = Ok () /\
  gs_containers (Healthcheck gh_garden gh_order "new" s).1 = ∅ /\ length (gs_calls (Healthcheck gh_garden gh_order "new" s).1) = 7%nat.
Proof.
  cbn zeta. split; [vm_compute; reflexivity|]. split; [|vm_compute; reflexivity].
  refine (proj1 (proj2 (proj2 (healthcheck_outcome gh_garden gh_order "new" (mkGarden {["check-old"]} []) _ _ _ _ (surjective_pairing _))) _)).
  - intros X. reflexivity.
  - intros n e happened. unfold gh_garden. destruct (n =? 2)%nat; [by intros [= <- _]|done].
  - vm_compute. reflexivity.
Defined.

