(* ===== verification/GoStrings.v ===== *)
(** * Strings and paths

    [strings.Split], [strings.Replace] of a character, and [filepath.Clean] and
    [filepath.Join] on Unix; numbers in texts.  Texts are lists of bytes. *)
From Stdlib Require Import ZArith Lia Ascii NArith.
From S2P Require Import Prelude.

Abbreviation chars := (list ascii).
Abbreviation text := String.list_ascii_of_string.
Abbreviation untext := String.string_of_list_ascii.

Lemma untext_text s : untext (text s) = s.
Proof. apply String.string_of_list_ascii_of_string. Qed.
Lemma text_untext l : text (untext l) = l.
Proof. apply String.list_ascii_of_string_of_list_ascii. Qed.
Lemma text_app s t : text (s +:+ t) = text s ++ text t.
Proof. induction s as [|a s IH]; [done|]. exact (f_equal (cons a) IH). Qed.
Lemma untext_app s t : untext (s ++ t) = untext s +:+ untext t.
Proof. induction s as [|a s IH]; [done|]. exact (f_equal (String a) IH). Qed.

(** ** Splitting and replacing *)

Fixpoint Split (c : ascii) (s : chars) : list chars :=
  match s with
  | [] => [[]]
  | a :: s =>
      match Split c s with
      | part :: parts => if Ascii.eqb a c then [] :: part :: parts else (a :: part) :: parts
      | [] => []
      end
  end.

Definition Replace (old new : ascii) (s : chars) : chars := (fun a => if Ascii.eqb a old then new else a) <$> s.

Fixpoint join (c : ascii) (l : list chars) : chars :=
  match l with [] => [] | [p] => p | p :: l => p ++ c :: join c l end.

Lemma Split_ne c l : Split c l <> [].
Proof. induction l as [|b r IH]; cbn; [done|]. destruct (Split c r); [done|]. by destruct (Ascii.eqb b c). Qed.

Lemma Split_none c l : c ∉ l -> Split c l = [l].
Proof.
  induction l as [|a l IH]; [done|]. intros [Hne Hl]%not_elem_of_cons. cbn. rewrite IH by done. destruct (Ascii.eqb_spec a c); [by subst|done].
Qed.
Lemma Split_cons c l r : c ∉ l -> Split c (l ++ c :: r) = l :: Split c r.
Proof.
  induction l as [|a l IH]; cbn [app Split].
  - intros _. rewrite Ascii.eqb_refl. pose proof (Split_ne c r). by destruct (Split c r).
  - intros [Hne Hl]%not_elem_of_cons. rewrite IH by done. destruct (Ascii.eqb_spec a c); [by subst|done].
Qed.

Lemma Split_join c l : l <> [] -> Forall (fun p => c ∉ p) l -> Split c (join c l) = l.
Proof.
  intros Hne Hl. induction Hl as [|p l Hp Hl IH]; [done|]. destruct l as [|q l]; [by apply Split_none|].
  change (join c (p :: q :: l)) with (p ++ c :: join c (q :: l)). rewrite Split_cons by done. by rewrite IH.
Qed.

Lemma join_snoc c l p : l <> [] -> join c (l ++ [p]) = join c l ++ c :: p.
Proof.
  induction l as [|q l IH]; [done|]. intros _. destruct l as [|r l]; [done|].
  change (join c ((q :: r :: l) ++ [p])) with (q ++ c :: join c ((r :: l) ++ [p])). rewrite IH by done.
  change (join c (q :: r :: l)) with (q ++ c :: join c (r :: l)). by rewrite <- app_assoc.
Qed.

Lemma Replace_not_in old new s : old <> new -> old ∉ Replace old new s.
Proof. intros Hne (a & Ha & _)%list_elem_of_fmap. destruct (Ascii.eqb_spec a old); [by subst|congruence]. Qed.

Lemma Replace_back old new s : new ∉ s -> Replace new old (Replace old new s) = s.
Proof.
  induction s as [|a s IH]; [done|]. intros [Hne Hs]%not_elem_of_cons. unfold Replace in *. cbn. rewrite IH by done. f_equal.
  destruct (Ascii.eqb_spec a old) as [->|Ha]; [by rewrite Ascii.eqb_refl|]. destruct (Ascii.eqb_spec a new); [by subst|done].
Qed.

(** ** Paths *)

Definition slash : ascii := "/".
Definition dot : chars := ["."%char].
Definition dotdot : chars := ["."%char; "."%char].

(** The elements of a path, without the empty ones and the dots; [out] is what there
    is so far, the last one first. *)
Fixpoint clean_parts (rooted : bool) (out : list chars) (parts : list chars) : list chars :=
  match parts with
  | [] => reverse out
  | p :: parts =>
      if bool_decide (p = [] \/ p = dot) then clean_parts rooted out parts
      else if bool_decide (p = dotdot) then
        match out with
        | q :: out' => if bool_decide (q = dotdot) then clean_parts rooted (p :: out) parts else clean_parts rooted out' parts
        | [] => if rooted then clean_parts rooted [] parts else clean_parts rooted [p] parts
        end
      else clean_parts rooted (p :: out) parts
  end.

Definition Clean (s : chars) : chars :=
  let rooted := bool_decide (head s = Some slash) in
  let parts := clean_parts rooted [] (Split slash s) in
  if rooted then slash :: join slash parts else match parts with [] => dot | _ => join slash parts end.

Fixpoint Join (l : list chars) : chars :=
  match l with
  | [] => []
  | [] :: l => Join l
  | l => Clean (join slash l)
  end.

(** An element that [Clean] keeps; an absolute path of such elements. *)
Definition simple (p : chars) : Prop := p <> [] /\ p <> dot /\ p <> dotdot /\ slash ∉ p.
Definition absolute (parts : list chars) : chars := slash :: join slash parts.

Lemma clean_parts_simple out parts : Forall simple parts -> clean_parts true out parts = reverse out ++ parts.
Proof.
  intros Hp. revert out. induction Hp as [|p parts (H1 & H2 & H3 & _) _ IH]; intros out; cbn [clean_parts]; [by rewrite app_nil_r|].
  rewrite !bool_decide_false by naive_solver. rewrite IH, reverse_cons, <- app_assoc. done.
Qed.

Lemma Clean_absolute parts : Forall simple parts -> Clean (absolute parts) = absolute parts.
Proof.
  intros Hp. unfold Clean. rewrite bool_decide_true by done. unfold absolute. f_equal. f_equal.
  change (slash :: join slash parts) with ([] ++ slash :: join slash parts). rewrite Split_cons by apply not_elem_of_nil. cbn [clean_parts].
  rewrite bool_decide_true by by left. destruct parts as [|p parts]; [done|]. rewrite Split_join; [by apply (clean_parts_simple [])|done|].
  eapply list.Forall_impl; [exact Hp|]. by intros q (_ & _ & _ & ?).
Qed.

Definition with_slash (dir : chars) : chars := if bool_decide (last dir = Some slash) then dir else dir ++ [slash].

Lemma last_simple p : simple p -> last p <> Some slash.
Proof. intros (_ & _ & _ & H) Hl. apply H. by apply last_Some_elem_of. Qed.

Lemma last_join parts : Forall simple parts -> parts <> [] -> last (join slash parts) <> Some slash /\ join slash parts <> [].
Proof.
  induction 1 as [|p parts Hp Hs IH]; [done|]. intros _. destruct parts as [|q parts]; [split; [by apply last_simple|by destruct Hp]|].
  change (join slash (p :: q :: parts)) with (p ++ slash :: join slash (q :: parts)). destruct IH as [IH1 IH2]; [done|]. split; [|by destruct p].
  rewrite last_app, last_cons. destruct (join slash (q :: parts)) as [|a l] eqn:E; [done|]. destruct (last (a :: l)) eqn:E2; [done|by apply last_None in E2].
Qed.

Lemma with_slash_absolute parts : Forall simple parts -> parts <> [] -> with_slash (absolute parts) = absolute parts ++ [slash].
Proof.
  intros Hs Hne. unfold with_slash, absolute. rewrite bool_decide_false; [done|]. destruct (last_join parts) as [Hl Hj]; [done..|].
  rewrite last_cons. destruct (last (join slash parts)) eqn:E; [congruence|by apply last_None in E].
Qed.

(** Joining a path of simple elements and another one. *)
Lemma Join_absolute parts p : Forall simple parts -> simple p -> Join [absolute parts; p] = with_slash (absolute parts) ++ p.
Proof.
  intros Hs Hp. change (Join [absolute parts; p]) with (Clean (absolute parts ++ slash :: p)). destruct parts as [|q parts].
  - unfold Clean, absolute. rewrite bool_decide_true by done. cbn [join app]. change (slash :: slash :: p) with ([] ++ slash :: [] ++ slash :: p).
    rewrite !Split_cons, Split_none by (apply not_elem_of_nil || by destruct Hp as (_ & _ & _ & ?)). cbn [clean_parts].
    destruct Hp as (H1 & H2 & H3 & _). rewrite !bool_decide_true by by left. rewrite !bool_decide_false by naive_solver. done.
  - replace (absolute (q :: parts) ++ slash :: p) with (absolute ((q :: parts) ++ [p])).
    + rewrite Clean_absolute by (apply Forall_app; split; [done|by constructor]). rewrite with_slash_absolute by done.
      unfold absolute. rewrite join_snoc by done. by rewrite <- app_assoc.
    + unfold absolute. rewrite join_snoc by done. done.
Qed.

(** ** Numbers as text

    [strconv.ParseUint], [strconv.ParseInt] and the verbs [%d] and [%.4o] of [fmt], on
    texts as lists of bytes, with their round trips. *)

Definition digit (d : Z) : ascii := ascii_of_N (48 + Z.to_N d).
Definition digit_value (c : ascii) : Z := (Z.of_N (N_of_ascii c) - 48)%Z.

Fixpoint parse_base (base acc : Z) (s : chars) : option Z :=
  match s with
  | [] => Some acc
  | c :: s => if ((0 <=? digit_value c) && (digit_value c <? base))%Z then parse_base base (acc * base + digit_value c) s else None
  end.

(** For a base of at most ten; [None] is a syntax or a range error. *)
Definition ParseUint (s : chars) (base bits : Z) : option Z :=
  match s with
  | [] => None
  | _ => v ← parse_base base 0 s; if (v <? 2 ^ bits)%Z then Some v else None
  end.
Definition ParseInt (s : chars) (base bits : Z) : option Z :=
  match s with
  | [] => None
  | c :: rest =>
      let negative := Ascii.eqb c "-" in
      let digits := if negative || Ascii.eqb c "+" then rest else s in
      v ← ParseUint digits base bits;
      if negative then if (v <=? 2 ^ (bits - 1))%Z then Some (- v)%Z else None
      else if (v <? 2 ^ (bits - 1))%Z then Some v else None
  end.

Fixpoint format_base (fuel : nat) (base n : Z) (acc : chars) : chars :=
  match fuel with
  | 0 => acc
  | S fuel =>
      let acc := digit (n mod base) :: acc in
      if (n <? base)%Z then acc else format_base fuel base (n / base) acc
  end.
Definition FormatUint (base n : Z) : chars := format_base (S (Z.to_nat (Z.log2 n))) base n [].

(** [%d], and [%.4o]: at least four octal digits. *)
Definition print_d (z : Z) : chars := if (z <? 0)%Z then "-"%char :: FormatUint 10 (- z) else FormatUint 10 z.
Definition print_4o (z : Z) : chars := let s := FormatUint 8 z in replicate (4 - length s) "0"%char ++ s.

Example print_4o_rw : print_4o 420 = text "0644".
Proof. reflexivity. Qed.
Example print_d_42 : print_d (-42) = text "-42".
Proof. reflexivity. Qed.

(** ** Round trips *)

Lemma digit_value_digit d : (0 <= d < 10)%Z -> digit_value (digit d) = d.
Proof. intros Hd. unfold digit_value, digit. rewrite N_ascii_embedding by lia. lia. Qed.

Lemma parse_format fuel base n acc : (2 <= base <= 10)%Z -> (0 <= n < 2 ^ Z.of_nat fuel)%Z ->
  parse_base base 0 (format_base fuel base n acc) = parse_base base n acc.
Proof.
  intros Hb. revert n acc. induction fuel as [|fuel IH]; intros n acc Hn; cbn [format_base].
  { by replace n with 0%Z by (simpl in Hn; lia). }
  assert (0 <= n mod base < base)%Z as Hmod by (apply Z.mod_pos_bound; lia).
  assert (forall m, (m * base + n mod base)%Z = n -> parse_base base m (digit (n mod base) :: acc) = parse_base base n acc) as Hd.
  { intros m Hm. cbn [parse_base]. rewrite digit_value_digit by lia.
    rewrite (proj2 (Z.leb_le _ _)) by lia. rewrite (proj2 (Z.ltb_lt _ _)) by lia. simpl. by rewrite Hm. }
  destruct (Z.ltb_spec n base) as [Hlt|Hge].
  - apply Hd. rewrite Z.mod_small by lia. lia.
  - rewrite IH; [apply Hd; rewrite Z.mul_comm; symmetry; apply Z.div_mod; lia|].
    split; [apply Z.div_pos; lia|]. apply Z.div_lt_upper_bound; [lia|].
    rewrite Nat2Z.inj_succ, Z.pow_succ_r in Hn by lia. nia.
Qed.

Lemma parse_FormatUint base n : (2 <= base <= 10)%Z -> (0 <= n)%Z -> parse_base base 0 (FormatUint base n) = Some n.
Proof.
  intros Hb Hn. unfold FormatUint. rewrite parse_format; [done|done|]. split; [done|].
  rewrite Nat2Z.inj_succ, Z2Nat.id by apply Z.log2_nonneg. destruct (decide (n = 0%Z)) as [->|]; [done|].
  apply Z.log2_spec. lia.
Qed.

(** The digits, for what the texts cannot contain. *)
Lemma format_base_digits fuel base n acc : (2 <= base <= 10)%Z -> Forall (fun c => 0 <= digit_value c < 10)%Z acc ->
  Forall (fun c => 0 <= digit_value c < 10)%Z (format_base fuel base n acc).
Proof.
  intros Hb. revert n acc. induction fuel as [|fuel IH]; intros n acc Ha; cbn [format_base]; [done|].
  assert (0 <= n mod base < base)%Z as Hmod by (apply Z.mod_pos_bound; lia).
  assert (Forall (fun c => 0 <= digit_value c < 10)%Z (digit (n mod base) :: acc)).
  { constructor; [rewrite digit_value_digit; lia|done]. }
  destruct (n <? base)%Z; [done|by apply IH].
Qed.
Lemma FormatUint_digits base n : (2 <= base <= 10)%Z -> Forall (fun c => 0 <= digit_value c < 10)%Z (FormatUint base n).
Proof. intros Hb. by apply format_base_digits. Qed.

Lemma format_base_ne fuel base n acc : acc <> [] -> format_base fuel base n acc <> [].
Proof. revert n acc. induction fuel as [|fuel IH]; intros n acc Ha; cbn; [done|]. destruct (n <? base)%Z; [done|by apply IH]. Qed.
Lemma FormatUint_ne base n : FormatUint base n <> [].
Proof. unfold FormatUint. cbn. destruct (n <? base)%Z; [done|by apply format_base_ne]. Qed.

Lemma ParseUint_print_d z bits : (0 <= z < 2 ^ bits)%Z -> ParseUint (print_d z) 10 bits = Some z.
Proof.
  intros Hz. unfold print_d. rewrite (proj2 (Z.ltb_ge _ _)) by lia. unfold ParseUint.
  pose proof (FormatUint_ne 10 z). rewrite parse_FormatUint by lia. destruct (FormatUint 10 z); [done|]. simpl.
  by rewrite (proj2 (Z.ltb_lt _ _)) by lia.
Qed.

Lemma parse_base_zeros n s : parse_base 8 0 (replicate n "0"%char ++ s) = parse_base 8 0 s.
Proof. by induction n. Qed.
Lemma ParseUint_print_4o z bits : (0 <= z < 2 ^ bits)%Z -> ParseUint (print_4o z) 8 bits = Some z.
Proof.
  intros Hz. unfold print_4o, ParseUint. pose proof (FormatUint_ne 8 z).
  rewrite parse_base_zeros, parse_FormatUint by lia.
  destruct (replicate _ _ ++ FormatUint 8 z) eqn:E; [by apply app_nil in E as [_ ?]|]. simpl.
  by rewrite (proj2 (Z.ltb_lt _ _)) by lia.
Qed.

Definition plain (c : ascii) : Prop := (0 <= digit_value c < 10)%Z.
Lemma plain_not c s : ~ plain c -> Forall plain s -> c ∉ s.
Proof. intros Hc Hs Hin. rewrite Forall_forall in Hs. by apply Hc, Hs. Qed.
Lemma print_d_plain z : (0 <= z)%Z -> Forall plain (print_d z).
Proof. intros Hz. unfold print_d. rewrite (proj2 (Z.ltb_ge _ _)) by lia. by apply FormatUint_digits. Qed.
Lemma print_4o_plain z : Forall plain (print_4o z).
Proof.
  unfold print_4o. apply Forall_app. split; [|by apply FormatUint_digits]. apply Forall_replicate. by split; vm_compute.
Qed.

Lemma ParseInt_print_d z bits : (0 < bits)%Z -> (0 <= z < 2 ^ (bits - 1))%Z -> ParseInt (print_d z) 10 bits = Some z.
Proof.
  intros Hbits Hz. pose proof (print_d_plain z ltac:(lia)) as Hp. assert (2 ^ bits = 2 * 2 ^ (bits - 1))%Z as Hpow.
  { rewrite <- Z.pow_succ_r by lia. f_equal. lia. }
  pose proof (ParseUint_print_d z bits ltac:(lia)) as Hu. unfold ParseInt. destruct (print_d z) as [|c s]; [done|].
  apply Forall_cons in Hp as [Hc _]. assert (Ascii.eqb c "-" = false /\ Ascii.eqb c "+" = false) as [-> ->].
  { split; apply Ascii.eqb_neq; intros ->; destruct Hc as [Hc _]; by apply Hc. }
  cbn [orb]. rewrite Hu. simpl. by rewrite (proj2 (Z.ltb_lt _ _)) by lia.
Qed.
