(* ===== verification/Regexp.v ===== *)
(** * Regular expressions

    What the SSH proxy uses of Go's [regexp]: expressions of classes of ASCII
    characters, with groups, and [FindStringSubmatch], which finds the leftmost match
    and prefers longer repetitions.  An ASCII character is one byte of a string and no
    other character contains it, so that matching goes byte by byte. *)
From Stdlib Require Import Lia Ascii NArith.
From S2P Require Import Prelude GoStrings.

Inductive regexp :=
| Lit (l : chars)
| Times (n : nat) (c : ascii -> bool)
| Plus (c : ascii -> bool)
| Seq (a b : regexp)
| Group (r : regexp).

(** ** Matching *)

Definition literal (l s : chars) : option chars := if bool_decide (take (length l) s = l) then Some (drop (length l) s) else None.

(** [c+], the longest repetition first. *)
Fixpoint plus {A} (c : ascii -> bool) (s : chars) (k : chars -> option A) : option A :=
  match s with
  | [] => None
  | a :: s => if c a then match plus c s k with Some x => Some x | None => k s end else None
  end.

(** A match at the start of the text, with the groups, and what remains of it. *)
Fixpoint match_here {A} (r : regexp) (s : chars) (k : list chars -> chars -> option A) : option A :=
  match r with
  | Lit l => match literal l s with Some s => k [] s | None => None end
  | Times n c => if (n <=? length s)%nat && forallb c (take n s) then k [] (drop n s) else None
  | Plus c => plus c s (k [])
  | Seq a b => match_here a s (fun ga s => match_here b s (fun gb s => k (ga ++ gb) s))
  | Group r => match_here r s (fun g s' => k (take (length s - length s') s :: g) s')
  end.

Fixpoint FindStringSubmatch (r : regexp) (s : chars) : option (list chars) :=
  match match_here r s (fun g _ => Some g) with
  | Some g => Some g
  | None => match s with [] => None | _ :: s => FindStringSubmatch r s end
  end.

Definition MatchString (r : regexp) (s : chars) : bool := bool_decide (is_Some (FindStringSubmatch r s)).

(** ** What an expression means *)

Inductive lang : regexp -> chars -> list chars -> Prop :=
| lang_lit l : lang (Lit l) l []
| lang_times n c l : length l = n -> forallb c l = true -> lang (Times n c) l []
| lang_plus c l : l <> [] -> forallb c l = true -> lang (Plus c) l []
| lang_seq a b la lb ga gb : lang a la ga -> lang b lb gb -> lang (Seq a b) (la ++ lb) (ga ++ gb)
| lang_group r l g : lang r l g -> lang (Group r) l (l :: g).

Lemma literal_Some l s s' : literal l s = Some s' <-> s = l ++ s'.
Proof.
  unfold literal. case_bool_decide as H.
  - split; [|intros ->; by rewrite drop_app_length]. intros [= <-]. rewrite <- (take_drop (length l) s) at 1. by rewrite H.
  - split; [done|]. intros ->. by rewrite take_app_length in H.
Qed.

Lemma plus_sound {A} c s (k : chars -> option A) x : plus c s k = Some x -> exists l s', s = l ++ s' /\ l <> [] /\ forallb c l = true /\ k s' = Some x.
Proof.
  induction s as [|a s IH]; cbn; [done|]. destruct (c a) eqn:Ha; [|done]. destruct (plus c s k) as [y|] eqn:Hp.
  - intros [= ->]. destruct (IH eq_refl) as (l & s' & -> & Hl & Hc & Hk). exists (a :: l), s'. cbn. by rewrite Ha.
  - intros Hk. exists [a], s. cbn. by rewrite Ha.
Qed.

Lemma plus_complete {A} c l s' (k : chars -> option A) : l <> [] -> forallb c l = true -> is_Some (k s') -> is_Some (plus c (l ++ s') k).
Proof.
  induction l as [|a l IH]; [done|]. intros _ [Ha Hl]%andb_true_iff Hk. cbn. rewrite Ha. destruct l as [|b l]; cbn [app].
  - destruct (plus c s' k); [by eexists|done].
  - destruct (IH ltac:(done) Hl Hk) as [x Hx]. cbn [app] in Hx. rewrite Hx. by eexists.
Qed.

(** A repetition takes all it can, when that leads to a match. *)
Lemma plus_greedy {A} c l s (k : chars -> option A) x :
  l <> [] -> forallb c l = true -> plus c s k = None -> k s = Some x -> plus c (l ++ s) k = Some x.
Proof.
  induction l as [|a l IH]; [done|]. intros _ [Ha Hl]%andb_true_iff Hs Hk. cbn. rewrite Ha.
  destruct l as [|b l]; [cbn [app]; by rewrite Hs|]. by rewrite (IH ltac:(done) Hl Hs Hk).
Qed.

Lemma match_sound {A} r s (k : list chars -> chars -> option A) x :
  match_here r s k = Some x -> exists l s' g, s = l ++ s' /\ lang r l g /\ k g s' = Some x.
Proof.
  revert A s k x. induction r as [l|n c|c|a IHa b IHb|r IH]; intros A s k x; cbn [match_here].
  - destruct (literal l s) as [s'|] eqn:Hl; [|done]. apply literal_Some in Hl as ->. intros Hk. exists l, s', []. by repeat constructor.
  - destruct (_ && _) eqn:Hc; [|done]. apply andb_true_iff in Hc as [Hn%Nat.leb_le Hc]. intros Hk. exists (take n s), (drop n s), [].
    rewrite take_drop. split_and!; [done| |done]. constructor; [rewrite length_take; lia|done].
  - intros (l & s' & -> & Hl & Hc & Hk)%plus_sound. exists l, s', []. by repeat constructor.
  - intros (la & s1 & ga & -> & Ha & (lb & s2 & gb & -> & Hb & Hk)%IHb)%IHa. exists (la ++ lb), s2, (ga ++ gb). rewrite <- app_assoc. by repeat constructor.
  - intros (l & s' & g & -> & Hl & Hk)%IH. exists l, s', (l :: g). split_and!; [done|by constructor|].
    rewrite length_app, Nat.add_sub, take_app_length in Hk. done.
Qed.

Lemma match_complete {A} r l g s' (k : list chars -> chars -> option A) :
  lang r l g -> is_Some (k g s') -> is_Some (match_here r (l ++ s') k).
Proof.
  intros H. revert A s' k. induction H as [l|n c l Hn Hc|c l Hl Hc|a b la lb ga gb _ IHa _ IHb|r l g _ IH]; intros A s' k Hk; cbn [match_here].
  - by rewrite (proj2 (literal_Some _ _ _) eq_refl).
  - rewrite <- Hn, take_app_length, drop_app_length, Hc, length_app. by rewrite (proj2 (Nat.leb_le _ _)) by lia.
  - by apply plus_complete.
  - rewrite <- app_assoc. by apply IHa, IHb.
  - apply IH. by rewrite length_app, Nat.add_sub, take_app_length.
Qed.

Lemma FindStringSubmatch_sound r s g : FindStringSubmatch r s = Some g -> exists pre l post, s = pre ++ l ++ post /\ lang r l g.
Proof.
  induction s as [|a s IH]; cbn; (destruct (match_here r _ _) as [g'|] eqn:Hm; [intros [= ->]|intros Hf]).
  1,3: apply match_sound in Hm as (l & s' & g' & -> & Hl & [= ->]); by exists [], l, s'.
  - done.
  - destruct (IH Hf) as (pre & l & post & -> & Hl). by exists (a :: pre), l, post.
Qed.

Lemma FindStringSubmatch_complete r pre l post g : lang r l g -> is_Some (FindStringSubmatch r (pre ++ l ++ post)).
Proof.
  intros Hl. induction pre as [|a pre IH]; cbn [app].
  - destruct (match_complete r l g post (fun g _ => Some g) Hl ltac:(by eexists)) as [x Hx]. destruct (l ++ post); cbn [FindStringSubmatch]; rewrite Hx; by eexists.
  - cbn. by destruct (match_here r _ _).
Qed.

(** An expression without repetitions matches in one way only. *)
Fixpoint fixed (r : regexp) : bool :=
  match r with Lit _ | Times _ _ => true | Plus _ => false | Seq a b => fixed a && fixed b | Group r => fixed r end.

Lemma match_fixed {A} r l g s (k : list chars -> chars -> option A) :
  lang r l g -> fixed r = true -> match_here r (l ++ s) k = k g s.
Proof.
  intros H. revert A s k. induction H as [l|n c l Hn Hc|c l Hl Hc|a b la lb ga gb _ IHa _ IHb|r l g _ IH]; intros A s k Hf; cbn [match_here].
  - by rewrite (proj2 (literal_Some _ _ _) eq_refl).
  - rewrite <- Hn, take_app_length, drop_app_length, Hc, length_app. by rewrite (proj2 (Nat.leb_le _ _)) by lia.
  - done.
  - apply andb_true_iff in Hf as [Ha Hb]. by rewrite <- app_assoc, IHa, IHb.
  - rewrite IH by done. by rewrite length_app, Nat.add_sub, take_app_length.
Qed.
