(* ===== verification/Fingerprint.v ===== *)
(** * Fingerprints of host keys

    diego-ssh/helpers/fingerprint.go, and the callback of diego-ssh/proxy/proxy.go that
    compares the key of a server with the fingerprint that is expected. *)
From Stdlib Require Import ZArith NArith Lia Ascii List.
From S2P Require Import Prelude Hashes GoStd Executor LogStream LogStreamer.
#[local] Open Scope N_scope.

(** ** Texts *)

(** [fmt.Sprintf("% x", sum)] with the spaces replaced by colons. *)
Fixpoint colonized (l : list ascii) : list ascii :=
  match l with
  | [] => []
  | [a] => Hashes.EncodeToString [a]
  | a :: l => Hashes.EncodeToString [a] ++ ":"%char :: colonized l
  end.

(** [base64.RawStdEncoding] *)
Definition base64_char (n : N) : ascii :=
  ascii_of_N (if n <? 26 then 65 + n else if n <? 52 then 71 + n else if n <? 62 then n - 4 else if n =? 62 then 43 else 47).
Fixpoint base64 (l : list N) : list ascii :=
  match l with
  | a :: b :: c :: l =>
      [base64_char (a / 4); base64_char (a mod 4 * 16 + b / 16); base64_char (b mod 16 * 4 + c / 64); base64_char (c mod 64)] ++ base64 l
  | [a; b] => [base64_char (a / 4); base64_char (a mod 4 * 16 + b / 16); base64_char (b mod 16 * 4)]
  | [a] => [base64_char (a / 4); base64_char (a mod 4 * 16)]
  | [] => []
  end.

(** [strings.TrimRight(s, "=")] *)
Fixpoint trim_left_eq (l : list ascii) : list ascii := match l with "="%char :: l => trim_left_eq l | _ => l end.
Definition trim_right_eq (l : list ascii) : list ascii := rev (trim_left_eq (rev l)).

(** [utf8.RuneCountInString] *)
Definition RuneCount (l : list ascii) : nat := length (range_string (length l) 0 (N_of_ascii <$> l)).

(** ** Fingerprints of a marshalled key *)

Definition MD5_FINGERPRINT_LENGTH : nat := 47.
Definition SHA1_FINGERPRINT_LENGTH : nat := 59.
Definition SHA256_FINGERPRINT_LENGTH : nat := 43.

Definition MD5Fingerprint (key : list ascii) : list ascii := colonized (md5 key).
Definition SHA1Fingerprint (key : list ascii) : list ascii := colonized (sha1 key).
Definition SHA256Fingerprint (key : list ascii) : list ascii := base64 (N_of_ascii <$> sha256 key).

(** [HostKeyCallback] of a configuration that has a fingerprint; whether the key is
    accepted. *)
Definition fingerprint_callback (expected : list ascii) (key : list ascii) : bool :=
  let n := RuneCount expected in
  if (n =? MD5_FINGERPRINT_LENGTH)%nat then bool_decide (expected = MD5Fingerprint key)
  else if (n =? SHA1_FINGERPRINT_LENGTH)%nat then bool_decide (expected = SHA1Fingerprint key)
  else if (n =? SHA256_FINGERPRINT_LENGTH)%nat || (n =? S SHA256_FINGERPRINT_LENGTH)%nat then
    bool_decide (trim_right_eq expected = SHA256Fingerprint key)
  else bool_decide (expected = []).

#[local] Opaque md5 sha1 sha256.

(** ** Lengths *)

Definition plain (a : ascii) : Prop := N_of_ascii a < 128 /\ a <> "="%char.

Lemma RuneCount_plain l : Forall (fun a => N_of_ascii a < 128) l -> RuneCount l = length l.
Proof.
  unfold RuneCount. generalize 0%nat. induction l as [|a l IH]; intros i Hl; [done|]. apply Forall_cons_1 in Hl as [Ha Hl].
  cbn [length fmap list_fmap range_string DecodeRune]. rewrite (proj2 (N.ltb_lt _ _)) by exact Ha. cbn [length drop]. by rewrite (IH _ Hl).
Qed.

Lemma hex_digit_plain n : n < 16 -> plain (Hashes.hex_digit n).
Proof.
  intros Hn. assert (Hl : n ∈ (N.of_nat <$> seq 0 16)) by (apply list_elem_of_fmap; exists (N.to_nat n); rewrite N2Nat.id; split; [done|apply elem_of_seq; lia]).
  revert n Hl Hn. apply (Forall_forall (fun n => n < 16 -> plain (Hashes.hex_digit n))). repeat (apply Forall_cons; split; [by vm_compute|]). constructor.
Qed.

Lemma base64_char_plain n : n < 64 -> plain (base64_char n).
Proof.
  intros Hn. assert (Hl : n ∈ (N.of_nat <$> seq 0 64)) by (apply list_elem_of_fmap; exists (N.to_nat n); rewrite N2Nat.id; split; [done|apply elem_of_seq; lia]).
  revert n Hl Hn. apply (Forall_forall (fun n => n < 64 -> plain (base64_char n))). repeat (apply Forall_cons; split; [by vm_compute|]). constructor.
Qed.

Lemma EncodeToString_byte_plain a : Forall plain (Hashes.EncodeToString [a]).
Proof.
  cbn. pose proof (N_ascii_bounded a). constructor; [|constructor; [|constructor]]; apply hex_digit_plain; [apply N.Div0.div_lt_upper_bound; lia|apply N.mod_lt; lia].
Qed.

Lemma colonized_spec l : length (colonized l) = (3 * length l - 1)%nat /\ Forall plain (colonized l).
Proof.
  induction l as [|a [|b l] IH]; [by split|by split; [|apply EncodeToString_byte_plain]|].
  change (colonized (a :: b :: l)) with (Hashes.EncodeToString [a] ++ ":"%char :: colonized (b :: l)). destruct IH as [IH1 IH2].
  split; [rewrite length_app; cbn [length] in *; rewrite IH1; cbn; lia|].
  apply Forall_app; split; [apply EncodeToString_byte_plain|]. by constructor.
Qed.

Lemma byte_parts a : a < 256 -> a / 4 < 64 /\ a / 16 < 16 /\ a / 64 < 4 /\ a mod 4 < 4 /\ a mod 16 < 16 /\ a mod 64 < 64.
Proof. intros Ha. repeat split; (apply N.mod_lt; lia) || (apply N.Div0.div_lt_upper_bound; lia). Qed.

Lemma base64_plain l : Forall (fun n => n < 256) l -> Forall plain (base64 l).
Proof.
  induction l as [l IH] using (well_founded_induction (wf_projected lt (@length N) (fun _ _ => id) lt_wf)).
  destruct l as [|a [|b [|c l]]]; intros Hl; decompose_Forall_hyps;
    repeat match goal with H : ?x < 256 |- _ => apply byte_parts in H as (? & ? & ? & ? & ? & ?) end; cbn [base64 app];
    repeat (apply Forall_cons; split; [apply base64_char_plain; lia|]); try constructor.
  apply IH; [cbn; lia|done].
Qed.

Lemma length_base64 l : length (base64 l) = ((4 * length l + 2) / 3)%nat.
Proof.
  induction l as [l IH] using (well_founded_induction (wf_projected lt (@length N) (fun _ _ => id) lt_wf)).
  destruct l as [|a [|b [|c l]]]; [done..|]. cbn [base64 app length]. rewrite IH by (cbn; lia).
  replace (4 * S (S (S (length l))) + 2)%nat with ((4 * length l + 2) + 4 * 3)%nat by lia. rewrite Nat.div_add by lia. lia.
Qed.

Lemma trim_left_eq_spec l : exists k, l = replicate k "="%char ++ trim_left_eq l.
Proof.
  induction l as [|a l [k IH]]; [by exists 0%nat|]. destruct (decide (a = "="%char)) as [->|Ha].
  - exists (S k). cbn. by rewrite <- IH.
  - exists 0%nat. destruct a as [[] [] [] [] [] [] [] []]; try done.
Qed.

Lemma trim_right_eq_spec l : exists k, l = trim_right_eq l ++ replicate k "="%char.
Proof.
  destruct (trim_left_eq_spec (rev l)) as [k Hk]. exists k. unfold trim_right_eq. rewrite <- (rev_involutive l) at 1. rewrite Hk, rev_app_distr at 1.
  f_equal. clear. induction k as [|k IH]; [done|]. cbn. rewrite IH. clear. induction k as [|k IH]; [done|]. cbn. by rewrite IH.
Qed.

Lemma trim_left_eq_plain l : Forall plain l -> trim_left_eq l = l.
Proof. destruct 1 as [|a l [_ Ha] _]; [done|]. by destruct a as [[] [] [] [] [] [] [] []]. Qed.

Lemma trim_right_eq_plain l k : Forall plain l -> trim_right_eq (l ++ replicate k "="%char) = l.
Proof.
  intros Hl. unfold trim_right_eq. rewrite rev_app_distr. replace (rev (replicate k "="%char)) with (replicate k "="%char).
  - induction k as [|k IH]; [|done]. cbn. rewrite trim_left_eq_plain by by apply Forall_rev. apply rev_involutive.
  - clear. induction k as [|k IH]; [done|]. cbn. rewrite <- IH. clear. induction k as [|k IH]; [done|]. cbn. by rewrite <- IH.
Qed.

Lemma plain_ascii l : Forall plain l -> Forall (fun a => N_of_ascii a < 128) l.
Proof. intros H. eapply list.Forall_impl; [exact H|]. by intros a [? _]. Qed.

Lemma RuneCount_padded l k : Forall plain l -> RuneCount (l ++ replicate k "="%char) = (length l + k)%nat.
Proof.
  intros Hl. rewrite RuneCount_plain, length_app, length_replicate; [done|]. apply Forall_app; split; [by apply plain_ascii|].
  apply Forall_replicate. by vm_compute.
Qed.

Lemma SHA256Fingerprint_spec key : length (SHA256Fingerprint key) = 43%nat /\ Forall plain (SHA256Fingerprint key).
Proof.
  unfold SHA256Fingerprint. split; [by rewrite length_base64, length_fmap, length_sha256|]. apply base64_plain, Forall_fmap, Forall_true. intros a. apply N_ascii_bounded.
Qed.
Lemma MD5Fingerprint_spec key : length (MD5Fingerprint key) = 47%nat /\ Forall plain (MD5Fingerprint key).
Proof. unfold MD5Fingerprint. destruct (colonized_spec (md5 key)) as [H ?]. by rewrite H, length_md5. Qed.
Lemma SHA1Fingerprint_spec key : length (SHA1Fingerprint key) = 59%nat /\ Forall plain (SHA1Fingerprint key).
Proof. unfold SHA1Fingerprint. destruct (colonized_spec (sha1 key)) as [H ?]. by rewrite H, length_sha1. Qed.

(** A key is accepted for its fingerprints in one of the three formats, the last with
    or without padding, and for nothing else. *)
Lemma fingerprint_exact expected key : expected <> [] ->
  fingerprint_callback expected key = true <->
  expected ∈ [MD5Fingerprint key; SHA1Fingerprint key; SHA256Fingerprint key; SHA256Fingerprint key ++ ["="%char]].
Proof.
  intros Hne. destruct (MD5Fingerprint_spec key) as [Hm Pm], (SHA1Fingerprint_spec key) as [Hs Ps], (SHA256Fingerprint_spec key) as [Hx Px].
  unfold fingerprint_callback, MD5_FINGERPRINT_LENGTH, SHA1_FINGERPRINT_LENGTH, SHA256_FINGERPRINT_LENGTH. split.
  - destruct (Nat.eqb_spec (RuneCount expected) 47) as [_|H1]; [intros ->%bool_decide_eq_true; constructor|].
    destruct (Nat.eqb_spec (RuneCount expected) 59) as [_|H2]; [intros ->%bool_decide_eq_true; do 2 constructor|].
    destruct (_ || _) eqn:Hn; [|intros H%bool_decide_eq_true; done]. intros Ht%bool_decide_eq_true.
    destruct (trim_right_eq_spec expected) as [k Hk]. rewrite Ht in Hk. rewrite Hk in Hn. rewrite RuneCount_padded, Hx in Hn by done.
    rewrite Hk. destruct k as [|[|k]]; [rewrite app_nil_r; do 3 constructor|do 4 constructor|]. discriminate Hn.
  - rewrite !elem_of_cons. intros [->|[->|[->|[->|[]%not_elem_of_nil]]]].
    + rewrite RuneCount_plain, Hm by by apply plain_ascii. by apply bool_decide_eq_true.
    + rewrite RuneCount_plain, Hs by by apply plain_ascii. by apply bool_decide_eq_true.
    + rewrite RuneCount_plain, Hx by by apply plain_ascii. apply bool_decide_eq_true. rewrite <- (app_nil_r (SHA256Fingerprint key)) at 1. exact (trim_right_eq_plain _ 0 Px).
    + rewrite (RuneCount_padded _ 1), Hx by done. apply bool_decide_eq_true, (trim_right_eq_plain _ 1 Px).
Qed.
