(* ===== verification/SshAuth.v ===== *)
(** * Who may reach which container by SSH

    diego-ssh/authenticators: the names users log in with, the authenticators for
    users of Cloud Foundry and for those of Diego, and the permissions that name the
    container the proxy connects to. *)
From Stdlib Require Import ZArith Lia Ascii.
From S2P Require Import Prelude GoStd Models Routes Actions RunRequest GoStrings Regexp.

(** ** User names *)

Definition between (lo hi a : ascii) : bool := (N_of_ascii lo <=? N_of_ascii a)%N && (N_of_ascii a <=? N_of_ascii hi)%N.
Definition is_digit (a : ascii) : bool := between "0" "9" a.
Definition is_hex (a : ascii) : bool := is_digit a || between "a" "f" a || between "A" "F" a.
Definition is_guid_char (a : ascii) : bool :=
  between "a" "z" a || between "A" "Z" a || is_digit a || Ascii.eqb a "_" || Ascii.eqb a "-".

Definition hex_guid : regexp :=
  Seq (Times 8 is_hex) (Seq (Lit ["-"%char]) (Seq (Times 4 is_hex) (Seq (Lit ["-"%char]) (Seq (Times 4 is_hex)
    (Seq (Lit ["-"%char]) (Seq (Times 4 is_hex) (Seq (Lit ["-"%char]) (Times 12 is_hex)))))))).
Definition index_part : regexp := Seq (Lit ["/"%char]) (Group (Plus is_digit)).
Definition CFUserRegex : regexp := Seq (Lit (text "cf:")) (Seq (Group hex_guid) index_part).
Definition DiegoUserRegex : regexp := Seq (Lit (text "diego:")) (Seq (Group (Plus is_guid_char)) index_part).

(** ** Errors *)

Definition AuthenticationFailedErr : string := "Authentication failed".
Definition FetchAppFailedErr : string := "Fetching application data failed".
Definition InvalidCCResponse : string := "Invalid response from Cloud Controller".
Definition InvalidCredentialsErr : string := "Invalid credentials".
Definition InvalidDomainErr : string := "Invalid authentication domain".
Definition InvalidRequestErr : string := "CloudController URL Invalid".
Definition RouteNotFoundErr : string := "SSH routing info not found".

(** A call that returns, with an error or a value, or that panics. *)
Definition returns (A : Type) : Type := option (result string A).
Definition ret {A} (a : A) : returns A := Some (Ok a).
Definition fail {A} (e : string) : returns A := Some (Err e).
Definition attempt {A B} (c : returns A) (k : A -> returns B) : returns B :=
  match c with None => None | Some (Err e) => Some (Err e) | Some (Ok a) => k a end.
Notation "'try' x := c 'in' k" := (attempt c (fun x => k)) (at level 10, x pattern, c at level 100, k at level 200).

(** ** What others answer *)

(** A request that could not be made, one without a response, or a response with its
    status and what its body decodes to. *)
Inductive http_answer (A : Type) := BadRequest (err : string) | NoAnswer (err : string) | Answered (status : Z) (body : option A).
Arguments BadRequest {A} err.
Arguments NoAnswer {A} err.
Arguments Answered {A} status body.
Definition StatusOK : Z := 200.

(** UAA for an access code, with the type and the text of a token; the cloud
    controller for a path and a token, with a process guid; whether the header of a
    token decodes; and the BBS. *)
Record AuthEnv := mkAuthEnv {
  ae_uaa : string -> http_answer (string * string);
  ae_cc : string -> string -> http_answer string;
  ae_header : string -> bool;
  ae_ActualLRPs : string -> Z -> result string (list ActualLRP);
  ae_DesiredLRP : string -> result string DesiredLRP }.

(** ** Permissions *)

Record SSHRoute := mkSSHRoute {
  sr_ContainerPort : Z;
  sr_HostFingerprint : string;
  sr_Host256Fingerprint : string;
  sr_User : string;
  sr_Password : string;
  sr_PrivateKey : string }.

Record TargetConfig := mkTargetConfig {
  tc_Address : string;
  tc_TLSAddress : string;
  tc_ServerCertDomainSAN : string;
  tc_HostFingerprint : string;
  tc_User : string;
  tc_Password : string;
  tc_PrivateKey : string }.

Record LogMessage := mkLogMessage { lm_Message : string; lm_Tags : gmap string string }.

Definition ascii_config (c : TargetConfig) : bool :=
  forallb ascii_string [tc_Address c; tc_TLSAddress c; tc_ServerCertDomainSAN c; tc_HostFingerprint c; tc_User c; tc_Password c; tc_PrivateKey c].

(** encoding/json for routes, target configurations and log messages: what is written
    is read back, as far as it is ASCII. *)
Class SshJson := {
  unmarshal_route : string -> result string SSHRoute;
  marshal_config : TargetConfig -> result string string;
  unmarshal_config : string -> result string TargetConfig;
  marshal_log : LogMessage -> result string string;
  unmarshal_log : string -> result string LogMessage;
  config_roundtrip : forall c j, ascii_config c = true -> marshal_config c = Ok j -> unmarshal_config j = Ok c }.

(** [CriticalOptions], or nil. *)
Definition Permissions : Type := option (gmap string string).

Section Build.
Context `{!MapRange string} {json : SshJson}.

Definition DIEGO_SSH : string := "diego-ssh".

Definition getRoutingInfo (desired : DesiredLRP) : result string SSHRoute :=
  match dl_Routes desired with
  | None => Err RouteNotFoundErr
  | Some routes =>
      match routes !! DIEGO_SSH with
      | Some (Some rawMessage) => unmarshal_route rawMessage
      | _ => Err RouteNotFoundErr
      end
  end.

(** The first mapping of the port; a nil mapping before it panics. *)
Fixpoint find_mapping (ports : list (option LRPPortMapping)) (port : Z) : returns (option LRPPortMapping) :=
  match ports with
  | [] => ret None
  | None :: _ => None
  | Some mapping :: ports => if (pm_ContainerPort mapping =? port)%Z then ret (Some mapping) else find_mapping ports port
  end.

Definition use_instance_address (useDirectInstanceAddr : bool) (actual : ActualLRP) : bool :=
  if (al_PreferredAddress actual =? PreferredAddressInstance)%Z then true
  else if (al_PreferredAddress actual =? PreferredAddressHost)%Z then false
  else if (al_PreferredAddress actual =? PreferredAddressUnknown)%Z then useDirectInstanceAddr
  else false.

Definition host_port (host : string) (port : Z) : string := host +:+ ":" +:+ strconv_Itoa port.

Definition target_config (useDirectInstanceAddr : bool) (route : SSHRoute) (actual : ActualLRP) (mapping : LRPPortMapping) : TargetConfig :=
  let useInstanceAddr := use_instance_address useDirectInstanceAddr actual in
  let address := if useInstanceAddr then al_InstanceAddress actual else al_Address actual in
  let port := if useInstanceAddr then pm_ContainerPort mapping else pm_HostPort mapping in
  let tlsAddress := if (0 <? pm_HostTlsProxyPort mapping)%Z then host_port (al_Address actual) (pm_HostTlsProxyPort mapping) else "" in
  let tlsAddress :=
    if useInstanceAddr && (0 <? pm_ContainerTlsProxyPort mapping)%Z
    then host_port (al_InstanceAddress actual) (pm_ContainerTlsProxyPort mapping) else tlsAddress in
  mkTargetConfig (host_port address port) tlsAddress (al_InstanceGuid actual)
    (if bool_decide (sr_Host256Fingerprint route = "") then sr_HostFingerprint route else sr_Host256Fingerprint route)
    (sr_User route) (sr_Password route) (sr_PrivateKey route).

(** The tags with the defaults for the source and the instance. *)
Definition with_default_tags (desired : DesiredLRP) : gmap string MetricTagValue :=
  let tags := dl_MetricTags desired in
  let tags := match tags !! "source_id" with None => <["source_id" := mkMetricTagValue (dl_LogGuid desired) 0]> tags | Some _ => tags end in
  match tags !! "instance_id" with None => <["instance_id" := mkMetricTagValue "" MetricTagDynamicValueIndex]> tags | Some _ => tags end.

Definition createPermissions (t : nat) (useDirectInstanceAddr : bool) (route : SSHRoute) (actual : ActualLRP) (desired : DesiredLRP)
    (logMessage : string) : returns Permissions :=
  try mapping := find_mapping (al_Ports actual) (sr_ContainerPort route) in
  match mapping with
  | None => ret None
  | Some mapping =>
      try targetConfigJson := Some (marshal_config (target_config useDirectInstanceAddr route actual mapping)) in
      try tags := Some (ConvertMetricTags t (with_default_tags desired) (Some (al_Index actual)) (Some (al_InstanceGuid actual))) in
      try logMessageJson := Some (marshal_log (mkLogMessage logMessage tags)) in
      ret (Some {["proxy-target-config" := targetConfigJson; "log-message" := logMessageJson]})
  end.

Definition lrp_name (processGuid : string) (index : Z) : string := "ProcessGuid: " +:+ processGuid +:+ ", Index: " +:+ strconv_Itoa index.

(** [Build] for a remote address; the index is an [int], the BBS is asked for an
    [int32]. *)
Definition Build (env : AuthEnv) (t : nat) (useDirectInstanceAddr : bool) (remote processGuid : string) (index : Z) : returns Permissions :=
  let ind := i32 index in
  try actualLRPs := Some (ae_ActualLRPs env processGuid ind) in
  match actualLRPs with
  | [] => fail ("no matching ActualLRP for " +:+ lrp_name processGuid ind)
  | _ :: _ :: _ => fail ("multiple matching ActualLRP for " +:+ lrp_name processGuid ind)
  | [actual] =>
      try desired := Some (ae_DesiredLRP env processGuid) in
      try sshRoute := Some (getRoutingInfo desired) in
      createPermissions t useDirectInstanceAddr sshRoute actual desired ("Successful remote access by " +:+ remote)
  end.

(** ** Authenticators *)

(** [exchangeAccessCodeForToken] *)
Definition exchangeAccessCodeForToken (env : AuthEnv) (code : string) : returns string :=
  match ae_uaa env code with
  | BadRequest err => fail err
  | NoAnswer _ => fail AuthenticationFailedErr
  | Answered status body =>
      if negb (status =? StatusOK)%Z then fail AuthenticationFailedErr
      else match body with
           | None => fail AuthenticationFailedErr
           | Some (tokenType, accessToken) => ret (tokenType +:+ " " +:+ accessToken)
           end
  end.

Definition access_path (ccURL appGuid : string) (index : Z) : string :=
  ccURL +:+ "/internal/apps/" +:+ appGuid +:+ "/ssh_access/" +:+ strconv_Itoa index.

Definition checkAccess (env : AuthEnv) (ccURL appGuid : string) (index : Z) (token : string) : returns string :=
  match ae_cc env (access_path ccURL appGuid index) token with
  | BadRequest _ => fail InvalidRequestErr
  | NoAnswer err => fail err
  | Answered status body =>
      if negb (status =? StatusOK)%Z then fail FetchAppFailedErr
      else match body with None => fail InvalidCCResponse | Some processGuid => ret processGuid end
  end.

(** [jwt.Parse], whose error is not looked at: the claims of the token are nil, and so
    is the token itself, when it has not three parts; they are nil when its header
    does not decode.  Looking at them panics then. *)
Definition token_claims (env : AuthEnv) (tokenString : list ascii) : returns unit :=
  match Split "." tokenString with
  | [header; _; _] => if ae_header env (untext header) then ret () else None
  | _ => None
  end.

Inductive Authenticator := DiegoProxyAuthenticator (credentials : string) | CFAuthenticator (ccURL : string).

Definition UserRegexp (a : Authenticator) : regexp :=
  match a with DiegoProxyAuthenticator _ => DiegoUserRegex | CFAuthenticator _ => CFUserRegex end.

Definition guid_and_index (r : regexp) (user : string) : option (string * string) :=
  match FindStringSubmatch r (text user) with Some [guid; index] => Some (untext guid, untext index) | _ => None end.

Definition quotation_mark : string := String (ascii_of_nat 34) "".
Definition range_error (digits : string) : string :=
  "strconv.Atoi: parsing " +:+ quotation_mark +:+ digits +:+ quotation_mark +:+ ": value out of range".

Definition diego_Authenticate (env : AuthEnv) (t : nat) (direct : bool) (credentials remote user password : string) : returns Permissions :=
  match guid_and_index DiegoUserRegex user with
  | None => fail InvalidDomainErr
  | Some (processGuid, digits) =>
      if negb (bool_decide (credentials = password)) then fail InvalidCredentialsErr
      else match strconv_Atoi digits with
           | None => fail (range_error digits)
           | Some index => Build env t direct remote processGuid index
           end
  end.

Definition cf_Authenticate (env : AuthEnv) (t : nat) (direct : bool) (ccURL remote user password : string) : returns Permissions :=
  match guid_and_index CFUserRegex user with
  | None => fail InvalidCredentialsErr
  | Some (appGuid, digits) =>
      match strconv_Atoi digits with
      | None => fail InvalidCredentialsErr
      | Some index =>
          try cred := exchangeAccessCodeForToken env password in
          match Split " " (text cred) with
          | [_; tokenString] =>
              try _ := token_claims env tokenString in
              try processGuid := checkAccess env ccURL appGuid index cred in
              Build env t direct remote processGuid index
          | _ => fail AuthenticationFailedErr
          end
      end
  end.

Definition Authenticate (env : AuthEnv) (t : nat) (direct : bool) (a : Authenticator) (remote user password : string) : returns Permissions :=
  match a with
  | DiegoProxyAuthenticator credentials => diego_Authenticate env t direct credentials remote user password
  | CFAuthenticator ccURL => cf_Authenticate env t direct ccURL remote user password
  end.

(** The composite authenticator ranges over its authenticators, in any order. *)
Fixpoint composite_Authenticate (env : AuthEnv) (t : nat) (direct : bool) (authenticators : list Authenticator)
    (remote user password : string) : returns Permissions :=
  match authenticators with
  | [] => fail InvalidCredentialsErr
  | a :: authenticators =>
      if MatchString (UserRegexp a) (text user) then Authenticate env t direct a remote user password
      else composite_Authenticate env t direct authenticators remote user password
  end.

(** ** What an authenticated user was granted *)

(** A user name of the form [domain:guid/digits], perhaps with something around it. *)
Definition user_is (domain : string) (guid : chars -> Prop) (user g digits : string) : Prop :=
  guid (text g) /\ digits <> "" /\ forallb is_digit (text digits) = true /\
  exists pre post, user = pre +:+ domain +:+ g +:+ "/" +:+ digits +:+ post.

Lemma user_groups domain r user groups :
  (forall l g, lang r l g -> g = []) ->
  FindStringSubmatch (Seq (Lit (text domain)) (Seq (Group r) index_part)) (text user) = Some groups ->
  exists g digits, groups = [text g; text digits] /\ user_is domain (fun l => lang r l []) user g digits.
Proof.
  intros Hr (pre & l & post & Hu & Hl)%FindStringSubmatch_sound.
  inversion Hl as [| | |? ? ? lb ? gb Ha Hb E1 E2 E3|]; subst. inversion Ha; subst.
  inversion Hb as [| | |? ? lg li gg gi Hg Hi E1 E2 E3|]; subst. inversion Hg as [| | | |? ? g0 Hg' E1 E2 E3]; subst. pose proof (Hr _ _ Hg') as ->.
  inversion Hi as [| | |? ? ls ld gs gd Hs Hd E1 E2 E3|]; subst. inversion Hs; subst. inversion Hd as [| | | |? ? g1 Hd' E1 E2 E3]; subst.
  inversion Hd' as [| |? ? Hne Hall| |]; subst. exists (untext lg), (untext ld). rewrite !text_untext. split; [done|].
  unfold user_is. rewrite !text_untext. split_and!; [done|by destruct ld|done|]. exists (untext pre), (untext post).
  rewrite <- (untext_text user), Hu, !untext_app, untext_text. cbn [untext]. by rewrite !string_app_assoc.
Qed.

Lemma lang_hex_guid l g : lang hex_guid l g -> g = [].
Proof.
  unfold hex_guid. intros H.
  repeat match goal with
  | H : lang (Seq _ _) _ _ |- _ => inversion H; clear H; subst
  | H : lang (Lit _) _ _ |- _ => inversion H; clear H; subst
  | H : lang (Times _ _) _ _ |- _ => inversion H; clear H; subst
  end. done.
Qed.
Lemma lang_plus_groups c l g : lang (Plus c) l g -> g = [].
Proof. by inversion 1. Qed.

Lemma cf_user user g digits : guid_and_index CFUserRegex user = Some (g, digits) -> user_is "cf:" (fun l => lang hex_guid l []) user g digits.
Proof.
  unfold guid_and_index. destruct (FindStringSubmatch _ _) as [groups|] eqn:Hf; [|done].
  apply user_groups in Hf as (g' & d' & -> & Hu); [|exact lang_hex_guid]. rewrite !untext_text. by intros [= <- <-].
Qed.
Lemma diego_user user g digits : guid_and_index DiegoUserRegex user = Some (g, digits) -> user_is "diego:" (fun l => lang (Plus is_guid_char) l []) user g digits.
Proof.
  unfold guid_and_index. destruct (FindStringSubmatch _ _) as [groups|] eqn:Hf; [|done].
  apply user_groups in Hf as (g' & d' & -> & Hu); [|exact (lang_plus_groups _)]. rewrite !untext_text. by intros [= <- <-].
Qed.

(** The access that a user has shown: with the credentials of the platform, to any
    process; or with an access code, for which UAA gives a token with which the cloud
    controller allows access to the application, and says which process it is. *)
Inductive granted (env : AuthEnv) (user password processGuid : string) (index : Z) : Authenticator -> Prop :=
| granted_diego digits :
    user_is "diego:" (fun l => lang (Plus is_guid_char) l []) user processGuid digits -> strconv_Atoi digits = Some index ->
    granted env user password processGuid index (DiegoProxyAuthenticator password)
| granted_cf ccURL appGuid digits tokenType accessToken :
    user_is "cf:" (fun l => lang hex_guid l []) user appGuid digits -> strconv_Atoi digits = Some index ->
    ae_uaa env password = Answered StatusOK (Some (tokenType, accessToken)) ->
    ae_cc env (access_path ccURL appGuid index) (tokenType +:+ " " +:+ accessToken) = Answered StatusOK (Some processGuid) ->
    granted env user password processGuid index (CFAuthenticator ccURL).

Lemma attempt_Ok {A B} (c : returns A) (k : A -> returns B) b : attempt c k = Some (Ok b) -> exists a, c = Some (Ok a) /\ k a = Some (Ok b).
Proof. destruct c as [[a|e]|]; [|done..]. intros H. by exists a. Qed.

Lemma exchange_Ok env code cred :
  exchangeAccessCodeForToken env code = Some (Ok cred) ->
  exists tokenType accessToken, ae_uaa env code = Answered StatusOK (Some (tokenType, accessToken)) /\ cred = tokenType +:+ " " +:+ accessToken.
Proof.
  unfold exchangeAccessCodeForToken. destruct (ae_uaa env code) as [| |status body]; [done..|]. destruct (Z.eqb_spec status StatusOK) as [->|]; [|done].
  destruct body as [[tt at_]|]; [|done]. intros [= <-]. by exists tt, at_.
Qed.

Lemma checkAccess_Ok env ccURL appGuid index token processGuid :
  checkAccess env ccURL appGuid index token = Some (Ok processGuid) ->
  ae_cc env (access_path ccURL appGuid index) token = Answered StatusOK (Some processGuid).
Proof.
  unfold checkAccess. destruct (ae_cc env _ _) as [| |status body]; [done..|]. destruct (Z.eqb_spec status StatusOK) as [->|]; [|done].
  by destruct body; [intros [= ->]|].
Qed.

Lemma Authenticate_granted env t direct a remote user password perms :
  Authenticate env t direct a remote user password = Some (Ok perms) ->
  exists processGuid index, granted env user password processGuid index a /\ Build env t direct remote processGuid index = Some (Ok perms).
Proof.
  destruct a as [credentials|ccURL]; cbn [Authenticate].
  - unfold diego_Authenticate. destruct (guid_and_index _ _) as [[g d]|] eqn:Hg; [|done]. case_bool_decide as Hc; [|done]. cbn [negb].
    destruct (strconv_Atoi d) as [index|] eqn:Hd; [|done]. intros Hb. exists g, index. subst. split; [|done]. econstructor; [by apply diego_user|done].
  - unfold cf_Authenticate. destruct (guid_and_index _ _) as [[g d]|] eqn:Hg; [|done]. destruct (strconv_Atoi d) as [index|] eqn:Hd; [|done].
    intros (cred & Hx & H)%attempt_Ok. destruct (Split _ _) as [|? [|tok [|]]]; try done.
    apply attempt_Ok in H as (? & _ & H). apply attempt_Ok in H as (pg & Hc & Hb). exists pg, index. split; [|done].
    apply exchange_Ok in Hx as (tt & at_ & Hx & ->). econstructor; [by apply cf_user|done|done|by apply checkAccess_Ok].
Qed.

Lemma composite_granted env t direct authenticators remote user password perms :
  composite_Authenticate env t direct authenticators remote user password = Some (Ok perms) ->
  exists a processGuid index, a ∈ authenticators /\ granted env user password processGuid index a /\
    Build env t direct remote processGuid index = Some (Ok perms).
Proof.
  induction authenticators as [|a l IH]; cbn [composite_Authenticate]; [done|]. destruct (MatchString _ _).
  - intros (pg & index & Hg & Hb)%Authenticate_granted. exists a, pg, index. by split; [left|].
  - intros (a' & pg & index & Ha & Hg & Hb)%IH. exists a', pg, index. by split; [right|].
Qed.

(** ** Logging in *)

Lemma index_part_exact {A} digits (k : list chars -> chars -> option A) x :
  digits <> [] -> forallb is_digit digits = true -> k [digits] [] = Some x -> match_here index_part ("/"%char :: digits) k = Some x.
Proof.
  intros Hne Hd Hk. change ("/"%char :: digits) with (["/"%char] ++ digits). unfold index_part. cbn [match_here].
  rewrite (proj2 (literal_Some _ _ _) eq_refl). rewrite <- (app_nil_r digits) at 1. apply plus_greedy; [done..|].
  cbn. by rewrite Nat.sub_0_r, firstn_all.
Qed.

Lemma find_here r s g : match_here r s (fun g _ => Some g) = Some g -> FindStringSubmatch r s = Some g.
Proof. destruct s; cbn; by intros ->. Qed.

(** A user name is taken apart into what it was put together from. *)
Lemma cf_user_exact g digits :
  lang hex_guid (text g) [] -> digits <> "" -> forallb is_digit (text digits) = true ->
  guid_and_index CFUserRegex ("cf:" +:+ g +:+ "/" +:+ digits) = Some (g, digits).
Proof.
  intros Hg Hne Hd. unfold guid_and_index. rewrite (find_here _ _ [text g; text digits]); [by rewrite !untext_text|].
  rewrite !text_app. unfold CFUserRegex. cbn [match_here]. rewrite (proj2 (literal_Some _ _ _) eq_refl).
  rewrite (match_fixed hex_guid _ [] _ _ Hg eq_refl). rewrite length_app, Nat.add_sub, take_app_length.
  apply index_part_exact; [by destruct digits|done|done].
Qed.

Lemma diego_user_exact g digits :
  lang (Plus is_guid_char) (text g) [] -> digits <> "" -> forallb is_digit (text digits) = true ->
  guid_and_index DiegoUserRegex ("diego:" +:+ g +:+ "/" +:+ digits) = Some (g, digits).
Proof.
  intros Hg Hne Hd. inversion Hg as [| |? ? Hg1 Hg2| |]; subst. unfold guid_and_index. rewrite (find_here _ _ [text g; text digits]); [by rewrite !untext_text|].
  rewrite !text_app. unfold DiegoUserRegex. cbn [match_here]. rewrite (proj2 (literal_Some _ _ _) eq_refl).
  apply plus_greedy; [done..|]. rewrite length_app, Nat.add_sub, take_app_length.
  apply index_part_exact; [by destruct digits|done|done].
Qed.

Lemma forallb_not_in (c : ascii -> bool) x l : forallb c l = true -> c x = false -> x ∉ l.
Proof. intros Hl Hx Hin. rewrite forallb_forall in Hl. apply list_elem_of_In, Hl in Hin. congruence. Qed.

Lemma hex_guid_chars l g : lang hex_guid l g -> "o"%char ∉ l.
Proof.
  unfold hex_guid. intros H.
  repeat match goal with
  | H : lang (Seq _ _) _ _ |- _ => inversion H; clear H; subst
  | H : lang (Lit _) _ _ |- _ => inversion H; clear H; subst
  | H : lang (Times _ _) _ _ |- _ => inversion H; clear H; subst
  end.
  rewrite !not_elem_of_app. split_and!; (set_solver || by eapply forallb_not_in).
Qed.

Lemma cf_user_not_diego g digits :
  lang hex_guid (text g) [] -> forallb is_digit (text digits) = true -> MatchString DiegoUserRegex (text ("cf:" +:+ g +:+ "/" +:+ digits)) = false.
Proof.
  intros Hg Hd. apply bool_decide_eq_false. intros [groups Hf]. apply user_groups in Hf as (g' & d' & _ & _ & _ & _ & pre & post & Hu); [|exact (lang_plus_groups _)].
  assert (Ho : "o"%char ∈ text ("cf:" +:+ g +:+ "/" +:+ digits)) by (rewrite Hu, !text_app; set_solver).
  revert Ho. rewrite !text_app, !elem_of_app. intros [Ho|[Ho|[Ho|Ho]]]; [set_solver|by eapply hex_guid_chars|set_solver|]. exact (forallb_not_in is_digit "o" _ Hd eq_refl Ho).
Qed.

(** A user of Cloud Foundry logs in with an access code: whatever the order of the
    authenticators, UAA is asked for a token, whose claims are looked at, and the cloud
    controller for access to exactly the application and the index of the name; the
    permissions are those of the process it names. *)
Lemma cf_login env t direct order ccURL credentials remote guid digits index code tokenType accessToken :
  order ≡ₚ [DiegoProxyAuthenticator credentials; CFAuthenticator ccURL] ->
  lang hex_guid (text guid) [] -> forallb is_digit (text digits) = true -> strconv_Atoi digits = Some index ->
  ae_uaa env code = Answered StatusOK (Some (tokenType, accessToken)) -> " "%char ∉ text tokenType -> " "%char ∉ text accessToken ->
  composite_Authenticate env t direct order remote ("cf:" +:+ guid +:+ "/" +:+ digits) code =
  (try _ := token_claims env (text accessToken) in
   try processGuid := checkAccess env ccURL guid index (tokenType +:+ " " +:+ accessToken) in Build env t direct remote processGuid index).
Proof.
  intros Ho Hg Hd Hi Hu Ht Ha. assert (Hne : digits <> "") by by intros ->.
  assert (Hcf : cf_Authenticate env t direct ccURL remote ("cf:" +:+ guid +:+ "/" +:+ digits) code =
                (try _ := token_claims env (text accessToken) in
   try processGuid := checkAccess env ccURL guid index (tokenType +:+ " " +:+ accessToken) in Build env t direct remote processGuid index)).
  { assert (Hex : exchangeAccessCodeForToken env code = Some (Ok (tokenType +:+ " " +:+ accessToken))) by (unfold exchangeAccessCodeForToken; by rewrite Hu).
    unfold cf_Authenticate. rewrite cf_user_exact, Hi, Hex by done. cbv beta iota delta [attempt]. rewrite !text_app. change (text " " ++ text accessToken) with (" "%char :: text accessToken).
    by rewrite Split_cons, Split_none by done. }
  pose proof (cf_user_not_diego guid digits Hg Hd) as Hdiego.
  assert (Hmatch : MatchString CFUserRegex (text ("cf:" +:+ guid +:+ "/" +:+ digits)) = true).
  { apply bool_decide_eq_true. pose proof (cf_user_exact guid digits Hg Hne Hd) as He. unfold guid_and_index in He. by destruct (FindStringSubmatch _ _). }
  symmetry in Ho. apply Permutation_length_2_inv in Ho as [->| ->]; cbn [composite_Authenticate UserRegexp Authenticate]; rewrite ?Hdiego, Hmatch; exact Hcf.
Qed.
End Build.
