(* ===== verification/SshProxy.v ===== *)
(** * The SSH proxy

    diego-ssh/proxy/proxy.go: a user who is authenticated is connected to the container
    that the permissions name, by TLS or without, and the proxy logs in there with what
    the route of the container says.  The copying of channels and requests between the
    two connections is not modelled. *)
From Stdlib Require Import ZArith Lia Ascii.
From S2P Require Import Prelude Models GoStd Actions Routes RunRequest Hashes LogStream GoStrings Regexp Fingerprint SshAuth.

(** ** Connecting to a container *)

(** An address, and the name that the certificate of the server must have. *)
Record Dial := mkDial { d_address : string; d_tls : option string }.
Inductive auth_method := PublicKeys (privateKey : string) | Password (password : string).

(** What the network and the server answer, with an error or not: a dialled address,
    the context when dialling has failed, a private key that is parsed, the host key of
    the server and its answer to the handshake. *)
Record ProxyEnv := mkProxyEnv {
  pe_dial : Dial -> option string;
  pe_context : option string;
  pe_parse_key : string -> option string;
  pe_host_key : Dial -> list ascii;
  pe_handshake : Dial -> string -> list auth_method -> option string }.

Record ClientConn := mkClientConn { cn_dial : Dial; cn_user : string; cn_auth : list auth_method; cn_host_key : list ascii }.

Definition or_else {A} (err : option string) (a : A) : returns A := match err with Some e => fail e | None => ret a end.

(** The dialer of [NewClientConn], for a proxy that has a TLS configuration or not. *)
Definition dial (env : ProxyEnv) (has_tls : bool) (cfg : TargetConfig) : returns Dial :=
  let plainly := let d := mkDial (tc_Address cfg) None in or_else (pe_dial env d) d in
  if has_tls && negb (bool_decide (tc_TLSAddress cfg = "")) then
    let d := mkDial (tc_TLSAddress cfg) (Some (tc_ServerCertDomainSAN cfg)) in
    match pe_dial env d with
    | None => ret d
    | Some _ => match pe_context env with Some e => fail e | None => plainly end
    end
  else plainly.

(** The methods by which the proxy logs in. *)
Definition client_auth (env : ProxyEnv) (cfg : TargetConfig) : returns (list auth_method) :=
  try keys :=
    (if bool_decide (tc_PrivateKey cfg = "") then ret []
     else or_else (pe_parse_key env (tc_PrivateKey cfg)) [PublicKeys (tc_PrivateKey cfg)]) in
  ret (keys ++ if negb (bool_decide (tc_User cfg = "")) && negb (bool_decide (tc_Password cfg = "")) then [Password (tc_Password cfg)] else []).

Definition HostKeyCallback (cfg : TargetConfig) (key : list ascii) : bool :=
  bool_decide (tc_HostFingerprint cfg = "") || fingerprint_callback (text (tc_HostFingerprint cfg)) key.

Section Proxy.
Context `{!MapRange string} {json : SshJson}.

Definition NewClientConn (env : ProxyEnv) (has_tls : bool) (permissions : Permissions) : returns ClientConn :=
  match permissions with
  | None => fail "Invalid permissions from authentication"
  | Some options =>
      try targetConfig := Some (unmarshal_config (default "" (options !! "proxy-target-config"))) in
      try nConn := dial env has_tls targetConfig in
      try auth := client_auth env targetConfig in
      let key := pe_host_key env nConn in
      if negb (HostKeyCallback targetConfig key) then fail "ssh: handshake failed: Host fingerprint mismatch"
      else or_else (pe_handshake env nConn (tc_User targetConfig) auth) (mkClientConn nConn (tc_User targetConfig) auth key)
  end.

Definition extractLogMessage (permissions : Permissions) : option LogMessage :=
  let logMessageJson := default "" (permissions ≫= lookup "log-message") in
  if bool_decide (logMessageJson = "") then None
  else match unmarshal_log logMessageJson with Ok m => Some m | Err _ => None end.

(** ** The proxy *)

Record ProxyConfig := mkProxyConfig { pc_direct : bool; pc_has_tls : bool; pc_authenticators : list Authenticator }.

(** A connection of a user: what the user says, what others answer, and the order in
    which the authenticators are ranged over. *)
Record Request := mkRequest {
  rq_remote : string;
  rq_user : string;
  rq_password : string;
  rq_auth : AuthEnv;
  rq_net : ProxyEnv;
  rq_order : list Authenticator;
  rq_range : nat }.

(** The connection is logged, then counted; it ends, is no longer counted, and its end
    is logged. *)
Inductive session_phase := Logged | Counted | Uncounted | Ended.
#[global] Instance session_phase_eq_dec : EqDecision session_phase.
Proof. solve_decision. Defined.
Record Session := mkSession { ss_request : Request; ss_conn : ClientConn; ss_log : option LogMessage; ss_phase : session_phase }.

Inductive proxy_event := SendAppLog (message source : string) (tags : gmap string string) | SendMetric (name : string) (value : Z).
Definition sshConnectionsMetric : string := "ssh-connections".

Record Proxy := mkProxy { px_connections : Z; px_sessions : list Session; px_out : list proxy_event }.
Definition New : Proxy := mkProxy 0 [] [].

Definition log_event (log : option LogMessage) (message : LogMessage -> string) : list proxy_event :=
  match log with Some m => [SendAppLog (message m) "SSH" (lm_Tags m)] | None => [] end.
Definition set_phase (s : Session) (ph : session_phase) : Session := mkSession (ss_request s) (ss_conn s) (ss_log s) ph.

(** [HandleConnection] until both connections are there; [None] is a panic. *)
Definition accept (cfg : ProxyConfig) (rq : Request) : returns Session :=
  try permissions := composite_Authenticate (rq_auth rq) (rq_range rq) (pc_direct cfg) (rq_order rq) (rq_remote rq) (rq_user rq) (rq_password rq) in
  try conn := NewClientConn (rq_net rq) (pc_has_tls cfg) permissions in
  ret (mkSession rq conn (extractLogMessage permissions) Logged).

(** The steps of the connections that are handled, in any order; a connection ends
    when it likes, or after its maximal duration. *)
Inductive proxy_step (cfg : ProxyConfig) (p : Proxy) : Proxy -> Prop :=
| proxy_accept rq s :
    rq_order rq ≡ₚ pc_authenticators cfg -> accept cfg rq = Some (Ok s) ->
    proxy_step cfg p (mkProxy (px_connections p) (px_sessions p ++ [s]) (px_out p ++ log_event (ss_log s) lm_Message))
| proxy_count i s :
    px_sessions p !! i = Some s -> ss_phase s = Logged ->
    proxy_step cfg p (mkProxy (px_connections p + 1) (<[i := set_phase s Counted]> (px_sessions p))
                        (px_out p ++ [SendMetric sshConnectionsMetric (px_connections p + 1)]))
| proxy_close i s :
    px_sessions p !! i = Some s -> ss_phase s = Counted ->
    proxy_step cfg p (mkProxy (px_connections p - 1) (<[i := set_phase s Uncounted]> (px_sessions p))
                        (px_out p ++ [SendMetric sshConnectionsMetric (px_connections p - 1)]))
| proxy_end i s :
    px_sessions p !! i = Some s -> ss_phase s = Uncounted ->
    proxy_step cfg p (mkProxy (px_connections p) (<[i := set_phase s Ended]> (px_sessions p))
                        (px_out p ++ log_event (ss_log s) (fun _ => "Remote access ended for " +:+ rq_remote (ss_request s)))).

(** ** Where a connection leads *)

(** The container is reached inside its network when the instance prefers that, or says
    nothing and the proxy prefers it. *)
Definition inside (cfg : ProxyConfig) (actual : ActualLRP) : Prop :=
  al_PreferredAddress actual = PreferredAddressInstance \/
  al_PreferredAddress actual = PreferredAddressUnknown /\ pc_direct cfg = true.

(** Where the instance serves a port: at the address of the container and the port
    itself, or at the address of the cell and the port that is mapped to it; by TLS, as
    the instance, at the ports of its proxy, if it has any. *)
Inductive serves (cfg : ProxyConfig) (actual : ActualLRP) (mapping : LRPPortMapping) : Dial -> Prop :=
| serves_inside :
    inside cfg actual -> serves cfg actual mapping (mkDial (host_port (al_InstanceAddress actual) (pm_ContainerPort mapping)) None)
| serves_outside :
    ~ inside cfg actual -> serves cfg actual mapping (mkDial (host_port (al_Address actual) (pm_HostPort mapping)) None)
| serves_inside_tls :
    inside cfg actual -> (0 < pm_ContainerTlsProxyPort mapping)%Z ->
    serves cfg actual mapping (mkDial (host_port (al_InstanceAddress actual) (pm_ContainerTlsProxyPort mapping)) (Some (al_InstanceGuid actual)))
| serves_outside_tls :
    ~ inside cfg actual \/ (pm_ContainerTlsProxyPort mapping <= 0)%Z -> (0 < pm_HostTlsProxyPort mapping)%Z ->
    serves cfg actual mapping (mkDial (host_port (al_Address actual) (pm_HostTlsProxyPort mapping)) (Some (al_InstanceGuid actual))).

(** The fingerprints of a host key. *)
Definition fingerprints (key : list ascii) : list (list ascii) :=
  [MD5Fingerprint key; SHA1Fingerprint key; SHA256Fingerprint key; SHA256Fingerprint key ++ ["="%char]].

(** The connection goes to where the instance serves the port of the route, without TLS
    only if the proxy does not use it, the instance has none or it failed; the key of the
    server is the one of the route, when that names one; and the proxy has logged in as
    the route says. *)
Record connects (cfg : ProxyConfig) (rq : Request) (route : SSHRoute) (actual : ActualLRP) (mapping : LRPPortMapping) (c : ClientConn) : Prop := {
  co_dialled : pe_dial (rq_net rq) (cn_dial c) = None;
  co_serves : serves cfg actual mapping (cn_dial c);
  co_tls : d_tls (cn_dial c) <> None /\ pc_has_tls cfg = true \/
    d_tls (cn_dial c) = None /\
      forall d, serves cfg actual mapping d -> d_tls d <> None -> pc_has_tls cfg = false \/ is_Some (pe_dial (rq_net rq) d);
  co_host_key : forall fp, fp = (if bool_decide (sr_Host256Fingerprint route = "") then sr_HostFingerprint route else sr_Host256Fingerprint route) ->
    fp <> "" -> text fp ∈ fingerprints (cn_host_key c);
  co_user : cn_user c = sr_User route;
  co_auth : forall m, m ∈ cn_auth c -> m = PublicKeys (sr_PrivateKey route) \/ m = Password (sr_Password route) }.

(** The texts that go through the permissions are ASCII. *)
Definition plain_texts (route : SSHRoute) (actual : ActualLRP) : bool :=
  forallb ascii_string [al_Address actual; al_InstanceAddress actual; al_InstanceGuid actual; sr_HostFingerprint route;
    sr_Host256Fingerprint route; sr_User route; sr_Password route; sr_PrivateKey route].

Definition session_ok (cfg : ProxyConfig) (s : Session) : Prop :=
  let rq := ss_request s in
  exists a processGuid index actual desired route mapping,
    a ∈ pc_authenticators cfg /\ granted (rq_auth rq) (rq_user rq) (rq_password rq) processGuid index a /\
    ae_ActualLRPs (rq_auth rq) processGuid (i32 index) = Ok [actual] /\
    ae_DesiredLRP (rq_auth rq) processGuid = Ok desired /\ getRoutingInfo desired = Ok route /\
    Some mapping ∈ al_Ports actual /\ pm_ContainerPort mapping = sr_ContainerPort route /\
    (plain_texts route actual = true -> connects cfg rq route actual mapping (ss_conn s)).

Lemma ascii_app a b : ascii_string (a +:+ b) = ascii_string a && ascii_string b.
Proof.
  induction a as [|c a IH]; [done|]. change ((N_of_ascii c <? 128)%N && ascii_string (a +:+ b) = (N_of_ascii c <? 128)%N && ascii_string a && ascii_string b).
  by rewrite IH, andb_assoc.
Qed.

Lemma ascii_pretty_go (x : N) s : ascii_string s = true -> ascii_string (pretty_N_go x s) = true.
Proof.
  revert s. induction (N.lt_wf_0 x) as [x _ IH]; intros s Hs. destruct (decide (x = 0%N)) as [->|Hx]; [by rewrite pretty_N_go_0|].
  rewrite pretty_N_go_step by lia. apply IH; [apply N.div_lt; lia|]. cbn [ascii_string]. rewrite Hs, andb_true_r.
  unfold pretty_N_char. by repeat case_match.
Qed.

Lemma ascii_Itoa z : ascii_string (strconv_Itoa z) = true.
Proof.
  assert (Hn : forall n : N, ascii_string (pretty n) = true).
  { intros n. unfold pretty, pretty_N. case_decide; [done|]. by apply ascii_pretty_go. }
  destruct z as [|x|x]; [done|exact (Hn (Npos x))|]. change (ascii_string ("-" +:+ pretty (Npos x)) = true). by rewrite ascii_app, Hn.
Qed.

Lemma plain_config direct route actual mapping :
  plain_texts route actual = true -> ascii_config (target_config direct route actual mapping) = true.
Proof.
  unfold plain_texts, ascii_config, target_config, host_port. cbn [forallb tc_Address tc_TLSAddress tc_ServerCertDomainSAN tc_HostFingerprint tc_User tc_Password tc_PrivateKey].
  rewrite !andb_true_iff. intros (H1 & H2 & H3 & H4 & H5 & H6 & H7 & H8 & _).
  split_and!; try done; repeat case_match; rewrite ?ascii_app, ?ascii_Itoa, ?H1, ?H2; done.
Qed.

Lemma use_instance_inside cfg actual : use_instance_address (pc_direct cfg) actual = true <-> inside cfg actual.
Proof.
  unfold use_instance_address, inside, PreferredAddressInstance, PreferredAddressHost, PreferredAddressUnknown.
  repeat case_match; lia || naive_solver lia.
Qed.

Lemma host_port_not_empty host port : host_port host port <> "".
Proof. unfold host_port. by destruct host. Qed.

(** The addresses of the target are those where the instance serves the port. *)
Lemma target_serves cfg route actual mapping d :
  let tc := target_config (pc_direct cfg) route actual mapping in
  serves cfg actual mapping d <->
  d = mkDial (tc_Address tc) None \/ tc_TLSAddress tc <> "" /\ d = mkDial (tc_TLSAddress tc) (Some (tc_ServerCertDomainSAN tc)).
Proof.
  pose proof (use_instance_inside cfg actual) as Hu. cbn [target_config tc_Address tc_TLSAddress tc_ServerCertDomainSAN].
  destruct (use_instance_address (pc_direct cfg) actual); cbn [andb].
  - assert (Hin : inside cfg actual) by (by apply Hu). split.
    + destruct 1 as [|Hn|_ Hp|[Hn|Hp] Hp']; [by left|done| |done|]; right.
      * rewrite (proj2 (Z.ltb_lt _ _) Hp). split; [apply host_port_not_empty|done].
      * rewrite (proj2 (Z.ltb_ge _ _) Hp), (proj2 (Z.ltb_lt _ _) Hp'). split; [apply host_port_not_empty|done].
    + intros [->|[Hne ->]]; [by constructor|]. destruct (Z.ltb_spec 0 (pm_ContainerTlsProxyPort mapping)); [by constructor|].
      destruct (Z.ltb_spec 0 (pm_HostTlsProxyPort mapping)); [|done]. constructor; [by right|done].
  - assert (Hin : ~ inside cfg actual) by (by intros ?%Hu). split.
    + destruct 1 as [Hn| |Hn _|_ Hp']; [done|by left|done|]. right. rewrite (proj2 (Z.ltb_lt _ _) Hp'). split; [apply host_port_not_empty|done].
    + intros [->|[Hne ->]]; [by constructor|]. destruct (Z.ltb_spec 0 (pm_HostTlsProxyPort mapping)); [|done]. constructor; [by left|done].
Qed.

Lemma or_else_Ok {A} err (a b : A) : or_else err a = Some (Ok b) -> err = None /\ b = a.
Proof. destruct err; cbn; [done|]. by intros [= ->]. Qed.

Lemma find_mapping_Ok ports port mapping :
  find_mapping ports port = Some (Ok (Some mapping)) -> Some mapping ∈ ports /\ pm_ContainerPort mapping = port.
Proof.
  induction ports as [|[m|] ports IH]; cbn; [done| |done]. destruct (Z.eqb_spec (pm_ContainerPort m) port) as [<-|_].
  - intros [= ->]. by split; [left|].
  - intros [? ?]%IH. by split; [right|].
Qed.

(** Permissions that name a target name the instance that the BBS has. *)
Lemma Build_Ok env t direct remote processGuid index options :
  Build env t direct remote processGuid index = Some (Ok (Some options)) ->
  exists actual desired route mapping j,
    ae_ActualLRPs env processGuid (i32 index) = Ok [actual] /\ ae_DesiredLRP env processGuid = Ok desired /\ getRoutingInfo desired = Ok route /\
    Some mapping ∈ al_Ports actual /\ pm_ContainerPort mapping = sr_ContainerPort route /\
    marshal_config (target_config direct route actual mapping) = Ok j /\ options !! "proxy-target-config" = Some j.
Proof.
  unfold Build. intros (lrps & [= Hl] & H)%attempt_Ok. destruct lrps as [|actual [|]]; [done| |done].
  apply attempt_Ok in H as (desired & [= Hd] & H). apply attempt_Ok in H as (route & [= Hr] & H).
  unfold createPermissions in H. apply attempt_Ok in H as ([mapping|] & Hm & H); [|done]. apply find_mapping_Ok in Hm as [Hin Hp].
  apply attempt_Ok in H as (j & [= Hj] & H). apply attempt_Ok in H as (tags & _ & H). apply attempt_Ok in H as (lj & _ & H).
  injection H as <-. exists actual, desired, route, mapping, j. split_and!; try done.
Qed.

Lemma dial_Ok env has_tls cfg d :
  dial env has_tls cfg = Some (Ok d) ->
  pe_dial env d = None /\
  (d = mkDial (tc_TLSAddress cfg) (Some (tc_ServerCertDomainSAN cfg)) /\ has_tls = true /\ tc_TLSAddress cfg <> "" \/
   d = mkDial (tc_Address cfg) None /\
     (has_tls = false \/ tc_TLSAddress cfg = "" \/ is_Some (pe_dial env (mkDial (tc_TLSAddress cfg) (Some (tc_ServerCertDomainSAN cfg)))))).
Proof.
  unfold dial. destruct has_tls; cbn [andb]; [|by intros [? ->]%or_else_Ok; split; [|right; split; [|left]]].
  case_bool_decide as Ha; cbn [negb]; [by intros [? ->]%or_else_Ok; split; [|right; split; [|right; left]]|].
  destruct (pe_dial env (mkDial (tc_TLSAddress cfg) _)) as [e|] eqn:He.
  - destruct (pe_context env); [done|]. intros [? ->]%or_else_Ok. split; [done|]. right. split; [done|]. right; right. by eexists.
  - intros [= <-]. split; [done|]. by left.
Qed.

Lemma client_auth_Ok env cfg auth m :
  client_auth env cfg = Some (Ok auth) -> m ∈ auth -> m = PublicKeys (tc_PrivateKey cfg) \/ m = Password (tc_Password cfg).
Proof.
  unfold client_auth. intros (keys & Hk & [= <-])%attempt_Ok [Hm|Hm]%elem_of_app.
  - left. case_bool_decide; [injection Hk as <-; by apply not_elem_of_nil in Hm|]. apply or_else_Ok in Hk as [_ ->]. by apply list_elem_of_singleton in Hm.
  - right. destruct (_ && _); [by apply list_elem_of_singleton in Hm|by apply not_elem_of_nil in Hm].
Qed.

Lemma accept_ok cfg rq s : rq_order rq ≡ₚ pc_authenticators cfg -> accept cfg rq = Some (Ok s) -> session_ok cfg s /\ ss_request s = rq /\ ss_phase s = Logged.
Proof.
  intros Ho (permissions & Ha & (conn & Hc & [= <-])%attempt_Ok)%attempt_Ok. split; [|done].
  apply composite_granted in Ha as (a & pg & index & Hin & Hg & Hb). destruct permissions as [options|]; [|done].
  apply Build_Ok in Hb as (actual & desired & route & mapping & j & H1 & H2 & H3 & H4 & H5 & Hj & Ho').
  exists a, pg, index, actual, desired, route, mapping. rewrite <- Ho. split_and!; try done. intros Has%(plain_config (pc_direct cfg) _ _ mapping). unfold NewClientConn in Hc.
  rewrite Ho' in Hc. change (default "" (Some j)) with j in Hc. rewrite (config_roundtrip _ _ Has Hj) in Hc. cbn [attempt] in Hc.
  pose proof (fun d => target_serves cfg route actual mapping d) as Hs. set (tc := target_config _ _ _ _) in *.
  apply attempt_Ok in Hc as (d & Hd & Hc). apply attempt_Ok in Hc as (auth & Hau & Hc). destruct (HostKeyCallback _ _) eqn:Hh; [|done].
  apply or_else_Ok in Hc as [_ ->]. apply dial_Ok in Hd as [Hd1 Hd2]. split; cbn; [done| | | |done|].
  - apply Hs. destruct Hd2 as [(-> & _ & ?)|(-> & _)]; [by right|by left].
  - destruct Hd2 as [(-> & ? & _)|(-> & Hd2)]; [by left|right]. split; [done|]. intros d' [->|[Hne ->]]%Hs Htls; [done|].
    destruct Hd2 as [?|[?|?]]; [by left|done|by right].
  - intros fp -> Hne. change (if bool_decide _ then _ else _) with (tc_HostFingerprint tc) in *. unfold HostKeyCallback in Hh.
    apply orb_true_iff in Hh as [Hh%bool_decide_eq_true|Hh]; [done|]. apply fingerprint_exact; [|done]. by destruct (tc_HostFingerprint tc).
  - intros m Hm. exact (client_auth_Ok _ _ _ _ Hau Hm).
Qed.

(** ** The connections that are open *)

Definition counted (s : Session) : Z := match ss_phase s with Counted => 1 | _ => 0 end.
Definition metrics (out : list proxy_event) : list Z := omap (fun e => match e with SendMetric _ n => Some n | _ => None end) out.
Definition open_sessions (p : Proxy) : list Session := filter (fun s => ss_phase s = Counted) (px_sessions p).

Record proxy_inv (cfg : ProxyConfig) (p : Proxy) : Prop := mkProxyInv {
  pi_sessions : Forall (session_ok cfg) (px_sessions p);
  pi_connections : px_connections p = Z.of_nat (length (open_sessions p));
  pi_metrics : default 0%Z (last (metrics (px_out p))) = px_connections p }.

Lemma session_ok_phase cfg s ph : session_ok cfg s -> session_ok cfg (set_phase s ph).
Proof. done. Qed.

Lemma open_insert (l : list Session) i s ph :
  l !! i = Some s ->
  Z.of_nat (length (filter (fun s => ss_phase s = Counted) (<[i := set_phase s ph]> l))) =
  (Z.of_nat (length (filter (fun s => ss_phase s = Counted) l)) - counted s + counted (set_phase s ph))%Z.
Proof.
  intros Hi. rewrite <- (take_drop_middle l i s Hi) at 2. rewrite insert_take_drop by by eapply lookup_lt_Some. rewrite !filter_app, !length_app, !filter_cons.
  unfold counted. cbn. repeat case_decide; destruct (ss_phase s), ph; cbn; lia || congruence.
Qed.

Lemma metrics_snoc out n : default 0%Z (last (metrics (out ++ [SendMetric sshConnectionsMetric n]))) = n.
Proof. unfold metrics. rewrite omap_app. cbn. by rewrite last_snoc. Qed.
Lemma metrics_log out log f : metrics (out ++ log_event log f) = metrics out.
Proof. unfold metrics. rewrite omap_app. destruct log; cbn; by rewrite app_nil_r. Qed.

Lemma proxy_inv_phase cfg p i s ph out :
  proxy_inv cfg p -> px_sessions p !! i = Some s ->
  default 0%Z (last (metrics out)) = (px_connections p - counted s + counted (set_phase s ph))%Z ->
  proxy_inv cfg (mkProxy (px_connections p - counted s + counted (set_phase s ph)) (<[i := set_phase s ph]> (px_sessions p)) out).
Proof.
  intros [H1 H2 H3] Hi Ho. constructor; cbn; [|unfold open_sessions; cbn; by rewrite (open_insert _ _ _ _ Hi), H2|done].
  apply Forall_insert; [done|]. apply session_ok_phase. by eapply Forall_lookup_1.
Qed.

Lemma proxy_inv_step cfg p p' : proxy_step cfg p p' -> proxy_inv cfg p -> proxy_inv cfg p'.
Proof.
  intros Hs Hinv. destruct Hs as [rq s Ho Ha|i s Hi Hp|i s Hi Hp|i s Hi Hp].
  - destruct Hinv as [H1 H2 H3]. apply accept_ok in Ha as (Hok & _ & Hph); [|done]. constructor; cbn.
    + apply Forall_app; split; [done|]. by constructor.
    + unfold open_sessions. cbn. rewrite filter_app, filter_cons, Hph. cbn. by rewrite app_nil_r.
    + by rewrite metrics_log.
  - replace (px_connections p + 1)%Z with (px_connections p - counted s + counted (set_phase s Counted))%Z by (unfold counted; rewrite Hp; cbn; lia).
    apply proxy_inv_phase; [done..|apply metrics_snoc].
  - replace (px_connections p - 1)%Z with (px_connections p - counted s + counted (set_phase s Uncounted))%Z by (unfold counted; rewrite Hp; cbn; lia).
    apply proxy_inv_phase; [done..|apply metrics_snoc].
  - replace (px_connections p) with (px_connections p - counted s + counted (set_phase s Ended))%Z by (unfold counted; rewrite Hp; cbn; lia).
    apply proxy_inv_phase; [done..|]. rewrite metrics_log, (pi_metrics _ _ Hinv). unfold counted. rewrite Hp. cbn. lia.
Qed.

(** C13: Whoever is connected, at whatever time, by the proxy with a container: the user was
    granted access by one of the authenticators, with the credentials of Diego or by UAA
    and the cloud controller; the container is the only one that the BBS has for that
    process and the index, truncated to 32 bits; the connection goes to where the
    instance serves the port of its SSH route (at the container's address or the cell's,
    by TLS if it can), to a server with the host key of the route if that names one, and
    the proxy logs in as the route says.  Where the connection goes supposes that the
    addresses, the guid and the texts of the route are ASCII, which go through JSON.  The
    metric is the number of the connections. *)
Theorem ssh_access cfg p :
  rtc (proxy_step cfg) New p ->
  Forall (session_ok cfg) (px_sessions p) /\ px_connections p = Z.of_nat (length (open_sessions p)) /\
  default 0%Z (last (metrics (px_out p))) = px_connections p.
Proof.
  intros Hr. enough (proxy_inv cfg p) as [] by done. apply (rtc_ind_r (proxy_inv cfg) New) with (3 := Hr); [by constructor|].
  intros x y _ Hs. by apply proxy_inv_step.
Qed.
End Proxy.

(** ** Logging in by SSH

    A token that is not a JSON web token makes the proxy panic; an index beyond 32 bits
    reaches another instance.  A proxy, its authenticators and a user who logs in. *)

(** C40: A user whose token has no dots, as the opaque tokens of UAA have none, crashes the
    proxy when neither the token nor its type has a space (with a space the token is
    refused before it is parsed): the error of the parser is not looked at, and the claims
    of the nil token are. *)
Theorem opaque_token_panics `{!MapRange string} {json : SshJson} cfg rq ccURL credentials guid digits index tokenType accessToken :
  pc_authenticators cfg = [DiegoProxyAuthenticator credentials; CFAuthenticator ccURL] -> rq_order rq ≡ₚ pc_authenticators cfg ->
  rq_user rq = "cf:" +:+ guid +:+ "/" +:+ digits ->
  lang hex_guid (text guid) [] -> forallb is_digit (text digits) = true -> strconv_Atoi digits = Some index ->
  ae_uaa (rq_auth rq) (rq_password rq) = Answered StatusOK (Some (tokenType, accessToken)) ->
  " "%char ∉ text tokenType -> " "%char ∉ text accessToken -> "."%char ∉ text accessToken ->
  accept cfg rq = None.
Proof.
  intros Hc Ho Hu Hg Hd Hi Huaa Ht Ha Hdot. unfold accept. rewrite Hc in Ho. rewrite Hu, (cf_login _ _ _ _ _ _ _ _ _ _ _ _ _ Ho Hg Hd Hi Huaa Ht Ha).
  unfold token_claims. by rewrite Split_none.
Qed.

(** ** Example *)

#[local] Instance ssh_range : MapRange string := canonical_range string.

Definition write_config (c : TargetConfig) : string :=
  SimpleJson.write [tc_Address c; tc_TLSAddress c; tc_ServerCertDomainSAN c; tc_HostFingerprint c; tc_User c; tc_Password c; tc_PrivateKey c].
Definition read_config (j : string) : result string TargetConfig :=
  match SimpleJson.read j with
  | ([a; ta; san; fp; u; p; k], None) => Ok (mkTargetConfig a ta san fp u p k)
  | _ => Err "unexpected end of JSON input"
  end.
Definition write_log (m : LogMessage) : string := SimpleJson.write (lm_Message m :: (map_to_list (lm_Tags m) ≫= fun kv => [kv.1; kv.2])).
Definition read_log (j : string) : result string LogMessage :=
  match SimpleJson.read j with
  | (message :: tags, None) =>
      Ok (mkLogMessage message ((fix go l := match l with k :: v :: l => <[k := v]> (go l) | _ => ∅ end) tags))
  | _ => Err "unexpected end of JSON input"
  end.
Definition read_route (j : string) : result string SSHRoute :=
  match SimpleJson.read j with
  | ([port; fp; fp256; u; p; k], None) =>
      match strconv_Atoi port with Some port => Ok (mkSSHRoute port fp fp256 u p k) | None => Err "invalid port" end
  | _ => Err "unexpected end of JSON input"
  end.

Lemma read_write_config c j : ascii_config c = true -> (Ok (write_config c) : result string string) = Ok j -> read_config j = Ok c.
Proof.
  intros Ha [= <-]. unfold read_config, write_config. rewrite SimpleJson.read_write; [by destruct c|].
  unfold ascii_config in Ha. rewrite forallb_forall in Ha. apply Forall_forall. intros s Hs. by apply Ha, list_elem_of_In.
Qed.

#[local] Instance example_json : SshJson :=
  {| unmarshal_route := read_route; marshal_config := fun c => Ok (write_config c); unmarshal_config := read_config;
     marshal_log := fun m => Ok (write_log m); unmarshal_log := read_log; config_roundtrip := read_write_config |}.

Definition app_guid : string := "0a1b2c3d-0123-4567-89ab-0123456789ab".
Definition host_key : list ascii := text "key".
Definition lrp (index : Z) : ActualLRP :=
  mkActualLRP "process" index "instance" "10.0.0.1" "10.255.0.1" "" [Some (mkLRPPortMapping 8080 61000 61001 61002); Some (mkLRPPortMapping 2222 61010 0 61012)]
    PreferredAddressHost 0 0 (mkTag "" 0) "" ActualLRPStateRunning None "domain" "cell".
Definition ssh_route : string :=
  SimpleJson.write ["2222"; untext (MD5Fingerprint host_key); ""; "vcap"; "secret"; "private"].
Definition desired_lrp : DesiredLRP := mkDesiredLRP "process" "domain" "log" 1 (Some {[DIEGO_SSH := Some ssh_route]}) ∅ None.

Definition auth_env (accessToken : string) : AuthEnv :=
  mkAuthEnv (fun code => if bool_decide (code = "code") then Answered StatusOK (Some ("bearer", accessToken)) else Answered 401 None)
    (fun path token => if bool_decide (path = "cc/internal/apps/" +:+ app_guid +:+ "/ssh_access/0" /\ token = "bearer h.c.s")
                       then Answered StatusOK (Some "process") else Answered 404 None)
    (fun header => bool_decide (header = "h"))
    (fun guid index => Ok (if bool_decide (guid = "process") && (index <? 1)%Z then [lrp index] else []))
    (fun guid => if bool_decide (guid = "process") then Ok desired_lrp else Err "not found").
(** The TLS proxy of the container cannot be reached. *)
Definition net_env : ProxyEnv :=
  mkProxyEnv (fun d => if d_tls d then Some "connection refused" else None) None (fun _ => None) (fun _ => host_key) (fun _ _ _ => None).
Definition proxy_config : ProxyConfig := mkProxyConfig false true [DiegoProxyAuthenticator "diego"; CFAuthenticator "cc"].
Definition login (user password accessToken : string) : Request :=
  mkRequest "192.0.2.1:4711" user password (auth_env accessToken) net_env (rev (pc_authenticators proxy_config)) 0.

Definition cf_session : Session :=
  mkSession (login ("cf:" +:+ app_guid +:+ "/0") "code" "h.c.s")
    (mkClientConn (mkDial "10.0.0.1:61010" None) "vcap" [PublicKeys "private"; Password "secret"] host_key)
    (Some (mkLogMessage "Successful remote access by 192.0.2.1:4711" {["source_id" := "log"; "instance_id" := "0"]})) Logged.

Lemma cf_session_accepted : accept proxy_config (ss_request cf_session) = Some (Ok cf_session).
Proof. vm_compute. reflexivity. Qed.

(** Index 2^32 is index 0. *)
Lemma index_wraps :
  match accept proxy_config (login "diego:process/4294967296" "diego" "") with
  | Some (Ok s) => cn_dial (ss_conn s) = mkDial "10.0.0.1:61010" None
  | _ => False
  end.
Proof. vm_compute. reflexivity. Qed.

Lemma login_order user password token : rq_order (login user password token) ≡ₚ pc_authenticators proxy_config.
Proof. apply Permutation_sym, Permutation_rev. Qed.

Lemma ssh_access_witness :
  exists p, rtc (proxy_step proxy_config) New p /\ px_connections p = 1%Z /\ length (open_sessions p) = 1 /\ Forall (session_ok proxy_config) (px_sessions p).
Proof.
  assert (Hr : exists p, rtc (proxy_step proxy_config) New p /\ px_connections p = 1%Z /\ length (open_sessions p) = 1).
  { eexists. split; [|split].
    - eapply rtc_l; [apply (proxy_accept _ _ (ss_request cf_session) cf_session); [apply login_order|exact cf_session_accepted]|].
      apply rtc_once, (proxy_count _ _ 0 cf_session); reflexivity.
    - reflexivity.
    - reflexivity. }
  destruct Hr as (p & Hr & H1 & H2). exists p. split; [exact Hr|]. split; [exact H1|]. split; [exact H2|]. exact (proj1 (ssh_access proxy_config p Hr)).
Defined.

Lemma opaque_token_panics_witness : accept proxy_config (login ("cf:" +:+ app_guid +:+ "/0") "code" "opaque") = None.
Proof.
  apply (opaque_token_panics proxy_config (login ("cf:" +:+ app_guid +:+ "/0") "code" "opaque") "cc" "diego" app_guid "0" 0 "bearer" "opaque"); try reflexivity.
  - apply login_order.
  - change (text app_guid) with (text "0a1b2c3d" ++ text "-" ++ text "0123" ++ text "-" ++ text "4567" ++ text "-" ++ text "89ab" ++ text "-" ++ text "0123456789ab").
    repeat (apply (lang_seq _ _ _ _ [] []); [constructor; reflexivity|]). constructor; reflexivity.
  - apply (bool_decide_unpack _). vm_compute. exact I.
  - apply (bool_decide_unpack _). vm_compute. exact I.
  - apply (bool_decide_unpack _). vm_compute. exact I.
Defined.
