(* ===== verification/LocalDriver.v ===== *)
(** * The local volume driver

    localdriver/local_driver.go: volumes are directories, and a volume is mounted by a
    link to its directory, which is there as long as somebody uses it.  The file system
    has directories and links; what the operating system answers may be an error at any
    time.  The table of volumes has no lock in the code; an operation is one step
    here. *)
From Stdlib Require Import ZArith Lia Ascii.
From S2P Require Import Prelude GoStrings.

(** ** Volume ids

    dockerdriver/utils: an id that is made unique by the container. *)

Record VolumeId := mkVolumeId { vid_Prefix : chars; vid_Suffix : chars }.

Definition GetUniqueId (id : VolumeId) : chars := Replace "_" "=" (vid_Prefix id) ++ "_"%char :: Replace "_" "=" (vid_Suffix id).
Definition NewVolumeIdFromEncodedString (s : chars) : option VolumeId :=
  match Split "_" s with
  | [prefix; suffix] => Some (mkVolumeId (Replace "=" "_" prefix) (Replace "=" "_" suffix))
  | _ => None
  end.

(** ** The driver and the file system *)

Record LocalVolumeInfo := mkVolume { vi_Name : chars; vi_Mountpoint : chars; vi_MountCount : Z }.
Record LocalDriver := mkDriver { ld_volumes : gmap chars LocalVolumeInfo; ld_dirs : gset chars; ld_links : gmap chars chars }.
Record DriverConfig := mkDriverConfig { dc_dir : chars; dc_uniqueVolumeIds : bool }.

(** The errors of the operating system, if any. *)
Record OS := mkOS {
  os_Abs : option string;
  os_MkdirAll : chars -> option string;
  os_Stat : chars -> option string;
  os_Symlink : chars -> option string;
  os_Remove : chars -> option string;
  os_RemoveAll : chars -> option string }.

(** A call returns, or logs a fatal error, which panics. *)
Inductive outcome (A : Type) := Return (a : A) | Fatal.
Arguments Return {A} a.
Arguments Fatal {A}.

Definition NewLocalDriver : LocalDriver := mkDriver ∅ ∅ ∅.

Definition VolumesRootDir : chars := text "_volumes".
Definition MountsRootDir : chars := text "_mounts".

Definition with_volume (d : LocalDriver) (v : LocalVolumeInfo) : LocalDriver :=
  mkDriver (<[vi_Name v := v]> (ld_volumes d)) (ld_dirs d) (ld_links d).

Section Driver.
Context (cfg : DriverConfig) (os : OS).

(** [MkdirAll]; whether it succeeds. *)
Definition mkdir (d : LocalDriver) (p : chars) : LocalDriver * bool :=
  match os_MkdirAll os p with
  | Some _ => (d, false)
  | None => (mkDriver (ld_volumes d) ({[p]} ∪ ld_dirs d) (ld_links d), true)
  end.

Definition volumesPathRoot : chars := Join [dc_dir cfg; VolumesRootDir].
Definition mountsPathRoot : chars := with_slash (dc_dir cfg) ++ MountsRootDir.

(** The directory of the volume, and the path of its link. *)
Definition volume_path (volumeId : chars) : option chars :=
  volumeId ← (if dc_uniqueVolumeIds cfg then vid_Prefix <$> NewVolumeIdFromEncodedString volumeId else Some volumeId);
  Some (Join [volumesPathRoot; volumeId]).
Definition mount_path (volumeId : chars) : chars := mountsPathRoot ++ slash :: volumeId.

Definition volumePath (d : LocalDriver) (volumeId : chars) : LocalDriver * outcome chars :=
  match os_Abs os with
  | Some _ => (d, Fatal)
  | None =>
      let '(d, ok) := mkdir d volumesPathRoot in
      if negb ok then (d, Fatal)
      else match volume_path volumeId with None => (d, Fatal) | Some p => (d, Return p) end
  end.
Definition mountPath (d : LocalDriver) (volumeId : chars) : LocalDriver * outcome chars :=
  match os_Abs os with
  | Some _ => (d, Fatal)
  | None => let '(d, ok) := mkdir d mountsPathRoot in if negb ok then (d, Fatal) else (d, Return (mount_path volumeId))
  end.

(** [exists]: [Stat] follows a link. *)
Definition present (d : LocalDriver) (p : chars) : bool :=
  match ld_links d !! p with
  | Some target => bool_decide (target ∈ ld_dirs d)
  | None => bool_decide (p ∈ ld_dirs d)
  end.
Definition exists_path (d : LocalDriver) (p : chars) : bool * option string :=
  match os_Stat os p with Some e => (true, Some e) | None => (present d p, None) end.

(** [Symlink] and [Remove] *)
Definition mount (d : LocalDriver) (volumePath mountPath : chars) : LocalDriver * option string :=
  if bool_decide (is_Some (ld_links d !! mountPath)) || bool_decide (mountPath ∈ ld_dirs d) then (d, Some "file exists")
  else match os_Symlink os mountPath with
       | Some e => (d, Some e)
       | None => (mkDriver (ld_volumes d) (ld_dirs d) (<[mountPath := volumePath]> (ld_links d)), None)
       end.
Definition remove (d : LocalDriver) (p : chars) : LocalDriver * option string :=
  match os_Remove os p with
  | Some e => (d, Some e)
  | None =>
      if bool_decide (is_Some (ld_links d !! p)) then (mkDriver (ld_volumes d) (ld_dirs d) (delete p (ld_links d)), None)
      else if bool_decide (p ∈ ld_dirs d) then (mkDriver (ld_volumes d) (ld_dirs d ∖ {[p]}) (ld_links d), None)
      else (d, Some "no such file or directory")
  end.

(** What is at a path or below it. *)
Definition below (p q : chars) : bool := bool_decide (q = p) || bool_decide (take (length (p ++ [slash])) q = p ++ [slash]).
Definition removeAll (d : LocalDriver) (p : chars) : LocalDriver * option string :=
  match os_RemoveAll os p with
  | Some e => (d, Some e)
  | None =>
      (mkDriver (ld_volumes d) (filter (fun q => below p q = false) (ld_dirs d)) (filter (fun ql => below p ql.1 = false) (ld_links d)), None)
  end.

(** ** Operations

    An empty error is none. *)

Definition missing_name : string := "Missing mandatory 'volume_name'".
Definition named (before : string) (name : chars) (after : string) : string := before +:+ untext name +:+ after.

Definition Create (d : LocalDriver) (name : chars) : LocalDriver * outcome string :=
  if bool_decide (name = []) then (d, Return missing_name)
  else match ld_volumes d !! name with
       | None =>
           let d := with_volume d (mkVolume name [] 0) in
           match volumePath d name with
           | (d, Fatal) => (d, Fatal)
           | (d, Return createDir) => let '(d, ok) := mkdir d createDir in (d, if ok then Return "" else Fatal)
           end
       | Some existingVolume =>
           if negb (bool_decide (vi_Name existingVolume = name)) then (d, Return (named "Volume '" name "' already exists with a different volume ID"))
           else (d, Return "")
       end.

(** The mountpoint or an error. *)
Definition Mount (d : LocalDriver) (name : chars) : LocalDriver * outcome (result string chars) :=
  if bool_decide (name = []) then (d, Return (Err missing_name))
  else match ld_volumes d !! name with
       | None => (d, Return (Err (named "Volume '" name "' must be created before being mounted")))
       | Some vol =>
           match volumePath d (vi_Name vol) with
           | (d, Fatal) => (d, Fatal)
           | (d, Return volumePath) =>
               match exists_path d volumePath with
               | (_, Some e) => (d, Return (Err e))
               | (false, None) => (d, Return (Err (named "Volume '" name "' is missing")))
               | (true, None) =>
                   match mountPath d (vi_Name vol) with
                   | (d, Fatal) => (d, Fatal)
                   | (d, Return mountPath) =>
                       let '(d, mounted) :=
                         if (vi_MountCount vol <? 1)%Z
                         then match mount d volumePath mountPath with
                              | (d, Some e) => (d, Err e)
                              | (d, None) => (d, Ok (mkVolume (vi_Name vol) mountPath (vi_MountCount vol)))
                              end
                         else (d, Ok vol) in
                       match mounted with
                       | Err e => (d, Return (Err ("Error mounting volume: " +:+ e)))
                       | Ok vol =>
                           (with_volume d (mkVolume (vi_Name vol) (vi_Mountpoint vol) (vi_MountCount vol + 1)), Return (Ok (vi_Mountpoint vol)))
                       end
                   end
               end
           end
       end.

Definition get (d : LocalDriver) (volumeName : chars) : result string chars :=
  match ld_volumes d !! volumeName with Some vol => Ok (vi_Mountpoint vol) | None => Err "Volume not found" end.

Definition Path (d : LocalDriver) (name : chars) : result string chars :=
  if bool_decide (name = []) then Err missing_name
  else match get d name with
       | Err _ => Err (named "Volume '" name "' not found")
       | Ok mountPath => if bool_decide (mountPath = []) then Err "Volume not previously mounted" else Ok mountPath
       end.

Definition Get (d : LocalDriver) (name : chars) : result string (chars * chars) :=
  match get d name with Err e => Err e | Ok mountpoint => Ok (name, mountpoint) end.

(** [unmount] of a volume that is in the map; [None] for one that is not is a nil
    dereference, which the callers exclude. *)
Definition unmount (d : LocalDriver) (name mountPath : chars) : LocalDriver * option string :=
  match exists_path d mountPath with
  | (_, Some _) => (d, Some "Error establishing whether volume exists")
  | (false, None) => (d, Some (named "Volume " name (named " does not exist (path: " mountPath "), nothing to do!")))
  | (true, None) =>
      match ld_volumes d !! name with
      | None => (d, None)
      | Some vol =>
          let vol := mkVolume (vi_Name vol) (vi_Mountpoint vol) (vi_MountCount vol - 1) in
          let d := mkDriver (<[name := vol]> (ld_volumes d)) (ld_dirs d) (ld_links d) in
          if (0 <? vi_MountCount vol)%Z then (d, Some "")
          else match remove d mountPath with
               | (d, Some e) => (d, Some ("Error unmounting volume: " +:+ e))
               | (d, None) => (mkDriver (<[name := mkVolume (vi_Name vol) [] (vi_MountCount vol)]> (ld_volumes d)) (ld_dirs d) (ld_links d), Some "")
               end
      end
  end.

Definition Unmount (d : LocalDriver) (name : chars) : LocalDriver * option string :=
  if bool_decide (name = []) then (d, Some missing_name)
  else match get d name with
       | Err _ => (d, Some (named "Volume '" name "' not found"))
       | Ok mountPath => if bool_decide (mountPath = []) then (d, Some "Volume not previously mounted") else unmount d name mountPath
       end.

(** The end of [Remove], when the volume is not mounted any more. *)
Definition remove_volume (d : LocalDriver) (name : chars) (vol : LocalVolumeInfo) : LocalDriver * outcome string :=
  match volumePath d (vi_Name vol) with
  | (d, Fatal) => (d, Fatal)
  | (d, Return volumePath) =>
      match removeAll d volumePath with
      | (d, Some e) => (d, Return ("Failed removing mount path: " +:+ e))
      | (d, None) => (mkDriver (delete name (ld_volumes d)) (ld_dirs d) (ld_links d), Return "")
      end
  end.

Definition Remove (d : LocalDriver) (name : chars) : LocalDriver * outcome string :=
  if bool_decide (name = []) then (d, Return missing_name)
  else match ld_volumes d !! name with
       | None => (d, Return (named "Volume '" name "' not found"))
       | Some vol =>
           if bool_decide (vi_Mountpoint vol = []) then remove_volume d name vol
           else match unmount d name (vi_Mountpoint vol) with
                | (d, None) => (d, Fatal)
                | (d, Some "") => remove_volume d name vol
                | (d, Some e) => (d, Return e)
                end
       end.
End Driver.

(** [List], in the order of the map. *)
Definition List `{!MapRange chars} (t : nat) (d : LocalDriver) : list LocalVolumeInfo := snd <$> range_over t (ld_volumes d).

(** ** Paths *)

Definition base (cfg : DriverConfig) : chars := with_slash (dc_dir cfg).

(** The directory is absolute and clean. *)
Definition config_ok (cfg : DriverConfig) : Prop := exists parts, dc_dir cfg = absolute parts /\ Forall simple parts.

(** A name whose volume lies in the directory of the volumes. *)
Definition name_ok (cfg : DriverConfig) (name : chars) : Prop :=
  name <> [] /\ exists p, (if dc_uniqueVolumeIds cfg then vid_Prefix <$> NewVolumeIdFromEncodedString name else Some name) = Some p /\ simple p.

Lemma VolumesRootDir_simple : simple VolumesRootDir.
Proof. repeat split; by apply (bool_decide_unpack _); vm_compute. Qed.

Lemma volumesPathRoot_eq cfg : config_ok cfg -> volumesPathRoot cfg = base cfg ++ VolumesRootDir.
Proof. intros (parts & Hd & Hs). unfold volumesPathRoot, base. rewrite Hd. apply Join_absolute; [done|apply VolumesRootDir_simple]. Qed.

Lemma volume_path_at cfg name p :
  config_ok cfg -> (if dc_uniqueVolumeIds cfg then vid_Prefix <$> NewVolumeIdFromEncodedString name else Some name) = Some p -> simple p ->
  volume_path cfg name = Some (base cfg ++ VolumesRootDir ++ slash :: p).
Proof.
  intros Hc Hp Hs. unfold volume_path. rewrite Hp. cbn [mbind option_bind]. f_equal. destruct Hc as (parts & Hd & Hps).
  assert (Hr : volumesPathRoot cfg = absolute (parts ++ [VolumesRootDir])).
  { rewrite (volumesPathRoot_eq cfg) by by exists parts. unfold base. rewrite Hd. destruct parts as [|q parts]; [done|].
    rewrite with_slash_absolute by done. unfold absolute. rewrite join_snoc by done. by rewrite <- app_assoc. }
  rewrite Hr, Join_absolute, with_slash_absolute, <- Hr, (volumesPathRoot_eq cfg); [by rewrite <- !app_assoc|by exists parts|..]; try done.
  all: try (apply Forall_app; split; [done|constructor; [apply VolumesRootDir_simple|constructor]]). by destruct parts.
Qed.

Lemma volume_path_eq cfg name : config_ok cfg -> name_ok cfg name -> exists p, simple p /\ volume_path cfg name = Some (base cfg ++ VolumesRootDir ++ slash :: p).
Proof. intros Hc (_ & p & Hp & Hs). exists p. split; [done|]. by apply volume_path_at. Qed.

Lemma mount_path_inj cfg n n' : mount_path cfg n = mount_path cfg n' -> n = n'.
Proof. unfold mount_path. intros H%(inj (app _)). by injection H. Qed.

(** No link is below the directory of a volume. *)
Lemma mount_path_below cfg p n : below (base cfg ++ VolumesRootDir ++ slash :: p) (mount_path cfg n) = false.
Proof.
  unfold mount_path, mountsPathRoot. fold (base cfg). rewrite <- app_assoc. unfold below. apply orb_false_iff. split; apply bool_decide_eq_false; intros H.
  - apply (inj (app (base cfg))) in H. done.
  - rewrite <- app_assoc, length_app, take_app_add in H. apply (inj (app (base cfg))) in H. done.
Qed.

(** The directories of two volumes are the same, or none is in the other. *)
Lemma volume_below cfg p q : simple q -> below (base cfg ++ VolumesRootDir ++ slash :: p) (base cfg ++ VolumesRootDir ++ slash :: q) = true -> p = q.
Proof.
  intros (_ & _ & _ & Hq). unfold below. rewrite orb_true_iff, !bool_decide_eq_true. intros [H|H].
  - apply (inj (app (base cfg))) in H. by injection H.
  - rewrite <- app_assoc, length_app, take_app_add in H. apply (inj (app (base cfg))) in H. cbn in H. injection H as H. exfalso. apply Hq.
    rewrite <- (take_drop (length (p ++ [slash])) q), H. set_solver.
Qed.
