(* ===== verification/VolumeProps.v ===== *)
(** * Volumes stay mounted while they are used

    Clients of the local driver create, mount, unmount and remove volumes in any order,
    while the operating system may fail at any time except when a link is removed.  As
    long as somebody has mounted a volume and not unmounted it, its link is there and
    leads to its directory. *)
From Stdlib Require Import ZArith Lia Ascii.
From stdpp Require Import gmultiset.
From S2P Require Import Prelude GoStrings LocalDriver.

Section Clients.
Context (cfg : DriverConfig).

(** The driver, and the names of the volumes that are mounted, once for each client. *)
Record clients := mkClients { cl_driver : LocalDriver; cl_held : gmultiset chars }.

Inductive client_step (x : clients) : clients -> Prop :=
| client_create os name :
    name_ok cfg name -> client_step x (mkClients (Create cfg os (cl_driver x) name).1 (cl_held x))
| client_mount os name d p :
    Mount cfg os (cl_driver x) name = (d, Return (Ok p)) -> client_step x (mkClients d ({[+ name +]} ⊎ cl_held x))
| client_mount_failed os name d r :
    Mount cfg os (cl_driver x) name = (d, r) -> (forall p, r <> Return (Ok p)) -> client_step x (mkClients d (cl_held x))
| client_unmount os name d :
    (forall p, os_Remove os p = None) -> name ∈ cl_held x -> Unmount os (cl_driver x) name = (d, Some "") ->
    client_step x (mkClients d (cl_held x ∖ {[+ name +]}))
| client_unmount_failed os name d r :
    (forall p, os_Remove os p = None) -> name ∈ cl_held x -> Unmount os (cl_driver x) name = (d, r) -> r <> Some "" ->
    client_step x (mkClients d (cl_held x))
| client_remove os name d r :
    (forall n, n ∈ cl_held x -> volume_path cfg n <> volume_path cfg name) -> Remove cfg os (cl_driver x) name = (d, r) ->
    client_step x (mkClients d (cl_held x)).

Definition new_clients : clients := mkClients NewLocalDriver ∅.

Record clients_ok (x : clients) : Prop := mkClientsOk {
  co_volumes : forall n v, ld_volumes (cl_driver x) !! n = Some v ->
    vi_Name v = n /\ name_ok cfg n /\ vi_MountCount v = Z.of_nat (multiplicity n (cl_held x)) /\
    vi_Mountpoint v = if decide (n ∈ cl_held x) then mount_path cfg n else [];
  co_links : forall q t, ld_links (cl_driver x) !! q = Some t <-> exists n, n ∈ cl_held x /\ q = mount_path cfg n /\ volume_path cfg n = Some t;
  co_held : forall n, n ∈ cl_held x -> is_Some (ld_volumes (cl_driver x) !! n);
  co_dirs : forall n, n ∈ cl_held x -> exists t, volume_path cfg n = Some t /\ t ∈ ld_dirs (cl_driver x) }.

(** ** What does not touch volumes and links *)

Definition grows (d d' : LocalDriver) : Prop :=
  ld_volumes d' = ld_volumes d /\ ld_links d' = ld_links d /\ ld_dirs d ⊆ ld_dirs d'.

#[local] Instance grows_preorder : PreOrder grows.
Proof. split; [by intros d|]. intros x y z (? & ? & ?) (? & ? & ?). repeat split; [congruence..|set_solver]. Qed.

Lemma mkdir_grows os d p d' b : mkdir os d p = (d', b) -> grows d d'.
Proof. unfold mkdir. destruct (os_MkdirAll os p); intros [= <- <-]; [done|]. repeat split. cbn. set_solver. Qed.

Lemma mkdir_ok os d p d' : mkdir os d p = (d', true) -> p ∈ ld_dirs d'.
Proof. unfold mkdir. destruct (os_MkdirAll os p); intros [= <-]. cbn. set_solver. Qed.

Lemma volumePath_spec os d n d' r : volumePath cfg os d n = (d', r) -> grows d d' /\ forall p, r = Return p -> volume_path cfg n = Some p.
Proof.
  unfold volumePath. destruct (os_Abs os); [by intros [= <- <-]|]. destruct (mkdir os d (volumesPathRoot cfg)) as [d1 b] eqn:Hm. apply mkdir_grows in Hm.
  destruct b; cbn [negb]; [|by intros [= <- <-]]. destruct (volume_path cfg n) as [p|]; intros [= <- <-]; [|done]. split; [done|]. by intros p' [= ->].
Qed.

Lemma mountPath_spec os d n d' r : mountPath cfg os d n = (d', r) -> grows d d' /\ forall p, r = Return p -> p = mount_path cfg n.
Proof.
  unfold mountPath. destruct (os_Abs os); [by intros [= <- <-]|]. destruct (mkdir os d (mountsPathRoot cfg)) as [d1 b] eqn:Hm. apply mkdir_grows in Hm.
  destruct b; cbn [negb]; intros [= <- <-]; [|done]. split; [done|]. by intros p' [= ->].
Qed.

Lemma clients_ok_grows x d : clients_ok x -> grows (cl_driver x) d -> clients_ok (mkClients d (cl_held x)).
Proof.
  intros [H1 H2 H3 H4] (Hv & Hl & Hd). constructor; cbn; rewrite ?Hv, ?Hl; try done. intros n Hn. destruct (H4 n Hn) as (t & Ht & Hin). exists t. split; [done|set_solver].
Qed.

(** ** The operations *)

Lemma Create_ok x os name : clients_ok x -> name_ok cfg name -> clients_ok (mkClients (Create cfg os (cl_driver x) name).1 (cl_held x)).
Proof.
  intros Hok Hn. unfold Create. rewrite bool_decide_false by apply Hn. destruct (ld_volumes (cl_driver x) !! name) as [v|] eqn:Hv; [by destruct (negb _); destruct x|].
  assert (Hnew : name ∉ cl_held x) by (intros Hin; destruct (co_held _ Hok name Hin); congruence).
  set (d0 := with_volume (cl_driver x) (mkVolume name [] 0)). assert (Hok0 : clients_ok (mkClients d0 (cl_held x))).
  { destruct Hok as [H1 H2 H3 H4]. constructor; cbn; [|done| |done].
    - intros n v'. rewrite lookup_insert_Some. intros [[<- <-]|[Hne Hl]]; [|by apply H1]. cbn. split_and!; [done..| |].
      + rewrite not_elem_of_multiplicity in Hnew. by rewrite Hnew.
      + by rewrite decide_False.
    - intros n Hin. rewrite lookup_insert_ne by by intros <-. by apply H3. }
  destruct (volumePath cfg os d0 name) as [d1 r] eqn:Hp. apply volumePath_spec in Hp as [Hg _]. pose proof (clients_ok_grows _ _ Hok0 Hg) as Hok1.
  destruct r as [p|]; [|done]. destruct (mkdir os d1 p) as [d2 b] eqn:Hm. apply mkdir_grows in Hm. exact (clients_ok_grows _ _ Hok1 Hm).
Qed.

(** What [Mount] does: nothing but directories, or one more user and, for the first one,
    the link. *)
Lemma Mount_cases os d name d' r :
  Mount cfg os d name = (d', r) ->
  grows d d' /\ (forall p, r <> Return (Ok p)) \/
  exists v p d1, ld_volumes d !! name = Some v /\ volume_path cfg (vi_Name v) = Some p /\ grows d d1 /\ present d1 p = true /\
    ((1 <= vi_MountCount v)%Z /\ d' = with_volume d1 (mkVolume (vi_Name v) (vi_Mountpoint v) (vi_MountCount v + 1)) /\ r = Return (Ok (vi_Mountpoint v)) \/
     (vi_MountCount v < 1)%Z /\ ld_links d !! mount_path cfg (vi_Name v) = None /\ r = Return (Ok (mount_path cfg (vi_Name v))) /\
     d' = with_volume (mkDriver (ld_volumes d1) (ld_dirs d1) (<[mount_path cfg (vi_Name v) := p]> (ld_links d1)))
            (mkVolume (vi_Name v) (mount_path cfg (vi_Name v)) (vi_MountCount v + 1))).
Proof.
  unfold Mount. case_bool_decide; [intros [= <- <-]; by left|]. destruct (ld_volumes d !! name) as [v|]; [|intros [= <- <-]; by left].
  destruct (volumePath cfg os d (vi_Name v)) as [d1 r1] eqn:Hp. apply volumePath_spec in Hp as [Hg1 Hp]. destruct r1 as [p|]; [|intros [= <- <-]; by left].
  specialize (Hp p eq_refl). unfold exists_path. destruct (os_Stat os p); [intros [= <- <-]; by left|]. destruct (present d1 p) eqn:Hpr; [|intros [= <- <-]; by left].
  destruct (mountPath cfg os d1 (vi_Name v)) as [d2 r2] eqn:Hm. apply mountPath_spec in Hm as [Hg2 Hm]. assert (Hg : grows d d2) by (by transitivity d1).
  destruct r2 as [q|]; [|intros [= <- <-]; by left]. rewrite (Hm q eq_refl).
  assert (Hpr2 : present d2 p = true).
  { unfold present in *. destruct Hg2 as (_ & -> & Hd). destruct (ld_links d1 !! p); apply bool_decide_eq_true in Hpr; apply bool_decide_eq_true; set_solver. }
  destruct (Z.ltb_spec (vi_MountCount v) 1) as [Hlt|Hge].
  - unfold mount. destruct (_ || _) eqn:He; [intros [= <- <-]; by left|]. apply orb_false_iff in He as [He _].
    destruct (os_Symlink os _); [intros [= <- <-]; by left|]. intros [= <- <-]. right. exists v, p, d2. split_and!; [done..|]. right. split_and!; [done| |done|done].
    apply bool_decide_eq_false in He. destruct Hg as (_ & Hl & _). rewrite Hl in He. by apply eq_None_not_Some.
  - intros [= <- <-]. right. exists v, p, d2. split_and!; [done..|]. by left.
Qed.

Hypothesis (Hcfg : config_ok cfg).

Lemma volume_path_no_link n n' p : name_ok cfg n -> volume_path cfg n = Some p -> mount_path cfg n' <> p.
Proof.
  intros Hn Hp He. destruct (volume_path_eq cfg n Hcfg Hn) as (p' & _ & Hp'). rewrite Hp in Hp'. injection Hp' as ->.
  pose proof (mount_path_below cfg p' n') as Hb. unfold below in Hb. apply orb_false_iff in Hb as [Hb _]. by apply bool_decide_eq_false in Hb.
Qed.

Lemma present_dir x d1 n p : clients_ok x -> grows (cl_driver x) d1 -> name_ok cfg n -> volume_path cfg n = Some p -> present d1 p = true -> p ∈ ld_dirs d1.
Proof.
  intros Hok (_ & Hl & _) Hn Hp. unfold present. rewrite Hl. destruct (ld_links (cl_driver x) !! p) as [t|] eqn:Ht; [|apply bool_decide_eq_true].
  apply (co_links _ Hok) in Ht as (n' & _ & -> & _). by destruct (volume_path_no_link _ _ _ Hn Hp eq_refl).
Qed.

Lemma held_more (n name : chars) (X : gmultiset chars) : n ∈ {[+ name +]} ⊎ X <-> n = name \/ n ∈ X.
Proof. by rewrite gmultiset_elem_of_disj_union, gmultiset_elem_of_singleton. Qed.

(** One more user, and the same volumes else. *)
Lemma clients_ok_mounted x d1 name v p links :
  clients_ok x -> grows (cl_driver x) d1 -> ld_volumes (cl_driver x) !! name = Some v -> volume_path cfg name = Some p -> p ∈ ld_dirs d1 ->
  (forall q t, links !! q = Some t <-> ld_links (cl_driver x) !! q = Some t \/ q = mount_path cfg name /\ t = p) ->
  clients_ok (mkClients (with_volume (mkDriver (ld_volumes d1) (ld_dirs d1) links) (mkVolume name (mount_path cfg name) (vi_MountCount v + 1)))
                ({[+ name +]} ⊎ cl_held x)).
Proof.
  intros [H1 H2 H3 H4] (Hv & Hl & Hd) Hname Hp Hin Hlinks. destruct (H1 _ _ Hname) as (Hvn & Hn & Hc & _). unfold with_volume. cbn [vi_Name].
  constructor; cbn [cl_driver cl_held ld_volumes ld_links ld_dirs].
  - intros n v'. rewrite Hv, lookup_insert_Some. intros [[<- <-]|[Hne Hv']]; cbn [vi_Name vi_MountCount vi_Mountpoint].
    + split_and!; [done..| |by rewrite decide_True by (apply held_more; by left)]. rewrite multiplicity_disj_union, multiplicity_singleton_eq, Hc. lia.
    + destruct (H1 _ _ Hv') as (? & ? & Hc' & Hm). split_and!; [done..| |].
      * rewrite multiplicity_disj_union, multiplicity_singleton_ne by done. done.
      * rewrite Hm. apply decide_ext. rewrite held_more. naive_solver.
  - intros q t. rewrite Hlinks, H2. split.
    + intros [(n & Hh & -> & Ht)|[-> ->]]; [exists n|exists name]; rewrite held_more; naive_solver.
    + intros (n & [->|Hh]%held_more & -> & Ht); [right; split; [done|congruence]|]. left. by exists n.
  - intros n Hh%held_more. rewrite Hv. destruct (decide (n = name)) as [->|Hne]; [rewrite lookup_insert_eq; by eexists|]. rewrite lookup_insert_ne by done. by destruct Hh; [|apply H3].
  - intros n [->|Hh]%held_more; [by exists p|]. destruct (H4 n Hh) as (t & Ht & Hdt). exists t. split; [done|by apply Hd].
Qed.

Lemma Mount_ok x os name d p :
  clients_ok x -> Mount cfg os (cl_driver x) name = (d, Return (Ok p)) -> p = mount_path cfg name /\ clients_ok (mkClients d ({[+ name +]} ⊎ cl_held x)).
Proof.
  intros Hok [[_ Hr]|(v & vp & d1 & Hv & Hvp & Hg & Hpr & Hcase)]%Mount_cases; [by destruct (Hr p)|].
  destruct (co_volumes _ Hok _ _ Hv) as (Hvn & Hn & Hc & Hm). rewrite Hvn in *. pose proof (present_dir _ _ _ _ Hok Hg Hn Hvp Hpr) as Hin.
  destruct Hcase as [(Hcount & -> & [= ->])|(Hcount & Hnone & [= ->] & ->)].
  - assert (Hheld : name ∈ cl_held x) by (apply elem_of_multiplicity; lia). rewrite decide_True in Hm by done. rewrite Hm. split; [done|].
    destruct d1 as [vols dirs links]. apply (clients_ok_mounted x (mkDriver vols dirs links) name v vp links); try done.
    intros q t. destruct Hg as (_ & Hl & _). cbn in Hl. rewrite Hl. split; [by left|]. intros [?|[-> ->]]; [done|]. apply (co_links _ Hok). by exists name.
  - split; [done|]. apply clients_ok_mounted with vp; try done. intros q t. destruct Hg as (_ & Hl & _). rewrite Hl, lookup_insert_Some.
    split; [intros [[<- <-]|[_ ?]]; [by right|by left]|]. intros [Hq|[-> ->]]; [|by left]. right. split; [congruence|done].
Qed.

Lemma held_less (n name : chars) (X : gmultiset chars) : n ∈ X ∖ {[+ name +]} <-> n <> name /\ n ∈ X \/ n = name /\ 1 < multiplicity name X.
Proof.
  rewrite !elem_of_multiplicity, multiplicity_difference. destruct (decide (n = name)) as [->|Hne].
  - rewrite multiplicity_singleton_eq. split; [right; split; [done|lia]|intros [[]|]; [done|lia]].
  - rewrite multiplicity_singleton_ne by done. rewrite Nat.sub_0_r. naive_solver.
Qed.

(** One user less, and the same volumes else. *)
Lemma clients_ok_unmounted x name v links :
  clients_ok x -> name ∈ cl_held x -> ld_volumes (cl_driver x) !! name = Some v ->
  (forall q t, links !! q = Some t <-> ld_links (cl_driver x) !! q = Some t /\ (q = mount_path cfg name -> 1 < multiplicity name (cl_held x))) ->
  clients_ok (mkClients (mkDriver (<[name := mkVolume (vi_Name v) (if decide (1 < multiplicity name (cl_held x)) then mount_path cfg name else [])
                                               (vi_MountCount v - 1)]> (ld_volumes (cl_driver x))) (ld_dirs (cl_driver x)) links)
                (cl_held x ∖ {[+ name +]})).
Proof.
  intros [H1 H2 H3 H4] Hheld Hname Hlinks. destruct (H1 _ _ Hname) as (Hvn & Hn & Hc & _). pose proof (proj1 (elem_of_multiplicity _ _) Hheld) as Hmult.
  constructor; cbn [cl_driver cl_held ld_volumes ld_links ld_dirs].
  - intros n v'. rewrite lookup_insert_Some. intros [[<- <-]|[Hne Hv']]; cbn [vi_Name vi_MountCount vi_Mountpoint].
    + split_and!; [done..| |].
      * rewrite multiplicity_difference, multiplicity_singleton_eq, Hc. lia.
      * apply decide_ext. rewrite held_less. naive_solver.
    + destruct (H1 _ _ Hv') as (? & ? & Hc' & Hm). split_and!; [done..| |].
      * by rewrite multiplicity_difference, multiplicity_singleton_ne, Nat.sub_0_r by done.
      * rewrite Hm. apply decide_ext. rewrite held_less. naive_solver.
  - intros q t. rewrite Hlinks, H2. split.
    + intros [(n & Hh & -> & Ht) Hq]. exists n. rewrite held_less. split; [|done]. destruct (decide (n = name)) as [->|]; [right; split; [done|by apply Hq]|by left].
    + intros (n & Hh%held_less & -> & Ht). destruct Hh as [[Hne Hh]|[-> Hm]]; (split; [by exists n || by exists name|]); [|done]. by intros ?%mount_path_inj.
  - intros n Hh%held_less. destruct (decide (n = name)) as [->|Hne]; [rewrite lookup_insert_eq; by eexists|]. rewrite lookup_insert_ne by done.
    destruct Hh as [[_ Hh]|[-> _]]; by apply H3.
  - intros n Hh%held_less. apply H4. by destruct Hh as [[_ Hh]|[-> _]].
Qed.

Lemma Unmount_ok x os name d r :
  clients_ok x -> name ∈ cl_held x -> (forall p, os_Remove os p = None) -> Unmount os (cl_driver x) name = (d, r) ->
  if decide (r = Some "") then clients_ok (mkClients d (cl_held x ∖ {[+ name +]})) else d = cl_driver x.
Proof.
  intros Hok Hheld Hos. destruct (co_held _ Hok _ Hheld) as [v Hv]. destruct (co_volumes _ Hok _ _ Hv) as (Hvn & Hn & Hc & Hm). rewrite decide_True in Hm by done.
  destruct (co_dirs _ Hok _ Hheld) as (t & Ht & Hdir). assert (Hlink : ld_links (cl_driver x) !! mount_path cfg name = Some t) by (apply (co_links _ Hok); by exists name).
  unfold Unmount. rewrite bool_decide_false by apply Hn. unfold get. rewrite Hv, Hm. rewrite bool_decide_false by (unfold mount_path; by destruct (mountsPathRoot cfg)).
  unfold unmount, exists_path. destruct (os_Stat os _); [intros [= <- <-]; by rewrite decide_False|]. unfold present. rewrite Hlink, bool_decide_true, Hv by done.
  cbn [vi_Name vi_Mountpoint vi_MountCount]. destruct (Z.ltb_spec 0 (vi_MountCount v - 1)) as [Hlt|Hge].
  - intros [= <- <-]. rewrite decide_True by done. pose proof (clients_ok_unmounted x name v (ld_links (cl_driver x)) Hok Hheld Hv) as H.
    rewrite decide_True in H by lia. rewrite Hm. apply H. intros q t'. split; [|by intros []]. intros ?. split; [done|]. intros _. lia.
  - unfold remove. rewrite Hos. cbn [ld_links]. rewrite bool_decide_true by (rewrite Hlink; by eexists). intros [= <- <-]. rewrite decide_True by done.
    pose proof (clients_ok_unmounted x name v (delete (mount_path cfg name) (ld_links (cl_driver x))) Hok Hheld Hv) as H. rewrite decide_False in H by lia.
    cbn [ld_volumes]. rewrite insert_insert_eq. apply H. intros q t'. rewrite lookup_delete_Some. split.
    + intros [Hne Hq]. split; [done|]. by intros ->.
    + intros [Hq Hmm]. split; [|done]. intros <-. specialize (Hmm eq_refl). lia.
Qed.

Lemma Remove_ok x os name d r :
  clients_ok x -> (forall n, n ∈ cl_held x -> volume_path cfg n <> volume_path cfg name) -> Remove cfg os (cl_driver x) name = (d, r) ->
  clients_ok (mkClients d (cl_held x)).
Proof.
  intros Hok Hfree. assert (Hheld : name ∉ cl_held x) by (intros H; by apply (Hfree _ H)). unfold Remove. case_bool_decide; [intros [= <- <-]; by destruct x|].
  destruct (ld_volumes (cl_driver x) !! name) as [v|] eqn:Hv; [|intros [= <- <-]; by destruct x]. destruct (co_volumes _ Hok _ _ Hv) as (Hvn & Hn & Hc & Hm).
  rewrite decide_False in Hm by done. rewrite bool_decide_true by done. unfold remove_volume. rewrite Hvn.
  destruct (volumePath cfg os (cl_driver x) name) as [d1 r1] eqn:Hp. apply volumePath_spec in Hp as [Hg Hp]. pose proof (clients_ok_grows _ _ Hok Hg) as Hok1.
  destruct r1 as [p|]; [|intros [= <- <-]; done]. specialize (Hp p eq_refl). unfold removeAll. destruct (os_RemoveAll os p); intros [= <- <-]; [done|].
  destruct (volume_path_eq cfg name Hcfg Hn) as (q & Hq & Hpq). rewrite Hp in Hpq. injection Hpq as ->.
  destruct Hok1 as [H1 H2 H3 H4]. cbn [cl_driver cl_held] in *. constructor; cbn [cl_driver cl_held ld_volumes ld_links ld_dirs].
  - intros n v' [_ Hv']%lookup_delete_Some. by apply H1.
  - intros q' t. rewrite map_lookup_filter_Some. rewrite H2. split; [by intros []|]. intros Hex. split; [done|]. destruct Hex as (n & _ & -> & _). apply mount_path_below.
  - intros n Hh. rewrite lookup_delete_ne by by intros <-. by apply H3.
  - intros n Hh. destruct (H4 n Hh) as (t & Ht & Hdt). exists t. split; [done|]. apply elem_of_filter. split; [|done].
    destruct (H3 n Hh) as [v' Hv']. destruct (H1 _ _ Hv') as (_ & Hn' & _). destruct (volume_path_eq cfg n Hcfg Hn') as (q' & Hq' & Hpq'). rewrite Ht in Hpq'. injection Hpq' as ->.
    apply not_true_iff_false. intros ->%volume_below; [|done]. by apply (Hfree n Hh); rewrite Ht, Hp.
Qed.

Lemma client_step_ok x y : client_step x y -> clients_ok x -> clients_ok y.
Proof.
  intros Hs Hok. destruct Hs as [os name Hn|os name d p Hm|os name d r Hm Hr|os name d Hos Hh Hu|os name d r Hos Hh Hu Hr|os name d r Hf Hr].
  - by apply Create_ok.
  - by eapply Mount_ok.
  - apply Mount_cases in Hm as [[Hg _]|(v & p & d1 & _ & _ & _ & _ & Hcase)]; [by apply clients_ok_grows|]. destruct Hcase as [(_ & _ & ->)|(_ & _ & -> & _)]; by edestruct Hr.
  - pose proof (Unmount_ok _ _ _ _ _ Hok Hh Hos Hu) as H. by rewrite decide_True in H.
  - pose proof (Unmount_ok _ _ _ _ _ Hok Hh Hos Hu) as H. rewrite decide_False in H by done. subst. by destruct x.
  - by eapply Remove_ok.
Qed.

Lemma reachable_clients_ok x : rtc client_step new_clients x -> clients_ok x.
Proof.
  intros Hr. apply (rtc_ind_r clients_ok new_clients) with (3 := Hr); [|intros y z _ Hs; by apply client_step_ok].
  constructor; cbn; [by intros n v Hv; rewrite lookup_empty in Hv| |by intros n ?%gmultiset_elem_of_empty|by intros n ?%gmultiset_elem_of_empty].
  intros q t. rewrite lookup_empty. split; [done|]. by intros (n & ?%gmultiset_elem_of_empty & _).
Qed.
End Clients.
