(* ===== verification/Volman.v ===== *)
(** * The volume manager

    volman: the registry of plugins, their discovery, the client that mounts the volumes
    of a container through a plugin, and the purger.  The driver behind a plugin is the
    local driver. *)
From Stdlib Require Import ZArith Lia Ascii.
From stdpp Require Import gmultiset.
From S2P Require Import Prelude GoStrings LocalDriver VolumeProps.

(** ** Plugins *)

Record TLSConfig := mkTLSConfig { tls_InsecureSkipVerify : bool; tls_CAFile : string; tls_CertFile : string; tls_KeyFile : string }.
Record PluginSpec := mkPluginSpec { ps_Name : chars; ps_Address : string; ps_TLSConfig : option TLSConfig; ps_UniqueVolumeIds : bool }.

(** A driver is known by a number. *)
Record Plugin := mkPlugin { pl_driver : nat; pl_spec : PluginSpec }.

(** An error of a driver that is meant for users, or another one. *)
Inductive VolmanError := SafeError (description : string) | PlainError (text : string).

Section Client.
Context (cfg : DriverConfig) (safe : string -> option string).

(** What a response says; [safe] is what [json.Unmarshal] makes of its error. *)
Definition response_error (err : string) : VolmanError :=
  match safe err with Some description => SafeError description | None => PlainError err end.

(** The error by which the client of a driver sees that the driver has panicked. *)
Definition no_response : string := "EOF".

(** [DockerDriverPlugin.Mount], with the operating system at the two calls. *)
Definition plugin_Mount (os1 os2 : OS) (d : LocalDriver) (volumeId : chars) : LocalDriver * result VolmanError chars :=
  match Create cfg os1 d volumeId with
  | (d, Fatal) => (d, Err (PlainError no_response))
  | (d, Return err) =>
      if negb (bool_decide (err = "")) then (d, Err (PlainError err))
      else match Mount cfg os2 d volumeId with
           | (d, Return (Ok p)) => (d, Ok p)
           | (d, Return (Err e)) => (d, if bool_decide (e = "") then Ok [] else Err (response_error e))
           | (d, Fatal) => (d, Err (response_error no_response))
           end
  end.

Definition plugin_Unmount (os : OS) (d : LocalDriver) (volumeId : chars) : LocalDriver * option VolmanError :=
  match Unmount os d volumeId with
  | (d, Some err) => (d, if bool_decide (err = "") then None else Some (response_error err))
  | (d, None) => (d, Some (response_error no_response))
  end.

Definition volume_name (spec : PluginSpec) (volumeId containerId : chars) : chars :=
  if ps_UniqueVolumeIds spec then GetUniqueId (mkVolumeId volumeId containerId) else volumeId.

Definition plugin_not_found (pluginId : chars) : VolmanError := PlainError (named "Plugin '" pluginId "' not found in list of known plugins").

(** [localClient.Mount] and [Unmount]; [d] is the driver that the plugin names. *)
Definition client_Mount (registry : gmap chars Plugin) (os1 os2 : OS) (d : LocalDriver) (pluginId volumeId containerId : chars) :
    LocalDriver * result VolmanError chars :=
  match registry !! pluginId with
  | None => (d, Err (plugin_not_found pluginId))
  | Some plugin => plugin_Mount os1 os2 d (volume_name (pl_spec plugin) volumeId containerId)
  end.
Definition client_Unmount (registry : gmap chars Plugin) (os : OS) (d : LocalDriver) (pluginId volumeId containerId : chars) :
    LocalDriver * option VolmanError :=
  match registry !! pluginId with
  | None => (d, Some (plugin_not_found pluginId))
  | Some plugin => plugin_Unmount os d (volume_name (pl_spec plugin) volumeId containerId)
  end.

(** [PurgeMounts] for one plugin: every volume of the list is unmounted once. *)
Fixpoint purge (oss : nat -> OS) (d : LocalDriver) (volumes : list chars) : LocalDriver :=
  match volumes with
  | [] => d
  | volume :: volumes => purge (fun n => oss (S n)) (plugin_Unmount (oss 0) d volume).1 volumes
  end.
End Client.

(** ** Discovery *)

(** The errors of listing the specs of a type in a path; what reading a spec, matching a
    driver, creating one and activating one answer.  Creations and activations are
    counted, as they may answer differently each time. *)
Record DiscoverEnv := mkDiscoverEnv {
  de_glob : chars -> chars -> result string (list chars);
  de_spec : chars -> chars -> chars -> result string PluginSpec;
  de_matches : nat -> PluginSpec -> bool;
  de_create : nat -> chars -> chars -> chars -> result string nat;
  de_activate : nat -> nat -> result string (list string) }.

Definition base_name (spec : chars) : chars := default [] (last (Split slash spec)).

(** [specName]: the name and the file of a spec whose file ends in one of the types. *)
Definition specTypes : list chars := [text "json"; text "spec"; text "sock"].
Definition specName (spec : chars) : option (chars * chars) :=
  let file := base_name spec in
  head (omap (fun ty => let ext := "."%char :: ty in
    if bool_decide (drop (length file - length ext) file = ext) then Some (take (length file - length ext) file, file) else None) specTypes).

Section Discover.
Context `{!MapRange chars} (env : DiscoverEnv) (existing : gmap chars Plugin) (driverPath : chars).

(** The plugins, and the number of calls so far. *)
Definition find_plugin (st : gmap chars Plugin * nat) (spec : chars) : gmap chars Plugin * nat :=
  let '(newPlugins, n) := st in
  match specName spec with
  | None => st
  | Some (name, file) =>
      match newPlugins !! name with
      | Some _ => st
      | None =>
          match de_spec env name driverPath file with
          | Err _ => st
          | Ok pluginSpec =>
              let create :=
                match de_create env n name driverPath file with
                | Err _ => (newPlugins, S n)
                | Ok driver => (<[name := mkPlugin driver pluginSpec]> newPlugins, S n)
                end in
              match existing !! name with
              | None => create
              | Some plugin => if de_matches env (pl_driver plugin) pluginSpec then (<[name := plugin]> newPlugins, n) else create
              end
          end
      end
  end.
Definition findAllPlugins (newPlugins : gmap chars Plugin) (n : nat) (specs : list chars) : gmap chars Plugin * nat :=
  foldl find_plugin (newPlugins, n) specs.

Definition implementVolumeDriver (implements : list string) : bool := bool_decide ("VolumeDriver" ∈ implements).

Definition findDockerSpecFileByName (nameToFind : chars) (specs : list chars) : option chars :=
  head (omap (fun spec => '(name, file) ← specName spec; if bool_decide (name = nameToFind) then Some file else None) specs).

(** One plugin: [None] is the call of a driver that could not be created. *)
Definition activate_plugin (specs : list chars) (st : option (gmap chars Plugin * nat)) (kp : chars * Plugin) : option (gmap chars Plugin * nat) :=
  '(activated, n) ← st;
  let '(k, plugin) := kp in
  match de_activate env n (pl_driver plugin) with
  | Ok implements => Some (if implementVolumeDriver implements then <[k := plugin]> activated else activated, S n)
  | Err _ =>
      match findDockerSpecFileByName (ps_Name (pl_spec plugin)) specs with
      | None => Some (activated, S n)
      | Some file =>
          match de_create env (S n) (ps_Name (pl_spec plugin)) driverPath file with
          | Err _ => None
          | Ok driver =>
              match de_activate env (S (S n)) driver with
              | Ok implements => Some (if implementVolumeDriver implements then <[k := plugin]> activated else activated, S (S (S n)))
              | Err _ => Some (activated, S (S (S n)))
              end
          end
      end
  end.
Definition activatePlugins (t : nat) (plugins : gmap chars Plugin) (n : nat) (specs : list chars) : option (gmap chars Plugin * nat) :=
  foldl (activate_plugin specs) (Some (∅, n)) (range_over t plugins).
End Discover.

Section DiscoverAll.
Context `{!MapRange chars} (env : DiscoverEnv) (existing : gmap chars Plugin).

(** One type in one path. *)
Definition discover_type (st : option (result string (gmap chars Plugin * nat))) (pt : chars * chars) : option (result string (gmap chars Plugin * nat)) :=
  match st with
  | Some (Ok (endpoints, n)) =>
      let '(driverPath, specType) := pt in
      match de_glob env driverPath specType with
      | Err e => Some (Err e)
      | Ok [] => st
      | Ok specs =>
          let '(endpoints, n) := findAllPlugins env existing driverPath endpoints n specs in
          match activatePlugins env driverPath n endpoints n specs with
          | None => None
          | Some (endpoints, n) => Some (Ok (endpoints, n))
          end
      end
  | st => st
  end.

(** [Discover]: the plugins, an error, or a panic. *)
Definition Discover (driverPaths : list chars) : option (result string (gmap chars Plugin)) :=
  match foldl discover_type (Some (Ok (∅, 0))) (p ← driverPaths; ty ← specTypes; [(p, ty)]) with
  | None => None
  | Some (Err e) => Some (Err e)
  | Some (Ok (endpoints, _)) => Some (Ok endpoints)
  end.

(** A rediscovery of the syncer, with one discoverer: what the registry becomes. *)
Definition rediscover (driverPaths : list chars) : option (gmap chars Plugin) :=
  match Discover driverPaths with
  | None => None
  | Some (Err _) => Some ∅
  | Some (Ok plugins) => Some plugins
  end.
End DiscoverAll.

(** ** The volumes of containers *)

Lemma unique_id_roundtrip p s : "="%char ∉ p -> "="%char ∉ s -> NewVolumeIdFromEncodedString (GetUniqueId (mkVolumeId p s)) = Some (mkVolumeId p s).
Proof.
  intros Hp Hs. unfold NewVolumeIdFromEncodedString, GetUniqueId. cbn [vid_Prefix vid_Suffix].
  rewrite Split_cons, Split_none by by apply Replace_not_in. by rewrite !Replace_back.
Qed.

Section Volumes.
Context (cfg : DriverConfig) (safe : string -> option string) (pluginId : chars) (driver : nat).

(** The registry, the driver, and the volumes that containers have: the volume, the
    container and the path. *)
Record volman := mkVolman { vm_registry : gmap chars Plugin; vm_driver : LocalDriver; vm_mounts : list (chars * chars * chars) }.

(** The plugin, when it is there, names the local driver, and its spec says how the
    driver is configured. *)
Definition registry_ok (registry : gmap chars Plugin) : Prop :=
  forall plugin, registry !! pluginId = Some plugin ->
    pl_driver plugin = driver /\ ps_UniqueVolumeIds (pl_spec plugin) = dc_uniqueVolumeIds cfg.

Definition ids_ok (volumeId containerId : chars) : Prop :=
  simple volumeId /\ (dc_uniqueVolumeIds cfg = true -> "="%char ∉ volumeId /\ "="%char ∉ containerId).

(** Containers mount and unmount their volumes, and the registry changes at any time;
    a link is removed when the driver wants to, and an error has a text.  The driver has
    no lock around its table of volumes: its operations are taken one after the other. *)
Inductive volman_step (x : volman) : volman -> Prop :=
| volman_sync registry : registry_ok registry -> volman_step x (mkVolman registry (vm_driver x) (vm_mounts x))
| volman_mount os1 os2 volumeId containerId d r :
    ids_ok volumeId containerId -> (forall p, os_Stat os2 p <> Some "") -> client_Mount cfg safe (vm_registry x) os1 os2 (vm_driver x) pluginId volumeId containerId = (d, r) ->
    volman_step x (mkVolman (vm_registry x) d (match r with Ok p => (volumeId, containerId, p) :: vm_mounts x | Err _ => vm_mounts x end))
| volman_unmount os l volumeId containerId p l' d r :
    (forall p, os_Remove os p = None) -> vm_mounts x = l ++ (volumeId, containerId, p) :: l' ->
    client_Unmount safe (vm_registry x) os (vm_driver x) pluginId volumeId containerId = (d, r) ->
    volman_step x (mkVolman (vm_registry x) d (match r with None => l ++ l' | Some _ => vm_mounts x end)).

Definition new_volman : volman := mkVolman ∅ NewLocalDriver [].

Definition name_of (volumeId containerId : chars) : chars :=
  if dc_uniqueVolumeIds cfg then GetUniqueId (mkVolumeId volumeId containerId) else volumeId.
Definition held (mounts : list (chars * chars * chars)) : gmultiset chars := list_to_set_disj ((fun m => name_of m.1.1 m.1.2) <$> mounts).

Lemma ids_name_ok volumeId containerId : ids_ok volumeId containerId -> name_ok cfg (name_of volumeId containerId).
Proof.
  intros [Hs Hu]. unfold name_ok, name_of. destruct (dc_uniqueVolumeIds cfg).
  - destruct (Hu eq_refl) as [H1 H2]. split; [unfold GetUniqueId; by intros [_ ?]%app_eq_nil|]. exists volumeId. by rewrite unique_id_roundtrip.
  - split; [apply Hs|]. by exists volumeId.
Qed.

Record volman_ok (x : volman) : Prop := mkVolmanOk {
  vo_registry : registry_ok (vm_registry x);
  vo_clients : clients_ok cfg (mkClients (vm_driver x) (held (vm_mounts x)));
  vo_mounts : Forall (fun m => ids_ok m.1.1 m.1.2 /\ m.2 = mount_path cfg (name_of m.1.1 m.1.2)) (vm_mounts x) }.

Hypothesis (Hcfg : config_ok cfg).

Lemma Mount_error os d name d' : (forall p, os_Stat os p <> Some "") -> Mount cfg os d name <> (d', Return (Err "")).
Proof.
  intros Hos. unfold Mount. case_bool_decide; [done|]. destruct (ld_volumes d !! name); [|done]. destruct (volumePath _ _ _ _) as [d1 [p|]]; [|done].
  unfold exists_path. destruct (os_Stat os p) as [e|] eqn:He; [intros [= _ ->]; by apply (Hos p)|]. destruct (present d1 p); [|done]. destruct (mountPath _ _ _ _) as [d2 [q|]]; [|done].
  destruct (_ <? 1)%Z; [|done]. destruct (mount os d2 p q) as [d3 [e|]]; [done|done].
Qed.

Lemma plugin_Mount_ok x os1 os2 d name r :
  clients_ok cfg x -> name_ok cfg name -> (forall p, os_Stat os2 p <> Some "") -> plugin_Mount cfg safe os1 os2 (cl_driver x) name = (d, r) ->
  match r with
  | Ok p => p = mount_path cfg name /\ clients_ok cfg (mkClients d ({[+ name +]} ⊎ cl_held x))
  | Err _ => clients_ok cfg (mkClients d (cl_held x))
  end.
Proof.
  intros Hok Hn Hos. unfold plugin_Mount. pose proof (Create_ok cfg x os1 name Hok Hn) as Hok1. destruct (Create cfg os1 (cl_driver x) name) as [d1 [err|]]; cbn [fst] in Hok1.
  2: by intros [= <- <-]. case_bool_decide; cbn [negb]; [|by intros [= <- <-]]. destruct (Mount cfg os2 d1 name) as [d2 r2] eqn:Hm.
  assert (Hfail : (forall p, r2 <> Return (Ok p)) -> clients_ok cfg (mkClients d2 (cl_held x))).
  { intros Hr. apply (client_step_ok cfg Hcfg (mkClients d1 (cl_held x))); [|done]. exact (client_mount_failed cfg (mkClients d1 (cl_held x)) os2 name d2 r2 Hm Hr). }
  destruct r2 as [[p|e]|].
  - intros [= <- <-]. exact (Mount_ok cfg Hcfg (mkClients d1 (cl_held x)) os2 name d2 p Hok1 Hm).
  - case_bool_decide as He; [subst e; by apply Mount_error in Hm|]. intros [= <- <-]. by apply Hfail.
  - intros [= <- <-]. by apply Hfail.
Qed.

Lemma held_split l m l' : held (l ++ m :: l') = {[+ name_of m.1.1 m.1.2 +]} ⊎ held (l ++ l').
Proof. unfold held. rewrite !fmap_app, fmap_cons, !list_to_set_disj_app, list_to_set_disj_cons. multiset_solver. Qed.

Lemma volman_step_ok x y : volman_step x y -> volman_ok x -> volman_ok y.
Proof.
  intros Hs [H1 H2 H3]. destruct Hs as [registry Hr|os1 os2 v c d r Hids Hos Hm|os l v c p l' d r Hos Hl Hu]; [by constructor| |].
  - unfold client_Mount in Hm. destruct (vm_registry x !! pluginId) as [plugin|] eqn:Hp; [|injection Hm as <- <-; by constructor].
    assert (Hname : volume_name (pl_spec plugin) v c = name_of v c) by (unfold volume_name, name_of; by rewrite (proj2 (H1 _ Hp))). rewrite Hname in Hm.
    apply (plugin_Mount_ok (mkClients (vm_driver x) (held (vm_mounts x)))) in Hm; [|done|by apply ids_name_ok|done].
    destruct r as [p|e]; [destruct Hm as [-> Hm]|]; constructor; cbn; try done. by constructor.
  - unfold client_Unmount in Hu. destruct (vm_registry x !! pluginId) as [plugin|] eqn:Hp; [|injection Hu as <- <-; by constructor].
    assert (Hname : volume_name (pl_spec plugin) v c = name_of v c) by (unfold volume_name, name_of; by rewrite (proj2 (H1 _ Hp))). rewrite Hname in Hu.
    assert (Hheld : name_of v c ∈ held (vm_mounts x)) by (rewrite Hl, held_split; apply held_more; by left).
    unfold plugin_Unmount in Hu. destruct (Unmount os (vm_driver x) (name_of v c)) as [d' r'] eqn:Hun.
    pose proof (Unmount_ok cfg (mkClients (vm_driver x) (held (vm_mounts x))) os _ _ _ H2 Hheld Hos Hun) as Hok. cbn [cl_driver cl_held] in Hok.
    destruct (decide (r' = Some "")) as [->|Hne].
    + injection Hu as <- <-. constructor; cbn; [done| |]; rewrite Hl in *.
      * rewrite held_split in Hok. cbn [fst snd] in Hok.
        assert (({[+ name_of v c +]} ⊎ held (l ++ l')) ∖ {[+ name_of v c +]} = held (l ++ l')) as He by multiset_solver. rewrite He in Hok. exact Hok.
      * apply Forall_app in H3 as [? H3]. apply Forall_cons in H3 as [_ ?]. by apply Forall_app.
    + subst d'. destruct r' as [err|]; [rewrite bool_decide_false in Hu by congruence|]; injection Hu as <- <-; by constructor.
Qed.

(** C15: While a container has a volume, whatever other containers do, whatever the registry
    becomes in the meantime and whatever the operating system answers, as long as links
    can be removed: the path the container was given is a link to the directory of that
    volume, and the directory is there.  The driver lies in a clean absolute directory
    and does one operation at a time; the plugin, whenever it is registered, names that
    driver, with the way it makes names of volumes unique; and identifiers of volumes are
    names of files, without equality signs where they are made unique. *)
Theorem container_volumes x :
  rtc volman_step new_volman x ->
  forall volumeId containerId p, (volumeId, containerId, p) ∈ vm_mounts x ->
    let target := base cfg ++ VolumesRootDir ++ slash :: volumeId in
    ld_links (vm_driver x) !! p = Some target /\ target ∈ ld_dirs (vm_driver x).
Proof.
  intros Hr v c p Hin target. assert (Hok : volman_ok x).
  { apply (rtc_ind_r volman_ok new_volman) with (3 := Hr); [|intros y z _ Hs; by apply volman_step_ok].
    constructor; cbn; [by intros plugin; rewrite lookup_empty|exact (reachable_clients_ok cfg Hcfg new_clients (rtc_refl _ _))|constructor]. }
  destruct Hok as [_ Hc Hm]. rewrite Forall_forall in Hm. destruct (Hm _ Hin) as [Hids Hp]. cbn in Hids, Hp. subst p.
  assert (Hheld : name_of v c ∈ held (vm_mounts x)) by (apply list_elem_of_split in Hin as (l & l' & ->); rewrite held_split; apply held_more; by left).
  destruct (co_dirs _ _ Hc _ Hheld) as (t & Ht & Hdir). assert (t = target) as ->.
  { destruct Hids as [Hs Hu]. rewrite (volume_path_at cfg _ v Hcfg) in Ht; [by injection Ht| |done]. unfold name_of.
    destruct (dc_uniqueVolumeIds cfg); [|done]. destruct (Hu eq_refl) as [? ?]. by rewrite unique_id_roundtrip. }
  split; [|done]. apply (co_links _ _ Hc). by exists (name_of v c).
Qed.
End Volumes.

(** ** Runs of the volume manager

    Volumes that are removed while they are used, mounts that fail after an unmount has
    failed, volumes outside of the directory of volumes, mounts that a purge leaves
    behind, and plugins that a rediscovery loses. *)

#[local] Instance volume_range : MapRange chars := canonical_range chars.

Definition fine : OS := mkOS None (fun _ => None) (fun _ => None) (fun _ => None) (fun _ => None) (fun _ => None).
Definition busy : OS := mkOS None (fun _ => None) (fun _ => None) (fun _ => None) (fun _ => Some "device or resource busy") (fun _ => None).
Definition local : DriverConfig := mkDriverConfig (text "/d") false.
Definition unique : DriverConfig := mkDriverConfig (text "/d") true.

Inductive call := CCreate | CMount | CUnmount | CRemove.
Definition call_driver (cfg : DriverConfig) (d : LocalDriver) (nc : chars * (OS * call)) : LocalDriver :=
  let '(n, (os, c)) := nc in
  match c with CCreate => (Create cfg os d n).1 | CMount => (Mount cfg os d n).1 | CUnmount => (Unmount os d n).1 | CRemove => (Remove cfg os d n).1 end.
Definition calls (cfg : DriverConfig) (l : list (chars * (OS * call))) : LocalDriver := foldl (call_driver cfg) NewLocalDriver l.
Definition link (cfg : DriverConfig) (name : string) : chars := mount_path cfg (text name).

(** The parts of a fact about a concrete run. *)
Ltac run_driver := repeat split; first [vm_compute; reflexivity | vm_compute; eexists; reflexivity | apply (bool_decide_unpack _); vm_compute; exact I].

(** A volume with two users is removed: its directory is gone, although one of them has
    not unmounted it; the link stays, so that the volume can be created again, but
    never be mounted again. *)
Lemma removed_in_use :
  let v := text "v" in
  let d := calls local [(v, (fine, CCreate)); (v, (fine, CMount)); (v, (fine, CMount)); (v, (fine, CRemove))] in
  ld_links d !! link local "v" = Some (text "/d/_volumes/v") /\
  text "/d/_volumes/v" ∉ ld_dirs d /\ ld_volumes d !! v = None /\
  (Mount local fine (Create local fine d v).1 v).2 = Return (Err "Error mounting volume: file exists").
Proof. cbn zeta. run_driver. Qed.

(** An unmount that fails counts all the same: after it the first new user gets the
    volume and the second does not. *)
Lemma failed_unmount_counts :
  let v := text "v" in
  let d := calls local [(v, (fine, CCreate)); (v, (fine, CMount)); (v, (busy, CUnmount)); (v, (fine, CUnmount)); (v, (fine, CMount))] in
  (vi_MountCount <$> ld_volumes d !! v) = Some 0%Z /\ is_Some (ld_links d !! link local "v") /\
  (Mount local fine d v).2 = Return (Err "Error mounting volume: file exists").
Proof. cbn zeta. run_driver. Qed.

(** A name with dots leads out of the directory of volumes. *)
Lemma escaping_name :
  volume_path local (text "../../etc") = Some (text "/etc") /\
  (Create local fine NewLocalDriver (text "../../etc")).2 = Return "".
Proof. run_driver. Qed.

(** The purger unmounts a volume once, however often it was mounted. *)
Lemma purge_leaves_mounts :
  let v := text "v" in
  let d := calls local [(v, (fine, CCreate)); (v, (fine, CMount)); (v, (fine, CMount))] in
  ld_links (purge (fun _ => None) (fun _ => fine) d (vi_Name <$> List 0 d)) !! link local "v" = ld_links d !! link local "v" /\
  is_Some (ld_links d !! link local "v").
Proof. cbn zeta. run_driver. Qed.

(** ** Discovery *)

Definition spec (name : string) : PluginSpec := mkPluginSpec (text name) "http://localhost" None false.
Definition env (glob : result string (list chars)) (created : result string nat) : DiscoverEnv :=
  mkDiscoverEnv (fun _ ty => if bool_decide (ty = text "json") then glob else Ok []) (fun name _ _ => Ok (spec (untext name))) (fun _ _ => true)
    (fun _ _ _ _ => created) (fun _ driver => if (driver =? 1)%nat then Err "connection refused" else Ok ["VolumeDriver"]).
Definition known : gmap chars Plugin := {[text "l" := mkPlugin 1 (spec "l")]}.

(** A listing that fails empties the registry. *)
Lemma rediscovery_forgets : rediscover (env (Err "syntax error in pattern") (Ok 2)) known [text "/p"] = Some ∅.
Proof. vm_compute. reflexivity. Qed.

(** When the driver of a plugin does not answer, and a new one does, the plugin keeps
    the old one; when a new one cannot be created, volman panics. *)
Lemma updated_driver_lost :
  rediscover (env (Ok [text "/p/l.json"]) (Ok 2)) known [text "/p"] = Some known /\
  rediscover (env (Ok [text "/p/l.json"]) (Err "no such file")) known [text "/p"] = None.
Proof. split; vm_compute; reflexivity. Qed.

(** ** Example *)

Lemma local_ok : config_ok local.
Proof.
  exists [text "d"]. split; [reflexivity|].
  repeat (apply Forall_cons; split; [repeat split; by apply (bool_decide_unpack _); vm_compute|]). constructor.
Qed.

Definition registry : gmap chars Plugin := {[text "l" := mkPlugin 2 (spec "l")]}.
Definition mounted : LocalDriver := calls local [(text "v", (fine, CCreate)); (text "v", (fine, CMount))].

Lemma container_volumes_witness :
  rtc (volman_step local (fun _ => None) (text "l") 2) new_volman (mkVolman registry mounted [(text "v", text "c", link local "v")]) /\
  ld_links mounted !! link local "v" = Some (text "/d/_volumes/v").
Proof.
  assert (Hr : rtc (volman_step local (fun _ => None) (text "l") 2) new_volman (mkVolman registry mounted [(text "v", text "c", link local "v")])).
  { eapply rtc_l; [apply (volman_sync _ _ _ _ _ registry); intros plugin; vm_compute; by intros [= <-]|].
    apply rtc_once. refine (volman_mount local (fun _ => None) (text "l") 2 (mkVolman registry NewLocalDriver []) fine fine (text "v") (text "c") mounted (Ok (link local "v")) _ _ _).
    - split; [repeat split; by apply (bool_decide_unpack _); vm_compute|]. done.
    - done.
    - vm_compute. reflexivity. }
  split; [exact Hr|].
  exact (proj1 (container_volumes local (fun _ => None) (text "l") 2 local_ok _ Hr (text "v") (text "c") (link local "v") (list_elem_of_here _ _))).
Defined.
