(* ===== verification/ContainerMetrics.v ===== *)
(** * Container metrics

    executor/containermetrics: the reporter of the usage of containers and the one of
    CPU spikes, which remember the last sample of every container.  Times are
    nanoseconds; the zero time is [None]. *)
From Stdlib Require Import ZArith Lia.
From S2P Require Import Prelude Float64 GoStd.

(** ** Samples *)

Record ContainerMetrics := mkContainerMetrics {
  cm_MemoryUsageInBytes : Z;
  cm_DiskUsageInBytes : Z;
  cm_MemoryLimitInBytes : Z;
  cm_DiskLimitInBytes : Z;
  cm_TimeSpentInCPU : Z;
  cm_AbsoluteCPUEntitlementInNanoseconds : Z;
  cm_ContainerAgeInNanoseconds : Z;
  cm_RxInBytes : option Z;
  cm_TxInBytes : option Z }.
Record MetricsConfig := mkMetricsConfig { mc_Guid : string; mc_Index : Z; mc_Tags : gmap string string }.
Record Metrics := mkMetrics { m_Config : MetricsConfig; m_Container : ContainerMetrics }.

(** What the reporters read of a container. *)
Record Container := mkContainer { c_Guid : string; c_EnableContainerProxy : bool; c_MemoryLimit : Z }.

Record CPUInfo := mkCPUInfo { ci_TimeSpentInCPU : Z; ci_TimeOfSample : Z; ci_AbsoluteCPUEntitlement : Z }.

Definition computeCPUEntitlementPercent (previousTime currentTime previousEntitlement currentEntitlement : Z) : float64 :=
  fmul (fdiv (of_int (i64 (currentTime - previousTime))) (of_int (u64 (currentEntitlement - previousEntitlement)))) (of_int 100).
Definition computeCPUPercent (timeSpentA timeSpentB sampleTimeA sampleTimeB : Z) : float64 :=
  fdiv (of_int (i64 (i64 (timeSpentB - timeSpentA) * 100))) (of_int (i64 (sampleTimeB - sampleTimeA))).

Definition calculateInfo (m : ContainerMetrics) (previousInfo : option CPUInfo) (now : Z) : CPUInfo * float64 * float64 :=
  let timeOfSample := if (cm_ContainerAgeInNanoseconds m =? 0)%Z then now else i64 (cm_ContainerAgeInNanoseconds m) in
  let currentInfo := mkCPUInfo (cm_TimeSpentInCPU m) timeOfSample (cm_AbsoluteCPUEntitlementInNanoseconds m) in
  match previousInfo with
  | None => (currentInfo, of_int 0, of_int 0)
  | Some p =>
      (currentInfo,
       computeCPUPercent (ci_TimeSpentInCPU p) (ci_TimeSpentInCPU currentInfo) (ci_TimeOfSample p) (ci_TimeOfSample currentInfo),
       computeCPUEntitlementPercent (ci_TimeSpentInCPU p) (ci_TimeSpentInCPU currentInfo) (ci_AbsoluteCPUEntitlement p) (ci_AbsoluteCPUEntitlement currentInfo))
  end.

(** ** The usage *)

Record ContainerMetric := mkContainerMetric {
  lm_CpuPercentage : float64;
  lm_CpuEntitlementPercentage : float64;
  lm_Metrics : ContainerMetrics;
  lm_AbsoluteCPUUsage : Z;
  lm_Tags : gmap string string }.
Record CachedContainerMetrics := mkCached { cc_MetricGUID : string; cc_CPUUsageFraction : float64; cc_Metrics : ContainerMetrics }.

Inductive metric_event := SendAppMetrics (m : ContainerMetric) | SendAppLogRate (rate limit : Z) (tags : gmap string string)
| SendSpikeMetrics (start end_ : option Z) (tags : gmap string string).

(** The application the metrics are of, and the tags they are sent with. *)
Definition source_tags (config : MetricsConfig) : string * gmap string string :=
  match mc_Tags config !! "source_id" with
  | Some sourceID => (sourceID, mc_Tags config)
  | None => (mc_Guid config, <["source_id" := mc_Guid config]> (mc_Tags config))
  end.

Definition ProcessAndSend (config : MetricsConfig) (m : ContainerMetrics) (previousInfo : option CPUInfo) (now : Z) :
    CPUInfo * CachedContainerMetrics * list metric_event :=
  let '(currentInfo, cpuPercent, cpuEntitlementPercent) := calculateInfo m previousInfo now in
  let '(applicationId, tags) := source_tags config in
  (currentInfo, mkCached applicationId (fdiv cpuPercent (of_int 100)) m,
   if bool_decide (applicationId = "") then []
   else [SendAppMetrics (mkContainerMetric cpuPercent cpuEntitlementPercent m (u64 (cm_TimeSpentInCPU m)) tags); SendAppLogRate 0 0 tags]).

Record StatsReporter := mkStatsReporter {
  sr_CPUInfos : gmap string CPUInfo;
  sr_enableContainerProxy : bool;
  sr_proxyMemoryAllocation : float64;
  sr_metricsCache : gmap string CachedContainerMetrics }.

Definition scaleMemory (r : StatsReporter) (c : Container) : float64 :=
  let memFloat := of_int (c_MemoryLimit c) in fdiv (fsub memFloat (sr_proxyMemoryAllocation r)) memFloat.

(** Without the memory of the proxy. *)
Definition scaled (r : StatsReporter) (c : Container) (m : ContainerMetrics) : ContainerMetrics :=
  if sr_enableContainerProxy r && c_EnableContainerProxy c then
    mkContainerMetrics (to_u64 (fmul (of_int (cm_MemoryUsageInBytes m)) (scaleMemory r c))) (cm_DiskUsageInBytes m)
      (to_u64 (fsub (of_int (cm_MemoryLimitInBytes m)) (sr_proxyMemoryAllocation r))) (cm_DiskLimitInBytes m)
      (cm_TimeSpentInCPU m) (cm_AbsoluteCPUEntitlementInNanoseconds m) (cm_ContainerAgeInNanoseconds m) (cm_RxInBytes m) (cm_TxInBytes m)
  else m.

Definition with_instance_id (config : MetricsConfig) : MetricsConfig :=
  match mc_Tags config !! "instance_id" with
  | Some _ => config
  | None => mkMetricsConfig (mc_Guid config) (mc_Index config) (<["instance_id" := strconv_Itoa (mc_Index config)]> (mc_Tags config))
  end.

(** The metrics of a container share their tags with every other reader of the map: the
    tags added here are seen by the next reporter, unless there were none, when the
    reporter works on a map of its own. *)
Definition share_tags (tags : gmap string string) (m : Metrics) : Metrics :=
  if bool_decide (mc_Tags (m_Config m) = ∅) then m
  else mkMetrics (mkMetricsConfig (mc_Guid (m_Config m)) (mc_Index (m_Config m)) tags) (m_Container m).

Record stats_pass := mkPass {
  sp_infos : gmap string CPUInfo; sp_cache : gmap string CachedContainerMetrics; sp_metrics : gmap string Metrics; sp_out : list metric_event }.

Definition stats_container (r : StatsReporter) (now : Z) (st : stats_pass) (c : Container) : stats_pass :=
  match sp_metrics st !! c_Guid c with
  | None => st
  | Some metric =>
      let config := with_instance_id (m_Config metric) in
      let '(info, cached, events) := ProcessAndSend config (scaled r c (m_Container metric)) (sr_CPUInfos r !! c_Guid c) now in
      mkPass (<[c_Guid c := info]> (sp_infos st)) (<[c_Guid c := cached]> (sp_cache st))
        (<[c_Guid c := share_tags (source_tags config).2 metric]> (sp_metrics st)) (sp_out st ++ events)
  end.

(** [Report]: the reporter, the metrics with the tags it added, and what it sends. *)
Definition stats_Report (r : StatsReporter) (containers : list Container) (metrics : gmap string Metrics) (now : Z) :
    StatsReporter * gmap string Metrics * list metric_event :=
  let st := foldl (stats_container r now) (mkPass ∅ ∅ metrics []) containers in
  (mkStatsReporter (sp_infos st) (sr_enableContainerProxy r) (sr_proxyMemoryAllocation r) (sp_cache st), sp_metrics st, sp_out st).

(** ** Spikes *)

Record spikeInfo := mkSpike { sp_start : option Z; sp_end : option Z }.

Definition currently_spiking (m : ContainerMetrics) : bool := (cm_AbsoluteCPUEntitlementInNanoseconds m <? u64 (cm_TimeSpentInCPU m))%Z.
Definition previously_spiking (p : option spikeInfo) : bool :=
  match p with Some (mkSpike (Some _) None) => true | _ => false end.
Definition spikeStarted (m : ContainerMetrics) (p : option spikeInfo) : bool := currently_spiking m && negb (previously_spiking p).
Definition spikeEnded (m : ContainerMetrics) (p : option spikeInfo) : bool := negb (currently_spiking m) && previously_spiking p.

Definition current_spike (m : ContainerMetrics) (p : option spikeInfo) (now : Z) : spikeInfo :=
  let s := default (mkSpike None None) p in
  let s := if spikeStarted m p then mkSpike (Some now) None else s in
  if spikeEnded m p then mkSpike (sp_start s) (Some now) else s.

(** [Report]: the reporter, whether it succeeds, and what is sent; [fails] says which of
    the metrics cannot be sent.  An error leaves the reporter as it was. *)
Fixpoint spike_loop (fails : nat -> bool) (infos new : gmap string spikeInfo) (containers : list Container) (metrics : gmap string Metrics) (now : Z)
    (out : list metric_event) : option (gmap string spikeInfo) * list metric_event :=
  match containers with
  | [] => (Some new, out)
  | c :: containers =>
      match metrics !! c_Guid c with
      | None => spike_loop fails infos new containers metrics now out
      | Some metric =>
          let s := current_spike (m_Container metric) (infos !! c_Guid c) now in
          let new := <[c_Guid c := s]> new in
          match sp_start s with
          | None => spike_loop fails infos new containers metrics now out
          | Some _ =>
              let out' := out ++ [SendSpikeMetrics (sp_start s) (sp_end s) (mc_Tags (m_Config metric))] in
              if fails (length out) then (None, out') else spike_loop fails infos new containers metrics now out'
          end
      end
  end.
Definition spike_Report (fails : nat -> bool) (infos : gmap string spikeInfo) (containers : list Container) (metrics : gmap string Metrics) (now : Z) :
    gmap string spikeInfo * bool * list metric_event :=
  match spike_loop fails infos ∅ containers metrics now [] with
  | (Some new, out) => (new, true, out)
  | (None, out) => (infos, false, out)
  end.

(** ** The runner *)

(** A tick, with what the executor answers: nothing is reported when it fails, and a
    reporter that fails does not keep the next one from reporting. *)
Definition fetchMetrics (fails : nat -> bool) (stats : StatsReporter) (spikes : gmap string spikeInfo) (metrics : option (gmap string Metrics))
    (containers : option (list Container)) (now : Z) : StatsReporter * gmap string spikeInfo * list metric_event :=
  match metrics, containers with
  | Some metrics, Some containers =>
      let '(stats, metrics, out) := stats_Report stats containers metrics now in
      let '(spikes, _, out') := spike_Report fails spikes containers metrics now in
      (stats, spikes, out ++ out')
  | _, _ => (stats, spikes, [])
  end.

(** ** Spikes are found exactly *)

Record report := mkReport { rp_fails : nat -> bool; rp_containers : list Container; rp_metrics : gmap string Metrics; rp_now : Z }.
Definition spike_step (infos : gmap string spikeInfo) (r : report) : gmap string spikeInfo * bool * list metric_event :=
  spike_Report (rp_fails r) infos (rp_containers r) (rp_metrics r) (rp_now r).

(** The metrics of a container that a report has. *)
Definition seen (g : string) (r : report) : option Metrics :=
  if bool_decide (g ∈ c_Guid <$> rp_containers r) then rp_metrics r !! g else None.

(** The samples of a container since it appeared, [true] above its entitlement: those of
    the reports that succeeded. *)
Definition observe (g : string) (st : gmap string spikeInfo * list (Z * bool)) (r : report) : gmap string spikeInfo * list (Z * bool) :=
  let '(infos', ok, _) := spike_step st.1 r in
  (infos',
   if ok then match seen g r with None => [] | Some m => st.2 ++ [(rp_now r, currently_spiking (m_Container m))] end
   else st.2).

(** The last interval of samples above the entitlement. *)
Definition last_spike (samples : list (Z * bool)) (s : spikeInfo) : Prop :=
  (Forall (fun o => o.2 = false) samples /\ s = mkSpike None None) \/
  exists before spike after, samples = before ++ spike ++ after /\ spike <> [] /\ Forall (fun o => o.2 = true) spike /\
    Forall (fun o => o.2 = false) after /\ (forall o, last before = Some o -> o.2 = false) /\
    s = mkSpike (fst <$> head spike) (fst <$> head after).

(** What a report that succeeds sends. *)
Definition spike_events (infos : gmap string spikeInfo) (r : report) : list metric_event :=
  omap (fun c =>
    m ← rp_metrics r !! c_Guid c;
    let s := current_spike (m_Container m) (infos !! c_Guid c) (rp_now r) in
    t ← sp_start s; Some (SendSpikeMetrics (Some t) (sp_end s) (mc_Tags (m_Config m)))) (rp_containers r).

Lemma last_spike_next samples p m now :
  last_spike samples (default (mkSpike None None) p) ->
  last_spike (samples ++ [(now, currently_spiking m)]) (current_spike m p now).
Proof.
  intros Hs. assert (current_spike m p now = current_spike m (Some (default (mkSpike None None) p)) now) as ->.
  { unfold current_spike, spikeStarted, spikeEnded. by destruct p. }
  unfold current_spike, spikeStarted, spikeEnded. destruct (currently_spiking m) eqn:Hm.
  - destruct Hs as [[Hall ->]|(before & spike & after & -> & Hne & Hsp & Hafter & Hbefore & ->)]; simpl.
    + right. exists samples, [(now, true)], []. split_and!; [done|done|by repeat constructor|constructor| |done].
      intros o Ho. rewrite Forall_forall in Hall. apply Hall. by apply last_Some_elem_of.
    + destruct spike as [|sp spike]; [done|]. simpl. destruct after as [|af after]; simpl; right.
      * exists before, (sp :: spike ++ [(now, true)]), [].
        split_and!; [by rewrite !app_nil_r, <- (assoc_L (++))|done| |constructor|done|done].
        change (Forall (fun o : Z * bool => o.2 = true) ((sp :: spike) ++ [(now, true)])).
        apply Forall_app. split; [done|by repeat constructor].
      * exists (before ++ (sp :: spike) ++ af :: after), [(now, true)], [].
        split_and!; [by rewrite app_nil_r|done|by repeat constructor|constructor| |done].
        intros o. rewrite (assoc_L (++)), last_app_cons. intros Ho. rewrite Forall_forall in Hafter.
        apply Hafter. by apply last_Some_elem_of.
  - destruct Hs as [[Hall ->]|(before & spike & after & -> & Hne & Hsp & Hafter & Hbefore & ->)]; simpl.
    + left. split; [|done]. apply Forall_app. split; [done|by repeat constructor].
    + right. exists before, spike, (after ++ [(now, false)]).
      split_and!; [by rewrite <- !(assoc_L (++))|done|done| |done|].
      { apply Forall_app. split; [done|by repeat constructor]. }
      destruct spike as [|sp spike]; [done|]. by destruct after.
Qed.

Lemma seen_cons g fails c cs metrics now :
  seen g (mkReport fails (c :: cs) metrics now) =
  if decide (c_Guid c = g) then metrics !! g else seen g (mkReport fails cs metrics now).
Proof. unfold seen; simpl. destruct (decide (c_Guid c = g)); repeat case_bool_decide; set_solver. Qed.

Lemma spike_loop_spec fails infos new cs metrics now out :
  let r := mkReport fails cs metrics now in
  let '(res, out') := spike_loop fails infos new cs metrics now out in
  exists sent, out' = out ++ sent /\ sent `prefix_of` spike_events infos r /\
    forall new', res = Some new' -> sent = spike_events infos r /\
      forall g, new' !! g = match seen g r with
                            | Some m => Some (current_spike (m_Container m) (infos !! g) now)
                            | None => new !! g end.
Proof.
  unfold spike_events; simpl. revert new out. induction cs as [|c cs IH]; intros new out; simpl.
  { exists []. rewrite app_nil_r. split_and!; [done|done|]. by intros ? [= ->]. }
  destruct (metrics !! c_Guid c) as [m|] eqn:Hm; simpl.
  2:{ specialize (IH new out). destruct spike_loop as [res out']. destruct IH as (sent & Ho & Hp & Hres). exists sent. split_and!; [done|done|].
      intros new' ->. destruct (Hres new' eq_refl) as [He Hg]. split; [done|]. intros g. rewrite Hg, seen_cons.
      destruct (decide (c_Guid c = g)) as [<-|Hne]; [|done]. unfold seen; simpl. rewrite Hm. by repeat case_bool_decide. }
  set (s := current_spike (m_Container m) (infos !! c_Guid c) now).
  assert (forall new' : gmap string spikeInfo,
    (forall g, new' !! g = match seen g (mkReport fails cs metrics now) with
       | Some m => Some (current_spike (m_Container m) (infos !! g) now) | None => <[c_Guid c := s]> new !! g end) ->
    forall g, new' !! g = match seen g (mkReport fails (c :: cs) metrics now) with
       | Some m => Some (current_spike (m_Container m) (infos !! g) now) | None => new !! g end) as Hnext.
  { intros new' Hg g. rewrite Hg, seen_cons. destruct (decide (c_Guid c = g)) as [<-|Hne].
    - rewrite Hm, lookup_insert_eq. unfold seen; simpl. rewrite Hm. by case_bool_decide.
    - by rewrite lookup_insert_ne. }
  destruct (sp_start s) as [t|] eqn:Hst; simpl.
  - destruct (fails (length out)).
    { eexists [_]. split_and!; [done|by apply prefix_cons, prefix_nil|done]. }
    specialize (IH (<[c_Guid c := s]> new) (out ++ [SendSpikeMetrics (Some t) (sp_end s) (mc_Tags (m_Config m))])).
    destruct spike_loop as [res out']. destruct IH as (sent & -> & Hp & Hres). eexists (_ :: sent). rewrite <- (assoc_L (++)).
    split_and!; [done|by apply prefix_cons|]. intros new' ->. destruct (Hres new' eq_refl) as [-> Hg]. split; [done|by apply Hnext].
  - specialize (IH (<[c_Guid c := s]> new) out). destruct spike_loop as [res out']. destruct IH as (sent & -> & Hp & Hres). exists sent.
    split_and!; [done|done|]. intros new' ->. destruct (Hres new' eq_refl) as [-> Hg]. split; [done|by apply Hnext].
Qed.

Lemma spike_step_spec infos r :
  let '(infos', ok, out) := spike_step infos r in
  out `prefix_of` spike_events infos r /\
  if ok then out = spike_events infos r /\
    forall g, infos' !! g = m ← seen g r; Some (current_spike (m_Container m) (infos !! g) (rp_now r))
  else infos' = infos.
Proof.
  destruct r as [fails cs metrics now]. unfold spike_step, spike_Report; simpl.
  pose proof (spike_loop_spec fails infos ∅ cs metrics now []) as Hs; simpl in Hs.
  destruct spike_loop as [[new|] out]; destruct Hs as (sent & -> & Hp & Hres); simpl; (split; [done|]); [|done].
  destruct (Hres new eq_refl) as [-> Hg]. split; [done|]. intros g. rewrite Hg. by destruct seen; simpl; [|rewrite lookup_empty].
Qed.

(** C39: The reports of CPU spikes are exact: after any reports, what the reporter remembers
    of a container is the last interval of the samples above its entitlement, from the
    first sample above to the first one below again (the zero time while it lasts), among
    the samples of the reports that succeeded since the container appeared; a container
    it did not see is forgotten.  A report sends the spike of each container that had
    one, and what a failed report sent is a prefix of that. *)
Theorem spikes_exact g reports :
  let '(infos, samples) := foldl (observe g) (∅, []) reports in
  match infos !! g with Some s => samples <> [] /\ last_spike samples s | None => samples = [] end /\
  forall r, let '(_, ok, out) := spike_step infos r in
    out `prefix_of` spike_events infos r /\ (ok = true -> out = spike_events infos r).
Proof.
  assert (forall (infos : gmap string spikeInfo) samples,
    match infos !! g with Some s => samples <> [] /\ last_spike samples s | None => samples = [] end ->
    let '(infos, samples) := foldl (observe g) (infos, samples) reports in
    match infos !! g with Some s => samples <> [] /\ last_spike samples s | None => samples = [] end) as Hinv.
  { induction reports as [|r reports IH]; intros infos samples Hi; [done|]. simpl.
    unfold observe at 2; simpl. pose proof (spike_step_spec infos r) as Hs.
    destruct (spike_step infos r) as [[infos' ok] out]. destruct Hs as [_ Hs]. apply IH.
    destruct ok; [|by subst]. destruct Hs as [_ ->]. destruct (seen g r) as [m|]; simpl; [|done].
    split; [by destruct samples|]. apply last_spike_next. destruct (infos !! g); [by destruct Hi|].
    subst. left. by split. }
  specialize (Hinv ∅ [] ltac:(by rewrite lookup_empty)). destruct foldl as [infos samples]. split; [done|].
  intros r. pose proof (spike_step_spec infos r) as Hs. destruct spike_step as [[infos' ok] out].
  destruct Hs as [Hp Hs]. split; [done|]. intros ->. by destruct Hs.
Qed.

(** ** Tags

    A container without metric tags of its own has its usage attributed to its guid, as
    the reporter of the usage completes the tags, but its spikes carry no tags at all. *)
Definition untagged_metrics : gmap string Metrics :=
  {["c" := mkMetrics (mkMetricsConfig "log-guid" 1 ∅) (mkContainerMetrics 1 1 2 2 30 20 5 None None)]}.
Definition untagged_tick : list metric_event :=
  (fetchMetrics (fun _ => false) (mkStatsReporter ∅ false (of_int 0) ∅) ∅ (Some untagged_metrics) (Some [mkContainer "c" false 2]) 7).2.
Definition event_tags (e : metric_event) : gmap string string :=
  match e with SendAppMetrics m => lm_Tags m | SendAppLogRate _ _ tags => tags | SendSpikeMetrics _ _ tags => tags end.
Lemma spikes_untagged :
  let tags := {["source_id" := "log-guid"; "instance_id" := "1"]} in
  event_tags <$> untagged_tick = [tags; tags; ∅] /\ untagged_tick !! 2 = Some (SendSpikeMetrics (Some 7%Z) None ∅).
Proof. split; vm_compute; reflexivity. Qed.
