(* ===== verification/Scp.v ===== *)
(** * Secure copy

    diego-ssh/scp: both sides of the protocol with which files are copied to and from a
    container.  A side is a function of what it has read so far: it is done, has failed,
    or waits for more.  [Error], the texts of errors, which a side reports to the other,
    is arbitrary. *)
From Stdlib Require Import ZArith Lia Ascii.
From S2P Require Import Prelude GoStrings.

Inductive scp_error :=
| EOF
| NotExist (path : list chars)
| OsError (what : string) (path : list chars)
| NumError (s : chars)
| ErrorText (message : chars)
| UnexpectedMessage (b : ascii)
| InvalidAcknowledgement (b : ascii)
| TargetNotDirectory (name : chars)
| NotRegular (name : chars).

(** The options, without [Verbose] and [Quiet], which nothing reads. *)
Record Options := mkOptions {
  o_SourceMode : bool; o_TargetMode : bool; o_TargetIsDirectory : bool; o_PreserveTimesAndMode : bool; o_Recursive : bool;
  o_Sources : list chars; o_Target : chars }.

(** ** The file system of the receiver

    Without links.  The times of an entry are those the copy set, [None] when it was
    written after. *)

Inductive fnode := FFile (mode : Z) (times : option (Z * Z)) (data : chars) | FDir (mode : Z) (times : option (Z * Z)).
Abbreviation FS := (gmap (list chars) fnode).

Definition is_dir (n : fnode) : bool := match n with FDir _ _ => true | FFile _ _ _ => false end.

(** What else can keep an operation from succeeding, the process's umask and directory. *)
Record OS := mkOS { os_fails : string -> list chars -> option scp_error; os_umask : Z; os_cwd : chars }.

Definition resolve (os : OS) (path : chars) : list chars :=
  clean_parts true [] (Split slash (if bool_decide (head path = Some slash) then path else os_cwd os ++ slash :: path)).

Definition blocked_by_file (fs : FS) (p : list chars) : bool :=
  existsb (fun k => match fs !! take k p with Some (FFile _ _ _) => true | _ => false end) (seq 0 (length p)).

Definition Stat (os : OS) (fs : FS) (p : list chars) : scp_error + fnode :=
  match os_fails os "stat" p with
  | Some e => inl e
  | None =>
      match fs !! p with
      | Some n => inr n
      | None => inl (if blocked_by_file fs p then OsError "not a directory" p else NotExist p)
      end
  end.

(** The mode the kernel gets for a Go file mode. *)
Definition syscallMode (m : Z) : Z :=
  Z.lor (Z.land m 511)
    (Z.lor (if Z.testbit m 23 then 2048 else 0) (Z.lor (if Z.testbit m 22 then 1024 else 0) (if Z.testbit m 20 then 512 else 0))).

Definition parent (p : list chars) : list chars := take (length p - 1) p.

(** A directory whose entries change. *)
Definition touch (p : list chars) (fs : FS) : FS := alter (fun n => match n with FDir m _ => FDir m None | f => f end) p fs.

Definition add_entry (os : OS) (p : list chars) (n : fnode) (fs : FS) : scp_error + FS :=
  match fs !! parent p with
  | Some (FDir _ _) => inr (<[p := n]> (touch (parent p) fs))
  | Some (FFile _ _ _) => inl (OsError "not a directory" p)
  | None => inl (NotExist p)
  end.

Definition Mkdir (os : OS) (p : list chars) (mode : Z) (fs : FS) : scp_error + FS :=
  match os_fails os "mkdir" p, fs !! p with
  | Some e, _ => inl e
  | None, Some _ => inl (OsError "file exists" p)
  | None, None => add_entry os p (FDir (Z.ldiff (syscallMode mode) (os_umask os)) None) fs
  end.

(** [OpenFile] for writing, created or truncated. *)
Definition OpenFile (os : OS) (p : list chars) (mode : Z) (fs : FS) : scp_error + FS :=
  match os_fails os "open" p, fs !! p with
  | Some e, _ => inl e
  | None, Some (FDir _ _) => inl (OsError "is a directory" p)
  | None, Some (FFile m _ _) => inr (<[p := FFile m None []]> fs)
  | None, None => add_entry os p (FFile (Z.ldiff (syscallMode mode) (os_umask os)) None []) fs
  end.

Definition append_data (p : list chars) (data : chars) (fs : FS) : FS :=
  alter (fun n => match n with FFile m _ d => FFile m None (d ++ data) | d => d end) p fs.

Definition change (os : OS) (op : string) (f : fnode -> fnode) (p : list chars) (fs : FS) : scp_error + FS :=
  match os_fails os op p, fs !! p with
  | Some e, _ => inl e
  | None, None => inl (NotExist p)
  | None, Some n => inr (<[p := f n]> fs)
  end.
Definition Chmod (os : OS) (p : list chars) (mode : Z) : FS -> scp_error + FS :=
  change os "chmod" (fun n => match n with FFile _ t d => FFile (syscallMode mode) t d | FDir _ t => FDir (syscallMode mode) t end) p.
Definition Chtimes (os : OS) (p : list chars) (access modification : Z) : FS -> scp_error + FS :=
  change os "chtimes" (fun n => match n with FFile m _ d => FFile m (Some (access, modification)) d | FDir m _ => FDir m (Some (access, modification)) end) p.

(** ** Sessions *)

(** What was read and not used, whether the other side has closed, what was written to
    the other side and to the error stream, how many more writes succeed, and the file
    system. *)
Record Session := mkSession { s_in : chars; s_closed : bool; s_out : chars; s_err : chars; s_writes : option nat; s_fs : FS }.

Inductive outcome (A : Type) := Done (a : A) | Failed (e : scp_error) | Waiting | OutOfFuel.
Arguments Done {A} a.
Arguments Failed {A} e.
Arguments Waiting {A}.
Arguments OutOfFuel {A}.

Definition M (A : Type) : Type := Session -> outcome A * Session.

Definition ret {A} (a : A) : M A := fun s => (Done a, s).
Definition fail {A} (e : scp_error) : M A := fun s => (Failed e, s).
Definition bind {A B} (m : M A) (k : A -> M B) : M B := fun s =>
  match m s with
  | (Done a, s) => k a s
  | (Failed e, s) => (Failed e, s)
  | (Waiting, s) => (Waiting, s)
  | (OutOfFuel, s) => (OutOfFuel, s)
  end.
(** The error as a value. *)
Definition attempt {A} (m : M A) : M (scp_error + A) := fun s =>
  match m s with
  | (Done a, s) => (Done (inr a), s)
  | (Failed e, s) => (Done (inl e), s)
  | (Waiting, s) => (Waiting, s)
  | (OutOfFuel, s) => (OutOfFuel, s)
  end.
Notation "'read' x := m 'in' k" := (bind m (fun x => k)) (at level 10, x pattern, m at level 100, k at level 200).
Notation "m ;;; k" := (bind m (fun _ => k)) (at level 100, right associativity).

Definition with_in (i : chars) (s : Session) : Session := mkSession i (s_closed s) (s_out s) (s_err s) (s_writes s) (s_fs s).
Definition with_out (o : chars) (s : Session) : Session := mkSession (s_in s) (s_closed s) o (s_err s) (s_writes s) (s_fs s).
Definition with_err (e : chars) (s : Session) : Session := mkSession (s_in s) (s_closed s) (s_out s) e (s_writes s) (s_fs s).
Definition with_fs (fs : FS) (s : Session) : Session := mkSession (s_in s) (s_closed s) (s_out s) (s_err s) (s_writes s) fs.

Definition starved {A} (s : Session) : outcome A * Session := if s_closed s then (Failed EOF, s) else (Waiting, s).

Definition NEWLINE : ascii := ascii_of_nat 10.
Definition SPACE : ascii := ascii_of_nat 32.
Definition ack (n : nat) : ascii := ascii_of_nat n.

Definition write (bs : chars) : M () := fun s =>
  match s_writes s with
  | Some 0 => (Failed EOF, s)
  | Some (S n) => (Done (), mkSession (s_in s) (s_closed s) (s_out s ++ bs) (s_err s) (Some n) (s_fs s))
  | None => (Done (), with_out (s_out s ++ bs) s)
  end.

Definition readByte : M ascii := fun s =>
  match s_in s with c :: rest => (Done c, with_in rest s) | [] => starved s end.
Definition peekByte : M ascii := fun s =>
  match s_in s with c :: _ => (Done c, s) | [] => starved s end.

Fixpoint until (delim : ascii) (s : chars) : option (chars * chars) :=
  match s with
  | [] => None
  | c :: s => if Ascii.eqb c delim then Some ([], s) else '(w, rest) ← until delim s; Some (c :: w, rest)
  end.
Definition readString (delim : ascii) : M chars := fun s =>
  match until delim (s_in s) with
  | Some (w, rest) => (Done w, with_in rest s)
  | None => starved (with_in [] s)
  end.

(** [io.CopyN] to the file. *)
Definition copy_to_file (p : list chars) (n : Z) : M () := fun s =>
  let data := take (Z.to_nat n) (s_in s) in
  let s' := with_in (drop (Z.to_nat n) (s_in s)) (with_fs (append_data p data (s_fs s)) s) in
  if bool_decide (length data = Z.to_nat n) then (Done (), s') else starved s'.

Definition fs_op (f : FS -> scp_error + FS) : M () := fun s =>
  match f (s_fs s) with inl e => (Failed e, s) | inr fs => (Done (), with_fs fs s) end.
Definition fs_stat (os : OS) (p : list chars) : M (scp_error + fnode) := fun s => (Done (Stat os (s_fs s) p), s).

Definition parse (r : option Z) (s : chars) : M Z := match r with Some z => ret z | None => fail (NumError s) end.

Section Sides.
Context (Error : scp_error -> chars).

Definition sendConfirmation : M () := write [ack 0].
Definition sendError (message : chars) : M () := write [ack 1] ;;; write (text "scp: " ++ message ++ [NEWLINE]).
(** An error is reported to the other side; one of the report is logged. *)
Definition report_error (e : scp_error) : M () := attempt (sendError (Error e)) ;;; ret ().

Definition print_stderr (message : chars) : M () := fun s => (Done (), with_err (s_err s ++ message) s).

Definition awaitConfirmation : M () :=
  read ackType := readByte in
  if Ascii.eqb ackType (ack 0) then ret ()
  else if Ascii.eqb ackType (ack 1) then read message := readString NEWLINE in print_stderr message
  else if Ascii.eqb ackType (ack 2) then read message := readString NEWLINE in fail (ErrorText message)
  else fail (InvalidAcknowledgement ackType).

(** ** Times *)

Record TimeMessage := mkTimeMessage { tm_modificationTime : Z; tm_accessTime : Z }.

Definition time_Send (tm : TimeMessage) : M () :=
  write (text "T" ++ print_d (tm_modificationTime tm) ++ text " 0 " ++ print_d (tm_accessTime tm) ++ text " 0" ++ [NEWLINE]) ;;;
  awaitConfirmation.

Definition time_Receive : M TimeMessage :=
  read messageType := readByte in
  if negb (Ascii.eqb messageType "T") then fail (UnexpectedMessage messageType) else
  read modTimeString := readString SPACE in
  read modTimeSeconds := parse (ParseUint modTimeString 10 64) modTimeString in
  readString SPACE ;;;
  read accessTimeString := readString SPACE in
  read accessTimeSeconds := parse (ParseUint accessTimeString 10 64) accessTimeString in
  readString NEWLINE ;;;
  sendConfirmation ;;;
  ret (mkTimeMessage (i64 modTimeSeconds) (i64 accessTimeSeconds)).

(** ** The sender *)

Record FileInfo := mkFileInfo { fi_Name : chars; fi_IsDir : bool; fi_Mode : Z; fi_Size : Z; fi_ModTime : Z; fi_AccessTime : option Z }.

(** What the sender finds at a path: nothing it can open, a file with what can be read of
    it, or a directory with its entries, or the error of reading them. *)
Inductive source := Unreadable (e : scp_error) | SFile (info : FileInfo) (content : chars) | SDir (info : FileInfo) (entries : scp_error + list source).

Definition NewTimeMessage (info : FileInfo) : TimeMessage := mkTimeMessage (fi_ModTime info) (default 0%Z (fi_AccessTime info)).

Definition send_times (preserve : bool) (info : FileInfo) : M () := if preserve then time_Send (NewTimeMessage info) else ret ().

(** [io.CopyN] from the file. *)
Definition copy_from_file (content : chars) (n : Z) : M () :=
  write (take (Z.to_nat n) content) ;;; if (Z.of_nat (length content) <? n)%Z then fail EOF else ret ().

Definition SendFile (preserve : bool) (info : FileInfo) (content : chars) : M () :=
  send_times preserve info ;;;
  write (text "C" ++ print_4o (Z.land (fi_Mode info) 4095) ++ [SPACE] ++ print_d (fi_Size info) ++ [SPACE] ++ fi_Name info ++ [NEWLINE]) ;;;
  awaitConfirmation ;;;
  copy_from_file content (fi_Size info) ;;;
  sendConfirmation ;;;
  awaitConfirmation.

(** Every entry is sent; errors were reported by [send] and do not stop the directory. *)
Fixpoint send_entries (entries : list (M ())) : M () :=
  match entries with
  | [] => ret ()
  | m :: entries => attempt m ;;; send_entries entries
  end.

Definition sendDirectory (preserve : bool) (info : FileInfo) (entries : scp_error + list (M ())) : M () :=
  send_times preserve info ;;;
  write (text "D" ++ print_4o (Z.land (fi_Mode info) 4095) ++ text " 0 " ++ fi_Name info ++ [NEWLINE]) ;;;
  awaitConfirmation ;;;
  match entries with
  | inl e => fail e
  | inr entries =>
      send_entries entries ;;;
      write (text "E" ++ [NEWLINE]) ;;;
      awaitConfirmation
  end.

(** [send]'s deferred report. *)
Definition reporting (m : M ()) : M () :=
  read r := attempt m in match r with inr _ => ret () | inl e => report_error e ;;; fail e end.

Fixpoint send (preserve : bool) (t : source) : M () :=
  reporting
    match t with
    | Unreadable e => fail e
    | SFile info content => SendFile preserve info content
    | SDir info entries => sendDirectory preserve info (match entries with inl e => inl e | inr l => inr (send preserve <$> l) end)
    end.

(** What the sender's system answers: the paths a pattern matches ([None]: a bad
    pattern), [os.Stat], and what opening a path gives. *)
Record SourceEnv := mkSourceEnv { se_Glob : chars -> option (list chars); se_Stat : chars -> scp_error + FileInfo; se_Open : chars -> source }.

Definition expand (env : SourceEnv) (sourceGlob : chars) : list chars :=
  match se_Glob env sourceGlob with Some (s :: l) => s :: l | _ => [sourceGlob] end.

Definition send_source (opts : Options) (env : SourceEnv) (source : chars) : M () :=
  match se_Stat env source with
  | inl e => report_error e ;;; fail e
  | inr info =>
      if fi_IsDir info && negb (o_Recursive opts) then report_error (NotRegular (fi_Name info)) ;;; fail (NotRegular (fi_Name info))
      else send (o_PreserveTimesAndMode opts) (se_Open env source)
  end.

(** The last error, if there was one. *)
Fixpoint send_all (opts : Options) (env : SourceEnv) (sources : list chars) (lastErr : option scp_error) : M () :=
  match sources with
  | [] => match lastErr with None => ret () | Some e => fail e end
  | source :: sources =>
      read r := attempt (send_source opts env source) in
      send_all opts env sources (match r with inl e => Some e | inr _ => lastErr end)
  end.

Definition copy_source (opts : Options) (env : SourceEnv) : M () :=
  awaitConfirmation ;;; send_all opts env (concat (expand env <$> o_Sources opts)) None.

(** ** The receiver *)

Context (os : OS).

Definition ReceiveFile (preserve : bool) (path : chars) (pathIsDir : bool) (timeMessage : option TimeMessage) : M () :=
  read messageType := readByte in
  if negb (Ascii.eqb messageType "C") then fail (UnexpectedMessage messageType) else
  read fileModeString := readString SPACE in
  read fileMode := parse (ParseUint fileModeString 8 32) fileModeString in
  read lengthString := readString SPACE in
  read length := parse (ParseInt lengthString 10 64) lengthString in
  read fileName := readString NEWLINE in
  sendConfirmation ;;;
  let targetPath := resolve os (if pathIsDir then Join [path; fileName] else path) in
  fs_op (OpenFile os targetPath fileMode) ;;;
  copy_to_file targetPath length ;;;
  (if preserve then fs_op (Chmod os targetPath fileMode) else ret ()) ;;;
  match timeMessage with
  | Some tm => fs_op (Chtimes os targetPath (tm_accessTime tm) (tm_modificationTime tm))
  | None => ret ()
  end ;;;
  awaitConfirmation ;;;
  sendConfirmation.

(** [ReceiveDirectory]; [process] receives the messages of its entries. *)
Definition ReceiveDirectory (process : chars -> M ()) (preserve : bool) (dir : chars) (timeMessage : option TimeMessage) : M () :=
  read messageType := readByte in
  if negb (Ascii.eqb messageType "D") then fail (UnexpectedMessage messageType) else
  read dirModeString := readString SPACE in
  read dirMode := parse (ParseUint dirModeString 8 32) dirModeString in
  readString SPACE ;;;
  read dirName := readString NEWLINE in
  sendConfirmation ;;;
  read there := fs_stat os (resolve os dir) in
  let targetPath := match there with inl (NotExist _) => dir | _ => Join [dir; dirName] end in
  read target := fs_stat os (resolve os targetPath) in
  match target with
  | inl (NotExist _) => fs_op (Mkdir os (resolve os targetPath) dirMode)
  | inl e => fail e
  | inr n => if is_dir n then ret () else fail (TargetNotDirectory dirName)
  end ;;;
  process targetPath ;;;
  read message := readString NEWLINE in
  if bool_decide (message <> text "E") then fail (UnexpectedMessage messageType) else
  match timeMessage with
  | Some tm => if preserve then fs_op (Chtimes os (resolve os targetPath) (tm_accessTime tm) (tm_modificationTime tm)) else ret ()
  | None => ret ()
  end ;;;
  sendConfirmation.

Definition out_of_fuel {A} : M A := fun s => (OutOfFuel, s).

(** A time message, when the next one is, and the type of the message after. *)
Definition receive_times (wanted : bool) : M (option TimeMessage * ascii) :=
  read messageType := peekByte in
  if Ascii.eqb messageType "T" && wanted then
    read tm := time_Receive in
    read messageType := peekByte in ret (Some tm, messageType)
  else ret (None, messageType).

Fixpoint processDirectoryMessages (fuel : nat) (preserve : bool) (dirPath : chars) : M () :=
  match fuel with
  | 0 => out_of_fuel
  | S fuel =>
      read (timeMessage, messageType) := receive_times preserve in
      if Ascii.eqb messageType "D" then
        ReceiveDirectory (processDirectoryMessages fuel preserve) preserve dirPath timeMessage ;;;
        processDirectoryMessages fuel preserve dirPath
      else if Ascii.eqb messageType "C" then
        ReceiveFile preserve dirPath true timeMessage ;;;
        processDirectoryMessages fuel preserve dirPath
      else if Ascii.eqb messageType "E" then
        match timeMessage with Some _ => fail (UnexpectedMessage messageType) | None => ret () end
      else fail (UnexpectedMessage messageType)
  end.

(** [peekByte] at the top: the end of the input ends the copy. *)
Definition peek_or_end : M (option ascii) :=
  read r := attempt peekByte in match r with inr b => ret (Some b) | inl EOF => ret None | inl _ => ret (Some (ack 0)) end.

Fixpoint receive_loop (fuel : nat) (opts : Options) (targetIsDir : bool) : M () :=
  match fuel with
  | 0 => out_of_fuel
  | S fuel' =>
      let preserve := o_PreserveTimesAndMode opts in
      let receive (timeMessage : option TimeMessage) (messageType : ascii) : M () :=
        reporting
          (if Ascii.eqb messageType "C" then ReceiveFile preserve (o_Target opts) targetIsDir timeMessage
           else if Ascii.eqb messageType "D" then
             ReceiveDirectory (processDirectoryMessages fuel preserve) preserve (o_Target opts) timeMessage
           else fail (UnexpectedMessage messageType)) ;;;
        receive_loop fuel' opts targetIsDir in
      read first := peek_or_end in
      match first with
      | None => ret ()
      | Some messageType =>
          if Ascii.eqb messageType "T" then
            read r := attempt time_Receive in
            match r with
            | inl e => report_error e ;;; fail e
            | inr tm => read next := peek_or_end in match next with None => ret () | Some messageType => receive (Some tm) messageType end
            end
          else receive None messageType
      end
  end.

(** Every message takes at least a byte of the input, so its length bounds the messages
    and the depth of the directories. *)
Definition input_fuel (s : Session) : nat := S (length (s_in s)).

Definition copy_target (opts : Options) : M () :=
  read target := fs_stat os (resolve os (o_Target opts)) in
  let targetIsDir := match target with inr n => is_dir n | inl _ => false end in
  if o_TargetIsDirectory opts && negb targetIsDir then fail (ErrorText (text "target is not a directory")) else
  sendConfirmation ;;;
  fun s => receive_loop (input_fuel s) opts targetIsDir s.

Definition Copy (opts : Options) (env : SourceEnv) : M () :=
  if o_SourceMode opts then copy_source opts env else if o_TargetMode opts then copy_target opts else ret ().

End Sides.

(** ** The two sides together

    What each side has written and whether it is over, after [n] rounds in which each
    side goes as far as what the other one has written before allows. *)
Record exchange := mkExchange { x_sent : chars; x_sender : outcome (); x_answered : chars; x_receiver : outcome (); x_fs : FS }.
Definition over {A} (o : outcome A) : bool := match o with Done _ | Failed _ => true | _ => false end.

Definition session (input : chars) (closed : bool) (fs : FS) : Session := mkSession input closed [] [] None fs.

Definition round (sender receiver : M ()) (fs : FS) (x : exchange) : exchange :=
  let '(so, ss) := sender (session (x_answered x) (over (x_receiver x)) ∅) in
  let '(ro, rs) := receiver (session (x_sent x) (over (x_sender x)) fs) in
  mkExchange (s_out ss) so (s_out rs) ro (s_fs rs).
Definition exchanged (sender receiver : M ()) (fs : FS) (n : nat) : exchange :=
  Nat.iter n (round sender receiver fs) (mkExchange [] Waiting [] Waiting fs).
