(* ===== verification/ScpTrace.v ===== *)
(** * Conversations of the copy protocol

    The bytes a side reads and writes, in order, when the other side answers as
    expected.  Two sides with dual conversations complete them together. *)
From Stdlib Require Import ZArith Lia Ascii.
From S2P Require Import Prelude GoStrings Scp.

Inductive event := In (c : ascii) | Out (c : ascii).
Abbreviation trace := (list event).

Definition reads (w : chars) : trace := In <$> w.
Definition writes (w : chars) : trace := Out <$> w.
Definition ins (tr : trace) : chars := omap (fun e => match e with In c => Some c | Out _ => None end) tr.
Definition outs (tr : trace) : chars := omap (fun e => match e with Out c => Some c | In _ => None end) tr.
Definition dual (tr : trace) : trace := (fun e => match e with In c => Out c | Out c => In c end) <$> tr.

(** The conversation up to the first byte that is missing when [k] are there. *)
Fixpoint cut (tr : trace) (k : nat) : trace :=
  match tr, k with
  | [], _ => []
  | Out c :: tr, _ => Out c :: cut tr k
  | In c :: tr, 0 => []
  | In c :: tr, S k => In c :: cut tr k
  end.

Lemma ins_app t1 t2 : ins (t1 ++ t2) = ins t1 ++ ins t2.
Proof. apply omap_app. Qed.
Lemma outs_app t1 t2 : outs (t1 ++ t2) = outs t1 ++ outs t2.
Proof. apply omap_app. Qed.
Lemma ins_reads w : ins (reads w) = w.
Proof. induction w as [|c w IH]; [done|]. exact (f_equal (cons c) IH). Qed.
Lemma outs_writes w : outs (writes w) = w.
Proof. induction w as [|c w IH]; [done|]. exact (f_equal (cons c) IH). Qed.
Lemma outs_reads w : outs (reads w) = [].
Proof. by induction w. Qed.
Lemma ins_writes w : ins (writes w) = [].
Proof. by induction w. Qed.
Lemma ins_dual tr : ins (dual tr) = outs tr.
Proof. induction tr as [|[c|c] tr IH]; [done|exact IH|]. exact (f_equal (cons c) IH). Qed.
Lemma outs_dual tr : outs (dual tr) = ins tr.
Proof. induction tr as [|[c|c] tr IH]; [done| |exact IH]. exact (f_equal (cons c) IH). Qed.
Lemma dual_app t1 t2 : dual (t1 ++ t2) = dual t1 ++ dual t2.
Proof. apply fmap_app. Qed.
Lemma dual_writes w : dual (writes w) = reads w.
Proof. unfold dual, writes, reads. rewrite <- list_fmap_compose. done. Qed.
Lemma dual_reads w : dual (reads w) = writes w.
Proof. unfold dual, writes, reads. rewrite <- list_fmap_compose. done. Qed.

Lemma take_dual n tr : take n (dual tr) = dual (take n tr).
Proof. symmetry. apply fmap_take. Qed.
Lemma length_dual tr : length (dual tr) = length tr.
Proof. apply length_fmap. Qed.

Lemma cut_app_l t1 t2 k : k < length (ins t1) -> cut (t1 ++ t2) k = cut t1 k.
Proof.
  revert k. induction t1 as [|[c|c] t1 IH]; intros k Hk; [by cbn in Hk; lia| |].
  - destruct k as [|k]; [done|]. cbn in *. f_equal. apply IH. unfold ins. lia.
  - cbn in *. f_equal. by apply IH.
Qed.
Lemma cut_app_r t1 t2 k : cut (t1 ++ t2) (length (ins t1) + k) = t1 ++ cut t2 k.
Proof. induction t1 as [|[c|c] t1 IH]; [done| |]; cbn; f_equal; exact IH. Qed.

Lemma cut_prefix tr k : cut tr k `prefix_of` tr.
Proof.
  revert k. induction tr as [|[c|c] tr IH]; intros k; cbn; [done| |by apply prefix_cons].
  destruct k; [apply prefix_nil|by apply prefix_cons].
Qed.
Lemma cut_reaches tr k q : q <= length tr -> length (ins (take q tr)) <= k -> q <= length (cut tr k).
Proof.
  revert k q. induction tr as [|[c|c] tr IH]; intros k q Hq Hk; (destruct q as [|q]; [lia|]); cbn in *; [lia| |].
  - destruct k as [|k]; [lia|]. cbn. apply le_n_S, IH; unfold ins; lia.
  - apply le_n_S, IH; unfold ins; lia.
Qed.

(** ** Programs that follow a conversation *)

Definition runs {A} (m : M A) (fs : FS) (tr : trace) (a : A) (fs' : FS) : Prop :=
  (forall rest closed out err,
     m (mkSession (ins tr ++ rest) closed out err None fs) = (Done a, mkSession rest closed (out ++ outs tr) err None fs')) /\
  (forall k out err, k < length (ins tr) -> exists s,
     m (mkSession (take k (ins tr)) false out err None fs) = (Waiting, s) /\ s_out s = out ++ outs (cut tr k)).

Lemma runs_ext {A} (m m' : M A) fs tr a fs' : (forall s, m s = m' s) -> runs m' fs tr a fs' -> runs m fs tr a fs'.
Proof.
  intros He [H1 H2]. split; [intros; by rewrite He|]. intros k out err Hk.
  destruct (H2 k out err Hk) as (s & ? & ?). exists s. by rewrite He.
Qed.

Lemma runs_bind {A B} (m : M A) (k : A -> M B) fs fs1 fs2 t1 t2 a b :
  runs m fs t1 a fs1 -> runs (k a) fs1 t2 b fs2 -> runs (bind m k) fs (t1 ++ t2) b fs2.
Proof.
  intros [M1 M2] [K1 K2]. unfold bind. split.
  - intros rest closed out err. by rewrite ins_app, outs_app, <- (assoc_L (++)), M1, K1, <- (assoc_L (++)).
  - intros n out err Hn. rewrite ins_app in *. rewrite length_app in Hn. destruct (decide (n < length (ins t1))) as [Hlt|Hge].
    + rewrite take_app_le by lia. destruct (M2 n out err Hlt) as (s & -> & Hs). exists s. by rewrite cut_app_l.
    + replace n with (length (ins t1) + (n - length (ins t1))) by lia. rewrite take_app_add, M1, cut_app_r, outs_app, (assoc_L (++)).
      apply K2. lia.
Qed.

Lemma runs_ret {A} (a : A) fs : runs (ret a) fs [] a fs.
Proof. split; [intros; unfold ret; cbn; by rewrite app_nil_r|intros k ? ? Hk; cbn in Hk; lia]. Qed.

(** A step that neither reads nor writes, and the last one of a sequence. *)
Lemma runs_pure {A B} (m : M A) (k : A -> M B) fs fs1 fs2 tr a b :
  runs m fs [] a fs1 -> runs (k a) fs1 tr b fs2 -> runs (bind m k) fs tr b fs2.
Proof. apply runs_bind. Qed.
Lemma runs_end {A} (m : M A) fs tr a fs' : runs m fs (tr ++ []) a fs' -> runs m fs tr a fs'.
Proof. by rewrite app_nil_r. Qed.

Lemma runs_write bs fs : runs (write bs) fs (writes bs) () fs.
Proof.
  split; [|intros k ? ?; rewrite ins_writes; cbn; lia]. intros. rewrite ins_writes, outs_writes. done.
Qed.
Lemma runs_readByte c fs : runs readByte fs [In c] c fs.
Proof.
  split; [intros; unfold readByte; cbn; by rewrite app_nil_r|]. intros k out err Hk. cbn in Hk. assert (k = 0) as -> by lia.
  eexists. split; [done|]. cbn. by rewrite app_nil_r.
Qed.

Lemma until_found delim w rest : delim ∉ w -> until delim (w ++ delim :: rest) = Some (w, rest).
Proof.
  induction w as [|c w IH]; cbn; [by rewrite Ascii.eqb_refl|]. intros [Hne Hw]%not_elem_of_cons.
  destruct (Ascii.eqb_spec c delim); [by subst|]. by rewrite IH.
Qed.
Lemma until_none delim w : delim ∉ w -> until delim w = None.
Proof.
  induction w as [|c w IH]; cbn; [done|]. intros [Hne Hw]%not_elem_of_cons.
  destruct (Ascii.eqb_spec c delim); [by subst|]. by rewrite IH.
Qed.
Lemma cut_reads w k : cut (reads w) k = reads (take k w).
Proof. revert k. induction w as [|c w IH]; intros [|k]; cbn; [done..|]. f_equal. apply IH. Qed.

Lemma runs_readString delim w fs : delim ∉ w -> runs (readString delim) fs (reads (w ++ [delim])) w fs.
Proof.
  intros Hw. unfold readString. split.
  - intros. rewrite ins_reads, outs_reads, app_nil_r, <- (assoc_L (++)). cbn. by rewrite until_found.
  - intros k out err. rewrite ins_reads, length_app; cbn. intros Hk. rewrite take_app_le by lia.
    rewrite until_none by (rewrite <- (take_drop k w) in Hw; set_solver). eexists. split; [done|]. cbn.
    by rewrite cut_reads, outs_reads, app_nil_r.
Qed.

Lemma runs_copy_to_file p data n fs : n = Z.of_nat (length data) ->
  runs (copy_to_file p n) fs (reads data) () (append_data p data fs).
Proof.
  intros ->. unfold copy_to_file. split.
  - intros. rewrite ins_reads, outs_reads, app_nil_r, Nat2Z.id. cbn. rewrite take_app_length, drop_app_length. by rewrite bool_decide_true.
  - intros k out err. rewrite ins_reads. intros Hk. rewrite Nat2Z.id. cbn. rewrite bool_decide_false.
    + eexists. split; [done|]. cbn. by rewrite cut_reads, outs_reads, app_nil_r.
    + rewrite !length_take. lia.
Qed.

Lemma runs_fs_op f fs fs' : f fs = inr fs' -> runs (fs_op f) fs [] () fs'.
Proof. intros Hf. split; [intros; unfold fs_op; cbn; by rewrite Hf, app_nil_r|intros k ? ? Hk; cbn in Hk; lia]. Qed.
Lemma runs_fs_stat os p fs : runs (fs_stat os p) fs [] (Stat os fs p) fs.
Proof. split; [intros; unfold fs_stat; cbn; by rewrite app_nil_r|intros k ? ? Hk; cbn in Hk; lia]. Qed.
Lemma runs_parse r s z fs : r = Some z -> runs (parse r s) fs [] z fs.
Proof. intros ->. apply runs_ret. Qed.

Lemma runs_attempt {A} (m : M A) fs tr a fs' : runs m fs tr a fs' -> runs (attempt m) fs tr (inr a) fs'.
Proof.
  intros [H1 H2]. unfold attempt. split; [intros; by rewrite H1|]. intros k out err Hk.
  destruct (H2 k out err Hk) as (s & -> & Hs). by exists s.
Qed.
Lemma runs_reporting Error m fs tr fs' : runs m fs tr () fs' -> runs (reporting Error m) fs tr () fs'.
Proof. intros H. apply runs_end. eapply runs_bind; [by apply runs_attempt|]. apply runs_ret. Qed.

(** Looking at the byte that is read next. *)
Lemma runs_peek {B} (k : ascii -> M B) c fs tr b fs' : runs (k c) fs (In c :: tr) b fs' -> runs (bind peekByte k) fs (In c :: tr) b fs'.
Proof.
  intros [K1 K2]. split; [intros; apply K1|]. intros n out err Hn. destruct n as [|n].
  - eexists. split; [done|]. cbn. by rewrite app_nil_r.
  - apply (K2 (S n) out err Hn).
Qed.

Lemma bind_bind {A B C} (m : M A) (k : A -> M B) (l : B -> M C) s : bind (bind m k) l s = bind m (fun a => bind (k a) l) s.
Proof. unfold bind. by destruct (m s) as [[] ?]. Qed.
Lemma bind_ret {A B} (a : A) (k : A -> M B) s : bind (ret a) k s = k a s.
Proof. done. Qed.

(** ** Both sides *)

(** A side that ends when the other one closes after the conversation. *)
Definition serves (m : M ()) (fs : FS) (tr : trace) (fs' : FS) : Prop :=
  (forall k, k < length (ins tr) -> exists s, m (session (take k (ins tr)) false fs) = (Waiting, s) /\ s_out s = outs (cut tr k)) /\
  (exists s, m (session (ins tr) false fs) = (Waiting, s) /\ s_out s = outs tr) /\
  (exists s, m (session (ins tr) true fs) = (Done (), s) /\ s_out s = outs tr /\ s_fs s = fs').

Lemma length_ins_prefix t1 t2 : t1 `prefix_of` t2 -> outs t1 `prefix_of` outs t2 /\ ins t1 `prefix_of` ins t2.
Proof. intros [t ->]. rewrite outs_app, ins_app. split; by apply prefix_app_r. Qed.

Lemma cut_outs tr k q : q <= length tr -> length (ins (take q tr)) <= k -> length (outs (take q tr)) <= length (outs (cut tr k)).
Proof.
  intros Hq Hk. pose proof (cut_reaches tr k q Hq Hk) as Hr. destruct (cut_prefix tr k) as [t Ht].
  assert (take q tr `prefix_of` cut tr k) as [Hp _]%length_ins_prefix; [|by apply prefix_length].
  rewrite Ht at 1. rewrite take_app_le by done. apply prefix_take.
Qed.

(** What has been said after a round: a part of the conversation that reaches [q]. *)
Record said (tr : trace) (fs' : FS) (q : nat) (x : exchange) : Prop := mkSaid {
  said_sent : x_sent x `prefix_of` outs tr;
  said_answered : x_answered x `prefix_of` ins tr;
  said_sent_q : length (outs (take q tr)) <= length (x_sent x);
  said_answered_q : length (ins (take q tr)) <= length (x_answered x);
  said_sender : x_sender x = Waiting \/ x_sender x = Done () /\ x_sent x = outs tr;
  said_receiver : x_receiver x = Waiting \/ x_receiver x = Done () /\ x_answered x = ins tr /\ x_fs x = fs' }.

Lemma prefix_take_length {A} (l1 l2 : list A) : l1 `prefix_of` l2 -> l1 = take (length l1) l2.
Proof. intros [l ->]. by rewrite take_app_length. Qed.
Lemma prefix_full {A} (l1 l2 : list A) : l1 `prefix_of` l2 -> length l2 <= length l1 -> l1 = l2.
Proof. intros [l ->]. rewrite length_app. intros. destruct l; [by rewrite app_nil_r|]. cbn in *. lia. Qed.

Lemma sender_says m tr fs' q x : runs m ∅ tr () ∅ -> said tr fs' q x -> q <= length tr -> exists o s,
  m (session (x_answered x) (over (x_receiver x)) ∅) = (o, s) /\ s_out s `prefix_of` outs tr /\
  (forall q', q' <= length tr -> length (ins (take q' tr)) <= length (x_answered x) -> length (outs (take q' tr)) <= length (s_out s)) /\
  (o = Waiting \/ o = Done () /\ s_out s = outs tr) /\ (x_answered x = ins tr -> o = Done ()).
Proof.
  intros [H1 H2] Hx Hq. destruct (decide (length (x_answered x) < length (ins tr))) as [Hlt|Hge].
  - assert (over (x_receiver x) = false) as ->.
    { destruct (said_receiver _ _ _ _ Hx) as [->|(-> & Ha & _)]; [done|]. rewrite Ha in Hlt. lia. }
    destruct (H2 (length (x_answered x)) [] [] Hlt) as (s & Hm & Hs). rewrite <- (prefix_take_length _ _ (said_answered _ _ _ _ Hx)) in Hm.
    exists Waiting, s. split_and!; [done| | |by left|intros Ha; rewrite Ha in Hlt; lia]; rewrite Hs.
    + apply length_ins_prefix, cut_prefix.
    + intros q' Hq' Hl. by apply cut_outs.
  - rewrite (prefix_full _ _ (said_answered _ _ _ _ Hx)) by lia. pose proof (H1 [] (over (x_receiver x)) [] []) as Hm.
    rewrite app_nil_r in Hm. exists (Done ()). eexists. split; [exact Hm|]. split_and!; [done| |by right|done].
    intros q' _ _. apply prefix_length, length_ins_prefix, prefix_take.
Qed.

Lemma receiver_says m tr fs fs' q x : serves m fs (dual tr) fs' -> said tr fs' q x -> q <= length tr -> exists o s,
  m (session (x_sent x) (over (x_sender x)) fs) = (o, s) /\ s_out s `prefix_of` ins tr /\
  (forall q', q' <= length tr -> length (outs (take q' tr)) <= length (x_sent x) -> length (ins (take q' tr)) <= length (s_out s)) /\
  (o = Waiting \/ o = Done () /\ s_out s = ins tr /\ s_fs s = fs') /\ (x_sender x = Done () -> o = Done ()).
Proof.
  unfold serves. rewrite !ins_dual, !outs_dual. intros (H1 & (s2 & H2 & Hs2) & (s3 & H3 & Hs3 & Hfs)) Hx Hq.
  destruct (decide (length (x_sent x) < length (outs tr))) as [Hlt|Hge].
  - destruct (said_sender _ _ _ _ Hx) as [Hw|[_ Ha]]; [|rewrite Ha in Hlt; lia].
    destruct (H1 (length (x_sent x)) Hlt) as (s & Hm & Hs). rewrite <- (prefix_take_length _ _ (said_sent _ _ _ _ Hx)) in Hm.
    exists Waiting, s. rewrite Hw. split_and!; [done| | |by left|done]; rewrite Hs.
    + rewrite <- (outs_dual tr). apply length_ins_prefix, cut_prefix.
    + intros q' Hq' Hl. pose proof (cut_outs (dual tr) (length (x_sent x)) q') as Hc.
      rewrite take_dual, ins_dual, outs_dual, length_dual in Hc. by apply Hc.
  - rewrite (prefix_full _ _ (said_sent _ _ _ _ Hx)) by lia.
    assert (forall q', length (ins (take q' tr)) <= length (ins tr)) as Hl by (intros; apply prefix_length, length_ins_prefix, prefix_take).
    destruct (said_sender _ _ _ _ Hx) as [->|[-> _]]; cbn.
    + exists Waiting, s2. rewrite Hs2. split_and!; [done|done|by intros|by left|done].
    + exists (Done ()), s3. rewrite Hs3. split_and!; [done|done|by intros|by right|done].
Qed.

Lemma said_next sender receiver tr fs fs' q x :
  runs sender ∅ tr () ∅ -> serves receiver fs (dual tr) fs' -> q <= length tr -> said tr fs' q x ->
  said tr fs' (S q `min` length tr) (round sender receiver fs x) /\
  (q = length tr -> x_sender (round sender receiver fs x) = Done ()) /\
  (x_sender x = Done () -> x_receiver (round sender receiver fs x) = Done ()).
Proof.
  intros HS HR Hq Hx. unfold round.
  destruct (sender_says _ _ _ _ _ HS Hx Hq) as (so & ss & -> & Hs1 & Hs2 & Hs3 & Hs4).
  destruct (receiver_says _ _ _ _ _ _ HR Hx Hq) as (ro & rs & -> & Hr1 & Hr2 & Hr3 & Hr4).
  destruct Hx as [Hx1 Hx2 Hx3 Hx4 _ _]. split_and!; [|intros ->; cbn|done].
  2:{ apply Hs4, prefix_full; [done|]. by rewrite firstn_all in Hx4. }
  destruct (decide (q = length tr)) as [->|Hne].
  { rewrite Nat.min_r by lia. split; cbn; try done; [by apply Hs2|by apply Hr2]. }
  rewrite Nat.min_l by lia. destruct (lookup_lt_is_Some_2 tr q ltac:(lia)) as [e He].
  assert (ins (take (S q) tr) = ins (take q tr) ++ ins [e] /\ outs (take (S q) tr) = outs (take q tr) ++ outs [e]) as [Hi Ho].
  { rewrite (take_S_r _ _ _ He). by rewrite ins_app, outs_app. }
  destruct e as [c|c]; cbn in Hi, Ho; try rewrite app_nil_r in Hi; try rewrite app_nil_r in Ho; split; cbn [x_sent x_answered x_sender x_receiver x_fs]; try done.
  - rewrite Ho. by apply Hs2.
  - apply Hr2; [lia|]. by rewrite Ho.
  - apply Hs2; [lia|]. by rewrite Hi.
  - rewrite Hi. by apply Hr2.
Qed.

(** Two sides with dual conversations complete them: after as many rounds as it has
    bytes, and two more to close. *)
Lemma exchange_completes sender receiver tr fs fs' n :
  runs sender ∅ tr () ∅ -> serves receiver fs (dual tr) fs' -> length tr + 2 <= n ->
  exchanged sender receiver fs n = mkExchange (outs tr) (Done ()) (ins tr) (Done ()) fs'.
Proof.
  intros HS HR. assert (forall n, said tr fs' (n `min` length tr) (exchanged sender receiver fs n) /\
    (length tr < n -> x_sender (exchanged sender receiver fs n) = Done ()) /\
    (length tr + 1 < n -> x_receiver (exchanged sender receiver fs n) = Done ())) as Hall.
  { intros k. induction k as [|k (IH1 & IH2 & IH3)].
    - split; [|lia]. rewrite Nat.min_0_l. split; cbn; try apply prefix_nil; by auto.
    - change (exchanged sender receiver fs (S k)) with (round sender receiver fs (exchanged sender receiver fs k)).
      destruct (said_next _ _ _ _ _ _ _ HS HR (Nat.le_min_r _ _) IH1) as (N1 & N2 & N3). split_and!.
      + by replace (S k `min` length tr) with (S (k `min` length tr) `min` length tr) by lia.
      + intros Hk. apply N2. lia.
      + intros Hk. apply N3, IH2. lia. }
  intros Hn. destruct (Hall n) as ([H1 H2 H3 H4 H5 H6] & H7 & H8). specialize (H7 ltac:(lia)). specialize (H8 ltac:(lia)).
  rewrite H7, H8 in *. destruct H5 as [?|[_ H5]]; [done|]. destruct H6 as [?|(_ & H6 & H6')]; [done|].
  destruct exchanged; cbn in *. by subst.
Qed.
