(* ===== verification/ScpProps.v ===== *)
(** * What is sent is what is received

    The conversation of a sender about a tree, that the receiver has the dual one and
    installs the tree, and that the receiver's fuel suffices. *)
From Stdlib Require Import ZArith Lia Ascii.
From S2P Require Import Prelude GoStrings Scp ScpTrace.

(** ** The conversation about a tree *)

Definition time_text (info : FileInfo) : chars :=
  text "T" ++ print_d (fi_ModTime info) ++ text " 0 " ++ print_d (default 0%Z (fi_AccessTime info)) ++ text " 0" ++ [NEWLINE].
Definition file_text (info : FileInfo) : chars :=
  text "C" ++ print_4o (Z.land (fi_Mode info) 4095) ++ [SPACE] ++ print_d (fi_Size info) ++ [SPACE] ++ fi_Name info ++ [NEWLINE].
Definition dir_text (info : FileInfo) : chars :=
  text "D" ++ print_4o (Z.land (fi_Mode info) 4095) ++ text " 0 " ++ fi_Name info ++ [NEWLINE].

Definition ok_in : trace := [In (ack 0)].
Definition time_trace (preserve : bool) (info : FileInfo) : trace := if preserve then writes (time_text info) ++ ok_in else [].

Definition file_trace (info : FileInfo) (content : chars) : trace :=
  writes (file_text info) ++ ok_in ++ writes content ++ [Out (ack 0)] ++ ok_in.
Definition dir_trace (info : FileInfo) (entries : trace) : trace :=
  writes (dir_text info) ++ ok_in ++ entries ++ writes (text "E" ++ [NEWLINE]) ++ ok_in.

Fixpoint tree_trace (preserve : bool) (t : source) : trace :=
  match t with
  | Unreadable _ => []
  | SFile info content => time_trace preserve info ++ file_trace info content
  | SDir info entries =>
      time_trace preserve info ++
      dir_trace info (match entries with inl _ => [] | inr l => concat (tree_trace preserve <$> l) end)
  end.

(** ** Trees that can be sent *)

Definition source_name (t : source) : chars :=
  match t with Unreadable _ => [] | SFile info _ => fi_Name info | SDir info _ => fi_Name info end.

Definition name_ok (n : chars) : bool :=
  bool_decide (n <> [] /\ n <> dot /\ n <> dotdot) && bool_decide (slash ∉ n) && bool_decide (NEWLINE ∉ n).
Definition time_ok (z : Z) : bool := ((0 <=? z) && (z <? 2 ^ 63))%Z.
Definition info_ok (info : FileInfo) : bool :=
  name_ok (fi_Name info) && time_ok (fi_ModTime info) && time_ok (default 0%Z (fi_AccessTime info)).

(** Readable, with names that fit the protocol and times since the epoch, files of the
    size they say. *)
Fixpoint copyable (t : source) : bool :=
  match t with
  | Unreadable _ => false
  | SFile info content =>
      info_ok info && bool_decide (fi_Size info = Z.of_nat (length content)) && (fi_Size info <? 2 ^ 63)%Z
  | SDir info (inl _) => false
  | SDir info (inr l) => info_ok info && forallb copyable l && bool_decide (NoDup (source_name <$> l))
  end.

Section SourceInd.
Context (P : source -> Prop) (HU : forall e, P (Unreadable e)) (HF : forall info content, P (SFile info content))
  (HE : forall info e, P (SDir info (inl e))) (HD : forall info l, Forall P l -> P (SDir info (inr l))).
Fixpoint source_tree_ind (t : source) : P t :=
  match t with
  | Unreadable e => HU e
  | SFile info content => HF info content
  | SDir info (inl e) => HE info e
  | SDir info (inr l) => HD info l ((fix all l := match l return Forall P l with [] => Forall_nil_2 P | c :: l => Forall_cons_2 P c l (source_tree_ind c) (all l) end) l)
  end.
End SourceInd.

Lemma forallb_Forall {A} (f : A -> bool) l : forallb f l = true <-> Forall (fun x => f x = true) l.
Proof. rewrite Forall_forall. rewrite forallb_forall. by setoid_rewrite <- list_elem_of_In. Qed.

(** ** The sender *)

Section Sender.
Context (Error : scp_error -> chars) (fs : FS).

Lemma runs_await : runs awaitConfirmation fs ok_in () fs.
Proof. apply runs_end. eapply runs_bind; [apply runs_readByte|]. apply runs_ret. Qed.
Lemma runs_confirm : runs sendConfirmation fs [Out (ack 0)] () fs.
Proof. apply (runs_write [ack 0]). Qed.

Lemma runs_send_times preserve info : runs (send_times preserve info) fs (time_trace preserve info) () fs.
Proof.
  unfold send_times, time_trace. destruct preserve; [|apply runs_ret].
  eapply runs_bind; [apply runs_write|]. apply runs_await.
Qed.

Lemma runs_SendFile preserve info content : fi_Size info = Z.of_nat (length content) ->
  runs (SendFile preserve info content) fs (time_trace preserve info ++ file_trace info content) () fs.
Proof.
  intros Hsize. unfold SendFile, file_trace. eapply runs_bind; [apply runs_send_times|].
  eapply runs_bind; [apply runs_write|]. eapply runs_bind; [apply runs_await|].
  eapply runs_bind.
  { unfold copy_from_file. rewrite Hsize, Nat2Z.id, firstn_all, Z.ltb_irrefl. apply runs_end. eapply runs_bind; [apply runs_write|apply runs_ret]. }
  eapply runs_bind; [apply runs_confirm|]. apply runs_await.
Qed.

Lemma runs_send_entries preserve l :
  Forall (fun t => copyable t = true -> runs (send Error preserve t) fs (tree_trace preserve t) () fs) l -> forallb copyable l = true ->
  runs (send_entries (send Error preserve <$> l)) fs (concat (tree_trace preserve <$> l)) () fs.
Proof.
  intros Hl. induction Hl as [|t l Ht Hl IH]; cbn; [intros; apply runs_ret|]. intros [Hc Hcs]%andb_true_iff.
  eapply runs_bind; [by apply runs_attempt, Ht|]. by apply IH.
Qed.

Lemma runs_send preserve t : copyable t = true -> runs (send Error preserve t) fs (tree_trace preserve t) () fs.
Proof.
  revert t. refine (source_tree_ind _ _ _ _ _); [done| |done|].
  - intros info content Hc. apply runs_reporting, runs_SendFile. cbn in Hc.
    apply andb_true_iff in Hc as [[_ Hc]%andb_true_iff _]. by apply bool_decide_eq_true in Hc.
  - intros info l IH Hc. apply runs_reporting. cbn in Hc. apply andb_true_iff in Hc as [[_ Hc]%andb_true_iff _].
    unfold sendDirectory, dir_trace. eapply runs_bind; [apply runs_send_times|].
    eapply runs_bind; [apply runs_write|]. eapply runs_bind; [apply runs_await|].
    eapply runs_bind; [by apply runs_send_entries|]. eapply runs_bind; [apply runs_write|]. apply runs_await.
Qed.
End Sender.

(** ** The tree at the receiver *)

Section Receiver.
Context (os : OS) (preserve : bool).

Definition delivered_times (info : FileInfo) : option (Z * Z) :=
  if preserve then Some (default 0%Z (fi_AccessTime info), fi_ModTime info) else None.
Definition created_mode (info : FileInfo) : Z := Z.ldiff (Z.land (fi_Mode info) 511) (os_umask os).

(** What an entry becomes: the umask applies, except to files whose mode is preserved. *)
Definition delivered (t : source) : option fnode :=
  match t with
  | Unreadable _ => None
  | SFile info content => Some (FFile (if preserve then Z.land (fi_Mode info) 511 else created_mode info) (delivered_times info) content)
  | SDir info _ => Some (FDir (created_mode info) (delivered_times info))
  end.

(** What is at a path relative to an entry. *)
Fixpoint tree_at (t : source) (rel : list chars) : option fnode :=
  match rel with
  | [] => delivered t
  | n :: rel =>
      match t with
      | SDir _ (inr l) => match list_find (fun c => source_name c = n) l with Some (_, c) => tree_at c rel | None => None end
      | _ => None
      end
  end.

(** Copying as a function on file systems: the entry in a directory. *)
Fixpoint install (t : source) (dir : list chars) (fs : FS) : FS :=
  let q := dir ++ [source_name t] in
  match t with
  | SDir info (inr l) =>
      <[q := FDir (created_mode info) (delivered_times info)]>
        (foldl (fun fs c => install c q fs) (<[q := FDir (created_mode info) None]> (touch dir fs)) l)
  | _ => match delivered t with Some n => <[q := n]> (touch dir fs) | None => fs end
  end.

Definition directory (fs : FS) (dir : list chars) : Prop := forall k, k <= length dir -> exists m t, fs !! take k dir = Some (FDir m t).
Definition nothing_under (fs : FS) (p : list chars) : Prop := forall rel, fs !! (p ++ rel) = None.

Lemma directory_lookup fs dir : directory fs dir -> exists m t, fs !! dir = Some (FDir m t).
Proof. intros H. destruct (H (length dir)) as (m & t & Hd); [done|]. rewrite firstn_all in Hd. eauto. Qed.

Lemma lookup_touch dir fs p : touch dir fs !! p = if decide (p = dir) then (fun n => match n with FDir m _ => FDir m None | f => f end) <$> fs !! p else fs !! p.
Proof. unfold touch. destruct (decide (p = dir)) as [->|]; [by rewrite lookup_alter_eq|by rewrite lookup_alter_ne]. Qed.

Lemma lookup_touch_ne dir fs p : p <> dir -> touch dir fs !! p = fs !! p.
Proof. intros Hne. by rewrite lookup_touch, decide_False. Qed.

Lemma child_prefix (q : list chars) n m rel : (q ++ [n]) `prefix_of` (q ++ m :: rel) -> n = m.
Proof. intros H%prefix_app_inv. by apply prefix_cons_inv_1 in H. Qed.
Lemma parent_not_under (q : list chars) n : ~ (q ++ [n]) `prefix_of` q.
Proof. intros H%prefix_length. rewrite length_app in H. cbn in H. lia. Qed.

(** Elsewhere nothing changes, but the times of the directory. *)
Lemma install_other t dir fs p : copyable t = true -> ~ (dir ++ [source_name t]) `prefix_of` p -> install t dir fs !! p = touch dir fs !! p.
Proof.
  revert t dir fs. refine (source_tree_ind _ _ _ _ _); [done| |done|].
  - intros info content dir fs _ Hp. cbn in *. rewrite lookup_insert_ne; [done|]. by intros <-.
  - intros info l IH dir fs Hc Hp. cbn in *. set (q := dir ++ [fi_Name info]) in *.
    assert (forall fs', foldl (fun fs c => install c q fs) fs' l !! p = fs' !! p) as Hl.
    { apply andb_true_iff in Hc as [[_ Hc]%andb_true_iff _]. clear -IH Hc Hp.
      induction IH as [|c l Hcl _ IHl]; [done|]. cbn in *. apply andb_true_iff in Hc as [Hc Hcs]. intros fs'.
      rewrite IHl, Hcl by (done || intros [r ->]; apply Hp; exists (source_name c :: r); by rewrite <- (assoc_L (++))).
      apply lookup_touch_ne. by intros ->. }
    rewrite lookup_insert_ne, Hl by (intros <-; by apply Hp). rewrite lookup_insert_ne; [done|]. intros <-. by apply Hp.
Qed.

Lemma install_parent t dir fs m tm : copyable t = true -> fs !! dir = Some (FDir m tm) -> install t dir fs !! dir = Some (FDir m None).
Proof. intros Hc Hd. rewrite install_other by (done || apply parent_not_under). rewrite lookup_touch, decide_True by done. by rewrite Hd. Qed.

Lemma install_keeps t dir fs n rel : copyable t = true -> n <> source_name t -> install t dir fs !! (dir ++ n :: rel) = fs !! (dir ++ n :: rel).
Proof.
  intros Hc Hn. rewrite install_other; [apply lookup_touch_ne|done|by intros ?%child_prefix].
  intros H. apply (f_equal length) in H. rewrite length_app in H. cbn in H. lia.
Qed.

Definition install_all (l : list source) (q : list chars) (fs : FS) : FS := foldl (fun fs c => install c q fs) fs l.

Lemma install_all_parent l q fs m : forallb copyable l = true -> fs !! q = Some (FDir m None) -> install_all l q fs !! q = Some (FDir m None).
Proof.
  revert fs. induction l as [|c l IH]; [done|]. intros fs [Hc Hcs]%andb_true_iff Hq. apply IH; [done|]. by eapply install_parent.
Qed.

Definition found_at (l : list source) (n : chars) (rel : list chars) : option fnode :=
  match list_find (fun c => source_name c = n) l with Some (_, c) => tree_at c rel | None => None end.

Lemma install_all_at l q fs n rel :
  Forall (fun t => copyable t = true -> forall dir fs rel, nothing_under fs (dir ++ [source_name t]) ->
    install t dir fs !! (dir ++ source_name t :: rel) = tree_at t rel) l ->
  forallb copyable l = true -> NoDup (source_name <$> l) -> Forall (fun t => nothing_under fs (q ++ [source_name t])) l ->
  install_all l q fs !! (q ++ n :: rel) = if decide (n ∈ source_name <$> l) then found_at l n rel else fs !! (q ++ n :: rel).
Proof.
  intros Hl. revert fs. induction Hl as [|c l Hcl Hl IH]; intros fs; cbn [forallb fmap list_fmap].
  { intros _ _ _. by rewrite decide_False by apply not_elem_of_nil. }
  intros [Hc Hcs]%andb_true_iff [Hnin Hnd]%NoDup_cons [Hf Hfs]%Forall_cons.
  change (install_all (c :: l) q fs) with (install_all l q (install c q fs)). unfold found_at; cbn [list_find]. rewrite IH; [|done..|].
  - destruct (decide (source_name c = n)) as [<-|Hne].
    + rewrite decide_False by done. rewrite decide_True by set_solver. by apply Hcl.
    + rewrite install_keeps by done. unfold found_at. destruct (list_find _ l) as [[i d]|] eqn:E; cbn; repeat case_decide; set_solver.
  - rewrite Forall_forall in Hfs |- *. intros t Ht r. specialize (Hfs t Ht r). rewrite <- (assoc_L (++)) in *. cbn.
    rewrite install_keeps; [done..|]. intros Heq. apply Hnin. rewrite <- Heq. by apply list_elem_of_fmap_2.
Qed.

(** The entry is there, as it was at the sender. *)
Lemma install_at t : copyable t = true -> forall dir fs rel, nothing_under fs (dir ++ [source_name t]) ->
  install t dir fs !! (dir ++ source_name t :: rel) = tree_at t rel.
Proof.
  revert t. refine (source_tree_ind _ _ _ _ _); [done| |done|].
  - intros info content _ dir fs rel Hn. cbn. destruct rel as [|n rel]; cbn; [by rewrite lookup_insert_eq|].
    rewrite lookup_insert_ne by (intros [=]%app_inv_head). rewrite lookup_touch_ne.
    + specialize (Hn (n :: rel)). by rewrite <- (assoc_L (++)) in Hn.
    + intros H. apply (f_equal length) in H. rewrite length_app in H. cbn in H. lia.
  - intros info l IH Hc dir fs rel Hn. cbn in Hc. apply andb_true_iff in Hc as [[_ Hc]%andb_true_iff Hnd%bool_decide_eq_true].
    cbn in *. set (q := dir ++ [fi_Name info]) in *.
    replace (dir ++ fi_Name info :: rel) with (q ++ rel) by (unfold q; by rewrite <- (assoc_L (++))).
    destruct rel as [|n rel]; cbn; [by rewrite app_nil_r, lookup_insert_eq|].
    assert (forall n' rel', (<[q:=FDir (created_mode info) None]> (touch dir fs) : FS) !! (q ++ n' :: rel') = None) as Hnew.
    { intros n' rel'. rewrite lookup_insert_ne, lookup_touch_ne; [apply Hn| |]; intros H; apply (f_equal length) in H; unfold q in H;
        rewrite !length_app in H; cbn in H; lia. }
    rewrite lookup_insert_ne by (intros H; apply (f_equal length) in H; rewrite length_app in H; cbn in H; lia).
    fold (install_all l q (<[q:=FDir (created_mode info) None]> (touch dir fs))). rewrite install_all_at; [|done..|].
    + fold (found_at l n rel). case_decide as Hin; [done|]. rewrite Hnew. unfold found_at. destruct (list_find _ l) as [[i c]|] eqn:E; [|done].
      apply list_find_Some in E as (E & <- & _). exfalso. apply Hin. by eapply list_elem_of_fmap_2, list_elem_of_lookup_2.
    + apply Forall_forall. intros c _ r. rewrite <- (assoc_L (++)). apply Hnew.
Qed.

(** ** Receiving *)

Context (Hos : forall op p, os_fails os op p = None).

Lemma resolve_absolute parts : Forall simple parts -> resolve os (absolute parts) = parts.
Proof.
  intros Hs. unfold resolve. rewrite bool_decide_true by done. change (absolute parts) with ([] ++ slash :: join slash parts).
  rewrite Split_cons by apply not_elem_of_nil. cbn [clean_parts]. rewrite bool_decide_true by by left.
  destruct parts as [|p parts]; [done|]. rewrite Split_join; [by apply (clean_parts_simple [])|done|].
  eapply list.Forall_impl; [exact Hs|]. by intros q (_ & _ & _ & ?).
Qed.
Lemma Join_child parts n : Forall simple parts -> simple n -> Join [absolute parts; n] = absolute (parts ++ [n]).
Proof.
  intros Hs Hn. rewrite Join_absolute by done. destruct parts as [|p parts]; [done|].
  rewrite with_slash_absolute by done. unfold absolute. rewrite join_snoc by done. by rewrite <- (assoc_L (++)).
Qed.

Lemma name_ok_simple n : name_ok n = true -> simple n /\ NEWLINE ∉ n.
Proof.
  unfold name_ok, simple. intros [[H1%bool_decide_eq_true H2%bool_decide_eq_true]%andb_true_iff H3%bool_decide_eq_true]%andb_true_iff.
  naive_solver.
Qed.
Lemma time_ok_range z : time_ok z = true -> (0 <= z < 2 ^ 63)%Z.
Proof. unfold time_ok. intros [? ?]%andb_true_iff. lia. Qed.
Lemma info_ok_inv info : info_ok info = true ->
  simple (fi_Name info) /\ NEWLINE ∉ fi_Name info /\ (0 <= fi_ModTime info < 2 ^ 63)%Z /\ (0 <= default 0%Z (fi_AccessTime info) < 2 ^ 63)%Z.
Proof.
  unfold info_ok. intros [[[? ?]%name_ok_simple ?%time_ok_range]%andb_true_iff ?%time_ok_range]%andb_true_iff. done.
Qed.

Lemma space_plain s : Forall plain s -> SPACE ∉ s.
Proof. apply plain_not. by intros [H _]. Qed.
Lemma zero_space : SPACE ∉ text "0".
Proof. by apply space_plain; repeat constructor. Qed.

Lemma zero_newline : NEWLINE ∉ text "0".
Proof. apply plain_not; [by intros [H _]|by repeat constructor]. Qed.

Lemma reads_app a b : reads (a ++ b) = reads a ++ reads b.
Proof. apply fmap_app. Qed.

Lemma runs_time_Receive info fs : info_ok info = true ->
  runs time_Receive fs (reads (time_text info) ++ [Out (ack 0)]) (NewTimeMessage info) fs.
Proof.
  intros (_ & _ & Hm & Ha)%info_ok_inv. apply runs_end.
  replace (reads (time_text info) ++ [Out (ack 0)]) with
    ([In "T"] ++ reads (print_d (fi_ModTime info) ++ [SPACE]) ++ reads (text "0" ++ [SPACE]) ++
     reads (print_d (default 0%Z (fi_AccessTime info)) ++ [SPACE]) ++ reads (text "0" ++ [NEWLINE]) ++ [Out (ack 0)]).
  2:{ unfold time_text. rewrite !reads_app, <- !(assoc_L (++)). done. }
  rewrite <- !(assoc_L (++)). unfold time_Receive. eapply runs_bind; [apply runs_readByte|]. cbn [Ascii.eqb negb].
  eapply runs_bind; [apply runs_readString, space_plain, print_d_plain; lia|].
  eapply runs_pure; [apply runs_parse, ParseUint_print_d; lia|].
  eapply runs_bind; [apply runs_readString, zero_space|].
  eapply runs_bind; [apply runs_readString, space_plain, print_d_plain; lia|].
  eapply runs_pure; [apply runs_parse, ParseUint_print_d; lia|].
  eapply runs_bind; [apply runs_readString, zero_newline|].
  eapply runs_bind; [apply runs_confirm|]. rewrite !i64_id by (unfold in_i64; lia). apply runs_ret.
Qed.

Definition times_of (info : FileInfo) : option TimeMessage := if preserve then Some (NewTimeMessage info) else None.

Lemma runs_receive_times {B} (k : option TimeMessage * ascii -> M B) info c tr fs b fs' : info_ok info = true -> c <> "T"%char ->
  runs (k (times_of info, c)) fs (In c :: tr) b fs' ->
  runs (bind (receive_times preserve) k) fs (dual (time_trace preserve info) ++ In c :: tr) b fs'.
Proof.
  intros Hi Hc Hk. unfold times_of, time_trace, receive_times in *. eapply runs_ext; [intros s; apply bind_bind|]. destruct preserve.
  - rewrite dual_app, dual_writes, <- (assoc_L (++)). change (reads (time_text info)) with (In "T" :: reads (tail (time_text info))). cbn [app].
    apply runs_peek. cbn [Ascii.eqb andb]. eapply runs_ext; [intros s; apply bind_bind|].
    rewrite app_comm_cons. change (In "T" :: reads (tail (time_text info))) with (reads (time_text info)).
    change (dual ok_in ++ In c :: tr) with ([Out (ack 0)] ++ In c :: tr). rewrite (assoc_L (++)).
    eapply runs_bind; [by apply runs_time_Receive|]. eapply runs_ext; [intros s; apply bind_bind|]. by apply runs_peek.
  - cbn [dual fmap list_fmap app]. apply runs_peek. rewrite andb_false_r. exact Hk.
Qed.

Lemma syscallMode_perm m : syscallMode (Z.land m 4095) = Z.land m 511.
Proof.
  unfold syscallMode. rewrite !Z.land_spec, <- Z.land_assoc. change (Z.land 4095 511) with 511%Z.
  change (Z.testbit 4095 23) with false. change (Z.testbit 4095 22) with false. change (Z.testbit 4095 20) with false.
  rewrite !andb_false_r. cbn. by rewrite Z.lor_0_r.
Qed.
Lemma parent_child (dir : list chars) n : parent (dir ++ [n]) = dir.
Proof. unfold parent. rewrite length_app. cbn. replace (length dir + 1 - 1) with (length dir) by lia. apply take_app_length. Qed.

Lemma add_child fs dir n node : directory fs dir -> add_entry os (dir ++ [n]) node fs = inr (<[dir ++ [n] := node]> (touch dir fs)).
Proof. intros (m & t & Hd)%directory_lookup. unfold add_entry. by rewrite parent_child, Hd. Qed.

Lemma append_insert (p : list chars) (data : chars) (m : Z) (t : option (Z * Z)) (fs : FS) : append_data p data (<[p := FFile m t []]> fs) = <[p := FFile m None data]> fs.
Proof. unfold append_data. by rewrite alter_insert_eq. Qed.
Lemma Chmod_insert (p : list chars) (mode m : Z) (t : option (Z * Z)) (data : chars) (fs : FS) : Chmod os p mode (<[p := FFile m t data]> fs) = inr (<[p := FFile (syscallMode mode) t data]> fs).
Proof. unfold Chmod, change. by rewrite Hos, lookup_insert_eq, insert_insert_eq. Qed.
Lemma Chtimes_insert (p : list chars) (a m mode : Z) (t : option (Z * Z)) (data : chars) (fs : FS) : Chtimes os p a m (<[p := FFile mode t data]> fs) = inr (<[p := FFile mode (Some (a, m)) data]> fs).
Proof. unfold Chtimes, change. by rewrite Hos, lookup_insert_eq, insert_insert_eq. Qed.

Lemma land_4095 m : (0 <= Z.land m 4095 < 2 ^ 32)%Z.
Proof.
  split; [apply Z.land_nonneg; lia|]. change 4095%Z with (Z.ones 12). rewrite Z.land_ones by lia.
  pose proof (Z.mod_pos_bound m (2 ^ 12)). lia.
Qed.

Lemma runs_ReceiveFile info content parts fs :
  copyable (SFile info content) = true -> Forall simple parts -> directory fs parts -> fs !! (parts ++ [fi_Name info]) = None ->
  runs (ReceiveFile os preserve (absolute parts) true (times_of info)) fs (dual (file_trace info content)) () (install (SFile info content) parts fs).
Proof.
  cbn [copyable]. intros [[Hi Hsize%bool_decide_eq_true]%andb_true_iff Hlt%Z.ltb_lt]%andb_true_iff Hs Hd Hn.
  apply info_ok_inv in Hi as (Hname & Hnl & _ & _). set (q := parts ++ [fi_Name info]) in *.
  assert (resolve os (Join [absolute parts; fi_Name info]) = q) as Hq.
  { rewrite Join_child by done. apply resolve_absolute, Forall_app; split; [done|by constructor]. }
  replace (dual (file_trace info content)) with
    ([In "C"] ++ reads (print_4o (Z.land (fi_Mode info) 4095) ++ [SPACE]) ++ reads (print_d (fi_Size info) ++ [SPACE]) ++
     reads (fi_Name info ++ [NEWLINE]) ++ [Out (ack 0)] ++ reads content ++ ok_in ++ [Out (ack 0)]).
  2:{ unfold file_trace, file_text. rewrite !dual_app, !dual_writes, !reads_app, <- !(assoc_L (++)). done. }
  unfold ReceiveFile. eapply runs_bind; [apply runs_readByte|]. cbn [Ascii.eqb negb].
  eapply runs_bind; [apply runs_readString, space_plain, print_4o_plain|].
  eapply runs_pure; [apply runs_parse, ParseUint_print_4o, land_4095|].
  eapply runs_bind; [apply runs_readString, space_plain, print_d_plain; lia|].
  eapply runs_pure; [apply runs_parse, ParseInt_print_d; lia|].
  eapply runs_bind; [by apply runs_readString|]. eapply runs_bind; [apply runs_confirm|]. rewrite Hq.
  eapply runs_pure; [apply runs_fs_op; unfold OpenFile; rewrite Hos, Hn; by apply add_child|].
  eapply runs_bind; [by apply runs_copy_to_file|]. fold q. rewrite append_insert, syscallMode_perm.
  eapply (runs_pure _ _ _ (<[q := FFile (if preserve then Z.land (fi_Mode info) 511 else created_mode info) None content]> (touch parts fs))).
  { destruct preserve; [apply runs_fs_op; by rewrite Chmod_insert, syscallMode_perm|apply runs_ret]. }
  eapply (runs_pure _ _ _ (install (SFile info content) parts fs)).
  { cbn [install delivered source_name]. unfold times_of, delivered_times. destruct preserve; [apply runs_fs_op; by rewrite Chtimes_insert|apply runs_ret]. }
  eapply runs_bind; [apply runs_await|]. apply runs_confirm.
Qed.

Definition entry_trace (t : source) : trace :=
  match t with
  | Unreadable _ => []
  | SFile info content => file_trace info content
  | SDir info entries => dir_trace info (match entries with inl _ => [] | inr l => concat (tree_trace preserve <$> l) end)
  end.
Definition entry_info (t : source) : FileInfo :=
  match t with SFile info _ | SDir info _ => info | Unreadable _ => mkFileInfo [] false 0 0 0 None end.
Definition entry_type (t : source) : ascii := match t with SDir _ _ => "D"%char | _ => "C"%char end.

(** The function that receives an entry, by its type. *)
Definition receive_entry (fuel : nat) (parts : list chars) (t : source) : M () :=
  match t with
  | SDir info _ => ReceiveDirectory os (processDirectoryMessages os fuel preserve) preserve (absolute parts) (times_of info)
  | _ => ReceiveFile os preserve (absolute parts) true (times_of (entry_info t))
  end.

Lemma tree_entry_trace t : copyable t = true -> tree_trace preserve t = time_trace preserve (entry_info t) ++ entry_trace t.
Proof. by destruct t. Qed.
Lemma entry_trace_head t : copyable t = true -> exists tr, dual (entry_trace t) = In (entry_type t) :: tr.
Proof. destruct t; [done|by eexists|by eexists]. Qed.
Lemma copyable_info t : copyable t = true -> info_ok (entry_info t) = true.
Proof. destruct t as [|? ?|? [|]]; [done| |done|]; cbn; by intros [[? _]%andb_true_iff _]%andb_true_iff. Qed.

Fixpoint weight (t : source) : nat := match t with SDir _ (inr l) => S (sum_list (weight <$> l)) | _ => 1 end.

Lemma runs_process_next {B} (k : () -> M B) fuel parts t fs fs1 rest b fs' : copyable t = true ->
  runs (receive_entry fuel parts t) fs (dual (entry_trace t)) () fs1 ->
  runs (bind (processDirectoryMessages os fuel preserve (absolute parts)) k) fs1 rest b fs' ->
  runs (bind (processDirectoryMessages os (S fuel) preserve (absolute parts)) k) fs (dual (tree_trace preserve t) ++ rest) b fs'.
Proof.
  intros Hc He Hk. rewrite tree_entry_trace, dual_app, <- (assoc_L (++)) by done. cbn [processDirectoryMessages].
  eapply runs_ext; [intros s; apply bind_bind|]. destruct (entry_trace_head t Hc) as [tr Htr]. rewrite Htr. cbn [app].
  apply runs_receive_times; [by apply copyable_info|by destruct t|]. rewrite app_comm_cons, <- Htr.
  destruct t as [e|info content|info entries]; [done|..]; cbn [entry_type entry_info Ascii.eqb]; (eapply runs_ext; [intros s; apply bind_bind|]);
    (eapply runs_bind; [exact He|exact Hk]).
Qed.

Lemma runs_process_end {B} (k : () -> M B) fuel dir fs tr b fs' : runs (k ()) fs (In "E" :: tr) b fs' ->
  runs (bind (processDirectoryMessages os (S fuel) preserve dir) k) fs (In "E" :: tr) b fs'.
Proof.
  intros Hk. cbn [processDirectoryMessages]. unfold receive_times. eapply runs_ext; [intros s; rewrite bind_bind; apply bind_bind|].
  by apply runs_peek.
Qed.

Lemma directory_touch fs dir d : directory fs d -> directory (touch dir fs) d.
Proof.
  intros Hd k Hk. destruct (Hd k Hk) as (m & t & Hl). rewrite lookup_touch, Hl. case_decide; cbn; eauto.
Qed.
Lemma directory_install t fs dir : copyable t = true -> directory fs dir -> directory (install t dir fs) dir.
Proof.
  intros Hc Hd k Hk. rewrite install_other; [by apply directory_touch|done|]. intros H%prefix_length.
  rewrite length_app, length_take in H. cbn in H. lia.
Qed.

Definition received (t : source) : Prop := copyable t = true -> forall fuel parts fs,
  weight t <= fuel -> Forall simple parts -> directory fs parts -> nothing_under fs (parts ++ [source_name t]) ->
  runs (receive_entry fuel parts t) fs (dual (entry_trace t)) () (install t parts fs).

Lemma nothing_under_install t c parts fs : copyable t = true -> source_name c <> source_name t ->
  nothing_under fs (parts ++ [source_name c]) -> nothing_under (install t parts fs) (parts ++ [source_name c]).
Proof. intros Hc Hne Hn rel. specialize (Hn rel). rewrite <- (assoc_L (++)) in *. cbn. by rewrite install_keeps. Qed.

Lemma runs_process_all {B} (k : () -> M B) l fuel parts fs tr b fs' : Forall received l ->
  forallb copyable l = true -> NoDup (source_name <$> l) -> Forall (fun t => nothing_under fs (parts ++ [source_name t])) l ->
  sum_list (weight <$> l) < fuel -> Forall simple parts -> directory fs parts ->
  runs (k ()) (install_all l parts fs) (In "E" :: tr) b fs' ->
  runs (bind (processDirectoryMessages os fuel preserve (absolute parts)) k) fs (dual (concat (tree_trace preserve <$> l)) ++ In "E" :: tr) b fs'.
Proof.
  intros Hl. revert fuel fs. induction Hl as [|t l Ht Hl IH]; intros fuel fs; cbn [forallb fmap list_fmap sum_list concat].
  { intros _ _ _ Hf _ _ Hk. destruct fuel; [lia|]. by apply runs_process_end. }
  intros [Hc Hcs]%andb_true_iff [Hnin Hnd]%NoDup_cons [Hn Hns]%Forall_cons Hf Hs Hd Hk. destruct fuel as [|fuel]; [lia|].
  change (weight t + sum_list (weight <$> l) < S fuel) in Hf. assert (1 <= weight t) by (destruct t as [| |? []]; cbn; lia).
  rewrite dual_app, <- (assoc_L (++)). eapply runs_process_next; [done|apply Ht; [done|lia|done..]|].
  apply IH; [done..| |lia|done|by apply directory_install|done]. rewrite Forall_forall in Hns |- *. intros c Hc'.
  apply nothing_under_install; [done| |by apply Hns]. intros Heq. apply Hnin. rewrite <- Heq. by apply list_elem_of_fmap_2.
Qed.

Lemma Stat_dir fs parts : directory fs parts -> exists m t, Stat os fs parts = inr (FDir m t).
Proof. intros (m & t & Hd)%directory_lookup. exists m, t. unfold Stat. by rewrite Hos, Hd. Qed.
Lemma Stat_child fs parts n : directory fs parts -> fs !! (parts ++ [n]) = None -> Stat os fs (parts ++ [n]) = inl (NotExist (parts ++ [n])).
Proof.
  intros Hd Hn. unfold Stat. rewrite Hos, Hn. assert (blocked_by_file fs (parts ++ [n]) = false) as ->; [|done].
  unfold blocked_by_file. apply not_true_iff_false. rewrite existsb_exists. intros (k & Hk & Hf). apply in_seq in Hk.
  rewrite length_app in Hk. cbn in Hk. destruct (Hd k) as (m & t & Hl); [lia|]. rewrite take_app_le, Hl in Hf by lia. done.
Qed.

Lemma directory_child fs dir n m t : directory fs dir -> directory (<[dir ++ [n] := FDir m t]> (touch dir fs)) (dir ++ [n]).
Proof.
  intros Hd k Hk. rewrite length_app in Hk. cbn in Hk. destruct (decide (k = length dir + 1)) as [->|Hne].
  - rewrite (take_ge (dir ++ [n])) by (rewrite length_app; cbn; lia). rewrite lookup_insert_eq. eauto.
  - rewrite take_app_le by lia. rewrite lookup_insert_ne; [apply directory_touch; [done|lia]|].
    intros H. apply (f_equal length) in H. rewrite length_app, length_take in H. cbn in H. lia.
Qed.

Lemma child_not_under fs dir n m t rel c : nothing_under fs (dir ++ [n]) ->
  (<[dir ++ [n] := FDir m t]> (touch dir fs) : FS) !! ((dir ++ [n]) ++ c :: rel) = None.
Proof.
  intros Hn. rewrite lookup_insert_ne, lookup_touch_ne; [apply Hn| |]; intros H; apply (f_equal length) in H;
    rewrite !length_app in H; cbn in H; lia.
Qed.

Lemma received_dir info l : Forall received l -> received (SDir info (inr l)).
Proof.
  intros IH Hc fuel parts fs Hw Hs Hd Hn. cbn [weight] in Hw. pose proof Hc as Hc0. cbn [copyable] in Hc.
  apply andb_true_iff in Hc as [[(Hname & Hnl & _)%info_ok_inv Hc]%andb_true_iff Hnd%bool_decide_eq_true].
  cbn [source_name] in Hn. set (q := parts ++ [fi_Name info]) in *. cbn [receive_entry].
  assert (Forall simple q) as Hsq by (apply Forall_app; split; [done|by constructor]).
  set (fs1 := <[q := FDir (created_mode info) None]> (touch parts fs)).
  assert (fs !! q = None) as Hq by (specialize (Hn []); by rewrite app_nil_r in Hn).
  replace (dual (entry_trace (SDir info (inr l)))) with
    ([In "D"] ++ reads (print_4o (Z.land (fi_Mode info) 4095) ++ [SPACE]) ++ reads (text "0" ++ [SPACE]) ++
     reads (fi_Name info ++ [NEWLINE]) ++ [Out (ack 0)] ++ dual (concat (tree_trace preserve <$> l)) ++ In "E" :: [In NEWLINE; Out (ack 0)]).
  2:{ cbn [entry_trace]. unfold dir_trace, dir_text. rewrite !dual_app, !dual_writes, !reads_app, <- !(assoc_L (++)). done. }
  unfold ReceiveDirectory. eapply runs_bind; [apply runs_readByte|]. cbn [Ascii.eqb negb].
  eapply runs_bind; [apply runs_readString, space_plain, print_4o_plain|].
  eapply runs_pure; [apply runs_parse, ParseUint_print_4o, land_4095|].
  eapply runs_bind; [apply runs_readString, zero_space|]. eapply runs_bind; [by apply runs_readString|].
  eapply runs_bind; [apply runs_confirm|]. rewrite resolve_absolute by done.
  destruct (Stat_dir fs parts Hd) as (m & t & Hst). eapply runs_pure; [apply runs_fs_stat|]. rewrite Hst.
  rewrite Join_child by done. fold q. rewrite resolve_absolute by done.
  eapply runs_pure; [apply runs_fs_stat|]. unfold q at 1. rewrite Stat_child by done. fold q.
  eapply (runs_pure _ _ _ fs1).
  { apply runs_fs_op. unfold Mkdir. rewrite Hos, Hq. unfold q. by rewrite add_child, syscallMode_perm. }
  apply runs_process_all; [done..| |lia|done|by apply directory_child|].
  { apply Forall_forall. intros c _ rel. rewrite <- (assoc_L (++)). by apply child_not_under. }
  change [In NEWLINE; Out (ack 0)] with (reads [NEWLINE] ++ [Out (ack 0)]). rewrite app_comm_cons.
  change (In "E" :: reads [NEWLINE]) with (reads (text "E" ++ [NEWLINE])).
  eapply runs_bind; [apply runs_readString; vm_compute; set_solver|]. rewrite bool_decide_false by naive_solver.
  assert (install_all l q fs1 !! q = Some (FDir (created_mode info) None)) as Hlast.
  { apply install_all_parent; [done|]. apply lookup_insert_eq. }
  eapply (runs_pure _ _ _ (install (SDir info (inr l)) parts fs)); [|apply runs_confirm].
  cbn [install source_name]. fold q fs1. fold (install_all l q fs1). unfold times_of, delivered_times. destruct preserve.
  - apply runs_fs_op. unfold Chtimes, change. by rewrite Hos, Hlast.
  - rewrite insert_id by done. apply runs_ret.
Qed.

Lemma all_received t : received t.
Proof.
  revert t. refine (source_tree_ind _ _ _ _ _); [done| |done|].
  - intros info content Hc fuel parts fs _ Hs Hd Hn. apply runs_ReceiveFile; [done..|]. specialize (Hn []). by rewrite app_nil_r in Hn.
  - intros info l IH. by apply received_dir.
Qed.
End Receiver.
