(* ===== verification/ScpCopies.v ===== *)
(** * Copies are complete

    The receiver's fuel is enough for every input, and a sender and a receiver copy a
    tree exactly. *)
From Stdlib Require Import ZArith Lia Ascii.
From S2P Require Import Prelude GoStrings Scp ScpTrace ScpProps.

(** ** What is read is used up *)

Definition shrinks {A} (m : M A) : Prop := forall s, length (s_in (m s).2) <= length (s_in s).
Definition consumes {A} (m : M A) : Prop := forall s a s', m s = (Done a, s') -> length (s_in s') < length (s_in s).
(** Alike, and not out of fuel, on inputs of less than [n] bytes. *)
Definition same_below {A} (n : nat) (m m' : M A) : Prop := forall s, length (s_in s) < n -> m s = m' s /\ (m s).1 <> OutOfFuel.

Create HintDb scp.

Lemma shrinks_bind {A B} (m : M A) (k : A -> M B) : shrinks m -> (forall a, shrinks (k a)) -> shrinks (bind m k).
Proof.
  intros Hm Hk s. unfold bind. specialize (Hm s). destruct (m s) as [[a| | |] s']; cbn in *; try done.
  specialize (Hk a s'). lia.
Qed.
Lemma shrinks_attempt {A} (m : M A) : shrinks m -> shrinks (attempt m).
Proof. intros Hm s. unfold attempt. specialize (Hm s). by destruct (m s) as [[] ?]. Qed.
Lemma until_length d s w rest : until d s = Some (w, rest) -> length rest < length s.
Proof.
  revert w. induction s as [|c s IH]; intros w; cbn; [done|]. destruct (Ascii.eqb c d); [intros [= <- <-]; lia|].
  destruct (until d s) as [[w' r]|]; cbn; [|done]. intros [= <- <-]. specialize (IH w' eq_refl). lia.
Qed.
Lemma shrinks_readString d : shrinks (readString d).
Proof.
  intros s. unfold readString, starved. destruct (until d (s_in s)) as [[w r]|] eqn:E; cbn; [apply until_length in E; lia|].
  destruct (s_closed s); cbn; lia.
Qed.
Lemma shrinks_readByte : shrinks readByte.
Proof. intros s. unfold readByte, starved. destruct (s_in s) eqn:E; [destruct (s_closed s)|]; cbn; rewrite ?E; cbn; lia. Qed.
Lemma shrinks_peekByte : shrinks peekByte.
Proof. intros s. unfold peekByte, starved. destruct (s_in s) eqn:E; [destruct (s_closed s)|]; cbn; rewrite ?E; cbn; lia. Qed.
Lemma shrinks_copy p n : shrinks (copy_to_file p n).
Proof.
  intros s. unfold copy_to_file, starved. case_bool_decide; cbn; rewrite ?length_drop; [lia|].
  destruct (s_closed s); cbn; rewrite length_drop; lia.
Qed.
Lemma shrinks_write bs : shrinks (write bs).
Proof. intros s. unfold write. by destruct (s_writes s) as [[]|]. Qed.
Lemma shrinks_fs_op f : shrinks (fs_op f).
Proof. intros s. unfold fs_op. by destruct (f (s_fs s)). Qed.
Lemma shrinks_parse r s : shrinks (parse r s).
Proof. destruct r; by intros ?. Qed.
Lemma shrinks_ret {A} (a : A) : shrinks (ret a).
Proof. by intros s. Qed.
Lemma shrinks_fail {A} e : shrinks (fail (A := A) e).
Proof. by intros s. Qed.
Lemma shrinks_stat os p : shrinks (fs_stat os p).
Proof. by intros s. Qed.
Lemma shrinks_stderr m : shrinks (print_stderr m).
Proof. by intros s. Qed.
Lemma shrinks_fuel {A} : shrinks (out_of_fuel (A := A)).
Proof. by intros s. Qed.
#[export] Hint Resolve shrinks_attempt shrinks_readString shrinks_readByte shrinks_peekByte shrinks_copy shrinks_write
  shrinks_fs_op shrinks_parse shrinks_ret shrinks_fail shrinks_stat shrinks_stderr shrinks_fuel : scp.

(** Through a program, one bind and one case at a time. *)
Ltac through :=
  repeat first
    [ progress intros
    | apply shrinks_bind
    | apply shrinks_attempt
    | match goal with
      | |- shrinks (match ?x with _ => _ end) => destruct x
      | |- shrinks (let '(_, _) := ?x in _) => destruct x
      end
    | solve [eauto with scp] ].

Lemma shrinks_await : shrinks awaitConfirmation.
Proof. unfold awaitConfirmation. through. Qed.
Lemma shrinks_confirm : shrinks sendConfirmation.
Proof. apply shrinks_write. Qed.
#[export] Hint Resolve shrinks_await shrinks_confirm : scp.
Lemma shrinks_report Error e : shrinks (report_error Error e).
Proof. unfold report_error, sendError. through. Qed.
#[export] Hint Resolve shrinks_report : scp.
Lemma shrinks_reporting Error m : shrinks m -> shrinks (reporting Error m).
Proof. intros Hm. unfold reporting. through. Qed.
Lemma shrinks_time : shrinks time_Receive.
Proof. unfold time_Receive. through. Qed.
#[export] Hint Resolve shrinks_time : scp.
Lemma shrinks_receive_times w : shrinks (receive_times w).
Proof. unfold receive_times. through. Qed.
#[export] Hint Resolve shrinks_receive_times : scp.

Lemma consumes_first {B} (k : ascii -> M B) : (forall c, shrinks (k c)) -> consumes (bind readByte k).
Proof.
  intros Hk s a s'. unfold bind, readByte. destruct (s_in s) as [|c rest] eqn:E.
  { unfold starved. by destruct (s_closed s). }
  intros Hs. specialize (Hk c (with_in rest s)). rewrite Hs in Hk. cbn in *. lia.
Qed.

Section Fuel.
Context (Error : scp_error -> chars) (os : OS).

Lemma consumes_ReceiveFile p path d tm : consumes (ReceiveFile os p path d tm).
Proof. unfold ReceiveFile. apply consumes_first. through. Qed.
Lemma consumes_ReceiveDirectory proc p dir tm : (forall d, shrinks (proc d)) -> consumes (ReceiveDirectory os proc p dir tm).
Proof. intros Hp. unfold ReceiveDirectory. apply consumes_first. through. Qed.

Lemma shrinks_ReceiveFile p path d tm : shrinks (ReceiveFile os p path d tm).
Proof. unfold ReceiveFile. through. Qed.
Lemma shrinks_ReceiveDirectory proc p dir tm : (forall d, shrinks (proc d)) -> shrinks (ReceiveDirectory os proc p dir tm).
Proof. intros Hp. unfold ReceiveDirectory. through. Qed.
#[local] Hint Resolve shrinks_ReceiveFile shrinks_ReceiveDirectory : scp.
Lemma shrinks_process fuel p dir : shrinks (processDirectoryMessages os fuel p dir).
Proof. revert dir. induction fuel as [|fuel IH]; intros dir; cbn [processDirectoryMessages]; through. Qed.
#[local] Hint Resolve shrinks_process : scp.

(** ** The fuel is enough *)

(** Programs without fuel. *)
Definition total {A} (m : M A) : Prop := forall s, (m s).1 <> OutOfFuel.

Lemma same_total {A} n (m : M A) : total m -> same_below n m m.
Proof. intros Hm s _. by split. Qed.
Lemma same_bind {A B} n (m m' : M A) (k k' : A -> M B) : same_below n m m' -> shrinks m -> (forall a, same_below n (k a) (k' a)) ->
  same_below n (bind m k) (bind m' k').
Proof.
  intros Hm Hs Hk s Hn. unfold bind. destruct (Hm s Hn) as [<- Ho]. specialize (Hs s).
  destruct (m s) as [[a| | |] s']; cbn in *; try done. apply Hk. lia.
Qed.
Lemma same_bind_consumes {A B} n (m m' : M A) (k k' : A -> M B) : same_below (S n) m m' -> consumes m -> (forall a, same_below n (k a) (k' a)) ->
  same_below (S n) (bind m k) (bind m' k').
Proof.
  intros Hm Hc Hk s Hn. unfold bind. destruct (Hm s Hn) as [<- Ho]. destruct (m s) as [[a| | |] s'] eqn:E; cbn in *; try done.
  apply Hk. apply Hc in E. lia.
Qed.
Lemma same_attempt {A} n (m m' : M A) : same_below n m m' -> same_below n (attempt m) (attempt m').
Proof. intros Hm s Hn. unfold attempt. destruct (Hm s Hn) as [<- Ho]. by destruct (m s) as [[] ?]. Qed.
Lemma same_weaken {A} n n' (m m' : M A) : n' <= n -> same_below n m m' -> same_below n' m m'.
Proof. intros Hle Hm s Hn. apply Hm. lia. Qed.

Lemma total_bind {A B} (m : M A) (k : A -> M B) : total m -> (forall a, total (k a)) -> total (bind m k).
Proof. intros Hm Hk s. unfold bind. specialize (Hm s). destruct (m s) as [[] ?]; try done. apply Hk. Qed.
Lemma total_attempt {A} (m : M A) : total m -> total (attempt m).
Proof. intros Hm s. unfold attempt. specialize (Hm s). by destruct (m s) as [[] ?]. Qed.

Lemma total_parse r s : total (parse r s).
Proof. by destruct r. Qed.
#[local] Hint Resolve total_parse : scp.

Ltac totally :=
  repeat first
    [ progress intros
    | apply total_bind
    | apply total_attempt
    | match goal with
      | |- total (match ?x with _ => _ end) => destruct x
      | |- total (let '(_, _) := ?x in _) => destruct x
      end
    | solve [eauto with scp]
    | solve [intros ?; cbv [readString readByte peekByte copy_to_file write fs_op parse ret fail fs_stat print_stderr starved];
             repeat match goal with |- (match ?x with _ => _ end).1 <> _ => destruct x | |- (let '(_, _) := ?x in _).1 <> _ => destruct x end; done] ].

Lemma total_await : total awaitConfirmation.
Proof. unfold awaitConfirmation. totally. Qed.
Lemma total_confirm : total sendConfirmation.
Proof. unfold sendConfirmation. totally. Qed.
#[local] Hint Resolve total_await total_confirm : scp.
Lemma total_report e : total (report_error Error e).
Proof. unfold report_error, sendError. totally. Qed.
Lemma total_time : total time_Receive.
Proof. unfold time_Receive. totally. Qed.
#[local] Hint Resolve total_report total_time : scp.
Lemma total_receive_times w : total (receive_times w).
Proof. unfold receive_times. totally. Qed.
Lemma total_ReceiveFile p path d tm : total (ReceiveFile os p path d tm).
Proof. unfold ReceiveFile. totally. Qed.
#[local] Hint Resolve total_receive_times total_ReceiveFile : scp.

Lemma same_ReceiveDirectory n proc proc' p dir tm : (forall d, same_below n (proc d) (proc' d)) -> (forall d, shrinks (proc d)) ->
  same_below (S n) (ReceiveDirectory os proc p dir tm) (ReceiveDirectory os proc' p dir tm).
Proof.
  intros Hs Hp. unfold ReceiveDirectory. apply same_bind_consumes; [apply same_total; totally| |].
  { intros s a s'. unfold readByte, starved. destruct (s_in s) as [|c r] eqn:E; [by destruct (s_closed s)|]. intros [= <- <-]. cbn. lia. }
  intros c. destruct (negb _); [apply same_total; totally|].
  repeat (apply same_bind; [apply same_total; totally|through|intros ?]).
  apply same_bind; [apply Hs|apply Hp|intros ?]. apply same_total. totally.
Qed.

Lemma same_process fuel fuel' p dir :
  same_below (fuel `min` fuel') (processDirectoryMessages os fuel p dir) (processDirectoryMessages os fuel' p dir).
Proof.
  revert fuel' dir. induction fuel as [|fuel IH]; intros fuel' dir; [intros s Hs; cbn in Hs; lia|]. destruct fuel' as [|fuel']; [intros s Hs; cbn in Hs; lia|].
  change (S fuel `min` S fuel') with (S (fuel `min` fuel')). cbn [processDirectoryMessages].
  apply same_bind; [apply same_total; totally|through|]. intros [tm c]. destruct (Ascii.eqb c "D"); [|destruct (Ascii.eqb c "C")].
  - apply same_bind_consumes; [|apply consumes_ReceiveDirectory; through|intros ?; apply IH].
    apply same_ReceiveDirectory; [intros ?; apply IH|through].
  - apply same_bind_consumes; [apply same_total; totally|apply consumes_ReceiveFile|intros ?; apply IH].
  - apply same_total. totally.
Qed.

Lemma same_reporting n m m' : same_below n m m' -> shrinks m -> same_below n (reporting Error m) (reporting Error m').
Proof. intros Hm Hs. unfold reporting. apply same_bind; [by apply same_attempt|through|]. intros ?. apply same_total. totally. Qed.
Lemma consumes_reporting m : consumes m -> consumes (reporting Error m).
Proof.
  intros Hm s a s'. unfold reporting, bind, attempt. destruct (m s) as [[b|e| |] s1] eqn:E; [|by destruct report_error as [[] ?]|done..].
  intros [= <- <-]. by eapply Hm.
Qed.

Lemma same_receive_loop fuel fuel' opts d :
  same_below (fuel `min` fuel') (receive_loop Error os fuel opts d) (receive_loop Error os fuel' opts d).
Proof.
  revert fuel'. induction fuel as [|fuel IH]; intros fuel'; [intros s Hs; cbn in Hs; lia|]. destruct fuel' as [|fuel']; [intros s Hs; cbn in Hs; lia|].
  change (S fuel `min` S fuel') with (S (fuel `min` fuel')). cbn [receive_loop].
  set (one f tm c := if Ascii.eqb c "C" then ReceiveFile os (o_PreserveTimesAndMode opts) (o_Target opts) d tm
    else if Ascii.eqb c "D" then ReceiveDirectory os (processDirectoryMessages os f (o_PreserveTimesAndMode opts)) (o_PreserveTimesAndMode opts) (o_Target opts) tm
    else fail (UnexpectedMessage c)).
  assert (forall tm c, same_below (S (fuel `min` fuel'))
    (reporting Error (one (S fuel) tm c) ;;; receive_loop Error os fuel opts d) (reporting Error (one (S fuel') tm c) ;;; receive_loop Error os fuel' opts d)) as Hone.
  { intros tm c. apply same_bind_consumes; [|apply consumes_reporting|intros ?; apply IH]; unfold one.
    - apply same_reporting; [|through]. destruct (Ascii.eqb c "C"); [apply same_total; totally|]. destruct (Ascii.eqb c "D"); [|apply same_total; totally].
      apply same_ReceiveDirectory; [intros ?|through]. eapply same_weaken; [|apply same_process]. lia.
    - destruct (Ascii.eqb c "C"); [apply consumes_ReceiveFile|]. destruct (Ascii.eqb c "D"); [apply consumes_ReceiveDirectory; through|]. by intros s a s'. }
  unfold peek_or_end. apply same_bind; [apply same_total; totally|through|]. intros [c|]; [|apply same_total; totally].
  destruct (Ascii.eqb c "T"); [|apply Hone]. apply same_bind; [apply same_total; totally|through|]. intros [e|tm]; [apply same_total; totally|].
  apply same_bind; [apply same_total; totally|through|]. intros [c'|]; [|apply same_total; totally]. apply Hone.
Qed.

(** The receiver comes to an end, or waits, on every input. *)
Lemma copy_target_total opts : total (copy_target Error os opts).
Proof.
  unfold copy_target. apply total_bind; [totally|]. intros target. case_match; [totally|]. apply total_bind; [totally|]. intros ? s.
  apply (same_receive_loop (input_fuel s) (input_fuel s)). unfold input_fuel. lia.
Qed.
End Fuel.

(** ** The receiver's side *)

(** A program that follows the conversation, then waits until the other side closes. *)
Definition serving (m : M ()) (fs : FS) (tr : trace) (fs' : FS) : Prop :=
  (forall out err, exists s, m (mkSession (ins tr) false out err None fs) = (Waiting, s) /\ s_out s = out ++ outs tr) /\
  (forall out err, exists s, m (mkSession (ins tr) true out err None fs) = (Done (), s) /\ s_out s = out ++ outs tr /\ s_fs s = fs') /\
  (forall k out err, k < length (ins tr) -> exists s,
     m (mkSession (take k (ins tr)) false out err None fs) = (Waiting, s) /\ s_out s = out ++ outs (cut tr k)).

Lemma serving_serves m fs tr fs' : serving m fs tr fs' -> serves m fs tr fs'.
Proof. intros (H1 & H2 & H3). split_and!; [|apply H1|apply H2]. intros k Hk. by apply H3. Qed.

Lemma serving_bind {A} (m : M A) (k : A -> M ()) fs fs1 fs2 t1 t2 a :
  runs m fs t1 a fs1 -> serving (k a) fs1 t2 fs2 -> serving (bind m k) fs (t1 ++ t2) fs2.
Proof.
  intros [M1 M2] (K1 & K2 & K3). unfold bind. split_and!.
  - intros out err. rewrite ins_app, M1, outs_app, (assoc_L (++)). apply K1.
  - intros out err. rewrite ins_app, M1, outs_app, (assoc_L (++)). apply K2.
  - intros n out err Hn. rewrite ins_app in *. rewrite length_app in Hn. destruct (decide (n < length (ins t1))) as [Hlt|Hge].
    + rewrite take_app_le by lia. destruct (M2 n out err Hlt) as (s & -> & Hs). exists s. by rewrite cut_app_l.
    + replace n with (length (ins t1) + (n - length (ins t1))) by lia. rewrite take_app_add, M1, cut_app_r, outs_app, (assoc_L (++)).
      apply K3. lia.
Qed.
Lemma serving_peek (k : option ascii -> M ()) c fs tr fs' : serving (k (Some c)) fs (In c :: tr) fs' -> serving (bind peek_or_end k) fs (In c :: tr) fs'.
Proof.
  intros (K1 & K2 & K3). split_and!; [apply K1|apply K2|]. intros n out err Hn. destruct n as [|n].
  - eexists. split; [done|]. cbn. by rewrite app_nil_r.
  - apply (K3 (S n) out err Hn).
Qed.
Lemma serving_end (k : option ascii -> M ()) fs : k None = ret () -> serving (bind peek_or_end k) fs [] fs.
Proof.
  intros Hk. split_and!.
  - intros out err. eexists. split; [done|]. cbn. by rewrite app_nil_r.
  - intros out err. unfold bind at 1. cbn. rewrite Hk. eexists. split; [done|]. cbn. by rewrite app_nil_r.
  - intros n out err Hn. cbn in Hn. lia.
Qed.

Section Target.
Context (Error : scp_error -> chars) (os : OS) (Hos : forall op p, os_fails os op p = None) (opts : Options).
Context (parts : list chars) (Hs : Forall simple parts) (Ht : o_Target opts = absolute parts).
Abbreviation preserve := (o_PreserveTimesAndMode opts).

Lemma serving_loop l fuel fs : forallb copyable l = true -> NoDup (source_name <$> l) ->
  Forall (fun t => nothing_under fs (parts ++ [source_name t])) l -> sum_list (weight <$> l) < fuel -> directory fs parts ->
  serving (receive_loop Error os fuel opts true) fs (dual (concat (tree_trace preserve <$> l))) (install_all os preserve l parts fs).
Proof.
  revert fuel fs. induction l as [|t l IH]; intros fuel fs.
  { intros _ _ _ Hf _. destruct fuel; [cbn in Hf; lia|]. by apply serving_end. }
  intros [Hc Hcs]%andb_true_iff [Hnin Hnd]%NoDup_cons [Hn Hns]%Forall_cons Hf Hd. destruct fuel as [|fuel]; [lia|].
  change (weight t + sum_list (weight <$> l) < S fuel) in Hf. assert (1 <= weight t) by (destruct t as [| |? []]; cbn; lia).
  assert (serving (receive_loop Error os fuel opts true) (install os preserve t parts fs) (dual (concat (tree_trace preserve <$> l)))
    (install_all os preserve l parts (install os preserve t parts fs))) as Hrest.
  { apply IH; [done..| |lia|by apply directory_install]. rewrite Forall_forall in Hns |- *. intros c Hc'.
    apply nothing_under_install; [done| |by apply Hns]. intros Heq. apply Hnin. rewrite <- Heq. by apply list_elem_of_fmap_2. }
  pose proof (all_received os preserve Hos t Hc (S fuel) parts fs ltac:(lia) Hs Hd Hn) as He.
  cbn [concat fmap list_fmap]. rewrite dual_app, tree_entry_trace, dual_app, <- (assoc_L (++)) by done.
  destruct (entry_trace_head preserve t Hc) as [tr Htr]. change (install_all os preserve (t :: l) parts fs) with (install_all os preserve l parts (install os preserve t parts fs)).
  cbn [receive_loop]. unfold time_trace. pose proof (copyable_info t Hc) as Hi. rewrite Ht. unfold receive_entry, times_of in He.
  destruct preserve; cbn [dual fmap list_fmap app].
  - rewrite dual_app, dual_writes, <- (assoc_L (++)). change (reads (time_text (entry_info t))) with (In "T" :: reads (tail (time_text (entry_info t)))) at 1.
    cbn [app]. apply serving_peek. cbn [Ascii.eqb]. rewrite app_comm_cons.
    change (In "T" :: reads (tail (time_text (entry_info t)))) with (reads (time_text (entry_info t))). rewrite (assoc_L (++)).
    eapply serving_bind; [by apply runs_attempt, runs_time_Receive|]. rewrite Htr. cbn [app]. apply serving_peek. rewrite app_comm_cons, <- Htr.
    eapply serving_bind; [apply runs_reporting|exact Hrest]. destruct t as [| |]; [done|exact He|exact He].
  - rewrite Htr. cbn [app]. apply serving_peek. rewrite app_comm_cons, <- Htr.
    destruct t as [| |]; [done|..]; cbn [entry_type Ascii.eqb]; (eapply serving_bind; [apply runs_reporting; exact He|exact Hrest]).
Qed.

Lemma serves_target l fs : forallb copyable l = true -> NoDup (source_name <$> l) ->
  Forall (fun t => nothing_under fs (parts ++ [source_name t])) l -> directory fs parts ->
  serves (copy_target Error os opts) fs (dual (ok_in ++ concat (tree_trace preserve <$> l))) (install_all os preserve l parts fs).
Proof.
  intros Hc Hnd Hn Hd. apply serving_serves. unfold copy_target. rewrite dual_app.
  destruct (Stat_dir os Hos fs parts Hd) as (m & t & Hst). rewrite Ht, (resolve_absolute os) by done.
  apply (serving_bind _ _ fs fs _ [] _ (Stat os fs parts)); [apply runs_fs_stat|]. rewrite Hst. cbn [is_dir negb]. rewrite andb_false_r. cbn [andb].
  eapply (serving_bind _ _ _ _ _ [Out (ack 0)]); [apply runs_confirm|]. set (tr := dual (concat (tree_trace preserve <$> l))).
  set (F := S (sum_list (weight <$> l) + length (ins tr))).
  assert (forall s, length (s_in s) <= length (ins tr) -> receive_loop Error os (input_fuel s) opts true s = receive_loop Error os F opts true s) as HF.
  { intros s Hlen. apply same_receive_loop. unfold input_fuel, F. lia. }
  destruct (serving_loop l F fs Hc Hnd Hn ltac:(unfold F; lia) Hd) as (S1 & S2 & S3). split_and!.
  - intros out err. rewrite HF by done. apply S1.
  - intros out err. rewrite HF by done. apply S2.
  - intros k out err Hk. rewrite HF by (cbn; rewrite length_take; lia). by apply S3.
Qed.
End Target.

(** ** The sender's side *)

Section Source.
Context (Error : scp_error -> chars) (opts : Options) (env : SourceEnv).
Abbreviation preserve := (o_PreserveTimesAndMode opts).

(** A path that can be sent. *)
Definition sendable (path : chars) : bool :=
  match se_Stat env path with inl _ => false | inr info => negb (fi_IsDir info) || o_Recursive opts end && copyable (se_Open env path).

Definition source_trees : list source := se_Open env <$> concat (expand env <$> o_Sources opts).

Lemma runs_send_all paths fs : forallb sendable paths = true ->
  runs (send_all Error opts env paths None) fs (concat (tree_trace preserve <$> (se_Open env <$> paths))) () fs.
Proof.
  induction paths as [|p paths IH]; [intros _; apply runs_ret|]. intros [[Hst Hc]%andb_true_iff Hp]%andb_true_iff.
  cbn [send_all fmap list_fmap concat]. eapply (runs_bind _ _ fs fs fs _ _ (inr ())); [|by apply IH]. apply runs_attempt. unfold send_source.
  destruct (se_Stat env p) as [e|info]; [done|]. apply orb_true_iff in Hst.
  assert (fi_IsDir info && negb (o_Recursive opts) = false) as ->; [|by apply runs_send].
  destruct Hst as [->%negb_true_iff| ->]; [done|]. apply andb_false_r.
Qed.

Lemma runs_source fs : forallb sendable (concat (expand env <$> o_Sources opts)) = true ->
  runs (copy_source Error opts env) fs (ok_in ++ concat (tree_trace preserve <$> source_trees)) () fs.
Proof. intros Hp. unfold copy_source. eapply runs_bind; [apply runs_await|]. by apply runs_send_all. Qed.
End Source.

Lemma sendable_copyable opts env paths : forallb (sendable opts env) paths = true -> forallb copyable (se_Open env <$> paths) = true.
Proof. induction paths as [|p paths IH]; [done|]. cbn. intros [[_ ->]%andb_true_iff Hp]%andb_true_iff. by apply IH. Qed.

(** A copy of the sources to a directory of the receiver. *)
Record copy_job (sopts ropts : Options) (env : SourceEnv) (os : OS) (fs : FS) (parts : list chars) : Prop := mkJob {
  job_source : o_SourceMode sopts = true;
  job_target : o_SourceMode ropts = false /\ o_TargetMode ropts = true;
  job_preserve : o_PreserveTimesAndMode sopts = o_PreserveTimesAndMode ropts;
  job_os : forall op p, os_fails os op p = None;
  job_simple : Forall simple parts;
  job_path : o_Target ropts = absolute parts;
  job_dir : directory fs parts;
  job_sendable : forallb (sendable sopts env) (concat (expand env <$> o_Sources sopts)) = true;
  job_names : NoDup (source_name <$> source_trees sopts env);
  job_new : Forall (fun t => nothing_under fs (parts ++ [source_name t])) (source_trees sopts env) }.

(** C14: Copies are complete and exact: a sender and a receiver that talk to each other both
    succeed after finitely many rounds, and then every source is in the target
    directory, with all its entries, contents, permissions (less the umask, except for
    files whose mode is preserved) and, when preserved, times, whatever the bytes of the
    files; nothing else of the target's file system has changed
    but the time of the directory.  That supposes ([copy_job]) that both sides preserve
    times and modes or neither does, that no call of the operating system fails, that the
    target is an existing directory with a clean absolute path, and that the sources are
    readable, have times since the epoch and names without slash and newline, different
    ones in each directory and none that the target has already.  Whatever it reads, a
    receiver ends or waits. *)
Theorem scp_copies Error sopts ropts env os fs parts : copy_job sopts ropts env os fs parts ->
  let trees := source_trees sopts env in
  (exists n0 fs', (forall n, n0 <= n -> exists sent answered,
     exchanged (Copy Error os sopts env) (Copy Error os ropts env) fs n = mkExchange sent (Done ()) answered (Done ()) fs') /\
   (forall n rel, n ∈ source_name <$> trees -> fs' !! (parts ++ n :: rel) = found_at os (o_PreserveTimesAndMode ropts) trees n rel) /\
   (forall n rel, n ∉ source_name <$> trees -> fs' !! (parts ++ n :: rel) = fs !! (parts ++ n :: rel)) /\
   (forall p, ~ parts `prefix_of` p -> fs' !! p = fs !! p)) /\
  forall s, (Copy Error os ropts env s).1 <> OutOfFuel.
Proof.
  intros [Hs [Hr1 Hr2] Hp Hos Hsimple Hpath Hdir Hsend Hnd Hnew] trees. unfold Copy. rewrite Hs, Hr1, Hr2.
  pose proof (sendable_copyable _ _ _ Hsend) as Hc. fold (source_trees sopts env) in Hc. fold trees in Hc, Hnd, Hnew.
  split; [|apply copy_target_total]. exists (length (ok_in ++ concat (tree_trace (o_PreserveTimesAndMode sopts) <$> trees)) + 2).
  exists (install_all os (o_PreserveTimesAndMode ropts) trees parts fs).
  assert (forall n rel, install_all os (o_PreserveTimesAndMode ropts) trees parts fs !! (parts ++ n :: rel) =
    if decide (n ∈ source_name <$> trees) then found_at os (o_PreserveTimesAndMode ropts) trees n rel else fs !! (parts ++ n :: rel)) as Hat.
  { intros n rel. apply install_all_at; [|done..]. apply Forall_forall. intros t _ Ht. by apply install_at. }
  split_and!.
  - intros n Hn. eexists _, _. apply exchange_completes; [by apply runs_source| |done]. rewrite Hp. by apply serves_target.
  - intros n rel Hin. by rewrite Hat, decide_True.
  - intros n rel Hin. by rewrite Hat, decide_False.
  - intros p Hpre. clear -Hc Hpre. revert fs. induction trees as [|t l IH]; [done|]. intros fs. apply andb_true_iff in Hc as [Hc Hcs].
    change (install_all os (o_PreserveTimesAndMode ropts) (t :: l) parts fs) with
      (install_all os (o_PreserveTimesAndMode ropts) l parts (install os (o_PreserveTimesAndMode ropts) t parts fs)).
    rewrite IH, install_other, lookup_touch_ne; [done| |done| |done]; [by intros ->|]. intros [r ->]. apply Hpre.
    exists ([source_name t] ++ r). by rewrite (assoc_L (++)).
Qed.

(** ** Copies of concrete trees

    A copy that succeeds, and copies on which the two sides of this implementation do
    not do what scp does. *)

Definition sr_info (name : string) (dir : bool) (mode size mtime : Z) : FileInfo := mkFileInfo (text name) dir mode size mtime (Some 7%Z).
Definition sr_file (name body : string) (mtime : Z) : source :=
  SFile (sr_info name false 438 (Z.of_nat (String.length body)) mtime) (text body).
Definition sr_dir (entries : list source) : source := SDir (sr_info "d" true 511 4096 9) (inr entries).

Definition sr_env (t : source) : SourceEnv :=
  mkSourceEnv (fun p => Some [p]) (fun _ => inr (sr_info "d" true 511 4096 9)) (fun _ => t).
Definition sr_os : OS := mkOS (fun _ _ => None) 18 (text "/").
Definition sr_source : Options := mkOptions true false false true true [text "/d"] [].
Definition sr_target : Options := mkOptions false true true true true [] (text "/t").
Definition sr_fs : FS := {[ [] := FDir 493 None; [text "t"] := FDir 493 None ]}.
Definition sr_error (e : scp_error) : chars := text "failed".

Definition sr_run (t : source) (n : nat) : exchange :=
  exchanged (Copy sr_error sr_os sr_source (sr_env t)) (Copy sr_error sr_os sr_target (sr_env t)) sr_fs n.
Definition sr_tree : source := sr_dir [sr_file "a" "hi" 5; sr_file "b" "" 6].

Lemma sr_job : copy_job sr_source sr_target (sr_env sr_tree) sr_os sr_fs [text "t"].
Proof.
  assert (Forall simple [text "t"]) as Hs by (repeat constructor; vm_compute; set_solver).
  split; [done..|exact Hs|done| |reflexivity| |].
  - intros k Hk. exists 493%Z, None. destruct k as [|k]; [done|]. assert (k = 0) as -> by (cbn in Hk; lia). done.
  - apply NoDup_singleton.
  - constructor; [|constructor]. intros rel. unfold sr_fs. rewrite lookup_insert_ne by done. by rewrite lookup_singleton_ne by by intros [=].
Qed.

Lemma scp_copies_witness : let trees := source_trees sr_source (sr_env sr_tree) in
  (exists n0 fs', (forall n, n0 <= n -> exists sent answered,
     exchanged (Copy sr_error sr_os sr_source (sr_env sr_tree)) (Copy sr_error sr_os sr_target (sr_env sr_tree)) sr_fs n =
     mkExchange sent (Done ()) answered (Done ()) fs') /\
   (forall n rel, n ∈ source_name <$> trees -> fs' !! ([text "t"] ++ n :: rel) = found_at sr_os (o_PreserveTimesAndMode sr_target) trees n rel) /\
   (forall n rel, n ∉ source_name <$> trees -> fs' !! ([text "t"] ++ n :: rel) = sr_fs !! ([text "t"] ++ n :: rel)) /\
   (forall p, ~ [text "t"] `prefix_of` p -> fs' !! p = sr_fs !! p)) /\
  forall s, (Copy sr_error sr_os sr_target (sr_env sr_tree) s).1 <> OutOfFuel.
Proof. exact (scp_copies sr_error sr_source sr_target (sr_env sr_tree) sr_os sr_fs [text "t"] sr_job). Defined.

(** The copy itself: with the modes and times preserved, the files keep their mode, but
    the directory gets its own less the umask. *)
Lemma sr_copied : let x := sr_run sr_tree 40 in
  x_sender x = Done () /\ x_receiver x = Done () /\
  x_fs x !! [text "t"; text "d"; text "a"] = Some (FFile 438 (Some (7, 5)%Z) (text "hi")) /\
  x_fs x !! [text "t"; text "d"; text "b"] = Some (FFile 438 (Some (7, 6)%Z) []) /\
  x_fs x !! [text "t"; text "d"] = Some (FDir 493 (Some (7, 9)%Z)).
Proof. vm_compute. auto. Qed.

(** A file the sender cannot read is reported in the middle of the directory; the
    receiver does not know the report and gives the copy up, with the files after it. *)
Lemma unreadable_aborts :
  let x := sr_run (sr_dir [Unreadable (OsError "permission denied" []); sr_file "b" "" 6]) 40 in
  x_receiver x = Failed (UnexpectedMessage (ack 1)) /\ x_fs x !! [text "t"; text "d"; text "b"] = None.
Proof. vm_compute. auto. Qed.

(** A time before the epoch is written as a negative number, which is not read. *)
Lemma old_time_refused :
  let x := sr_run (sr_dir [sr_file "a" "hi" (-1)]) 40 in
  x_receiver x = Failed (NumError (text "-1")) /\ x_fs x !! [text "t"; text "d"; text "a"] = None.
Proof. vm_compute. auto. Qed.
